(* ===== verification/_CoqProject ===== *)
-Q . S2P
Prelude.v
Bits.v
Serial.v
Port.v
Util.v
Node.v
Leaf.v
NodeFacts.v
NodeUpdate.v
NodeCreate.v
File.v
Wal.v
WalWriter.v
Memory.v
MemoryFacts.v
MemoryQueue.v
MemoryInv.v
Area.v
AreaFacts.v
AreaRecover.v
Storage.v
TwoQ.v
TwoQList.v
TwoQFacts.v
Db.v
DbFacts.v
DbReach.v
Trie.v
TrieWrite.v
TrieRep.v
TrieFind.v
TrieLookup.v
TrieIter.v
TrieSeek.v
TrieStore.v
TrieInsert.v
TrieExec.v
TrieSplit.v
TriePut.v
TrieRemove.v
Bytes.v
BigMem.v
BigMemFacts.v
BigMemDefrag.v
BigMemExample.v
Protocol.v
Request.v
ReplSlot.v
BigStream.v
BigStreamFacts.v
Hash.v
HashFacts.v
Merkle.v
Transfer.v
TransferFacts.v
Merger.v
MergerFacts.v
Confluence.v
ConfluenceFacts.v
MergeTask.v
MergeTaskFacts.v
Tributary.v
TributaryFacts.v
Session.v
SessionFacts.v
HashControl.v
HashControlFacts.v
Purge.v
