(* ===== verification/Prelude.v ===== *)
(** * leaves: a verified model of an embedded trie store

    [leaves] is a header-only C++ library: ordered maps of byte strings, kept as
    tries in pages of a memory-mapped or cached file, with snapshot readers, one
    writer and a write-ahead log. This development translates the core of
    [include/leaves/intern] into executable definitions and proves what the parts
    promise to each other.

    ** The parts and how they interact

    A database is a chain of transactions. Each has the offset of the root of a
    trie and the state of the page allocator. A cursor walks the trie with a stack
    of transitions, one per node. A write copies the pages of other transactions on
    its way to the root, so a version that is committed is never written again;
    pages that drop out are queued with the id of the transaction that freed them,
    and used again when no kept version can reach them. Pages come from areas,
    areas from a pool per file, the pool from growing the file. The log makes
    transactions durable before the file is synchronised; recovery replays it and
    rebuilds the pool. Storages without a mapping read areas through a page cache.

    ** Files

    - [Prelude]: integers at their width, lists, the tactics and hints of all files.
    - [Bits], [Serial], [Port], [Util]: [core/_bits.hpp], [core/_serial.hpp],
      [core/_port.hpp] and [core/_util.hpp]: bit sets of branches, transaction ids
      that wrap around, bit scans, typed offsets, alignment, and the comparison of
      keys with every set of vector instructions.
    - [Node], [Leaf]: the two node layouts of [core/_node.hpp], every constructor
      and every lookup. [NodeFacts], [NodeUpdate], [NodeCreate]: a node is a sorted
      set of branches with links; each operation is related to that view.
    - [File], [Wal], [WalWriter]: the write loops of [core/_port.hpp]; the format,
      the parser and the writer of [storage/_wal.hpp]; what a crash leaves.
    - [Memory], [MemoryFacts], [MemoryQueue], [MemoryInv]: the page allocator of
      [memory/_memory.hpp].
    - [Area], [AreaFacts], [AreaRecover], [Storage]: the areas of
      [memory/_memory.hpp], their recovery, and the file of [storage/_mmap.hpp].
    - [TwoQ], [TwoQList], [TwoQFacts]: the page cache [memory/_twoquecache.hpp].
    - [Db], [DbFacts], [DbReach]: the transactions of [db/_db.hpp].
    - [Trie], [TrieWrite]: the cursor of [db/_cursor.hpp] with [db/_inserter.hpp]
      and [db/_deleter.hpp]. [TrieRep]: the map that a trie in memory stands for and
      the path of a cursor in it. [TrieFind], [TrieLookup]: searches. [TrieIter],
      [TrieSeek]: iteration. [TrieStore]: copy-on-write. [TrieInsert], [TrieSplit],
      [TrieExec], [TriePut]: insertion. [TrieRemove]: deletion.
    - [Bytes], [BigMem], [BigMemFacts], [BigMemDefrag], [BigMemExample]: the chunks of
      big values in [memory/_bigmemory.hpp], on the interfaces of a map with cursors
      and of a source of areas.
    - [Protocol], [Request], [ReplSlot], [BigStream], [BigStreamFacts]: replication.
      Messages and how they are received, acknowledgements and what they prune, the
      slots that keep areas of receivers over a crash, and the stream of big values
      from the sender to the area of the receiver.
    - [Hash], [HashFacts], [Merkle]: the hash trie of [replication/_hash.hpp], how an
      update makes it follow the data trie, and what equal hashes mean.
    - [Transfer], [TransferFacts]: the exchange of tries in
      [replication/_transfer.hpp], [util/_transfer_trie.hpp] and
      [replication/_replication_fsm.hpp].
    - [Session], [SessionFacts]: the machines of the sender and of the receiver in
      [replication/_replication_fsm.hpp]. [HashControl], [HashControlFacts], [Purge]: who
      may use the hash tries, and the purge of tombstones, of
      [replication/_replication_db.hpp].
    - [Merger], [MergerFacts]: the merge of one trie into another in
      [util/_merger.hpp].
    - [Confluence], [ConfluenceFacts], [MergeTask], [MergeTaskFacts], [Tributary],
      [TributaryFacts]: several writers in [multi/_confluence_db.hpp] and
      [multi/_tributary.hpp]: reading a main database and its tributaries as one, the
      wake-up of the task that merges them, and the life of a slot.

    ** What is proved

    - Tries. A search finds exactly the keys of the map, also when the cursor keeps
      its stack from the search before, unless that search failed and the cursor stands
      at the very key that is sought next; a write makes the trie the map with the key
      bound to the value, a removal the map without the key, and both leave every other
      version as it was, a write where no value in its way is big; [first], [last],
      [next] and [prev] go to the extreme and the neighbouring keys, also from where a
      search failed, a scan lists all of them in order, and removing at the cursor until
      it is invalid empties a trie without the empty key.
    - Big values. Chunks in use and free chunks tile the areas; allocation, release
      and merging keep that, lose no byte and respect the transactions of readers;
      merging does so where a value that looks like a free chunk is one.
    - Replication. A message arrives whole however it is cut, an acknowledgement
      prunes what it was meant to prune, the scan of one ends on any bytes, every
      area is known to exactly one owner whatever receivers and crashes do, and every
      big value that was sent can be read from the area of the receiver, if the area was
      not filled to its last byte. An update of the hash trie loses no page and yields
      the hashes of the data at hand, if no key was removed since the last one; tries
      with equal hashes have the same keys and the same values, a big value counting by
      its place, if no two strings collide and the keys have one length. The exchange of
      two sides whose roots have a prefix ends with every entry collected or known. The
      two machines of a session go
      in step and end; a session reads hash tries of its own version; a purge removes
      the tombstones that are due and comes back when the next one is.
    - Merging. A merge leaves every key as the policy decides; no page and no chunk
      leaks or dangles, if the policy adds whatever it is asked for.
    - Several writers. A search in a confluence reads what merging its tributaries in
      the order of their transactions leaves, where no tributary has a key together with
      its deletion and no cursor was left invalid at the key; a scan lists what merging
      them without their deletions leaves. Whichever merges throw, every request is
      served and each slot is merged or put back; the pins of a slot are counted right
      under any interleaving.
    - Versions. The steps of writer and readers refine a store of versions; a pinned
      version survives; a rollback leaves the database as before the transaction
      started; what is recycled is old.
    - Log. Whatever the history and wherever the file is cut, recovery yields every
      transaction that was committed and not flushed, in order, and none that is not of
      the history; one that was flushed may be among them.
    - Memory. No page and no area is handed out twice or lost, in the allocator of a
      transaction, in the pool, in its recovery and when the file grows; in the
      allocator while the queue of container pages is [memoryinv.guarded].
    - Cache. The 2Q cache is its textbook algorithm on sequences, within its limits.
    - Nodes and integers. In-place and copying updates of a node agree, sizes fit
      their fields, every vector path compares like the byte loop.

    Lemmas named after a defect ([write_after_prepare_is_lost],
    [find_after_longer_key_misses], [put_after_longer_key_doubles],
    [remove_empty_key_loses_position], [defrag_trusts_old_values],
    [free_loses_pages], [find_after_longer_undeletes] and others) run the definitions
    on an input where the code does not do what it promises elsewhere. They are why
    the theorems above have conditions; the comment of a theorem says which condition
    it has and names the lemma that fails without it.

    ** Conventions and bounds

    Byte strings are lists of integers in [0, 256). A [w]-bit integer is a [Z] that
    is wrapped where the code stores it in a field that can overflow. A pointer is a
    page and the memory is a function from pages to nodes, so aliasing is kept; what
    has no defined value reads as a blank node. Results are [option], [None] for
    what throws or aborts, or a sum type where the code distinguishes errors.

    Fuel bounds recursion. A search and an iteration need two units more than the
    longest key has bytes, for every node but the last consumes a byte of the key or
    is its end. The allocator recurses at most three deep, so four units are enough.
    The loops of the log, of the cache and of the pool are bounded by the length of
    what they traverse. Each has a theorem that says it returns.

    ** Not modelled

    In a database a step is atomic, and interleavings are sequences of steps of writer
    and readers; [MergeTask], [Tributary] and [HashControl] go down to single atomic
    accesses. Not modelled are the merge policy of a receiver with its two phases, the
    allocation of slots across processes, the refresh of sources by epochs and their
    recovery, the layers of the cursor that join it to the log and to transactions, and
    the directory of databases: these are sequences of calls to the parts above, and
    their states are those of the parts. The map of a page to a file offset inside a
    cached storage, system calls other than the positioned reads and writes, thread
    pools, compression, and everything that only prints or measures have no state of the
    store in them. *)
From Stdlib Require Export ZArith Lia Bool.
From stdpp Require Export base tactics list gmap numbers option.

#[export] Set Default Goal Selector "!".
Open Scope Z_scope.

(** ** Machine integers *)

(** An unsigned [w]-bit integer is the [Z] in [0, 2^w); a C++ conversion to
    the type is [wrap w]. *)
Definition wrap (w x : Z) : Z := x mod 2 ^ w.

Declare Scope leaves_scope.
Delimit Scope leaves_scope with leaves.
Notation "'u8' x" := (wrap 8 x) (at level 10, x at level 9) : leaves_scope.
Notation "'u16' x" := (wrap 16 x) (at level 10, x at level 9) : leaves_scope.
Notation "'u32' x" := (wrap 32 x) (at level 10, x at level 9) : leaves_scope.
Notation "'u64' x" := (wrap 64 x) (at level 10, x at level 9) : leaves_scope.
Open Scope leaves_scope.

(** [zfilter p lo n] lists the integers of [lo, lo+n) that satisfy [p], in
    increasing order; [zcount] is its length. Both the bit masks and the branch
    keys of a trie node are described with them. *)
Definition zfilter (p : Z -> bool) (lo n : Z) : list Z :=
  filter (fun i => Is_true (p i)) (seqZ lo n).

Definition zcount (p : Z -> bool) (lo n : Z) : Z :=
  Z.of_nat (length (zfilter p lo n)).

(** [zsum f n] is [f 0 + ... + f (n-1)]. *)
Definition zsum (f : Z -> Z) (n : Z) : Z := foldr (fun i acc => f i + acc) 0 (seqZ 0 n).

(** [insert_at k x l] opens a slot at index [k]; [remove_at k l] closes it. *)
Definition insert_at {A} (k : nat) (x : A) (l : list A) : list A :=
  take k l ++ x :: drop k l.

Definition remove_at {A} (k : nat) (l : list A) : list A :=
  take k l ++ drop (S k) l.

(** [upd f i v] is the memory [f] after the word at [i] became [v]. *)
Definition upd {A} (f : Z -> A) (i : Z) (v : A) : Z -> A := fun j => if j =? i then v else f j.

(** ** Automation *)

Create HintDb leaves.
Create Rewrite HintDb leaves.

(** [Forall] over a concrete list of numbers. *)
Ltac forall_lia := repeat first [apply list.Forall_nil_2 | apply list.Forall_cons_2; [lia|]].

(** Turn boolean comparisons into propositions of linear arithmetic. *)
Ltac zbool :=
  repeat match goal with
  | H : (_ =? _) = true |- _ => apply Z.eqb_eq in H
  | H : (_ =? _) = false |- _ => apply Z.eqb_neq in H
  | H : (_ <? _) = true |- _ => apply Z.ltb_lt in H
  | H : (_ <? _) = false |- _ => apply Z.ltb_ge in H
  | H : (_ <=? _) = true |- _ => apply Z.leb_le in H
  | H : (_ <=? _) = false |- _ => apply Z.leb_gt in H
  | H : (_ && _) = true |- _ => apply andb_true_iff in H; destruct H
  | H : (_ || _) = false |- _ => apply orb_false_iff in H; destruct H
  | H : negb _ = true |- _ => apply negb_true_iff in H
  | H : negb _ = false |- _ => apply negb_false_iff in H
  end.

(** Case analysis on a boolean comparison of the goal. *)
Ltac zcase :=
  match goal with
  | |- context [?a =? ?b] => destruct (Z.eqb_spec a b)
  | |- context [?a <? ?b] => destruct (Z.ltb_spec a b)
  | |- context [?a <=? ?b] => destruct (Z.leb_spec a b)
  end.
Ltac zcases := repeat (zcase; simpl).

(** Boolean goals about bits: split the comparisons, simplify, conclude. *)
Ltac zbits :=
  zcases; rewrite ?andb_true_r, ?andb_false_r, ?orb_true_r, ?orb_false_r;
  try first [lia | done | congruence].

(** ** Wrapping *)

Lemma wrap_range w x : 0 <= w -> 0 <= wrap w x < 2 ^ w.
Proof. intros. apply Z.mod_pos_bound. apply Z.pow_pos_nonneg; lia. Qed.

Lemma wrap_small w x : 0 <= x < 2 ^ w -> wrap w x = x.
Proof. intros. unfold wrap. by apply Z.mod_small. Qed.

Lemma upd_eq {A} (f : Z -> A) i v : upd f i v i = v.
Proof. unfold upd. by rewrite Z.eqb_refl. Qed.

Lemma upd_ne {A} (f : Z -> A) i j v : j <> i -> upd f i v j = f j.
Proof. unfold upd. by destruct (Z.eqb_spec j i). Qed.

(** ** Filtered integer ranges *)

Lemma zfilter_nonpos p lo n : n <= 0 -> zfilter p lo n = [].
Proof. intros. unfold zfilter. rewrite seqZ_nil by lia. done. Qed.

Lemma zfilter_app p lo a b :
  0 <= a -> 0 <= b -> zfilter p lo (a + b) = zfilter p lo a ++ zfilter p (lo + a) b.
Proof. intros. unfold zfilter. rewrite seqZ_app by lia. by rewrite list.filter_app. Qed.

Lemma zfilter_one p lo : zfilter p lo 1 = if p lo then [lo] else [].
Proof.
  unfold zfilter. rewrite (seqZ_cons lo 1), seqZ_nil by lia.
  destruct (p lo) eqn:E.
  - rewrite filter_cons_True; [done|]. by rewrite E.
  - rewrite filter_cons_False; [done|]. rewrite E. by intros [].
Qed.

Lemma zfilter_cons p lo n :
  0 < n -> zfilter p lo n = (if p lo then [lo] else []) ++ zfilter p (lo + 1) (n - 1).
Proof.
  intros. replace n with (1 + (n - 1)) at 1 by lia.
  rewrite zfilter_app by lia. by rewrite zfilter_one.
Qed.

Lemma zfilter_snoc p lo n :
  0 <= n -> zfilter p lo (n + 1) = zfilter p lo n ++ (if p (lo + n) then [lo + n] else []).
Proof. intros. rewrite zfilter_app by lia. by rewrite zfilter_one. Qed.

Lemma elem_of_zfilter p lo n i :
  i ∈ zfilter p lo n <-> (lo <= i < lo + n /\ p i = true).
Proof.
  unfold zfilter. rewrite list_elem_of_filter, elem_of_seqZ, Is_true_true. tauto.
Qed.

Lemma range_ind (P : Z -> Prop) :
  P 0 -> (forall n, 0 <= n -> P n -> P (n + 1)) -> forall n, 0 <= n -> P n.
Proof. intros H0 HS n Hn. apply (natlike_ind P); auto. Qed.

Lemma zfilter_ext p q lo n :
  (forall i, lo <= i < lo + n -> p i = q i) -> zfilter p lo n = zfilter q lo n.
Proof.
  destruct (Z.le_gt_cases n 0); [by rewrite !zfilter_nonpos|].
  pattern n. apply range_ind; [by rewrite !zfilter_nonpos| |lia].
  intros m Hm IH E. rewrite !zfilter_snoc by lia. rewrite IH by (intros; apply E; lia).
  by rewrite E by lia.
Qed.

(** ** Counting *)

Lemma zcount_app p lo a b :
  0 <= a -> 0 <= b -> zcount p lo (a + b) = zcount p lo a + zcount p (lo + a) b.
Proof. intros. unfold zcount. rewrite zfilter_app, length_app by lia. lia. Qed.

Lemma zcount_one p lo : zcount p lo 1 = if p lo then 1 else 0.
Proof. unfold zcount. rewrite zfilter_one. by destruct (p lo). Qed.

Lemma zcount_snoc p lo n :
  0 <= n -> zcount p lo (n + 1) = zcount p lo n + (if p (lo + n) then 1 else 0).
Proof.
  intros. unfold zcount. rewrite zfilter_snoc, length_app by lia.
  destruct (p (lo + n)); simpl; lia.
Qed.

Lemma zcount_nonpos p lo n : n <= 0 -> zcount p lo n = 0.
Proof. intros. unfold zcount. by rewrite zfilter_nonpos. Qed.

Lemma zcount_ext p q lo n :
  (forall i, lo <= i < lo + n -> p i = q i) -> zcount p lo n = zcount q lo n.
Proof. intros E. unfold zcount. by rewrite (zfilter_ext p q). Qed.

Lemma zcount_bounds p lo n : 0 <= n -> 0 <= zcount p lo n <= n.
Proof.
  revert n. refine (range_ind _ _ _); [rewrite zcount_nonpos; lia|].
  intros m Hm IH. rewrite zcount_snoc by lia. destruct (p (lo + m)); lia.
Qed.

Lemma zcount_nonneg p lo n : 0 <= zcount p lo n.
Proof. unfold zcount. lia. Qed.

Lemma zcount_mono p lo a b : a <= b -> zcount p lo a <= zcount p lo b.
Proof.
  intros. destruct (Z.le_gt_cases a 0).
  { rewrite (zcount_nonpos _ _ a) by lia. apply zcount_nonneg. }
  replace b with (a + (b - a)) by lia. rewrite zcount_app by lia.
  pose proof (zcount_nonneg p (lo + a) (b - a)). lia.
Qed.

Lemma zcount_strict p lo a b x :
  p x = true -> lo + a <= x < lo + b -> 0 <= a -> zcount p lo a < zcount p lo b.
Proof.
  intros Hp Hx Ha. pose proof (zcount_mono p lo a (x - lo) ltac:(lia)).
  pose proof (zcount_mono p lo (x - lo + 1) b ltac:(lia)).
  rewrite zcount_snoc in * by lia. replace (lo + (x - lo)) with x in * by lia.
  rewrite Hp in *. lia.
Qed.

Lemma zcount_zero p lo n :
  0 <= n -> zcount p lo n = 0 <-> forall i, lo <= i < lo + n -> p i = false.
Proof.
  intros Hn. split.
  - intros E i Hi. destruct (p i) eqn:Hp; [|done].
    pose proof (zcount_strict p lo 0 n i Hp ltac:(lia) ltac:(lia)).
    rewrite (zcount_nonpos _ _ 0) in * by lia. lia.
  - intros E. rewrite (zcount_ext p (fun _ => false)) by done.
    clear E. revert n Hn. refine (range_ind _ _ _); [by rewrite zcount_nonpos|].
    intros n Hn IH. rewrite zcount_snoc by lia. lia.
Qed.

(** The position of a member of the range in [zfilter] is the number of members
    below it. *)
Lemma zfilter_lookup_count p lo n x :
  p x = true -> lo <= x < lo + n ->
  zfilter p lo n !! Z.to_nat (zcount p lo (x - lo)) = Some x.
Proof.
  intros Hp Hx. replace n with ((x - lo) + (n - (x - lo))) by lia.
  rewrite zfilter_app by lia. unfold zcount. rewrite Nat2Z.id.
  rewrite lookup_app_r by lia. rewrite Nat.sub_diag.
  rewrite zfilter_cons by lia. replace (lo + (x - lo)) with x by lia. by rewrite Hp.
Qed.

Lemma zfilter_length p lo n : length (zfilter p lo n) = Z.to_nat (zcount p lo n).
Proof. unfold zcount. lia. Qed.

(** Adding one member to the predicate opens a slot at the member's rank;
    removing it closes the slot. *)
Lemma zfilter_insert p q lo n x :
  lo <= x < lo + n -> p x = false -> q x = true ->
  (forall i, i <> x -> q i = p i) ->
  zfilter q lo n = insert_at (Z.to_nat (zcount p lo (x - lo))) x (zfilter p lo n).
Proof.
  intros Hx Hp Hq E. replace n with ((x - lo) + (n - (x - lo))) by lia.
  rewrite !zfilter_app, !(zfilter_cons _ (lo + (x - lo))) by lia.
  replace (lo + (x - lo)) with x by lia. rewrite Hp, Hq. simpl.
  rewrite (zfilter_ext q p lo), (zfilter_ext q p (x + 1)) by (intros; apply E; lia).
  unfold insert_at, zcount. rewrite Nat2Z.id, take_app_length, drop_app_length. done.
Qed.

Lemma zfilter_remove p q lo n x :
  lo <= x < lo + n -> p x = true -> q x = false ->
  (forall i, i <> x -> q i = p i) ->
  zfilter q lo n = remove_at (Z.to_nat (zcount p lo (x - lo))) (zfilter p lo n).
Proof.
  intros Hx Hp Hq E. replace n with ((x - lo) + (n - (x - lo))) by lia.
  rewrite !zfilter_app, !(zfilter_cons _ (lo + (x - lo))) by lia.
  replace (lo + (x - lo)) with x by lia. rewrite Hp, Hq. simpl.
  rewrite (zfilter_ext q p lo), (zfilter_ext q p (x + 1)) by (intros; apply E; lia).
  unfold remove_at, zcount. rewrite Nat2Z.id, take_app_length.
  by rewrite drop_app_ge, Nat.sub_succ_l, Nat.sub_diag by lia.
Qed.

Lemma zcount_insert p q lo n x :
  lo <= x < lo + n -> p x = false ->
  (forall i, lo <= i < lo + n -> q i = (i =? x) || p i) -> zcount q lo n = zcount p lo n + 1.
Proof.
  intros Hx Hp E. rewrite (zcount_ext q _ _ _ E).
  replace n with ((x - lo) + (1 + (n - (x - lo) - 1))) by lia. rewrite !zcount_app by lia.
  rewrite !zcount_one. replace (lo + (x - lo)) with x by lia. rewrite Hp, Z.eqb_refl. simpl.
  rewrite (zcount_ext _ p lo), (zcount_ext _ p (x + 1)); [lia|..];
    intros i Hi; destruct (Z.eqb_spec i x); lia || done.
Qed.

Lemma zcount_remove p q lo n x :
  lo <= x < lo + n -> p x = true ->
  (forall i, lo <= i < lo + n -> q i = p i && negb (i =? x)) -> zcount q lo n = zcount p lo n - 1.
Proof.
  intros Hx Hp E. rewrite (zcount_insert q p lo n x); [lia|lia| |].
  - by rewrite E, Z.eqb_refl, andb_false_r.
  - intros i Hi. rewrite E by lia. destruct (Z.eqb_spec i x) as [->|]; [done|].
    by rewrite andb_true_r.
Qed.

Lemma zcount_shift p lo n : zcount p lo n = zcount (fun i => p (lo + i)) 0 n.
Proof.
  destruct (Z.le_gt_cases n 0); [by rewrite !zcount_nonpos by lia|].
  revert n H. enough (forall n, 0 <= n -> zcount p lo n = zcount (fun i => p (lo + i)) 0 n)
    as E by (intros; apply E; lia).
  refine (range_ind _ _ _); [by rewrite !zcount_nonpos|].
  intros n Hn IH. by rewrite !zcount_snoc, IH by lia.
Qed.

(** ** Sums over a range *)

Lemma zsum_snoc f n : 0 <= n -> zsum f (n + 1) = zsum f n + f n.
Proof.
  intros. unfold zsum. rewrite seqZ_app, foldr_app by lia.
  assert (seqZ (0 + n) 1 = [n]) as -> by (unfold seqZ; simpl; f_equal; lia).
  simpl. rewrite Z.add_0_r. generalize (f n). induction (seqZ 0 n) as [|x l IH]; intros; simpl; [lia|].
  rewrite IH. lia.
Qed.

Lemma zsum_0 f : zsum f 0 = 0.
Proof. done. Qed.

Lemma zsum_ext f g n : (forall i, 0 <= i < n -> f i = g i) -> zsum f n = zsum g n.
Proof.
  destruct (Z.le_gt_cases n 0); [unfold zsum; by rewrite seqZ_nil by lia|].
  revert n H. enough (forall n, 0 <= n -> (forall i, 0 <= i < n -> f i = g i) -> zsum f n = zsum g n)
    as E by (intros; apply E; lia || done).
  refine (range_ind _ _ _); [done|]. intros n Hn IH E.
  rewrite !zsum_snoc, IH, E by (intros; try apply E; lia). done.
Qed.

(** The least member of a filtered range is its head. *)
Lemma zfilter_least p lo n x :
  lo <= x < lo + n -> p x = true -> (forall j, lo <= j < x -> p j = false) ->
  zfilter p lo n = x :: zfilter (fun i => p i && negb (i =? x)) lo n.
Proof.
  intros Hx Hp Hl. assert (zcount p lo (x - lo) = 0) as Z0 by
    (apply zcount_zero; [lia|]; intros; apply Hl; lia).
  rewrite (zfilter_remove p (fun i => p i && negb (i =? x)) lo n x); [|done|done| |].
  - rewrite Z0. pose proof (zfilter_lookup_count p lo n x Hp Hx) as L. rewrite Z0 in L.
    destruct (zfilter p lo n) as [|y l]; simpl in *; [done|]. by injection L as ->.
  - by rewrite Z.eqb_refl, andb_false_r.
  - intros i Hi. simpl. zcase; [done|]. apply andb_true_r.
Qed.

Lemma zfilter_none p lo n : (forall j, lo <= j < lo + n -> p j = false) -> zfilter p lo n = [].
Proof.
  intros H. destruct (Z.le_gt_cases n 0); [by apply zfilter_nonpos|].
  pose proof (proj2 (zcount_zero p lo n ltac:(lia)) H) as E. unfold zcount in E.
  destruct (zfilter p lo n); [done|]. simpl in E. lia.
Qed.

Lemma zfilter_shift p a lo n :
  zfilter p (a + lo) n = map (Z.add a) (zfilter (fun i => p (a + i)) lo n).
Proof.
  destruct (Z.le_gt_cases n 0); [by rewrite !zfilter_nonpos|].
  revert n H. enough (forall n, 0 <= n -> zfilter p (a + lo) n =
    map (Z.add a) (zfilter (fun i => p (a + i)) lo n)) as E by (intros; apply E; lia).
  refine (range_ind _ _ _); [by rewrite !zfilter_nonpos|].
  intros n Hn IH. rewrite !zfilter_snoc, IH, map_app by lia.
  replace (a + lo + n) with (a + (lo + n)) by lia. by destruct (p (a + (lo + n))).
Qed.

(** [number i l] pairs the elements with their indices from [i] on. *)
Fixpoint number {A} (i : Z) (l : list A) : list (A * Z) :=
  match l with [] => [] | x :: l' => (x, i) :: number (i + 1) l' end.

Lemma number_app {A} i (l1 l2 : list A) :
  number i (l1 ++ l2) = number i l1 ++ number (i + Z.of_nat (length l1)) l2.
Proof.
  revert i. induction l1 as [|x l1 IH]; intros i; simpl; [by rewrite Z.add_0_r|].
  rewrite IH. do 3 f_equal. lia.
Qed.

Lemma number_length {A} i (l : list A) : length (number i l) = length l.
Proof. revert i. induction l; intros; simpl; [done|]. by rewrite IHl. Qed.

(** ** Disjoint ranges *)

(** [pairwise R l]: every two elements of [l] at different positions are related. *)
Fixpoint pairwise {A} (R : A -> A -> Prop) (l : list A) : Prop :=
  match l with [] => True | x :: l' => Forall (R x) l' /\ pairwise R l' end.

#[export] Instance pairwise_proper {A} (R : A -> A -> Prop) `{!Symmetric R} :
  Proper ((≡ₚ) ==> iff) (pairwise R).
Proof.
  intros l k P. induction P as [|x l k P IH|x y l|l k m _ IH1 _ IH2]; simpl.
  - done.
  - rewrite IH. enough (Forall (R x) l <-> Forall (R x) k) as -> by done.
    rewrite !list.Forall_forall. split; intros H y Hy; apply H; [by rewrite P|by rewrite <- P].
  - rewrite !list.Forall_cons. split; intros [[? ?] [? ?]]; repeat split; auto.
  - by rewrite IH1.
Qed.

Lemma pairwise_app {A} (R : A -> A -> Prop) l k :
  pairwise R (l ++ k) <-> pairwise R l /\ pairwise R k /\ Forall (fun x => Forall (R x) k) l.
Proof.
  induction l as [|x l IH]; simpl; [split; [intros; by split_and!|tauto]|].
  rewrite IH, Forall_app, list.Forall_cons. tauto.
Qed.

(** Half-open ranges [start, end). *)
Definition disjoint (r1 r2 : Z * Z) : Prop :=
  forall x, fst r1 <= x < snd r1 -> fst r2 <= x < snd r2 -> False.

#[export] Instance disjoint_sym : Symmetric disjoint.
Proof. intros r1 r2 H x ? ?. by eapply H. Qed.

Lemma disjoint_sub a b c d r : a <= c -> d <= b -> disjoint (a, b) r -> disjoint (c, d) r.
Proof. intros H1 H2 H x ??. apply (H x); simpl in *; lia || done. Qed.

(** A range split in two. *)
Lemma pairwise_split x y z l :
  x <= y <= z -> pairwise disjoint ((x, z) :: l) -> pairwise disjoint ((x, y) :: (y, z) :: l).
Proof.
  intros Hy [H1 H2]. simpl. rewrite list.Forall_cons. split_and!; try done.
  - intros w ??. simpl in *. lia.
  - eapply Forall_impl; [|exact H1]. intros r. apply disjoint_sub; lia.
  - eapply Forall_impl; [|exact H1]. intros r. apply disjoint_sub; lia.
Qed.

(** ** Bits *)

Lemma testbit_wrap w x i : 0 <= w -> Z.testbit (wrap w x) i = (i <? w) && Z.testbit x i.
Proof.
  intros. unfold wrap. destruct (Z.ltb_spec i w); simpl.
  - by rewrite Z.mod_pow2_bits_low.
  - by rewrite Z.mod_pow2_bits_high by lia.
Qed.

Lemma testbit_one i : Z.testbit 1 i = (i =? 0).
Proof. destruct i as [|[]|]; reflexivity. Qed.

Lemma testbit_shiftl1 v i : 0 <= v -> Z.testbit (Z.shiftl 1 v) i = (i =? v).
Proof.
  intros. destruct (Z.le_gt_cases 0 i).
  - rewrite Z.shiftl_spec, testbit_one by lia. zcases; lia.
  - rewrite Z.testbit_neg_r by lia. zcases; lia.
Qed.

Lemma testbit_high w x i : 0 <= x < 2 ^ w -> w <= i -> Z.testbit x i = false.
Proof.
  intros Hx Hi. rewrite <- (Z.mod_small x (2 ^ w)) by lia.
  destruct (Z.le_gt_cases 0 w).
  - by rewrite Z.mod_pow2_bits_high by lia.
  - rewrite Z.pow_neg_r in Hx by lia. lia.
Qed.

Lemma testbit_mask v i : 0 <= v -> Z.testbit (Z.shiftl 1 v - 1) i = (0 <=? i) && (i <? v).
Proof.
  intros. rewrite Z.shiftl_1_l, Z.sub_1_r, <- Z.ones_equiv.
  destruct (Z.le_gt_cases 0 i); [|by rewrite Z.testbit_neg_r by lia; zcases; lia].
  destruct (Z.ltb_spec i v).
  - rewrite Z.ones_spec_low by lia. zcases; lia.
  - rewrite Z.ones_spec_high by lia. zcases; lia.
Qed.

Lemma bits_bounded w x :
  0 <= w -> 0 <= x -> (forall i, w <= i -> Z.testbit x i = false) -> x < 2 ^ w.
Proof.
  intros Hw Hx E. assert (x mod 2 ^ w = x) as <-; [|apply Z.mod_pos_bound; lia].
  apply Z.bits_inj'. intros i Hi. destruct (Z.le_gt_cases w i).
  - by rewrite Z.mod_pow2_bits_high, E by lia.
  - by rewrite Z.mod_pow2_bits_low by lia.
Qed.

#[export] Hint Rewrite testbit_wrap testbit_one testbit_shiftl1 testbit_mask
  Z.land_spec Z.lor_spec Z.lxor_spec using lia : leaves.
#[export] Hint Resolve zcount_nonneg : leaves.
