(* ===== verification/Bits.v ===== *)
(** * Bits: the bit-manipulation helpers of [core/_bits.hpp]

    A value of an unsigned [W]-bit type is a [Z] in [0, 2^W). The template
    promotes types below 32 bits to [uint32_t] ([native_unsigned]); [W] is the
    width of the promoted type, so the 8-bit [_upper] bitmap and the 32-bit
    [_lower] bitmaps of a trie node both use [W = 32]. [popcount],
    [countr_zero] and [countl_zero] are the C++20 library functions. The
    reference view of a bitmap is the increasing list of its set bits. *)
From S2P Require Import Prelude.

Module bits.

(** ** The C++ library functions *)

Definition popcount (W x : Z) : Z := zcount (Z.testbit x) 0 W.

Fixpoint ctz_from (n : nat) (x i : Z) : Z :=
  match n with
  | O => i
  | S n' => if Z.testbit x i then i else ctz_from n' x (i + 1)
  end.

Definition countr_zero (W x : Z) : Z := ctz_from (Z.to_nat W) x 0.

Fixpoint clz_from (n : nat) (x acc : Z) : Z :=
  match n with
  | O => acc
  | S n' => if Z.testbit x (Z.of_nat n') then acc else clz_from n' x (acc + 1)
  end.

Definition countl_zero (W x : Z) : Z := clz_from (Z.to_nat W) x 0.

(** ** The helpers of the source *)

Definition count (W bits : Z) : Z := popcount W bits.

Definition isset (bits val : Z) : bool := negb (Z.land bits (Z.shiftl 1 val) =? 0).

Definition set (w bits val : Z) : Z := Z.lor bits (wrap w (Z.shiftl 1 val)).

Definition index (W bits val : Z) : Z :=
  let v := Z.land bits (wrap W (wrap W (Z.shiftl 1 val) - 1)) in
  popcount W v.

Definition first (W bits : Z) : Z :=
  if bits =? 0 then -1 else countr_zero W bits.

Definition last (W bits : Z) : Z :=
  if bits =? 0 then -1 else (W - 1) - countl_zero W bits.

Definition next (W bits index : Z) : Z :=
  if index >=? W - 1 then -1
  else
    let mask := wrap W (Z.lnot (wrap W (wrap W (Z.shiftl 1 (index + 1)) - 1))) in
    let v := Z.land bits mask in
    if v =? 0 then -1 else countr_zero W v.

Definition prev (W bits index : Z) : Z :=
  let mask := wrap W (wrap W (Z.shiftl 1 index) - 1) in
  let v := Z.land bits mask in
  if v =? 0 then -1 else (W - 1) - countl_zero W v.

(** Reference view: the positions of the set bits. *)
Definition members (W x : Z) : list Z := zfilter (Z.testbit x) 0 W.

Definition in_width (W x : Z) : Prop := 0 <= x < 2 ^ W.

#[export] Instance in_width_dec W x : Decision (in_width W x).
Proof. unfold in_width. apply _. Defined.

(** ** Basic facts *)

Lemma isset_testbit b v : 0 <= v -> isset b v = Z.testbit b v.
Proof.
  intros Hv. unfold isset. destruct (Z.testbit b v) eqn:E.
  - apply negb_true_iff, Z.eqb_neq. intros H0.
    assert (Z.testbit (Z.land b (Z.shiftl 1 v)) v = false) as H by (by rewrite H0, Z.bits_0).
    rewrite Z.land_spec, testbit_shiftl1, E, Z.eqb_refl in H by lia. done.
  - apply negb_false_iff, Z.eqb_eq, Z.bits_inj'. intros i Hi.
    rewrite Z.land_spec, testbit_shiftl1, Z.bits_0 by lia.
    zbits.
Qed.

Lemma testbit_set w b v i :
  0 <= v < w -> Z.testbit (set w b v) i = Z.testbit b i || (i =? v).
Proof.
  intros. unfold set. rewrite Z.lor_spec, testbit_wrap, testbit_shiftl1 by lia.
  f_equal. zbits.
Qed.

Lemma wrap_mask W v : 0 <= v < W -> wrap W (wrap W (Z.shiftl 1 v) - 1) = Z.shiftl 1 v - 1.
Proof.
  intros H. assert (0 < 2 ^ v <= 2 ^ W).
  { split; [apply Z.pow_pos_nonneg; lia|apply Z.pow_le_mono_r; lia]. }
  assert (2 ^ v < 2 ^ W) by (apply Z.pow_lt_mono_r; lia).
  rewrite Z.shiftl_1_l. rewrite (wrap_small W (2 ^ v)) by lia. by rewrite wrap_small by lia.
Qed.

Lemma popcount_below W b v :
  0 <= v <= W ->
  popcount W (Z.land b (Z.shiftl 1 v - 1)) = zcount (Z.testbit b) 0 v.
Proof.
  intros. unfold popcount. replace W with (v + (W - v)) at 1 by lia.
  rewrite zcount_app by lia.
  rewrite (zcount_ext _ (Z.testbit b) 0 v), (zcount_ext _ (fun _ => false) (0 + v)).
  - rewrite (proj2 (zcount_zero (fun _ => false) (0 + v) (W - v) ltac:(lia))); [lia|done].
  - intros i Hi. rewrite Z.land_spec, testbit_mask by lia. zbits.
  - intros i Hi. rewrite Z.land_spec, testbit_mask by lia. zbits.
Qed.

Lemma index_count W b v : 0 <= v < W -> index W b v = zcount (Z.testbit b) 0 v.
Proof. intros. unfold index. rewrite wrap_mask by lia. apply popcount_below. lia. Qed.

Lemma members_length W b : Z.of_nat (length (members W b)) = count W b.
Proof. done. Qed.

(** ** Scanning for a set bit *)

Lemma ctz_from_spec n x i r :
  ctz_from n x i = r ->
  i <= r <= i + Z.of_nat n /\ (forall j, i <= j < r -> Z.testbit x j = false) /\
  (r < i + Z.of_nat n -> Z.testbit x r = true).
Proof.
  revert i r. induction n as [|n IH]; simpl; intros i r E.
  - subst r. split_and!; intros; lia.
  - destruct (Z.testbit x i) eqn:T; [subst r; split_and!; intros; try lia; done|].
    apply IH in E as (? & E1 & E2). split_and!; [lia..| |intros; apply E2; lia].
    intros j Hj. destruct (decide (j = i)) as [->|]; [done|apply E1; lia].
Qed.

Lemma clz_from_spec n x acc r :
  clz_from n x acc = r -> let k := Z.of_nat n - 1 - (r - acc) in
  -1 <= k < Z.of_nat n /\ (forall j, k < j < Z.of_nat n -> Z.testbit x j = false) /\
  (0 <= k -> Z.testbit x k = true).
Proof.
  revert acc r. induction n as [|n IH]; simpl; intros acc r E.
  - subst r. split_and!; intros; lia.
  - destruct (Z.testbit x (Z.of_nat n)) eqn:T.
    + subst r. replace (Z.of_nat (S n) - 1 - (acc - acc)) with (Z.of_nat n) by lia.
      split_and!; intros; try lia; done.
    + apply IH in E. simpl in E. replace (Z.of_nat (S n) - 1 - (r - acc))
        with (Z.of_nat n - 1 - (r - (acc + 1))) by lia.
      destruct E as (? & E1 & E2). split_and!; [lia..| |apply E2].
      intros j Hj. destruct (decide (j = Z.of_nat n)) as [->|]; [done|apply E1; lia].
Qed.

Lemma nonzero_has_bit W x :
  in_width W x -> x <> 0 -> exists i, 0 <= i < W /\ Z.testbit x i = true.
Proof.
  intros Hx Hn. exists (Z.log2 x). split; [split; [apply Z.log2_nonneg|]|].
  - apply Z.log2_lt_pow2; unfold in_width in *; lia.
  - apply Z.bit_log2. unfold in_width in *. lia.
Qed.

Lemma countr_zero_spec W x :
  0 <= W -> in_width W x -> x <> 0 ->
  let r := countr_zero W x in
  0 <= r < W /\ Z.testbit x r = true /\ forall j, 0 <= j < r -> Z.testbit x j = false.
Proof.
  intros HW Hx Hn. destruct (ctz_from_spec (Z.to_nat W) x 0 _ eq_refl) as (H1 & H2 & H3).
  fold (countr_zero W x) in *. destruct (nonzero_has_bit W x Hx Hn) as (i & Hi & Ti).
  assert (countr_zero W x <= i).
  { destruct (Z.le_gt_cases (countr_zero W x) i); [done|]. rewrite H2 in Ti by lia. done. }
  simpl. split_and!; [lia..|apply H3; lia|]. intros; apply H2; lia.
Qed.

Lemma countl_zero_spec W x :
  0 <= W -> in_width W x -> x <> 0 ->
  let r := (W - 1) - countl_zero W x in
  0 <= r < W /\ Z.testbit x r = true /\ forall j, r < j < W -> Z.testbit x j = false.
Proof.
  intros HW Hx Hn. destruct (clz_from_spec (Z.to_nat W) x 0 _ eq_refl) as (H1 & H2 & H3).
  fold (countl_zero W x) in *. rewrite Z2Nat.id, Z.sub_0_r in * by lia.
  destruct (nonzero_has_bit W x Hx Hn) as (i & Hi & Ti).
  assert (i <= W - 1 - countl_zero W x).
  { destruct (Z.le_gt_cases i (W - 1 - countl_zero W x)); [done|]. rewrite H2 in Ti by lia. done. }
  simpl. split_and!; [lia..|apply H3; lia|]. intros; apply H2; lia.
Qed.

Lemma countr_zero_unique W x r :
  0 <= r < W -> Z.testbit x r = true -> (forall j, 0 <= j < r -> Z.testbit x j = false) ->
  0 <= x < 2 ^ W -> countr_zero W x = r.
Proof.
  intros Hr T1 T2 Hx. assert (x <> 0) by (intros ->; by rewrite Z.bits_0 in T1).
  destruct (countr_zero_spec W x) as (? & U1 & U2); [lia|done|done|].
  destruct (Z.lt_trichotomy (countr_zero W x) r) as [?|[?|?]]; [|done|].
  - by rewrite T2 in U1 by lia.
  - by rewrite U2 in T1 by lia.
Qed.

(** Subtracting one borrows up to the lowest set bit. *)
Lemma testbit_pred x r i :
  0 < x -> 0 <= r -> Z.testbit x r = true ->
  (forall j, 0 <= j < r -> Z.testbit x j = false) -> 0 <= i ->
  Z.testbit (x - 1) i = if i <? r then true else if i =? r then false else Z.testbit x i.
Proof.
  intros Hx Hr Tr Tl Hi. assert (0 < 2 ^ r) by (apply Z.pow_pos_nonneg; lia).
  assert (x mod 2 ^ r = 0) as Hm.
  { apply Z.bits_inj'. intros j Hj. rewrite Z.bits_0. destruct (Z.lt_ge_cases j r).
    - rewrite Z.mod_pow2_bits_low by lia. apply Tl. lia.
    - apply Z.mod_pow2_bits_high. lia. }
  pose proof (Z.div2_odd (x / 2 ^ r)) as O. rewrite <- Z.bit0_odd, Z.div_pow2_bits in O by lia.
  rewrite Z.add_0_l, Tr in O. simpl in O. set (k := Z.div2 (x / 2 ^ r)) in *.
  assert (x = 2 ^ r * (2 * k + 1)) as Hk by (rewrite <- O; apply Z_div_exact_full_2; lia).
  assert ((x - 1) / 2 ^ r = 2 * k) as D1 by (symmetry; apply Z.div_unique with (2 ^ r - 1); lia).
  assert ((x - 1) mod 2 ^ r = 2 ^ r - 1) as D2 by (symmetry; apply Z.mod_unique with (2 * k); lia).
  destruct (Z.ltb_spec i r); [|destruct (Z.eqb_spec i r)].
  - rewrite <- (Z.mod_pow2_bits_low (x - 1) r), D2 by lia.
    rewrite Z.sub_1_r, <- Z.ones_equiv. apply Z.ones_spec_low. lia.
  - replace i with (0 + r) by lia. rewrite <- Z.div_pow2_bits, D1 by lia.
    apply Z.testbit_even_0.
  - replace i with (Z.succ (i - r - 1) + r) by lia.
    rewrite <- (Z.div_pow2_bits (x - 1) r), <- (Z.div_pow2_bits x r), D1, O by lia.
    by rewrite Z.testbit_odd_succ, Z.testbit_even_succ by lia.
Qed.

(** [x & (x - 1)] clears the lowest set bit. *)
Lemma testbit_clear_lowest x r i :
  0 < x -> 0 <= r -> Z.testbit x r = true ->
  (forall j, 0 <= j < r -> Z.testbit x j = false) -> 0 <= i ->
  Z.testbit (Z.land x (x - 1)) i = Z.testbit x i && negb (i =? r).
Proof.
  intros Hx Hr Tr Tl Hi. rewrite Z.land_spec, (testbit_pred x r) by done.
  zcases; try lia; rewrite ?andb_true_r, ?andb_false_r; try done.
  - by destruct (Z.testbit x i).
Qed.

Lemma land_in_width W x y : 0 <= W -> in_width W x -> 0 <= y -> in_width W (Z.land x y).
Proof.
  intros HW Hx Hy. unfold in_width in *. assert (0 <= Z.land x y) by (apply Z.land_nonneg; lia).
  split; [done|]. apply bits_bounded; [done..|]. intros i Hi.
  by rewrite Z.land_spec, (testbit_high W) by lia.
Qed.

(** What each scan returns, in terms of the set of bits. [is_least p lo hi r]
    says that [r] is the least integer of [lo, hi) in [p], or -1 if there is
    none; [is_greatest] is its dual. *)
Definition is_least (p : Z -> bool) (lo hi r : Z) : Prop :=
  (r = -1 /\ forall j, lo <= j < hi -> p j = false) \/
  (lo <= r < hi /\ p r = true /\ forall j, lo <= j < r -> p j = false).

Definition is_greatest (p : Z -> bool) (lo hi r : Z) : Prop :=
  (r = -1 /\ forall j, lo <= j < hi -> p j = false) \/
  (lo <= r < hi /\ p r = true /\ forall j, r < j < hi -> p j = false).

Lemma first_least W b : 0 <= W -> in_width W b -> is_least (Z.testbit b) 0 W (first W b).
Proof.
  intros HW Hb. unfold first. destruct (Z.eqb_spec b 0) as [->|Hn].
  - left. split; [done|]. intros. apply Z.bits_0.
  - right. by destruct (countr_zero_spec W b HW Hb Hn) as (? & ? & ?).
Qed.

Lemma last_greatest W b : 0 <= W -> in_width W b -> is_greatest (Z.testbit b) 0 W (last W b).
Proof.
  intros HW Hb. unfold last. destruct (Z.eqb_spec b 0) as [->|Hn].
  - left. split; [done|]. intros. apply Z.bits_0.
  - right. by destruct (countl_zero_spec W b HW Hb Hn) as (? & ? & ?).
Qed.

Lemma testbit_next_mask W v i :
  0 <= v < W ->
  Z.testbit (wrap W (Z.lnot (wrap W (wrap W (Z.shiftl 1 v) - 1)))) i = (v <=? i) && (i <? W).
Proof.
  intros. rewrite testbit_wrap by lia. rewrite wrap_mask by lia.
  destruct (Z.le_gt_cases 0 i).
  - rewrite Z.lnot_spec, testbit_mask by lia. zbits.
  - rewrite Z.testbit_neg_r by lia. zbits.
Qed.

Lemma next_least W b i :
  0 <= i < W -> in_width W b -> is_least (Z.testbit b) (i + 1) W (next W b i).
Proof.
  intros Hi Hb. unfold next. rewrite Z.geb_leb. destruct (Z.leb_spec (W - 1) i).
  { left. split; [done|]. intros; lia. }
  pose proof (wrap_range W (Z.lnot (wrap W (wrap W (Z.shiftl 1 (i + 1)) - 1))) ltac:(lia)).
  pose proof (fun j => testbit_next_mask W (i + 1) j ltac:(lia)) as M.
  set (mask := wrap W (Z.lnot _)) in *. cbv zeta.
  destruct (Z.eqb_spec (Z.land b mask) 0) as [E|Hn].
  - left. split; [done|]. intros j Hj.
    assert (Z.testbit (Z.land b mask) j = false) as T by (by rewrite E, Z.bits_0).
    rewrite Z.land_spec, M in T. replace ((i + 1 <=? j) && (j <? W)) with true in T.
    + by rewrite andb_true_r in T.
    + symmetry. zbits.
  - right. destruct (countr_zero_spec W (Z.land b mask)) as (R1 & R2 & R3);
      [lia|apply land_in_width; [lia|done|lia]|done|].
    rewrite Z.land_spec, M in R2. zbool. split_and!; [lia..|done|].
    intros j Hj. specialize (R3 j ltac:(lia)). rewrite Z.land_spec, M in R3.
    replace ((i + 1 <=? j) && (j <? W)) with true in R3; [by rewrite andb_true_r in R3|].
    symmetry. zbits.
Qed.

Lemma prev_greatest W b i :
  0 <= i < W -> in_width W b -> is_greatest (Z.testbit b) 0 i (prev W b i).
Proof.
  intros Hi Hb. unfold prev. rewrite wrap_mask by lia. cbv zeta.
  assert (0 <= Z.shiftl 1 i - 1).
  { rewrite Z.shiftl_1_l. pose proof (Z.pow_pos_nonneg 2 i). lia. }
  destruct (Z.eqb_spec (Z.land b (Z.shiftl 1 i - 1)) 0) as [E|Hn].
  - left. split; [done|]. intros j Hj.
    assert (Z.testbit (Z.land b (Z.shiftl 1 i - 1)) j = false) as T by (by rewrite E, Z.bits_0).
    rewrite Z.land_spec, testbit_mask in T by lia.
    replace ((0 <=? j) && (j <? i)) with true in T; [by rewrite andb_true_r in T|].
    symmetry. zbits.
  - right. destruct (countl_zero_spec W (Z.land b (Z.shiftl 1 i - 1))) as (R1 & R2 & R3);
      [lia|apply land_in_width; [lia|done|lia]|done|].
    rewrite Z.land_spec, testbit_mask in R2 by lia. zbool. split_and!; [lia..|done|].
    intros j Hj. specialize (R3 j ltac:(lia)). rewrite Z.land_spec, testbit_mask in R3 by lia.
    replace ((0 <=? j) && (j <? i)) with true in R3; [by rewrite andb_true_r in R3|].
    symmetry. zbits.
Qed.

End bits.
