(* ===== verification/Serial.v ===== *)
(** * Serial: the revolving transaction ids of [core/_serial.hpp]

    [serial_number<T>] for an unsigned [w]-bit [T] ([w] is 32 for [tid_t] and
    64 for [serial64]). A value is the underlying integer in [0, 2^w); 0 means
    "uninitialized". Intermediate results are computed at the C++ width: the sum
    of [operator+=] in [uint64_t], the differences in [T], the result of
    [operator-] as a signed number. *)
From S2P Require Import Prelude.

Module serial.

Record serial_number := Serial { value : Z }.

Definition MAX_VALUE (w : Z) : Z := 2 ^ w - 1.
Definition HALF_RANGE (w : Z) : Z := 2 ^ (w - 1).

#[export] Instance serial_eq_dec : EqDecision serial_number.
Proof. solve_decision. Defined.

(** A value that the type can hold. *)
Definition in_type (w : Z) (s : serial_number) : Prop := 0 <= value s < 2 ^ w.

Definition is_valid (s : serial_number) : bool := negb (value s =? 0).

(** [operator+=]. The cast of [(sum - 1) % MAX] to [T] and the final [+ 1] are
    written out. *)
Definition add (w : Z) (s : serial_number) (rhs : Z) : serial_number :=
  if value s =? 0 then Serial rhs
  else
    let sum := u64 (value s + rhs) in
    Serial (wrap w (wrap w (u64 (sum - 1) mod MAX_VALUE w) + 1)).

Definition incr (w : Z) (s : serial_number) : serial_number :=
  if value s =? MAX_VALUE w then Serial 1 else Serial (value s + 1).

Definition decr (w : Z) (s : serial_number) : serial_number :=
  if value s <=? 1 then Serial (MAX_VALUE w) else Serial (value s - 1).

(** [operator-]: the signed distance. *)
Definition sub (w : Z) (a rhs : serial_number) : Z :=
  if (value a =? 0) || (value rhs =? 0) then value a - value rhs
  else
    let diff :=
      if value rhs <=? value a then wrap w (value a - value rhs)
      else wrap w (value a + (MAX_VALUE w - value rhs) + 1) in
    if HALF_RANGE w <? diff then - (wrap w (MAX_VALUE w - diff + 1)) else diff.

(** [operator<]. *)
Definition ltb (w : Z) (a rhs : serial_number) : bool :=
  if (value a =? 0) || (value rhs =? 0) then value a <? value rhs
  else if value a <? value rhs then value rhs - value a <? HALF_RANGE w
  else if value rhs <? value a then HALF_RANGE w <? value a - value rhs
  else false.

Definition gtb (w : Z) (a rhs : serial_number) : bool := ltb w rhs a.
Definition leb (w : Z) (a rhs : serial_number) : bool := negb (gtb w a rhs).
Definition geb (w : Z) (a rhs : serial_number) : bool := negb (ltb w a rhs).
Definition eqb (a rhs : serial_number) : bool := value a =? value rhs.

(** ** Reference view

    The valid values form a cycle of length [2^w - 1]; [steps w a b] is the
    number of increments that lead from [a] to [b]. *)
Definition steps (w : Z) (a b : serial_number) : Z := (value b - value a) mod MAX_VALUE w.

Definition valid (w : Z) (s : serial_number) : Prop := 1 <= value s <= MAX_VALUE w.

#[export] Instance valid_dec w s : Decision (valid w s).
Proof. unfold valid. apply _. Defined.

Fixpoint incr_n (w : Z) (n : nat) (s : serial_number) : serial_number :=
  match n with O => s | S n' => incr w (incr_n w n' s) end.

(** ** Lemmas *)

Lemma serial_eq a b : value a = value b -> a = b.
Proof. destruct a, b. simpl. by intros ->. Qed.

Lemma half_range w : 1 <= w -> 2 ^ w = 2 * HALF_RANGE w /\ 0 < HALF_RANGE w.
Proof.
  intros. unfold HALF_RANGE. split; [|apply Z.pow_pos_nonneg; lia].
  replace w with (1 + (w - 1)) at 1 by lia. rewrite Z.pow_add_r by lia. lia.
Qed.

Lemma add_value w s d :
  2 <= w <= 63 -> valid w s -> 0 <= d <= MAX_VALUE w ->
  value (add w s d) =
    if value s + d <=? MAX_VALUE w then value s + d else value s + d - MAX_VALUE w.
Proof.
  intros Hw Hs Hd. unfold valid, add, MAX_VALUE in *.
  assert (2 ^ w <= 2 ^ 63) by (apply Z.pow_le_mono_r; lia).
  change (2 ^ 63) with 9223372036854775808 in *.
  assert (4 <= 2 ^ w) by (change 4 with (2 ^ 2); apply Z.pow_le_mono_r; lia).
  destruct (Z.eqb_spec (value s) 0); [lia|]. cbv zeta. cbn [value].
  rewrite (wrap_small 64 (value s + d)) by (change (2 ^ 64) with 18446744073709551616; lia).
  rewrite (wrap_small 64) by (change (2 ^ 64) with 18446744073709551616; lia).
  assert ((value s + d - 1) mod (2 ^ w - 1) =
    (if value s + d <=? 2 ^ w - 1 then value s + d else value s + d - (2 ^ w - 1)) - 1) as ->.
  { zcase; [rewrite Z.mod_small; lia|].
    symmetry. apply Z.mod_unique_pos with 1; lia. }
  zcase; rewrite !wrap_small; rewrite ?wrap_small; lia.
Qed.

Lemma incr_valid w s : 2 <= w -> valid w s -> valid w (incr w s).
Proof.
  intros Hw. unfold valid, incr, MAX_VALUE.
  assert (4 <= 2 ^ w) by (change 4 with (2 ^ 2); apply Z.pow_le_mono_r; lia).
  zcase; simpl; lia.
Qed.

Lemma steps_range w a b : 2 <= w -> 0 <= steps w a b < MAX_VALUE w.
Proof.
  intros. unfold steps, MAX_VALUE. apply Z.mod_pos_bound.
  assert (4 <= 2 ^ w) by (change 4 with (2 ^ 2); apply Z.pow_le_mono_r; lia). lia.
Qed.

Lemma steps_value w a b :
  2 <= w -> valid w a -> valid w b ->
  steps w a b = if value a <=? value b then value b - value a
                else value b - value a + MAX_VALUE w.
Proof.
  unfold steps, valid. intros.
  assert (4 <= 2 ^ w) by (change 4 with (2 ^ 2); apply Z.pow_le_mono_r; lia).
  zcase.
  - destruct (decide (value b - value a = MAX_VALUE w)).
    + unfold MAX_VALUE in *. lia.
    + apply Z.mod_small. lia.
  - symmetry. apply Z.mod_unique_pos with (-1); lia.
Qed.

(** ** Properties *)

(** an addition to a valid 32-bit id never yields the reserved 0
    and stays in the type: the id revolves over 1 .. 2^32-1. *)
Theorem add_valid (w : Z) (s : serial_number) (d : Z) :
  2 <= w <= 63 -> valid w s -> 0 <= d <= MAX_VALUE w -> valid w (add w s d).
Proof.
  intros Hw Hs Hd. unfold valid. rewrite add_value by done. unfold valid in *.
  zcase; lia.
Qed.

(** adding [n] is [n] increments, wrapping from 2^w-1 to 1. *)
Theorem add_is_increments (w : Z) (s : serial_number) (n : nat) :
  2 <= w <= 63 -> valid w s -> Z.of_nat n <= MAX_VALUE w ->
  add w s (Z.of_nat n) = incr_n w n s.
Proof.
  intros Hw Hs. induction n as [|n IH]; intros Hn; simpl.
  - apply serial_eq. rewrite add_value by (done || lia). unfold valid in Hs. zcase; lia.
  - rewrite <- IH by lia. pose proof (add_value w s (Z.of_nat (S n)) Hw Hs ltac:(lia)) as E1.
    pose proof (add_value w s (Z.of_nat n) Hw Hs ltac:(lia)) as E2.
    apply serial_eq. rewrite E1. unfold incr. rewrite E2. unfold valid in Hs.
    destruct (Z.leb_spec (value s + Z.of_nat n) (MAX_VALUE w)); repeat zcase; cbn [value]; lia.
Qed.

(** decrement undoes increment on every valid id. *)
Theorem decr_incr (w : Z) (s : serial_number) :
  2 <= w -> valid w s -> decr w (incr w s) = s /\ incr w (decr w s) = s.
Proof.
  intros Hw Hs. unfold valid, decr, incr, MAX_VALUE in *.
  assert (4 <= 2 ^ w) by (change 4 with (2 ^ 2); apply Z.pow_le_mono_r; lia).
  destruct s as [v]; simpl in *.
  split; apply serial_eq.
  - destruct (Z.eqb_spec v (2 ^ w - 1)); simpl; zcases; lia.
  - destruct (Z.leb_spec v 1); simpl; zcases; lia.
Qed.

(** the order is the window order of the cycle, for every pair of
    valid ids: [a < b] exactly when [b] is reached from [a] in at least one and
    fewer than [2^(w-1)] increments, or fewer than [2^(w-1) - 1] when the path
    crosses the wrap. *)
Theorem ltb_window (w : Z) (a b : serial_number) :
  2 <= w -> valid w a -> valid w b ->
  ltb w a b = true <->
  0 < steps w a b < (if value a <=? value b then HALF_RANGE w else HALF_RANGE w - 1).
Proof.
  intros Hw Ha Hb. rewrite steps_value by done. destruct (half_range w ltac:(lia)).
  unfold ltb, valid, MAX_VALUE in *. 
  destruct (Z.eqb_spec (value a) 0); [lia|]. destruct (Z.eqb_spec (value b) 0); [lia|].
  simpl. repeat zcase; rewrite ?Z.ltb_lt; lia.
Qed.

(** Seen from a common older id the order is the order of the ages. *)
Lemma ltb_age (w : Z) (base a b : serial_number) :
  2 <= w -> valid w base -> valid w a -> valid w b ->
  steps w base a < HALF_RANGE w - 1 -> steps w base b < HALF_RANGE w - 1 ->
  ltb w a b = (steps w base a <? steps w base b).
Proof.
  intros Hw Hc Ha Hb. pose proof (ltb_window w a b Hw Ha Hb) as E.
  rewrite !steps_value by done. rewrite steps_value in E by done.
  destruct (half_range w ltac:(lia)). unfold valid, MAX_VALUE in *.
  destruct (ltb w a b).
  - assert (true = true) as T by done. apply E in T. clear E. revert T. repeat zcase; intros; try lia; done.
  - intros H1 H2. destruct (Z.ltb_spec (if value base <=? value a then value a - value base
      else value a - value base + (2 ^ w - 1)) (if value base <=? value b then value b - value base
      else value b - value base + (2 ^ w - 1))) as [L|]; [|done].
    exfalso. assert (false = true) as F; [apply E|done]. revert H1 H2 L. repeat zcase; intros; lia.
Qed.

(** on any set of ids that fit in one window (no two of them half a
    range or more apart) the order is irreflexive, asymmetric, total and
    transitive, so "older than" is meaningful for live transactions. *)
Theorem ltb_strict_order (w : Z) (a b c : serial_number) :
  2 <= w -> valid w a -> valid w b -> valid w c ->
  ltb w a a = false /\
  (ltb w a b = true -> ltb w b a = false) /\
  (a <> b -> steps w a b <> HALF_RANGE w - 1 -> steps w b a <> HALF_RANGE w - 1 ->
   ltb w a b = true \/ ltb w b a = true) /\
  (ltb w a b = true -> ltb w b c = true -> steps w a b + steps w b c < HALF_RANGE w - 1 ->
   ltb w a c = true).
Proof.
  intros Hw Ha Hb Hc. destruct (half_range w ltac:(lia)). split_and!.
  - unfold ltb, valid in *. destruct (Z.eqb_spec (value a) 0); [lia|]. simpl.
    repeat zcase; lia.
  - unfold ltb, valid in *. destruct (Z.eqb_spec (value a) 0); [lia|].
    destruct (Z.eqb_spec (value b) 0); [lia|]. simpl.
    repeat zcase; intros; zbool; rewrite ?Z.ltb_ge; try lia; done.
  - intros Hne. rewrite !ltb_window, !steps_value by done.
    assert (value a <> value b) by (destruct a, b; simpl; congruence).
    unfold valid, MAX_VALUE in *. repeat zcase; lia.
  - rewrite !ltb_window by done. rewrite !steps_value by done. unfold valid, MAX_VALUE in *.
    repeat zcase; lia.
Qed.

(** a new transaction id, [txn_id + 1], is newer than every id it
    was derived from in fewer than [2^(w-1) - 1] steps, wrap included. *)
Theorem add_newer (w : Z) (s : serial_number) (d : Z) :
  2 <= w <= 63 -> valid w s -> 0 < d < HALF_RANGE w - 1 ->
  ltb w s (add w s d) = true /\ leb w s (add w s d) = true.
Proof.
  intros Hw Hs Hd. destruct (half_range w ltac:(lia)).
  assert (0 <= d <= MAX_VALUE w) by (unfold MAX_VALUE; lia).
  pose proof (add_valid w s d Hw Hs ltac:(lia)) as Hv.
  assert (ltb w s (add w s d) = true) as E.
  { apply ltb_window; [lia|done..|]. rewrite steps_value by (lia || done).
    rewrite add_value by (lia || done). unfold valid, MAX_VALUE in *. repeat zcase; lia. }
  split; [done|]. unfold leb, gtb.
  destruct (ltb_strict_order w s (add w s d) s ltac:(lia) Hs Hv Hs) as (_ & A & _).
  by rewrite A.
Qed.

(** the difference operator counts the increments between two ids only
    while the path does not cross the wrap; across the wrap it is one too large,
    because it counts the reserved 0. *)
Theorem sub_distance (w : Z) (a b : serial_number) :
  2 <= w -> valid w a -> valid w b -> steps w a b < HALF_RANGE w - 1 ->
  sub w b a = steps w a b + (if value a <=? value b then 0 else 1).
Proof.
  intros Hw Ha Hb. rewrite steps_value by done. destruct (half_range w ltac:(lia)).
  unfold sub, valid, MAX_VALUE in *.
  destruct (Z.eqb_spec (value a) 0); [lia|]. destruct (Z.eqb_spec (value b) 0); [lia|]. simpl.
  destruct (Z.leb_spec (value a) (value b)); intros; rewrite wrap_small by lia; zcase; lia.
Qed.

(** The worked example of the header comment of the source: 0xFFFFFFFE + 3 is 2,
    where the comment says 1. *)
Example header_example : add 32 (Serial 4294967294) 3 = Serial 2.
Proof. reflexivity. Qed.

(** Across the wrap [(s + 2) - s] is 3. *)
Example sub_across_wrap :
  sub 32 (add 32 (Serial 4294967294) 2) (Serial 4294967294) = 3.
Proof. reflexivity. Qed.

(** For [serial64] the 64-bit sum itself wraps, so adding 2 to the largest value
    gives 1 instead of 2. *)
Example add64_wraps : add 64 (Serial (MAX_VALUE 64)) 2 = Serial 1 /\
  incr_n 64 2 (Serial (MAX_VALUE 64)) = Serial 2.
Proof. split; reflexivity. Qed.

End serial.
