(* ===== verification/Port.v ===== *)
(** * Port: the portable bit scans of [core/_port.hpp]

    The branches taken when no compiler builtin is available: the de Bruijn
    multiplication for the 32-bit count of trailing zeros, the two 64-bit counts
    built on halves, and the binary search for leading zeros. They are proved
    equal to the reference scans [bits.countr_zero] and [bits.countl_zero],
    which are what the builtin branches compute. *)
From S2P Require Import Prelude Bits.

Module port.

Definition debruijn32 : list Z :=
  [0; 1; 28; 2; 29; 14; 24; 3; 30; 22; 20; 15; 25; 17; 4; 8;
   31; 27; 13; 23; 21; 19; 16; 7; 26; 12; 18; 6; 11; 5; 10; 9].

Definition count_trailing_zeros_32 (x : Z) : Z :=
  default 0 (debruijn32 !! Z.to_nat
    (Z.shiftr (u32 (Z.land x (u32 (- x)) * 125613361)) 27)).

Definition count_trailing_zeros_64 (x : Z) : Z :=
  if negb (u32 x =? 0) then count_trailing_zeros_32 (u32 x)
  else 32 + count_trailing_zeros_32 (u32 (Z.shiftr x 32)).

(** One step of the binary search: [if (x <= bound) { n += k; x <<= k; }]. *)
Definition clz_step (k bound : Z) (nx : Z * Z) : Z * Z :=
  let '(n, x) := nx in
  if x <=? bound then (n + k, u64 (Z.shiftl x k)) else (n, x).

Definition count_leading_zeros_64 (x : Z) : Z :=
  let '(n, x) :=
    clz_step 2 4611686018427387903 (clz_step 4 1152921504606846975
      (clz_step 8 72057594037927935 (clz_step 16 281474976710655
        (clz_step 32 4294967295 (0, x))))) in
  if x <=? 9223372036854775807 then n + 1 else n.

(** ** Lemmas *)

(** [x & -x] isolates the lowest set bit. *)
Lemma lowest_bit x r :
  0 < x < 2 ^ 32 -> 0 <= r < 32 -> Z.testbit x r = true ->
  (forall j, 0 <= j < r -> Z.testbit x j = false) ->
  Z.land x (u32 (- x)) = 2 ^ r.
Proof.
  intros Hx Hr Tr Tl. apply Z.bits_inj'. intros i Hi.
  rewrite Z.land_spec, testbit_wrap, Z.pow2_bits_eqb, Z.bits_opp, <- Z.sub_1_r by lia.
  rewrite (bits.testbit_pred x r) by (done || lia).
  destruct (Z.lt_trichotomy i r) as [?|[->|?]].
  - rewrite Tl by lia. zbits.
  - rewrite Tr. zbits.
  - destruct (Z.testbit x i); zbits.
Qed.

Lemma debruijn_table r :
  0 <= r < 32 ->
  default 0 (debruijn32 !! Z.to_nat (Z.shiftr (u32 (2 ^ r * 125613361)) 27)) = r.
Proof.
  intros Hr.
  assert (forallb (fun r => default 0 (debruijn32 !! Z.to_nat
      (Z.shiftr (u32 (2 ^ r * 125613361)) 27)) =? r) (seqZ 0 32) = true) as A by reflexivity.
  rewrite forallb_forall in A. apply Z.eqb_eq, A, list_elem_of_In, elem_of_seqZ. lia.
Qed.

(** the de Bruijn lookup is the position of the lowest set bit, for
    every non-zero 32-bit word. *)
Theorem count_trailing_zeros_32_correct (x : Z) :
  0 < x < 2 ^ 32 -> count_trailing_zeros_32 x = bits.countr_zero 32 x.
Proof.
  intros Hx. destruct (bits.countr_zero_spec 32 x) as (Hr & T1 & T2);
    [lia|unfold bits.in_width; lia|lia|].
  unfold count_trailing_zeros_32. rewrite (lowest_bit x (bits.countr_zero 32 x)) by (done || lia).
  by apply debruijn_table.
Qed.

(** the 64-bit count on two halves agrees with the reference scan. *)
Theorem count_trailing_zeros_64_correct (x : Z) :
  0 < x < 2 ^ 64 -> count_trailing_zeros_64 x = bits.countr_zero 64 x.
Proof.
  intros Hx. destruct (bits.countr_zero_spec 64 x) as (Hr & T1 & T2);
    [lia|unfold bits.in_width; lia|lia|].
  set (r := bits.countr_zero 64 x) in *. unfold count_trailing_zeros_64.
  pose proof (wrap_range 32 x ltac:(lia)). pose proof (wrap_range 32 (Z.shiftr x 32) ltac:(lia)).
  destruct (Z.eqb_spec (u32 x) 0) as [E|E]; simpl.
  - assert (32 <= r) as H32.
    { destruct (Z.lt_ge_cases r 32); [|done].
      assert (Z.testbit (u32 x) r = true) as T by (rewrite testbit_wrap, T1 by lia; zbits).
      by rewrite E, Z.bits_0 in T. }
    assert (Z.testbit (u32 (Z.shiftr x 32)) (r - 32) = true) as T3.
    { rewrite testbit_wrap, Z.shiftr_spec by lia. replace (r - 32 + 32) with r by lia.
      rewrite T1. zbits. }
    assert (u32 (Z.shiftr x 32) <> 0) by (intros E0; by rewrite E0, Z.bits_0 in T3).
    rewrite count_trailing_zeros_32_correct by lia.
    rewrite (bits.countr_zero_unique 32 _ (r - 32)); [lia|lia|done| |lia].
    intros j Hj. rewrite testbit_wrap, Z.shiftr_spec, T2 by lia. apply andb_false_r.
  - rewrite count_trailing_zeros_32_correct by lia.
    destruct (bits.countr_zero_spec 32 (u32 x)) as (? & U1 & U2); [lia|done|done|].
    symmetry. apply bits.countr_zero_unique; [lia| | |lia].
    + rewrite testbit_wrap in U1 by lia. by zbool.
    + intros j Hj. specialize (U2 j Hj). rewrite testbit_wrap in U2 by lia.
      destruct (Z.ltb_spec j 32); [done|lia].
Qed.

Lemma countl_zero_log2 W x : 0 < x < 2 ^ W -> bits.countl_zero W x = W - 1 - Z.log2 x.
Proof.
  intros Hx. assert (0 <= W) by (destruct (Z.le_gt_cases 0 W); [done|];
    rewrite Z.pow_neg_r in Hx by lia; lia).
  destruct (bits.countl_zero_spec W x) as (H1 & H2 & H3); [lia|unfold bits.in_width; lia|lia|].
  pose proof (Z.bit_log2 x ltac:(lia)) as B. pose proof (Z.log2_nonneg x).
  pose proof (proj1 (Z.log2_lt_pow2 x W ltac:(lia)) ltac:(lia)).
  destruct (Z.lt_trichotomy (Z.log2 x) (W - 1 - bits.countl_zero W x)) as [?|[?|?]]; [|lia|].
  - by rewrite Z.bits_above_log2 in H2 by lia.
  - by rewrite H3 in B by lia.
Qed.

(** The invariant of the binary search: [n + 63 - log2 x] is the answer. *)
Lemma clz_step_inv k n x :
  0 < k < 64 -> 0 < x < 2 ^ 64 ->
  let '(n', x') := clz_step k (2 ^ (64 - k) - 1) (n, x) in
  0 < x' < 2 ^ 64 /\ n' - Z.log2 x' = n - Z.log2 x /\
  (64 - 2 * k <= Z.log2 x -> 64 - k <= Z.log2 x').
Proof.
  intros Hk Hx. unfold clz_step. assert (0 < 2 ^ k) by (apply Z.pow_pos_nonneg; lia).
  destruct (Z.leb_spec x (2 ^ (64 - k) - 1)).
  - assert (x * 2 ^ k < 2 ^ 64).
    { replace 64 with (64 - k + k) at 1 by lia. rewrite Z.pow_add_r by lia.
      apply Z.mul_lt_mono_pos_r; lia. }
    rewrite Z.shiftl_mul_pow2, wrap_small by nia. split_and!; [nia|lia| |].
    + rewrite Z.log2_mul_pow2 by lia. lia.
    + rewrite Z.log2_mul_pow2 by lia. lia.
  - split_and!; [lia..|]. intros _. apply Z.log2_le_pow2; lia.
Qed.

(** the binary search counts the leading zeros of every non-zero
    64-bit word. *)
Theorem count_leading_zeros_64_correct (x : Z) :
  0 < x < 2 ^ 64 -> count_leading_zeros_64 x = bits.countl_zero 64 x.
Proof.
  intros Hx. rewrite countl_zero_log2 by done. unfold count_leading_zeros_64.
  pose proof (Z.log2_nonneg x).
  pose proof (clz_step_inv 32 0 x ltac:(lia) Hx) as S1. change (2 ^ (64 - 32) - 1) with 4294967295 in S1.
  destruct (clz_step 32 4294967295 (0, x)) as [n1 x1]. destruct S1 as (X1 & N1 & L1).
  pose proof (clz_step_inv 16 n1 x1 ltac:(lia) X1) as S2. change (2 ^ (64 - 16) - 1) with 281474976710655 in S2.
  destruct (clz_step 16 281474976710655 (n1, x1)) as [n2 x2]. destruct S2 as (X2 & N2 & L2).
  pose proof (clz_step_inv 8 n2 x2 ltac:(lia) X2) as S3. change (2 ^ (64 - 8) - 1) with 72057594037927935 in S3.
  destruct (clz_step 8 72057594037927935 (n2, x2)) as [n3 x3]. destruct S3 as (X3 & N3 & L3).
  pose proof (clz_step_inv 4 n3 x3 ltac:(lia) X3) as S4. change (2 ^ (64 - 4) - 1) with 1152921504606846975 in S4.
  destruct (clz_step 4 1152921504606846975 (n3, x3)) as [n4 x4]. destruct S4 as (X4 & N4 & L4).
  pose proof (clz_step_inv 2 n4 x4 ltac:(lia) X4) as S5. change (2 ^ (64 - 2) - 1) with 4611686018427387903 in S5.
  destruct (clz_step 2 4611686018427387903 (n4, x4)) as [n5 x5]. destruct S5 as (X5 & N5 & L5).
  pose proof (proj1 (Z.log2_lt_pow2 x5 64 ltac:(lia)) ltac:(lia)).
  destruct (Z.leb_spec x5 9223372036854775807).
  - pose proof (proj1 (Z.log2_lt_pow2 x5 63 ltac:(lia)) ltac:(lia)). lia.
  - pose proof (proj1 (Z.log2_le_pow2 x5 63 ltac:(lia)) ltac:(lia)). lia.
Qed.

End port.
