(* ===== verification/Util.v ===== *)
(** * Util: offsets, alignment and key comparison of [core/_util.hpp]

    Byte strings are lists of integers in [0, 256); a C++ pair (data, size) is
    the list of its [size] bytes. [get_prefix] is modelled block by block, each
    word or vector comparison being a block step that returns the index of the
    first differing byte; [simd] says which vector instruction sets the build
    has and [le] whether the host is little-endian. *)
From S2P Require Import Prelude Bits.

Module util.

(** ** Rounding *)

Definition padding (a b : Z) : Z := ((a + b - 1) / b) * b.

Definition ALIGN : Z := 8.

Definition align (s : Z) : Z :=
  Z.land (u32 (s + ALIGN - 1)) (u32 (Z.lnot (ALIGN - 1))).

(** ** Offsets *)

Inductive NodeTypes := TRIE | LEAF.

#[export] Instance NodeTypes_eq_dec : EqDecision NodeTypes.
Proof. solve_decision. Defined.

Definition type_bits (t : NodeTypes) : Z := match t with TRIE => 0 | LEAF => 1 end.

Module Offset.

Definition TYPE_MASK : Z := 3.
Definition RELATIVE_FLAG : Z := 4.

(** [operator uint64_t]. *)
Definition to_uint64 (o : Z) : Z := Z.land o (u64 (Z.lnot (Z.lor TYPE_MASK RELATIVE_FLAG))).

Definition type (o : Z) : Z := Z.land o TYPE_MASK.

Definition set_type (o : Z) (t : Z) : Z := Z.lor (Z.land o (u64 (Z.lnot TYPE_MASK))) t.

Definition is_relative (o : Z) : bool := negb (Z.land o RELATIVE_FLAG =? 0).

(** [set_relative(dest_ptr)] on the field stored at address [this]. *)
Definition set_relative (o this dest : Z) : Z :=
  let saved_type := type o in
  let o := u64 (dest - this) in
  let o := Z.lor o RELATIVE_FLAG in
  set_type o saved_type.

(** Conversion to [int64_t]. *)
Definition to_int64 (x : Z) : Z := if x <? 2 ^ 63 then x else x - 2 ^ 64.

Definition as_signed (o : Z) : Z :=
  let raw := Z.land o (u64 (Z.lnot (Z.lor TYPE_MASK RELATIVE_FLAG))) in
  Z.shiftr (to_int64 (u64 (Z.shiftl raw 3))) 3.

(** [resolve<T>()] of the field stored at address [this]. *)
Definition resolve (o this : Z) : Z := this + as_signed o.

End Offset.

(** ** Comparison of byte strings *)

Definition byte_list (s : list Z) : Prop := Forall (fun b => 0 <= b < 256) s.

Definition byte_at (s : list Z) (i : nat) : Z := nth i s 0.

(** [memcpy] of a block into a word of the host. *)
Fixpoint load_le (s : list Z) : Z :=
  match s with [] => 0 | b :: s' => b + 256 * load_le s' end.

Definition load (le : bool) (s : list Z) : Z :=
  if le then load_le s else load_le (rev s).

(** [s[i], ..., s[i+n-1]]. *)
Definition block (n i : nat) (s : list Z) : list Z := take n (drop i s).

(** A block step compares two blocks and returns the index of the first byte
    that differs. The word step of the fast paths always counts trailing zeros. *)
Definition word_step (le : bool) (n : nat) (a b : list Z) : option nat :=
  let w1 := load le a in
  let w2 := load le b in
  if w1 =? w2 then None
  else Some (Z.to_nat (bits.countr_zero (8 * Z.of_nat n) (Z.lxor w1 w2) / 8)).

(** The word step of the final loop looks at the byte order of the host. *)
Definition word_step_endian (le : bool) (n : nat) (a b : list Z) : option nat :=
  let w1 := load le a in
  let w2 := load le b in
  if w1 =? w2 then None
  else
    let diff := Z.lxor w1 w2 in
    Some (Z.to_nat
      ((if le then bits.countr_zero (8 * Z.of_nat n) diff
        else bits.countl_zero (8 * Z.of_nat n) diff) / 8)).

(** The vector comparisons: bit [k] of the mask tells whether byte [k] of the
    two blocks is equal ([movemask_eq]) or differs ([cmpneq_mask]). *)
Fixpoint movemask_eq (a b : list Z) : Z :=
  match a, b with
  | x :: a', y :: b' => (if x =? y then 1 else 0) + 2 * movemask_eq a' b'
  | _, _ => 0
  end.

Fixpoint cmpneq_mask (a b : list Z) : Z :=
  match a, b with
  | x :: a', y :: b' => (if x =? y then 0 else 1) + 2 * cmpneq_mask a' b'
  | _, _ => 0
  end.

Definition avx512_step (a b : list Z) : option nat :=
  let mask := cmpneq_mask a b in
  if negb (mask =? 0) then Some (Z.to_nat (bits.countr_zero 64 mask)) else None.

Definition avx2_step (a b : list Z) : option nat :=
  let mask := movemask_eq a b in
  if negb (mask =? 2 ^ 32 - 1)
  then Some (Z.to_nat (bits.countr_zero 32 (u32 (Z.lnot mask)))) else None.

Definition sse2_step (a b : list Z) : option nat :=
  let mask := movemask_eq a b in
  if negb (mask =? 65535)
  then Some (Z.to_nat (bits.countr_zero 32 (Z.land (u32 (Z.lnot mask)) 65535))) else None.

(** NEON narrows each byte of the comparison to four bits. *)
Fixpoint neon_mask (a b : list Z) : Z :=
  match a, b with
  | x :: a', y :: b' => (if x =? y then 0 else 15) + 16 * neon_mask a' b'
  | _, _ => 0
  end.

Definition neon_step (a b : list Z) : option nat :=
  let mask := neon_mask a b in
  if negb (mask =? 0) then Some (Z.to_nat (bits.countr_zero 64 mask / 4)) else None.

Record simd := Simd { avx512 : bool; avx2 : bool; sse2 : bool; neon : bool }.

(** Either the index of the first difference, or the position reached. *)
Inductive scan := Differ (i : nat) | Reached (i : nat).

Section GetPrefix.
Context (str1 str2 : list Z).

Definition min_size : nat := Nat.min (length str1) (length str2).

(** [while (i + n <= min_size) { compare; i += n; }] *)
Fixpoint block_loop (fuel n : nat) (step : list Z -> list Z -> option nat) (i : nat) : scan :=
  match fuel with
  | O => Reached i
  | S fuel' =>
      if bool_decide (i + n <= min_size)%nat then
        match step (block n i str1) (block n i str2) with
        | Some k => Differ (i + k)
        | None => block_loop fuel' n step (i + n)
        end
      else Reached i
  end.

(** [while (i < min_size && str1[i] == str2[i]) i++;] *)
Fixpoint byte_loop (fuel i : nat) : nat :=
  match fuel with
  | O => i
  | S fuel' =>
      if bool_decide (i < min_size)%nat && (byte_at str1 i =? byte_at str2 i)
      then byte_loop fuel' (S i) else i
  end.

Definition cmp_at (i : nat) : Z := if byte_at str2 i <? byte_at str1 i then 1 else -1.

Definition cmp_end (i : nat) : Z :=
  if bool_decide (i < min_size)%nat then cmp_at i
  else if bool_decide (length str2 < length str1)%nat then 1
  else if bool_decide (length str1 < length str2)%nat then -1
  else 0.

(** Run a stage after a scan; a difference found earlier is final. *)
Definition stage (on : bool) (s : scan) (f : nat -> scan) : scan :=
  match s with Differ i => Differ i | Reached i => if on then f i else Reached i end.

Definition once (n : nat) (step : list Z -> list Z -> option nat) (i : nat) : scan :=
  match step (block n i str1) (block n i str2) with
  | Some k => Differ (i + k)
  | None => Reached (i + n)
  end.

Definition get_prefix (cfg : simd) (le : bool) : nat * Z :=
  let finish s :=
    match s with
    | Differ i => (i, cmp_at i)
    | Reached i => let i := byte_loop (min_size - i) i in (i, cmp_end i)
    end in
  if bool_decide (min_size < 8)%nat then
    finish (stage (bool_decide (4 <= min_size)%nat) (Reached 0) (once 4 (word_step le 4)))
  else
    let s := once 8 (word_step le 8) 0 in
    let s := stage (bool_decide (16 <= min_size)%nat) s (once 8 (word_step le 8)) in
    let s := stage (avx512 cfg) s (block_loop min_size 64 avx512_step) in
    let s := stage (avx2 cfg) s (block_loop min_size 32 avx2_step) in
    let s := if sse2 cfg then stage true s (block_loop min_size 16 sse2_step)
             else stage (neon cfg) s (block_loop min_size 16 neon_step) in
    let s := stage true s (block_loop min_size 8 (word_step_endian le 8)) in
    finish s.

End GetPrefix.

(** [Slice::compare]: [memcmp] of the common length, then the sizes; the result
    is the sign. *)
Fixpoint memcmp (a b : list Z) : Z :=
  match a, b with
  | x :: a', y :: b' => if x =? y then memcmp a' b' else x - y
  | _, _ => 0
  end.

Definition compare (a b : list Z) : Z :=
  let size := Nat.min (length a) (length b) in
  let cmp := memcmp (take size a) (take size b) in
  let cmp := if negb (cmp =? 0) then cmp
             else (if bool_decide (length b < length a)%nat then 1 else 0)
                  - (if bool_decide (length a < length b)%nat then 1 else 0) in
  (if 0 <? cmp then 1 else 0) - (if cmp <? 0 then 1 else 0).

(** Reference view: the longest common prefix and the lexicographic order. *)
Fixpoint common_prefix (a b : list Z) : nat :=
  match a, b with
  | x :: a', y :: b' => if x =? y then S (common_prefix a' b') else O
  | _, _ => O
  end.

Fixpoint lex (a b : list Z) : Z :=
  match a, b with
  | [], [] => 0
  | [], _ :: _ => -1
  | _ :: _, [] => 1
  | x :: a', y :: b' => if x <? y then -1 else if y <? x then 1 else lex a' b'
  end.

(** Lexicographic comparison is an order. *)
Lemma lex_refl a : lex a a = 0.
Proof. induction a as [|x a IH]; cbn [lex]; [done|by rewrite Z.ltb_irrefl]. Qed.

Lemma lex_zero a b : lex a b = 0 <-> a = b.
Proof.
  revert b. induction a as [|x a IH]; intros [|y b]; simpl; try done.
  zcases; [split; [done|intros [= -> ->]; lia]|split; [done|intros [= -> ->]; lia]|].
  rewrite IH. split; [intros ->; f_equal; lia|by intros [= _ ->]].
Qed.

Lemma lex_flip a b : lex b a = - lex a b.
Proof.
  revert b. induction a as [|x a IH]; intros [|y b]; cbn [lex]; [done..|].
  destruct (Z.ltb_spec x y), (Z.ltb_spec y x); try lia. apply IH.
Qed.

Lemma lex_lt_trans a b c : lex a b < 0 -> lex b c < 0 -> lex a c < 0.
Proof.
  revert b c. induction a as [|x a IH]; intros [|y b] [|z c]; cbn [lex]; try lia.
  destruct (Z.ltb_spec x y), (Z.ltb_spec y x), (Z.ltb_spec y z), (Z.ltb_spec z y), (Z.ltb_spec x z), (Z.ltb_spec z x); try lia.
  apply IH.
Qed.

(** ** Rounding lemmas *)

Lemma padding_bounds a b : 0 < b -> a <= padding a b < a + b.
Proof.
  intros. unfold padding. pose proof (Z.div_mod (a + b - 1) b). 
  pose proof (Z.mod_pos_bound (a + b - 1) b). lia.
Qed.

Lemma padding_mod a b : 0 < b -> padding a b mod b = 0.
Proof. intros. unfold padding. apply Z.mod_mul. lia. Qed.

Lemma align_padding s : 0 <= s <= 2 ^ 32 - 8 -> align s = padding s 8.
Proof.
  intros. change (2 ^ 32) with 4294967296 in *. unfold align, ALIGN, padding.
  change (u32 (Z.lnot (8 - 1))) with (Z.shiftl (Z.ones 29) 3).
  rewrite wrap_small by (change (2 ^ 32) with 4294967296; lia).
  assert (Z.land (s + 8 - 1) (Z.shiftl (Z.ones 29) 3) = Z.shiftl (Z.shiftr (s + 8 - 1) 3) 3) as ->.
  { apply Z.bits_inj'. intros i Hi. rewrite Z.land_spec.
    destruct (Z.lt_ge_cases i 3).
    - rewrite !Z.shiftl_spec_low by lia. apply andb_false_r.
    - rewrite !Z.shiftl_spec, Z.shiftr_spec by lia. replace (i - 3 + 3) with i by lia.
      destruct (Z.lt_ge_cases (i - 3) 29).
      + rewrite Z.ones_spec_low by lia. apply andb_true_r.
      + rewrite (testbit_high 32) by (change (2 ^ 32) with 4294967296; lia). done. }
  rewrite Z.shiftl_mul_pow2, Z.shiftr_div_pow2 by lia. done.
Qed.

(** [align] rounds a size up to the least multiple of 8. *)
Theorem align_least (s : Z) :
  0 <= s <= 2 ^ 32 - 8 ->
  align s mod 8 = 0 /\ s <= align s /\ (forall m, m mod 8 = 0 -> s <= m -> align s <= m).
Proof.
  intros H. rewrite align_padding by done. pose proof (padding_bounds s 8 ltac:(lia)).
  pose proof (padding_mod s 8 ltac:(lia)). split_and!; [done|lia|].
  intros m Hm Hs. pose proof (Z.div_mod m 8). pose proof (Z.div_mod (padding s 8) 8). lia.
Qed.

(** ** Offsets *)

Lemma testbit_mult8 d i : d mod 8 = 0 -> 0 <= i < 3 -> Z.testbit d i = false.
Proof.
  intros Hd Hi. rewrite <- (Z.mod_pow2_bits_low d 3) by lia.
  change (2 ^ 3) with 8. by rewrite Hd, Z.bits_0.
Qed.

Lemma testbit_lnot_mask m i : 0 <= i -> Z.testbit (u64 (Z.lnot m)) i = (i <? 64) && negb (Z.testbit m i).
Proof. intros. by rewrite testbit_wrap, Z.lnot_spec by lia. Qed.

Lemma testbit_7 i : 0 <= i -> Z.testbit 7 i = (i <? 3).
Proof. intros. change 7 with (Z.shiftl 1 3 - 1). rewrite testbit_mask by lia. zbits. Qed.

Lemma testbit_3 i : 0 <= i -> Z.testbit 3 i = (i <? 2).
Proof. intros. change 3 with (Z.shiftl 1 2 - 1). rewrite testbit_mask by lia. zbits. Qed.

Lemma set_relative_testbit o this dest i :
  0 <= i < 64 -> (dest - this) mod 8 = 0 ->
  Z.testbit (Offset.set_relative o this dest) i =
    if i <? 2 then Z.testbit o i else if i =? 2 then true else Z.testbit (dest - this) i.
Proof.
  intros Hi Hd. unfold Offset.set_relative, Offset.set_type, Offset.type,
    Offset.TYPE_MASK, Offset.RELATIVE_FLAG. cbv zeta.
  rewrite !Z.lor_spec, Z.land_spec, Z.lor_spec, Z.land_spec.
  rewrite testbit_lnot_mask, testbit_wrap, testbit_3 by lia.
  change 4 with (Z.shiftl 1 2). rewrite testbit_shiftl1 by lia.
  pose proof (testbit_mult8 (dest - this) i Hd).
  zcases; try lia; rewrite ?andb_true_r, ?andb_false_r, ?orb_true_r, ?orb_false_r; simpl;
    rewrite ?orb_false_r; done.
Qed.

Lemma raw_of_relative o this dest :
  0 <= o < 2 ^ 64 -> (dest - this) mod 8 = 0 ->
  Z.land (Offset.set_relative o this dest) (u64 (Z.lnot 7)) = u64 (dest - this).
Proof.
  intros Ho Hd. apply Z.bits_inj'. intros i Hi.
  rewrite Z.land_spec, testbit_lnot_mask, testbit_wrap, testbit_7 by lia.
  destruct (Z.ltb_spec i 64); [|by rewrite andb_false_r].
  rewrite set_relative_testbit by (lia || done). pose proof (testbit_mult8 (dest - this) i Hd) as E.
  zcases; rewrite ?andb_true_r, ?andb_false_r; try lia; try done; by rewrite E by lia.
Qed.

(** a field turned into a relative offset resolves to the
    destination it was given, keeps its node type and is marked relative, as
    long as the two addresses are 8-aligned and less than 2^60 bytes apart. *)
Theorem set_relative_resolve (o this dest : Z) :
  0 <= o < 2 ^ 64 -> (dest - this) mod 8 = 0 -> - 2 ^ 60 <= dest - this < 2 ^ 60 ->
  let o' := Offset.set_relative o this dest in
  Offset.resolve o' this = dest /\ Offset.type o' = Offset.type o /\
  Offset.is_relative o' = true.
Proof.
  intros Ho Hd Hr o'. split_and!.
  - unfold Offset.resolve, Offset.as_signed. change (Z.lor Offset.TYPE_MASK Offset.RELATIVE_FLAG) with 7.
    cbv zeta. unfold o'. rewrite raw_of_relative by done.
    assert (Offset.to_int64 (u64 (Z.shiftl (u64 (dest - this)) 3)) = (dest - this) * 2 ^ 3) as ->.
    { rewrite Z.shiftl_mul_pow2 by lia. unfold wrap. rewrite Z.mul_mod_idemp_l by lia.
      change (2 ^ 60) with 1152921504606846976 in *. unfold Offset.to_int64.
      change (2 ^ 63) with 9223372036854775808. change (2 ^ 64) with 18446744073709551616.
      change (2 ^ 3) with 8. destruct (Z.le_gt_cases 0 (dest - this)).
      - rewrite Z.mod_small by lia. zcase; lia.
      - rewrite <- (Z.mod_unique_pos ((dest - this) * 8) 18446744073709551616 (-1)
          ((dest - this) * 8 + 18446744073709551616)) by lia. zcase; lia. }
    rewrite Z.shiftr_div_pow2, Z.div_mul by lia. lia.
  - unfold Offset.type, Offset.TYPE_MASK. apply Z.bits_inj'. intros i Hi.
    rewrite !Z.land_spec, testbit_3 by lia. destruct (Z.ltb_spec i 2); [|by rewrite !andb_false_r].
    unfold o'. rewrite set_relative_testbit by (lia || done). zbits.
  - unfold Offset.is_relative. change (Z.land o' Offset.RELATIVE_FLAG) with (Z.land o' (Z.shiftl 1 2)).
    change (bits.isset o' 2 = true). rewrite bits.isset_testbit by lia.
    unfold o'. rewrite set_relative_testbit by (lia || done). done.
Qed.

Lemma set_relative_resolve_witness :
  Offset.resolve (Offset.set_relative 1 4096 40) 4096 = 40 /\
  Offset.type (Offset.set_relative 1 4096 40) = Offset.type 1 /\
  Offset.is_relative (Offset.set_relative 1 4096 40) = true.
Proof. apply (set_relative_resolve 1 4096 40); vm_compute; intuition discriminate. Defined.

(** ** Common prefixes *)

Lemma common_prefix_le a b : (common_prefix a b <= Nat.min (length a) (length b))%nat.
Proof.
  revert b. induction a as [|x a IH]; intros [|y b]; simpl; [lia..|].
  specialize (IH b). destruct (x =? y); simpl; lia.
Qed.

Lemma common_prefix_take a b : take (common_prefix a b) a = take (common_prefix a b) b.
Proof.
  revert b. induction a as [|x a IH]; intros [|y b]; simpl; [done..|].
  destruct (Z.eqb_spec x y); simpl; [by f_equal|done].
Qed.

Lemma common_prefix_drop a b i :
  take i a = take i b -> (i <= length a)%nat -> (i <= length b)%nat ->
  common_prefix a b = (i + common_prefix (drop i a) (drop i b))%nat.
Proof.
  revert a b. induction i as [|i IH]; intros a b E Ha Hb; [done|].
  destruct a as [|x a], b as [|y b]; simpl in *; try lia. injection E as -> E.
  rewrite Z.eqb_refl. f_equal. apply IH; [done|lia|lia].
Qed.

Lemma common_prefix_blocks n a b :
  (n <= length a)%nat -> (n <= length b)%nat -> take n a <> take n b ->
  common_prefix a b = common_prefix (take n a) (take n b) /\
  (common_prefix a b < n)%nat.
Proof.
  revert a b. induction n as [|n IH]; intros [|x a] [|y b] Ha Hb E; simpl in *; try (done || lia).
  destruct (Z.eqb_spec x y) as [->|]; [|lia].
  destruct (IH a b) as [E1 E2]; [lia|lia|by intros E'; apply E; f_equal|]. lia.
Qed.

Lemma common_prefix_refl_iff a b :
  length a = length b -> common_prefix a b = length a <-> a = b.
Proof.
  revert b. induction a as [|x a IH]; intros [|y b] L; simpl in *; try done.
  injection L as L. specialize (IH b L). destruct (Z.eqb_spec x y) as [->|].
  - rewrite Nat.succ_inj_wd, IH. split; [by intros ->|by intros [= ->]].
  - split; [lia|congruence].
Qed.

Lemma lex_common a b :
  lex a b = cmp_end a b (common_prefix a b) /\
  ((common_prefix a b < min_size a b)%nat -> cmp_at a b (common_prefix a b) = lex a b).
Proof.
  assert (lex a b = cmp_end a b (common_prefix a b)) as E.
  { revert b. induction a as [|x a IH]; intros [|y b]; try done.
    unfold cmp_end, cmp_at, min_size, byte_at in *. simpl.
    destruct (Z.ltb_spec x y), (Z.ltb_spec y x), (Z.eqb_spec x y); try lia; simpl.
    - repeat (case_bool_decide || zcase); lia.
    - repeat (case_bool_decide || zcase); lia.
    - rewrite IH. repeat case_bool_decide; try lia; done. }
  split; [done|]. intros H. rewrite E. unfold cmp_end. by rewrite bool_decide_true.
Qed.

(** ** Digit masks: the common shape of the word and vector comparisons *)

Fixpoint digits (w : Z) (d : Z -> Z -> Z) (a b : list Z) : Z :=
  match a, b with
  | x :: a', y :: b' => d x y + 2 ^ w * digits w d a' b'
  | _, _ => 0
  end.

Definition digit_ok (w : Z) (d : Z -> Z -> Z) : Prop :=
  forall x y, 0 <= x < 256 -> 0 <= y < 256 ->
  0 <= d x y < 2 ^ w /\ (d x y = 0 <-> x = y).

Lemma testbit_digit w d m i :
  0 < w -> 0 <= d < 2 ^ w -> 0 <= i ->
  Z.testbit (d + 2 ^ w * m) i = if i <? w then Z.testbit d i else Z.testbit m (i - w).
Proof.
  intros Hw Hd Hi. rewrite (Z.mul_comm (2 ^ w)). zcase.
  - rewrite <- (Z.mod_pow2_bits_low (d + m * 2 ^ w) w) by lia.
    by rewrite Z.mod_add, Z.mod_small by lia.
  - replace i with (i - w + w) at 1 by lia. rewrite <- Z.div_pow2_bits by lia.
    by rewrite Z.div_add, Z.div_small by lia.
Qed.

Lemma digits_spec w d a b :
  0 < w -> digit_ok w d -> byte_list a -> byte_list b -> length a = length b ->
  0 <= digits w d a b < 2 ^ (w * Z.of_nat (length a)) /\
  (a = b -> digits w d a b = 0) /\
  (a <> b -> exists r, 0 <= r /\ r / w = Z.of_nat (common_prefix a b) /\
     Z.testbit (digits w d a b) r = true /\
     forall j, 0 <= j < r -> Z.testbit (digits w d a b) j = false).
Proof.
  intros Hw Hd. revert b. induction a as [|x a IH]; intros [|y b] Ha Hb L; try done.
  { cbn. rewrite Z.mul_0_r. by split_and!. }
  apply Forall_cons_1 in Ha as [Hx Ha]. apply Forall_cons_1 in Hb as [Hy Hb]. simpl in L. injection L as L.
  destruct (IH b Ha Hb L) as (R & Z0 & Hs). destruct (Hd x y Hx Hy) as [Dr D0].
  assert (0 < 2 ^ w) by (apply Z.pow_pos_nonneg; lia).
  cbn [digits length common_prefix]. split_and!.
  - nia.
  - replace (w * Z.of_nat (S (length a))) with (w + w * Z.of_nat (length a)) by lia.
    rewrite Z.pow_add_r by lia. nia.
  - intros [= -> ->]. rewrite (proj2 D0), Z0 by done. lia.
  - intros Hne. destruct (Z.eqb_spec x y) as [->|Hxy].
    + destruct Hs as (r & Hr & E & T & Lo); [by intros ->|]. exists (r + w).
      rewrite (proj2 D0) in * by done. split_and!; [lia| | |].
      * rewrite <- (Z.mul_1_l w) at 1. rewrite Z.div_add by lia. lia.
      * rewrite testbit_digit by lia. zcase; [lia|]. by replace (r + w - w) with r by lia.
      * intros j Hj. rewrite testbit_digit by lia. zcase; [apply Z.bits_0|apply Lo; lia].
    + destruct (bits.countr_zero_spec w (d x y)) as (H1 & H2 & H3); [lia|done|tauto|].
      exists (bits.countr_zero w (d x y)). split_and!; [lia| | |].
      * by apply Z.div_small.
      * rewrite testbit_digit by lia. zcase; [done|lia].
      * intros j Hj. rewrite testbit_digit by lia. zcase; [apply H3; lia|lia].
Qed.

(** The scan of a digit mask finds the first differing byte. *)
Lemma digits_step W w d a b :
  0 < w -> digit_ok w d -> byte_list a -> byte_list b -> length a = length b ->
  w * Z.of_nat (length a) <= W ->
  (digits w d a b = 0 <-> a = b) /\
  (a <> b -> Z.to_nat (bits.countr_zero W (digits w d a b) / w) = common_prefix a b).
Proof.
  intros Hw Hd Ha Hb L HW.
  destruct (digits_spec w d a b Hw Hd Ha Hb L) as (R & Z0 & S). split.
  - split; [|done]. intros E. destruct (decide (a = b)) as [|Hne]; [done|].
    destruct (S Hne) as (r & _ & _ & T & _). by rewrite E, Z.bits_0 in T.
  - intros Hne. destruct (S Hne) as (r & Hr & E & T & Lo).
    assert (2 ^ (w * Z.of_nat (length a)) <= 2 ^ W) by (apply Z.pow_le_mono_r; lia).
    rewrite (bits.countr_zero_unique W _ r); [rewrite E; lia| |done|done|lia].
    split; [done|]. destruct (Z.lt_ge_cases r W); [done|].
    rewrite (testbit_high W) in T by lia. done.
Qed.

(** ** Block steps *)

(** A correct block step: [None] on equal blocks, else the first difference. *)
Definition step_ok (n : nat) (step : list Z -> list Z -> option nat) : Prop :=
  forall a b, byte_list a -> byte_list b -> length a = n -> length b = n ->
  step a b = if bool_decide (a = b) then None else Some (common_prefix a b).

Lemma lxor_byte x y : 0 <= x < 2 ^ 8 -> 0 <= y < 2 ^ 8 -> 0 <= Z.lxor x y < 2 ^ 8.
Proof.
  intros Hx Hy. assert (0 <= Z.lxor x y) by (apply Z.lxor_nonneg; lia).
  split; [done|]. apply bits_bounded; [lia|done|].
  intros j Hj. by rewrite Z.lxor_spec, !(testbit_high 8) by lia.
Qed.

Lemma lxor_digit_ok : digit_ok 8 Z.lxor.
Proof. intros x y Hx Hy. split; [by apply lxor_byte|apply Z.lxor_eq_0_iff]. Qed.

Lemma lxor_load a b : length a = length b -> byte_list a -> byte_list b ->
  Z.lxor (load_le a) (load_le b) = digits 8 Z.lxor a b.
Proof.
  revert b. induction a as [|x a IH]; intros [|y b] L Ha Hb; try done.
  apply Forall_cons_1 in Ha as [Hx Ha]. apply Forall_cons_1 in Hb as [Hy Hb].
  injection L as L. cbn [load_le digits]. rewrite <- IH by done.
  change 256 with (2 ^ 8) in *. apply Z.bits_inj'. intros i Hi.
  pose proof (lxor_byte x y Hx Hy).
  rewrite Z.lxor_spec, !testbit_digit by lia. rewrite !Z.lxor_spec. by zcase.
Qed.

Lemma word_step_ok n : step_ok n (word_step true n).
Proof.
  intros a b Ha Hb La Lb. unfold word_step, load.
  destruct (digits_step (8 * Z.of_nat n) 8 Z.lxor a b) as [D1 D2];
    [lia|apply lxor_digit_ok|done|done|lia|lia|].
  rewrite <- lxor_load in D1, D2 by (lia || done).
  rewrite Z.lxor_eq_0_iff in D1. destruct (Z.eqb_spec (load_le a) (load_le b)).
  - by rewrite bool_decide_true by tauto.
  - rewrite bool_decide_false by tauto. by rewrite D2 by tauto.
Qed.

Lemma word_step_endian_ok n : step_ok n (word_step_endian true n).
Proof. intros a b. apply (word_step_ok n a b). Qed.

Lemma cmpneq_digits a b : cmpneq_mask a b = digits 1 (fun x y => if x =? y then 0 else 1) a b.
Proof. revert b. induction a as [|x a IH]; intros [|y b]; [done..|]. simpl. by rewrite IH. Qed.

Lemma neon_digits a b : neon_mask a b = digits 4 (fun x y => if x =? y then 0 else 15) a b.
Proof. revert b. induction a as [|x a IH]; intros [|y b]; [done..|]. simpl. by rewrite IH. Qed.

Lemma bit_digit_ok : digit_ok 1 (fun x y => if x =? y then 0 else 1).
Proof. intros x y _ _. change (2 ^ 1) with 2. zcase; lia. Qed.

Lemma nibble_digit_ok : digit_ok 4 (fun x y => if x =? y then 0 else 15).
Proof. intros x y _ _. change (2 ^ 4) with 16. zcase; lia. Qed.

Lemma movemask_complement a b :
  length a = length b -> movemask_eq a b + cmpneq_mask a b = 2 ^ Z.of_nat (length a) - 1.
Proof.
  revert b. induction a as [|x a IH]; intros [|y b] L; try done. injection L as L.
  specialize (IH b L). cbn [movemask_eq cmpneq_mask length].
  rewrite Nat2Z.inj_succ, Z.pow_succ_r by lia. zcase; lia.
Qed.

Lemma cmpneq_step W a b :
  byte_list a -> byte_list b -> length a = length b -> Z.of_nat (length a) <= W ->
  0 <= cmpneq_mask a b < 2 ^ Z.of_nat (length a) /\
  (cmpneq_mask a b = 0 <-> a = b) /\
  (a <> b -> Z.to_nat (bits.countr_zero W (cmpneq_mask a b)) = common_prefix a b).
Proof.
  intros Ha Hb L HW. rewrite cmpneq_digits.
  destruct (digits_spec 1 _ a b ltac:(lia) bit_digit_ok Ha Hb L) as (R & _).
  destruct (digits_step W 1 _ a b ltac:(lia) bit_digit_ok Ha Hb L ltac:(lia)) as [D1 D2].
  rewrite Z.mul_1_l in R. rewrite Z.div_1_r in D2. split_and!; tauto || lia.
Qed.

Lemma avx512_step_ok : step_ok 64 avx512_step.
Proof.
  intros a b Ha Hb La Lb. unfold avx512_step.
  destruct (cmpneq_step 64 a b) as (_ & D1 & D2); [done|done|lia|lia|].
  destruct (Z.eqb_spec (cmpneq_mask a b) 0); simpl.
  - by rewrite bool_decide_true by tauto.
  - rewrite bool_decide_false by tauto. by rewrite D2 by tauto.
Qed.

Lemma avx2_step_ok : step_ok 32 avx2_step.
Proof.
  intros a b Ha Hb La Lb. unfold avx2_step.
  destruct (cmpneq_step 32 a b) as (R & D1 & D2); [done|done|lia|lia|].
  pose proof (movemask_complement a b ltac:(lia)) as C. rewrite La in *.
  change (Z.of_nat 32) with 32 in *.
  assert (u32 (Z.lnot (movemask_eq a b)) = cmpneq_mask a b) as ->.
  { unfold wrap. symmetry. apply Z.mod_unique_pos with (-1); [done|].
    pose proof (Z.add_lnot_diag (movemask_eq a b)). lia. }
  destruct (Z.eqb_spec (movemask_eq a b) (2 ^ 32 - 1)); simpl.
  - by rewrite bool_decide_true by (apply D1; lia).
  - rewrite bool_decide_false by (intros E%D1; lia). by rewrite D2 by (intros E%D1; lia).
Qed.

Lemma sse2_step_ok : step_ok 16 sse2_step.
Proof.
  intros a b Ha Hb La Lb. unfold sse2_step.
  destruct (cmpneq_step 32 a b) as (R & D1 & D2); [done|done|lia|lia|].
  pose proof (movemask_complement a b ltac:(lia)) as C. rewrite La in *.
  change (Z.of_nat 16) with 16 in *. change (2 ^ 16) with 65536 in *.
  assert (Z.land (u32 (Z.lnot (movemask_eq a b))) 65535 = cmpneq_mask a b) as ->.
  { change 65535 with (Z.ones 16). rewrite Z.land_ones by lia. unfold wrap.
    change (2 ^ 32) with (2 ^ 16 * 65536). rewrite Z.rem_mul_r, Z.mul_comm, Z.mod_add by lia.
    rewrite Z.mod_mod by lia. symmetry. change (2 ^ 16) with 65536.
    apply Z.mod_unique_pos with (-1); [lia|].
    pose proof (Z.add_lnot_diag (movemask_eq a b)). lia. }
  destruct (Z.eqb_spec (movemask_eq a b) 65535); simpl.
  - by rewrite bool_decide_true by (apply D1; lia).
  - rewrite bool_decide_false by (intros E%D1; lia). by rewrite D2 by (intros E%D1; lia).
Qed.

Lemma neon_step_ok : step_ok 16 neon_step.
Proof.
  intros a b Ha Hb La Lb. unfold neon_step. rewrite neon_digits.
  destruct (digits_step 64 4 _ a b ltac:(lia) nibble_digit_ok Ha Hb) as [D1 D2]; [lia|lia|].
  destruct (Z.eqb_spec (digits 4 (fun x y => if x =? y then 0 else 15) a b) 0); simpl.
  - by rewrite bool_decide_true by tauto.
  - rewrite bool_decide_false by tauto. by rewrite D2 by tauto.
Qed.

(** ** The scan *)

Section Scan.
Context (a b : list Z) (Ha : byte_list a) (Hb : byte_list b).

Definition scan_ok (s : scan) : Prop :=
  match s with
  | Differ i => i = common_prefix a b /\ (i < min_size a b)%nat
  | Reached i => (i <= min_size a b)%nat /\ take i a = take i b
  end.

Lemma block_byte_list n i s : byte_list s -> byte_list (block n i s).
Proof. intros. by apply Forall_take, Forall_drop. Qed.

Lemma block_length n i s : (i + n <= length s)%nat -> length (block n i s) = n.
Proof. intros. unfold block. rewrite length_take, length_drop. lia. Qed.

Lemma once_ok n step i :
  step_ok n step -> scan_ok (Reached i) -> (i + n <= min_size a b)%nat ->
  scan_ok (once a b n step i).
Proof.
  intros Hs [Hi E] Hn. unfold min_size in *. unfold once.
  rewrite Hs by (apply block_byte_list || apply block_length; done || lia).
  case_bool_decide as Eb; simpl; unfold min_size.
  - split; [lia|]. rewrite <- !take_take_drop, E. by f_equal.
  - rewrite (common_prefix_drop a b i) by (done || lia).
    destruct (common_prefix_blocks n (drop i a) (drop i b)) as [E1 E2];
      [rewrite length_drop; lia..|done|]. unfold block. rewrite <- E1. lia.
Qed.

Lemma block_loop_ok fuel n step i :
  step_ok n step -> scan_ok (Reached i) -> scan_ok (block_loop a b fuel n step i).
Proof.
  intros Hs. revert i. induction fuel as [|fuel IH]; intros i Hi; simpl; [done|].
  case_bool_decide as Hn; [|done].
  pose proof (once_ok n step i Hs Hi Hn) as O. unfold once in O.
  destruct (step _ _); [done|]. by apply IH.
Qed.

Lemma stage_ok on s f :
  scan_ok s -> (forall i, on = true -> s = Reached i -> scan_ok s -> scan_ok (f i)) ->
  scan_ok (stage on s f).
Proof. intros Hs Hf. destruct s; [done|]. destruct on; [by apply Hf|done]. Qed.

Lemma stage_loop_ok on s n step :
  scan_ok s -> step_ok n step ->
  scan_ok (stage on s (block_loop a b (min_size a b) n step)).
Proof. intros Hs Hn. apply stage_ok; [done|]. intros i _ -> Hi. by apply block_loop_ok. Qed.

Lemma once_reached n step i j : once a b n step i = Reached j -> j = (i + n)%nat.
Proof. unfold once. destruct (step _ _); congruence. Qed.

Lemma byte_loop_ok fuel i :
  scan_ok (Reached i) -> (min_size a b - i <= fuel)%nat ->
  byte_loop a b fuel i = common_prefix a b.
Proof.
  revert i. induction fuel as [|fuel IH]; intros i [Hi E] Hf; unfold min_size in *; simpl.
  - rewrite (common_prefix_drop a b i) by (done || lia).
    pose proof (common_prefix_le (drop i a) (drop i b)) as L. rewrite !length_drop in L. lia.
  - unfold min_size. case_bool_decide as Hm; simpl.
    + destruct (lookup_lt_is_Some_2 a i) as [x Hx]; [lia|].
      destruct (lookup_lt_is_Some_2 b i) as [y Hy]; [lia|].
      unfold byte_at. rewrite (nth_lookup_Some _ _ 0 _ Hx), (nth_lookup_Some _ _ 0 _ Hy).
      destruct (Z.eqb_spec x y) as [->|Hne].
      * apply IH; [|unfold min_size in *; lia]. split; [unfold min_size; lia|].
        rewrite (take_S_r a i y), (take_S_r b i y) by done. by rewrite E.
      * rewrite (common_prefix_drop a b i) by (done || lia).
        rewrite (drop_S a x i), (drop_S b y i) by done. simpl.
        destruct (Z.eqb_spec x y); [done|lia].
    + rewrite (common_prefix_drop a b i) by (done || lia).
      pose proof (common_prefix_le (drop i a) (drop i b)) as L. rewrite !length_drop in L. lia.
Qed.

Lemma finish_ok s :
  scan_ok s ->
  match s with
  | Differ i => (i, cmp_at a b i)
  | Reached i => let i := byte_loop a b (min_size a b - i) i in (i, cmp_end a b i)
  end = (common_prefix a b, lex a b).
Proof.
  destruct (lex_common a b) as [E1 E2]. destruct s as [i|i]; intros Hs; simpl.
  - destruct Hs as [-> Hs]. by rewrite E2.
  - rewrite byte_loop_ok by (done || lia). by rewrite E1.
Qed.

End Scan.

(** The common prefix and the comparison, by stages. *)
Lemma get_prefix_spec (cfg : simd) (a b : list Z) :
  byte_list a -> byte_list b ->
  get_prefix a b cfg true = (common_prefix a b, lex a b).
Proof.
  intros Ha Hb. unfold get_prefix.
  assert (scan_ok a b (Reached 0)) as H0 by (split; [lia|done]).
  pose proof (word_step_ok 8) as W8. pose proof sse2_step_ok. pose proof neon_step_ok.
  pose proof avx2_step_ok. pose proof avx512_step_ok. pose proof (word_step_endian_ok 8).
  case_bool_decide; apply finish_ok; try done.
  - apply stage_ok; try done. intros i Hon [= <-] _. apply bool_decide_eq_true in Hon.
    apply once_ok; [done|done|apply word_step_ok|done|lia].
  - assert (scan_ok a b (stage (bool_decide (16 <= min_size a b)%nat)
      (once a b 8 (word_step true 8) 0) (once a b 8 (word_step true 8)))) as Hs.
    { apply stage_ok; [apply once_ok; try done; lia|]. intros i Hon Hi Hok.
      apply bool_decide_eq_true in Hon. rewrite Hi in Hok. apply once_reached in Hi as ->.
      apply once_ok; try done; lia. }
    destruct (sse2 cfg); repeat (apply stage_loop_ok; try done).
Qed.

(** on a little-endian host, whatever vector instruction sets the
    build uses, [get_prefix] returns the length of the longest common prefix of
    the two keys and their lexicographic comparison. *)
Theorem get_prefix_correct (cfg : simd) (a b : list Z) :
  byte_list a -> byte_list b ->
  get_prefix a b cfg true = (common_prefix a b, lex a b).
Proof. apply get_prefix_spec. Qed.

(** On a big-endian host the fast paths still count trailing zeros, so they look
    at the wrong end of the word: two keys that share the byte "a" are said to
    differ at index 0. *)
Definition big_endian_a : list Z := [97; 88; 98; 99; 100; 101; 102; 103].
Definition big_endian_b : list Z := [97; 89; 98; 99; 100; 101; 102; 104].

Theorem get_prefix_big_endian :
  get_prefix big_endian_a big_endian_b (Simd false false false false) false = (0%nat, -1) /\
  common_prefix big_endian_a big_endian_b = 1%nat.
Proof. split; vm_compute; reflexivity. Qed.

(** ** Slices *)

Lemma memcmp_sign a b :
  length a = length b ->
  Z.sgn (memcmp a b) = lex a b.
Proof.
  revert b. induction a as [|x a IH]; intros [|y b] L; try done. injection L as L.
  cbn [memcmp lex]. destruct (Z.eqb_spec x y) as [->|].
  - rewrite IH, Z.ltb_irrefl by done. done.
  - repeat zcase; lia.
Qed.

Lemma lex_take a b :
  lex a b = let n := Nat.min (length a) (length b) in
    if lex (take n a) (take n b) =? 0
    then (if bool_decide (length b < length a)%nat then 1
          else if bool_decide (length a < length b)%nat then -1 else 0)
    else lex (take n a) (take n b).
Proof.
  revert b. induction a as [|x a IH]; intros [|y b]; try done.
  cbn [lex length]. cbv zeta in *. cbn [Nat.min take lex]. rewrite IH.
  destruct (Z.ltb_spec x y), (Z.ltb_spec y x); try done.
  destruct (Z.eqb_spec (lex (take (length a `min` length b) a)
    (take (length a `min` length b) b)) 0); [|done].
  repeat case_bool_decide; lia.
Qed.

(** [Slice::compare] is the lexicographic order on bytes. *)
Theorem compare_lex (a b : list Z) : compare a b = lex a b.
Proof.
  rewrite lex_take. unfold compare. cbv zeta.
  rewrite <- memcmp_sign by (rewrite !length_take; lia).
  set (m := memcmp _ _). destruct (Z.eqb_spec m 0) as [->|].
  - simpl. repeat case_bool_decide; try lia; done.
  - simpl. destruct (Z.eqb_spec (Z.sgn m) 0); [lia|]. repeat zcase; lia.
Qed.

End util.
