(* ===== verification/Node.v ===== *)
(** * Node: the trie nodes of [core/_node.hpp]

    A trie node is its packed header plus the memory behind it. The header
    fields are integers of their C++ width; the compressed prefix is the list of
    its bytes; the memory that holds the lower bitmaps and the offset array is
    [words], a function from the index of a 32-bit word (counted from the start
    of the node) to its contents, so that both areas, their alignment gap and
    the overlapping [memmove]s are those of the source. An [offset_e] slot
    occupies two consecutive words. A freshly allocated node has arbitrary
    contents: the [create] functions take it as an argument.

    [HASH_SIZE] is the size of the inline hash of the header ([0] for the
    headers without one). *)
From S2P Require Import Prelude Bits Util.

(** ** Word memory *)

Module Words.

Definition mem := Z -> Z.

Definition store (m : mem) (i v : Z) : mem := fun j => if j =? i then v else m j.

(** [memmove] of [n] words inside one memory; the source may overlap. *)
Definition memmove (m : mem) (dst src n : Z) : mem :=
  fun j => if (dst <=? j) && (j <? dst + n) then m (src + (j - dst)) else m j.

(** [memcpy] of [n] words from another memory. *)
Definition memcpy (m : mem) (dst : Z) (from : mem) (src n : Z) : mem :=
  fun j => if (dst <=? j) && (j <? dst + n) then from (src + (j - dst)) else m j.

(** [memset] of [n] words to zero. *)
Definition clear (m : mem) (dst n : Z) : mem :=
  fun j => if (dst <=? j) && (j <? dst + n) then 0 else m j.

(** The [offset_e] stored at word [i], and its assignment. *)
Definition load64 (m : mem) (i : Z) : Z := m i + 2 ^ 32 * m (i + 1).

Definition store64 (m : mem) (i v : Z) : mem :=
  store (store m i (v mod 2 ^ 32)) (i + 1) (v / 2 ^ 32).

End Words.
Export Words.

Module TrieNode.

Record node := Node {
  array_len : Z;
  upper : Z;
  compressed_len : Z;
  lower_offset : Z;
  array_offset : Z;
  compressed : list Z;
  words : mem
}.

Definition MAX_BRANCH_COUNT : Z := 257.
Definition NULL_MASK : Z := Z.shiftl 1 15.
Definition NONE : Z := -1.
Definition OUT_OF_RANGE : Z := -2.
Definition LOWER_MASK : Z := 31.

Section Layout.
Context (HASH_SIZE : Z).

Definition HEADER_SIZE : Z := 7 + HASH_SIZE.

Definition MAX_SIZE : Z :=
  u16 (util.align (util.padding (HEADER_SIZE + 255) 4 + 8 * 4) + MAX_BRANCH_COUNT * 8).

Definition count (n : node) : Z := Z.land (array_len n) (Z.lnot NULL_MASK).
Definition lower_size (n : node) : Z := u16 (bits.count 32 (upper n) * 4).
Definition lower_start (n : node) : Z := u16 (lower_offset n * 4).
Definition lower_end (n : node) : Z := u16 (lower_start n + lower_size n).
Definition array_start (n : node) : Z := u16 (array_offset n * 8).
Definition array_size (n : node) : Z := u16 (count n * 8).
Definition array_end (n : node) : Z := u16 (array_start n + array_size n).
Definition size (n : node) : Z := array_end n.

(** [lower()[i]] and [array()[i]]. *)
Definition lower (n : node) (i : Z) : Z := words n (lower_start n / 4 + i).
Definition slot (n : node) (i : Z) : Z := load64 (words n) (array_start n / 4 + 2 * i).

(** [array()[i] = v]. *)
Definition set_slot (n : node) (i v : Z) : node :=
  Node (array_len n) (upper n) (compressed_len n) (lower_offset n) (array_offset n)
    (compressed n) (store64 (words n) (array_start n / 4 + 2 * i) v).

Definition ubit (val : Z) : Z := Z.shiftr (u8 val) 5.
Definition lbit (val : Z) : Z := Z.land (u8 val) LOWER_MASK.

Definition has_none (n : node) : bool := negb (Z.land (array_len n) NULL_MASK =? 0).

(** [_upper & (1u << bit)]. *)
Definition upper_isset (n : node) (bit : Z) : bool :=
  negb (Z.land (upper n) (Z.shiftl 1 bit) =? 0).

Definition prefix_size (len : Z) : Z := u16 (util.padding (HEADER_SIZE + len) 4).

Definition changed_len (n : node) (new_compressed_len : Z) : Z :=
  u16 (util.align (prefix_size new_compressed_len + lower_size n + array_size n)).

Definition increment_size (n : node) (key : Z) : Z :=
  let lower_size_ :=
    if negb (key =? NONE) && negb (upper_isset n (ubit key))
    then u16 (lower_size n + 4) else lower_size n in
  let array_size_ := u16 ((count n + 1) * 8) in
  u16 (util.align (prefix_size (compressed_len n) + lower_size_ + array_size_)).

Definition decrement_size (n : node) (key : Z) : Z :=
  let lower_size_ :=
    if negb (key =? NONE) && upper_isset n (ubit key) then
      let lidx := bits.index 32 (upper n) (ubit key) in
      if bits.count 32 (lower n lidx) =? 1 then u16 (lower_size n - 4) else lower_size n
    else lower_size n in
  let array_size_ := u16 ((count n - 1) * 8) in
  u16 (util.align (prefix_size (compressed_len n) + lower_size_ + array_size_)).

Definition calc_lower_start (n : node) : Z :=
  u16 (util.padding (HEADER_SIZE + compressed_len n) 4).

Definition calc_array_start (n : node) : Z :=
  u16 (util.align (lower_start n + bits.count 32 (upper n) * 4)).

(** [size(prefix, key1, key2)] and [size(prefix, branches)]. *)
Definition size_for_keys (prefix key1 key2 : Z) : Z :=
  let lower_size :=
    if (key1 =? NONE) || (key2 =? NONE) then 4
    else if ubit key1 =? ubit key2 then 4
    else 8 in
  let array_start := u16 (util.align (prefix_size prefix + lower_size)) in
  u16 (array_start + 2 * 8).

Definition size_for_branches (prefix branches : Z) : Z :=
  let lower_size := u16 (Z.min branches 8 * 4) in
  let array_size := u16 (branches * 8) in
  u16 (util.align (prefix_size prefix + lower_size + array_size)).

(** ** Creation *)

(** The prefix is truncated to the 8-bit [_compressed_len]. *)
Definition set_prefix (n : node) (prefix : list Z) : node :=
  let len := u8 (Z.of_nat (length prefix)) in
  Node (array_len n) (upper n) len (lower_offset n) (array_offset n)
    (take (Z.to_nat len) prefix) (words n).

(** [create(prefix, key1, key2)]: the part after the prefix is set and the keys
    are swapped into order. *)
Definition create_sorted (n : node) (key1 key2 : Z) : node :=
  let lower_start_ := calc_lower_start n in
  let l := lower_start_ / 4 in
  let '(up, alen, m, array_start_) :=
    if negb (key1 =? NONE) then
      let up := u8 (Z.lor (Z.shiftl 1 (ubit key1)) (Z.shiftl 1 (ubit key2))) in
      if bits.count 32 up =? 1 then
        (up, 2,
         store (words n) l (Z.lor (u32 (Z.shiftl 1 (lbit key1))) (u32 (Z.shiftl 1 (lbit key2)))),
         u16 (util.align (lower_start_ + 4)))
      else
        (up, 2,
         store (store (words n) l (u32 (Z.shiftl 1 (lbit key1))))
           (l + 1) (u32 (Z.shiftl 1 (lbit key2))),
         u16 (util.align (lower_start_ + 2 * 4)))
    else
      (u8 (Z.shiftl 1 (ubit key2)), Z.lor 2 NULL_MASK,
       store (words n) l (u32 (Z.shiftl 1 (lbit key2))),
       u16 (util.align (lower_start_ + 4))) in
  Node alen up (compressed_len n) (u8 (lower_start_ / 4)) (u8 (array_start_ / 8))
    (compressed n) m.

Definition create_two (n : node) (prefix : list Z) (key1 key2 : Z) : node * (Z * Z) :=
  let n := set_prefix n prefix in
  if key2 <? key1 then (create_sorted n key2 key1, (1, 0))
  else (create_sorted n key1 key2, (0, 1)).

(** [create(prefix, key)]. *)
Definition create_one (n : node) (prefix : list Z) (key : Z) : node * Z :=
  let n := set_prefix n prefix in
  let lower_start_ := u16 (util.padding (HEADER_SIZE + compressed_len n) 4) in
  let '(up, alen, m, array_start_) :=
    if negb (key =? NONE) then
      (u8 (Z.shiftl 1 (ubit key)), 1,
       store (words n) (lower_start_ / 4) (u32 (Z.shiftl 1 (lbit key))),
       u16 (util.align (lower_start_ + 4)))
    else (0, Z.lor 1 NULL_MASK, words n, u16 (util.align lower_start_)) in
  (Node alen up (compressed_len n) (u8 (lower_start_ / 4)) (u8 (array_start_ / 8))
     (compressed n) m, 0).

(** [create(src, prefix)]: copy the branches under another prefix. *)
Definition create_prefix (n src : node) (prefix : list Z) : node :=
  let n := set_prefix n prefix in
  let bcount := bits.count 32 (upper src) in
  let loff := u8 (util.padding (HEADER_SIZE + compressed_len n) 4 / 4) in
  let n := Node (array_len src) (upper src) (compressed_len n) loff (array_offset n)
             (compressed n) (words n) in
  let aoff := u8 (util.align (lower_start n + bcount * 4) / 8) in
  let n := Node (array_len n) (upper n) (compressed_len n) loff aoff (compressed n) (words n) in
  let m := memcpy (words n) (lower_start n / 4) (words src) (lower_start src / 4) bcount in
  let m := memcpy m (array_start n / 4) (words src) (array_start src / 4) (2 * count n) in
  Node (array_len n) (upper n) (compressed_len n) loff aoff (compressed n) m.

(** The unrolled sum of the bit counts of the lower groups before [lidx]. *)
Definition groups_before (lower_ : Z -> Z) (lidx : Z) : Z :=
  fold_left (fun acc i => if i <? lidx then acc + bits.count 32 (lower_ i) else acc)
    [0; 1; 2; 3; 4; 5; 6] 0.

(** The array index of a key inside its group [lidx]. *)
Definition branch_rank (lower_ : Z -> Z) (lidx key alen : Z) : Z :=
  bits.count 32 (Z.land (lower_ lidx) (u32 (u32 (Z.shiftl 1 (lbit key)) - 1)))
  + (if negb (Z.land alen NULL_MASK =? 0) then 1 else 0)
  + groups_before lower_ lidx.

(** The bitmap half of [create(src, key)]: the new [_upper], [_array_len], the
    memory with the groups written from word [l] on, and the index of the slot. *)
Definition insert_groups (n src : node) (key l : Z) : Z * Z * mem * Z :=
  let ls := lower_start src / 4 in
  let alen := u16 (array_len src + 1) in
  if negb (key =? NONE) then
    let bit := ubit key in
    let up := u8 (Z.lor (upper src) (Z.shiftl 1 bit)) in
    let lidx := bits.index 32 up bit in
    let m :=
      if upper_isset src bit then
        let m := memcpy (words n) l (words src) ls (bits.count 32 up) in
        store m (l + lidx) (Z.lor (m (l + lidx)) (u32 (Z.shiftl 1 (lbit key))))
      else
        let m := memcpy (words n) l (words src) ls lidx in
        let m := memcpy m (l + lidx + 1) (words src) (ls + lidx)
                   (bits.count 32 (upper src) - lidx) in
        store m (l + lidx) (u32 (Z.shiftl 1 (lbit key))) in
    (up, alen, m, branch_rank (fun i => m (l + i)) lidx key alen)
  else
    (upper src, u16 (Z.lor alen NULL_MASK),
     memcpy (words n) l (words src) ls (bits.count 32 (upper src)), 0).

(** [create(src, key)]: copy [src] with one more branch, whose slot is left
    uninitialised; returns the index of the slot. *)
Definition create_insert (n src : node) (key : Z) : node * Z :=
  let lower_start_ := u16 (util.padding (HEADER_SIZE + compressed_len src) 4) in
  let '(up, alen, m, oidx) := insert_groups n src key (lower_start_ / 4) in
  let loff := u8 (lower_start_ / 4) in
  let n := Node alen up (compressed_len src) loff (array_offset n)
             (take (Z.to_nat (compressed_len src)) (compressed src)) m in
  let array_start_ := calc_array_start n in
  let a := array_start_ / 4 in
  let m := memcpy (words n) a (words src) (array_start src / 4) (2 * oidx) in
  let m := memcpy m (a + 2 * (oidx + 1)) (words src) (array_start src / 4 + 2 * oidx)
             (2 * (count n - 1 - oidx)) in
  (Node alen up (compressed_len n) loff (u8 (array_start_ / 8)) (compressed n) m, oidx).

(** The bitmap half of [create_remove]. *)
Definition remove_groups (n src : node) (key l : Z) : Z * Z * mem * Z :=
  let ls := lower_start src / 4 in
  let alen := u16 (array_len src - 1) in
  if negb (key =? NONE) then
    let bit := ubit key in
    let lidx := bits.index 32 (upper src) bit in
    let src_lower_val := lower src lidx in
    let oidx := branch_rank (lower src) lidx key alen in
    let new_lower_val := Z.land src_lower_val (u32 (Z.lnot (u32 (Z.shiftl 1 (lbit key))))) in
    if new_lower_val =? 0 then
      let m := memcpy (words n) l (words src) ls lidx in
      let m := memcpy m (l + lidx) (words src) (ls + lidx + 1)
                 (bits.count 32 (upper src) - lidx - 1) in
      (u8 (Z.land (upper src) (Z.lnot (Z.shiftl 1 bit))), alen, m, oidx)
    else
      let m := memcpy (words n) l (words src) ls (bits.count 32 (upper src)) in
      (upper src, alen, store m (l + lidx) new_lower_val, oidx)
  else
    (upper src, Z.land alen (u16 (Z.lnot NULL_MASK)),
     memcpy (words n) l (words src) ls (bits.count 32 (upper src)), 0).

(** [create_remove(src, key)]: copy [src] without one branch. *)
Definition create_remove (n src : node) (key : Z) : node :=
  let lower_start_ := u16 (util.padding (HEADER_SIZE + compressed_len src) 4) in
  let '(up, alen, m, oidx) := remove_groups n src key (lower_start_ / 4) in
  let loff := u8 (lower_start_ / 4) in
  let n := Node alen up (compressed_len src) loff (array_offset n)
             (take (Z.to_nat (compressed_len src)) (compressed src)) m in
  let array_start_ := calc_array_start n in
  let a := array_start_ / 4 in
  let m := memcpy (words n) a (words src) (array_start src / 4) (2 * oidx) in
  let m := memcpy m (a + 2 * oidx) (words src) (array_start src / 4 + 2 * (oidx + 1))
             (2 * (count n - oidx)) in
  Node alen up (compressed_len n) loff (u8 (array_start_ / 8)) (compressed n) m.

(** [insert_branch(key)]: open the slot of a new branch in place. *)
Definition insert_branch (n : node) (key : Z) : node * Z :=
  let old_count := u16 (count n) in
  let a := array_start n / 4 in
  if key =? NONE then
    (Node (u16 (Z.lor (array_len n + 1) NULL_MASK)) (upper n) (compressed_len n)
       (lower_offset n) (array_offset n) (compressed n)
       (memmove (words n) (a + 2) a (2 * old_count)), 0)
  else
    let bit := ubit key in
    let ls := lower_start n in
    let l := ls / 4 in
    if upper_isset n bit then
      let lidx := bits.index 32 (upper n) bit in
      let oidx := branch_rank (lower n) lidx key (array_len n) in
      let m := store (words n) (l + lidx)
                 (Z.lor (lower n lidx) (u32 (Z.shiftl 1 (lbit key)))) in
      let m := memmove m (a + 2 * (oidx + 1)) (a + 2 * oidx) (2 * (old_count - oidx)) in
      (Node (u16 (array_len n + 1)) (upper n) (compressed_len n) (lower_offset n)
         (array_offset n) (compressed n) m, oidx)
    else
      let old_bcount := bits.count 32 (upper n) in
      let up := u8 (Z.lor (upper n) (Z.shiftl 1 bit)) in
      let new_lidx := bits.index 32 up bit in
      let oidx :=
        fold_left (fun acc i => acc + bits.count 32 (lower n i)) (seqZ 0 new_lidx)
          (if has_none n then 1 else 0) in
      let old_as := u16 (util.align (ls + old_bcount * 4)) in
      let new_as := u16 (util.align (ls + (old_bcount + 1) * 4)) in
      let shift := new_as - old_as in
      let old_arr := old_as / 4 in
      let new_arr := new_as / 4 in
      let m :=
        if 0 <? shift then
          let m := memmove (words n) (new_arr + 2 * (oidx + 1)) (old_arr + 2 * oidx)
                     (2 * (old_count - oidx)) in
          let m := if 0 <? oidx then memmove m new_arr old_arr (2 * oidx) else m in
          let m := memmove m (l + new_lidx + 1) (l + new_lidx) (old_bcount - new_lidx) in
          store m (l + new_lidx) (u32 (Z.shiftl 1 (lbit key)))
        else
          let m := memmove (words n) (l + new_lidx + 1) (l + new_lidx)
                     (old_bcount - new_lidx) in
          let m := store m (l + new_lidx) (u32 (Z.shiftl 1 (lbit key))) in
          memmove m (old_arr + 2 * (oidx + 1)) (old_arr + 2 * oidx)
            (2 * (old_count - oidx)) in
      (Node (u16 (array_len n + 1)) up (compressed_len n) (lower_offset n)
         (u8 (new_as / 8)) (compressed n) m, oidx).

(** [create(prefix, offsets, precomputed_upper)]: bulk creation from the 257
    child offsets, indexed from -1 ([NONE]). The loop state is the remaining
    groups, [_array_len], the write position in the array and the memory. *)
Definition bulk_group (offsets : Z -> Z) (base : Z) (st : Z * Z * mem) : Z * Z * mem * Z :=
  fold_left (fun '(alen, pos, m, lbits) j =>
    if negb (offsets (base + j) =? 0)
    then (u16 (alen + 1), pos + 2, store64 m pos (offsets (base + j)),
          Z.lor lbits (u32 (Z.shiftl 1 j)))
    else (alen, pos, m, lbits)) (seqZ 0 32) (st, 0).

Fixpoint bulk_groups (fuel : nat) (offsets : Z -> Z) (up l remaining : Z)
    (st : Z * Z * mem) : Z * Z * mem :=
  match fuel with
  | O => st
  | S fuel' =>
      if remaining =? 0 then st
      else
        let grp := bits.first 32 remaining in
        let remaining := u8 (Z.land remaining (remaining - 1)) in
        let '(alen, pos, m, lbits) := bulk_group offsets (Z.shiftl grp 5) st in
        bulk_groups fuel' offsets up l remaining
          (alen, pos, store m (l + bits.index 32 up grp) lbits)
  end.

Definition create_bulk (n : node) (prefix : list Z) (offsets : Z -> Z)
    (precomputed_upper : Z) : node :=
  let n := set_prefix n prefix in
  let up := precomputed_upper in
  let loff := u8 (calc_lower_start n / 4) in
  let n := Node (array_len n) up (compressed_len n) loff (array_offset n) (compressed n)
             (words n) in
  let aoff := u8 (calc_array_start n / 8) in
  let n := Node (array_len n) up (compressed_len n) loff aoff (compressed n) (words n) in
  let l := lower_start n / 4 in
  let a := array_start n / 4 in
  let m := clear (words n) l (lower_size n / 4) in
  let st :=
    if negb (offsets NONE =? 0) then (Z.lor 1 NULL_MASK, a + 2, store64 m a (offsets NONE))
    else (0, a, m) in
  let '(alen, _, m) := bulk_groups 8 offsets up l up st in
  Node alen up (compressed_len n) loff aoff (compressed n) m.

(** ** Lookup and navigation *)

Definition isset (n : node) (nchar : Z) : bool :=
  if nchar =? NONE then has_none n
  else upper_isset n (ubit nchar) &&
       negb (Z.land (lower n (bits.index 32 (upper n) (ubit nchar)))
               (u32 (Z.shiftl 1 (lbit nchar))) =? 0).

Definition array_index (n : node) (nchar : Z) : Z :=
  if nchar =? NONE then (if has_none n then 0 else -1)
  else
    let lidx := bits.index 32 (upper n) (ubit nchar) in
    if upper_isset n (ubit nchar) then
      if Z.land (lower n lidx) (u32 (Z.shiftl 1 (lbit nchar))) =? 0 then -1
      else branch_rank (lower n) lidx nchar (array_len n)
    else -1.

(** [offset(nchar)]: the slot of the link, if there is one. *)
Definition offset (n : node) (nchar : Z) : option Z :=
  let idx := array_index n nchar in if 0 <=? idx then Some idx else None.

Definition prev_lower (n : node) (nchar : Z) : Z :=
  let lidx := bits.prev 32 (upper n) (ubit nchar) in
  if lidx <? 0 then (if has_none n then NONE else OUT_OF_RANGE)
  else
    let lbit_idx := bits.last 32 (lower n (bits.index 32 (upper n) lidx)) in
    Z.lor (Z.shiftl lidx 5) lbit_idx.

Definition prev (n : node) (nchar : Z) : Z :=
  if nchar =? NONE then OUT_OF_RANGE
  else if negb (upper_isset n (ubit nchar)) then prev_lower n nchar
  else
    let lidx := bits.index 32 (upper n) (ubit nchar) in
    let lbit_idx := bits.prev 32 (lower n lidx) (lbit nchar) in
    if lbit_idx <? 0 then prev_lower n nchar
    else Z.lor (Z.shiftl (ubit nchar) 5) lbit_idx.

Definition next_lower (n : node) (nchar : Z) : Z :=
  let lidx := bits.next 32 (upper n) (ubit nchar) in
  if lidx <? 0 then OUT_OF_RANGE
  else
    let lbit_idx := bits.first 32 (lower n (bits.index 32 (upper n) lidx)) in
    Z.lor (Z.shiftl lidx 5) lbit_idx.

Definition next (n : node) (nchar : Z) : Z :=
  if nchar =? NONE then
    let lidx := bits.first 32 (upper n) in
    if lidx <? 0 then OUT_OF_RANGE
    else Z.lor (Z.shiftl lidx 5) (bits.first 32 (lower n 0))
  else if negb (upper_isset n (ubit nchar)) then next_lower n nchar
  else
    let lidx := bits.index 32 (upper n) (ubit nchar) in
    let lbit_idx := bits.next 32 (lower n lidx) (lbit nchar) in
    if lbit_idx <? 0 then next_lower n nchar
    else Z.lor (Z.shiftl (ubit nchar) 5) lbit_idx.

Definition first (n : node) : Z :=
  if has_none n then NONE
  else Z.lor (Z.shiftl (bits.first 32 (upper n)) 5) (bits.first 32 (lower n 0)).

(** [for_each_branch(fn)]: the calls [fn(key, &arr[idx])] in order. Both loops
    clear the lowest set bit, so 32 and 8 rounds are enough. *)
Fixpoint scan_lower (fuel : nat) (base remaining idx : Z) : list (Z * Z) :=
  match fuel with
  | O => []
  | S fuel' =>
      if remaining =? 0 then []
      else
        let bit := bits.first 32 remaining in
        (Z.lor base bit, idx) ::
        scan_lower fuel' base (u32 (Z.land remaining (remaining - 1))) (idx + 1)
  end.

Fixpoint scan_upper (fuel : nat) (lower_ : Z -> Z) (remaining lower_idx idx : Z)
    : list (Z * Z) :=
  match fuel with
  | O => []
  | S fuel' =>
      if remaining =? 0 then []
      else
        let grp := bits.first 32 remaining in
        let calls := scan_lower 32 (Z.shiftl grp 5) (lower_ lower_idx) idx in
        calls ++ scan_upper fuel' lower_ (u8 (Z.land remaining (remaining - 1)))
                   (lower_idx + 1) (idx + Z.of_nat (length calls))
  end.

Definition for_each_branch (n : node) : list (Z * Z) :=
  let none := if has_none n then [(NONE, 0)] else [] in
  none ++ scan_upper 8 (lower n) (upper n) 0 (Z.of_nat (length none)).

End Layout.
End TrieNode.
