(* ===== verification/Leaf.v ===== *)
(** * Leaf: the leaf nodes of [core/_node.hpp]

    A leaf is its packed header ([value_size] with the flag of a big value,
    [key_size]) and the memory behind it: the bytes of the key, then those of the
    value. *)
From S2P Require Import Prelude.

Module LeafNode.

(** [data] is the memory behind the header: the key, then the value. *)
Record node := Node { value_size : Z; key_size : Z; data : list Z }.

Definition BIG_VALUE_FLAG : Z := Z.shiftl 1 15.

Section Layout.
Context (HASH_SIZE : Z).

Definition HEADER_SIZE : Z := 3 + HASH_SIZE.

Definition vsize (l : node) : Z := Z.land (value_size l) (Z.lnot BIG_VALUE_FLAG).
Definition vdata (l : node) : list Z := drop (Z.to_nat (key_size l)) (data l).
Definition key (l : node) : list Z := take (Z.to_nat (key_size l)) (data l).
Definition value (l : node) : list Z := take (Z.to_nat (vsize l)) (vdata l).
Definition size (l : node) : Z := u16 (HEADER_SIZE + key_size l + vsize l).
Definition is_big (l : node) : bool := Z.land (value_size l) BIG_VALUE_FLAG =? BIG_VALUE_FLAG.

Definition set_big (l : node) : node :=
  Node (Z.lor (value_size l) BIG_VALUE_FLAG) (key_size l) (data l).
Definition clear_big (l : node) : node :=
  Node (Z.land (value_size l) (u16 (Z.lnot BIG_VALUE_FLAG))) (key_size l) (data l).

(** [set(key, value_size)]: the value bytes keep their previous contents. *)
Definition set (l : node) (k : list Z) (value_size_ : Z) : node :=
  Node (u16 value_size_) (u8 (Z.of_nat (length k))) (k ++ drop (length k) (data l)).

(** [size(key, value)]. *)
Definition size_for (key value : Z) : Z := u16 (HEADER_SIZE + key + value).

End Layout.
End LeafNode.
