(* ===== verification/NodeFacts.v ===== *)
(** * NodeFacts: the branch set of a trie node, its ranks and its navigation

    [keys] is the reference view of a node: the increasing list of its branch
    keys (-1 for the NULL branch); [links] is the list of its offsets. The file
    proves what the lookup and navigation functions of [_node.hpp] compute in
    terms of the two, through the group words [gw]: the 32-bit bitmap of each of
    the eight groups, 0 when the group is absent. *)
From S2P Require Import Prelude Bits Util Node.

Module NodeFacts.
Import TrieNode.

(** ** Reference view *)

Definition gw (up : Z) (lower_ : Z -> Z) (g : Z) : Z :=
  if Z.testbit up g then lower_ (bits.index 32 up g) else 0.

(** Membership of a key, from the bitmaps. *)
Definition has (up : Z) (lower_ : Z -> Z) (none : bool) (k : Z) : bool :=
  if k =? -1 then none else Z.testbit (gw up lower_ (k / 32)) (k mod 32).

Definition keys (n : node) : list Z := zfilter (isset n) (-1) 257.
Definition links (n : node) : list Z := map (slot n) (seqZ 0 (count n)).

(** The bitmaps are well formed: every group in [up] has a non-zero word. *)
Definition groups_ok (up : Z) (lower_ : Z -> Z) : Prop :=
  0 <= up < 256 /\ forall g, 0 <= g < 8 -> Z.testbit up g = true ->
    0 < lower_ (bits.index 32 up g) < 2 ^ 32.

Record wf (HASH_SIZE : Z) (n : node) : Prop := {
  wf_groups : groups_ok (upper n) (lower n);
  wf_len : 0 <= compressed_len n <= 255 /\ Z.of_nat (length (compressed n)) = compressed_len n;
  wf_lower_offset : lower_offset n * 4 = util.padding (HEADER_SIZE HASH_SIZE + compressed_len n) 4;
  wf_array_offset : array_offset n * 8 =
    util.align (lower_offset n * 4 + bits.count 32 (upper n) * 4);
  wf_array_len : 0 <= array_len n < 2 ^ 16;
  wf_count : count n = zcount (isset n) (-1) 257
}.

(** ** The fields of a key and of [_array_len] *)

Lemma u8_key k : 0 <= k <= 255 -> u8 k = k.
Proof. intros. apply wrap_small. change (2 ^ 8) with 256. lia. Qed.

Lemma ubit_div k : 0 <= k <= 255 -> ubit k = k / 32.
Proof. intros. unfold ubit. by rewrite u8_key, Z.shiftr_div_pow2 by lia. Qed.

Lemma lbit_mod k : 0 <= k <= 255 -> lbit k = k mod 32.
Proof.
  intros. unfold lbit, LOWER_MASK. rewrite u8_key by lia.
  change 31 with (Z.ones 5). by rewrite Z.land_ones.
Qed.

Lemma key_parts k : 0 <= k <= 255 ->
  0 <= k / 32 < 8 /\ 0 <= k mod 32 < 32 /\ k = 32 * (k / 32) + k mod 32.
Proof.
  intros. pose proof (Z.div_mod k 32 ltac:(lia)). pose proof (Z.mod_pos_bound k 32). lia.
Qed.

Lemma shiftl1_u32 b : 0 <= b < 32 -> u32 (Z.shiftl 1 b) = Z.shiftl 1 b.
Proof.
  intros. apply wrap_small. rewrite Z.shiftl_1_l. split; [apply Z.pow_nonneg; lia|].
  apply Z.pow_lt_mono_r; lia.
Qed.

Lemma null_split x :
  0 <= x < 2 ^ 16 ->
  Z.land x (Z.lnot NULL_MASK) = x mod 2 ^ 15 /\
  negb (Z.land x NULL_MASK =? 0) = (2 ^ 15 <=? x) /\
  x = x mod 2 ^ 15 + (if 2 ^ 15 <=? x then 2 ^ 15 else 0).
Proof.
  intros Hx. assert (Z.testbit x 15 = (2 ^ 15 <=? x)) as T.
  { rewrite <- Z.bit0_mod || idtac. rewrite Z.testbit_true || idtac.
    replace 15 with (0 + 15) at 1 by lia. rewrite <- Z.div_pow2_bits, Z.bit0_odd by lia.
    change (2 ^ 16) with 65536 in *. change (2 ^ 15) with 32768. zcase.
    - by rewrite <- (Z.div_unique_pos x 32768 1 (x - 32768)) by lia.
    - by rewrite Z.div_small by lia. }
  split_and!.
  - apply Z.bits_inj'. intros i Hi. rewrite Z.land_spec, Z.lnot_spec by lia.
    unfold NULL_MASK. rewrite testbit_shiftl1 by lia.
    destruct (Z.lt_ge_cases i 15).
    + rewrite Z.mod_pow2_bits_low by lia. zbits.
    + rewrite Z.mod_pow2_bits_high by lia. zcase; [apply andb_false_r|].
      rewrite (testbit_high 16) by lia. done.
  - change (bits.isset x 15 = (2 ^ 15 <=? x)). rewrite bits.isset_testbit by lia. done.
  - pose proof (Z.div_mod x (2 ^ 15) ltac:(lia)). change (2 ^ 16) with 65536 in *.
    change (2 ^ 15) with 32768 in *. zcase.
    + rewrite <- (Z.div_unique_pos x 32768 1 (x - 32768)) in * by lia. lia.
    + rewrite Z.mod_small by lia. lia.
Qed.

Lemma count_mod n : 0 <= array_len n < 2 ^ 16 -> count n = array_len n mod 2 ^ 15.
Proof. intros H. apply (null_split _ H). Qed.

Lemma has_none_ge n : 0 <= array_len n < 2 ^ 16 -> has_none n = (2 ^ 15 <=? array_len n).
Proof. intros H. apply (null_split _ H). Qed.

Lemma array_len_split n : 0 <= array_len n < 2 ^ 16 ->
  array_len n = count n + (if has_none n then 2 ^ 15 else 0).
Proof.
  intros H. destruct (null_split _ H) as (E1 & E2 & E3). unfold count, has_none.
  rewrite E1, E2. done.
Qed.

(** ** Membership *)

Lemma up_high up g : 0 <= up < 256 -> 8 <= g -> Z.testbit up g = false.
Proof. intros. apply (testbit_high 8); [by change (2 ^ 8) with 256|done]. Qed.

Lemma upper_isset_testbit n g : 0 <= g -> upper_isset n g = Z.testbit (upper n) g.
Proof. apply bits.isset_testbit. Qed.

Lemma isset_has n k :
  -1 <= k <= 255 -> isset n k = has (upper n) (lower n) (has_none n) k.
Proof.
  intros Hk. unfold isset, has, NONE. destruct (Z.eqb_spec k (-1)); [done|].
  destruct (key_parts k ltac:(lia)) as (? & ? & ?).
  rewrite upper_isset_testbit, ubit_div, lbit_mod, shiftl1_u32 by (rewrite ?ubit_div; lia).
  unfold gw. destruct (Z.testbit (upper n) (k / 32)); simpl.
  - apply bits.isset_testbit. lia.
  - by rewrite Z.bits_0.
Qed.

Lemma gw_range up lower_ g : groups_ok up lower_ -> 0 <= g < 8 -> 0 <= gw up lower_ g < 2 ^ 32.
Proof.
  intros [_ H] Hg. unfold gw. destruct (Z.testbit up g) eqn:E; [|lia].
  specialize (H g Hg E). lia.
Qed.

Lemma gw_nonzero up lower_ g : groups_ok up lower_ -> 0 <= g < 8 ->
  Z.testbit up g = negb (gw up lower_ g =? 0).
Proof.
  intros [_ H] Hg. unfold gw. destruct (Z.testbit up g) eqn:E; [|done].
  specialize (H g Hg E). symmetry. apply negb_true_iff. zcase; lia.
Qed.

Lemma has_group up lower_ none g j :
  0 <= g -> 0 <= j < 32 -> has up lower_ none (32 * g + j) = Z.testbit (gw up lower_ g) j.
Proof.
  intros. unfold has. destruct (Z.eqb_spec (32 * g + j) (-1)); [lia|].
  rewrite (Z.mul_comm 32), Z.div_add_l, Z.div_small, Z.add_0_r by lia.
  by rewrite Z.add_comm, Z.mod_add, Z.mod_small by lia.
Qed.

(** ** Ranks *)

Lemma zcount_groups p f g :
  0 <= g -> (forall h j, 0 <= h < g -> 0 <= j < 32 -> p (32 * h + j) = Z.testbit (f h) j) ->
  zcount p 0 (32 * g) = zsum (fun h => bits.count 32 (f h)) g.
Proof.
  revert g. refine (range_ind _ _ _); [by rewrite zcount_nonpos|].
  intros g Hg IH E. rewrite zsum_snoc by lia.
  replace (32 * (g + 1)) with (32 * g + 32) by lia. rewrite zcount_app by lia.
  rewrite IH by (intros; apply E; lia). f_equal. rewrite zcount_shift.
  unfold bits.count, bits.popcount. apply zcount_ext. intros i Hi.
  rewrite <- E by lia. f_equal.
Qed.

Lemma index_le up g : 0 <= g <= 8 -> 0 <= zcount (Z.testbit up) 0 g <= g.
Proof. intros. apply zcount_bounds. lia. Qed.

Lemma zsum_compress up lower_ g :
  0 <= g <= 8 ->
  zsum (fun h => bits.count 32 (gw up lower_ h)) g =
  zsum (fun i => bits.count 32 (lower_ i)) (zcount (Z.testbit up) 0 g).
Proof.
  intros [H0 H8]. revert g H0 H8. refine (range_ind _ _ _); [by rewrite zcount_nonpos|].
  intros g Hg IH H8. rewrite zsum_snoc, zcount_snoc, IH by lia. rewrite Z.add_0_l.
  unfold gw at 1. destruct (Z.testbit up g).
  - rewrite zsum_snoc by apply zcount_nonneg. by rewrite bits.index_count by lia.
  - assert (bits.count 32 0 = 0) as -> by reflexivity. by rewrite !Z.add_0_r.
Qed.

Lemma groups_before_sum f lidx :
  0 <= lidx <= 7 -> groups_before f lidx = zsum (fun i => bits.count 32 (f i)) lidx.
Proof.
  intros H. assert (lidx = 0 \/ lidx = 1 \/ lidx = 2 \/ lidx = 3 \/ lidx = 4 \/
    lidx = 5 \/ lidx = 6 \/ lidx = 7) as C by lia.
  unfold groups_before.
  change (fun acc i => if i <? lidx then acc + bits.count 32 (f i) else acc)
    with (fun acc i => if i <? lidx then acc + (fun i => bits.count 32 (f i)) i else acc).
  generalize (fun i => bits.count 32 (f i)) as c. intros c. unfold zsum.
  destruct C as [->|[->|[->|[->|[->|[->|[->| ->]]]]]]]; simpl; rewrite ?Z.add_0_r;
    repeat match goal with |- context [Z.of_nat ?m] =>
      let v := eval compute in (Z.of_nat m) in change (Z.of_nat m) with v end; try lia.
Qed.

(** The rank of a key: how many branches come before it. *)
Lemma branch_rank_spec up lower_ none k alen :
  0 <= up < 256 -> 0 <= k <= 255 -> Z.testbit up (k / 32) = true ->
  negb (Z.land alen NULL_MASK =? 0) = none ->
  branch_rank lower_ (bits.index 32 up (ubit k)) k alen =
  zcount (has up lower_ none) (-1) (k + 1).
Proof.
  intros Hup Hk Hg <-. destruct (key_parts k Hk) as (Hg8 & Hb & E).
  unfold branch_rank. rewrite ubit_div, lbit_mod, bits.index_count by lia.
  set (none := negb _).
  assert (0 <= zcount (Z.testbit up) 0 (k / 32) <= 7) as Hl.
  { pose proof (index_le up (k / 32)). lia. }
  rewrite groups_before_sum, <- zsum_compress by lia.
  rewrite bits.wrap_mask by lia. unfold bits.count at 1. rewrite bits.popcount_below by lia.
  replace (k + 1) with (1 + (32 * (k / 32) + k mod 32)) by lia.
  rewrite !zcount_app by lia. change (-1 + 1) with 0.
  rewrite (zcount_groups _ (gw up lower_)) by (lia || (intros; apply has_group; lia)).
  assert (zcount (has up lower_ none) (-1) 1 = if none then 1 else 0) as ->.
  { change 1 with (0 + 1) at 1. rewrite zcount_snoc, zcount_nonpos by lia. done. }
  rewrite (zcount_shift _ (0 + 32 * (k / 32))).
  rewrite (zcount_ext (fun i => has _ _ _ _) (Z.testbit (lower_ (zcount (Z.testbit up) 0 (k / 32))))).
  - lia.
  - intros i Hi. rewrite Z.add_0_l, has_group by lia. unfold gw.
    by rewrite Hg, bits.index_count by lia.
Qed.

Lemma isset_count_ext n lo m : -1 <= lo -> lo + m <= 256 ->
  zcount (isset n) lo m = zcount (has (upper n) (lower n) (has_none n)) lo m.
Proof. intros. apply zcount_ext. intros i Hi. apply isset_has. lia. Qed.

Section Lookup.
Context (n : node) (G : groups_ok (upper n) (lower n)).

Lemma isset_upper k : 0 <= k <= 255 -> isset n k = true -> Z.testbit (upper n) (k / 32) = true.
Proof.
  intros Hk H. rewrite isset_has in H by lia. unfold has, gw in H.
  destruct (Z.eqb_spec k (-1)); [lia|].
  destruct (Z.testbit (upper n) (k / 32)); [done|]. by rewrite Z.bits_0 in H.
Qed.

Lemma array_index_rank k :
  -1 <= k <= 255 ->
  array_index n k = if isset n k then zcount (isset n) (-1) (k + 1) else -1.
Proof.
  intros Hk. unfold array_index, NONE. destruct (Z.eqb_spec k (-1)) as [->|Hne].
  { unfold isset. simpl. destruct (has_none n); [|done]. by rewrite zcount_nonpos. }
  assert (0 <= k <= 255) as Hk' by lia. pose proof (isset_upper k Hk') as Hu.
  rewrite upper_isset_testbit by (rewrite ubit_div by lia; destruct (key_parts k Hk'); lia).
  assert (isset n k = Z.testbit (upper n) (ubit k) && negb (Z.land (lower n
    (bits.index 32 (upper n) (ubit k))) (u32 (Z.shiftl 1 (lbit k))) =? 0)) as E.
  { unfold isset, NONE. destruct (Z.eqb_spec k (-1)); [lia|].
    by rewrite upper_isset_testbit by (rewrite ubit_div by lia; destruct (key_parts k Hk'); lia). }
  rewrite E in *. destruct (Z.testbit (upper n) (ubit k)) eqn:T; [|done]. simpl in *.
  destruct (Z.land _ _ =? 0); simpl in *; [done|].
  rewrite (branch_rank_spec _ _ (has_none n)); [|apply G|done|auto|done].
  symmetry. apply isset_count_ext; lia.
Qed.

(** The keys and links of a node. *)
Lemma elem_of_keys k : k ∈ keys n <-> -1 <= k <= 255 /\ isset n k = true.
Proof. unfold keys. rewrite elem_of_zfilter. split; intros [? ?]; split; lia || done. Qed.

Lemma links_length : 0 <= count n -> length (links n) = Z.to_nat (count n).
Proof. intros. unfold links. by rewrite length_map, length_seqZ. Qed.

Lemma links_lookup i : 0 <= i < count n -> links n !! Z.to_nat i = Some (slot n i).
Proof.
  intros. unfold links. rewrite list_lookup_fmap, lookup_seqZ_lt by lia. simpl.
  by rewrite Z2Nat.id by lia.
Qed.

End Lookup.

Section Wf.
Context (HASH_SIZE : Z) (n : node) (W : wf HASH_SIZE n).

Lemma keys_length : Z.of_nat (length (keys n)) = count n.
Proof. by rewrite (wf_count _ _ W). Qed.

Lemma count_range : 0 <= count n <= 257.
Proof. rewrite (wf_count _ _ W). apply zcount_bounds. lia. Qed.

(** the array index of a key is its position among the branch
    keys, and -1 when there is no such branch; the index is always inside the
    array. *)
Theorem array_index_keys (k : Z) :
  -1 <= k <= 255 ->
  (isset n k = true /\ 0 <= array_index n k < count n /\
   keys n !! Z.to_nat (array_index n k) = Some k) \/
  (isset n k = false /\ array_index n k = -1).
Proof.
  intros Hk. rewrite (array_index_rank n (wf_groups _ _ W) k Hk).
  destruct (isset n k) eqn:E; [left|by right]. split_and!; [done| | |].
  - apply zcount_nonneg.
  - rewrite (wf_count _ _ W). apply (zcount_strict _ _ _ _ k E); lia.
  - replace (k + 1) with (k - -1) by lia. apply zfilter_lookup_count; [done|lia].
Qed.

(** Lookup of the link of a key. *)
Definition link (k : Z) : option Z :=
  match offset n k with Some i => Some (slot n i) | None => None end.

Lemma link_keys k i :
  keys n !! i = Some k -> links n !! i = link k.
Proof.
  intros Hi. assert (k ∈ keys n) as [Hk Hs]%elem_of_keys by (by eapply list_elem_of_lookup_2).
  destruct (array_index_keys k Hk) as [(_ & Hr & Hl)|[Hf _]]; [|congruence].
  assert (i = Z.to_nat (array_index n k)) as ->.
  { eapply NoDup_lookup; [|done|done]. unfold keys, zfilter. apply list.NoDup_filter, NoDup_seqZ. }
  unfold link, offset. destruct (Z.leb_spec 0 (array_index n k)); [|lia].
  apply links_lookup. lia.
Qed.

End Wf.

(** ** Navigation *)

Lemma lor_shift g b : 0 <= g -> 0 <= b < 32 -> Z.lor (Z.shiftl g 5) b = 32 * g + b.
Proof.
  intros Hg Hb. rewrite <- Z.add_nocarry_lor, Z.shiftl_mul_pow2 by
    (try apply Z.bits_inj'; lia || (intros i Hi; rewrite Z.land_spec, Z.bits_0;
     destruct (Z.lt_ge_cases i 5);
     [by rewrite Z.shiftl_spec_low by lia|
      by rewrite (testbit_high 5 b), andb_false_r by (change (2 ^ 5) with 32; lia)])).
  change (2 ^ 5) with 32. lia.
Qed.

(** The least and the greatest branch key of a range. *)
Definition least_key (n : node) (lo r : Z) : Prop :=
  (r = OUT_OF_RANGE /\ forall k, lo <= k <= 255 -> isset n k = false) \/
  (lo <= r <= 255 /\ isset n r = true /\ forall k, lo <= k < r -> isset n k = false).

Definition greatest_key (n : node) (hi r : Z) : Prop :=
  (r = OUT_OF_RANGE /\ forall k, -1 <= k < hi -> isset n k = false) \/
  (-1 <= r < hi /\ isset n r = true /\ forall k, r < k < hi -> isset n k = false).

Section Navigation.
Context (n : node) (G : groups_ok (upper n) (lower n)).

Abbreviation group g := (gw (upper n) (lower n) g).

Lemma isset_group g j :
  0 <= g < 8 -> 0 <= j < 32 -> isset n (32 * g + j) = Z.testbit (group g) j.
Proof. intros. rewrite isset_has by lia. by rewrite has_group by lia. Qed.

Lemma isset_absent k :
  0 <= k <= 255 -> Z.testbit (upper n) (k / 32) = false -> isset n k = false.
Proof.
  intros Hk Hu. destruct (isset n k) eqn:E; [|done].
  by rewrite (isset_upper n k Hk E) in Hu.
Qed.

Lemma upper_width : bits.in_width 32 (upper n).
Proof.
  destruct G as [Hu _]. unfold bits.in_width. change (2 ^ 32) with 4294967296. lia.
Qed.

Lemma group_width g : 0 <= g < 8 -> bits.in_width 32 (group g).
Proof. intros. by apply (gw_range _ _ _ G). Qed.

Lemma group_word g : 0 <= g < 8 -> Z.testbit (upper n) g = true ->
  lower n (bits.index 32 (upper n) g) = group g /\ group g <> 0.
Proof.
  intros Hg Hu. pose proof (gw_nonzero _ _ g G Hg) as E. unfold gw in *.
  rewrite Hu in *. split; [done|]. symmetry in E. by zbool.
Qed.

Lemma upper_below8 g : 0 <= g -> Z.testbit (upper n) g = true -> g < 8.
Proof.
  intros Hg Hu. destruct (Z.lt_ge_cases g 8); [done|].
  rewrite up_high in Hu by (lia || apply G). done.
Qed.

(** The first key of a present group. *)
Lemma group_first g :
  0 <= g < 8 -> Z.testbit (upper n) g = true ->
  let r := Z.lor (Z.shiftl g 5) (bits.first 32 (lower n (bits.index 32 (upper n) g))) in
  32 * g <= r < 32 * g + 32 /\ isset n r = true /\
  forall k, 32 * g <= k < r -> isset n k = false.
Proof.
  intros Hg Hu r. subst r. destruct (group_word g Hg Hu) as [-> Hnz].
  pose proof (group_width g Hg) as Hw.
  destruct (bits.countr_zero_spec 32 (group g)) as (R & T & L); [lia|done|done|].
  unfold bits.first. destruct (Z.eqb_spec (group g) 0); [done|].
  rewrite lor_shift by lia. split_and!; [lia..|by rewrite isset_group|].
  intros k Hk. replace k with (32 * g + (k - 32 * g)) by lia.
  rewrite isset_group by lia. apply L. lia.
Qed.

Lemma group_last g :
  0 <= g < 8 -> Z.testbit (upper n) g = true ->
  let r := Z.lor (Z.shiftl g 5) (bits.last 32 (lower n (bits.index 32 (upper n) g))) in
  32 * g <= r < 32 * g + 32 /\ isset n r = true /\
  forall k, r < k < 32 * g + 32 -> isset n k = false.
Proof.
  intros Hg Hu r. subst r. destruct (group_word g Hg Hu) as [-> Hnz].
  pose proof (group_width g Hg) as Hw.
  destruct (bits.countl_zero_spec 32 (group g)) as (R & T & L); [lia|done|done|].
  unfold bits.last. destruct (Z.eqb_spec (group g) 0); [done|].
  rewrite lor_shift by lia. split_and!; [lia..|by rewrite isset_group|].
  intros k Hk. replace k with (32 * g + (k - 32 * g)) by lia.
  rewrite isset_group by lia. apply L. lia.
Qed.

Lemma no_groups_no_keys a b k :
  0 <= a -> b <= 8 -> (forall g, a <= g < b -> Z.testbit (upper n) g = false) ->
  32 * a <= k < 32 * b -> isset n k = false.
Proof.
  intros Ha Hb H Hk. destruct (key_parts k ltac:(lia)) as (? & ? & ?).
  apply isset_absent; [lia|]. apply H. lia.
Qed.

Lemma next_lower_least k :
  0 <= k <= 255 -> least_key n (32 * (k / 32) + 32) (next_lower n k).
Proof.
  intros Hk. destruct (key_parts k Hk) as (Hg & _ & _). unfold next_lower.
  rewrite ubit_div by lia.
  destruct (bits.next_least 32 (upper n) (k / 32) ltac:(lia) upper_width) as [[-> L]|(R & T & L)].
  - left. split; [done|]. intros j Hj. simpl.
    apply (no_groups_no_keys (k / 32 + 1) 8); [lia|lia| |lia]. intros g Hg'. apply L. lia.
  - pose proof (upper_below8 (bits.next 32 (upper n) (k / 32)) ltac:(lia) T).
    destruct (Z.ltb_spec (bits.next 32 (upper n) (k / 32)) 0); [lia|].
    set (g := bits.next 32 (upper n) (k / 32)) in *. cbv zeta.
    destruct (group_first g ltac:(lia) T) as (F1 & F2 & F3).
    right. split_and!; [lia..|done|]. intros j Hj.
    destruct (Z.lt_ge_cases j (32 * g)); [|apply F3; lia].
    apply (no_groups_no_keys (k / 32 + 1) g); [lia|lia|done|lia].
Qed.

Lemma prev_lower_greatest k :
  0 <= k <= 255 -> greatest_key n (32 * (k / 32)) (prev_lower n k).
Proof.
  intros Hk. destruct (key_parts k Hk) as (Hg & _ & _). unfold prev_lower.
  rewrite ubit_div by lia.
  destruct (bits.prev_greatest 32 (upper n) (k / 32) ltac:(lia) upper_width) as [[-> L]|(R & T & L)].
  - simpl. assert (forall j, 0 <= j < 32 * (k / 32) -> isset n j = false) as E.
    { intros j Hj. apply (no_groups_no_keys 0 (k / 32)); [lia|lia|done|lia]. }
    destruct (has_none n) eqn:N.
    + right. unfold NONE. split_and!; [lia..|done|]. intros j Hj. apply E. lia.
    + left. split; [done|]. intros j Hj. destruct (decide (j = -1)) as [->|]; [done|].
      apply E. lia.
  - destruct (Z.ltb_spec (bits.prev 32 (upper n) (k / 32)) 0); [lia|].
    set (g := bits.prev 32 (upper n) (k / 32)) in *. cbv zeta.
    destruct (group_last g ltac:(lia) T) as (F1 & F2 & F3).
    right. split_and!; [lia..|done|]. intros j Hj.
    destruct (Z.lt_ge_cases j (32 * g + 32)); [apply F3; lia|].
    apply (no_groups_no_keys (g + 1) (k / 32)); [lia|lia| |lia]. intros h Hh. apply L. lia.
Qed.

(** [next] returns the least branch key above the given one (from
    [NONE] on), [OUT_OF_RANGE] when there is none. *)
Theorem next_least_key k : -1 <= k <= 255 -> least_key n (k + 1) (next n k).
Proof.
  intros Hk. unfold next, NONE. destruct (Z.eqb_spec k (-1)) as [->|Hne].
  { destruct (bits.first_least 32 (upper n) ltac:(lia) upper_width) as [[-> L]|(R & T & L)].
    - left. split; [done|]. intros j Hj. apply (no_groups_no_keys 0 8); [lia..| |lia].
      intros g Hg. apply L. lia.
    - pose proof (upper_below8 (bits.first 32 (upper n)) ltac:(lia) T).
      destruct (Z.ltb_spec (bits.first 32 (upper n)) 0); [lia|].
      set (g := bits.first 32 (upper n)) in *. cbv zeta.
      destruct (group_first g ltac:(lia) T) as (F1 & F2 & F3).
      assert (bits.index 32 (upper n) g = 0) as E.
      { rewrite bits.index_count by lia. apply zcount_zero; [lia|]. intros; apply L; lia. }
      rewrite E in *. right. split_and!; [lia..|done|]. intros j Hj.
      destruct (Z.lt_ge_cases j (32 * g)); [|apply F3; lia].
      apply (no_groups_no_keys 0 g); [lia|lia| |lia]. intros h Hh. apply L. lia. }
  assert (0 <= k <= 255) as Hk' by lia. destruct (key_parts k Hk') as (Hg & Hb & Ek).
  rewrite upper_isset_testbit, ubit_div, lbit_mod by (rewrite ?ubit_div; lia).
  pose proof (next_lower_least k Hk') as N.
  assert ((forall j, k + 1 <= j < 32 * (k / 32) + 32 -> isset n j = false) ->
    least_key n (k + 1) (next_lower n k)) as Up.
  { intros E. destruct N as [[-> L]|(R & T & L)]; [left|right].
    - split; [done|]. intros j Hj.
      destruct (Z.lt_ge_cases j (32 * (k / 32) + 32)); [apply E|apply L]; lia.
    - split_and!; [lia..|done|]. intros j Hj.
      destruct (Z.lt_ge_cases j (32 * (k / 32) + 32)); [apply E|apply L]; lia. }
  destruct (Z.testbit (upper n) (k / 32)) eqn:T; simpl.
  2:{ apply Up. intros j Hj. apply isset_absent; [lia|].
      by replace (j / 32) with (k / 32) by (apply Z.div_unique with (j - 32 * (k / 32)); lia). }
  destruct (group_word (k / 32) ltac:(lia) T) as [-> Hnz].
  destruct (bits.next_least 32 (group (k / 32)) (k mod 32) ltac:(lia)
    (group_width (k / 32) ltac:(lia))) as [[-> L]|(R & TT & L)].
  - apply Up. intros j Hj. replace j with (32 * (k / 32) + (j - 32 * (k / 32))) by lia.
    rewrite isset_group by lia. apply L. lia.
  - destruct (Z.ltb_spec (bits.next 32 (group (k / 32)) (k mod 32)) 0); [lia|].
    rewrite lor_shift by lia. right. split_and!; [lia..|by rewrite isset_group by lia|].
    intros j Hj. replace j with (32 * (k / 32) + (j - 32 * (k / 32))) by lia.
    rewrite isset_group by lia. apply L. lia.
Qed.

(** [prev] returns the greatest branch key below the given one, down to
    and including [NONE], [OUT_OF_RANGE] when there is none. *)
Theorem prev_greatest_key k : -1 <= k <= 255 -> greatest_key n k (prev n k).
Proof.
  intros Hk. unfold prev, NONE. destruct (Z.eqb_spec k (-1)) as [->|Hne].
  { left. split; [done|]. lia. }
  assert (0 <= k <= 255) as Hk' by lia. destruct (key_parts k Hk') as (Hg & Hb & Ek).
  rewrite upper_isset_testbit, ubit_div, lbit_mod by (rewrite ?ubit_div; lia).
  pose proof (prev_lower_greatest k Hk') as N.
  assert ((forall j, 32 * (k / 32) <= j < k -> isset n j = false) ->
    greatest_key n k (prev_lower n k)) as Dn.
  { intros E. destruct N as [[-> L]|(R & T & L)]; [left|right].
    - split; [done|]. intros j Hj.
      destruct (Z.lt_ge_cases j (32 * (k / 32))); [apply L|apply E]; lia.
    - split_and!; [lia..|done|]. intros j Hj.
      destruct (Z.lt_ge_cases j (32 * (k / 32))); [apply L|apply E]; lia. }
  destruct (Z.testbit (upper n) (k / 32)) eqn:T; simpl.
  2:{ apply Dn. intros j Hj. apply isset_absent; [lia|].
      by replace (j / 32) with (k / 32) by (apply Z.div_unique with (j - 32 * (k / 32)); lia). }
  destruct (group_word (k / 32) ltac:(lia) T) as [-> Hnz].
  destruct (bits.prev_greatest 32 (group (k / 32)) (k mod 32) ltac:(lia)
    (group_width (k / 32) ltac:(lia))) as [[-> L]|(R & TT & L)].
  - apply Dn. intros j Hj. replace j with (32 * (k / 32) + (j - 32 * (k / 32))) by lia.
    rewrite isset_group by lia. apply L. lia.
  - destruct (Z.ltb_spec (bits.prev 32 (group (k / 32)) (k mod 32)) 0); [lia|].
    rewrite lor_shift by lia. right. split_and!; [lia..|by rewrite isset_group by lia|].
    intros j Hj. replace j with (32 * (k / 32) + (j - 32 * (k / 32))) by lia.
    rewrite isset_group by lia. apply L. lia.
Qed.

(** [first] is the least branch key of a node that has one. *)
Theorem first_least_key :
  (exists k, -1 <= k <= 255 /\ isset n k = true) -> least_key n (-1) (first n).
Proof.
  intros (k & Hk & Hs). unfold first. destruct (has_none n) eqn:N.
  { right. unfold NONE. split_and!; [lia..|done|lia]. }
  assert (isset n (-1) = false) as H1 by done.
  assert (k <> -1) by congruence. pose proof (next_least_key (-1) ltac:(lia)) as L.
  unfold next, NONE in L. simpl in L.
  destruct (bits.first_least 32 (upper n) ltac:(lia) upper_width) as [[E L0]|(R & T & L0)].
  - rewrite E in L. simpl in L. destruct L as [[_ L]|[? _]]; [|unfold OUT_OF_RANGE in *; lia].
    rewrite L in Hs by lia. done.
  - destruct (Z.ltb_spec (bits.first 32 (upper n)) 0); [lia|].
    destruct L as [[_ L]|(R1 & T1 & L1)]; [by rewrite L in Hs by lia|].
    right. split_and!; [lia..|done|]. intros j Hj.
    destruct (decide (j = -1)) as [->|]; [done|]. apply L1. lia.
Qed.

(** ** The branch iterator *)

Lemma members_clear W x r :
  0 <= W -> bits.in_width W x -> x <> 0 -> r = bits.countr_zero W x ->
  bits.members W x = r :: bits.members W (Z.land x (x - 1)).
Proof.
  intros HW Hx Hn ->. destruct (bits.countr_zero_spec W x HW Hx Hn) as (R & T & L).
  unfold bits.members. rewrite (zfilter_least (Z.testbit x) 0 W (bits.countr_zero W x)) by (done || lia).
  f_equal. apply zfilter_ext. intros i Hi.
  rewrite (bits.testbit_clear_lowest x (bits.countr_zero W x)); [done| |lia|done|done|lia].
  unfold bits.in_width in Hx. lia.
Qed.

Lemma clear_lowest_width W w x :
  0 <= w <= W -> 0 < x < 2 ^ w ->
  wrap w (Z.land x (x - 1)) = Z.land x (x - 1) /\ 0 <= Z.land x (x - 1) < 2 ^ w.
Proof.
  intros Hw Hx. assert (bits.in_width w (Z.land x (x - 1))) as H.
  { apply bits.land_in_width; unfold bits.in_width; lia. }
  split; [by apply wrap_small|done].
Qed.

Lemma scan_lower_spec fuel g rem idx :
  0 <= g < 8 -> 0 <= rem < 2 ^ 32 -> (length (bits.members 32 rem) <= fuel)%nat ->
  scan_lower fuel (Z.shiftl g 5) rem idx =
  number idx (map (Z.add (32 * g)) (bits.members 32 rem)).
Proof.
  intros Hg. revert rem idx. induction fuel as [|fuel IH]; intros rem idx Hr Hf; simpl.
  { destruct (bits.members 32 rem); [done|simpl in Hf; lia]. }
  destruct (Z.eqb_spec rem 0) as [->|Hn]; [done|].
  assert (bits.in_width 32 rem) as Hw by done.
  pose proof (members_clear 32 rem _ ltac:(lia) Hw Hn eq_refl) as M. rewrite M in Hf |- *.
  destruct (bits.countr_zero_spec 32 rem) as (R & _); [lia|done|done|].
  destruct (clear_lowest_width 32 32 rem) as [-> Hc]; [lia|lia|]. simpl in Hf |- *.
  unfold bits.first. destruct (Z.eqb_spec rem 0); [done|]. rewrite lor_shift by lia.
  rewrite IH by (done || lia). done.
Qed.

Lemma members_bound W x : (length (bits.members W x) <= Z.to_nat W)%nat.
Proof.
  destruct (Z.le_gt_cases 0 W).
  - pose proof (zcount_bounds (Z.testbit x) 0 W H). unfold zcount in *. unfold bits.members. lia.
  - unfold bits.members. rewrite zfilter_nonpos by lia. simpl. lia.
Qed.

(** The keys of one group. *)
Lemma group_keys g : 0 <= g < 8 ->
  zfilter (isset n) (32 * g) 32 = map (Z.add (32 * g)) (bits.members 32 (group g)).
Proof.
  intros Hg. replace (32 * g) with (32 * g + 0) at 1 by lia. rewrite zfilter_shift. f_equal.
  apply zfilter_ext. intros i Hi. by apply isset_group.
Qed.

Lemma scan_upper_spec fuel rem g0 idx :
  0 <= g0 <= 8 -> 0 <= rem < 256 ->
  (forall g, 0 <= g < 8 -> Z.testbit rem g = Z.testbit (upper n) g && (g0 <=? g)) ->
  (length (bits.members 32 rem) <= fuel)%nat ->
  scan_upper fuel (lower n) rem (zcount (Z.testbit (upper n)) 0 g0) idx =
  number idx (zfilter (isset n) (32 * g0) (256 - 32 * g0)).
Proof.
  revert rem g0 idx. induction fuel as [|fuel IH]; intros rem g0 idx Hg0 Hr E Hf; cbn [scan_upper].
  - apply Nat.le_0_r, nil_length_inv in Hf.
    rewrite zfilter_none; [done|]. intros k Hk.
    apply (no_groups_no_keys g0 8); [lia|lia| |lia]. intros g Hg. specialize (E g ltac:(lia)).
    destruct (Z.testbit (upper n) g); [|done]. simpl in E.
    assert (g ∈ bits.members 32 rem) as Hin; [|rewrite Hf in Hin; by apply elem_of_nil in Hin].
    apply elem_of_zfilter. split; [lia|]. rewrite E. apply Z.leb_le. lia.
  - destruct (Z.eqb_spec rem 0) as [->|Hn].
    { rewrite zfilter_none; [done|]. intros k Hk.
      apply (no_groups_no_keys g0 8); [lia|lia| |lia]. intros g Hg. specialize (E g ltac:(lia)).
      rewrite Z.bits_0 in E. destruct (Z.testbit (upper n) g); [|done]. zbool. simpl in E.
      symmetry in E. zbool. lia. }
    assert (bits.in_width 32 rem) as Hw by (unfold bits.in_width; change (2 ^ 32) with 4294967296; lia).
    destruct (bits.countr_zero_spec 32 rem) as (R & T & L); [lia|done|done|].
    rewrite (members_clear 32 rem _ ltac:(lia) Hw Hn eq_refl) in Hf.
    unfold bits.first. destruct (Z.eqb_spec rem 0); [done|].
    set (g := bits.countr_zero 32 rem) in *. change 256 with (2 ^ 8) in Hr.
    assert (g < 8).
    { destruct (Z.lt_ge_cases g 8); [done|]. by rewrite (testbit_high 8) in T by lia. }
    pose proof (E g ltac:(lia)) as Eg. rewrite T in Eg. symmetry in Eg. zbool.
    assert (zcount (Z.testbit (upper n)) 0 g0 = zcount (Z.testbit (upper n)) 0 g) as Ec.
    { replace g with (g0 + (g - g0)) by lia. rewrite zcount_app by lia.
      rewrite (proj2 (zcount_zero _ (0 + g0) (g - g0) ltac:(lia))); [lia|].
      intros h Hh. specialize (E h ltac:(lia)). rewrite L in E by lia.
      destruct (Z.testbit (upper n) h); [|done]. simpl in E. symmetry in E. zbool. lia. }
    destruct (group_word g ltac:(lia) H0) as [Wd _]. rewrite bits.index_count in Wd by lia.
    rewrite Ec, Wd. rewrite scan_lower_spec; [|lia|apply gw_range; [done|lia]|apply (members_bound 32)].
    rewrite number_length, <- group_keys by lia.
    destruct (clear_lowest_width 8 8 rem) as [-> Hc]; [lia|lia|].
    replace (zcount (Z.testbit (upper n)) 0 g + 1) with (zcount (Z.testbit (upper n)) 0 (g + 1)).
    2:{ rewrite zcount_snoc by lia. rewrite Z.add_0_l. by rewrite H0. }
    rewrite IH; [|lia|done| |simpl in Hf; lia].
    + replace (256 - 32 * g0) with ((32 * g - 32 * g0) + (32 + (256 - 32 * (g + 1)))) by lia.
      rewrite (zfilter_app _ (32 * g0)) by lia. rewrite (zfilter_none _ (32 * g0)).
      * simpl. replace (32 * g0 + (32 * g - 32 * g0)) with (32 * g) by lia.
        rewrite zfilter_app by lia. rewrite number_app.
        by replace (32 * g + 32) with (32 * (g + 1)) by lia.
      * intros k Hk. apply (no_groups_no_keys g0 g); [lia|lia| |lia]. intros h Hh.
        specialize (E h ltac:(lia)). rewrite L in E by lia.
        destruct (Z.testbit (upper n) h); [|done]. simpl in E. symmetry in E. zbool. lia.
    + intros h Hh. rewrite (bits.testbit_clear_lowest rem g) by (done || lia).
      rewrite E by lia. destruct (Z.eqb_spec h g) as [->|].
      * rewrite andb_false_r. symmetry. destruct (Z.testbit (upper n) g); zbits.
      * destruct (Z.lt_ge_cases h g).
        { specialize (E h ltac:(lia)). rewrite L in E by lia.
          rewrite <- E. simpl. symmetry. destruct (Z.testbit (upper n) h); zbits. }
        destruct (Z.testbit (upper n) h); zbits.
Qed.

(** [for_each_branch] visits exactly the branches, in increasing key
    order with the NULL branch first, each with its own array slot. *)
Theorem for_each_branch_keys : for_each_branch n = number 0 (keys n).
Proof.
  unfold for_each_branch, keys. change 257 with (1 + 256). rewrite zfilter_app by lia.
  rewrite number_app. change (-1 + 1) with (32 * 0). change 256 with (256 - 32 * 0).
  assert (zfilter (isset n) (-1) 1 = if has_none n then [-1] else []) as -> by apply zfilter_one.
  rewrite <- (scan_upper_spec 8 (upper n)).
  - rewrite zcount_nonpos by lia. by destruct (has_none n).
  - lia.
  - apply G.
  - intros g Hg. zcase; [by rewrite andb_true_r|lia].
  - pose proof (members_bound 8 (upper n)) as B. unfold bits.members in *.
    change 32 with (8 + 24). rewrite zfilter_app, (zfilter_none _ (0 + 8)) by
      (lia || (intros; apply up_high; [apply G|lia])). rewrite app_nil_r. done.
Qed.

End Navigation.

End NodeFacts.
