(* ===== verification/NodeUpdate.v ===== *)
(** * NodeUpdate: what the constructors and the in-place update of a trie node do

    Every function of [_node.hpp] that builds a node is related to the reference
    view of [NodeFacts]: which branch keys the result has, where each link ends
    up, that the result is well formed and as large as the size functions
    announce. Sizes and offsets never overflow their 8- and 16-bit fields as long
    as the inline hash is at most 512 bytes. *)
From S2P Require Import Prelude Bits Util Node NodeFacts.

Module NodeUpdate.
Import TrieNode NodeFacts.

(** Reading a word memory after copies and stores. *)
Ltac mem :=
  unfold load64, memcpy, memmove, clear, store in *;
  repeat match goal with
  | |- context [?a <=? ?b] => destruct (Z.leb_spec a b); [|try lia]; cbn [andb]; try lia
  | |- context [?a <? ?b] => destruct (Z.ltb_spec a b); try lia; cbn [andb]
  | |- context [?a =? ?b] => destruct (Z.eqb_spec a b); try lia
  end; repeat (f_equal; try lia); try done.

(** ** The bitmaps *)

Section Index.
Context (up : Z).

Lemma bcount_split g : 0 <= g <= 32 ->
  bits.count 32 up = zcount (Z.testbit up) 0 g + zcount (Z.testbit up) g (32 - g).
Proof.
  intros. unfold bits.count, bits.popcount. replace 32 with (g + (32 - g)) at 1 by lia.
  rewrite zcount_app by lia. done.
Qed.

Lemma bcount_range : 0 <= up < 256 -> 0 <= bits.count 32 up <= 8.
Proof.
  intros H. rewrite (bcount_split 8) by lia.
  rewrite (proj2 (zcount_zero _ 8 (32 - 8) ltac:(lia))) by (intros; apply up_high; lia).
  pose proof (zcount_bounds (Z.testbit up) 0 8). lia.
Qed.

Lemma index_lt_count g :
  0 <= g < 32 -> Z.testbit up g = true -> 0 <= bits.index 32 up g < bits.count 32 up.
Proof.
  intros Hg T. rewrite bits.index_count by lia. split; [apply zcount_nonneg|].
  unfold bits.count, bits.popcount. apply (zcount_strict _ _ _ _ g T); lia.
Qed.

Lemma index_strict g h :
  0 <= g < h -> h < 32 -> Z.testbit up g = true -> bits.index 32 up g < bits.index 32 up h.
Proof.
  intros. rewrite !bits.index_count by lia. apply (zcount_strict _ _ _ _ g); [done|lia..].
Qed.

Lemma index_inj g h :
  0 <= g < 32 -> 0 <= h < 32 -> Z.testbit up g = true -> Z.testbit up h = true ->
  bits.index 32 up g = bits.index 32 up h -> g = h.
Proof.
  intros Hg Hh Tg Th E. destruct (Z.lt_trichotomy g h) as [|[|]]; [|done|].
  - pose proof (index_strict g h ltac:(lia) ltac:(lia) Tg). lia.
  - pose proof (index_strict h g ltac:(lia) ltac:(lia) Th). lia.
Qed.

End Index.

Section Bitmap.
Context (up : Z) (lo : Z -> Z) (up' : Z) (lo' : Z -> Z) (bit b : Z) (Hbit : 0 <= bit < 8) (Hb : 0 <= b < 32).

(** The four shapes of an update of the bitmaps. *)
Lemma gw_set_present :
  Z.testbit up bit = true ->
  (forall i, 0 <= i < bits.count 32 up -> lo' i =
    if i =? bits.index 32 up bit then Z.lor (lo i) (Z.shiftl 1 b) else lo i) ->
  forall g, 0 <= g < 8 -> gw up lo' g =
    if g =? bit then Z.lor (gw up lo g) (Z.shiftl 1 b) else gw up lo g.
Proof.
  intros T E g Hg. unfold gw. destruct (Z.testbit up g) eqn:Tg.
  - rewrite E by (apply index_lt_count; [lia|done]).
    destruct (Z.eqb_spec g bit) as [->|]; [by rewrite Z.eqb_refl|].
    destruct (Z.eqb_spec (bits.index 32 up g) (bits.index 32 up bit)) as [I|]; [|done].
    apply (index_inj up) in I; [lia|lia..|done|done].
  - destruct (Z.eqb_spec g bit) as [->|]; [congruence|done].
Qed.

Lemma gw_set_absent :
  Z.testbit up bit = false -> up' = Z.lor up (Z.shiftl 1 bit) ->
  (forall i, 0 <= i < bits.count 32 up' -> lo' i =
    if i <? bits.index 32 up bit then lo i
    else if i =? bits.index 32 up bit then Z.shiftl 1 b else lo (i - 1)) ->
  forall g, 0 <= g < 8 -> gw up' lo' g =
    if g =? bit then Z.lor (gw up lo g) (Z.shiftl 1 b) else gw up lo g.
Proof.
  intros T -> E g Hg.
  assert (forall i, Z.testbit (Z.lor up (Z.shiftl 1 bit)) i = Z.testbit up i || (i =? bit)) as Tl.
  { intros i. by rewrite Z.lor_spec, testbit_shiftl1 by lia. }
  assert (forall h, 0 <= h <= bit ->
    zcount (Z.testbit (Z.lor up (Z.shiftl 1 bit))) 0 h = zcount (Z.testbit up) 0 h) as Lo.
  { intros h Hh. apply zcount_ext. intros i Hi. rewrite Tl. destruct (Z.eqb_spec i bit); [lia|].
    apply orb_false_r. }
  unfold gw. rewrite Tl. destruct (Z.testbit up g) eqn:Tg.
  - destruct (Z.eqb_spec g bit) as [->|]; [congruence|]. simpl.
    rewrite E by (apply index_lt_count; [lia|by rewrite Tl, Tg]).
    rewrite !bits.index_count in * by lia.
    destruct (Z.lt_ge_cases g bit).
    + rewrite Lo by lia. pose proof (zcount_strict _ 0 g bit g Tg ltac:(lia) ltac:(lia)).
      destruct (Z.ltb_spec (zcount (Z.testbit up) 0 g) (zcount (Z.testbit up) 0 bit)); [done|lia].
    + assert (zcount (Z.testbit (Z.lor up (Z.shiftl 1 bit))) 0 g = zcount (Z.testbit up) 0 g + 1) as ->.
      { replace g with (bit + (1 + (g - bit - 1))) by lia. rewrite !zcount_app by lia.
        rewrite (Lo bit) by lia. rewrite (zcount_ext _ (Z.testbit up) (0 + bit + 1)).
        - rewrite !zcount_one, Tl, Z.add_0_l, T, Z.eqb_refl. simpl. lia.
        - intros i Hi. rewrite Tl. destruct (Z.eqb_spec i bit); [lia|]. apply orb_false_r. }
      pose proof (zcount_mono (Z.testbit up) 0 bit g ltac:(lia)).
      destruct (Z.ltb_spec (zcount (Z.testbit up) 0 g + 1) (zcount (Z.testbit up) 0 bit)); [lia|].
      destruct (Z.eqb_spec (zcount (Z.testbit up) 0 g + 1) (zcount (Z.testbit up) 0 bit)); [lia|].
      f_equal. lia.
  - destruct (Z.eqb_spec g bit) as [->|]; simpl; [|done].
    rewrite E by (apply index_lt_count; [lia|by rewrite Tl, Z.eqb_refl, orb_true_r]).
    rewrite !bits.index_count, Lo by lia. rewrite Z.ltb_irrefl, Z.eqb_refl. done.
Qed.

Lemma gw_clear_some :
  Z.testbit up bit = true ->
  (forall i, 0 <= i < bits.count 32 up -> lo' i =
    if i =? bits.index 32 up bit then Z.ldiff (lo i) (Z.shiftl 1 b) else lo i) ->
  forall g, 0 <= g < 8 -> gw up lo' g =
    if g =? bit then Z.ldiff (gw up lo g) (Z.shiftl 1 b) else gw up lo g.
Proof.
  intros T E g Hg. unfold gw. destruct (Z.testbit up g) eqn:Tg.
  - rewrite E by (apply index_lt_count; [lia|done]).
    destruct (Z.eqb_spec g bit) as [->|]; [by rewrite Z.eqb_refl|].
    destruct (Z.eqb_spec (bits.index 32 up g) (bits.index 32 up bit)) as [I|]; [|done].
    apply (index_inj up) in I; [lia|lia..|done|done].
  - destruct (Z.eqb_spec g bit) as [->|]; [congruence|done].
Qed.

Lemma gw_clear_last :
  Z.testbit up bit = true -> up' = Z.ldiff up (Z.shiftl 1 bit) ->
  Z.ldiff (gw up lo bit) (Z.shiftl 1 b) = 0 ->
  (forall i, 0 <= i < bits.count 32 up' -> lo' i =
    if i <? bits.index 32 up bit then lo i else lo (i + 1)) ->
  forall g, 0 <= g < 8 -> gw up' lo' g =
    if g =? bit then Z.ldiff (gw up lo g) (Z.shiftl 1 b) else gw up lo g.
Proof.
  intros T -> Z0 E g Hg.
  assert (forall i, 0 <= i ->
    Z.testbit (Z.ldiff up (Z.shiftl 1 bit)) i = Z.testbit up i && negb (i =? bit)) as Tl.
  { intros i Hi. by rewrite Z.ldiff_spec, testbit_shiftl1 by lia. }
  assert (forall h, 0 <= h <= bit ->
    zcount (Z.testbit (Z.ldiff up (Z.shiftl 1 bit))) 0 h = zcount (Z.testbit up) 0 h) as Lo.
  { intros h Hh. apply zcount_ext. intros i Hi. rewrite Tl by lia. destruct (Z.eqb_spec i bit); [lia|].
    apply andb_true_r. }
  destruct (Z.eqb_spec g bit) as [->|Hne].
  { rewrite Z0. unfold gw. by rewrite Tl, Z.eqb_refl, andb_false_r by lia. }
  unfold gw. rewrite Tl by lia. destruct (Z.eqb_spec g bit); [done|].
  destruct (Z.testbit up g) eqn:Tg; [|done]. simpl.
  rewrite E by (apply index_lt_count; [lia|rewrite Tl by lia; zcase; [lia|by rewrite Tg]]).
  rewrite !bits.index_count in * by lia.
  destruct (Z.lt_ge_cases g bit).
  - rewrite Lo by lia. pose proof (zcount_strict _ 0 g bit g Tg ltac:(lia) ltac:(lia)).
    destruct (Z.ltb_spec (zcount (Z.testbit up) 0 g) (zcount (Z.testbit up) 0 bit)); [done|lia].
  - assert (zcount (Z.testbit up) 0 g = zcount (Z.testbit (Z.ldiff up (Z.shiftl 1 bit))) 0 g + 1) as ->.
    { replace g with (bit + (1 + (g - bit - 1))) by lia. rewrite !zcount_app by lia.
      rewrite (Lo bit) by lia.
      rewrite (zcount_ext (Z.testbit (Z.ldiff _ _)) (Z.testbit up) (0 + bit + 1)).
      - rewrite !zcount_one, Tl, Z.add_0_l, T, Z.eqb_refl by lia. simpl. lia.
      - intros i Hi. rewrite Tl by lia. destruct (Z.eqb_spec i bit); [lia|]. apply andb_true_r. }
    pose proof (zcount_mono (Z.testbit (Z.ldiff up (Z.shiftl 1 bit))) 0 bit g ltac:(lia)) as M.
    rewrite Lo in M by lia.
    destruct (Z.ltb_spec (zcount (Z.testbit (Z.ldiff up (Z.shiftl 1 bit))) 0 g)
      (zcount (Z.testbit up) 0 bit)); [lia|]. done.
Qed.

End Bitmap.

(** ** Membership after an update *)

Section Member.
Context (up : Z) (lo : Z -> Z) (up' : Z) (lo' : Z -> Z) (bit b : Z).
Context (Hbit : 0 <= bit < 8) (Hb : 0 <= b < 32) (G : groups_ok up lo).

Lemma key_eq k : 0 <= k <= 255 ->
  (k =? 32 * bit + b) = (k / 32 =? bit) && (k mod 32 =? b).
Proof.
  intros Hk. destruct (key_parts k Hk) as (? & ? & E).
  destruct (Z.eqb_spec (k / 32) bit), (Z.eqb_spec (k mod 32) b); simpl;
    destruct (Z.eqb_spec k (32 * bit + b)); lia || done.
Qed.

Lemma has_set none k :
  (forall g, 0 <= g < 8 -> gw up' lo' g =
    if g =? bit then Z.lor (gw up lo g) (Z.shiftl 1 b) else gw up lo g) ->
  0 <= k <= 255 -> has up' lo' none k = (k =? 32 * bit + b) || has up lo none k.
Proof.
  intros E Hk. rewrite key_eq by lia. destruct (key_parts k Hk) as (? & ? & _).
  unfold has. destruct (Z.eqb_spec k (-1)); [lia|]. rewrite E by lia.
  destruct (Z.eqb_spec (k / 32) bit); simpl; [|done].
  rewrite Z.lor_spec, testbit_shiftl1 by lia. apply orb_comm.
Qed.

Lemma has_clear none k :
  (forall g, 0 <= g < 8 -> gw up' lo' g =
    if g =? bit then Z.ldiff (gw up lo g) (Z.shiftl 1 b) else gw up lo g) ->
  0 <= k <= 255 -> has up' lo' none k = has up lo none k && negb (k =? 32 * bit + b).
Proof.
  intros E Hk. rewrite key_eq by lia. destruct (key_parts k Hk) as (? & ? & _).
  unfold has. destruct (Z.eqb_spec k (-1)); [lia|]. rewrite E by lia.
  destruct (Z.eqb_spec (k / 32) bit); simpl; [|by rewrite andb_true_r].
  by rewrite Z.ldiff_spec, testbit_shiftl1 by lia.
Qed.

Lemma groups_ok_set :
  up' = Z.lor up (Z.shiftl 1 bit) ->
  (forall g, 0 <= g < 8 -> gw up' lo' g =
    if g =? bit then Z.lor (gw up lo g) (Z.shiftl 1 b) else gw up lo g) ->
  groups_ok up' lo'.
Proof.
  intros -> E. destruct G as [R P]. assert (0 <= Z.lor up (Z.shiftl 1 bit)) as H0.
  { apply Z.lor_nonneg. split; [lia|]. apply Z.shiftl_nonneg. lia. }
  split.
  - split; [done|]. change 256 with (2 ^ 8). apply bits_bounded; [lia|done|].
    intros i Hi. rewrite Z.lor_spec, testbit_shiftl1, up_high by lia. zcase; lia || done.
  - intros g Hg T. assert (lo' (bits.index 32 (Z.lor up (Z.shiftl 1 bit)) g) =
      gw (Z.lor up (Z.shiftl 1 bit)) lo' g) as -> by (unfold gw; by rewrite T).
    rewrite E by lia. rewrite Z.lor_spec, testbit_shiftl1 in T by lia.
    pose proof (gw_range up lo g G Hg) as Rg.
    destruct (Z.eqb_spec g bit) as [->|].
    + assert (0 <= Z.lor (gw up lo bit) (Z.shiftl 1 b)) as H1.
      { apply Z.lor_nonneg. split; [lia|]. apply Z.shiftl_nonneg. lia. }
      split.
      * destruct (Z.eq_dec (Z.lor (gw up lo bit) (Z.shiftl 1 b)) 0) as [Z0|]; [|lia].
        assert (Z.testbit (Z.lor (gw up lo bit) (Z.shiftl 1 b)) b = true) as Tb.
        { by rewrite Z.lor_spec, testbit_shiftl1, Z.eqb_refl, orb_true_r by lia. }
        rewrite Z0, Z.bits_0 in Tb. done.
      * apply bits_bounded; [lia|done|]. intros i Hi.
        rewrite Z.lor_spec, testbit_shiftl1, (testbit_high 32) by lia. zcase; lia || done.
    + rewrite orb_false_r in T. unfold gw. rewrite T. by apply P.
Qed.

Lemma groups_ok_clear :
  0 <= up' < 256 ->
  (forall g, 0 <= g < 8 -> gw up' lo' g =
    if g =? bit then Z.ldiff (gw up lo g) (Z.shiftl 1 b) else gw up lo g) ->
  (forall g, 0 <= g < 8 -> Z.testbit up' g = true ->
    Z.testbit up g = true /\ (g = bit -> Z.ldiff (gw up lo g) (Z.shiftl 1 b) <> 0)) ->
  groups_ok up' lo'.
Proof.
  intros R' E N. destruct G as [R P]. split; [done|]. intros g Hg T.
  assert (lo' (bits.index 32 up' g) = gw up' lo' g) as -> by (unfold gw; by rewrite T).
  rewrite E by lia. destruct (N g Hg T) as [Tu Nz]. pose proof (gw_range up lo g G Hg) as Rg.
  destruct (Z.eqb_spec g bit).
  - assert (0 <= Z.ldiff (gw up lo g) (Z.shiftl 1 b)) by (apply Z.ldiff_nonneg; lia).
    specialize (Nz ltac:(done)). split; [lia|]. apply bits_bounded; [lia|done|].
    intros i Hi. rewrite Z.ldiff_spec, (testbit_high 32) by lia. done.
  - unfold gw. rewrite Tu. by apply P.
Qed.

End Member.

(** ** The layout *)

Section Placement.
Context (HASH_SIZE : Z) (HH : 0 <= HASH_SIZE <= 512).

(** Where a node with a given prefix length and number of groups puts its areas. *)
Definition placed (n : node) : Prop :=
  0 <= compressed_len n <= 255 /\ 0 <= upper n < 256 /\
  lower_offset n * 4 = util.padding (HEADER_SIZE HASH_SIZE + compressed_len n) 4 /\
  array_offset n * 8 = util.align (lower_offset n * 4 + bits.count 32 (upper n) * 4).

Lemma prefix_bounds len : 0 <= len <= 255 ->
  HEADER_SIZE HASH_SIZE + len <= util.padding (HEADER_SIZE HASH_SIZE + len) 4 <= 777 /\
  util.padding (HEADER_SIZE HASH_SIZE + len) 4 =
    4 * (util.padding (HEADER_SIZE HASH_SIZE + len) 4 / 4) /\
  0 <= util.padding (HEADER_SIZE HASH_SIZE + len) 4 / 4 <= 194.
Proof.
  intros. pose proof (util.padding_bounds (HEADER_SIZE HASH_SIZE + len) 4 ltac:(lia)).
  pose proof (util.padding_mod (HEADER_SIZE HASH_SIZE + len) 4 ltac:(lia)).
  set (p := util.padding _ _) in *. pose proof (Z.div_mod p 4 ltac:(lia)).
  unfold HEADER_SIZE in *. lia.
Qed.

(** The two offset fields a constructor writes. *)
Lemma new_lower_offset len : 0 <= len <= 255 ->
  let p := util.padding (HEADER_SIZE HASH_SIZE + len) 4 in
  u16 p = p /\ u8 (p / 4) = p / 4 /\ p / 4 * 4 = p.
Proof.
  intros Hl p. destruct (prefix_bounds len Hl) as (B & E & R). fold p in B, E, R.
  unfold HEADER_SIZE in B.
  split_and!; [apply wrap_small; change (2 ^ 16) with 65536; lia| |lia].
  apply wrap_small. change (2 ^ 8) with 256. lia.
Qed.

Lemma align_bounds s : 0 <= s <= 60000 ->
  s <= util.align s < s + 8 /\ util.align s = 8 * (util.align s / 8).
Proof.
  intros. rewrite util.align_padding by (change (2 ^ 32) with 4294967296; lia).
  pose proof (util.padding_bounds s 8 ltac:(lia)). pose proof (util.padding_mod s 8 ltac:(lia)).
  pose proof (Z.div_mod (util.padding s 8) 8 ltac:(lia)). lia.
Qed.

Lemma new_array_offset l c : 0 <= l <= 194 -> 0 <= c <= 8 ->
  let a := util.align (l * 4 + c * 4) in
  u16 a = a /\ u8 (a / 8) = a / 8 /\ a / 8 * 8 = a /\ l + c <= 2 * (a / 8) <= l + c + 1.
Proof.
  intros Hl Hc a. destruct (align_bounds (l * 4 + c * 4) ltac:(lia)) as [B E]. fold a in B, E.
  split_and!; [apply wrap_small; change (2 ^ 16) with 65536; lia| |lia..].
  apply wrap_small. change (2 ^ 8) with 256. lia.
Qed.

Section Placed.
Context (n : node) (P : placed n).

Lemma lower_offset_range : 0 <= lower_offset n <= 194.
Proof.
  destruct P as (Hl & Hu & E & _). destruct (prefix_bounds (compressed_len n) Hl). lia.
Qed.

Lemma array_gap :
  0 <= array_offset n <= 102 /\
  lower_offset n + bits.count 32 (upper n) <= 2 * array_offset n <=
  lower_offset n + bits.count 32 (upper n) + 1.
Proof.
  destruct P as (Hl & Hu & _ & E). pose proof (bcount_range _ Hu). pose proof lower_offset_range.
  destruct (new_array_offset (lower_offset n) (bits.count 32 (upper n))) as (_ & _ & E2 & B);
    [lia..|]. rewrite <- E in B, E2. rewrite Z.div_mul in B by lia. lia.
Qed.

Lemma lower_start_placed : lower_start n = lower_offset n * 4.
Proof. pose proof lower_offset_range. apply wrap_small. change (2 ^ 16) with 65536. lia. Qed.

Lemma array_start_placed : array_start n = array_offset n * 8.
Proof. pose proof array_gap. apply wrap_small. change (2 ^ 16) with 65536. lia. Qed.

Lemma lower_words i : lower n i = words n (lower_offset n + i).
Proof. unfold lower. by rewrite lower_start_placed, Z.div_mul by lia. Qed.

Lemma array_word : array_start n / 4 = 2 * array_offset n.
Proof. rewrite array_start_placed. replace (array_offset n * 8) with (2 * array_offset n * 4) by lia.
  by rewrite Z.div_mul by lia. Qed.

Lemma slot_words i : slot n i = load64 (words n) (2 * array_offset n + 2 * i).
Proof. unfold slot. by rewrite array_word. Qed.

Lemma lower_size_placed : lower_size n = bits.count 32 (upper n) * 4.
Proof.
  destruct P as (_ & Hu & _). pose proof (bcount_range _ Hu). apply wrap_small.
  change (2 ^ 16) with 65536. lia.
Qed.

Lemma size_placed : 0 <= count n <= 257 -> size n = array_offset n * 8 + count n * 8.
Proof.
  intros. pose proof array_gap. unfold size, array_end, array_size.
  rewrite array_start_placed, (wrap_small 16 (count n * 8)) by (change (2 ^ 16) with 65536; lia).
  apply wrap_small. change (2 ^ 16) with 65536. lia.
Qed.

(** The announced size: prefix, groups and links, each area aligned. *)
Lemma size_sum c :
  0 <= c <= 257 ->
  u16 (util.align (util.padding (HEADER_SIZE HASH_SIZE + compressed_len n) 4 +
    bits.count 32 (upper n) * 4 + c * 8)) = array_offset n * 8 + c * 8.
Proof.
  intros. destruct P as (Hl & Hu & El & Ea). pose proof (bcount_range _ Hu).
  pose proof lower_offset_range. rewrite <- El, Ea.
  rewrite !util.align_padding by (change (2 ^ 32) with 4294967296; lia).
  unfold util.padding. replace (lower_offset n * 4 + bits.count 32 (upper n) * 4 + c * 8 + 8 - 1)
    with (lower_offset n * 4 + bits.count 32 (upper n) * 4 + 8 - 1 + c * 8) by lia.
  set (x := lower_offset n * 4 + bits.count 32 (upper n) * 4 + 8 - 1) in *.
  pose proof (Z.div_mod x 8 ltac:(lia)). pose proof (Z.mod_pos_bound x 8 ltac:(lia)).
  rewrite Z.div_add by lia. rewrite wrap_small; [lia|]. change (2 ^ 16) with 65536. lia.
Qed.

End Placed.

Lemma wf_placed n : wf HASH_SIZE n -> placed n.
Proof. intros W. split_and!; try apply W. Qed.

(** ** The relation between a node and its copy with one branch more or less *)

(** [inserted src n i key]: [n] is [src] with a branch for [key] whose link is
    the slot [i]; all the other links are kept. *)
Record inserted (src n : node) (key i : Z) : Prop := {
  ins_wf : wf HASH_SIZE n;
  ins_prefix : compressed n = compressed src;
  ins_isset : forall k, -1 <= k <= 255 -> isset n k = (k =? key) || isset src k;
  ins_index : array_index n key = i;
  ins_link : forall k, -1 <= k <= 255 -> k <> key -> link n k = link src k;
  ins_size : size n = increment_size HASH_SIZE src key
}.

(** [removed src n key]: [n] is [src] without the branch for [key]. *)
Record removed (src n : node) (key : Z) : Prop := {
  rem_wf : wf HASH_SIZE n;
  rem_prefix : compressed n = compressed src;
  rem_isset : forall k, -1 <= k <= 255 -> isset n k = isset src k && negb (k =? key);
  rem_link : forall k, -1 <= k <= 255 -> k <> key -> link n k = link src k;
  rem_size : size n = decrement_size HASH_SIZE src key
}.

Lemma gw_ext up lo lo' :
  (forall i, 0 <= i < bits.count 32 up -> lo i = lo' i) ->
  forall g, 0 <= g < 8 -> gw up lo g = gw up lo' g.
Proof.
  intros E g Hg. unfold gw. destruct (Z.testbit up g) eqn:T; [|done].
  apply E, index_lt_count; [lia|done].
Qed.

Lemma has_ext up lo lo' none k :
  (forall i, 0 <= i < bits.count 32 up -> lo i = lo' i) -> -1 <= k <= 255 ->
  has up lo none k = has up lo' none k.
Proof.
  intros E Hk. unfold has. destruct (Z.eqb_spec k (-1)); [done|].
  destruct (key_parts k ltac:(lia)) as (? & _). by rewrite (gw_ext _ _ _ E) by lia.
Qed.

Lemma groups_ok_ext up lo lo' :
  (forall i, 0 <= i < bits.count 32 up -> lo i = lo' i) -> groups_ok up lo -> groups_ok up lo'.
Proof.
  intros E [R P]. split; [done|]. intros g Hg T. rewrite <- E; [by apply P|].
  apply index_lt_count; [lia|done].
Qed.

(** The two fields of [_array_len]. *)
Lemma array_len_make c (none : bool) :
  0 <= c < 2 ^ 15 ->
  let x := c + (if none then 2 ^ 15 else 0) in
  0 <= x < 2 ^ 16 /\ Z.land x (Z.lnot NULL_MASK) = c /\ negb (Z.land x NULL_MASK =? 0) = none.
Proof.
  intros Hc x. change (2 ^ 15) with 32768 in *. change (2 ^ 16) with 65536.
  assert (0 <= x < 65536) as Hx by (unfold x; destruct none; lia).
  split; [done|]. destruct (null_split x Hx) as (E1 & E2 & E3).
  change (2 ^ 15) with 32768 in *. rewrite E1, E2. pose proof (Z.mod_pos_bound x 32768).
  unfold x in *. destruct none.
  - destruct (Z.leb_spec 32768 (c + 32768)); [|lia]. split; [lia|done].
  - destruct (Z.leb_spec 32768 (c + 0)); [lia|]. split; [lia|done].
Qed.

Lemma set_null_flag c : 0 <= c < 2 ^ 15 -> Z.lor c NULL_MASK = c + 2 ^ 15.
Proof.
  intros. change NULL_MASK with (2 ^ 15). rewrite <- Z.add_nocarry_lor; [done|].
  apply Z.bits_inj'. intros i Hi. rewrite Z.land_spec, Z.bits_0.
  destruct (Z.lt_ge_cases i 15).
  - rewrite Z.pow2_bits_false by lia. apply andb_false_r.
  - by rewrite (testbit_high 15) by lia.
Qed.

(** Ranks move by one past the updated key. *)
Lemma rank_insert p q key k :
  -1 <= key <= 255 -> -1 <= k <= 256 -> p key = false ->
  (forall j, -1 <= j <= 255 -> q j = (j =? key) || p j) ->
  zcount q (-1) (k + 1) = zcount p (-1) (k + 1) + (if key <? k then 1 else 0).
Proof.
  intros Hkey Hk Hp E. destruct (Z.ltb_spec key k).
  - apply (zcount_insert _ _ _ _ key); [lia|done|]. intros i Hi. apply E. lia.
  - rewrite Z.add_0_r. apply zcount_ext. intros i Hi. rewrite E by lia.
    destruct (Z.eqb_spec i key); [lia|done].
Qed.

Lemma link_index n k : groups_ok (upper n) (lower n) -> -1 <= k <= 255 ->
  link n k = if isset n k then Some (slot n (zcount (isset n) (-1) (k + 1))) else None.
Proof.
  intros G Hk. unfold link, offset. rewrite array_index_rank by done.
  destruct (isset n k); [|done].
  pose proof (zcount_nonneg (isset n) (-1) (k + 1)). zcase; [done|lia].
Qed.

Lemma count_lor up bit : 0 <= bit < 8 ->
  bits.count 32 (Z.lor up (Z.shiftl 1 bit)) =
  bits.count 32 up + (if Z.testbit up bit then 0 else 1).
Proof.
  intros Hb. unfold bits.count, bits.popcount. destruct (Z.testbit up bit) eqn:T.
  - rewrite Z.add_0_r. apply zcount_ext. intros i Hi. rewrite Z.lor_spec, testbit_shiftl1 by lia.
    destruct (Z.eqb_spec i bit) as [->|]; [by rewrite T|apply orb_false_r].
  - apply (zcount_insert _ _ _ _ bit); [lia|done|]. intros i Hi.
    rewrite Z.lor_spec, testbit_shiftl1 by lia. apply orb_comm.
Qed.

Lemma wf_size n : wf HASH_SIZE n -> size n = array_offset n * 8 + count n * 8.
Proof. intros W. apply size_placed; [by apply wf_placed|by apply (count_range HASH_SIZE)]. Qed.

Lemma inserted_intro src n key i :
  wf HASH_SIZE src -> -1 <= key <= 255 -> isset src key = false ->
  placed n -> groups_ok (upper n) (lower n) -> 0 <= array_len n < 2 ^ 16 ->
  compressed n = compressed src -> compressed_len n = compressed_len src ->
  count n = count src + 1 ->
  (key <> -1 -> upper n = Z.lor (upper src) (Z.shiftl 1 (key / 32))) ->
  (key = -1 -> upper n = upper src) ->
  (forall k, -1 <= k <= 255 -> isset n k = (k =? key) || isset src k) ->
  i = zcount (isset src) (-1) (key + 1) ->
  (forall j, 0 <= j < i -> slot n j = slot src j) ->
  (forall j, i <= j < count src -> slot n (j + 1) = slot src j) ->
  inserted src n key i.
Proof.
  intros W Hk Hn P G Hl Ec Ecl Ect Eu Eun Ei Hi Slo Shi.
  pose proof (count_range HASH_SIZE src W) as CR. pose proof (wf_count _ _ W) as WC.
  assert (zcount (isset n) (-1) 257 = count src + 1) as Ec'.
  { rewrite WC. apply (zcount_insert _ _ _ _ key); [lia|done|]. intros; apply Ei; lia. }
  assert (wf HASH_SIZE n) as Wn.
  { destruct P as (P1 & P2 & P3 & P4). split; try done.
    - split; [done|]. rewrite Ec, Ecl. apply W.
    - congruence. }
  assert (isset n key = true) as Hnk by (by rewrite Ei, Z.eqb_refl by lia).
  split; try done.
  - rewrite array_index_rank, Hnk by done. rewrite (rank_insert (isset src) _ key) by done || lia.
    rewrite Z.ltb_irrefl. lia.
  - intros k Hkr Hne. rewrite !link_index by (done || apply W). rewrite Ei by done.
    destruct (Z.eqb_spec k key); [done|]. simpl. destruct (isset src k) eqn:Sk; [|done]. f_equal.
    rewrite (rank_insert (isset src) _ key) by done || lia.
    pose proof (zcount_nonneg (isset src) (-1) (k + 1)) as N0. destruct (Z.ltb_spec key k).
    + apply Shi. rewrite Hi, WC. split.
      * apply zcount_mono. lia.
      * apply (zcount_strict _ _ _ _ k); [done|lia..].
    + rewrite Z.add_0_r. apply Slo. rewrite Hi. split; [done|].
      apply (zcount_strict _ _ _ _ k); [done|lia..].
  - rewrite (wf_size n Wn), <- (size_sum n P) by (rewrite Ect; pose proof (count_range _ n Wn); lia).
    unfold increment_size, prefix_size. rewrite Ecl, Ect.
    pose proof (wf_placed src W) as Ps. rewrite (lower_size_placed src Ps).
    assert (forall z, 0 <= z <= 777 -> u16 z = z) as W16
      by (intros; apply wrap_small; change (2 ^ 16) with 65536; lia).
    destruct (prefix_bounds (compressed_len src)) as (PB & _); [apply W|].
    rewrite (W16 (util.padding _ _)) by (unfold HEADER_SIZE in *; destruct (wf_len _ _ W); lia).
    rewrite (wrap_small 16 ((count src + 1) * 8)) by (change (2 ^ 16) with 65536; lia).
    pose proof (bcount_range (upper src) ltac:(apply W)). unfold NONE.
    destruct (Z.eqb_spec key (-1)) as [->|]; simpl; [by rewrite Eun by done|].
    destruct (key_parts key ltac:(lia)) as (? & _).
    rewrite Eu, count_lor, ubit_div, upper_isset_testbit by (lia || rewrite ?ubit_div; lia).
    destruct (Z.testbit (upper src) (key / 32)); simpl; [by rewrite Z.add_0_r|].
    rewrite (W16 (_ * 4 + 4)) by lia. do 2 f_equal. lia.
Qed.

(** ** Copy with one more branch *)

Lemma lor_u8 up bit : 0 <= up < 256 -> 0 <= bit < 8 ->
  u8 (Z.lor up (Z.shiftl 1 bit)) = Z.lor up (Z.shiftl 1 bit) /\
  0 <= Z.lor up (Z.shiftl 1 bit) < 256.
Proof.
  intros Hu Hb. assert (0 <= Z.lor up (Z.shiftl 1 bit)) as H0.
  { apply Z.lor_nonneg. split; [lia|]. apply Z.shiftl_nonneg. lia. }
  assert (Z.lor up (Z.shiftl 1 bit) < 2 ^ 8) as H1.
  { apply bits_bounded; [lia|done|]. intros i Hi.
    rewrite Z.lor_spec, testbit_shiftl1, up_high by lia. zcase; lia || done. }
  split; [by apply wrap_small|]. change 256 with (2 ^ 8). lia.
Qed.

Lemma insert_groups_spec n src key :
  wf HASH_SIZE src -> -1 <= key <= 255 -> isset src key = false ->
  let '(up, alen, m, oidx) := insert_groups n src key (lower_offset src) in
  let lo := fun i => m (lower_offset src + i) in
  groups_ok up lo /\ 0 <= alen < 2 ^ 16 /\ Z.land alen (Z.lnot NULL_MASK) = count src + 1 /\
  (key <> -1 -> up = Z.lor (upper src) (Z.shiftl 1 (key / 32))) /\
  (key = -1 -> up = upper src) /\
  (forall k, -1 <= k <= 255 ->
     has up lo (negb (Z.land alen NULL_MASK =? 0)) k = (k =? key) || isset src k) /\
  oidx = zcount (isset src) (-1) (key + 1).
Proof.
  intros W Hk Hn. pose proof (wf_placed src W) as P. pose proof (count_range _ src W) as CR.
  pose proof (wf_groups _ _ W) as G. pose proof (bcount_range (upper src) ltac:(apply W)) as BC.
  pose proof (array_len_split src (wf_array_len _ _ W)) as AL.
  unfold insert_groups, NONE. rewrite (lower_start_placed src P), Z.div_mul by lia.
  assert (u16 (array_len src + 1) = array_len src + 1) as ->.
  { apply wrap_small. change (2 ^ 16) with 65536. change (2 ^ 15) with 32768 in *.
    destruct (has_none src); lia. }
  destruct (array_len_make (count src + 1) (has_none src)) as (A1 & A2 & A3);
    [change (2 ^ 15) with 32768; lia|].
  destruct (Z.eqb_spec key (-1)) as [->|Hne]; simpl negb; cbv iota.
  - assert (has_none src = false) as N by (by unfold isset in Hn). rewrite N in *.
    destruct (array_len_make (count src + 1) true) as (B1 & B2 & B3);
      [change (2 ^ 15) with 32768; lia|].
    rewrite AL, Z.add_0_r, set_null_flag, wrap_small by (done || change (2 ^ 15) with 32768; lia).
    assert (forall i, 0 <= i < bits.count 32 (upper src) -> lower src i =
      memcpy (words n) (lower_offset src) (words src) (lower_offset src)
        (bits.count 32 (upper src)) (lower_offset src + i)) as E.
    { intros i Hi. rewrite (lower_words src P). mem. }
    split_and!; try (done || lia).
    + by apply (groups_ok_ext _ (lower src)).
    + intros k Hkr. rewrite B3, <- (has_ext _ (lower src)), isset_has by done.
      unfold has. destruct (Z.eqb_spec k (-1)); [done|]. done.
  - assert (0 <= key <= 255) as Hk' by lia. destruct (key_parts key Hk') as (Hg & Hb & Ek).
    rewrite ubit_div, lbit_mod, upper_isset_testbit, shiftl1_u32 by (lia || rewrite ?ubit_div; lia).
    destruct (lor_u8 (upper src) (key / 32)) as [-> Hup']; [apply G|lia|].
    set (bit := key / 32) in *. set (b := key mod 32) in *.
    set (up' := Z.lor (upper src) (Z.shiftl 1 bit)) in *.
    match goal with |- context [branch_rank (fun i => ?f (_ + i)) _ _ _] => set (m := f) end.
    set (lo' := fun i => m (lower_offset src + i)).
    assert (forall g, 0 <= g < 8 -> gw up' lo' g =
      if g =? bit then Z.lor (gw (upper src) (lower src) g) (Z.shiftl 1 b)
      else gw (upper src) (lower src) g) as GW.
    { destruct (Z.testbit (upper src) bit) eqn:T.
      - assert (up' = upper src) as Eu.
        { apply Z.bits_inj'. intros i Hi. unfold up'. rewrite Z.lor_spec, testbit_shiftl1 by lia.
          destruct (Z.eqb_spec i bit) as [->|]; [by rewrite T|apply orb_false_r]. }
        pose proof (index_lt_count (upper src) bit ltac:(lia) T).
        intros g Hg8. rewrite Eu. apply gw_set_present; try done. intros i Hi.
        unfold lo', m. rewrite !(lower_words src P), Eu. mem.
      - intros g Hg8. apply gw_set_absent; try done. intros i Hi.
        pose proof (count_lor (upper src) bit Hg) as Ec. rewrite T in Ec. fold up' in Ec.
        assert (bits.index 32 up' bit = bits.index 32 (upper src) bit) as Ei.
        { rewrite !bits.index_count by lia. apply zcount_ext. intros j Hj. unfold up'.
          rewrite Z.lor_spec, testbit_shiftl1 by lia.
          destruct (Z.eqb_spec j bit); [lia|apply orb_false_r]. }
        pose proof (index_lt_count up' bit ltac:(lia)) as Il.
        assert (0 <= bits.index 32 up' bit < bits.count 32 up') as Ir.
        { apply Il. unfold up'. by rewrite Z.lor_spec, testbit_shiftl1, Z.eqb_refl, orb_true_r by lia. }
        unfold lo', m. rewrite !(lower_words src P). rewrite Ei in *. mem. }
    assert (groups_ok up' lo') as G' by (by apply (groups_ok_set (upper src) (lower src) _ _ bit b)).
    assert (forall k, -1 <= k <= 255 -> has up' lo' (has_none src) k = (k =? key) || isset src k) as Hs.
    { intros k Hkr. rewrite isset_has by done. destruct (Z.eqb_spec k (-1)) as [->|].
      - unfold has. rewrite Z.eqb_refl. destruct (Z.eqb_spec (-1) key); [lia|done].
      - rewrite Ek. apply has_set; (done || lia). }
    replace (array_len src + 1) with (count src + 1 + (if has_none src then 2 ^ 15 else 0)) in * by lia.
    split_and!; try (done || lia).
    + intros k Hkr. rewrite A3. by apply Hs.
    + change bit with (key / 32). rewrite <- (ubit_div key) by lia.
      rewrite (branch_rank_spec up' lo' (has_none src)); try done.
      * rewrite (rank_insert (isset src) _ key) by done || lia. rewrite Z.ltb_irrefl. lia.
      * unfold up'. fold bit. by rewrite Z.lor_spec, testbit_shiftl1, Z.eqb_refl, orb_true_r by lia.
Qed.

Lemma src_lower_start src : wf HASH_SIZE src ->
  u16 (util.padding (HEADER_SIZE HASH_SIZE + compressed_len src) 4) / 4 = lower_offset src /\
  u8 (lower_offset src) = lower_offset src /\ 0 <= lower_offset src <= 194 /\
  take (Z.to_nat (compressed_len src)) (compressed src) = compressed src.
Proof.
  intros W. destruct (wf_len _ _ W) as [Hl El].
  destruct (new_lower_offset (compressed_len src) Hl) as (-> & _ & _).
  rewrite <- (wf_lower_offset _ _ W), Z.div_mul by lia.
  pose proof (lower_offset_range src (wf_placed src W)). split_and!; try lia.
  - apply wrap_small. change (2 ^ 8) with 256. lia.
  - apply take_ge. lia.
Qed.

(** The array offset a constructor computes for [up] groups at [l]. *)
Lemma new_array l up alen clen aoff c m :
  0 <= l <= 194 -> 0 <= up < 256 ->
  let s := calc_array_start (Node alen up clen l aoff c m) in
  s / 4 = 2 * (s / 8) /\ u8 (s / 8) = s / 8 /\
  s / 8 * 8 = util.align (l * 4 + bits.count 32 up * 4) /\
  l + bits.count 32 up <= 2 * (s / 8).
Proof.
  intros Hl Hu s. pose proof (bcount_range up Hu).
  destruct (new_array_offset l (bits.count 32 up) Hl ltac:(done)) as (A1 & A2 & A3 & A4).
  assert (s = util.align (l * 4 + bits.count 32 up * 4)) as ->.
  { unfold s, calc_array_start, lower_start. simpl. rewrite (wrap_small 16 (l * 4)); [done|].
    change (2 ^ 16) with 65536. lia. }
  split_and!; try done; [|lia].
  rewrite <- A3 at 1. replace (_ / 8 * 8) with (2 * (util.align (l * 4 + bits.count 32 up * 4) / 8) * 4) by lia.
  by rewrite Z.div_mul by lia.
Qed.

Lemma create_insert_inserted n src key :
  wf HASH_SIZE src -> -1 <= key <= 255 -> isset src key = false ->
  let '(r, i) := create_insert HASH_SIZE n src key in inserted src r key i.
Proof.
  intros W Hk Hn. pose proof (wf_placed src W) as P. pose proof (count_range _ src W) as CR.
  pose proof (insert_groups_spec n src key W Hk Hn) as S. unfold create_insert.
  destruct (src_lower_start src W) as (-> & -> & Lr & ->).
  destruct (insert_groups n src key (lower_offset src)) as [[[up alen] m] oidx].
  destruct S as (G & Al & Ac & U1 & U2 & Hs & Oi).
  pose proof (bcount_range up ltac:(apply G)) as BC.
  destruct (new_array (lower_offset src) up alen (compressed_len src) (array_offset n)
    (compressed src) m Lr ltac:(apply G)) as (N1 & N2 & N3 & N4).
  rewrite N1, N2, (array_word src P).
  assert (count (Node alen up (compressed_len src) (lower_offset src) (array_offset n)
    (compressed src) m) = count src + 1) as -> by done. simpl compressed. simpl compressed_len.
  set (ao := _ / 8) in *. cbn [words].
  assert (0 <= oidx <= count src) as Or.
  { rewrite Oi, (wf_count _ _ W). split; [apply zcount_nonneg|apply zcount_mono; lia]. }
  set (mm := memcpy (memcpy _ _ _ _ _) _ _ _ _).
  set (r := Node alen up (compressed_len src) (lower_offset src) ao (compressed src) mm).
  assert (placed r) as Pr by (split_and!; [apply W|apply W|apply G|apply G|apply P|exact N3]).
  assert (forall i, 0 <= i < bits.count 32 up -> m (lower_offset src + i) = lower r i) as El.
  { intros i Hi. rewrite (lower_words r Pr). unfold r, mm. cbn [words lower_offset]. mem. }
  pose proof (groups_ok_ext _ _ _ El G) as Gr.
  apply inserted_intro; try done.
  - intros k Hkr. rewrite isset_has, <- Hs by done. symmetry. by apply has_ext.
  - intros j Hj. rewrite (slot_words r Pr), (slot_words src P). unfold r, mm.
    cbn [words array_offset]. mem.
  - intros j Hj. rewrite (slot_words r Pr), (slot_words src P). unfold r, mm.
    cbn [words array_offset]. mem.
Qed.

(** ** The in-place insertion *)

Lemma fold_sum {A} (f : A -> Z) l a : fold_left (fun acc i => acc + f i) l a = a + foldr (fun i acc => f i + acc) 0 l.
Proof.
  revert a. induction l as [|x l IH]; intros a; simpl; [lia|]. rewrite IH. lia.
Qed.

(** The rank of a key whose group is absent. *)
Lemma rank_absent up lo none k :
  0 <= k <= 255 -> Z.testbit up (k / 32) = false ->
  zcount (has up lo none) (-1) (k + 1) =
  (if none then 1 else 0) + zsum (fun i => bits.count 32 (lo i)) (zcount (Z.testbit up) 0 (k / 32)).
Proof.
  intros Hk T. destruct (key_parts k Hk) as (Hg & Hb & E).
  replace (k + 1) with (1 + (32 * (k / 32) + k mod 32)) by lia.
  rewrite !zcount_app by lia. change (-1 + 1) with 0. rewrite zcount_one.
  rewrite (zcount_groups _ (gw up lo)) by (lia || (intros; apply has_group; lia)).
  rewrite zsum_compress by lia. rewrite (proj2 (zcount_zero (has up lo none) (0 + 32 * (k / 32)) (k mod 32) ltac:(lia))).
  - unfold has. rewrite Z.eqb_refl. lia.
  - intros i Hi. replace i with (32 * (k / 32) + (i - 32 * (k / 32))) by lia.
    rewrite has_group by lia. unfold gw. by rewrite T, Z.bits_0.
Qed.

(** What remains to show of an in-place update once its memory is known. *)
Lemma inserted_in_place src r key oidx alen up ao mm :
  wf HASH_SIZE src -> 0 <= key <= 255 -> isset src key = false ->
  r = Node alen up (compressed_len src) (lower_offset src) ao (compressed src) mm ->
  alen = array_len src + 1 -> up = Z.lor (upper src) (Z.shiftl 1 (key / 32)) ->
  ao * 8 = util.align (lower_offset src * 4 + bits.count 32 up * 4) ->
  oidx = zcount (isset src) (-1) (key + 1) ->
  (forall g, 0 <= g < 8 -> gw up (lower r) g =
    if g =? key / 32 then Z.lor (gw (upper src) (lower src) g) (Z.shiftl 1 (key mod 32))
    else gw (upper src) (lower src) g) ->
  (forall j, 0 <= j < oidx -> slot r j = slot src j) ->
  (forall j, oidx <= j < count src -> slot r (j + 1) = slot src j) ->
  inserted src r key oidx.
Proof.
  intros W Hk Hn Er -> Eu Ea Oi GW Slo Shi. pose proof (wf_placed src W) as P.
  destruct (key_parts key Hk) as (Hg & Hb & Ek). pose proof (wf_groups _ _ W) as G.
  destruct (lor_u8 (upper src) (key / 32) ltac:(apply G) Hg) as [_ Hu]. rewrite <- Eu in Hu.
  pose proof (array_len_split src (wf_array_len _ _ W)) as AL.
  pose proof (count_range _ src W) as CR.
  destruct (array_len_make (count src + 1) (has_none src)) as (A1 & A2 & A3);
    [change (2 ^ 15) with 32768; lia|].
  replace (count src + 1 + (if has_none src then 2 ^ 15 else 0)) with (array_len src + 1) in * by lia.
  assert (has_none r = has_none src) as En by (by rewrite Er).
  assert (upper r = up) as Eur by (by rewrite Er).
  apply inserted_intro; try done; try (by rewrite ?Er); try lia.
  - split_and!; rewrite ?Er; cbn; try lia; try apply W; exact Ea.
  - rewrite Eur. by apply (groups_ok_set (upper src) (lower src) _ _ (key / 32) (key mod 32)).
  - intros k Hkr. rewrite !isset_has, En, Eur by done. destruct (Z.eqb_spec k (-1)) as [->|].
    + unfold has. rewrite Z.eqb_refl. destruct (Z.eqb_spec (-1) key); [lia|done].
    + rewrite Ek. apply has_set; done || lia.
Qed.

Lemma insert_branch_inserted src key :
  wf HASH_SIZE src -> -1 <= key <= 255 -> isset src key = false ->
  let '(r, i) := insert_branch src key in inserted src r key i.
Proof.
  intros W Hk Hn. pose proof (wf_placed src W) as P. pose proof (count_range _ src W) as CR.
  pose proof (wf_groups _ _ W) as G. pose proof (bcount_range (upper src) ltac:(apply W)) as BC.
  pose proof (array_len_split src (wf_array_len _ _ W)) as AL.
  destruct (array_gap src P) as [AR AG]. pose proof (lower_offset_range src P) as LR.
  pose proof (wf_array_len _ _ W) as WA. assert (array_len src + 1 < 2 ^ 16) as A16.
  { change (2 ^ 15) with 32768 in *. change (2 ^ 16) with 65536. destruct (has_none src); lia. }
  assert (u16 (count src) = count src) as Ec.
  { apply wrap_small. change (2 ^ 16) with 65536. lia. }
  unfold insert_branch, NONE. rewrite Ec, (array_word src P), (lower_start_placed src P), Z.div_mul by lia.
  destruct (Z.eqb_spec key (-1)) as [->|Hne].
  { assert (has_none src = false) as N by (by unfold isset in Hn). rewrite N in *.
    destruct (array_len_make (count src + 1) true) as (B1 & B2 & B3);
      [change (2 ^ 15) with 32768; lia|].
    rewrite AL, Z.add_0_r, set_null_flag, wrap_small by (done || change (2 ^ 15) with 32768; lia).
    set (r := Node _ _ _ _ _ _ _). assert (placed r) as Pr by done.
    assert (forall i, 0 <= i < bits.count 32 (upper src) -> lower src i = lower r i) as El.
    { intros i Hi. rewrite (lower_words r Pr), (lower_words src P). unfold r. cbn [words lower_offset]. mem. }
    apply inserted_intro; try done.
    - by apply (groups_ok_ext _ (lower src)).
    - intros k Hkr. rewrite !isset_has by done. change (upper r) with (upper src).
      rewrite <- (has_ext _ (lower src)) by done. unfold has.
      destruct (Z.eqb_spec k (-1)); [apply B3|done].
    - lia.
    - intros j Hj. rewrite (slot_words r Pr), (slot_words src P). unfold r. cbn [words array_offset]. mem. }
  assert (0 <= key <= 255) as Hk' by lia. destruct (key_parts key Hk') as (Hg & Hb & Ek).
  rewrite ubit_div, lbit_mod, upper_isset_testbit, shiftl1_u32 by (lia || rewrite ?ubit_div; lia).
  rewrite (wrap_small 16 (array_len src + 1)) by lia.
  destruct (lor_u8 (upper src) (key / 32)) as [-> Hup']; [apply G|lia|].
  set (bit := key / 32) in *. set (b := key mod 32) in *.
  destruct (Z.testbit (upper src) bit) eqn:T.
  - assert (Z.lor (upper src) (Z.shiftl 1 bit) = upper src) as Eu.
    { apply Z.bits_inj'. intros i Hi. rewrite Z.lor_spec, testbit_shiftl1 by lia.
      destruct (Z.eqb_spec i bit) as [->|]; [by rewrite T|apply orb_false_r]. }
    pose proof (index_lt_count (upper src) bit ltac:(lia) T) as Ir.
    assert (branch_rank (lower src) (bits.index 32 (upper src) bit) key (array_len src) =
      zcount (isset src) (-1) (key + 1)) as ->.
    { unfold bit. rewrite <- (ubit_div key) by lia.
      rewrite (branch_rank_spec (upper src) (lower src) (has_none src)); try done; [|apply G].
      symmetry. apply isset_count_ext; lia. }
    assert (0 <= zcount (isset src) (-1) (key + 1) <= count src) as Or.
    { rewrite (wf_count _ _ W). split; [apply zcount_nonneg|apply zcount_mono; lia]. }
    set (oidx := zcount (isset src) (-1) (key + 1)) in *. set (r := Node _ _ _ _ _ _ _).
    assert (placed r) as Pr by done.
    eapply inserted_in_place; try done.
    + change (upper src) with (upper r) at 1. apply P.
    + intros g Hg8. fold bit b. apply gw_set_present; try done. intros i Hi.
      rewrite (lower_words r Pr). unfold r. cbn [words lower_offset].
      rewrite !(lower_words src P). mem.
    + intros j Hj. rewrite (slot_words r Pr), (slot_words src P). unfold r. cbn [words array_offset]. mem.
    + intros j Hj. rewrite (slot_words r Pr), (slot_words src P). unfold r. cbn [words array_offset]. mem.
  - pose proof (count_lor (upper src) bit Hg) as Ecl. rewrite T in Ecl.
    set (up' := Z.lor (upper src) (Z.shiftl 1 bit)) in *.
    assert (bits.index 32 up' bit = bits.index 32 (upper src) bit) as Ei.
    { rewrite !bits.index_count by lia. apply zcount_ext. intros j Hj. unfold up'.
      rewrite Z.lor_spec, testbit_shiftl1 by lia.
      destruct (Z.eqb_spec j bit); [lia|apply orb_false_r]. }
    assert (0 <= bits.index 32 up' bit < bits.count 32 up') as Ir.
    { apply index_lt_count; [lia|]. unfold up'.
      by rewrite Z.lor_spec, testbit_shiftl1, Z.eqb_refl, orb_true_r by lia. }
    rewrite Ei in *.
    assert (fold_left (fun acc i => acc + bits.count 32 (lower src i))
      (seqZ 0 (bits.index 32 (upper src) bit)) (if has_none src then 1 else 0) =
      zcount (isset src) (-1) (key + 1)) as ->.
    { rewrite fold_sum. rewrite (isset_count_ext src) by lia. rewrite rank_absent by done.
      unfold zsum. fold bit. by rewrite bits.index_count by lia. }
    pose proof (bcount_range up' Hup') as BC'.
    assert (0 <= zcount (isset src) (-1) (key + 1) <= count src) as Or.
    { rewrite (wf_count _ _ W). split; [apply zcount_nonneg|apply zcount_mono; lia]. }
    set (oidx := zcount (isset src) (-1) (key + 1)) in *.
    set (lidx := bits.index 32 (upper src) bit) in *.
    destruct (new_array_offset (lower_offset src) (bits.count 32 (upper src))) as (O1 & _); [lia..|].
    destruct (new_array_offset (lower_offset src) (bits.count 32 (upper src) + 1))
      as (N1 & N2 & N3 & N4); [lia..|].
    rewrite O1, N1, N2. destruct P as (P1 & P2 & P3 & P4). rewrite <- P4.
    assert (placed src) as P by done.
    set (na := util.align (lower_offset src * 4 + (bits.count 32 (upper src) + 1) * 4)) in *.
    replace (na / 4) with (2 * (na / 8)).
    2:{ rewrite <- N3 at 2. replace (na / 8 * 8) with (2 * (na / 8) * 4) by lia. by rewrite Z.div_mul by lia. }
    replace (array_offset src * 8 / 4) with (2 * array_offset src).
    2:{ replace (array_offset src * 8) with (2 * array_offset src * 4) by lia. by rewrite Z.div_mul by lia. }
    set (ao := na / 8) in *.
    assert ((0 <? na - array_offset src * 8) = (ao =? array_offset src + 1)) as ->.
    { destruct (Z.ltb_spec 0 (na - array_offset src * 8)), (Z.eqb_spec ao (array_offset src + 1)); lia. }
    set (r := Node _ _ _ _ _ _ _).
    assert (placed r) as Pr.
    { split_and!; unfold r; cbn; try lia. replace (bits.count 32 up') with (bits.count 32 (upper src) + 1) by lia. done. }
    eapply inserted_in_place; try done; try apply Pr.
    + intros g Hg8. fold bit b. apply gw_set_absent; try done. fold lidx. intros i Hi.
      rewrite (lower_words r Pr), !(lower_words src P). unfold r. cbn [words lower_offset].
      destruct (Z.eqb_spec ao (array_offset src + 1)); [destruct (Z.ltb_spec 0 oidx)|]; mem.
    + intros j Hj. rewrite (slot_words r Pr), (slot_words src P). unfold r. cbn [words array_offset].
      destruct (Z.eqb_spec ao (array_offset src + 1)); [destruct (Z.ltb_spec 0 oidx)|]; mem.
    + intros j Hj. rewrite (slot_words r Pr), (slot_words src P). unfold r. cbn [words array_offset].
      destruct (Z.eqb_spec ao (array_offset src + 1)); [destruct (Z.ltb_spec 0 oidx)|]; mem.
Qed.

End Placement.

End NodeUpdate.
