(* ===== verification/NodeCreate.v ===== *)
(** * NodeCreate: removal of a branch and the constructors from scratch

    The second half of the node theory: [create_remove], the constructors from
    one key, from two keys, from another node under a new prefix and from a table
    of child offsets, and the leaf node. *)
From S2P Require Import Prelude Bits Util Node NodeFacts NodeUpdate.

Module NodeCreate.
Import TrieNode NodeFacts NodeUpdate.

Section Remove.
Context (HASH_SIZE : Z) (HH : 0 <= HASH_SIZE <= 512).

Abbreviation wf := (wf HASH_SIZE).
Abbreviation placed := (placed HASH_SIZE).

Lemma rank_remove p q key k :
  -1 <= key <= 255 -> -1 <= k <= 256 -> p key = true ->
  (forall j, -1 <= j <= 255 -> q j = p j && negb (j =? key)) ->
  zcount q (-1) (k + 1) = zcount p (-1) (k + 1) - (if key <? k then 1 else 0).
Proof.
  intros Hkey Hk Hp E. rewrite (rank_insert q p key k); [lia|done|done| |].
  - by rewrite E, Z.eqb_refl, andb_false_r by lia.
  - intros j Hj. rewrite E by lia. destruct (Z.eqb_spec j key) as [->|]; [done|].
    by rewrite andb_true_r.
Qed.

Lemma count_ldiff up bit : 0 <= bit < 8 -> Z.testbit up bit = true ->
  bits.count 32 (Z.ldiff up (Z.shiftl 1 bit)) = bits.count 32 up - 1.
Proof.
  intros Hb T. unfold bits.count, bits.popcount. apply (zcount_remove _ _ _ _ bit); [lia|done|].
  intros i Hi. by rewrite Z.ldiff_spec, testbit_shiftl1 by lia.
Qed.

(** A group with one key is the group that a removal empties. *)
Lemma count_one g b : 0 <= g < 2 ^ 32 -> 0 <= b < 32 -> Z.testbit g b = true ->
  (bits.count 32 g =? 1) = (Z.ldiff g (Z.shiftl 1 b) =? 0).
Proof.
  intros Hg Hb T. assert (bits.count 32 (Z.ldiff g (Z.shiftl 1 b)) = bits.count 32 g - 1) as E.
  { unfold bits.count, bits.popcount. apply (zcount_remove _ _ _ _ b); [lia|done|].
    intros i Hi. by rewrite Z.ldiff_spec, testbit_shiftl1 by lia. }
  assert (bits.count 32 (Z.ldiff g (Z.shiftl 1 b)) = 0 <-> Z.ldiff g (Z.shiftl 1 b) = 0) as Z0.
  { unfold bits.count, bits.popcount. rewrite zcount_zero by lia. split.
    - intros F. apply Z.bits_inj'. intros i Hi. rewrite Z.bits_0.
      destruct (Z.lt_ge_cases i 32); [apply F; lia|].
      by rewrite Z.ldiff_spec, (testbit_high 32) by lia.
    - intros ->. intros. apply Z.bits_0. }
  destruct (Z.eqb_spec (bits.count 32 g) 1), (Z.eqb_spec (Z.ldiff g (Z.shiftl 1 b)) 0); lia || done.
Qed.

Lemma removed_intro src n key :
  wf src -> -1 <= key <= 255 -> isset src key = true ->
  placed n -> groups_ok (upper n) (lower n) -> 0 <= array_len n < 2 ^ 16 ->
  compressed n = compressed src -> compressed_len n = compressed_len src ->
  count n = count src - 1 ->
  (key <> -1 -> upper n = if Z.ldiff (gw (upper src) (lower src) (key / 32)) (Z.shiftl 1 (key mod 32)) =? 0
    then Z.ldiff (upper src) (Z.shiftl 1 (key / 32)) else upper src) ->
  (key = -1 -> upper n = upper src) ->
  (forall k, -1 <= k <= 255 -> isset n k = isset src k && negb (k =? key)) ->
  (forall j, 0 <= j < zcount (isset src) (-1) (key + 1) -> slot n j = slot src j) ->
  (forall j, zcount (isset src) (-1) (key + 1) <= j < count src - 1 -> slot n j = slot src (j + 1)) ->
  removed HASH_SIZE src n key.
Proof.
  intros W Hk Hn P G Hl Ec Ecl Ect Eu Eun Ei Slo Shi. set (i := zcount _ _ _) in *.
  pose proof (count_range HASH_SIZE src W) as CR. pose proof (wf_count _ _ W) as WC.
  assert (zcount (isset n) (-1) 257 = count src - 1) as Ec'.
  { rewrite WC. apply (zcount_remove _ _ _ _ key); [lia|done|]. intros; apply Ei; lia. }
  assert (wf n) as Wn.
  { destruct P as (P1 & P2 & P3 & P4). split; try done.
    - split; [done|]. rewrite Ec, Ecl. apply W.
    - congruence. }
  split; try done.
  - intros k Hkr Hne. rewrite !link_index by (done || apply W). rewrite Ei by done.
    destruct (Z.eqb_spec k key); [done|]. rewrite andb_true_r.
    destruct (isset src k) eqn:Sk; [|done]. f_equal.
    rewrite (rank_remove (isset src) _ key) by done || lia.
    pose proof (zcount_nonneg (isset src) (-1) (k + 1)) as N0.
    pose proof (zcount_strict _ (-1) (k + 1) 257 k Sk ltac:(lia) ltac:(lia)) as N1.
    destruct (Z.ltb_spec key k).
    + pose proof (zcount_strict _ (-1) (key + 1) (k + 1) key Hn ltac:(lia) ltac:(lia)) as N2. fold i in N2.
      rewrite Shi by lia. f_equal. lia.
    + rewrite Z.sub_0_r. apply Slo. unfold i. split; [done|].
      apply (zcount_strict _ _ _ _ k); [done|lia..].
  - rewrite (wf_size HASH_SIZE HH n Wn), <- (size_sum HASH_SIZE HH n P) by (pose proof (count_range _ n Wn); lia).
    unfold decrement_size, prefix_size. rewrite Ecl, Ect.
    pose proof (wf_placed HASH_SIZE src W) as Ps. rewrite (lower_size_placed HASH_SIZE src Ps).
    assert (forall z, 0 <= z <= 777 -> u16 z = z) as W16
      by (intros; apply wrap_small; change (2 ^ 16) with 65536; lia).
    destruct (prefix_bounds HASH_SIZE HH (compressed_len src)) as (PB & _); [apply W|].
    rewrite (W16 (util.padding _ _)) by (unfold HEADER_SIZE in *; destruct (wf_len _ _ W); lia).
    rewrite (wrap_small 16 ((count src - 1) * 8)) by (change (2 ^ 16) with 65536; pose proof (count_range _ n Wn); lia).
    pose proof (bcount_range (upper src) ltac:(apply W)). unfold NONE.
    destruct (Z.eqb_spec key (-1)) as [->|]; simpl; [by rewrite Eun by done|].
    destruct (key_parts key ltac:(lia)) as (? & ? & ?).
    assert (Z.testbit (upper src) (key / 32) = true) as T by (apply isset_upper; [lia|done]).
    rewrite Eu, ubit_div, upper_isset_testbit, T by (lia || rewrite ?ubit_div; lia).
    assert (lower src (bits.index 32 (upper src) (key / 32)) = gw (upper src) (lower src) (key / 32)) as ->
      by (unfold gw; by rewrite T).
    assert (Z.testbit (gw (upper src) (lower src) (key / 32)) (key mod 32) = true) as Tg.
    { rewrite isset_has in Hn by lia. unfold has in Hn. by destruct (Z.eqb_spec key (-1)). }
    rewrite (count_one _ (key mod 32)) by (done || lia || (apply gw_range; [apply W|lia])). zcase.
    + pose proof (bcount_range (upper n) ltac:(apply G)) as BN.
      rewrite Eu in BN by done. rewrite count_ldiff in * by done || lia.
      rewrite (W16 (_ * 4 - 4)) by lia. do 2 f_equal. lia.
    + done.
Qed.

Lemma clear_null_flag x : 0 <= x < 2 ^ 15 -> Z.land (x + 2 ^ 15) (u16 (Z.lnot NULL_MASK)) = x.
Proof.
  intros. change (u16 (Z.lnot NULL_MASK)) with (Z.ones 15). rewrite Z.land_ones by lia.
  rewrite Z.add_mod, Z.mod_same, Z.add_0_r, Z.mod_mod by lia. by apply Z.mod_small.
Qed.

Lemma land_not_bit W g b : 0 <= W -> 0 <= g < 2 ^ W -> 0 <= b < W ->
  Z.land g (wrap W (Z.lnot (wrap W (Z.shiftl 1 b)))) = Z.ldiff g (Z.shiftl 1 b).
Proof.
  intros HW Hg Hb. apply Z.bits_inj'. intros i Hi.
  rewrite Z.land_spec, Z.ldiff_spec, testbit_wrap, Z.lnot_spec, testbit_wrap by lia.
  destruct (Z.ltb_spec i W); [done|]. by rewrite (testbit_high W) by lia.
Qed.

Lemma remove_groups_spec n src key :
  wf src -> -1 <= key <= 255 -> isset src key = true ->
  let '(up, alen, m, oidx) := remove_groups n src key (lower_offset src) in
  let lo := fun i => m (lower_offset src + i) in
  groups_ok up lo /\ 0 <= alen < 2 ^ 16 /\ Z.land alen (Z.lnot NULL_MASK) = count src - 1 /\
  (key <> -1 -> up =
    if Z.ldiff (gw (upper src) (lower src) (key / 32)) (Z.shiftl 1 (key mod 32)) =? 0
    then Z.ldiff (upper src) (Z.shiftl 1 (key / 32)) else upper src) /\
  (key = -1 -> up = upper src) /\
  (forall k, -1 <= k <= 255 ->
     has up lo (negb (Z.land alen NULL_MASK =? 0)) k = isset src k && negb (k =? key)) /\
  oidx = zcount (isset src) (-1) (key + 1).
Proof.
  intros W Hk Hn. pose proof (wf_placed HASH_SIZE src W) as P. pose proof (count_range _ src W) as CR.
  pose proof (wf_groups _ _ W) as G. pose proof (bcount_range (upper src) ltac:(apply W)) as BC.
  pose proof (array_len_split src (wf_array_len _ _ W)) as AL.
  pose proof (zcount_strict _ (-1) 0 257 key Hn ltac:(lia) ltac:(lia)) as C1.
  rewrite <- (wf_count _ _ W), zcount_nonpos in C1 by lia.
  unfold remove_groups, NONE. rewrite (lower_start_placed HASH_SIZE HH src P), Z.div_mul by lia.
  assert (u16 (array_len src - 1) = array_len src - 1) as ->.
  { apply wrap_small. change (2 ^ 16) with 65536. change (2 ^ 15) with 32768 in *.
    destruct (has_none src); lia. }
  destruct (array_len_make (count src - 1) (has_none src)) as (A1 & A2 & A3);
    [change (2 ^ 15) with 32768; lia|].
  replace (count src - 1 + (if has_none src then 2 ^ 15 else 0)) with (array_len src - 1) in * by lia.
  destruct (Z.eqb_spec key (-1)) as [->|Hne]; simpl negb; cbv iota.
  - assert (has_none src = true) as N by (by unfold isset in Hn). rewrite N in *.
    destruct (array_len_make (count src - 1) false) as (B1 & B2 & B3);
      [change (2 ^ 15) with 32768; lia|]. rewrite Z.add_0_r in *.
    replace (array_len src - 1) with (count src - 1 + 2 ^ 15) by lia.
    rewrite clear_null_flag by (change (2 ^ 15) with 32768; lia).
    assert (forall i, 0 <= i < bits.count 32 (upper src) -> lower src i =
      memcpy (words n) (lower_offset src) (words src) (lower_offset src)
        (bits.count 32 (upper src)) (lower_offset src + i)) as E.
    { intros i Hi. rewrite (lower_words HASH_SIZE HH src P). mem. }
    split_and!; try (done || lia).
    + by apply (groups_ok_ext _ (lower src)).
    + intros k Hkr. rewrite B3, <- (has_ext _ (lower src)), isset_has by done.
      unfold has. destruct (Z.eqb_spec k (-1)); [by rewrite andb_false_r|by rewrite andb_true_r].
  - assert (0 <= key <= 255) as Hk' by lia. destruct (key_parts key Hk') as (Hg & Hb & Ek).
    assert (Z.testbit (upper src) (key / 32) = true) as T by (apply isset_upper; [lia|done]).
    assert (branch_rank (lower src) (bits.index 32 (upper src) (ubit key)) key (array_len src - 1) =
      zcount (isset src) (-1) (key + 1)) as ->.
    { rewrite (branch_rank_spec (upper src) (lower src) (has_none src)); try done; [|apply G].
      symmetry. apply isset_count_ext; lia. }
    rewrite ubit_div, lbit_mod by lia.
    assert (lower src (bits.index 32 (upper src) (key / 32)) = gw (upper src) (lower src) (key / 32)) as El
      by (unfold gw; by rewrite T).
    rewrite El. pose proof (gw_range _ _ (key / 32) G Hg) as GR.
    rewrite land_not_bit by lia. set (bit := key / 32) in *. set (b := key mod 32) in *.
    set (lidx := bits.index 32 (upper src) bit) in *.
    assert (u8 (Z.land (upper src) (Z.lnot (Z.shiftl 1 bit))) = Z.ldiff (upper src) (Z.shiftl 1 bit) /\
      0 <= Z.ldiff (upper src) (Z.shiftl 1 bit) < 256) as [-> Ru].
    { rewrite <- Z.ldiff_land. destruct G as [Gu _].
      assert (0 <= Z.ldiff (upper src) (Z.shiftl 1 bit)) by (apply Z.ldiff_nonneg; lia).
      assert (Z.ldiff (upper src) (Z.shiftl 1 bit) < 2 ^ 8).
      { apply bits_bounded; [lia|done|]. intros i Hi. by rewrite Z.ldiff_spec, up_high by lia. }
      split; [by apply wrap_small|]. change 256 with (2 ^ 8). lia. }
    pose proof (index_lt_count (upper src) bit ltac:(lia) T) as Ir. fold lidx in Ir.
    pose proof (count_ldiff (upper src) bit Hg T) as Cl.
    assert (forall up m, (forall g, 0 <= g < 8 -> gw up (fun i => m (lower_offset src + i)) g =
        if g =? bit then Z.ldiff (gw (upper src) (lower src) g) (Z.shiftl 1 b)
        else gw (upper src) (lower src) g) ->
      forall k, -1 <= k <= 255 -> has up (fun i => m (lower_offset src + i)) (has_none src) k =
        isset src k && negb (k =? key)) as Hs.
    { intros up m GW k Hkr. rewrite isset_has by done. destruct (Z.eqb_spec k (-1)) as [->|].
      - unfold has. rewrite Z.eqb_refl. destruct (Z.eqb_spec (-1) key); [lia|by rewrite andb_true_r].
      - rewrite Ek. apply has_clear; (done || lia). }
    destruct (Z.eqb_spec (Z.ldiff (gw (upper src) (lower src) bit) (Z.shiftl 1 b)) 0) as [Z0|Z0].
    + match goal with |- context [has _ (fun i => ?f (_ + i))] => set (m := f) end.
      assert (forall g, 0 <= g < 8 -> gw (Z.ldiff (upper src) (Z.shiftl 1 bit)) (fun i => m (lower_offset src + i)) g =
        if g =? bit then Z.ldiff (gw (upper src) (lower src) g) (Z.shiftl 1 b)
        else gw (upper src) (lower src) g) as GW.
      { intros g Hg8. apply gw_clear_last; try done. fold lidx. intros i Hi. unfold m.
        rewrite !(lower_words HASH_SIZE HH src P). mem. }
      split_and!; try (done || lia).
      * apply (groups_ok_clear (upper src) (lower src) _ _ bit b); try done.
        intros g Hg8 Tg. rewrite Z.ldiff_spec, testbit_shiftl1 in Tg by lia. zbool.
        split; [done|lia].
      * intros k Hkr. rewrite A3. by apply Hs.
    + match goal with |- context [has _ (fun i => ?f (_ + i))] => set (m := f) end.
      assert (forall g, 0 <= g < 8 -> gw (upper src) (fun i => m (lower_offset src + i)) g =
        if g =? bit then Z.ldiff (gw (upper src) (lower src) g) (Z.shiftl 1 b)
        else gw (upper src) (lower src) g) as GW.
      { intros g Hg8. apply gw_clear_some; try done. fold lidx. intros i Hi. unfold m.
        destruct (Z.eqb_spec i lidx) as [->|].
        - rewrite El. unfold store. by rewrite Z.eqb_refl.
        - rewrite !(lower_words HASH_SIZE HH src P). mem. }
      split_and!; try (done || lia).
      * apply (groups_ok_clear (upper src) (lower src) _ _ bit b); try done; [apply G|].
        intros g Hg8 Tg. split; [done|]. by intros ->.
      * intros k Hkr. rewrite A3. by apply Hs.
Qed.

Lemma create_remove_removed n src key :
  wf src -> -1 <= key <= 255 -> isset src key = true ->
  removed HASH_SIZE src (create_remove HASH_SIZE n src key) key.
Proof.
  intros W Hk Hn. pose proof (wf_placed HASH_SIZE src W) as P. pose proof (count_range _ src W) as CR.
  pose proof (remove_groups_spec n src key W Hk Hn) as S. unfold create_remove.
  destruct (src_lower_start HASH_SIZE HH src W) as (-> & -> & Lr & ->).
  destruct (remove_groups n src key (lower_offset src)) as [[[up alen] m] oidx].
  destruct S as (G & Al & Ac & U1 & U2 & Hs & Oi).
  pose proof (bcount_range up ltac:(apply G)) as BC.
  destruct (new_array (lower_offset src) up alen (compressed_len src) (array_offset n)
    (compressed src) m Lr ltac:(apply G)) as (N1 & N2 & N3 & N4).
  rewrite N1, N2, (array_word HASH_SIZE HH src P).
  assert (count (Node alen up (compressed_len src) (lower_offset src) (array_offset n)
    (compressed src) m) = count src - 1) as -> by done. simpl compressed. simpl compressed_len.
  set (ao := _ / 8) in *. cbn [words].
  pose proof (zcount_strict _ (-1) (key + 1) 257 key Hn ltac:(lia)) as C1.
  rewrite <- (wf_count _ _ W), <- Oi in C1. pose proof (zcount_nonneg (isset src) (-1) (key + 1)) as C0.
  rewrite <- Oi in C0.
  set (mm := memcpy (memcpy _ _ _ _ _) _ _ _ _).
  set (r := Node alen up (compressed_len src) (lower_offset src) ao (compressed src) mm).
  assert (placed r) as Pr by (split_and!; [apply W|apply W|apply G|apply G|apply P|exact N3]).
  assert (forall i, 0 <= i < bits.count 32 up -> m (lower_offset src + i) = lower r i) as El.
  { intros i Hi. rewrite (lower_words HASH_SIZE HH r Pr). unfold r, mm. cbn [words lower_offset]. mem. }
  pose proof (groups_ok_ext _ _ _ El G) as Gr.
  apply removed_intro; try done; try rewrite <- Oi.
  - intros k Hkr. rewrite isset_has, <- Hs by done. symmetry. by apply has_ext.
  - intros j Hj. rewrite (slot_words HASH_SIZE HH r Pr), (slot_words HASH_SIZE HH src P). unfold r, mm.
    cbn [words array_offset]. mem.
  - intros j Hj. rewrite (slot_words HASH_SIZE HH r Pr), (slot_words HASH_SIZE HH src P). unfold r, mm.
    cbn [words array_offset]. mem.
Qed.

End Remove.

(** ** Constructors from scratch *)

Section Create.
Context (HASH_SIZE : Z) (HH : 0 <= HASH_SIZE <= 512).

Abbreviation wf := (wf HASH_SIZE).
Abbreviation placed := (placed HASH_SIZE).

(** [rebased src n prefix]: [n] has the branches of [src] under another prefix. *)
Record rebased (src n : node) (prefix : list Z) : Prop := {
  reb_wf : wf n;
  reb_prefix : compressed n = prefix;
  reb_isset : forall k, -1 <= k <= 255 -> isset n k = isset src k;
  reb_link : forall k, -1 <= k <= 255 -> link n k = link src k;
  reb_size : size n = changed_len HASH_SIZE src (Z.of_nat (length prefix))
}.

Lemma changed_size src n (prefix : list Z) :
  wf src -> wf n -> upper n = upper src -> count n = count src ->
  compressed_len n = Z.of_nat (length prefix) ->
  size n = changed_len HASH_SIZE src (Z.of_nat (length prefix)).
Proof.
  intros W Wn Eu Ec El. pose proof (count_range _ n Wn). pose proof (wf_placed _ _ Wn) as Pn.
  pose proof (wf_placed _ _ W) as P.
  rewrite (wf_size HASH_SIZE HH n Wn), <- (size_sum HASH_SIZE HH n Pn) by done.
  unfold changed_len, prefix_size. rewrite (lower_size_placed HASH_SIZE src P), Eu, El.
  destruct (prefix_bounds HASH_SIZE HH (compressed_len n)) as (PB & _); [apply Pn|].
  unfold array_size. rewrite <- Ec, <- El.
  rewrite (wrap_small 16 (util.padding _ _)), (wrap_small 16 (count n * 8)); [done|..];
    change (2 ^ 16) with 65536; unfold HEADER_SIZE in *; destruct (wf_len _ _ Wn); lia.
Qed.

Lemma create_prefix_rebased n src prefix :
  wf src -> Z.of_nat (length prefix) <= 255 ->
  rebased src (create_prefix HASH_SIZE n src prefix) prefix.
Proof.
  intros W Hp. pose proof (wf_placed HASH_SIZE src W) as P. pose proof (count_range _ src W) as CR.
  pose proof (wf_groups _ _ W) as G. pose proof (bcount_range (upper src) ltac:(apply W)) as BC.
  unfold create_prefix, set_prefix. cbn [array_len upper compressed_len lower_offset array_offset compressed words].
  rewrite (wrap_small 8 (Z.of_nat (length prefix))) by (change (2 ^ 8) with 256; lia).
  rewrite Nat2Z.id, firstn_all. set (len := Z.of_nat (length prefix)).
  destruct (prefix_bounds HASH_SIZE HH len) as (_ & _ & B3); [lia|].
  destruct (new_lower_offset HASH_SIZE HH len) as (L1 & L2 & L3); [lia|]. rewrite L2.
  set (lo := util.padding (HEADER_SIZE HASH_SIZE + len) 4 / 4) in *.
  match goal with |- context [lower_start (Node ?a ?b ?c ?d ?e ?f ?g)] =>
    assert (lower_start (Node a b c d e f g) = lo * 4) as -> by
      (unfold lower_start; cbn; apply wrap_small; change (2 ^ 16) with 65536; lia) end.
  destruct (new_array_offset lo (bits.count 32 (upper src))) as (N1 & N2 & N3 & N4); [lia..|].
  rewrite N2. set (ao := _ / 8) in *.
  set (q := Node (array_len src) (upper src) len lo ao prefix (words n)).
  assert (placed q) as Pq by (split_and!; unfold q; cbn; try lia; apply G).
  rewrite (array_word HASH_SIZE HH q Pq), (array_word HASH_SIZE HH src P).
  rewrite (lower_start_placed HASH_SIZE HH q Pq), (lower_start_placed HASH_SIZE HH src P), !Z.div_mul by lia.
  change (count q) with (count src). set (r := Node _ _ _ _ _ _ _).
  assert (placed r) as Pr by exact Pq. change (array_offset q) with ao in r. change (lower_offset q) with lo in r.
  assert (forall i, 0 <= i < bits.count 32 (upper src) -> lower src i = lower r i) as El.
  { intros i Hi. rewrite (lower_words HASH_SIZE HH r Pr), (lower_words HASH_SIZE HH src P).
    unfold r. cbn [words lower_offset]. mem. }
  assert (forall k, -1 <= k <= 255 -> isset r k = isset src k) as Hs.
  { intros k Hk. rewrite !isset_has by done. symmetry. by apply has_ext. }
  pose proof (groups_ok_ext _ _ _ El G) as Gr.
  assert (wf r) as Wr.
  { split; try apply Pr; try done.
    - split; [unfold r; cbn; lia|done].
    - apply W.
    - rewrite (zcount_ext _ (isset src)) by (intros; apply Hs; lia). apply (wf_count _ _ W). }
  split; try done.
  - intros k Hk. rewrite !link_index, Hs by done. destruct (isset src k) eqn:Sk; [|done].
    rewrite (zcount_ext _ (isset src)) by (intros; apply Hs; lia). f_equal.
    pose proof (zcount_strict _ (-1) (k + 1) 257 k Sk ltac:(lia) ltac:(lia)) as C1.
    rewrite <- (wf_count _ _ W) in C1. pose proof (zcount_nonneg (isset src) (-1) (k + 1)).
    rewrite (slot_words HASH_SIZE HH r Pr), (slot_words HASH_SIZE HH src P). unfold r.
    cbn [words array_offset]. mem.
  - by apply changed_size.
Qed.

(** ** One and two groups *)

Lemma bit_group b : 0 <= b < 32 -> 0 < Z.shiftl 1 b < 2 ^ 32.
Proof.
  intros. rewrite Z.shiftl_1_l. split; [apply Z.pow_pos_nonneg; lia|apply Z.pow_lt_mono_r; lia].
Qed.

Lemma no_groups lo : groups_ok 0 lo.
Proof. split; [lia|]. intros g _. by rewrite Z.bits_0. Qed.

Lemma no_members lo none k : -1 <= k <= 255 -> has 0 lo none k = (k =? -1) && none.
Proof.
  intros. unfold has, gw. destruct (Z.eqb_spec k (-1)); [done|]. by rewrite Z.bits_0, Z.bits_0.
Qed.

Lemma index_bit u g : 0 <= u < 8 -> 0 <= g < 8 ->
  bits.index 32 (Z.shiftl 1 u) g = if u <? g then 1 else 0.
Proof.
  intros. rewrite bits.index_count by lia. destruct (Z.ltb_spec u g).
  - rewrite (zcount_insert (fun _ => false) _ _ _ u); [|lia|done|].
    + by rewrite (proj2 (zcount_zero (fun _ => false) 0 g ltac:(lia))).
    + intros i Hi. rewrite testbit_shiftl1 by lia. by rewrite orb_false_r.
  - apply zcount_zero; [lia|]. intros i Hi. rewrite testbit_shiftl1 by lia. zcase; [lia|done].
Qed.

Lemma count_bit u : 0 <= u < 8 -> bits.count 32 (Z.shiftl 1 u) = 1.
Proof.
  intros. pose proof (count_lor 0 u H) as E. rewrite Z.lor_0_l, Z.bits_0 in E.
  assert (bits.count 32 0 = 0) as Z0 by reflexivity. rewrite E, Z0. done.
Qed.

(** The bitmaps of a single key. *)
Lemma one_group lo u b : 0 <= u < 8 -> 0 <= b < 32 -> lo 0 = Z.shiftl 1 b ->
  groups_ok (Z.shiftl 1 u) lo /\
  (forall none k, -1 <= k <= 255 -> has (Z.shiftl 1 u) lo none k =
     (k =? 32 * u + b) || (k =? -1) && none) /\
  (forall g, 0 <= g < 8 -> gw (Z.shiftl 1 u) lo g =
     if g =? u then Z.lor (gw 0 lo g) (Z.shiftl 1 b) else gw 0 lo g).
Proof.
  intros Hu Hb E.
  assert (forall g, 0 <= g < 8 -> gw (Z.shiftl 1 u) lo g =
    if g =? u then Z.lor (gw 0 lo g) (Z.shiftl 1 b) else gw 0 lo g) as GW.
  { intros g Hg. unfold gw. rewrite testbit_shiftl1, Z.bits_0 by lia.
    destruct (Z.eqb_spec g u) as [->|]; [|done]. by rewrite index_bit, Z.ltb_irrefl by lia. }
  split_and!; try done.
  - apply (groups_ok_set 0 lo _ _ u b); try done; [apply no_groups].
  - intros none k Hk. destruct (Z.eqb_spec k (-1)) as [->|Hne].
    + unfold has. rewrite Z.eqb_refl. destruct (Z.eqb_spec (-1) (32 * u + b)); [lia|done].
    + rewrite (has_set 0 lo _ _ u b) by (done || lia). rewrite no_members by lia.
      by destruct (Z.eqb_spec k (-1)).
Qed.

(** The bitmaps of two keys in one group, and in two groups. *)
Lemma two_keys_one_group lo u b1 b2 :
  0 <= u < 8 -> 0 <= b1 < 32 -> 0 <= b2 < 32 ->
  lo 0 = Z.lor (Z.shiftl 1 b1) (Z.shiftl 1 b2) ->
  groups_ok (Z.shiftl 1 u) lo /\
  (forall none k, -1 <= k <= 255 -> has (Z.shiftl 1 u) lo none k =
     (k =? 32 * u + b2) || ((k =? 32 * u + b1) || (k =? -1) && none)).
Proof.
  intros Hu Hb1 Hb2 E. set (lo1 := fun _ : Z => Z.shiftl 1 b1).
  destruct (one_group lo1 u b1 Hu Hb1 eq_refl) as (G1 & H1 & _).
  assert (forall g, 0 <= g < 8 -> gw (Z.shiftl 1 u) lo g =
    if g =? u then Z.lor (gw (Z.shiftl 1 u) lo1 g) (Z.shiftl 1 b2) else gw (Z.shiftl 1 u) lo1 g) as GW.
  { intros g Hg. unfold gw. rewrite testbit_shiftl1 by lia.
    destruct (Z.eqb_spec g u) as [->|]; [|done]. by rewrite index_bit, Z.ltb_irrefl, E by lia. }
  split.
  - apply (groups_ok_set (Z.shiftl 1 u) lo1 _ _ u b2); try done.
    by rewrite Z.lor_diag.
  - intros none k Hk. rewrite <- H1 by done. destruct (Z.eqb_spec k (-1)) as [->|Hne].
    + unfold has. rewrite Z.eqb_refl. destruct (Z.eqb_spec (-1) (32 * u + b2)); [lia|done].
    + apply (has_set _ lo1); done || lia.
Qed.

Lemma two_keys_two_groups lo u1 u2 b1 b2 :
  0 <= u1 < u2 -> u2 < 8 -> 0 <= b1 < 32 -> 0 <= b2 < 32 ->
  lo 0 = Z.shiftl 1 b1 -> lo 1 = Z.shiftl 1 b2 ->
  let up := Z.lor (Z.shiftl 1 u1) (Z.shiftl 1 u2) in
  groups_ok up lo /\ bits.count 32 up = 2 /\
  (forall none k, -1 <= k <= 255 -> has up lo none k =
     (k =? 32 * u2 + b2) || ((k =? 32 * u1 + b1) || (k =? -1) && none)).
Proof.
  intros Hu1 Hu2 Hb1 Hb2 E1 E2 up.
  destruct (one_group lo u1 b1 ltac:(lia) Hb1 E1) as (G1 & H1 & _).
  assert (bits.count 32 up = 2) as C2.
  { unfold up. rewrite count_lor, count_bit, testbit_shiftl1 by lia. zcase; lia. }
  assert (forall g, 0 <= g < 8 -> gw up lo g =
    if g =? u2 then Z.lor (gw (Z.shiftl 1 u1) lo g) (Z.shiftl 1 b2) else gw (Z.shiftl 1 u1) lo g) as GW.
  { intros g Hg. apply gw_set_absent; try (done || lia).
    - rewrite testbit_shiftl1 by lia. zcase; lia || done.
    - rewrite C2, index_bit by lia. intros i Hi. destruct (Z.ltb_spec u1 u2); [|lia].
      destruct (Z.ltb_spec i 1); [done|]. destruct (Z.eqb_spec i 1) as [->|]; [done|lia]. }
  split_and!; try done.
  - apply (groups_ok_set (Z.shiftl 1 u1) lo _ _ u2 b2); done || lia.
  - intros none k Hk. rewrite <- H1 by done. destruct (Z.eqb_spec k (-1)) as [->|Hne].
    + unfold has. rewrite Z.eqb_refl. destruct (Z.eqb_spec (-1) (32 * u2 + b2)); [lia|done].
    + apply (has_set _ lo); done || lia.
Qed.

(** [paired n prefix k1 k2 i1 i2]: [n] has the prefix and exactly the two keys,
    with their links at the two indices. *)
Record paired (n : node) (prefix : list Z) (k1 k2 i1 i2 : Z) : Prop := {
  pair_wf : wf n;
  pair_prefix : compressed n = prefix;
  pair_isset : forall k, -1 <= k <= 255 -> isset n k = (k =? k1) || (k =? k2);
  pair_index1 : array_index n k1 = i1;
  pair_index2 : array_index n k2 = i2;
  pair_size : size n = size_for_keys HASH_SIZE (Z.of_nat (length prefix)) k1 k2
}.

(** The header of a node made from scratch: [up] and [alen] given, the array
    placed behind [c] groups. *)
Lemma fresh_placed len up alen c (comp : list Z) m :
  0 <= len <= 255 -> 0 <= up < 256 -> bits.count 32 up = c ->
  let lo := u16 (util.padding (HEADER_SIZE HASH_SIZE + len) 4) in
  let ao := u16 (util.align (lo + c * 4)) in
  placed (Node alen up len (u8 (lo / 4)) (u8 (ao / 8)) comp m) /\ u8 (lo / 4) = lo / 4 /\
  lo = util.padding (HEADER_SIZE HASH_SIZE + len) 4 /\
  u8 (ao / 8) * 8 = util.align (lo + c * 4).
Proof.
  intros Hl Hu <- lo ao. destruct (prefix_bounds HASH_SIZE HH len) as (_ & _ & B3); [lia|].
  destruct (new_lower_offset HASH_SIZE HH len) as (L1 & L2 & L3); [lia|].
  pose proof (bcount_range up Hu). unfold ao, lo. rewrite L1, L2.
  set (p := util.padding _ _) in *.
  destruct (new_array_offset (p / 4) (bits.count 32 up)) as (N1 & N2 & N3 & N4); [lia..|].
  replace (p + bits.count 32 up * 4) with (p / 4 * 4 + bits.count 32 up * 4) by lia.
  rewrite N1, N2, N3. split_and!; try done; cbn; try lia; by rewrite N3.
Qed.

Lemma size_for_keys_groups len k1 k2 c :
  0 <= len <= 255 -> -1 <= k1 <= 255 -> -1 <= k2 <= 255 ->
  c = (if (k1 =? -1) || (k2 =? -1) then 1 else if k1 / 32 =? k2 / 32 then 1 else 2) ->
  size_for_keys HASH_SIZE len k1 k2 =
  util.align (util.padding (HEADER_SIZE HASH_SIZE + len) 4 + c * 4) + 16.
Proof.
  intros Hl H1 H2 ->. destruct (prefix_bounds HASH_SIZE HH len Hl) as (B1 & B2 & B3).
  destruct (new_lower_offset HASH_SIZE HH len Hl) as (L1 & L2 & L3).
  unfold size_for_keys, prefix_size, NONE. rewrite L1. set (p := util.padding _ _) in *.
  assert (forall c, 1 <= c <= 2 -> u16 (u16 (util.align (p + c * 4)) + 2 * 8) =
    util.align (p + c * 4) + 16) as E.
  { intros c Hc. destruct (align_bounds (p + c * 4)) as [A1 A2]; [lia|].
    rewrite (wrap_small 16 (util.align _)) by (change (2 ^ 16) with 65536; lia).
    apply wrap_small. change (2 ^ 16) with 65536. lia. }
  destruct (Z.eqb_spec k1 (-1)), (Z.eqb_spec k2 (-1)); simpl; try apply (E 1); try lia.
  rewrite !ubit_div by lia. destruct (k1 / 32 =? k2 / 32); [apply (E 1)|apply (E 2)]; lia.
Qed.

Lemma count_pair n k1 k2 : -1 <= k1 <= 255 -> -1 <= k2 <= 255 -> k1 <> k2 ->
  (forall k, -1 <= k <= 255 -> isset n k = (k =? k1) || (k =? k2)) ->
  zcount (isset n) (-1) 257 = 2 /\
  zcount (isset n) (-1) (k1 + 1) = (if k2 <? k1 then 1 else 0).
Proof.
  intros H1 H2 Hne E. set (p0 := fun _ : Z => false).
  assert (zcount p0 (-1) (k1 + 1) = 0 /\ zcount p0 (-1) 257 = 0) as [Z0 Z1].
  { split; apply zcount_zero; lia || done. }
  assert (zcount (fun k => k =? k2) (-1) 257 = 1) as E1.
  { rewrite (zcount_insert p0 _ _ _ k2); [lia|lia|done|]. intros i _. by rewrite orb_false_r. }
  split.
  - rewrite (zcount_insert (fun k => k =? k2) _ _ _ k1); [lia|lia| |].
    + apply Z.eqb_neq. lia.
    + intros i Hi. apply E. lia.
  - rewrite (rank_insert (fun k => k =? k2) _ k1).
    + rewrite (rank_insert p0 (fun k => k =? k2) k2); try (done || lia).
      * rewrite Z.ltb_irrefl. lia.
      * intros j _. by rewrite orb_false_r.
    + lia.
    + lia.
    + apply Z.eqb_neq. lia.
    + intros j Hj. apply E. lia.
Qed.

Lemma create_sorted_spec n prefix k1 k2 :
  Z.of_nat (length prefix) <= 255 -> -1 <= k1 < k2 -> k2 <= 255 ->
  paired (create_sorted HASH_SIZE (set_prefix n prefix) k1 k2) prefix k1 k2 0 1.
Proof.
  intros Hp H1 H2. unfold create_sorted, calc_lower_start, set_prefix, NONE. cbn [compressed_len compressed words].
  rewrite (wrap_small 8 (Z.of_nat (length prefix))) by (change (2 ^ 8) with 256; lia).
  rewrite Nat2Z.id, firstn_all. set (len := Z.of_nat (length prefix)).
  set (lo := u16 (util.padding (HEADER_SIZE HASH_SIZE + len) 4)).
  destruct (key_parts k2 ltac:(lia)) as (Hg2 & Hb2 & E2).
  assert (forall up alen c m r, 0 <= up < 256 -> bits.count 32 up = c ->
    r = Node alen up len (u8 (lo / 4)) (u8 (u16 (util.align (lo + c * 4)) / 8)) prefix m ->
    groups_ok up (fun i => m (lo / 4 + i)) -> 0 <= alen < 2 ^ 16 ->
    Z.land alen (Z.lnot NULL_MASK) = 2 ->
    c = (if (k1 =? -1) || (k2 =? -1) then 1 else if k1 / 32 =? k2 / 32 then 1 else 2) ->
    (forall k, -1 <= k <= 255 -> has up (fun i => m (lo / 4 + i)) (has_none r) k =
      (k =? k2) || (k =? k1)) -> paired r prefix k1 k2 0 1) as Fin.
  { intros up alen c m r Hu Hc Er G Ha Hct Ec Hs.
    destruct (fresh_placed len up alen c prefix m ltac:(lia) Hu Hc) as (Pr & Lo & Lp & Ap).
    fold lo in Pr, Lo, Lp, Ap. rewrite <- Er in Pr.
    assert (forall i, 0 <= i < bits.count 32 up -> m (lo / 4 + i) = lower r i) as El.
    { intros i Hi. rewrite (lower_words HASH_SIZE HH r Pr), Er. cbn [words lower_offset]. by rewrite Lo. }
    assert (groups_ok (upper r) (lower r)) as Gr.
    { rewrite Er at 1. cbn [upper]. by apply (groups_ok_ext _ _ _ El). }
    assert (forall k, -1 <= k <= 255 -> isset r k = (k =? k1) || (k =? k2)) as Hi.
    { intros k Hk. rewrite isset_has by done. rewrite Er at 1. cbn [upper].
      rewrite orb_comm, <- Hs by done. symmetry. by apply has_ext. }
    destruct (count_pair r k1 k2) as [C1 C2]; [lia..|done|].
    destruct (count_pair r k2 k1) as [_ C3]; [lia..|intros; rewrite Hi by done; apply orb_comm|].
    assert (wf r) as Wr.
    { destruct Pr as (? & ? & ? & ?). split; try done.
      - split; [done|]. by rewrite Er.
      - by rewrite Er.
      - rewrite C1, Er. exact Hct. }
    split; try done.
    - by rewrite Er.
    - rewrite array_index_rank, Hi, Z.eqb_refl, C2 by (done || lia). simpl. zcase; lia || done.
    - rewrite array_index_rank, Hi, Z.eqb_refl, orb_true_r, C3 by (done || lia). zcase; lia || done.
    - rewrite (wf_size HASH_SIZE HH r Wr), (wf_count _ _ Wr), C1.
      change (Z.of_nat (length prefix)) with len.
      rewrite (size_for_keys_groups len k1 k2 c) by (done || lia). rewrite Er. cbn [array_offset].
      rewrite Ap, Lp. lia. }
  destruct (Z.eqb_spec k1 (-1)) as [->|Hne]; simpl negb; cbv iota.
  - rewrite ubit_div, lbit_mod, shiftl1_u32 by lia.
    destruct (lor_u8 0 (k2 / 32)) as [L1 L2]; [lia..|]. rewrite Z.lor_0_l in L1, L2. rewrite L1.
    replace (lo + 4) with (lo + 1 * 4) by lia.
    match goal with |- context [store ?m ?a ?v] => set (mm := store m a v) end.
    destruct (one_group (fun i => mm (lo / 4 + i)) (k2 / 32) (k2 mod 32)) as (G & Hs & _); [done..| |].
    { unfold mm. mem. }
    eapply (Fin _ _ 1); try reflexivity; try done.
    + by apply count_bit.
    + intros k Hk. rewrite Hs by done. rewrite <- E2.
      unfold has_none. cbn [array_len]. by rewrite andb_true_r.
  - destruct (key_parts k1 ltac:(lia)) as (Hg1 & Hb1 & E1).
    rewrite !ubit_div, !lbit_mod, !shiftl1_u32 by lia.
    destruct (lor_u8 (Z.shiftl 1 (k1 / 32)) (k2 / 32)) as [L1 L2]; [|done|].
    { destruct (lor_u8 0 (k1 / 32)) as [L1 L2]; [lia..|]. by rewrite Z.lor_0_l in L2. }
    rewrite L1, count_lor, count_bit, testbit_shiftl1 by lia.
    destruct (Z.eqb_spec (k2 / 32) (k1 / 32)) as [Eg|Ng]; simpl.
    + replace (lo + 4) with (lo + 1 * 4) by lia.
      match goal with |- context [store ?m ?a ?v] => set (mm := store m a v) end.
      destruct (two_keys_one_group (fun i => mm (lo / 4 + i)) (k1 / 32) (k1 mod 32) (k2 mod 32))
        as [G Hs]; [done..| |].
      { unfold mm. mem. }
      rewrite Eg, Z.lor_diag in *.
      eapply (Fin _ _ 1); try reflexivity; try done.
      * by apply count_bit.
      * destruct (Z.eqb_spec k1 (-1)), (Z.eqb_spec k2 (-1)); simpl; try lia. by rewrite Z.eqb_refl.
      * intros k Hk. rewrite Hs by done. rewrite <- E1, <- E2.
        unfold has_none. cbn [array_len]. by rewrite andb_false_r, orb_false_r.
    + replace (lo + 8) with (lo + 2 * 4) by lia.
      match goal with |- context [store (store ?m ?a ?v) ?b ?w] => set (mm := store (store m a v) b w) end.
      assert (k1 / 32 <= k2 / 32) by (apply Z.div_le_mono; lia).
      destruct (two_keys_two_groups (fun i => mm (lo / 4 + i)) (k1 / 32) (k2 / 32) (k1 mod 32) (k2 mod 32))
        as (G & Hc & Hs); [lia|lia|lia|lia|unfold mm; mem|unfold mm; mem|].
      eapply (Fin _ _ 2); try reflexivity; try done.
      * destruct (Z.eqb_spec k1 (-1)), (Z.eqb_spec k2 (-1)), (Z.eqb_spec (k1 / 32) (k2 / 32)); simpl; lia.
      * intros k Hk. rewrite Hs by done. rewrite <- E1, <- E2.
        unfold has_none. cbn [array_len]. by rewrite andb_false_r, orb_false_r.
Qed.

Lemma create_two_paired n prefix k1 k2 :
  Z.of_nat (length prefix) <= 255 -> -1 <= k1 <= 255 -> -1 <= k2 <= 255 -> k1 <> k2 ->
  let '(r, (i1, i2)) := create_two HASH_SIZE n prefix k1 k2 in paired r prefix k1 k2 i1 i2.
Proof.
  intros Hp H1 H2 Hne. unfold create_two. destruct (Z.ltb_spec k2 k1).
  - destruct (create_sorted_spec n prefix k2 k1 Hp ltac:(lia) ltac:(lia)) as [A B C D E F].
    split; try done.
    + intros k Hk. rewrite C by done. apply orb_comm.
    + rewrite F. unfold size_for_keys. by rewrite (orb_comm (k2 =? NONE)), (Z.eqb_sym (ubit k2)).
  - apply create_sorted_spec; lia.
Qed.

(** [single n prefix k]: [n] has the prefix and exactly one branch. *)
Record single (n : node) (prefix : list Z) (key : Z) : Prop := {
  single_wf : wf n;
  single_prefix : compressed n = prefix;
  single_isset : forall k, -1 <= k <= 255 -> isset n k = (k =? key);
  single_index : array_index n key = 0;
  single_size : size n <= size_for_branches HASH_SIZE (Z.of_nat (length prefix)) 1
}.

(** The space asked for takes a node with at most one group. *)
Lemma size_for_one len c : 0 <= len <= 255 -> 0 <= c <= 1 ->
  util.align (util.padding (HEADER_SIZE HASH_SIZE + len) 4 + c * 4) + 8 <=
    size_for_branches HASH_SIZE len 1 <= MAX_SIZE HASH_SIZE.
Proof.
  intros Hl Hc. destruct (prefix_bounds HASH_SIZE HH len Hl) as (B1 & B2 & B3).
  destruct (prefix_bounds HASH_SIZE HH 255 ltac:(lia)) as (B4 & _).
  assert (util.padding (HEADER_SIZE HASH_SIZE + len) 4 <= util.padding (HEADER_SIZE HASH_SIZE + 255) 4) as Bm.
  { unfold util.padding. apply Z.mul_le_mono_nonneg_r; [lia|]. apply Z.div_le_mono; lia. }
  destruct (new_lower_offset HASH_SIZE HH len Hl) as (L1 & _).
  unfold size_for_branches, prefix_size, MAX_SIZE, MAX_BRANCH_COUNT. rewrite L1. unfold HEADER_SIZE in *.
  set (p := util.padding (7 + HASH_SIZE + len) 4) in *.
  set (q := util.padding (7 + HASH_SIZE + 255) 4) in *.
  change (u16 (Z.min 1 8 * 4)) with 4. change (u16 (1 * 8)) with 8.
  rewrite !util.align_padding by lia. unfold util.padding.
  pose proof (Z.div_mod (p + c * 4 + 8 - 1) 8 ltac:(lia)). pose proof (Z.mod_pos_bound (p + c * 4 + 8 - 1) 8 ltac:(lia)).
  pose proof (Z.div_mod (p + 4 + 8 + 8 - 1) 8 ltac:(lia)). pose proof (Z.mod_pos_bound (p + 4 + 8 + 8 - 1) 8 ltac:(lia)).
  pose proof (Z.div_mod (q + 8 * 4 + 8 - 1) 8 ltac:(lia)). pose proof (Z.mod_pos_bound (q + 8 * 4 + 8 - 1) 8 ltac:(lia)).
  rewrite !wrap_small; change (2 ^ 16) with 65536; lia.
Qed.

Lemma create_one_single n prefix key :
  Z.of_nat (length prefix) <= 255 -> -1 <= key <= 255 ->
  let '(r, i) := create_one HASH_SIZE n prefix key in i = 0 /\ single r prefix key.
Proof.
  intros Hp Hk. unfold create_one, set_prefix, NONE. cbn [compressed_len compressed words].
  rewrite (wrap_small 8 (Z.of_nat (length prefix))) by (change (2 ^ 8) with 256; lia).
  rewrite Nat2Z.id, firstn_all. set (len := Z.of_nat (length prefix)).
  set (lo := u16 (util.padding (HEADER_SIZE HASH_SIZE + len) 4)).
  assert (forall up alen c m r, 0 <= up < 256 -> bits.count 32 up = c ->
    r = Node alen up len (u8 (lo / 4)) (u8 (u16 (util.align (lo + c * 4)) / 8)) prefix m ->
    groups_ok up (fun i => m (lo / 4 + i)) -> 0 <= alen < 2 ^ 16 ->
    Z.land alen (Z.lnot NULL_MASK) = 1 ->
    0 <= c <= 1 ->
    (forall k, -1 <= k <= 255 -> has up (fun i => m (lo / 4 + i)) (has_none r) k = (k =? key)) ->
    single r prefix key) as Fin.
  { intros up alen c m r Hu Hc Er G Ha Hct Hc1 Hs.
    destruct (fresh_placed len up alen c prefix m ltac:(lia) Hu Hc) as (Pr & Lo & Lp & Ap).
    fold lo in Pr, Lo, Lp, Ap. rewrite <- Er in Pr.
    assert (forall i, 0 <= i < bits.count 32 up -> m (lo / 4 + i) = lower r i) as El.
    { intros i Hi. rewrite (lower_words HASH_SIZE HH r Pr), Er. cbn [words lower_offset]. by rewrite Lo. }
    assert (groups_ok (upper r) (lower r)) as Gr.
    { rewrite Er at 1. cbn [upper]. by apply (groups_ok_ext _ _ _ El). }
    assert (forall k, -1 <= k <= 255 -> isset r k = (k =? key)) as Hi.
    { intros k Hkr. rewrite isset_has by done. rewrite Er at 1. cbn [upper].
      rewrite <- Hs by done. symmetry. by apply has_ext. }
    set (p0 := fun _ : Z => false).
    assert (zcount p0 (-1) (key + 1) = 0 /\ zcount p0 (-1) 257 = 0) as [Z0 Z1].
    { split; apply zcount_zero; lia || done. }
    assert (zcount (isset r) (-1) 257 = 1) as Hcount.
    { rewrite (zcount_insert p0 _ _ _ key), Z1; [done|lia|done|].
      intros i Hr. rewrite Hi, orb_false_r by lia. done. }
    assert (wf r) as Wr.
    { destruct Pr as (? & ? & ? & ?). split; try done; [split; [done|]; by rewrite Er|by rewrite Er|].
      rewrite Hcount, Er. exact Hct. }
    split; try done.
    3: { rewrite (wf_size HASH_SIZE HH r Wr), (wf_count _ _ Wr), Hcount, Er. cbn [array_offset].
      rewrite Ap, Lp. pose proof (size_for_one len c ltac:(lia) Hc1). fold len. lia. }
    - by rewrite Er.
    - rewrite array_index_rank, Hi, Z.eqb_refl by done.
      rewrite (rank_insert p0 _ key), Z.ltb_irrefl; try (done || lia).
      intros j Hj. by rewrite Hi, orb_false_r by lia. }
  destruct (Z.eqb_spec key (-1)) as [->|Hne]; simpl negb; cbv iota; (split; [done|]).
  - replace (util.align lo) with (util.align (lo + 0 * 4)) by (f_equal; lia).
    eapply (Fin _ _ 0); try reflexivity; try done.
    + apply no_groups.
    + intros k Hkr. rewrite no_members by done. unfold has_none. cbn [array_len]. by rewrite andb_true_r.
  - destruct (key_parts key ltac:(lia)) as (Hg & Hb & E).
    rewrite !ubit_div, !lbit_mod, !shiftl1_u32 by lia.
    destruct (lor_u8 0 (key / 32)) as [L1 L2]; [lia..|]. rewrite Z.lor_0_l in L1, L2. rewrite L1.
    replace (lo + 4) with (lo + 1 * 4) by lia.
    match goal with |- context [store ?m ?a ?v] => set (mm := store m a v) end.
    destruct (one_group (fun i => mm (lo / 4 + i)) (key / 32) (key mod 32)) as (G & Hs & _); [done..| |].
    { unfold mm. mem. }
    eapply (Fin _ _ 1); try reflexivity; try done.
    + by apply count_bit.
    + intros k Hkr. rewrite Hs, <- E by done. unfold has_none. cbn [array_len].
      by rewrite andb_false_r, orb_false_r.
Qed.

(** ** Assigning a link *)

Lemma load_store64 m i v : load64 (store64 m i v) i = v.
Proof.
  unfold load64, store64, store. rewrite Z.eqb_refl.
  destruct (Z.eqb_spec i (i + 1)); [lia|]. rewrite Z.eqb_refl.
  pose proof (Z.div_mod v (2 ^ 32) ltac:(lia)). lia.
Qed.

Lemma load_store64_other m i j v : (j + 1 < i \/ i + 1 < j) -> load64 (store64 m i v) j = load64 m j.
Proof. intros. unfold store64. mem. Qed.

Lemma set_slot_spec n i v :
  wf n -> 0 <= i < count n ->
  wf (set_slot n i v) /\ (forall k, isset (set_slot n i v) k = isset n k) /\
  (forall k, array_index (set_slot n i v) k = array_index n k) /\
  (forall j, 0 <= j < count n -> slot (set_slot n i v) j = if j =? i then v else slot n j).
Proof.
  intros W Hi. pose proof (wf_placed _ _ W) as P. pose proof (array_gap HASH_SIZE HH n P) as [_ Ga].
  set (r := set_slot n i v). assert (placed r) as Pr by exact P.
  assert (forall j, 0 <= j < bits.count 32 (upper n) -> lower n j = lower r j) as El.
  { intros j Hj. rewrite (lower_words HASH_SIZE HH r Pr), (lower_words HASH_SIZE HH n P).
    unfold r, set_slot. cbn [words lower_offset]. rewrite (array_word HASH_SIZE HH n P).
    unfold store64. mem. }
  assert (forall j, 0 <= j < count n -> slot r j = if j =? i then v else slot n j) as Hs.
  { intros j Hj. rewrite (slot_words HASH_SIZE HH r Pr), (slot_words HASH_SIZE HH n P).
    unfold r, set_slot. cbn [words array_offset]. rewrite (array_word HASH_SIZE HH n P).
    destruct (Z.eqb_spec j i) as [->|]; [apply load_store64|apply load_store64_other; lia]. }
  assert (forall g, Z.testbit (upper n) g = true -> 0 <= g < 32 ->
    lower r (bits.index 32 (upper n) g) = lower n (bits.index 32 (upper n) g)) as Eg.
  { intros g T Hg. symmetry. apply El. by apply index_lt_count. }
  assert (forall k, 0 <= ubit k < 8) as Hu.
  { intros k. unfold ubit. pose proof (wrap_range 8 k ltac:(lia)). change (2 ^ 8) with 256 in *.
    rewrite Z.shiftr_div_pow2 by lia. change (2 ^ 5) with 32.
    split; [apply Z.div_pos; lia|apply Z.div_lt_upper_bound; lia]. }
  assert (forall k, isset r k = isset n k) as Hset.
  { intros k. unfold isset. destruct (k =? NONE); [done|]. change (upper r) with (upper n).
    change (upper_isset r (ubit k)) with (upper_isset n (ubit k)).
    destruct (upper_isset n (ubit k)) eqn:U; [|done]. cbn [andb].
    rewrite upper_isset_testbit in U by apply Hu. rewrite Eg by (done || (specialize (Hu k); lia)). done. }
  split_and!; try done.
  - split; try apply W.
    + by apply (groups_ok_ext _ _ _ El), W.
    + change (count r) with (count n). rewrite (wf_count _ _ W). by apply zcount_ext.
  - intros k. unfold array_index. cbv zeta. destruct (k =? NONE); [done|]. change (upper r) with (upper n).
    change (upper_isset r (ubit k)) with (upper_isset n (ubit k)).
    destruct (upper_isset n (ubit k)) eqn:U; [|done].
    rewrite upper_isset_testbit in U by apply Hu. rewrite Eg by (done || (specialize (Hu k); lia)).
    destruct (_ =? 0); [done|]. change (array_len r) with (array_len n). unfold branch_rank.
    rewrite Eg by (done || (specialize (Hu k); lia)). f_equal.
    rewrite bits.index_count by (specialize (Hu k); lia).
    pose proof (index_le (upper n) (ubit k) ltac:(specialize (Hu k); lia)).
    specialize (Hu k). rewrite !groups_before_sum by lia. apply zsum_ext. intros j Hj.
    rewrite <- El; [done|]. split; [lia|]. unfold bits.count, bits.popcount.
    pose proof (zcount_mono (Z.testbit (upper n)) 0 (ubit k) 32 ltac:(lia)). lia.
Qed.

Lemma set_link_spec n key v :
  wf n -> -1 <= key <= 255 -> isset n key = true ->
  let r := set_slot n (array_index n key) v in
  wf r /\ (forall k, isset r k = isset n k) /\ size r = size n /\ compressed r = compressed n /\
  (forall k, -1 <= k <= 255 -> link r k = if k =? key then Some v else link n k).
Proof.
  intros W Hk Hs r.
  assert (forall k, -1 <= k <= 255 -> isset n k = true -> 0 <= array_index n k < count n) as Hr.
  { intros k Hkr Sk. rewrite array_index_rank, Sk by (apply W || done). rewrite (wf_count _ _ W).
    split; [apply zcount_nonneg|]. apply (zcount_strict _ _ _ _ k); done || lia. }
  destruct (set_slot_spec n (array_index n key) v W (Hr key Hk Hs)) as (W' & I' & A' & S').
  split_and!; try done. intros k Hkr. unfold link, offset, r. rewrite A'.
  destruct (isset n k) eqn:Sk.
  - pose proof (Hr k Hkr Sk). destruct (Z.leb_spec 0 (array_index n k)); [|lia].
    rewrite S' by done. destruct (Z.eqb_spec k key) as [->|Hne]; [by rewrite Z.eqb_refl|].
    destruct (Z.eqb_spec (array_index n k) (array_index n key)) as [E|]; [|done].
    exfalso. apply Hne. rewrite !array_index_rank, Sk, Hs in E by (apply W || done).
    destruct (Z.lt_trichotomy k key) as [L|[->|L]]; [|done|].
    + pose proof (zcount_strict _ (-1) (k + 1) (key + 1) k Sk ltac:(lia) ltac:(lia)). lia.
    + pose proof (zcount_strict _ (-1) (key + 1) (k + 1) key Hs ltac:(lia) ltac:(lia)). lia.
  - destruct (Z.eqb_spec k key) as [->|]; [congruence|].
    by rewrite array_index_rank, Sk by (apply W || done).
Qed.

Lemma paired_links n prefix k1 k2 v1 v2 i1 i2 :
  -1 <= k1 <= 255 -> -1 <= k2 <= 255 -> k1 <> k2 -> paired n prefix k1 k2 i1 i2 ->
  let r := set_slot (set_slot n i1 v1) i2 v2 in
  wf r /\ compressed r = prefix /\ size r = size n /\
  (forall k, -1 <= k <= 255 ->
     link r k = if k =? k1 then Some v1 else if k =? k2 then Some v2 else None).
Proof.
  intros H1 H2 Hne [W Cp Is <- <- _] r.
  destruct (set_link_spec n k1 v1 W H1) as (W1 & I1 & S1 & C1 & L1).
  { rewrite Is, Z.eqb_refl by done. done. }
  destruct (set_link_spec (set_slot n (array_index n k1) v1) k2 v2 W1 H2) as (W2 & I2 & S2 & C2 & L2).
  { rewrite I1, Is, Z.eqb_refl, orb_true_r by done. done. }
  assert (r = set_slot (set_slot n (array_index n k1) v1)
    (array_index (set_slot n (array_index n k1) v1) k2) v2) as Er.
  { unfold r. f_equal. symmetry. apply (set_slot_spec n (array_index n k1) v1 W).
    rewrite array_index_rank, Is, Z.eqb_refl by (apply W || done). simpl. rewrite (wf_count _ _ W).
    split; [apply zcount_nonneg|]. apply (zcount_strict _ _ _ _ k1); [by rewrite Is, Z.eqb_refl|lia..]. }
  rewrite Er. split_and!; try done; try congruence.
  intros k Hk. rewrite L2, L1 by done.
  destruct (Z.eqb_spec k k1) as [->|N1].
  { destruct (Z.eqb_spec k1 k2); [done|done]. }
  destruct (Z.eqb_spec k k2) as [->|N2]; [done|].
  rewrite link_index, Is by (apply W || done). destruct (Z.eqb_spec k k1), (Z.eqb_spec k k2); done.
Qed.

Lemma size_bounds n : wf n -> HEADER_SIZE HASH_SIZE <= size n <= MAX_SIZE HASH_SIZE.
Proof.
  intros W. pose proof (count_range _ n W). pose proof (wf_placed _ _ W) as P.
  rewrite (wf_size HASH_SIZE HH n W). destruct (array_gap HASH_SIZE HH n P) as [_ Ga].
  destruct P as (P1 & P2 & P3 & P4). pose proof (bcount_range (upper n) P2).
  destruct (prefix_bounds HASH_SIZE HH (compressed_len n) P1) as (B1 & _).
  assert (util.padding (HEADER_SIZE HASH_SIZE + 255) 4 mod 4 = 0) as M0 by (apply util.padding_mod; lia).
  pose proof (util.padding_bounds (HEADER_SIZE HASH_SIZE + 255) 4 ltac:(lia)) as B2.
  assert (util.padding (HEADER_SIZE HASH_SIZE + compressed_len n) 4 <=
    util.padding (HEADER_SIZE HASH_SIZE + 255) 4) as B3.
  { unfold util.padding. apply Z.mul_le_mono_nonneg_r; [lia|]. apply Z.div_le_mono; lia. }
  unfold MAX_SIZE, MAX_BRANCH_COUNT. unfold HEADER_SIZE in *.
  set (p := util.padding (7 + HASH_SIZE + 255) 4) in *.
  destruct (align_bounds (p + 8 * 4)) as [A1 A2]; [lia|].
  destruct (align_bounds (lower_offset n * 4 + bits.count 32 (upper n) * 4)) as [A3 A4]; [lia|].
  rewrite wrap_small by (change (2 ^ 16) with 65536; lia).
  assert (util.align (lower_offset n * 4 + bits.count 32 (upper n) * 4) <= util.align (p + 8 * 4)).
  { rewrite !util.align_padding by (change (2 ^ 32) with 4294967296; lia). unfold util.padding at 1.
    unfold util.padding. apply Z.mul_le_mono_nonneg_r; [lia|]. apply Z.div_le_mono; lia. }
  lia.
Qed.

(** ** Properties *)

(** C39: the in-place [insert_branch] and the copying [create] agree:
    the new slot is the rank of the key among the branches, every other link is
    kept, and both results are well formed and exactly as large as
    [increment_size] announced. *)
Theorem insert_branch_agrees (fresh src : node) (key : Z) :
  wf src -> -1 <= key <= 255 -> isset src key = false ->
  let '(copy, i) := create_insert HASH_SIZE fresh src key in
  let '(here, j) := insert_branch src key in
  i = j /\ array_index here key = zcount (isset src) (-1) (key + 1) /\ wf copy /\ wf here /\
  size copy = increment_size HASH_SIZE src key /\ size here = increment_size HASH_SIZE src key /\
  (forall k, -1 <= k <= 255 -> isset here k = (k =? key) || isset src k) /\
  (forall k, -1 <= k <= 255 -> k <> key -> link copy k = link src k /\ link here k = link src k).
Proof.
  intros W Hk Hs. pose proof (create_insert_inserted HASH_SIZE HH fresh src key W Hk Hs) as A.
  pose proof (insert_branch_inserted HASH_SIZE HH src key W Hk Hs) as B.
  destruct (create_insert HASH_SIZE fresh src key) as [copy i].
  destruct (insert_branch src key) as [here j]. destruct A, B.
  assert (forall n, wf n -> (forall k, -1 <= k <= 255 -> isset n k = (k =? key) || isset src k) ->
    array_index n key = zcount (isset src) (-1) (key + 1)) as E.
  { intros n Wn In. rewrite array_index_rank, In, Z.eqb_refl by (apply Wn || done). simpl.
    rewrite (rank_insert (isset src) _ key), Z.ltb_irrefl; try (done || lia). }
  split_and!; try done; [|by apply E|by split; auto].
  transitivity (array_index copy key); [done|]. transitivity (array_index here key); [|done].
  by rewrite !E.
Qed.

(** adding a branch, linking it and removing it again gives back
    the branches, the links and the size of the node. *)
Theorem insert_remove_roundtrip (fresh fresh' src : node) (key v : Z) :
  wf src -> -1 <= key <= 255 -> isset src key = false ->
  let '(n, i) := create_insert HASH_SIZE fresh src key in
  let r := create_remove HASH_SIZE fresh' (set_slot n i v) key in
  link (set_slot n i v) key = Some v /\
  (forall k, -1 <= k <= 255 -> isset r k = isset src k /\ link r k = link src k) /\
  compressed r = compressed src.
Proof.
  intros W Hk Hs. pose proof (create_insert_inserted HASH_SIZE HH fresh src key W Hk Hs) as A.
  destruct (create_insert HASH_SIZE fresh src key) as [n i]. destruct A as [A1 A2 A3 <- A5 A6].
  destruct (set_link_spec n key v A1 Hk) as (S1 & S2 & S3 & S4 & S5).
  { by rewrite A3, Z.eqb_refl by done. }
  set (m := set_slot n (array_index n key) v) in *.
  destruct (create_remove_removed HASH_SIZE HH fresh' m key S1 Hk) as [R1 R2 R3 R4 R5].
  { by rewrite S2, A3, Z.eqb_refl by done. }
  split_and!.
  - by rewrite S5, Z.eqb_refl by done.
  - intros k Hkr. assert (isset (create_remove HASH_SIZE fresh' m key) k = isset src k) as I.
    { rewrite R3, S2, A3 by done. destruct (Z.eqb_spec k key) as [->|]; [by rewrite Hs|].
      by rewrite andb_true_r. }
    split; [done|]. destruct (Z.eq_dec k key) as [->|Hne].
    + rewrite !link_index, I, Hs by (apply R1 || apply W || done). done.
    + rewrite R4, S5, A5 by done. by destruct (Z.eqb_spec k key).
  - by rewrite R2, S4, A2.
Qed.

(** C40: a node made for two different keys of a byte or none, under a prefix of at most
    255 bytes, is well formed once both links are set, has the announced size, which fits
    the maximal one, and links exactly these two, whatever their order. *)
Theorem create_two_links (fresh : node) (prefix : list Z) (k1 k2 v1 v2 : Z) :
  Z.of_nat (length prefix) <= 255 -> -1 <= k1 <= 255 -> -1 <= k2 <= 255 -> k1 <> k2 ->
  let '(n, (i1, i2)) := create_two HASH_SIZE fresh prefix k1 k2 in
  let r := set_slot (set_slot n i1 v1) i2 v2 in
  wf r /\ compressed r = prefix /\ size r = size_for_keys HASH_SIZE (Z.of_nat (length prefix)) k1 k2 /\
  size r <= MAX_SIZE HASH_SIZE /\
  (forall k, -1 <= k <= 255 ->
     link r k = if k =? k1 then Some v1 else if k =? k2 then Some v2 else None).
Proof.
  intros Hp H1 H2 Hne. pose proof (create_two_paired fresh prefix k1 k2 Hp H1 H2 Hne) as P.
  destruct (create_two HASH_SIZE fresh prefix k1 k2) as [n [i1 i2]].
  destruct (paired_links n prefix k1 k2 v1 v2 i1 i2 H1 H2 Hne P) as (W & C & S & L).
  split_and!; [done|done| |by apply size_bounds|done]. rewrite S. apply P.
Qed.

End Create.

(** A sample node, for the witnesses. *)
Definition blank : node := Node 0 0 0 0 0 [] (fun _ => 0).
Definition sample : node := fst (create_two 0 blank [97; 98] 10 200).

Lemma sample_wf : wf 0 sample.
Proof.
  pose proof (create_two_paired 0 ltac:(lia) blank [97; 98] 10 200 ltac:(done) ltac:(lia)
    ltac:(lia) ltac:(lia)) as P.
  unfold sample. destruct (create_two 0 blank [97; 98] 10 200) as [n [i1 i2]]. apply P.
Qed.

Lemma insert_branch_agrees_witness :
  wf 0 sample /\ isset sample 40 = false /\
  array_index (fst (insert_branch sample 40)) 40 = 1.
Proof.
  split; [apply sample_wf|]. split; [reflexivity|].
  pose proof (insert_branch_agrees 0 ltac:(lia) blank sample 40 sample_wf ltac:(lia) eq_refl) as T.
  destruct (create_insert 0 blank sample 40) as [c i].
  destruct (insert_branch sample 40) as [h j]. destruct T as (_ & E & _).
  cbn [fst]. rewrite E. reflexivity.
Defined.

Lemma insert_remove_roundtrip_witness :
  let '(n, i) := create_insert 0 blank sample 40 in link (set_slot n i 4096) 40 = Some 4096.
Proof.
  pose proof (insert_remove_roundtrip 0 ltac:(lia) blank blank sample 40 4096 sample_wf
    ltac:(lia) eq_refl) as T.
  destruct (create_insert 0 blank sample 40) as [n i]. apply T.
Defined.

Lemma create_two_links_witness :
  let '(n, (i1, i2)) := create_two 0 blank [97; 98] 10 200 in
  link (set_slot (set_slot n i1 64) i2 128) 200 = Some 128.
Proof.
  pose proof (create_two_links 0 ltac:(lia) blank [97; 98] 10 200 64 128 ltac:(done) ltac:(lia)
    ltac:(lia) ltac:(lia)) as T.
  destruct (create_two 0 blank [97; 98] 10 200) as [n [i1 i2]].
  destruct T as (_ & _ & _ & _ & L). rewrite L by lia. reflexivity.
Defined.

End NodeCreate.
