(* ===== verification/File.v ===== *)
(** * File: positioned I/O on raw files, [core/_port.hpp]

    A file is the list of its bytes. [overlay] is what the operating system does
    for one [pwrite]; a write behind the end fills the gap with zeros. The two
    loops of the source retry interrupted and short transfers; the answers of
    the operating system are their input. *)
From S2P Require Import Prelude.

Module file.

Definition overlay (f : list Z) (off : nat) (src : list Z) : list Z :=
  take off (f ++ replicate (off - length f) 0) ++ src ++ drop (off + length src) f.

(** One answer of [pwrite] or [pread]. *)
Inductive os_answer := Moved (k : nat) | Interrupted | Failed.

(** [write_fd_all_at]: [None] when the answers run out before the call returns. *)
Fixpoint write_fd_all_at (os : list os_answer) (f : list Z) (off : nat) (p : list Z)
    : option (bool * list Z) :=
  match p with
  | [] => Some (true, f)
  | _ =>
      match os with
      | [] => None
      | Interrupted :: os' => write_fd_all_at os' f off p
      | Failed :: _ => Some (false, f)
      | Moved O :: _ => Some (false, f)
      | Moved k :: os' =>
          write_fd_all_at os' (overlay f off (take k p)) (off + k) (drop k p)
      end
  end.

(** [read_fd_all_at] of [n] bytes; the bytes read so far are in [acc]. *)
Fixpoint read_fd_all_at (os : list os_answer) (f : list Z) (off n : nat) (acc : list Z)
    : option (bool * list Z) :=
  match n with
  | O => Some (true, acc)
  | _ =>
      match os with
      | [] => None
      | Interrupted :: os' => read_fd_all_at os' f off n acc
      | Failed :: _ => Some (false, acc)
      | Moved O :: _ => Some (false, acc)
      | Moved k :: os' =>
          read_fd_all_at os' f (off + k) (n - k) (acc ++ take k (drop off f))
      end
  end.

(** The contract of the operating system: a transfer never moves more than was
    asked for, and a read never moves bytes the file does not have. *)
Fixpoint os_ok (avail : nat) (os : list os_answer) : Prop :=
  match os with
  | [] => True
  | Moved k :: os' => (k <= avail)%nat /\ os_ok (avail - k) os'
  | _ :: os' => os_ok avail os'
  end.

(** The result of one positioned write as its callers see it. *)
Inductive write_result := Done | Short (k : nat).

Definition pwrite (r : write_result) (f : list Z) (off : nat) (src : list Z) : bool * list Z :=
  match r with
  | Done => (true, overlay f off src)
  | Short k => (false, overlay f off (take k src))
  end.

(** ** Lemmas *)

Lemma overlay_app f src : overlay f (length f) src = f ++ src.
Proof.
  unfold overlay. rewrite Nat.sub_diag. simpl. rewrite app_nil_r, firstn_all.
  rewrite drop_ge by lia. by rewrite app_nil_r.
Qed.

Lemma overlay_length f off src :
  (length (overlay f off src) = Nat.max (length f) (off + length src))%nat.
Proof.
  unfold overlay. rewrite !length_app, length_take, length_drop, length_app, length_replicate. lia.
Qed.

Lemma overlay_nil f off : (off <= length f)%nat -> overlay f off [] = f.
Proof.
  intros. unfold overlay. replace (off - length f)%nat with 0%nat by lia. simpl.
  rewrite app_nil_r, Nat.add_0_r. apply take_drop.
Qed.

(** Two adjacent writes are one. *)
Lemma overlay_overlay f off a b :
  overlay (overlay f off a) (off + length a) b = overlay f off (a ++ b).
Proof.
  unfold overlay at 1. rewrite overlay_length.
  replace (off + length a - Nat.max (length f) (off + length a))%nat with 0%nat by lia.
  simpl. rewrite app_nil_r. unfold overlay. rewrite (app_assoc _ a), (app_assoc _ (a ++ b)).
  set (h := take off _). assert (length h = off) as Hh.
  { unfold h. rewrite length_take, length_app, length_replicate. lia. }
  rewrite take_app_le by (rewrite length_app; lia). rewrite take_ge by (rewrite length_app; lia).
  rewrite <- !app_assoc. do 3 f_equal.
  rewrite (app_assoc h a), drop_app_ge by (rewrite length_app; lia). rewrite drop_drop, !length_app.
  f_equal. lia.
Qed.

(** ** Properties *)

(** whatever short and interrupted writes the operating system
    answers, a call that reports success has written all the bytes at their
    place, and one that reports failure has written a prefix of them: it is the
    [pwrite] its callers assume. *)
Theorem write_fd_all_at_pwrite (os : list os_answer) (f p : list Z) (off : nat) (ok : bool) (f' : list Z) :
  os_ok (length p) os -> (off <= length f)%nat ->
  write_fd_all_at os f off p = Some (ok, f') -> exists r, pwrite r f off p = (ok, f').
Proof.
  revert f p off. induction os as [|a os IH]; intros f p off Hos Hoff H.
  - destruct p; [|done]. injection H as <- <-. exists Done. simpl. by rewrite overlay_nil.
  - assert ((ok, f') = (true, f) /\ p = [] \/ p <> []) as [[E ->]|Hp].
    { destruct p; [left|by right]. split; [by injection H as <- <-|done]. }
    { injection E as -> ->. exists Done. simpl. by rewrite overlay_nil. }
    assert (write_fd_all_at (a :: os) f off p = match a with
      | Interrupted => write_fd_all_at os f off p
      | Moved (S k) => write_fd_all_at os (overlay f off (take (S k) p)) (off + S k) (drop (S k) p)
      | _ => Some (false, f) end) as E by (destruct p; [done|]; destruct a as [[|k]| |]; done).
    rewrite E in H. clear E. destruct a as [[|k]| |]; simpl in Hos.
    + injection H as <- <-. exists (Short 0). simpl. by rewrite overlay_nil.
    + destruct Hos as [Hk Hos]. destruct (IH (overlay f off (take (S k) p)) (drop (S k) p) (off + S k)%nat)
        as [r Hr]; [by rewrite length_drop|rewrite overlay_length, length_take; lia|done|].
      assert (forall q, overlay (overlay f off (take (S k) p)) (off + S k) q =
        overlay f off (take (S k) p ++ q)) as O.
      { intros q. rewrite <- overlay_overlay. by rewrite length_take, Nat.min_l by lia. }
      destruct r as [|j]; simpl in Hr; rewrite O in Hr.
      * exists Done. simpl. by rewrite take_drop in Hr.
      * exists (Short (S k + j)). simpl. rewrite <- Hr. by rewrite take_take_drop.
    + by apply IH.
    + injection H as <- <-. exists (Short 0). simpl. by rewrite overlay_nil.
Qed.

Lemma write_fd_all_at_pwrite_witness :
  exists r, pwrite r [1; 2; 3] 1 [7; 8; 9] = (true, [1; 7; 8; 9]).
Proof.
  apply (write_fd_all_at_pwrite [Interrupted; Moved 1; Moved 2]); [simpl; lia|simpl; lia|reflexivity].
Defined.

Lemma read_fd_all_at_acc os f off n acc ok r :
  os_ok (Nat.min n (length f - off)) os -> read_fd_all_at os f off n acc = Some (ok, r) ->
  exists k, (k <= n)%nat /\ r = acc ++ take k (drop off f) /\ (ok = true -> k = n).
Proof.
  revert off n acc. induction os as [|a os IH]; intros off n acc Hos H.
  - destruct n; [|done]. injection H as <- <-. exists 0%nat. rewrite take_0, app_nil_r. done.
  - assert ((ok, r) = (true, acc) /\ n = 0%nat \/ n <> 0%nat) as [[E ->]|Hn].
    { destruct n; [left|by right]. split; [by injection H as <- <-|done]. }
    { injection E as -> ->. exists 0%nat. rewrite take_0, app_nil_r. done. }
    assert (read_fd_all_at (a :: os) f off n acc = match a with
      | Interrupted => read_fd_all_at os f off n acc
      | Moved (S k) => read_fd_all_at os f (off + S k) (n - S k) (acc ++ take (S k) (drop off f))
      | _ => Some (false, acc) end) as E by (destruct n; [done|]; destruct a as [[|k]| |]; done).
    rewrite E in H. clear E. destruct a as [[|k]| |]; simpl in Hos.
    + injection H as <- <-. exists 0%nat. rewrite take_0, app_nil_r. split_and!; [lia|done|done].
    + destruct Hos as [Hk Hos]. apply IH in H as (j & Hj & -> & Hok).
      * exists (S k + j)%nat. split_and!; [lia| |intros; specialize (Hok H); lia].
        rewrite <- app_assoc. f_equal. by rewrite <- take_take_drop, drop_drop.
      * replace (Nat.min (n - S k) (length f - (off + S k)))%nat with
          (Nat.min n (length f - off) - S k)%nat by lia. done.
    + by apply IH.
    + injection H as <- <-. exists 0%nat. rewrite take_0, app_nil_r. split_and!; [lia|done|done].
Qed.

(** a read that reports success returns exactly the [n] bytes at the
    offset. *)
Theorem read_fd_all_at_bytes (os : list os_answer) (f : list Z) (off n : nat) (r : list Z) :
  os_ok (Nat.min n (length f - off)) os ->
  read_fd_all_at os f off n [] = Some (true, r) -> r = take n (drop off f).
Proof.
  intros Hos H. destruct (read_fd_all_at_acc os f off n [] true r Hos H) as (k & Hk & -> & Hok).
  by rewrite Hok.
Qed.

Lemma read_fd_all_at_bytes_witness : [2; 3] = take 2 (drop 1 [1; 2; 3]).
Proof.
  apply (read_fd_all_at_bytes [Moved 1; Interrupted; Moved 1] [1; 2; 3] 1 2); [simpl; lia|reflexivity].
Defined.

End file.
