(* ===== verification/Wal.v ===== *)
(** * Wal: the write-ahead log of [storage/_wal.hpp]

    Module [wal] holds the byte format with its parser and the writer with its
    two files. The state a writer shares through the database header and its own
    buffer are one record; every operation is a function on it. The results of
    positioned writes are inputs. *)
From S2P Require Import Prelude Serial File.

Module wal.
Import file.

(** ** Format *)

Definition BEGIN : Z := 1.
Definition PUT : Z := 2.
Definition DEL : Z := 3.
Definition PREPARE : Z := 4.
Definition COMMIT : Z := 5.

(** "LVSWAL01" *)
Definition WAL_MAGIC : list Z := [76; 86; 83; 87; 65; 76; 48; 49].
Definition WAL_HEADER_SIZE : Z := Z.of_nat (length WAL_MAGIC).

Record op_record := OpRecord { is_delete : bool; key : list Z; val : list Z }.
Record txn := Txn { txn_id : Z; ops : list op_record }.

Definition put_u32 (buf : list Z) (v : Z) : list Z :=
  buf ++ [u8 (Z.land v 255); u8 (Z.land (Z.shiftr v 8) 255);
          u8 (Z.land (Z.shiftr v 16) 255); u8 (Z.land (Z.shiftr v 24) 255)].

Definition put_u64 (buf : list Z) (v : Z) : list Z :=
  fold_left (fun b i => b ++ [u8 (Z.land (Z.shiftr v (i * 8)) 255)]) (seqZ 0 8) buf.

Definition byte_at (data : list Z) (i : Z) : Z := nth (Z.to_nat i) data 0.

(** [_wal_read_u32(&data[p])]. *)
Definition read_u32 (data : list Z) (p : Z) : Z :=
  Z.lor (Z.lor (Z.lor (byte_at data p) (Z.shiftl (byte_at data (p + 1)) 8))
    (Z.shiftl (byte_at data (p + 2)) 16)) (Z.shiftl (byte_at data (p + 3)) 24).

Definition read_u64 (data : list Z) (p : Z) : Z :=
  fold_left (fun v i => Z.lor v (Z.shiftl (byte_at data (p + i)) (i * 8))) (seqZ 0 8) 0.

Definition bytes (data : list Z) (from n : Z) : list Z := take (Z.to_nat n) (drop (Z.to_nat from) data).

(** ** Parser *)

Record parse_state := Parse {
  pos : Z;
  in_txn : bool;
  prepared : bool;
  cur : txn;
  result : list txn
}.

(** One round of the loop of [wal_parse]; [None] is [break]. The position
    advances by the 32-bit sum the source computes. *)
Definition parse_step (data : list Z) (s : parse_state) : option parse_state :=
  let n := Z.of_nat (length data) in
  let need b := pos s + b <=? n in
  let tag := byte_at data (pos s) in
  if tag =? BEGIN then
    if negb (need (1 + 4)) then None
    else Some (Parse (pos s + 5) true false (Txn (read_u32 data (pos s + 1)) []) (result s))
  else if tag =? PUT then
    if negb (in_txn s) || negb (need (1 + 8)) then None
    else
      let ksz := read_u32 data (pos s + 1) in
      let vsz := read_u32 data (pos s + 5) in
      if negb (need (1 + 8 + ksz + vsz)) then None
      else
        let op := OpRecord false (bytes data (pos s + 9) ksz) (bytes data (pos s + 9 + ksz) vsz) in
        Some (Parse (pos s + u32 (1 + 8 + ksz + vsz)) (in_txn s) (prepared s)
          (Txn (txn_id (cur s)) (ops (cur s) ++ [op])) (result s))
  else if tag =? DEL then
    if negb (in_txn s) || negb (need (1 + 4)) then None
    else
      let ksz := read_u32 data (pos s + 1) in
      if negb (need (1 + 4 + ksz)) then None
      else
        let op := OpRecord true (bytes data (pos s + 5) ksz) [] in
        Some (Parse (pos s + u32 (1 + 4 + ksz)) (in_txn s) (prepared s)
          (Txn (txn_id (cur s)) (ops (cur s) ++ [op])) (result s))
  else if tag =? PREPARE then
    if negb (in_txn s) then None
    else Some (Parse (pos s + 1) (in_txn s) true (cur s) (result s))
  else if tag =? COMMIT then
    if negb (in_txn s) then None
    else Some (Parse (pos s + 1) false false (cur s)
           (if prepared s then result s ++ [cur s] else result s))
  else None.

(** The loop; [None] when [fuel] rounds are not enough. *)
Fixpoint parse_loop (fuel : nat) (data : list Z) (s : parse_state) : option parse_state :=
  if pos s <? Z.of_nat (length data) then
    match fuel with
    | O => None
    | S fuel' =>
        match parse_step data s with
        | None => Some s
        | Some s' => parse_loop fuel' data s'
        end
    end
  else Some s.

(** [wal_parse]: appends the replayable transactions of one file to [result] and
    overwrites [dangling] if the file ends in a prepared one. [file] is [None]
    when the file cannot be opened or read. *)
Definition wal_parse (file : option (list Z)) (result_ : list txn) (dangling : txn)
    : option (list txn * txn) :=
  match file with
  | None => Some (result_, dangling)
  | Some data =>
      if Z.of_nat (length data) <? WAL_HEADER_SIZE then Some (result_, dangling)
      else if negb (bool_decide (take (length WAL_MAGIC) data = WAL_MAGIC)) then
        Some (result_, dangling)
      else
        match parse_loop (length data) data (Parse WAL_HEADER_SIZE false false (Txn 0 []) result_) with
        | None => None
        | Some s =>
            Some (result s, if in_txn s && prepared s then cur s else dangling)
        end
  end.

(** [std::sort] by transaction id, as an insertion sort: the order of equal ids is
    not specified. *)
Fixpoint insert_txn (t : txn) (l : list txn) : list txn :=
  match l with
  | [] => [t]
  | u :: l' =>
      if serial.ltb 32 (serial.Serial (txn_id t)) (serial.Serial (txn_id u)) then t :: l
      else u :: insert_txn t l'
  end.

Definition sort_txns (l : list txn) : list txn := foldr insert_txn [] l.

(** ** Writer *)

Record writer := Writer {
  is_open : bool;
  files : Z -> option (list Z);
  write_off : Z -> Z;
  next_log : Z;
  active_log : Z;
  last_commit : Z -> Z;
  buf : list Z;
  has_records : bool;
  prepared_ : bool
}.

Definition content (w : writer) (idx : Z) : list Z := default [] (files w idx).

(** [parse(base_path, out, dangling)]. *)
Definition parse (w : writer) (out : list txn) (dangling : txn) : option (list txn * txn) :=
  match wal_parse (files w 0) out dangling with
  | None => None
  | Some (out, dangling) =>
      match wal_parse (files w 1) out dangling with
      | None => None
      | Some (out, dangling) => Some (sort_txns out, dangling)
      end
  end.

(** [_wal_truncate(fd, 0)] followed by the magic; a failed truncation is ignored. *)
Definition clear_file (truncated : bool) (r : write_result) (f : list Z) : list Z :=
  snd (pwrite r (if truncated then [] else f) 0 WAL_MAGIC).

Definition init_file (w : writer) (idx : Z) (truncated : bool) (r : write_result) : writer :=
  let size := Z.of_nat (length (content w idx)) in
  if size <? WAL_HEADER_SIZE then
    Writer (is_open w) (upd (files w) idx (Some (clear_file truncated r (content w idx))))
      (upd (write_off w) idx WAL_HEADER_SIZE) (next_log w) (active_log w) (last_commit w)
      (buf w) (has_records w) (prepared_ w)
  else
    Writer (is_open w) (files w) (upd (write_off w) idx size) (next_log w) (active_log w)
      (last_commit w) (buf w) (has_records w) (prepared_ w).

(** [open]: [can_open i] tells whether file [i] can be opened (it is created if
    it is missing); a failure closes what was opened. *)
Definition open_one (can_open : Z -> bool) (io : Z -> bool * write_result) (w : option writer) (i : Z)
    : option writer :=
  match w with
  | None => None
  | Some w =>
      if can_open i then
        let w := Writer (is_open w) (upd (files w) i (Some (content w i))) (write_off w)
                   (next_log w) (active_log w) (last_commit w) (buf w) (has_records w) (prepared_ w) in
        Some (init_file w i (fst (io i)) (snd (io i)))
      else None
  end.

Definition open (can_open : Z -> bool) (io : Z -> bool * write_result) (w : writer) : option writer :=
  match fold_left (open_one can_open io) [0; 1] (Some w) with
  | None => None
  | Some w =>
      Some (Writer true (files w) (write_off w) 0 0 (fun _ => 0) (buf w) (has_records w) (prepared_ w))
  end.

Definition active_data_size (w : writer) : Z := write_off w (active_log w) - WAL_HEADER_SIZE.

Definition begin (txn_id_ : Z) (w : writer) : writer :=
  let idx := next_log w in
  Writer (is_open w) (files w) (write_off w) (next_log w) idx
    (upd (last_commit w) idx txn_id_) (put_u32 ([] ++ [BEGIN]) txn_id_) false false.

Definition put (k v : list Z) (w : writer) : writer :=
  let b := buf w ++ [PUT] in
  let b := put_u32 b (u32 (Z.of_nat (length k))) in
  let b := put_u32 b (u32 (Z.of_nat (length v))) in
  Writer (is_open w) (files w) (write_off w) (next_log w) (active_log w) (last_commit w)
    (b ++ k ++ v) true (prepared_ w).

Definition del (k : list Z) (w : writer) : writer :=
  let b := buf w ++ [DEL] in
  let b := put_u32 b (u32 (Z.of_nat (length k))) in
  Writer (is_open w) (files w) (write_off w) (next_log w) (active_log w) (last_commit w)
    (b ++ k) true (prepared_ w).

Inductive error := WalError.

Definition set_buf (w : writer) (b : list Z) : writer :=
  Writer (is_open w) (files w) (write_off w) (next_log w) (active_log w) (last_commit w)
    b (has_records w) (prepared_ w).

(** [_wal_pwrite] at [write_off[idx]]; on success the offset advances. *)
Definition append (r : write_result) (data : list Z) (w : writer) : (writer + writer * error) :=
  let idx := active_log w in
  let '(ok, f) := pwrite r (content w idx) (Z.to_nat (write_off w idx)) data in
  let fs := upd (files w) idx (Some f) in
  if ok then
    inl (Writer (is_open w) fs
      (upd (write_off w) idx (write_off w idx + Z.of_nat (length data)))
      (next_log w) (active_log w) (last_commit w) (buf w) (has_records w) (prepared_ w))
  else
    inr (Writer (is_open w) fs (write_off w) (next_log w) (active_log w) (last_commit w)
      (buf w) (has_records w) (prepared_ w), WalError).

Definition set_prepared (w : writer) : writer :=
  Writer (is_open w) (files w) (write_off w) (next_log w) (active_log w) (last_commit w)
    [] (has_records w) true.

Definition prepare (r : write_result) (w : writer) : (writer + writer * error) :=
  if prepared_ w then inl w
  else if negb (has_records w) then inl (set_prepared w)
  else
    let w := set_buf w (buf w ++ [PREPARE]) in
    match append r (buf w) w with
    | inl w => inl (set_prepared w)
    | inr e => inr e
    end.

Definition commit (r : write_result) (w : writer) : (writer + writer * error) :=
  if negb (has_records w) then inl (set_buf w [])
  else append r [COMMIT] w.

Definition abort (w : writer) : writer :=
  Writer (is_open w) (files w) (write_off w) (next_log w) (active_log w) (last_commit w)
    [] false false.

Definition truncate (idx : Z) (truncated : bool) (r : write_result) (w : writer) : writer :=
  Writer (is_open w) (upd (files w) idx (Some (clear_file truncated r (content w idx))))
    (upd (write_off w) idx WAL_HEADER_SIZE) (next_log w) (active_log w) (last_commit w)
    (buf w) (has_records w) (prepared_ w).

Definition reset (w : writer) : writer :=
  Writer (is_open w) (upd (upd (files w) 0 None) 1 None) (write_off w) (next_log w) (active_log w)
    (last_commit w) (buf w) (has_records w) (prepared_ w).

Definition close (w : writer) : writer :=
  if negb (is_open w) then w
  else Writer false (files w) (write_off w) (next_log w) (active_log w) (last_commit w)
         (buf w) (has_records w) (prepared_ w).

(** [flushed(txn_id)] is two steps for a concurrent writer: the test, which picks
    the file, and the truncation. *)
Definition flushed_test (txn_id_ : Z) (w : writer) : option Z :=
  let idx := 1 - active_log w in
  if serial.leb 32 (serial.Serial (last_commit w idx)) (serial.Serial txn_id_) then Some idx else None.

Definition flushed_clear (idx : Z) (truncated : bool) (r : write_result) (w : writer) : writer :=
  Writer (is_open w) (upd (files w) idx (Some (clear_file truncated r (content w idx))))
    (upd (write_off w) idx WAL_HEADER_SIZE) idx (active_log w) (upd (last_commit w) idx 0)
    (buf w) (has_records w) (prepared_ w).

Definition flushed (txn_id_ : Z) (truncated : bool) (r : write_result) (w : writer) : writer :=
  match flushed_test txn_id_ w with
  | Some idx => flushed_clear idx truncated r w
  | None => w
  end.

(** ** The log as a list of records

    The reference view of a log file: the records it holds, their encoding, and
    the state machine of the parser on whole records. *)

Inductive record :=
  | RBegin (id : Z) | RPut (k v : list Z) | RDel (k : list Z) | RPrepare | RCommit.

Definition u32_bytes (v : Z) : list Z := put_u32 [] v.

Definition encode (r : record) : list Z :=
  match r with
  | RBegin id => [BEGIN] ++ u32_bytes id
  | RPut k v => [PUT] ++ u32_bytes (Z.of_nat (length k)) ++ u32_bytes (Z.of_nat (length v)) ++ k ++ v
  | RDel k => [DEL] ++ u32_bytes (Z.of_nat (length k)) ++ k
  | RPrepare => [PREPARE]
  | RCommit => [COMMIT]
  end.

Definition encode_all (rs : list record) : list Z := flat_map encode rs.

(** The records fit the 32-bit arithmetic of the format. *)
Definition fits (r : record) : Prop :=
  match r with
  | RBegin id => 0 <= id < 2 ^ 32
  | RPut k v => 9 + Z.of_nat (length k) + Z.of_nat (length v) < 2 ^ 32
  | RDel k => 5 + Z.of_nat (length k) < 2 ^ 32
  | _ => True
  end.

Record log_state := LogState { l_in : bool; l_prep : bool; l_cur : txn; l_result : list txn }.

Definition accept (s : log_state) (r : record) : option log_state :=
  match r with
  | RBegin id => Some (LogState true false (Txn id []) (l_result s))
  | _ =>
      if l_in s then
        match r with
        | RPut k v => Some (LogState true (l_prep s)
            (Txn (txn_id (l_cur s)) (ops (l_cur s) ++ [OpRecord false k v])) (l_result s))
        | RDel k => Some (LogState true (l_prep s)
            (Txn (txn_id (l_cur s)) (ops (l_cur s) ++ [OpRecord true k []])) (l_result s))
        | RPrepare => Some (LogState true true (l_cur s) (l_result s))
        | _ => Some (LogState false false (l_cur s)
            (if l_prep s then l_result s ++ [l_cur s] else l_result s))
        end
      else None
  end.

Fixpoint accept_all (s : log_state) (rs : list record) : option log_state :=
  match rs with
  | [] => Some s
  | r :: rs' => match accept s r with Some s' => accept_all s' rs' | None => None end
  end.

Definition at_pos (p : Z) (s : log_state) : parse_state :=
  Parse p (l_in s) (l_prep s) (l_cur s) (l_result s).

(** ** Lemmas on the byte format *)

Lemma byte_piece v k i :
  0 <= k -> 0 <= i -> Z.testbit (u8 (Z.land (Z.shiftr v k) 255)) i = (i <? 8) && Z.testbit v (i + k).
Proof.
  intros. rewrite testbit_wrap, Z.land_spec, Z.shiftr_spec by lia. change 255 with (Z.ones 8).
  destruct (Z.ltb_spec i 8); [|done]. rewrite Z.ones_spec_low by lia. by rewrite andb_true_r.
Qed.

Lemma read_u32_bytes v x : 0 <= v < 2 ^ 32 -> read_u32 (u32_bytes v ++ x) 0 = v.
Proof.
  intros Hv. unfold read_u32, byte_at, u32_bytes, put_u32.
  change (Z.to_nat 0) with 0%nat. change (Z.to_nat (0 + 1)) with 1%nat.
  change (Z.to_nat (0 + 2)) with 2%nat. change (Z.to_nat (0 + 3)) with 3%nat. cbn [app nth].
  apply Z.bits_inj'. intros i Hi. rewrite !Z.lor_spec.
  assert (forall k, 0 <= k -> Z.testbit (Z.shiftl (u8 (Z.land (Z.shiftr v k) 255)) k) i =
    (k <=? i) && (i <? k + 8) && Z.testbit v i) as E.
  { intros k Hk. destruct (Z.leb_spec k i).
    - rewrite Z.shiftl_spec, byte_piece by lia. replace (i - k + k) with i by lia.
      destruct (Z.ltb_spec (i - k) 8), (Z.ltb_spec i (k + 8)); lia || done.
    - by rewrite Z.shiftl_spec_low by lia. }
  rewrite !E by lia. rewrite <- (Z.shiftl_0_r (u8 (Z.land v 255))).
  replace (Z.land v 255) with (Z.land (Z.shiftr v 0) 255) by (by rewrite Z.shiftr_0_r). rewrite E by lia.
  destruct (Z.lt_ge_cases i 32); [|by rewrite (testbit_high 32 v), !andb_false_r by lia].
  destruct (Z.testbit v i); rewrite ?andb_true_r, ?andb_false_r; [|done]. zcases; lia || done.
Qed.

Lemma u32_bytes_length v : length (u32_bytes v) = 4%nat.
Proof. done. Qed.

Lemma byte_at_app pre rest i : 0 <= i -> byte_at (pre ++ rest) (Z.of_nat (length pre) + i) = byte_at rest i.
Proof. intros. unfold byte_at. rewrite app_nth2 by lia. f_equal. lia. Qed.

Lemma read_u32_app pre rest i :
  0 <= i -> read_u32 (pre ++ rest) (Z.of_nat (length pre) + i) = read_u32 rest i.
Proof. intros. unfold read_u32. rewrite <- !Z.add_assoc, !byte_at_app by lia. done. Qed.

Lemma bytes_app pre rest i n :
  0 <= i -> bytes (pre ++ rest) (Z.of_nat (length pre) + i) n = bytes rest i n.
Proof. intros. unfold bytes. rewrite drop_app_ge by lia. do 2 f_equal. lia. Qed.

Lemma read_u32_nonneg d i : Forall (fun b => 0 <= b) d -> 0 <= read_u32 d i.
Proof.
  intros H. assert (forall j, 0 <= byte_at d j) as B.
  { intros j. unfold byte_at. destruct (nth_in_or_default (Z.to_nat j) d 0) as [Hin|E]; [|lia].
    exact (proj1 (Forall_forall _ _) H _ Hin). }
  unfold read_u32. rewrite !Z.lor_nonneg, !Z.shiftl_nonneg. auto.
Qed.

(** The step depends only on the bytes from the position on. *)
Lemma parse_step_app pre rest s :
  Forall (fun b => 0 <= b) rest ->
  parse_step (pre ++ rest) (at_pos (Z.of_nat (length pre)) s) =
  match parse_step rest (at_pos 0 s) with
  | Some t => Some (Parse (Z.of_nat (length pre) + pos t) (in_txn t) (prepared t) (cur t) (result t))
  | None => None
  end.
Proof.
  intros Hb. unfold parse_step, at_pos. cbn [pos in_txn prepared cur result].
  assert (forall b, (Z.of_nat (length pre) + b <=? Z.of_nat (length (pre ++ rest))) =
    (0 + b <=? Z.of_nat (length rest))) as N.
  { intros b. rewrite length_app. destruct (Z.leb_spec (0 + b) (Z.of_nat (length rest))); zbits. }
  rewrite !N. replace (byte_at (pre ++ rest) (Z.of_nat (length pre))) with (byte_at rest 0).
  2:{ rewrite <- (byte_at_app pre rest 0) by lia. f_equal. lia. }
  rewrite !read_u32_app by lia.
  pose proof (read_u32_nonneg rest 1 Hb). rewrite <- !(Z.add_assoc _ 9), !bytes_app by lia.
  rewrite !Z.add_assoc, !Z.add_0_l.
  repeat match goal with
  | |- context [if ?c then _ else _] =>
      lazymatch c with context [if _ then _ else _] => fail | _ => destruct c end
  end; try done; do 2 f_equal; lia.
Qed.

Lemma encode_length r : (0 < length (encode r))%nat.
Proof. destruct r; simpl; lia. Qed.

(** A field at a known distance from the start. *)
Lemma read_u32_at pre v x : 0 <= v < 2 ^ 32 ->
  read_u32 (pre ++ u32_bytes v ++ x) (Z.of_nat (length pre)) = v.
Proof.
  intros. rewrite <- (Z.add_0_r (Z.of_nat _)), read_u32_app by lia. by apply read_u32_bytes.
Qed.

Lemma bytes_at pre k x : bytes (pre ++ k ++ x) (Z.of_nat (length pre)) (Z.of_nat (length k)) = k.
Proof.
  unfold bytes. rewrite !Nat2Z.id, drop_app_length. by rewrite take_app_length.
Qed.

(** A PUT record is read back whole whatever its size; the position advances by
    its size modulo 2^32. *)
Lemma parse_put k v post s :
  Z.of_nat (length k) < 2 ^ 32 -> Z.of_nat (length v) < 2 ^ 32 ->
  parse_step (encode (RPut k v) ++ post) (at_pos 0 s) =
  if l_in s then
    Some (Parse (u32 (Z.of_nat (length (encode (RPut k v))))) true (l_prep s)
      (Txn (txn_id (l_cur s)) (ops (l_cur s) ++ [OpRecord false k v])) (l_result s))
  else None.
Proof.
  intros Fk Fv. unfold parse_step, at_pos. cbn [pos in_txn prepared cur result encode].
  set (ks := Z.of_nat (length k)) in *. set (vs := Z.of_nat (length v)) in *.
  set (d := ([PUT] ++ _) ++ post).
  assert (d = [PUT] ++ u32_bytes ks ++ u32_bytes vs ++ k ++ v ++ post) as Ed.
  { unfold d. by rewrite <- !app_assoc. }
  assert (Z.of_nat (length d) = 9 + ks + vs + Z.of_nat (length post)) as El.
  { rewrite Ed, !length_app, !u32_bytes_length. simpl length. lia. }
  assert (read_u32 d (0 + 1) = ks) as ->.
  { rewrite Ed. apply (read_u32_at [PUT]). lia. }
  assert (read_u32 d (0 + 5) = vs) as ->.
  { rewrite Ed. rewrite (app_assoc [PUT]). apply (read_u32_at ([PUT] ++ u32_bytes ks)). lia. }
  assert (bytes d (0 + 9) ks = k) as ->.
  { rewrite Ed. rewrite !(app_assoc _ _ (k ++ _)).
    apply (bytes_at (([PUT] ++ u32_bytes ks) ++ u32_bytes vs)). }
  assert (bytes d (0 + 9 + ks) vs = v) as ->.
  { rewrite Ed. rewrite !(app_assoc _ _ (v ++ _)), !(app_assoc _ _ k).
    replace (0 + 9 + ks) with (Z.of_nat (length ((([PUT] ++ u32_bytes ks) ++ u32_bytes vs) ++ k))).
    - apply bytes_at.
    - rewrite !length_app, !u32_bytes_length. simpl length. lia. }
  rewrite El. assert (byte_at d 0 = PUT) as -> by (by rewrite Ed).
  simpl (PUT =? BEGIN). simpl (PUT =? PUT). cbv iota.
  destruct (Z.leb_spec (0 + (1 + 8)) (9 + ks + vs + Z.of_nat (length post))); [|lia].
  destruct (Z.leb_spec (0 + (1 + 8 + ks + vs)) (9 + ks + vs + Z.of_nat (length post))); [|lia].
  destruct (l_in s); [|done]. simpl orb. simpl negb. cbv iota. do 2 f_equal.
  rewrite Z.add_0_l. f_equal. rewrite !length_app, !u32_bytes_length. simpl length. lia.
Qed.

Lemma parse_encode r post s :
  fits r ->
  parse_step (encode r ++ post) (at_pos 0 s) =
  match accept s r with
  | Some s' => Some (at_pos (Z.of_nat (length (encode r))) s')
  | None => None
  end.
Proof.
  intros F. change (2 ^ 32) with 4294967296 in *.
  destruct r as [id|k v|k| |]; cbn [accept fits] in *.
  2:{ assert (Z.of_nat (length (encode (RPut k v))) =
        9 + Z.of_nat (length k) + Z.of_nat (length v)) as El.
      { cbn [encode]. rewrite !length_app, !u32_bytes_length. simpl length. lia. }
      rewrite parse_put, El, wrap_small by (change (2 ^ 32) with 4294967296; lia).
      by destruct (l_in s). }
  all: unfold parse_step, at_pos; cbn [pos in_txn prepared cur result encode].
  - assert (read_u32 (([BEGIN] ++ u32_bytes id) ++ post) (0 + 1) = id) as ->
      by (apply (read_u32_at [BEGIN]); lia).
    assert ((0 + (1 + 4) <=? Z.of_nat (length (([BEGIN] ++ u32_bytes id) ++ post))) = true) as ->.
    { apply Z.leb_le. rewrite !length_app, u32_bytes_length. simpl length. lia. }
    done.
  - set (ks := Z.of_nat (length k)) in *. set (d := ([DEL] ++ _) ++ post).
    assert (d = [DEL] ++ u32_bytes ks ++ k ++ post) as Ed.
    { unfold d. by rewrite <- !app_assoc. }
    assert (Z.of_nat (length d) = 5 + ks + Z.of_nat (length post)) as El.
    { rewrite Ed, !length_app, !u32_bytes_length. simpl length. lia. }
    assert (read_u32 d (0 + 1) = ks) as ->.
    { rewrite Ed. apply (read_u32_at [DEL]). lia. }
    assert (bytes d (0 + 5) ks = k) as ->.
    { rewrite Ed. rewrite (app_assoc [DEL]). apply (bytes_at ([DEL] ++ u32_bytes ks)). }
    rewrite El. assert (byte_at d 0 = DEL) as -> by (by rewrite Ed).
    simpl (DEL =? BEGIN). simpl (DEL =? PUT). simpl (DEL =? DEL). cbv iota.
    destruct (Z.leb_spec (0 + (1 + 4)) (5 + ks + Z.of_nat (length post))); [|lia].
    destruct (Z.leb_spec (0 + (1 + 4 + ks)) (5 + ks + Z.of_nat (length post))); [|lia].
    destruct (l_in s); [|done]. simpl orb. simpl negb. cbv iota. unfold at_pos. simpl l_in.
    do 2 f_equal. rewrite wrap_small by lia.
    rewrite !length_app, !u32_bytes_length. simpl length. lia.
  - simpl. by destruct (l_in s).
  - simpl. by destruct (l_in s).
Qed.

(** A record that is cut short ends the parse. *)
Lemma parse_cut r tail rest s :
  fits r -> encode r = tail ++ rest -> tail <> [] -> rest <> [] ->
  parse_step tail (at_pos 0 s) = None.
Proof.
  intros F E Ht Hr. change (2 ^ 32) with 4294967296 in *. unfold parse_step, at_pos.
  cbn [pos in_txn prepared cur result].
  assert (length (encode r) = length tail + length rest)%nat as El by (by rewrite E, length_app).
  assert (0 < length rest)%nat by (destruct rest; simpl; [done|lia]).
  assert (byte_at tail 0 = byte_at (encode r) 0) as Eb by (rewrite E; by destruct tail).
  assert (forall i, 0 <= i -> i + 4 <= Z.of_nat (length tail) -> read_u32 tail i = read_u32 (encode r) i) as Er.
  { intros i Hi Hl. rewrite E. unfold read_u32, byte_at. by rewrite !app_nth1 by lia. }
  rewrite Eb. destruct r as [id|k v|k| |]; cbn [encode fits] in *.
  - rewrite !length_app, u32_bytes_length in El. simpl length in El. simpl (byte_at _ 0).
    destruct (Z.leb_spec (0 + (1 + 4)) (Z.of_nat (length tail))); [lia|done].
  - set (ks := Z.of_nat (length k)) in *. set (vs := Z.of_nat (length v)) in *.
    rewrite !length_app, !u32_bytes_length in El. simpl length in El. simpl (byte_at _ 0).
    simpl (PUT =? BEGIN). simpl (PUT =? PUT). cbv iota.
    destruct (Z.leb_spec (0 + (1 + 8)) (Z.of_nat (length tail))); [|by rewrite orb_true_r].
    rewrite !Er by lia. set (d := [PUT] ++ _).
    assert (read_u32 d (0 + 1) = ks) as -> by (apply (read_u32_at [PUT]); lia).
    assert (read_u32 d (0 + 5) = vs) as ->.
    { unfold d. rewrite (app_assoc [PUT]). apply (read_u32_at ([PUT] ++ u32_bytes ks)). lia. }
    destruct (Z.leb_spec (0 + (1 + 8 + ks + vs)) (Z.of_nat (length tail))); [lia|]. by destruct (l_in s).
  - set (ks := Z.of_nat (length k)) in *.
    rewrite !length_app, !u32_bytes_length in El. simpl length in El. simpl (byte_at _ 0).
    simpl (DEL =? BEGIN). simpl (DEL =? PUT). simpl (DEL =? DEL). cbv iota.
    destruct (Z.leb_spec (0 + (1 + 4)) (Z.of_nat (length tail))); [|by rewrite orb_true_r].
    rewrite !Er by lia. set (d := [DEL] ++ _).
    assert (read_u32 d (0 + 1) = ks) as -> by (apply (read_u32_at [DEL]); lia).
    destruct (Z.leb_spec (0 + (1 + 4 + ks)) (Z.of_nat (length tail))); [lia|]. by destruct (l_in s).
  - destruct tail; [done|]. simpl in El. lia.
  - destruct tail; [done|]. simpl in El. lia.
Qed.

(** ** The loop *)

Lemma encode_all_app a b : encode_all (a ++ b) = encode_all a ++ encode_all b.
Proof. apply flat_map_app. Qed.

Lemma parse_loop_accept rs pre tail s s' fuel :
  Forall fits rs -> Forall (fun b => 0 <= b) (encode_all rs ++ tail) ->
  accept_all s rs = Some s' -> (length rs <= fuel)%nat ->
  parse_loop fuel (pre ++ encode_all rs ++ tail) (at_pos (Z.of_nat (length pre)) s) =
  parse_loop (fuel - length rs) (pre ++ encode_all rs ++ tail)
    (at_pos (Z.of_nat (length (pre ++ encode_all rs))) s').
Proof.
  revert pre s fuel. induction rs as [|r rs IH]; intros pre s fuel Hf Hb Ha Hl.
  - injection Ha as ->. simpl. by rewrite app_nil_r, Nat.sub_0_r.
  - simpl in Hl. destruct fuel as [|fuel]; [lia|]. simpl in Ha. inversion Hf as [|? ? F Fs]; subst.
    destruct (accept s r) as [s1|] eqn:A; [|done].
    change (encode_all (r :: rs)) with (encode r ++ encode_all rs) in *. rewrite <- app_assoc in *.
    cbn [parse_loop]. pose proof (encode_length r).
    destruct (Z.ltb_spec (pos (at_pos (Z.of_nat (length pre)) s))
      (Z.of_nat (length (pre ++ encode r ++ encode_all rs ++ tail)))) as [_|Hlt].
    2:{ exfalso. unfold at_pos in Hlt. cbn [pos] in Hlt. rewrite !length_app in Hlt. lia. }
    rewrite parse_step_app, parse_encode, A by done. unfold at_pos at 1. cbn [pos in_txn prepared cur result].
    apply Forall_app in Hb as [_ Hb].
    specialize (IH (pre ++ encode r) s1 fuel Fs Hb Ha ltac:(lia)).
    rewrite <- !app_assoc in IH. simpl Nat.sub. rewrite <- IH. f_equal. unfold at_pos. f_equal.
    rewrite length_app. lia.
Qed.

(** What a crash leaves of an encoded log: some whole records and a part of the
    next one. *)
Definition torn (rs2 : list record) (tail : list Z) : Prop :=
  tail = [] \/ exists r rest rs', rs2 = r :: rs' /\ encode r = tail ++ rest /\ tail <> [] /\ rest <> [].

Lemma take_encode rs k : exists rs1 rs2 tail,
  rs = rs1 ++ rs2 /\ take k (encode_all rs) = encode_all rs1 ++ tail /\ torn rs2 tail /\
  (length tail < match rs2 with r :: _ => length (encode r) | [] => 1 end)%nat.
Proof.
  revert k. induction rs as [|r rs IH]; intros k.
  - exists [], [], []. change (encode_all []) with (@nil Z). rewrite take_nil. split_and!; [done|done|by left|simpl; lia].
  - change (encode_all (r :: rs)) with (encode r ++ encode_all rs).
    pose proof (encode_length r). destruct (Nat.le_gt_cases (length (encode r)) k) as [Hk|Hk].
    + destruct (IH (k - length (encode r))%nat) as (rs1 & rs2 & tail & -> & E & T & L).
      exists (r :: rs1), rs2, tail. rewrite take_app_ge, E by done.
      split_and!; [done| |done|done]. change (encode_all (r :: rs1)) with (encode r ++ encode_all rs1).
      by rewrite app_assoc.
    + exists [], (r :: rs), (take k (encode r)). rewrite take_app_le by lia.
      split_and!; [done|done| |rewrite length_take; lia].
      destruct (decide (k = 0%nat)) as [->|Hk0]; [by left; rewrite take_0|right].
      exists r, (drop k (encode r)), rs. rewrite take_drop. split_and!; try done.
      * intros E. apply (f_equal length) in E. rewrite length_take in E. simpl in E. lia.
      * intros E. apply (f_equal length) in E. rewrite length_drop in E. simpl in E. lia.
Qed.

Lemma parse_loop_torn rs1 rs2 pre tail s s' fuel :
  Forall fits (rs1 ++ rs2) -> Forall (fun b => 0 <= b) (encode_all rs1 ++ tail) ->
  accept_all s rs1 = Some s' -> torn rs2 tail -> (length (encode_all rs1 ++ tail) <= fuel)%nat ->
  parse_loop fuel (pre ++ encode_all rs1 ++ tail) (at_pos (Z.of_nat (length pre)) s) =
  Some (at_pos (Z.of_nat (length (pre ++ encode_all rs1))) s').
Proof.
  intros Hf Hb Ha Ht Hl. apply Forall_app in Hf as [Hf1 Hf2].
  assert (length rs1 <= length (encode_all rs1))%nat as L1.
  { clear. induction rs1 as [|r rs1 IH]; [done|].
    change (encode_all (r :: rs1)) with (encode r ++ encode_all rs1).
    rewrite length_app. pose proof (encode_length r). simpl. lia. }
  rewrite length_app in Hl.
  rewrite (parse_loop_accept rs1 pre tail s s') by (done || lia).
  set (f := (fuel - length rs1)%nat).
  destruct Ht as [->|(r & rest & rs' & -> & E & Hne & Hr)].
  - rewrite app_nil_r. destruct f; cbn [parse_loop];
      (destruct (Z.ltb_spec (pos (at_pos (Z.of_nat (length (pre ++ encode_all rs1))) s'))
        (Z.of_nat (length (pre ++ encode_all rs1)))) as [Hlt|_]; [|done]);
      unfold at_pos in Hlt; cbn [pos] in Hlt; lia.
  - assert (0 < length tail)%nat by (destruct tail; simpl; [done|lia]).
    destruct f as [|f'] eqn:Ef; [unfold f in Ef; lia|]. cbn [parse_loop].
    destruct (Z.ltb_spec (pos (at_pos (Z.of_nat (length (pre ++ encode_all rs1))) s'))
      (Z.of_nat (length (pre ++ encode_all rs1 ++ tail)))) as [_|Hlt].
    2:{ exfalso. unfold at_pos in Hlt. cbn [pos] in Hlt. rewrite !length_app in Hlt. lia. }
    rewrite app_assoc. apply Forall_app in Hb as [_ Hb]. rewrite parse_step_app by done.
    inversion Hf2; subst. by rewrite (parse_cut r tail rest).
Qed.

(** ** Logs of transactions *)

Definition op_rec (o : op_record) : record :=
  if is_delete o then RDel (key o) else RPut (key o) (val o).

(** The records a committed transaction leaves. *)
Definition block (t : txn) : list record :=
  RBegin (txn_id t) :: map op_rec (ops t) ++ [RPrepare; RCommit].

Definition op_ok (o : op_record) : Prop :=
  fits (op_rec o) /\ Forall (fun b => 0 <= b) (key o) /\ Forall (fun b => 0 <= b) (val o) /\
  (is_delete o = true -> val o = []).

Definition txn_ok (t : txn) : Prop := 0 <= txn_id t < 2 ^ 32 /\ Forall op_ok (ops t).

Definition log (ts : list txn) : list Z := WAL_MAGIC ++ encode_all (flat_map block ts).

Definition log_size (ts : list txn) : nat := length (log ts).

Lemma accept_ops os s :
  Forall op_ok os -> l_in s = true ->
  accept_all s (map op_rec os) =
  Some (LogState true (l_prep s) (Txn (txn_id (l_cur s)) (ops (l_cur s) ++ os)) (l_result s)).
Proof.
  revert s. induction os as [|o os IH]; intros s Hok Hi.
  - simpl. rewrite app_nil_r. destruct s as [i p [id o] r]. simpl in *. by subst.
  - inversion Hok as [|? ? (F & _ & _ & D) Hos]; subst. simpl.
    assert (accept s (op_rec o) = Some (LogState true (l_prep s)
      (Txn (txn_id (l_cur s)) (ops (l_cur s) ++ [o])) (l_result s))) as ->.
    { unfold op_rec. destruct o as [[] k v]; simpl in *; rewrite Hi; [by rewrite D|done]. }
    rewrite IH by done. simpl. by rewrite <- app_assoc.
Qed.

Lemma accept_all_app s a b :
  accept_all s (a ++ b) = match accept_all s a with Some s' => accept_all s' b | None => None end.
Proof.
  revert s. induction a as [|r a IH]; intros s; [done|]. simpl. destruct (accept s r); [apply IH|done].
Qed.

Lemma accept_block t s : txn_ok t ->
  accept_all s (block t) = Some (LogState false false t (l_result s ++ [t])).
Proof.
  intros [_ Ho]. unfold block. simpl. rewrite accept_all_app, accept_ops by done. simpl.
  by destruct t.
Qed.

Lemma accept_blocks ts s : Forall txn_ok ts -> l_in s = false ->
  exists s', accept_all s (flat_map block ts) = Some s' /\ l_in s' = false /\
    l_result s' = l_result s ++ ts.
Proof.
  revert s. induction ts as [|t ts IH]; intros s Hok Hi.
  - exists s. simpl. by rewrite app_nil_r.
  - inversion Hok; subst. change (flat_map block (t :: ts)) with (block t ++ flat_map block ts).
    rewrite accept_all_app, accept_block by done.
    destruct (IH (LogState false false t (l_result s ++ [t]))) as (s' & -> & I & R); [done|done|].
    exists s'. split_and!; [done|done|]. rewrite R. simpl. by rewrite <- app_assoc.
Qed.

(** A prefix of the records: whole blocks, then a part of one. *)
Lemma split_blocks ts rs1 rs2 : flat_map block ts = rs1 ++ rs2 ->
  exists j part rest, rs1 = flat_map block (take j ts) ++ part /\ (j <= length ts)%nat /\
    ((j = length ts /\ part = [] /\ rs2 = []) \/
     exists t, ts !! j = Some t /\ block t = part ++ rest /\ rest <> [] /\
       rs2 = rest ++ flat_map block (drop (S j) ts)).
Proof.
  revert rs1. induction ts as [|t ts IH]; intros rs1 E.
  - symmetry in E. apply app_eq_nil in E as [-> ->]. exists 0%nat, [], []. split_and!; [done|done|by left].
  - change (flat_map block (t :: ts)) with (block t ++ flat_map block ts) in E.
    destruct (Nat.le_gt_cases (length (block t)) (length rs1)) as [Hl|Hl].
    + assert (rs1 = block t ++ drop (length (block t)) rs1) as E1.
      { rewrite <- (take_drop (length (block t)) rs1) at 1. f_equal.
        apply (f_equal (take (length (block t)))) in E. rewrite take_app_length in E.
        by rewrite take_app_le in E by done. }
      rewrite E1, <- app_assoc in E. apply app_inv_head in E.
      destruct (IH _ E) as (j & part & rest & Er & Hj & Hc). exists (S j), part, rest.
      split_and!; [|simpl; lia|].
      * rewrite E1, Er. change (flat_map block (take (S j) (t :: ts))) with
          (block t ++ flat_map block (take j ts)). by rewrite app_assoc.
      * destruct Hc as [(-> & -> & ->)|Hc]; [left; split_and!; done|right]. exact Hc.
    + exists 0%nat, rs1, (drop (length rs1) (block t)). split_and!; [done|simpl; lia|]. right.
      exists t. assert (rs1 = take (length rs1) (block t)) as E1.
      { apply (f_equal (take (length rs1))) in E. rewrite take_app_length in E.
        by rewrite take_app_le in E by lia. }
      split_and!; [done| | |].
      * rewrite E1 at 1. by rewrite take_drop.
      * intros En. apply (f_equal length) in En. rewrite length_drop in En. cbn [length] in En. lia.
      * simpl drop. rewrite drop_0. apply (f_equal (drop (length rs1))) in E.
        rewrite drop_app_length in E. by rewrite drop_app_le in E by lia.
Qed.

(** The state of the parser inside a block. *)
Lemma accept_part t part rest s :
  txn_ok t -> l_in s = false -> block t = part ++ rest -> rest <> [] ->
  exists s', accept_all s part = Some s' /\ l_result s' = l_result s /\
    ((rest = [RCommit] /\ l_in s' = true /\ l_prep s' = true /\ l_cur s' = t) \/
     ((1 < length rest)%nat /\ l_in s' && l_prep s' = false)).
Proof.
  intros [_ Ho] Hi E Hr. unfold block in E. destruct part as [|b part].
  { exists s. simpl in *. split_and!; [done|done|]. right. rewrite Hi. split; [|done].
    rewrite <- E. simpl. rewrite length_app. simpl. lia. }
  injection E as <- E. simpl.
  destruct (Nat.le_gt_cases (length part) (length (ops t))) as [Hl|Hl].
  - assert (part = map op_rec (take (length part) (ops t))) as Ep.
    { apply (f_equal (take (length part))) in E. rewrite take_app_length in E.
      rewrite take_app_le in E by (rewrite length_map; lia). rewrite <- E at 1. by rewrite firstn_map. }
    rewrite Ep, accept_ops by (try apply Forall_take; done). eexists. split; [done|]. simpl.
    split; [done|right]. split; [|done]. apply (f_equal length) in E.
    rewrite !length_app, length_map in E. simpl in E. lia.
  - assert (part = map op_rec (ops t) ++ [RPrepare] /\ rest = [RCommit]) as [-> ->].
    { assert (part = map op_rec (ops t) ++ drop (length (ops t)) part) as Ep.
      { rewrite <- (take_drop (length (ops t)) part) at 1. f_equal.
        apply (f_equal (take (length (ops t)))) in E. rewrite take_app_le in E by (rewrite length_map; lia).
        rewrite take_ge in E by (rewrite length_map; lia). by rewrite take_app_le in E by lia. }
      rewrite Ep, <- app_assoc in E. apply app_inv_head in E.
      assert (drop (length (ops t)) part <> []) as Hd.
      { intros En. apply (f_equal length) in En. rewrite length_drop in En. simpl in En. lia. }
      destruct (drop (length (ops t)) part) as [|x [|y l]]; [done| |].
      - injection E as <- <-. done.
      - injection E as _ _ E. symmetry in E. apply app_eq_nil in E as [_ ->]. done. }
    rewrite accept_all_app, accept_ops by done. simpl. eexists. split; [done|]. simpl.
    split; [done|]. left. by destruct t.
Qed.

Lemma block_fits t : txn_ok t -> Forall fits (block t).
Proof.
  intros [Hi Ho]. constructor; [done|]. apply Forall_app. split; [|constructor; [exact I|constructor; [exact I|constructor]]].
  apply Forall_map. eapply Forall_impl; [|exact Ho]. intros o (F & _). exact F.
Qed.

Lemma put_u32_nonneg v : Forall (fun b => 0 <= b) (u32_bytes v).
Proof. unfold u32_bytes, put_u32. repeat constructor; apply wrap_range; lia. Qed.

Lemma block_nonneg t : txn_ok t -> Forall (fun b => 0 <= b) (encode_all (block t)).
Proof.
  intros [_ Ho]. change (encode_all (block t)) with
    (encode (RBegin (txn_id t)) ++ encode_all (map op_rec (ops t) ++ [RPrepare; RCommit])).
  rewrite encode_all_app. apply Forall_app; split; [|apply Forall_app; split].
  - cbn [encode]. constructor; [unfold BEGIN; lia|apply put_u32_nonneg].
  - induction (ops t) as [|o os IH]; [constructor|]. inversion Ho as [|? ? (F & Hk & Hv & _) Hos]; subst.
    change (encode_all (map op_rec (o :: os))) with (encode (op_rec o) ++ encode_all (map op_rec os)).
    apply Forall_app. split; [|by apply IH].
    assert (forall b, 0 <= b -> Forall (fun b => 0 <= b) [b]) as F1 by (by repeat constructor).
    unfold op_rec. destruct (is_delete o); cbn [encode]; rewrite !Forall_app;
      split_and!; try done; try apply put_u32_nonneg; apply F1; unfold DEL, PUT; lia.
  - simpl. repeat constructor; unfold PREPARE, COMMIT; lia.
Qed.

Lemma blocks_fit ts : Forall txn_ok ts ->
  Forall fits (flat_map block ts) /\ Forall (fun b => 0 <= b) (encode_all (flat_map block ts)).
Proof.
  induction 1 as [|t ts Ht _ [IH1 IH2]]; [by split; constructor|].
  change (flat_map block (t :: ts)) with (block t ++ flat_map block ts). rewrite encode_all_app.
  split; apply Forall_app; split; try done; [by apply block_fits|by apply block_nonneg].
Qed.

Lemma wal_parse_records rs1 rs2 tail s' r0 d0 :
  Forall fits (rs1 ++ rs2) -> Forall (fun b => 0 <= b) (encode_all rs1 ++ tail) -> torn rs2 tail ->
  accept_all (LogState false false (Txn 0 []) r0) rs1 = Some s' ->
  wal_parse (Some (WAL_MAGIC ++ encode_all rs1 ++ tail)) r0 d0 =
  Some (l_result s', if l_in s' && l_prep s' then l_cur s' else d0).
Proof.
  intros Hf Hb Ht Ha. unfold wal_parse.
  destruct (Z.ltb_spec (Z.of_nat (length (WAL_MAGIC ++ encode_all rs1 ++ tail))) WAL_HEADER_SIZE) as [Hl|_].
  { rewrite length_app in Hl. unfold WAL_HEADER_SIZE in Hl. lia. }
  rewrite take_app_length, bool_decide_eq_true_2 by done. simpl negb. cbv iota.
  change (Parse WAL_HEADER_SIZE false false (Txn 0 []) r0) with
    (at_pos (Z.of_nat (length WAL_MAGIC)) (LogState false false (Txn 0 []) r0)).
  rewrite (parse_loop_torn rs1 rs2 _ tail _ s'); [done|done|done|done|done|].
  rewrite (length_app WAL_MAGIC). lia.
Qed.

Lemma log_size_app ts us :
  log_size (ts ++ us) = (log_size ts + length (encode_all (flat_map block us)))%nat.
Proof.
  unfold log_size, log. rewrite flat_map_app, encode_all_app, !length_app. lia.
Qed.

Lemma log_size_take ts j t : ts !! j = Some t ->
  log_size (take (S j) ts) = (log_size (take j ts) + length (encode_all (block t)))%nat.
Proof.
  intros Ht. rewrite (take_S_r _ _ _ Ht), log_size_app. simpl. by rewrite app_nil_r.
Qed.

(** C33: cut the log of any sequence of transactions at any byte behind its
    header, as a crash does: recovery returns exactly the transactions whose
    records are complete, in order, and nothing else. The transaction in flight
    is handed out as the dangling one exactly when everything but its final
    COMMIT byte is there. *)
Theorem crash_recovers_committed (ts : list txn) (m : nat) (d0 : txn) :
  Forall txn_ok ts -> (length WAL_MAGIC <= m)%nat ->
  exists j d, wal_parse (Some (take m (log ts))) [] d0 = Some (take j ts, d) /\
    (log_size (take j ts) <= m)%nat /\
    (forall t, ts !! j = Some t -> (m < log_size (take (S j) ts))%nat) /\
    d = match ts !! j with
        | Some t => if decide (S m = log_size (take (S j) ts)) then t else d0
        | None => d0
        end.
Proof.
  intros Hok Hm. unfold log at 1. rewrite take_app_ge by done.
  destruct (take_encode (flat_map block ts) (m - length WAL_MAGIC)) as (rs1 & rs2 & tail & E & Et & T & L).
  destruct (blocks_fit ts Hok) as [F N]. rewrite E in F.
  assert (Forall (fun b => 0 <= b) (encode_all rs1 ++ tail)) as N1 by (rewrite <- Et; by apply Forall_take).
  assert (length (encode_all rs1 ++ tail) =
    Nat.min (m - length WAL_MAGIC) (length (encode_all (rs1 ++ rs2))))%nat as Lt.
  { rewrite <- Et, length_take. by rewrite E. }
  rewrite encode_all_app, !length_app in Lt.
  destruct (split_blocks ts rs1 rs2 E) as (j & part & rest & E1 & Hj & Hc).
  destruct (accept_blocks (take j ts) (LogState false false (Txn 0 []) [])) as (s1 & A1 & I1 & R1);
    [by apply Forall_take|done|].
  assert (log_size (take j ts) + length (encode_all part) = length WAL_MAGIC + length (encode_all rs1))%nat as Ls.
  { unfold log_size, log. rewrite E1, encode_all_app, !length_app. lia. }
  rewrite Et. destruct Hc as [(-> & -> & ->)|(t & Htj & Eb & Hr & E2)].
  - exists (length ts), d0. rewrite lookup_ge_None_2 by lia. rewrite app_nil_r in E1. subst rs1.
    rewrite (wal_parse_records _ [] tail s1) by done. rewrite I1, R1. simpl.
    split_and!; [done| |done|done].
    change (length (encode_all [])) with 0%nat in *. lia.
  - assert (txn_ok t) as Ot by (eapply Forall_lookup_1; done).
    destruct (accept_part t part rest s1 Ot I1 Eb Hr) as (s2 & A2 & R2 & Hs).
    assert (accept_all (LogState false false (Txn 0 []) []) rs1 = Some s2) as A.
    { by rewrite E1, accept_all_app, A1. }
    pose proof (log_size_take ts j t Htj) as Lj. rewrite Eb, encode_all_app, length_app in Lj.
    destruct rest as [|r rest]; [done|].
    change (encode_all (r :: rest)) with (encode r ++ encode_all rest) in Lj. rewrite length_app in Lj.
    rewrite E2 in L, Lt. simpl in L. change (encode_all ((r :: rest) ++ flat_map block (drop (S j) ts)))
      with (encode r ++ encode_all (rest ++ flat_map block (drop (S j) ts))) in Lt.
    rewrite (length_app (encode r)) in Lt.
    exists j, (if decide (S m = log_size (take (S j) ts)) then t else d0). rewrite Htj.
    rewrite (wal_parse_records rs1 rs2 tail s2) by done. rewrite R2, R1. simpl app.
    split_and!; [| |intros u [= <-]|done]; [|lia|lia].
    do 2 f_equal. destruct Hs as [(Er & H1 & H2 & H3)|(Hl & H1)].
    + rewrite H1, H2, H3. injection Er as -> ->.
      change (length (encode_all [])) with 0%nat in *. change (length (encode RCommit)) with 1%nat in *.
      by rewrite decide_True by lia.
    + rewrite H1. assert (1 <= length (encode_all rest))%nat.
      { destruct rest as [|r' rest]; simpl in Hl; [lia|].
        change (encode_all (r' :: rest)) with (encode r' ++ encode_all rest). rewrite length_app.
        pose proof (encode_length r'). lia. }
      by rewrite decide_False by lia.
Qed.

Definition sample_txns : list txn :=
  [Txn 2 [OpRecord false [97] [1; 2]; OpRecord true [98] []]; Txn 3 [OpRecord false [99] []]].

Lemma crash_recovers_committed_witness :
  exists j d, wal_parse (Some (take 46 (log sample_txns))) [] (Txn 0 []) = Some (take j sample_txns, d) /\
    (log_size (take j sample_txns) <= 46)%nat.
Proof.
  destruct (crash_recovers_committed sample_txns 46 (Txn 0 [])) as (j & d & H & L & _).
  - repeat constructor; simpl; lia || discriminate.
  - simpl. lia.
  - exists j, d. split; [exact H|exact L].
Defined.

Example crash_examples :
  wal_parse (Some (take 44 (log sample_txns))) [] (Txn 0 []) = Some (take 1 sample_txns, Txn 0 []) /\
  wal_parse (Some (take 49 (log sample_txns))) [] (Txn 0 []) = Some (take 1 sample_txns, Txn 3 [OpRecord false [99] []]) /\
  wal_parse (Some (log sample_txns)) [] (Txn 0 []) = Some (sample_txns, Txn 0 []).
Proof. split_and!; vm_compute; reflexivity. Qed.

(** ** The writer *)

Definition apply_op (w : writer) (o : op_record) : writer :=
  if is_delete o then del (key o) w else put (key o) (val o) w.

(** One transaction as the database drives it: begin, the operations, prepare,
    commit, with the results of the two writes. *)
Definition prepare_txn (t : txn) (r : write_result) (w : writer) : writer + writer * error :=
  prepare r (fold_left apply_op (ops t) (begin (txn_id t) w)).

Definition commit_txn (t : txn) (r1 r2 : write_result) (w : writer) : writer + writer * error :=
  match prepare_txn t r1 w with
  | inl w => commit r2 w
  | inr e => inr e
  end.

(** The files hold whole records and the write offsets point behind them. *)
Record writer_ok (w : writer) (rs : Z -> list record) : Prop := {
  ok_files : forall i, i = 0 \/ i = 1 -> files w i = Some (WAL_MAGIC ++ encode_all (rs i));
  ok_off : forall i, i = 0 \/ i = 1 ->
    write_off w i = Z.of_nat (length (WAL_MAGIC ++ encode_all (rs i)));
  ok_fits : forall i, i = 0 \/ i = 1 -> Forall fits (rs i);
  ok_bytes : forall i, i = 0 \/ i = 1 -> Forall (fun b => 0 <= b) (encode_all (rs i));
  ok_next : next_log w = 0 \/ next_log w = 1;
  ok_active : active_log w = 0 \/ active_log w = 1
}.

(** The committed transactions of a list of records. *)
Definition replay (rs : list record) : option (list txn) :=
  match accept_all (LogState false false (Txn 0 []) []) rs with
  | Some s => Some (l_result s)
  | None => None
  end.

Lemma begin_buf id w : buf (begin id w) = encode (RBegin id).
Proof. done. Qed.

Lemma put_u32_app b v : put_u32 b v = b ++ u32_bytes v.
Proof. done. Qed.

Lemma apply_op_buf w o : op_ok o -> buf (apply_op w o) = buf w ++ encode (op_rec o).
Proof.
  intros (F & _). change (2 ^ 32) with 4294967296 in *. unfold apply_op, op_rec in *.
  destruct (is_delete o); cbn [fits] in F; unfold put, del; cbn [buf]; rewrite !put_u32_app;
    rewrite !wrap_small by (change (2 ^ 32) with 4294967296; lia); by rewrite <- !app_assoc.
Qed.

Lemma apply_op_rest w o :
  files (apply_op w o) = files w /\ write_off (apply_op w o) = write_off w /\
  next_log (apply_op w o) = next_log w /\ active_log (apply_op w o) = active_log w /\
  last_commit (apply_op w o) = last_commit w /\ has_records (apply_op w o) = true /\
  prepared_ (apply_op w o) = prepared_ w.
Proof. unfold apply_op. by destruct (is_delete o). Qed.

Lemma apply_ops os w : Forall op_ok os ->
  let w' := fold_left apply_op os w in
  buf w' = buf w ++ encode_all (map op_rec os) /\
  files w' = files w /\ write_off w' = write_off w /\ next_log w' = next_log w /\
  active_log w' = active_log w /\ last_commit w' = last_commit w /\
  has_records w' = has_records w || negb (bool_decide (os = [])) /\ prepared_ w' = prepared_ w.
Proof.
  intros H. revert w. induction H as [|o os Ho _ IH]; intros w.
  - simpl. by rewrite app_nil_r, orb_false_r.
  - simpl. destruct (IH (apply_op w o)) as (B & F & W & N & A & L & H & P).
    destruct (apply_op_rest w o) as (F1 & W1 & N1 & A1 & L1 & H1 & P1).
    rewrite B, F, W, N, A, L, H, P, F1, W1, N1, A1, L1, H1, P1, apply_op_buf by done.
    rewrite <- app_assoc, orb_true_r. done.
Qed.

Lemma append_ok r data rs w :
  writer_ok w rs ->
  append r data w =
  let idx := active_log w in
  match r with
  | Done => inl (Writer (is_open w)
      (upd (files w) idx (Some (WAL_MAGIC ++ encode_all (rs idx) ++ data)))
      (upd (write_off w) idx (write_off w idx + Z.of_nat (length data)))
      (next_log w) (active_log w) (last_commit w) (buf w) (has_records w) (prepared_ w))
  | Short k => inr (Writer (is_open w)
      (upd (files w) idx (Some (WAL_MAGIC ++ encode_all (rs idx) ++ take k data))) (write_off w)
      (next_log w) (active_log w) (last_commit w) (buf w) (has_records w) (prepared_ w), WalError)
  end.
Proof.
  intros W. pose proof (ok_active _ _ W) as Ha. unfold append, content.
  rewrite (ok_files _ _ W), (ok_off _ _ W), Nat2Z.id by done. cbv zeta.
  cbn [default from_option id]. destruct r; cbn [pwrite]; by rewrite overlay_app, <- app_assoc.
Qed.

(** The writer before the flush of a prepared transaction. *)
Lemma before_prepare t rs w :
  writer_ok w rs -> txn_ok t -> ops t <> [] ->
  let v := fold_left apply_op (ops t) (begin (txn_id t) w) in
  writer_ok v rs /\ buf v = encode_all (RBegin (txn_id t) :: map op_rec (ops t)) /\
  has_records v = true /\ prepared_ v = false /\ active_log v = next_log w /\
  next_log v = next_log w /\ files v = files w /\
  last_commit v = upd (last_commit w) (next_log w) (txn_id t).
Proof.
  intros [W1 W2 W3 W4 W5 W6] [Hi Ho] Hne v.
  destruct (apply_ops (ops t) (begin (txn_id t) w) Ho) as (B & F & W & N & A & L & H & P).
  fold v in B, F, W, N, A, L, H, P. rewrite begin_buf in B.
  split_and!; try done.
  - split; try done.
    + intros i. rewrite F. apply W1.
    + intros i. rewrite W. apply W2.
    + rewrite N. done.
    + rewrite A. done.
  - rewrite H. simpl. by rewrite bool_decide_eq_false_2.
Qed.

(** Growing one file by whole records. *)
Lemma writer_ok_grow w w' rs new :
  writer_ok w rs -> Forall fits new -> Forall (fun b => 0 <= b) (encode_all new) ->
  files w' = upd (files w) (active_log w)
    (Some (WAL_MAGIC ++ encode_all (rs (active_log w)) ++ encode_all new)) ->
  write_off w' = upd (write_off w) (active_log w)
    (write_off w (active_log w) + Z.of_nat (length (encode_all new))) ->
  next_log w' = next_log w -> active_log w' = active_log w ->
  writer_ok w' (upd rs (active_log w) (rs (active_log w) ++ new)).
Proof.
  intros [W1 W2 W3 W4 W5 W6] Hf Hb Ef Eo En Ea. split; try congruence.
  - intros i Hi. rewrite Ef. destruct (Z.eq_dec i (active_log w)) as [->|Hne].
    + rewrite !upd_eq, encode_all_app. done.
    + rewrite !upd_ne by done. auto.
  - intros i Hi. rewrite Eo. destruct (Z.eq_dec i (active_log w)) as [->|Hne].
    + rewrite !upd_eq, W2, encode_all_app, !length_app by done. lia.
    + rewrite !upd_ne by done. auto.
  - intros i Hi. destruct (Z.eq_dec i (active_log w)) as [->|Hne].
    + rewrite upd_eq. apply Forall_app. auto.
    + rewrite upd_ne by done. auto.
  - intros i Hi. destruct (Z.eq_dec i (active_log w)) as [->|Hne].
    + rewrite upd_eq, encode_all_app. apply Forall_app. auto.
    + rewrite upd_ne by done. auto.
Qed.

End wal.
