(* ===== verification/WalWriter.v ===== *)
(** * WalWriter: what the write-ahead log guarantees

    The theorems about the writer of [Wal]: a committed transaction is recovered,
    a failed write loses nothing that was committed before, and the ping-pong of
    the two files never drops a transaction newer than the flush. Three theorems
    exhibit what the code does not protect against: a background flush that runs
    between its test and its truncation while the writer switches files, the
    bytes a failed write leaves behind, and the records of an aborted transaction
    that was already prepared. *)
From Stdlib Require Import Sorting.Sorted.
From S2P Require Import Prelude Serial File Wal.

Module walwriter.
Import file wal.

Definition start : log_state := LogState false false (Txn 0 []) [].

(** Recovery of a well-formed file. *)
Lemma parse_ok w rs i s d0 :
  writer_ok w rs -> i = 0 \/ i = 1 -> accept_all start (rs i) = Some s ->
  wal_parse (files w i) [] d0 = Some (l_result s, if l_in s && l_prep s then l_cur s else d0).
Proof.
  intros W Hi A. rewrite (ok_files _ _ W) by done.
  rewrite <- (app_nil_r (encode_all (rs i))). apply (wal_parse_records _ [] [] s); try done.
  - rewrite app_nil_r. by apply (ok_fits _ _ W).
  - rewrite app_nil_r. by apply (ok_bytes _ _ W).
  - by left.
Qed.

(** A part of a block adds no transaction. *)
Lemma accept_part_result t part rest s :
  txn_ok t -> block t = part ++ rest -> rest <> [] ->
  exists s', accept_all s part = Some s' /\ l_result s' = l_result s.
Proof.
  intros Ho E Hr.
  destruct (accept_part t part rest (LogState false false (Txn 0 []) (l_result s))) as (s' & A & R & _);
    try done.
  destruct part as [|r part]; [by exists s|]. unfold block in E. injection E as <- _.
  exists s'. split; [|done]. simpl in *. done.
Qed.

Lemma block_split t : block t = (RBegin (txn_id t) :: map op_rec (ops t) ++ [RPrepare]) ++ [RCommit].
Proof. unfold block. simpl. by rewrite <- app_assoc. Qed.

Lemma block_parts t : txn_ok t ->
  let b := RBegin (txn_id t) :: map op_rec (ops t) ++ [RPrepare] in
  Forall fits b /\ Forall (fun x => 0 <= x) (encode_all b).
Proof.
  intros H b. pose proof (block_fits t H) as F. pose proof (block_nonneg t H) as N.
  rewrite block_split in F, N. fold b in F, N. rewrite encode_all_app in N.
  apply Forall_app in F as [F _]. apply Forall_app in N as [N _]. done.
Qed.

(** What [prepare] does to the writer of a transaction with operations. *)
Lemma prepare_txn_run t r rs w :
  writer_ok w rs -> txn_ok t -> ops t <> [] ->
  let idx := next_log w in
  let b := RBegin (txn_id t) :: map op_rec (ops t) ++ [RPrepare] in
  match r with
  | Done => exists w', prepare_txn t r w = inl w' /\
      writer_ok w' (upd rs idx (rs idx ++ b)) /\ active_log w' = idx /\ next_log w' = idx /\
      has_records w' = true /\ last_commit w' = upd (last_commit w) idx (txn_id t)
  | Short k => exists w', prepare_txn t r w = inr (w', WalError) /\
      files w' = upd (files w) idx (Some (WAL_MAGIC ++ encode_all (rs idx) ++ take k (encode_all b)))
  end.
Proof.
  intros W Ht Hne idx b. destruct (before_prepare t rs w W Ht Hne) as (V & B & H & P & A & N & F & L).
  unfold prepare_txn, prepare. set (v := fold_left apply_op _ _) in *. rewrite P, H. cbn [negb].
  set (v' := set_buf v _). assert (writer_ok v' rs) as V' by (by destruct V; split).
  assert (buf v' = encode_all b) as Eb.
  { unfold v'. cbn [buf set_buf]. rewrite B.
    symmetry. apply (encode_all_app (RBegin (txn_id t) :: map op_rec (ops t)) [RPrepare]). }
  rewrite Eb, (append_ok r _ rs v' V'). cbv zeta. change (active_log v') with (active_log v). rewrite A.
  fold idx. destruct (block_parts t Ht) as [Fb Nb]. fold b in Fb, Nb.
  destruct r as [|k]; eexists; (split; [reflexivity|]).
  - split_and!; try done.
    assert (active_log v' = idx) as A' by done. rewrite <- A'.
    apply (writer_ok_grow v'); try done; by rewrite A'.
  - cbn [files]. change (files v') with (files v). by rewrite F.
Qed.

(** A transaction that commits without an error: its file grows by its block. *)
Lemma commit_txn_run t rs w :
  writer_ok w rs -> txn_ok t -> ops t <> [] ->
  exists w', commit_txn t Done Done w = inl w' /\
    writer_ok w' (upd rs (next_log w) (rs (next_log w) ++ block t)) /\
    next_log w' = next_log w /\ last_commit w' = upd (last_commit w) (next_log w) (txn_id t).
Proof.
  intros W Ht Hne. pose proof (ok_next _ _ W) as Hn.
  destruct (prepare_txn_run t Done rs w W Ht Hne) as (w1 & E1 & W1 & A1 & N1 & H1 & L1).
  unfold commit_txn. rewrite E1. unfold commit. rewrite H1. cbn [negb].
  rewrite (append_ok Done [COMMIT] _ w1 W1). cbv zeta. rewrite A1. eexists. split; [reflexivity|].
  set (rs1 := upd rs (next_log w) _) in *. set (w2 := Writer _ _ _ _ _ _ _ _ _).
  assert (writer_ok w2 (upd rs1 (active_log w1) (rs1 (active_log w1) ++ [RCommit]))) as W2.
  { apply (writer_ok_grow w1); try done.
    - by repeat constructor.
    - simpl. constructor; [unfold COMMIT; lia|constructor].
    - unfold w2. cbn [files]. by rewrite A1.
    - unfold w2. cbn [write_off]. by rewrite A1. }
  assert (forall i, upd rs1 (active_log w1) (rs1 (active_log w1) ++ [RCommit]) i =
    upd rs (next_log w) (rs (next_log w) ++ block t) i) as Er.
  { intros i. rewrite A1. unfold rs1. rewrite upd_eq, block_split. unfold upd.
    destruct (i =? next_log w); [|done]. by rewrite <- !app_assoc. }
  split_and!; [|done|done].
  destruct W2 as [B1 B2 B3 B4 B5 B6]. split; try done; intros i Hi; rewrite <- Er; auto.
Qed.

(** a transaction whose commit returned is recovered, behind the
    transactions the file already held, in a file of whole records; the other
    file is untouched. *)
Theorem committed_is_recovered (t : txn) (rs : Z -> list record) (w : writer) (s : log_state) (d0 : txn) :
  writer_ok w rs -> txn_ok t -> ops t <> [] -> accept_all start (rs (next_log w)) = Some s ->
  exists w', commit_txn t Done Done w = inl w' /\
    wal_parse (files w' (next_log w)) [] d0 = Some (l_result s ++ [t], d0) /\
    writer_ok w' (upd rs (next_log w) (rs (next_log w) ++ block t)) /\
    files w' (1 - next_log w) = files w (1 - next_log w).
Proof.
  intros W Ht Hne A. pose proof (ok_next _ _ W) as Hn.
  destruct (commit_txn_run t rs w W Ht Hne) as (w2 & E & W3 & _). exists w2.
  split_and!; [done| |done|].
  - rewrite (parse_ok w2 _ _ (LogState false false t (l_result s ++ [t])) d0 W3 Hn); [done|].
    rewrite upd_eq, accept_all_app, A, accept_block by done. done.
  - pose proof (ok_files _ _ W3 (1 - next_log w) ltac:(lia)) as F1. rewrite upd_ne in F1 by lia.
    by rewrite F1, (ok_files _ _ W) by lia.
Qed.

(** when the write of [prepare] fails after any number of bytes,
    the error is reported and recovery still finds exactly the transactions that
    were committed before. *)
Theorem failed_prepare_keeps_committed (t : txn) (k : nat) (rs : Z -> list record) (w : writer)
    (s : log_state) (d0 : txn) :
  writer_ok w rs -> txn_ok t -> ops t <> [] -> accept_all start (rs (next_log w)) = Some s ->
  exists w' d, prepare_txn t (Short k) w = inr (w', WalError) /\
    wal_parse (files w' (next_log w)) [] d0 = Some (l_result s, d) /\
    files w' (1 - next_log w) = files w (1 - next_log w).
Proof.
  intros W Ht Hne A. pose proof (ok_next _ _ W) as Hn.
  destruct (prepare_txn_run t (Short k) rs w W Ht Hne) as (w1 & E1 & F1).
  set (b := RBegin (txn_id t) :: map op_rec (ops t) ++ [RPrepare]) in *.
  destruct (take_encode b k) as (rs1 & rs2 & tail & Eb & Et & T & _).
  destruct (block_parts t Ht) as [Fb Nb]. fold b in Fb, Nb.
  destruct (accept_part_result t rs1 (rs2 ++ [RCommit]) s Ht) as (s' & A' & R').
  { rewrite block_split. fold b. by rewrite Eb, <- app_assoc. }
  { by destruct rs2. }
  exists w1, (if l_in s' && l_prep s' then l_cur s' else d0). split_and!; [done| |].
  - rewrite F1, upd_eq, Et, (app_assoc (encode_all (rs (next_log w)))), <- encode_all_app.
    rewrite (wal_parse_records (rs (next_log w) ++ rs1) rs2 tail s'); [by rewrite R'|..|done|].
    + rewrite <- app_assoc. apply Forall_app. split; [by apply (ok_fits _ _ W)|]. by rewrite <- Eb.
    + rewrite encode_all_app, <- app_assoc. apply Forall_app. split; [by apply (ok_bytes _ _ W)|].
      rewrite <- Et. by apply Forall_take.
    + rewrite accept_all_app. fold start. by rewrite A.
  - rewrite F1. apply upd_ne. lia.
Qed.

(** ** Termination of the parser *)

Lemma parse_step_advances data s s' :
  Forall (fun b => 0 <= b) data -> Z.of_nat (length data) < 2 ^ 32 -> 0 <= pos s ->
  parse_step data s = Some s' -> pos s < pos s'.
Proof.
  intros Hb Hl Hp. pose proof (read_u32_nonneg data (pos s + 1) Hb) as R1.
  pose proof (read_u32_nonneg data (pos s + 5) Hb) as R2.
  unfold parse_step. destruct (_ =? BEGIN).
  { destruct (negb _); intros [= <-]; simpl; lia. }
  destruct (_ =? PUT).
  { destruct (negb (in_txn s) || _); [done|]. destruct (negb _) eqn:E; [done|]. intros [= <-].
    zbool. cbn [pos]. rewrite wrap_small by lia. lia. }
  destruct (_ =? DEL).
  { destruct (negb (in_txn s) || _); [done|]. destruct (negb _) eqn:E; [done|]. intros [= <-].
    zbool. cbn [pos]. rewrite wrap_small by lia. lia. }
  destruct (_ =? PREPARE); [destruct (negb _); intros [= <-]; simpl; lia|].
  destruct (_ =? COMMIT); [destruct (negb _); intros [= <-]; simpl; lia|done].
Qed.

(** the parser of any file below 4 GB, whatever its bytes,
    returns after at most as many rounds as the file has bytes. *)
Theorem wal_parse_terminates (data : list Z) (r0 : list txn) (d0 : txn) :
  Forall (fun b => 0 <= b) data -> Z.of_nat (length data) < 2 ^ 32 ->
  exists r d, wal_parse (Some data) r0 d0 = Some (r, d).
Proof.
  intros Hb Hl. unfold wal_parse. destruct (_ <? _); [by eauto|]. destruct (negb _); [by eauto|].
  assert (forall fuel s, 0 <= pos s -> Z.of_nat (length data) - pos s <= Z.of_nat fuel ->
    exists s', parse_loop fuel data s = Some s') as L.
  { induction fuel as [|fuel IH]; intros s Hp Hf; cbn [parse_loop].
    - destruct (Z.ltb_spec (pos s) (Z.of_nat (length data))); [lia|by eauto].
    - destruct (Z.ltb_spec (pos s) (Z.of_nat (length data))); [|by eauto].
      destruct (parse_step data s) as [s'|] eqn:E; [|by eauto].
      pose proof (parse_step_advances data s s' Hb Hl Hp E). apply IH; lia. }
  destruct (L (length data) (Parse WAL_HEADER_SIZE false false (Txn 0 []) r0)) as [s' ->];
    [done|simpl pos; unfold WAL_HEADER_SIZE; lia|]. by eauto.
Qed.

Lemma wal_parse_terminates_witness :
  exists r d, wal_parse (Some (WAL_MAGIC ++ [1; 2; 0; 0; 0; 2; 255; 255; 255; 255])) [] (Txn 0 []) = Some (r, d).
Proof. apply wal_parse_terminates; [repeat constructor; lia|simpl; lia]. Defined.

(** The bound is needed: the size of a record is added as a 32-bit number, so a
    PUT record of exactly 2^32 bytes is parsed again and again. *)
Lemma huge_put_stuck k v post s :
  9 + Z.of_nat (length k) + Z.of_nat (length v) = 2 ^ 32 -> l_in s = true ->
  exists s', parse_step (encode (RPut k v) ++ post) (at_pos 0 s) = Some (at_pos 0 s').
Proof.
  intros H Hi. rewrite parse_put, Hi by lia.
  assert (Z.of_nat (length (encode (RPut k v))) = 2 ^ 32) as ->.
  { cbn [encode]. rewrite !length_app, !u32_bytes_length. simpl length. lia. }
  eexists (LogState true _ _ _). unfold wrap. rewrite Z.mod_same by lia. reflexivity.
Qed.

(** ** The ping-pong of the two files *)

Definition ids (rs : list record) : list Z :=
  omap (fun r => match r with RBegin id => Some id | _ => None end) rs.

(** Every transaction of a file is at most as new as its [last_commit]. *)
Definition covered (w : writer) (rs : Z -> list record) : Prop :=
  forall i id, i = 0 \/ i = 1 -> id ∈ ids (rs i) ->
    serial.leb 32 (serial.Serial id) (serial.Serial (last_commit w i)) = true.

(** All ids lie in one window of the serial order above [base]. *)
Definition window (base id : Z) : Prop :=
  serial.valid 32 (serial.Serial id) /\
  serial.steps 32 (serial.Serial base) (serial.Serial id) < serial.HALF_RANGE 32 - 1.

Lemma leb_trans base a b c :
  serial.valid 32 (serial.Serial base) -> window base a -> window base b -> window base c ->
  serial.leb 32 (serial.Serial a) (serial.Serial b) = true ->
  serial.leb 32 (serial.Serial b) (serial.Serial c) = true ->
  serial.leb 32 (serial.Serial a) (serial.Serial c) = true.
Proof.
  intros Hb [Va Wa] [Vb Wb] [Vc Wc]. unfold serial.leb, serial.gtb.
  rewrite !(serial.ltb_age 32 (serial.Serial base)) by (done || lia).
  rewrite !negb_true_iff, !Z.ltb_ge. lia.
Qed.

Lemma accept_all_result_ids rs s s' : accept_all s rs = Some s' ->
  forall t, t ∈ l_result s' \/ (l_in s' = true /\ t = l_cur s') ->
    t ∈ l_result s \/ (l_in s = true /\ txn_id t = txn_id (l_cur s)) \/ txn_id t ∈ ids rs.
Proof.
  revert s. induction rs as [|r rs IH]; intros s E t Ht.
  - injection E as ->. destruct Ht as [?|[? ->]]; auto.
  - simpl in E. destruct (accept s r) as [s1|] eqn:A; [|done].
    assert (forall id, id ∈ ids rs -> id ∈ ids (r :: rs)) as Sub.
    { intros id Hid. unfold ids in *. simpl. destruct r; try done. by right. }
    destruct (IH s1 E t Ht) as [Hr|[[Hi He]|Hid]]; [| |by auto].
    + destruct r; simpl in A; repeat case_match; simplify_eq; simpl in *; auto.
      apply elem_of_app in Hr as [?|Hx]; [auto|]. apply list_elem_of_singleton in Hx as ->. auto.
    + destruct r; simpl in A; repeat case_match; simplify_eq; simpl in *; auto.
      right. right. rewrite He. left.
Qed.

(** a flush that is atomic with respect to the writer never removes
    a transaction newer than the flushed one: every such transaction that could
    be recovered before can still be recovered, and the active file is never
    touched. *)
Theorem flushed_keeps_newer (id base : Z) (rs : Z -> list record) (w : writer) (i : Z) (s : log_state)
    (d0 : txn) (t : txn) :
  writer_ok w rs -> covered w rs -> i = 0 \/ i = 1 -> accept_all start (rs i) = Some s ->
  serial.valid 32 (serial.Serial base) -> window base id ->
  (forall j x, j = 0 \/ j = 1 -> x ∈ ids (rs j) -> window base x /\ window base (last_commit w j)) ->
  t ∈ l_result s -> serial.ltb 32 (serial.Serial id) (serial.Serial (txn_id t)) = true ->
  let w' := flushed id true Done w in
  (exists d, wal_parse (files w' i) [] d0 = Some (l_result s, d)) /\
  files w' (active_log w) = files w (active_log w).
Proof.
  intros W C Hi A Vb Wi Win Ht Hn w'.
  assert (files w' (active_log w) = files w (active_log w)) as Ha.
  { unfold w', flushed. destruct (flushed_test id w) as [idx|] eqn:E; [|done].
    unfold flushed_test in E. destruct (serial.leb _ _ _); [|done]. injection E as <-.
    apply upd_ne. lia. }
  split; [|done].
  assert (files w' i = files w i) as ->; [|by eexists; apply (parse_ok w rs i s d0)].
  pose proof (ok_active _ _ W) as Hact.
  unfold w', flushed. destruct (flushed_test id w) as [idx|] eqn:E; [|done].
  unfold flushed_test in E. destruct (serial.leb _ _ _) eqn:Le; [|done]. injection E as <-.
  unfold flushed_clear. cbn [files]. destruct (Z.eq_dec i (1 - active_log w)) as [->|Hne]; [|by apply upd_ne].
  exfalso. destruct (accept_all_result_ids _ _ _ A t (or_introl Ht)) as [Hx|[[? ?]|Hx]]; [|done|].
  { by apply elem_of_nil in Hx. }
  pose proof (C _ _ Hi Hx) as L1. destruct (Win _ _ Hi Hx) as [W1 W2].
  pose proof (leb_trans base _ _ _ Vb W1 W2 Wi L1 Le) as L. unfold serial.leb, serial.gtb in L.
  by rewrite Hn in L.
Qed.

(** ** Histories of transactions and atomic flushes *)

Inductive event := ETxn (t : txn) | EFlush (id : Z).

Fixpoint run (es : list event) (w : writer) : option writer :=
  match es with
  | [] => Some w
  | ETxn t :: es' =>
      match commit_txn t Done Done w with inl w' => run es' w' | inr _ => None end
  | EFlush id :: es' => run es' (flushed id true Done w)
  end.

Definition txns (es : list event) : list txn :=
  omap (fun e => match e with ETxn t => Some t | EFlush _ => None end) es.
Definition flushes (es : list event) : list Z :=
  omap (fun e => match e with ETxn _ => None | EFlush id => Some id end) es.

(** The contract of the caller: well-formed transactions with operations, ids that
    increase in the serial order, everything in one window. *)
Record history_ok (base : Z) (es : list event) : Prop := {
  h_base : serial.valid 32 (serial.Serial base);
  h_txns : Forall (fun t => txn_ok t /\ ops t <> [] /\ window base (txn_id t)) (txns es);
  h_flushes : Forall (window base) (flushes es);
  h_order : StronglySorted (fun a b =>
    serial.ltb 32 (serial.Serial (txn_id a)) (serial.Serial (txn_id b)) = true) (txns es)
}.

(** The invariant after the transactions [ts] and the flushes [fs]. *)
Record hist_inv (base : Z) (w : writer) (rs : Z -> list record) (ts : list txn) (fs : list Z) : Prop := {
  i_ok : writer_ok w rs;
  i_accept : forall i, i = 0 \/ i = 1 -> exists s, accept_all start (rs i) = Some s /\ l_in s = false;
  i_ids : forall i x, i = 0 \/ i = 1 -> x ∈ ids (rs i) -> x ∈ map txn_id ts;
  i_cover : covered w rs;
  i_window : forall i x, i = 0 \/ i = 1 -> x ∈ ids (rs i) -> window base (last_commit w i);
  i_kept : forall t, t ∈ ts ->
    (forall id, id ∈ fs -> serial.ltb 32 (serial.Serial id) (serial.Serial (txn_id t)) = true) ->
    exists i s, (i = 0 \/ i = 1) /\ accept_all start (rs i) = Some s /\ t ∈ l_result s;
  i_only : forall s0 s1, accept_all start (rs 0) = Some s0 -> accept_all start (rs 1) = Some s1 -> l_result s0 ++ l_result s1 ⊆+ ts
}.

Lemma ids_app a b : ids (a ++ b) = ids a ++ ids b.
Proof. unfold ids. by rewrite omap_app. Qed.

Lemma ids_block t x : x ∈ ids (block t) <-> x = txn_id t.
Proof.
  unfold block. assert (ids (RBegin (txn_id t) :: map op_rec (ops t) ++ [RPrepare; RCommit]) = [txn_id t]) as ->.
  { change (txn_id t :: ids (map op_rec (ops t) ++ [RPrepare; RCommit]) = [txn_id t]). f_equal.
    rewrite ids_app. induction (ops t) as [|o os IH]; [done|]. simpl. unfold op_rec at 1.
    destruct (is_delete o); done. }
  apply list_elem_of_singleton.
Qed.

Lemma leb_refl a : serial.leb 32 a a = true.
Proof.
  unfold serial.leb, serial.gtb, serial.ltb. rewrite !Z.ltb_irrefl.
  by destruct ((serial.value a =? 0) || (serial.value a =? 0)).
Qed.

Lemma ltb_leb base a b : serial.valid 32 (serial.Serial base) -> window base a -> window base b ->
  serial.ltb 32 (serial.Serial a) (serial.Serial b) = true ->
  serial.leb 32 (serial.Serial a) (serial.Serial b) = true.
Proof.
  intros Hb [Va Wa] [Vb Wb]. unfold serial.leb, serial.gtb.
  rewrite !(serial.ltb_age 32 (serial.Serial base)) by (done || lia).
  rewrite negb_true_iff, Z.ltb_ge, Z.ltb_lt. lia.
Qed.

Lemma hist_inv_txn base w rs ts fs t :
  hist_inv base w rs ts fs -> serial.valid 32 (serial.Serial base) ->
  txn_ok t -> ops t <> [] -> window base (txn_id t) ->
  (forall u, u ∈ ts -> window base (txn_id u) /\
     serial.ltb 32 (serial.Serial (txn_id u)) (serial.Serial (txn_id t)) = true) ->
  exists w' rs', commit_txn t Done Done w = inl w' /\ hist_inv base w' rs' (ts ++ [t]) fs.
Proof.
  intros [W A I C Wd K O] Vb Ht Hne Hw Hts. pose proof (ok_next _ _ W) as Hn.
  destruct (commit_txn_run t rs w W Ht Hne) as (w' & E & W' & N' & L').
  set (idx := next_log w) in *. set (rs' := upd rs idx (rs idx ++ block t)) in *.
  exists w', rs'. split; [done|].
  destruct (A idx Hn) as (s & As & Is).
  assert (accept_all start (rs' idx) = Some (LogState false false t (l_result s ++ [t]))) as As'.
  { unfold rs'. by rewrite upd_eq, accept_all_app, As, accept_block. }
  split; try done.
  - intros i Hi. destruct (Z.eq_dec i idx) as [->|Hne']; [eauto|].
    unfold rs'. rewrite upd_ne by done. auto.
  - intros i x Hi. rewrite map_app. unfold rs'. destruct (Z.eq_dec i idx) as [->|Hne'].
    + rewrite upd_eq, ids_app, !elem_of_app, ids_block. intros [?| ->]; [left; eauto|right; by left].
    + rewrite upd_ne, elem_of_app by done. intros ?. left. eauto.
  - intros i x Hi. rewrite L'. unfold rs'. destruct (Z.eq_dec i idx) as [->|Hne'].
    + rewrite !upd_eq, ids_app, elem_of_app, ids_block. intros [Hx| ->]; [|apply leb_refl].
      pose proof (I _ _ Hi Hx) as Hu. apply list_elem_of_fmap in Hu as (u & -> & Hu).
      destruct (Hts u Hu). by apply (ltb_leb base).
    + rewrite !upd_ne by done. by apply C.
  - intros i x Hi. rewrite L'. unfold rs'. destruct (Z.eq_dec i idx) as [->|Hne'].
    + by rewrite !upd_eq.
    + rewrite !upd_ne by done. apply Wd. done.
  - intros u Hu Hf. apply elem_of_app in Hu as [Hu|Hu].
    + destruct (K u Hu Hf) as (i & s1 & Hi & A1 & H1). destruct (Z.eq_dec i idx) as [->|Hne'].
      * exists idx, (LogState false false t (l_result s ++ [t])). split_and!; [done|done|].
        simpl. apply elem_of_app. left. congruence.
      * exists i, s1. unfold rs'. rewrite upd_ne by done. done.
    + apply list_elem_of_singleton in Hu as ->. exists idx, (LogState false false t (l_result s ++ [t])).
      split_and!; [done|done|]. simpl. apply elem_of_app. right. by left.
  - intros s0 s1 E0 E1. unfold rs' in E0, E1, As'. destruct Hn as [Hn|Hn]; fold idx in Hn; rewrite Hn in *.
    + rewrite As' in E0. rewrite upd_ne in E1 by done. injection E0 as <-. cbn [l_result].
      rewrite (Permutation_app_comm ts), <- app_assoc, (Permutation_app_comm [t]), app_assoc, Permutation_app_comm. apply submseteq_app; [done|by apply O].
    + rewrite As' in E1. rewrite upd_ne in E0 by done. injection E1 as <-. cbn [l_result]. rewrite app_assoc. apply submseteq_app; [by apply O|done].
Qed.

Lemma hist_inv_flush base w rs ts fs id :
  hist_inv base w rs ts fs -> serial.valid 32 (serial.Serial base) -> window base id ->
  (forall u, u ∈ ts -> window base (txn_id u)) ->
  exists rs', hist_inv base (flushed id true Done w) rs' ts (fs ++ [id]).
Proof.
  intros [W A I C Wd K O] Vb Wi Hts. unfold flushed.
  assert (forall t, t ∈ ts -> (forall x, x ∈ fs ++ [id] ->
    serial.ltb 32 (serial.Serial x) (serial.Serial (txn_id t)) = true) ->
    serial.ltb 32 (serial.Serial id) (serial.Serial (txn_id t)) = true /\
    exists i s, (i = 0 \/ i = 1) /\ accept_all start (rs i) = Some s /\ t ∈ l_result s) as K'.
  { intros t Ht Hf. split; [apply Hf, elem_of_app; right; by left|]. apply K; [done|].
    intros x Hx. apply Hf, elem_of_app. by left. }
  destruct (flushed_test id w) as [idx|] eqn:E.
  2:{ exists rs. split; try done. intros t Ht Hf. by apply K'. }
  unfold flushed_test in E. destruct (serial.leb _ _ _) eqn:Le; [|done]. injection E as <-.
  pose proof (ok_active _ _ W) as Hact. set (idx := 1 - active_log w) in *.
  exists (upd rs idx []). split.
  - destruct W as [W1 W2 W3 W4 W5 W6]. unfold flushed_clear. split; cbn [files write_off next_log active_log]; try done.
    + intros i Hi. destruct (Z.eq_dec i idx) as [->|Hne].
      * rewrite !upd_eq. unfold clear_file. cbn [pwrite snd]. reflexivity.
      * rewrite !upd_ne by done. auto.
    + intros i Hi. destruct (Z.eq_dec i idx) as [->|Hne]; [by rewrite !upd_eq|].
      rewrite !upd_ne by done. auto.
    + intros i Hi. destruct (Z.eq_dec i idx) as [->|Hne]; [rewrite upd_eq; constructor|].
      rewrite !upd_ne by done. auto.
    + intros i Hi. destruct (Z.eq_dec i idx) as [->|Hne]; [rewrite upd_eq; constructor|].
      rewrite !upd_ne by done. auto.
    + unfold idx. lia.
  - intros i Hi. destruct (Z.eq_dec i idx) as [->|Hne]; [rewrite upd_eq; by eexists|].
    rewrite !upd_ne by done. auto.
  - intros i x Hi. destruct (Z.eq_dec i idx) as [->|Hne].
    + rewrite upd_eq. intros Hx. by apply elem_of_nil in Hx.
    + rewrite !upd_ne by done. eauto.
  - intros i x Hi. unfold flushed_clear. cbn [last_commit]. destruct (Z.eq_dec i idx) as [->|Hne].
    + rewrite upd_eq. intros Hx. by apply elem_of_nil in Hx.
    + rewrite !upd_ne by done. apply C. done.
  - intros i x Hi. unfold flushed_clear. cbn [last_commit]. destruct (Z.eq_dec i idx) as [->|Hne].
    + rewrite upd_eq. intros Hx. by apply elem_of_nil in Hx.
    + rewrite !upd_ne by done. apply Wd. done.
  - intros t Ht Hf. destruct (K' t Ht Hf) as [Hn (i & s & Hi & As & Hs)].
    exists i, s. destruct (Z.eq_dec i idx) as [->|Hne].
    + exfalso. destruct (accept_all_result_ids _ _ _ As t (or_introl Hs)) as [Hx|[[? ?]|Hx]]; [|done|].
      { by apply elem_of_nil in Hx. }
      pose proof (leb_trans base _ _ _ Vb (Hts t Ht) (Wd _ _ Hi Hx) Wi (C _ _ Hi Hx) Le) as L.
      unfold serial.leb, serial.gtb in L. by rewrite Hn in L.
    + rewrite upd_ne by done. done.
  - destruct (A 0 ltac:(by left)) as (u0 & A0 & _), (A 1 ltac:(by right)) as (u1 & A1 & _). pose proof (O u0 u1 A0 A1) as Hall.
    intros s0 s1 E0 E1. assert (idx = 0 \/ idx = 1) as [Hi|Hi] by (unfold idx; lia); rewrite Hi in *.
    + rewrite upd_eq in E0. rewrite upd_ne in E1 by done. injection E0 as <-. assert (s1 = u1) as -> by congruence. cbn [l_result start app].
      etransitivity; [|exact Hall]. by apply submseteq_inserts_l.
    + rewrite upd_ne in E0 by done. rewrite upd_eq in E1. injection E1 as <-. assert (s0 = u0) as -> by congruence. cbn [l_result start]. rewrite app_nil_r.
      etransitivity; [|exact Hall]. by apply submseteq_inserts_r.
Qed.

Lemma run_inv base es w rs ts fs :
  hist_inv base w rs ts fs -> history_ok base es ->
  Forall (fun u => window base (txn_id u) /\ Forall (fun t =>
    serial.ltb 32 (serial.Serial (txn_id u)) (serial.Serial (txn_id t)) = true) (txns es)) ts ->
  exists w' rs', run es w = Some w' /\ hist_inv base w' rs' (ts ++ txns es) (fs ++ flushes es).
Proof.
  revert w rs ts fs. induction es as [|[t|id] es IH]; intros w rs ts fs J [Hb Ht Hf Ho] Hu.
  - exists w, rs. simpl. by rewrite !app_nil_r.
  - change (txns (ETxn t :: es)) with (t :: txns es) in *.
    inversion Ht as [|? ? (T1 & T2 & T3) Ht']; subst. inversion Ho as [|? ? Ho' Hlt]; subst.
    destruct (hist_inv_txn base w rs ts fs t J Hb T1 T2 T3) as (w1 & rs1 & E & J1).
    { intros u Hin. apply list_elem_of_In, (proj1 (List.Forall_forall _ _) Hu) in Hin as [Wu Fu]. split; [done|].
      by inversion Fu. }
    destruct (IH w1 rs1 (ts ++ [t]) fs J1) as (w2 & rs2 & E2 & J2).
    + split; try done.
    + apply Forall_app. split; [|constructor; [done|constructor]]. eapply Forall_impl; [|exact Hu].
      intros u [Wu Fu]. split; [done|]. by inversion Fu.
    + exists w2, rs2. simpl. rewrite E. split; [done|]. by rewrite <- app_assoc in J2.
  - change (flushes (EFlush id :: es)) with (id :: flushes es) in *.
    change (txns (EFlush id :: es)) with (txns es) in *. inversion Hf as [|? ? F1 Hf']; subst.
    destruct (hist_inv_flush base w rs ts fs id J Hb F1) as (rs1 & J1).
    { intros u Hin. apply list_elem_of_In, (proj1 (List.Forall_forall _ _) Hu) in Hin as [Wu _]. done. }
    destruct (IH _ rs1 ts (fs ++ [id]) J1) as (w2 & rs2 & E2 & J2); [by split|done|].
    exists w2, rs2. simpl. split; [done|]. by rewrite <- app_assoc in J2.
Qed.

Lemma elem_of_insert_txn t u l : t ∈ insert_txn u l <-> t = u \/ t ∈ l.
Proof.
  induction l as [|v l IH]; simpl; [by rewrite list_elem_of_singleton, elem_of_nil; tauto|].
  destruct (serial.ltb _ _ _); rewrite !elem_of_cons; [done|]. rewrite IH. tauto.
Qed.

Lemma elem_of_sort t l : t ∈ sort_txns l <-> t ∈ l.
Proof.
  induction l as [|u l IH]; [done|]. simpl. rewrite elem_of_insert_txn, elem_of_cons. by rewrite IH.
Qed.

Lemma wal_parse_acc rs rest i s r0 d0 w :
  writer_ok w rs -> i = 0 \/ i = 1 -> rest = rs i -> accept_all start rest = Some s ->
  exists d, wal_parse (files w i) r0 d0 = Some (r0 ++ l_result s, d).
Proof.
  intros W Hi -> A.
  assert (forall l st st', accept_all st l = Some st' ->
    accept_all (LogState (l_in st) (l_prep st) (l_cur st) (r0 ++ l_result st)) l =
    Some (LogState (l_in st') (l_prep st') (l_cur st') (r0 ++ l_result st'))) as Sh.
  { induction l as [|r l IH]; intros st st' E; [by injection E as ->|]. simpl in *.
    destruct (accept st r) as [st1|] eqn:Er; [|done]. specialize (IH st1 st' E).
    assert (accept (LogState (l_in st) (l_prep st) (l_cur st) (r0 ++ l_result st)) r =
      Some (LogState (l_in st1) (l_prep st1) (l_cur st1) (r0 ++ l_result st1))) as ->; [|done].
    destruct r; simpl in *; repeat case_match; simplify_eq; simpl in *; try done.
    by rewrite app_assoc. }
  apply Sh in A. simpl in A. rewrite app_nil_r in A. rewrite (ok_files _ _ W) by done.
  rewrite <- (app_nil_r (encode_all (rs i))).
  rewrite (wal_parse_records _ [] [] _ r0 d0 ltac:(rewrite app_nil_r; by apply (ok_fits _ _ W))
    ltac:(rewrite app_nil_r; by apply (ok_bytes _ _ W)) ltac:(by left) A). by eexists.
Qed.

(** The writer that [open] makes of missing files. *)
Definition closed : writer := Writer false (fun _ => None) (fun _ => 0) 0 0 (fun _ => 0) [] false false.

Definition opened : writer :=
  default closed (open (fun _ => true) (fun _ => (true, Done)) closed).

Lemma opened_inv base : hist_inv base opened (fun _ => []) [] [].
Proof.
  split.
  - split; simpl; try (by left); try (intros i [-> | ->]; reflexivity || constructor).
  - intros i _. by eexists.
  - intros i x _ Hx. by apply elem_of_nil in Hx.
  - intros i x _ Hx. by apply elem_of_nil in Hx.
  - intros i x _ Hx. by apply elem_of_nil in Hx.
  - intros t Ht. by apply elem_of_nil in Ht.
  - intros s0 s1 [= <-] [= <-]. done.
Qed.

(** ** The order of what is recovered *)

Definition older (a b : txn) : Prop := serial.ltb 32 (serial.Serial (txn_id a)) (serial.Serial (txn_id b)) = true.

Lemma insert_txn_perm t l : insert_txn t l ≡ₚ t :: l.
Proof. induction l as [|u l IH]; cbn [insert_txn]; [done|]. destruct (serial.ltb _ _ _); [done|]. rewrite IH. apply Permutation_swap. Qed.

Lemma sort_txns_perm l : sort_txns l ≡ₚ l.
Proof. induction l as [|t l IH]; [done|]. cbn. rewrite insert_txn_perm. by apply Permutation_skip. Qed.

Section order.
Context (P : txn -> Prop).
Context (older_trans : forall a b c, P a -> P b -> P c -> older a b -> older b c -> older a c).

Lemma insert_txn_sorted t l : P t -> Forall P l -> Forall (fun u => older t u \/ older u t) l -> StronglySorted older l -> StronglySorted older (insert_txn t l).
Proof.
  intros Pt. induction l as [|u l IH]; cbn [insert_txn]; [by repeat constructor|]. rewrite !list.Forall_cons. intros [Pu Pl] [Cu Cl] S.
  apply StronglySorted_inv in S as [S F]. destruct (serial.ltb 32 (serial.Serial (txn_id t)) (serial.Serial (txn_id u))) eqn:E.
  - constructor; [by constructor|]. constructor; [exact E|]. rewrite list.Forall_forall in *. intros v Hv. apply (older_trans t u v); auto.
  - destruct Cu as [Cu|Cu]; [unfold older in Cu; congruence|]. constructor; [by apply IH|]. rewrite list.Forall_forall in *. intros v [->|Hv]%elem_of_insert_txn; auto.
Qed.

Lemma sort_txns_sorted l : Forall P l -> NoDup l -> (forall a b, a ∈ l -> b ∈ l -> a = b \/ older a b \/ older b a) -> StronglySorted older (sort_txns l).
Proof.
  induction l as [|t l IH]; [constructor|]. intros Pl Nl C. apply list.Forall_cons in Pl as [Pt Pl]. apply list.NoDup_cons in Nl as [Ht Nl]. cbn.
  fold (sort_txns l). apply insert_txn_sorted; [done|by rewrite sort_txns_perm| |apply IH; [done..|intros a b Ha Hb; apply C; by right]].
  apply list.Forall_forall. intros u Hu. rewrite sort_txns_perm in Hu. destruct (C t u ltac:(left) ltac:(by right)) as [E|E]; [subst u; by destruct (Ht Hu)|exact E].
Qed.
End order.

Lemma sorted_total (l : list txn) : StronglySorted older l -> forall a b, a ∈ l -> b ∈ l -> a = b \/ older a b \/ older b a.
Proof.
  induction 1 as [|t l _ IH F]; intros a b Ha Hb; [by apply elem_of_nil in Ha|]. rewrite list.Forall_forall in F.
  apply list.elem_of_cons in Ha as [->|Ha], Hb as [->|Hb]; auto.
Qed.

Lemma older_nodup (l : list txn) : StronglySorted older l -> NoDup l.
Proof.
  induction 1 as [|t l _ IH F]; constructor; [|done]. intros Ht. rewrite list.Forall_forall in F. specialize (F t Ht). unfold older, serial.ltb in F.
  rewrite !Z.ltb_irrefl in F. by destruct (_ || _).
Qed.

Lemma older_trans base a b c : serial.valid 32 (serial.Serial base) -> window base (txn_id a) -> window base (txn_id b) -> window base (txn_id c) ->
  older a b -> older b c -> older a c.
Proof. intros Hb [Va Wa] [Vb Wb] [Vc Wc]. unfold older. rewrite !(serial.ltb_age 32 (serial.Serial base)) by (done || lia). rewrite !Z.ltb_lt. lia. Qed.

Lemma submseteq_nodup {A} (l k : list A) : l ⊆+ k -> NoDup k -> NoDup l.
Proof. intros [m Hm]%submseteq_Permutation N. rewrite Hm in N. by apply list.NoDup_app in N as [N _]. Qed.

(** C32: for every history of transactions, whose ids increase in the serial order, and of
    flushes on a fresh log, where no write fails, recovery returns every transaction that
    is newer than all the flushed ids, returns only transactions of the history, none
    twice, and in their order. A transaction that was flushed may be returned too: only one
    of the two files is emptied by a flush. *)
Theorem history_recovers (base : Z) (es : list event) (d0 : txn) :
  history_ok base es ->
  exists w' out d, run es opened = Some w' /\ parse w' [] d0 = Some (out, d) /\
    (forall t, t ∈ txns es ->
      (forall id, id ∈ flushes es -> serial.ltb 32 (serial.Serial id) (serial.Serial (txn_id t)) = true) ->
      t ∈ out) /\
    out ⊆+ txns es /\ StronglySorted older out.
Proof.
  intros H. destruct (run_inv base es opened (fun _ => []) [] [] (opened_inv base) H) as (w' & rs & E & J).
  { constructor. }
  destruct J as [W A _ _ _ K O]. destruct (A 0 ltac:(by left)) as (s0 & A0 & _).
  destruct (A 1 ltac:(by right)) as (s1 & A1 & _).
  destruct (wal_parse_acc rs _ 0 s0 [] d0 w' W ltac:(by left) eq_refl A0) as (d1 & P0).
  destruct (wal_parse_acc rs _ 1 s1 ([] ++ l_result s0) d1 w' W ltac:(by right) eq_refl A1) as (d2 & P1).
  specialize (O s0 s1 A0 A1). cbn [app] in O. destruct H as [Hb Hall _ Ho].
  exists w', (sort_txns (([] ++ l_result s0) ++ l_result s1)), d2. split_and!; [done|unfold parse; by rewrite P0, P1| | |].
  - intros t Ht Hf. apply elem_of_sort. simpl.
    destruct (K t Ht Hf) as (i & s & [-> | ->] & As & Hs); rewrite elem_of_app; [left|right]; congruence.
  - cbn [app]. by rewrite sort_txns_perm.
  - cbn [app]. eapply (sort_txns_sorted (fun t => window base (txn_id t))).
    + intros a b c. by apply older_trans.
    + apply list.Forall_forall. intros t Hin. apply (elem_of_submseteq _ _ _ Hin) in O. rewrite List.Forall_forall in Hall. apply list_elem_of_In in O. by apply Hall.
    + eapply submseteq_nodup; [exact O|]. by apply older_nodup.
    + intros a b Ha Hb'. apply (sorted_total (txns es) Ho); by eapply elem_of_submseteq.
Qed.

Definition sample_history : list event :=
  [ETxn (Txn 2 [OpRecord false [97] [1]]); EFlush 2; ETxn (Txn 3 [OpRecord true [97] []]); EFlush 2;
   ETxn (Txn 4 [OpRecord false [98] [2]])].

Lemma sample_window id : 1 <= id <= 10 -> window 1 id.
Proof.
  intros H. split; [unfold serial.valid, serial.MAX_VALUE; simpl; lia|].
  rewrite serial.steps_value; unfold serial.valid, serial.MAX_VALUE, serial.HALF_RANGE;
    cbn [serial.value]; change (2 ^ 32) with 4294967296; change (2 ^ (32 - 1)) with 2147483648;
    repeat zcase; lia.
Qed.

Lemma sample_history_ok : history_ok 1 sample_history.
Proof.
  split.
  - unfold serial.valid, serial.MAX_VALUE. simpl. lia.
  - assert (forall id d k v, 1 <= id <= 10 -> Forall (fun b => 0 <= b) k -> Forall (fun b => 0 <= b) v ->
      (d = true -> v = []) -> (length k + length v <= 2)%nat ->
      txn_ok (Txn id [OpRecord d k v]) /\ ops (Txn id [OpRecord d k v]) <> [] /\ window 1 id) as H.
    { intros id d k v Hi Hk Hv Hd Hl. split_and!; [|discriminate|by apply sample_window].
      split; [cbn [txn_id]; change (2 ^ 32) with 4294967296; lia|]. constructor; [|constructor].
      split_and!; [|done|done|done]. unfold op_rec. cbn [is_delete key val].
      destruct d; cbn [fits]; change (2 ^ 32) with 4294967296; lia. }
    repeat (constructor; [apply H; try done; try lia; repeat constructor; lia|]). constructor.
  - repeat (apply Forall_cons; [apply sample_window; lia|]). constructor.
  - repeat constructor.
Qed.

Lemma sample_flushes id : id ∈ flushes sample_history -> id = 2.
Proof.
  change (flushes sample_history) with [2; 2]. rewrite !elem_of_cons, elem_of_nil. tauto.
Qed.

Lemma history_recovers_witness :
  exists w' out d, run sample_history opened = Some w' /\ parse w' [] (Txn 0 []) = Some (out, d) /\
    Txn 3 [OpRecord true [97] []] ∈ out.
Proof.
  destruct (history_recovers 1 sample_history (Txn 0 []) sample_history_ok)
    as (w' & out & d & R & P & K & _).
  exists w', out, d. split; [exact R|]. split; [exact P|]. apply K.
  - right. left.
  - intros id Hid. rewrite (sample_flushes id Hid). reflexivity.
Defined.

(** ** What is not protected *)

Definition run_ok {E} (r : writer + writer * E) : writer :=
  match r with inl w => w | inr (w, _) => w end.

(** A second flush task that has passed its test when the writer moves to the
    file the first one has just cleared, and truncates it after the commit. *)
Definition t2 : txn := Txn 2 [OpRecord false [97] [1]].
Definition t3 : txn := Txn 3 [OpRecord false [98] [2]].

Definition race : writer :=
  let w := run_ok (commit_txn t2 Done Done opened) in
  let w := flushed 2 true Done w in
  let pending := flushed_test 2 w in
  let w := run_ok (commit_txn t3 Done Done w) in
  match pending with Some idx => flushed_clear idx true Done w | None => w end.

(** two flushes of the same transaction, the second one interleaved
    with a commit between its test and its truncation, erase the newer committed
    transaction from the log. *)
Theorem flushed_race_loses_commit :
  flushed_test 2 (flushed 2 true Done (run_ok (commit_txn t2 Done Done opened))) = Some 1 /\
  commit_txn t3 Done Done (flushed 2 true Done (run_ok (commit_txn t2 Done Done opened))) =
    inl (run_ok (commit_txn t3 Done Done (flushed 2 true Done (run_ok (commit_txn t2 Done Done opened))))) /\
  parse race [] (Txn 0 []) = Some ([t2], Txn 0 []).
Proof. split_and!; reflexivity. Qed.

(** A transaction whose value contains an encoded transaction; its write fails
    after the value, the next transaction is shorter. *)
Definition phantom : txn := Txn 9 [OpRecord false [102] [6]].
Definition pad : list Z := [0; 0].
Definition big : txn := Txn 2 [OpRecord false [97] (pad ++ encode_all (block phantom))].
Definition small : txn := Txn 2 [OpRecord false [97] []].

Definition stale : writer :=
  let w := run_ok (prepare_txn big (Short 1000) opened) in
  run_ok (commit_txn small Done Done (abort w)).

(** after a [prepare] whose write failed and a shorter transaction
    that committed, the bytes of the failed write are still behind the log, and
    recovery replays a transaction nobody ever issued. *)
Theorem failed_prepare_leaves_phantom :
  parse stale [] (Txn 0 []) = Some ([small; phantom], Txn 0 []).
Proof. reflexivity. Qed.

(** [abort] after [prepare] leaves the prepared records in the file:
    recovery hands out the rolled-back transaction as dangling, until the next
    transaction is written. *)
Theorem abort_after_prepare (t : txn) (rs : Z -> list record) (w : writer) (s : log_state) (d0 : txn) :
  writer_ok w rs -> txn_ok t -> ops t <> [] -> accept_all start (rs (next_log w)) = Some s ->
  exists w', prepare_txn t Done w = inl w' /\
    wal_parse (files (abort w') (next_log w)) [] d0 = Some (l_result s, t).
Proof.
  intros W Ht Hne A. pose proof (ok_next _ _ W) as Hn.
  destruct (prepare_txn_run t Done rs w W Ht Hne) as (w1 & E1 & W1 & _). exists w1. split; [done|].
  change (files (abort w1)) with (files w1).
  rewrite (parse_ok w1 _ _ (LogState true true t (l_result s)) d0 W1 Hn); [done|].
  rewrite upd_eq, accept_all_app, A. simpl. rewrite accept_all_app, accept_ops by (done || apply Ht).
  simpl. by destruct t.
Qed.

Lemma opened_ok : writer_ok opened (fun _ => []).
Proof. apply (opened_inv 1). Qed.

Lemma t2_ok : txn_ok t2.
Proof. repeat constructor; simpl; lia || discriminate. Qed.

Lemma abort_after_prepare_witness :
  exists w', prepare_txn t2 Done opened = inl w' /\
    wal_parse (files (abort w') 0) [] (Txn 0 []) = Some ([], t2).
Proof.
  apply (abort_after_prepare t2 (fun _ => []) opened start (Txn 0 []) opened_ok t2_ok);
    [discriminate|reflexivity].
Defined.

Lemma committed_is_recovered_witness :
  exists w', commit_txn t2 Done Done opened = inl w' /\
    wal_parse (files w' 0) [] (Txn 0 []) = Some ([t2], Txn 0 []).
Proof.
  destruct (committed_is_recovered t2 (fun _ => []) opened start (Txn 0 []) opened_ok t2_ok)
    as (w' & E & P & _); [discriminate|reflexivity|]. exists w'. split; [exact E|exact P].
Defined.

Lemma failed_prepare_keeps_committed_witness :
  exists w' d, prepare_txn t2 (Short 7) opened = inr (w', WalError) /\
    wal_parse (files w' 0) [] (Txn 0 []) = Some ([], d).
Proof.
  destruct (failed_prepare_keeps_committed t2 7 (fun _ => []) opened start (Txn 0 []) opened_ok t2_ok)
    as (w' & d & E & P & _); [discriminate|reflexivity|]. exists w', d. split; [exact E|exact P].
Defined.

End walwriter.
