(* ===== verification/Memory.v ===== *)
(** * Memory: the page allocator of a transaction

    Models [memory/_memory.hpp], lines 40-321: the size-class search, the queues
    of freed pages ([_GarbageSlot], chained page containers) and the allocator
    above them ([_MemManager]). [alloc], [pop], [free] and [push] call each other:
    an exhausted container is freed like any other page, and a container comes
    from the allocator. A body takes the operation it calls as an argument, and
    [alloc_f], [pop_f], [push_f] tie the knot with fuel.

    Pages are named by their offset; the memory of the pages the code reads and
    writes is the functions [cnext], [cblock] (a page used as a container) and
    [slot_id] (the page header). The resolver's [may_recycle] and the transaction
    [mark_for_recycle] stamps are parameters, as is the supply of areas behind
    [alloc_single_area]. Offsets and counters are unbounded: the code's are 64-bit
    offsets of a file and counters of its pages. *)
From S2P Require Import Prelude.

Module memory.

(** [binary_search(first, last, value)] over the table [t]; [fuel] bounds the
    halvings. *)
Fixpoint search (fuel : nat) (t : Z -> Z) (first last value : Z) : option Z :=
  match fuel with
  | O => None
  | S f =>
      if first <? last then
        let mid := first + (last - first) / 2 in
        if t mid =? value then Some mid
        else if t mid <? value then search f t (mid + 1) last value
        else search f t first mid value
      else Some first
  end.

Definition binary_search (t : Z -> Z) (n value : Z) : option Z :=
  search (S (Z.to_nat n)) t 0 n value.

Record item := Item { link : Z; txn_id : Z }.

Record slot := Slot {
  ostart : Z;
  oend : Z;
  count : Z;
  istart : Z;
  iend : Z
}.

Record state := State {
  slots : Z -> slot;
  left_over_start : Z;
  left_over_end : Z;
  allocation_start : Z;
  allocation_end : Z;
  cnext : Z -> Z;
  cblock : Z -> Z -> item;
  slot_id : Z -> Z;
  areas : list (Z * Z)
}.

Definition set_slot (s : Z) (sl : slot) (st : state) : state :=
  State (upd (slots st) s sl) (left_over_start st) (left_over_end st) (allocation_start st)
    (allocation_end st) (cnext st) (cblock st) (slot_id st) (areas st).

Definition set_next (c n : Z) (st : state) : state :=
  State (slots st) (left_over_start st) (left_over_end st) (allocation_start st)
    (allocation_end st) (upd (cnext st) c n) (cblock st) (slot_id st) (areas st).

Definition set_block (c i : Z) (b : item) (st : state) : state :=
  State (slots st) (left_over_start st) (left_over_end st) (allocation_start st)
    (allocation_end st) (cnext st) (upd (cblock st) c (upd (cblock st c) i b)) (slot_id st)
    (areas st).

Definition set_slot_id (p s : Z) (st : state) : state :=
  State (slots st) (left_over_start st) (left_over_end st) (allocation_start st)
    (allocation_end st) (cnext st) (cblock st) (upd (slot_id st) p s) (areas st).

Definition set_space (ls le a e : Z) (ar : list (Z * Z)) (st : state) : state :=
  State (slots st) ls le a e (cnext st) (cblock st) (slot_id st) ar.

(** A call returns a value and the next state, dereferences a null page, or runs
    out of the model's fuel. *)
Inductive outcome (A : Type) :=
  | Ok (x : A)
  | NullPage
  | NoFuel.
Arguments Ok {A}. Arguments NullPage {A}. Arguments NoFuel {A}.

#[export] Instance outcome_bind : MBind outcome := fun A B f m =>
  match m with Ok x => f x | NullPage => NullPage | NoFuel => NoFuel end.

Section with_traits.
(** The capacity of a container, the size class of a container page, the size of
    a page of a class, and the resolver's recycling test and stamp. *)
Context (COUNT SLOT_ID : Z) (PAGE_SIZES : Z -> Z) (may_recycle : Z -> bool) (stamp : Z).

(** [_MemManager::init]. *)
Definition init (allocation_start_ allocation_end_ : Z) (st : state) : state :=
  State (fun _ => Slot 0 0 0 0 0) 0 0 allocation_start_ allocation_end_
    (cnext st) (cblock st) (slot_id st) (areas st).

(** [_GarbageSlot::pop]; [free] is the manager's. *)
Definition pop (free : Z -> state -> outcome state) (s : Z) (st : state) :
    outcome (option Z * state) :=
  let sl := slots st s in
  if count sl =? 0 then Ok (None, st)
  else
    let front := ostart sl in
    let b := cblock st front (istart sl) in
    if negb (may_recycle (txn_id b)) then Ok (None, st)
    else
      let result := link b in
      let sl1 := Slot (ostart sl) (oend sl) (count sl - 1) (istart sl + 1) (iend sl) in
      if COUNT <=? istart sl1 then
        if (slot_id st result =? SLOT_ID) && (count sl1 =? 0) then
          Ok (None, set_slot s (Slot (ostart sl1) (oend sl1) 1 (istart sl1 - 1) (iend sl1)) st)
        else
          let n := cnext st front in
          let sl2 :=
            if n =? 0 then Slot n 0 (count sl1) 0 0
            else Slot n (oend sl1) (count sl1) 0 (iend sl1) in
          st' ← free front (set_slot s sl2 st); Ok (Some result, st')
      else Ok (Some result, set_slot s sl1 st).

(** The page that comes from the allocation space, where no freed page serves. *)
Definition carve (sidx : Z) (st : state) : option Z * state :=
  let bsize := PAGE_SIZES sidx in
  if left_over_start st + bsize <=? left_over_end st then
    let result := left_over_start st in
    (Some result, set_slot_id result sidx
      (set_space (result + bsize) (left_over_end st) (allocation_start st)
        (allocation_end st) (areas st) st))
  else
    let take result ls le e ar :=
      (Some result, set_slot_id result sidx (set_space ls le (result + bsize) e ar st)) in
    if allocation_end st <? allocation_start st + bsize then
      let '(ls, le) :=
        if left_over_end st - left_over_start st <? allocation_end st - allocation_start st
        then (allocation_start st, allocation_end st)
        else (left_over_start st, left_over_end st) in
      match areas st with
      | [] => (None, set_space ls le (allocation_start st) (allocation_end st) [] st)
      | (content, end_) :: ar => take content ls le end_ ar
      end
    else
      take (allocation_start st) (left_over_start st) (left_over_end st) (allocation_end st)
        (areas st).

(** [_MemManager::alloc]; [pop] is the slot's. *)
Definition alloc (pop : Z -> state -> outcome (option Z * state)) (sidx : Z) (st : state) :
    outcome (option Z * state) :=
  '(result, st') ← pop sidx st;
  match result with
  | Some p => Ok (Some p, set_slot_id p sidx st')
  | None => Ok (carve sidx st')
  end.

(** [_GarbageSlot::push]: the container of the next block, then the block. [back]
    is the code's local copy of the end of the queue: it is not read again after
    the allocation. *)
Definition push_back (alloc : Z -> state -> outcome (option Z * state)) (s : Z) (st : state) :
    outcome (Z * state) :=
  let sl := slots st s in
  if negb (oend sl =? 0) then
    let back := oend sl in
    if COUNT <=? iend sl then
      '(r, st1) ← alloc SLOT_ID st;
      match r with
      | None => NullPage
      | Some new_back =>
          let st2 := set_next back new_back (set_next new_back 0 st1) in
          let sl2 := slots st2 s in
          Ok (new_back, set_slot s (Slot (ostart sl2) new_back (count sl2) (istart sl2) 0) st2)
      end
    else Ok (back, st)
  else
    '(r, st1) ← alloc SLOT_ID st;
    match r with
    | None => NullPage
    | Some back =>
        let st2 := set_next back 0 st1 in
        let sl2 := slots st2 s in
        Ok (back, set_slot s (Slot back back (count sl2) (istart sl2) (iend sl2)) st2)
    end.

Definition put_block (s back block : Z) (st : state) : state :=
  let sl := slots st s in
  let st1 := set_block back (iend sl) (Item block stamp) st in
  set_slot s (Slot (ostart sl) (oend sl) (count sl + 1) (istart sl) (iend sl + 1)) st1.

Definition push (alloc : Z -> state -> outcome (option Z * state)) (s block : Z) (st : state) :
    outcome state :=
  '(back, st') ← push_back alloc s st; Ok (put_block s back block st').

(** [_MemManager::free]. *)
Definition free (push : Z -> Z -> state -> outcome state) (block : Z) (st : state) : outcome state :=
  push (slot_id st block) block st.

(** The recursion between them. *)
Fixpoint alloc_f (fuel : nat) : Z -> state -> outcome (option Z * state) :=
  match fuel with
  | O => fun _ _ => NoFuel
  | S f => alloc (pop (free (push (alloc_f f))))
  end.

Definition pop_f (fuel : nat) : Z -> state -> outcome (option Z * state) :=
  pop (free (push (alloc_f fuel))).

Definition push_f (fuel : nat) : Z -> Z -> state -> outcome state := push (alloc_f fuel).

Definition free_f (fuel : nat) : Z -> state -> outcome state := free (push_f fuel).

(** [_GarbageSlot::iter]: the blocks the callback sees, [fuel] bounds the
    containers. *)
Fixpoint iter (fuel : nat) (st : state) (o end_ index iend_ : Z) : option (list item) :=
  match fuel with
  | O => None
  | S f =>
      if o =? end_ then Some (map (cblock st o) (seqZ index (iend_ - index)))
      else
        match iter f st (cnext st o) end_ 0 iend_ with
        | Some l => Some (map (cblock st o) (seqZ index (COUNT - index)) ++ l)
        | None => None
        end
  end.

Definition iter_slot (fuel : nat) (s : Z) (st : state) : option (list item) :=
  let sl := slots st s in iter fuel st (ostart sl) (oend sl) (istart sl) (iend sl).
End with_traits.

(** [_MemStatistics::add]. *)
Record stat := Stat { page_size : Z; scount : Z; sfree : Z }.

Definition stat_add (PAGE_SIZES : Z -> Z) (sidx count free : Z) (t : Z -> stat) : Z -> stat :=
  upd t sidx (Stat (PAGE_SIZES sidx) (scount (t sidx) + count) (sfree (t sidx) + free)).

End memory.
