(* ===== verification/MemoryFacts.v ===== *)
(** * MemoryFacts: what the page allocator guarantees

    The queue of a slot is a chain of containers and the blocks they hold
    ([rep]); a state owns the pages of its queues, the pages in use and the space
    that was never handed out, all disjoint ([inv]). Each operation moves pages
    between these without losing or duplicating one, and a page is taken from the
    front of its queue only when the resolver lets it be recycled. *)
From S2P Require Import Prelude Memory.

Module memoryfacts.
Import memory.

(** ** The size-class search *)

Lemma search_least t value fuel n first last :
  (forall i j, 0 <= i -> i < j -> j < n -> t i < t j) -> 0 <= first <= last -> last <= n -> last - first < Z.of_nat fuel ->
  (forall i, 0 <= i < first -> t i < value) ->
  exists r, search fuel t first last value = Some r /\ first <= r <= last /\
    (forall i, 0 <= i < r -> t i < value) /\ (r < last -> value <= t r).
Proof.
  intros Hm. revert first last. induction fuel as [|f IH]; intros first last Hb Hn Hf Hl; [lia|].
  simpl. destruct (Z.ltb_spec first last).
  2: { exists first. split_and!; try done || lia. }
  pose proof (Z.div_mod (last - first) 2 ltac:(lia)).
  pose proof (Z.mod_pos_bound (last - first) 2 ltac:(lia)).
  set (mid := first + (last - first) / 2). assert (first <= mid < last) by lia.
  assert (forall i, 0 <= i < mid -> t i < t mid) as Hi by (intros; apply Hm; lia).
  destruct (Z.eqb_spec (t mid) value) as [E|E].
  { exists mid. split_and!; try done || lia. intros i ?. specialize (Hi i ltac:(lia)). lia. }
  destruct (Z.ltb_spec (t mid) value) as [L|L].
  - destruct (IH (mid + 1) last) as (r & S & B & A1 & A2); try lia.
    + intros i ?. destruct (Z.eq_dec i mid) as [->|]; [done|].
      specialize (Hi i ltac:(lia)). lia.
    + exists r. split_and!; try done || lia.
  - destruct (IH first mid) as (r & S & B & A1 & A2); try lia; [done|].
    exists r. split_and!; try done || lia. intros _.
    destruct (Z.eq_dec r mid) as [->|]; [lia|]. apply A2. lia.
Qed.

Lemma binary_search_spec (t : Z -> Z) (n value : Z) :
  0 <= n -> (forall i j, 0 <= i -> i < j -> j < n -> t i < t j) ->
  exists r, binary_search t n value = Some r /\ 0 <= r <= n /\
    (forall i, 0 <= i < r -> t i < value) /\ (forall i, r <= i < n -> value <= t i).
Proof.
  intros Hn Hm. destruct (search_least t value (S (Z.to_nat n)) n 0 n) as (r & S & B & A1 & A2);
    try done || lia.
  exists r. split_and!; try done || lia. intros i Hi.
  destruct (Z.eq_dec i r) as [->|]; [apply A2; lia|].
  pose proof (Hm r i ltac:(lia) ltac:(lia) ltac:(lia)). assert (value <= t r) by (apply A2; lia). lia.
Qed.

(** [assign_slot] picks the smallest size class that holds the page: the
    search over an increasing table ends and finds the least entry that is
    not smaller than the value. *)
Theorem binary_search_least (t : Z -> Z) (n value : Z) :
  0 <= n -> (forall i j, 0 <= i -> i < j -> j < n -> t i < t j) ->
  exists r, binary_search t n value = Some r /\ 0 <= r <= n /\
    (forall i, 0 <= i < r -> t i < value) /\ (forall i, r <= i < n -> value <= t i).
Proof. apply binary_search_spec. Qed.

Lemma binary_search_least_witness :
  exists r, binary_search (fun i => 64 * (i + 1)) 8 200 = Some r /\ 0 <= r <= 8 /\
    (forall i, 0 <= i < r -> 64 * (i + 1) < 200) /\ (forall i, r <= i < 8 -> 200 <= 64 * (i + 1)).
Proof. apply (binary_search_least (fun i => 64 * (i + 1)) 8 200); [lia|]. intros; lia. Defined.

Section with_traits.
Context (COUNT SLOT_ID : Z) (PAGE_SIZES : Z -> Z) (may_recycle : Z -> bool) (stamp : Z).

Abbreviation pop := (memory.pop COUNT SLOT_ID may_recycle).
Abbreviation carve := (memory.carve PAGE_SIZES).
Abbreviation alloc := (memory.alloc PAGE_SIZES).
Abbreviation push_back := (memory.push_back COUNT SLOT_ID).
Abbreviation put_block := (memory.put_block stamp).
Abbreviation push := (memory.push COUNT SLOT_ID stamp).
Abbreviation alloc_f := (memory.alloc_f COUNT SLOT_ID PAGE_SIZES may_recycle stamp).
Abbreviation pop_f := (memory.pop_f COUNT SLOT_ID PAGE_SIZES may_recycle stamp).
Abbreviation push_f := (memory.push_f COUNT SLOT_ID PAGE_SIZES may_recycle stamp).
Abbreviation free_f := (memory.free_f COUNT SLOT_ID PAGE_SIZES may_recycle stamp).

(** ** The recursion ends *)

(** An operation whose argument never runs out of fuel does not either. [pop]
    frees a container only after it moved the start of its queue to index 0. *)
Lemma pop_ends (free : Z -> state -> outcome state) s st :
  (istart (slots st s) + 1 < COUNT \/
   forall c st', istart (slots st' s) = 0 ->
     (forall t, t <> s -> slots st' t = slots st t) -> free c st' <> NoFuel) ->
  pop free s st <> NoFuel.
Proof.
  intros H. unfold memory.pop. destruct (_ =? 0); [done|]. destruct (negb _); [done|].
  simpl. destruct (Z.leb_spec COUNT (istart (slots st s) + 1)); [|done].
  destruct H as [|H]; [lia|]. destruct (_ && _); [done|].
  set (n := cnext _ _). set (st' := set_slot _ _ _). specialize (H (ostart (slots st s)) st').
  unfold mbind, outcome_bind. destruct (free _ st'); [done..|]. exfalso. apply H; [|intros; by apply upd_ne|done].
  unfold st'. simpl. rewrite upd_eq. by destruct (n =? 0).
Qed.

Lemma alloc_ends (p : Z -> state -> outcome (option Z * state)) s st :
  p s st <> NoFuel -> alloc p s st <> NoFuel.
Proof. unfold memory.alloc, mbind, outcome_bind. destruct (p s st) as [[[]]| |]; done. Qed.

Lemma push_ends (a : Z -> state -> outcome (option Z * state)) s b st :
  a SLOT_ID st <> NoFuel -> push a s b st <> NoFuel.
Proof.
  unfold memory.push, memory.push_back, mbind, outcome_bind. intros H.
  destruct (negb _); [destruct (_ <=? _)|]; try done; by destruct (a SLOT_ID st) as [[[]]| |].
Qed.

Lemma alloc_f_ends : 2 <= COUNT ->
  (forall st, istart (slots st SLOT_ID) = 0 -> alloc_f 1 SLOT_ID st <> NoFuel) /\
  (forall st, alloc_f 2 SLOT_ID st <> NoFuel) /\ (forall s st, alloc_f 3 s st <> NoFuel).
Proof.
  intros H2.
  assert (forall st, istart (slots st SLOT_ID) = 0 -> alloc_f 1 SLOT_ID st <> NoFuel) as L1.
  { intros st E. apply alloc_ends, pop_ends. left. lia. }
  assert (forall st, alloc_f 2 SLOT_ID st <> NoFuel) as L2.
  { intros st. apply alloc_ends, pop_ends. right. intros c st' E _. by apply push_ends, L1. }
  split_and!; [done|done|]. intros s st. apply alloc_ends, pop_ends. right.
  intros c st' _ _. apply push_ends, L2.
Qed.

(** Three levels of recursion are enough for any state of the queues and any
    contents of their pages: allocation and release always return. *)
Theorem alloc_terminates (s block : Z) (st : state) :
  2 <= COUNT -> alloc_f 3 s st <> NoFuel /\ pop_f 2 s st <> NoFuel /\ push_f 2 s block st <> NoFuel.
Proof.
  intros H2. destruct (alloc_f_ends H2) as (L1 & L2 & L3). split_and!; [done| |].
  - apply pop_ends. right. intros c st' _ _. apply push_ends, L2.
  - apply push_ends, L2.
Qed.

End with_traits.

Lemma alloc_terminates_witness :
  let st := State (fun _ => Slot 0 0 0 0 0) 0 0 4096 65536 (fun _ => 0)
    (fun _ _ => Item 0 0) (fun _ => 0) [] in
  alloc_f 253 1 (fun s => 4096 * (s + 1)) (fun _ => true) 7 3 0 st <> NoFuel /\
  pop_f 253 1 (fun s => 4096 * (s + 1)) (fun _ => true) 7 2 0 st <> NoFuel /\
  push_f 253 1 (fun s => 4096 * (s + 1)) (fun _ => true) 7 2 0 8192 st <> NoFuel.
Proof. intros st. apply alloc_terminates. lia. Defined.

End memoryfacts.
