(* ===== verification/MemoryQueue.v ===== *)
(** * MemoryQueue: the freed pages of a slot as a queue

    The representation of a slot's queue by its chain of containers, and what the
    four elementary steps of the allocator do to it: taking the first block,
    dropping an exhausted container, adding a container and adding a block. *)
From S2P Require Import Prelude Memory MemoryFacts.

Module memoryqueue.
Import memory.

(** The abstract queue of a slot: its containers and its blocks, in order. *)
Record queue := Queue { chain : list Z; blocks : list item }.

Section with_traits.
Context (COUNT : Z).

(** The blocks of the containers [c :: cs] from index [i] of the first to index
    [e] of the last. *)
Fixpoint stored (block : Z -> Z -> item) (c i : Z) (cs : list Z) (e : Z) : list item :=
  match cs with
  | [] => map (block c) (seqZ i (e - i))
  | c' :: cs' => map (block c) (seqZ i (COUNT - i)) ++ stored block c' 0 cs' e
  end.

Fixpoint linked (next : Z -> Z) (c : Z) (cs : list Z) : Prop :=
  match cs with
  | [] => next c = 0
  | c' :: cs' => next c = c' /\ linked next c' cs'
  end.

Fixpoint back (c : Z) (cs : list Z) : Z :=
  match cs with [] => c | c' :: cs' => back c' cs' end.

(** The state of slot [s] represents the queue [q]. *)
Definition rep (st : state) (s : Z) (q : queue) : Prop :=
  let sl := slots st s in
  match chain q with
  | [] => sl = Slot 0 0 0 0 0 /\ blocks q = []
  | c :: cs =>
      ostart sl = c /\ oend sl = back c cs /\ linked (cnext st) c cs /\
      0 <= istart sl < COUNT /\ 0 <= iend sl <= COUNT /\ (cs = [] -> istart sl <= iend sl) /\
      blocks q = stored (cblock st) c (istart sl) cs (iend sl) /\
      count sl = Z.of_nat (length (blocks q))
  end.

(** ** Lemmas on chains *)

Lemma stored_ext block block' c i cs e :
  (forall x j, x ∈ c :: cs -> block' x j = block x j) ->
  stored block' c i cs e = stored block c i cs e.
Proof.
  revert c i. induction cs as [|c' cs IH]; intros c i E; simpl.
  - apply map_ext. intros j. apply E. set_solver.
  - f_equal; [apply map_ext; intros j; apply E; set_solver|]. apply IH. set_solver.
Qed.

Lemma linked_ext next next' c cs :
  (forall x, x ∈ c :: cs -> next' x = next x) -> linked next c cs -> linked next' c cs.
Proof.
  revert c. induction cs as [|c' cs IH]; intros c E; simpl.
  - intros <-. apply E. set_solver.
  - intros [<- H]. split; [apply E; set_solver|]. apply IH; [set_solver|done].
Qed.

Lemma back_elem c cs : back c cs ∈ c :: cs.
Proof. revert c. induction cs; intros; simpl; set_solver. Qed.

Lemma back_snoc c cs n : back c (cs ++ [n]) = n.
Proof. revert c. induction cs; intros; simpl; done. Qed.

Lemma linked_snoc next c cs n :
  NoDup (c :: cs ++ [n]) -> linked next c cs ->
  linked (upd (upd next n 0) (back c cs) n) c (cs ++ [n]).
Proof.
  revert c. induction cs as [|c' cs IH]; intros c N L; simpl in *.
  - rewrite upd_eq. split; [done|]. apply list.NoDup_cons in N as [N _].
    rewrite upd_ne by set_solver. apply upd_eq.
  - destruct L as [E L]. apply list.NoDup_cons in N as [Nc N]. split; [|by apply IH].
    assert (c <> n) by (intros ->; apply Nc; clear; set_solver).
    assert (c <> back c' cs).
    { intros ->. apply Nc. pose proof (back_elem c' cs). clear -H0. set_solver. }
    by rewrite !upd_ne.
Qed.

Lemma stored_cons block c i cs e :
  0 <= i < COUNT -> (cs = [] -> i < e) ->
  stored block c i cs e = block c i :: stored block c (i + 1) cs e.
Proof.
  intros Hi He. destruct cs as [|c' cs]; simpl.
  - rewrite (seqZ_cons i) by (specialize (He eq_refl); lia). simpl.
    do 3 f_equal; lia.
  - rewrite (seqZ_cons i) by lia. simpl. do 4 f_equal; lia.
Qed.

Lemma stored_extend block c i cs n :
  stored block c i (cs ++ [n]) 0 = stored block c i cs COUNT.
Proof.
  revert c i. induction cs as [|c' cs IH]; intros c i; simpl.
  - by rewrite app_nil_r.
  - by rewrite IH.
Qed.

Lemma stored_put block c i cs e x :
  NoDup (c :: cs) -> 0 <= i -> 0 <= e -> (cs = [] -> i <= e) ->
  let b := back c cs in
  stored (upd block b (upd (block b) e x)) c i cs (e + 1) = stored block c i cs e ++ [x].
Proof.
  revert c i. induction cs as [|c' cs IH]; intros c i N Hi He H; simpl.
  - replace (e + 1 - i) with (e - i + 1) by lia. specialize (H eq_refl).
    rewrite seqZ_app, map_app by lia. f_equal.
    + apply List.map_ext_in. intros j Hj%list_elem_of_In%elem_of_seqZ.
      rewrite upd_eq, upd_ne by lia. done.
    + rewrite (seqZ_cons (i + (e - i))), seqZ_nil by lia. simpl. rewrite upd_eq.
      replace (i + (e - i)) with e by lia. by rewrite upd_eq.
  - apply list.NoDup_cons in N as [Nc N]. rewrite IH by (done || lia). simpl. rewrite <- app_assoc.
    f_equal. apply map_ext. intros j. rewrite upd_ne; [done|].
    intros ->. by pose proof (back_elem c' cs).
Qed.

Lemma stored_nonempty block c i cs e b bs :
  stored block c i cs e = b :: bs -> cs = [] -> i < e.
Proof.
  intros E ->. simpl in E. destruct (Z.le_gt_cases (e - i) 0); [|lia].
  by rewrite seqZ_nil in E by lia.
Qed.

(** ** The elementary steps *)

Lemma queue_frame st st' s q :
  slots st' s = slots st s -> (forall c, c ∈ chain q -> cnext st' c = cnext st c) ->
  (forall c i, c ∈ chain q -> cblock st' c i = cblock st c i) -> rep st s q -> rep st' s q.
Proof.
  intros Es En Eb R. unfold rep in *. rewrite Es. destruct (chain q) as [|c cs]; [done|].
  destruct R as (R1 & R2 & R3 & R4 & R5 & R6 & R7 & R8). split_and!; try done || lia.
  - by eapply linked_ext.
  - rewrite R7. symmetry. by apply stored_ext.
Qed.

(** The first block of a represented queue is the one [pop] looks at. *)
Lemma rep_head st s q b bs :
  rep st s q -> blocks q = b :: bs ->
  exists c cs, chain q = c :: cs /\ ostart (slots st s) = c /\ count (slots st s) <> 0 /\
    cblock st c (istart (slots st s)) = b /\
    stored (cblock st) c (istart (slots st s) + 1) cs (iend (slots st s)) = bs.
Proof.
  unfold rep. intros R E. destruct (chain q) as [|c cs]; [destruct R; congruence|].
  destruct R as (R1 & R2 & R3 & R4 & R5 & R6 & R7 & R8). exists c, cs.
  rewrite E in *. symmetry in R7. pose proof (stored_nonempty _ _ _ _ _ _ _ R7).
  rewrite stored_cons in R7 by done. injection R7 as -> ->. simpl in R8. split_and!; done || lia.
Qed.

Lemma rep_empty st s q : rep st s q -> blocks q = [] -> count (slots st s) = 0.
Proof.
  unfold rep. intros R E. destruct (chain q); [by destruct R as [-> _]|].
  destruct R as (_ & _ & _ & _ & _ & _ & _ & ->). by rewrite E.
Qed.

(** Taking the first block where its container has more room behind it. *)
Lemma rep_pop st s q b bs :
  rep st s q -> blocks q = b :: bs -> istart (slots st s) + 1 < COUNT ->
  let sl := slots st s in
  rep (set_slot s (Slot (ostart sl) (oend sl) (count sl - 1) (istart sl + 1) (iend sl)) st) s
    (Queue (chain q) bs).
Proof.
  intros R E Hi. destruct (rep_head _ _ _ _ _ R E) as (c & cs & Ec & _ & _ & Eb & Es).
  unfold rep in *. simpl. rewrite upd_eq, Ec in *. simpl. rewrite E in *.
  destruct R as (R1 & R2 & R3 & R4 & R5 & R6 & R7 & R8). simpl in R8. split_and!; try done || lia.
  intros ->. symmetry in R7. apply stored_nonempty in R7; [lia|done].
Qed.

(** Dropping the container whose last block was taken. *)
Lemma rep_drop st s q b bs :
  rep st s q -> blocks q = b :: bs -> COUNT <= istart (slots st s) + 1 -> 0 ∉ chain q ->
  let sl := slots st s in
  let n := cnext st (ostart sl) in
  rep (set_slot s (if n =? 0 then Slot n 0 (count sl - 1) 0 0
                   else Slot n (oend sl) (count sl - 1) 0 (iend sl)) st) s
    (Queue (tl (chain q)) bs) /\ (tl (chain q) = [] -> bs = []).
Proof.
  intros R E Hi H0. destruct (rep_head _ _ _ _ _ R E) as (c & cs & Ec & _ & _ & Eb & Es).
  unfold rep in *. simpl. rewrite upd_eq, Ec in *. simpl. rewrite E in *.
  destruct R as (R1 & R2 & R3 & R4 & R5 & R6 & R7 & R8). rewrite R1.
  assert (istart (slots st s) + 1 = COUNT) as Ei by lia. rewrite Ei in Es.
  simpl in R8. destruct cs as [|c' cs]; simpl in *.
  - rewrite R3. simpl. rewrite seqZ_nil in Es by lia. simpl in Es. subst bs. simpl in *.
    split; [|done]. split; [|done]. f_equal. lia.
  - destruct R3 as [R3 L]. rewrite R3. rewrite seqZ_nil in Es by lia. simpl in Es.
    destruct (Z.eqb_spec c' 0); [set_solver|]. simpl. split; [|done].
    split_and!; try done || lia.
Qed.

(** Adding a block behind the last one. *)
Lemma rep_put st s q stamp p :
  rep st s q -> chain q <> [] -> NoDup (chain q) -> iend (slots st s) < COUNT ->
  rep (put_block stamp s (oend (slots st s)) p st) s (Queue (chain q) (blocks q ++ [Item p stamp])).
Proof.
  intros R Hne N He. unfold rep in *. simpl. rewrite upd_eq. simpl.
  destruct (chain q) as [|c cs]; [done|].
  destruct R as (R1 & R2 & R3 & R4 & R5 & R6 & R7 & R8). split_and!; try done || lia.
  - intros Hc. specialize (R6 Hc). lia.
  - rewrite R2, R7, stored_put; done || lia.
  - rewrite length_app, R8. simpl. lia.
Qed.

(** Adding a container behind a full one. *)
Lemma rep_extend st s q n :
  rep st s q -> chain q <> [] -> NoDup (chain q ++ [n]) -> iend (slots st s) = COUNT ->
  let sl := slots st s in
  rep (set_slot s (Slot (ostart sl) n (count sl) (istart sl) 0)
    (set_next (oend sl) n (set_next n 0 st))) s (Queue (chain q ++ [n]) (blocks q)).
Proof.
  intros R Hne N He. unfold rep in *. simpl. rewrite upd_eq. simpl.
  destruct (chain q) as [|c cs]; [done|]. simpl.
  destruct R as (R1 & R2 & R3 & R4 & R5 & R6 & R7 & R8). split_and!; try done || lia.
  - by rewrite back_snoc.
  - rewrite R2. by apply linked_snoc.
  - by destruct cs.
  - by rewrite stored_extend, R7, He.
Qed.

(** The first container of an empty queue. *)
Lemma rep_start st s n : 0 < COUNT ->
  slots st s = Slot 0 0 0 0 0 ->
  rep (set_slot s (Slot n n 0 0 0) (set_next n 0 st)) s (Queue [n] []).
Proof.
  intros H E. unfold rep. simpl. rewrite !upd_eq. simpl. split_and!; done || lia.
Qed.

(** [iter] visits exactly the blocks of the queue, in order. *)
Lemma iter_stored fuel st c i cs e :
  NoDup (c :: cs) -> linked (cnext st) c cs -> (length cs < fuel)%nat ->
  iter COUNT fuel st c (back c cs) i e = Some (stored (cblock st) c i cs e).
Proof.
  revert fuel c i. induction cs as [|c' cs IH]; intros [|fuel] c i N L Hf; simpl in *; try lia.
  - by rewrite Z.eqb_refl.
  - apply list.NoDup_cons in N as [Nc N]. destruct L as [L1 L2].
    destruct (Z.eqb_spec c (back c' cs)) as [->|]; [by pose proof (back_elem c' cs)|].
    rewrite L1, IH by (done || lia). done.
Qed.

(** The walk over a slot's queue visits every freed block once, first freed
    first, and ends after as many containers as the queue has. *)
Theorem iter_visits_queue (fuel : nat) (st : state) (s : Z) (q : queue) :
  rep st s q -> chain q <> [] -> NoDup (chain q) -> (length (chain q) <= fuel)%nat ->
  iter_slot COUNT fuel s st = Some (blocks q).
Proof.
  unfold rep, iter_slot. destruct (chain q) as [|c cs]; [done|]. simpl.
  intros (-> & -> & R3 & R4 & R5 & R6 & -> & R8) _ N Hf. apply iter_stored; done || lia.
Qed.
End with_traits.

Lemma iter_visits_queue_witness :
  let st := State (fun _ => Slot 100 200 3 1 2) 0 0 0 0
    (fun c => if c =? 100 then 200 else 0) (fun c i => Item (c + i) i) (fun _ => 0) [] in
  iter_slot 2 2 0 st = Some [Item 101 1; Item 200 0; Item 201 1].
Proof.
  intros st. apply (iter_visits_queue 2 2 st 0 (Queue [100; 200] [Item 101 1; Item 200 0; Item 201 1])).
  - unfold rep. cbn. split_and!; done || lia.
  - done.
  - apply (bool_decide_unpack _). by vm_compute.
  - simpl. lia.
Defined.

End memoryqueue.
