(* ===== verification/MemoryInv.v ===== *)
(** * MemoryInv: no page is lost, duplicated or handed out twice

    The pages of a state: the containers and blocks of its queues, the pages in
    use, and the space that was never handed out. All are disjoint, and [alloc]
    and [push] move pages between them. The one guard the code lacks is [safe], which
    asks that the queue of container pages be [calm]: it must not drop its first
    container while its last one is full, when a container page is freed; without it
    [free_loses_pages]. [guarded] is the part of it that can be read off a state, and
    [goes] the traces of allocations and releases from guarded states. *)
From S2P Require Import Prelude Memory MemoryFacts MemoryQueue.

Module memoryinv.
Import memory memoryfacts memoryqueue.

Section with_traits.
Context (COUNT SLOT_ID NSLOTS : Z) (PAGE_SIZES : Z -> Z) (may_recycle : Z -> bool) (stamp : Z).
Hypothesis COUNT_two : 2 <= COUNT.
Hypothesis SLOT_ID_class : 0 <= SLOT_ID < NSLOTS.
Hypothesis PAGE_SIZES_pos : forall s, 0 <= s < NSLOTS -> 0 < PAGE_SIZES s.

Abbreviation rep := (memoryqueue.rep COUNT).
Abbreviation pop := (memory.pop COUNT SLOT_ID may_recycle).
Abbreviation carve := (memory.carve PAGE_SIZES).
Abbreviation alloc := (memory.alloc PAGE_SIZES).
Abbreviation push_back := (memory.push_back COUNT SLOT_ID).
Abbreviation put_block := (memory.put_block stamp).
Abbreviation push := (memory.push COUNT SLOT_ID stamp).
Abbreviation alloc_f := (memory.alloc_f COUNT SLOT_ID PAGE_SIZES may_recycle stamp).
Abbreviation push_f := (memory.push_f COUNT SLOT_ID PAGE_SIZES may_recycle stamp).

(** The bytes of a page of a class, and the space not yet handed out. *)
Definition extent (p : Z * Z) : Z * Z := (fst p, fst p + PAGE_SIZES (snd p)).

Definition spaces (st : state) : list (Z * Z) :=
  (left_over_start st, left_over_end st) :: (allocation_start st, allocation_end st) :: areas st.

(** The pages of a queue with their size classes, and those of all queues. *)
Definition pages (s : Z) (q : queue) : list (Z * Z) :=
  map (fun c => (c, SLOT_ID)) (chain q) ++ map (fun b => (link b, s)) (blocks q).

Definition own (a : Z -> queue) : list (Z * Z) := flat_map (fun s => pages s (a s)) (seqZ 0 NSLOTS).

(** Pages and spaces are disjoint, every page's header holds its class, and an
    area has room for a page of any class. *)
Record pages_ok (st : state) (l : list (Z * Z)) : Prop := {
  ok_disjoint : pairwise disjoint (spaces st ++ map extent l);
  ok_headers : Forall (fun p => 0 < fst p /\ 0 <= snd p < NSLOTS /\ slot_id st (fst p) = snd p) l;
  ok_space : Forall (fun r => fst r < snd r -> 0 < fst r) (spaces st);
  ok_areas : Forall (fun r => 0 < fst r /\ forall s, 0 <= s < NSLOTS -> PAGE_SIZES s <= snd r - fst r)
    (areas st)
}.

(** The state represents the queues [a]; [used] are the pages in use. *)
Record inv (st : state) (a : Z -> queue) (used : list (Z * Z)) : Prop := {
  inv_rep : forall s, 0 <= s < NSLOTS -> rep st s (a s);
  inv_pages : pages_ok st (own a ++ used)
}.

(** ** Pages *)

Lemma pages_ok_perm st l l' : l ≡ₚ l' -> pages_ok st l -> pages_ok st l'.
Proof.
  intros P [D H S A]. split; try done.
  - revert D. by rewrite P.
  - revert H. rewrite !list.Forall_forall. intros H p Hp. apply H. by rewrite P.
Qed.

Lemma pages_ok_nodup st l : pages_ok st l -> NoDup (map fst l).
Proof.
  intros [D H _ _]. apply pairwise_app in D as (_ & D & _).
  induction l as [|[p t] l IH]; simpl in *; [by constructor|].
  destruct D as [D1 D2]. apply list.Forall_cons in H as [(Hp & Ht & _) H].
  constructor; [|by apply IH]. intros ([p' t'] & E & Hin)%list_elem_of_In%in_map_iff.
  simpl in E. subst p'. apply list_elem_of_In in Hin. revert D1. rewrite list.Forall_forall. intros D1.
  pose proof (proj1 (list.Forall_forall _ _) H _ Hin) as (_ & Ht' & _). simpl in *.
  apply (D1 (extent (p, t'))) with p.
  - apply list_elem_of_In, in_map_iff. exists (p, t'). split; [done|by apply list_elem_of_In].
  - simpl. pose proof (PAGE_SIZES_pos t Ht). lia.
  - simpl. pose proof (PAGE_SIZES_pos t' Ht'). lia.
Qed.

(** A change of the queues that keeps the space and the headers. *)
Lemma pages_ok_same st st' l :
  spaces st' = spaces st -> slot_id st' = slot_id st -> pages_ok st l -> pages_ok st' l.
Proof.
  intros Es Ei [D H S A]. split; [by rewrite Es|by rewrite Ei|by rewrite Es|].
  unfold spaces in Es. by injection Es as _ _ _ _ ->.
Qed.

(** Writing the header of a page with the class it has. *)
Lemma pages_ok_header st l p t : (p, t) ∈ l -> pages_ok st l -> pages_ok (set_slot_id p t st) l.
Proof.
  intros Hin [D H S A]. split; try done. simpl. revert H. rewrite !list.Forall_forall.
  intros H [p' t'] Hp'. pose proof (H _ Hin) as (_ & _ & E). destruct (H _ Hp') as (H1 & H2 & E').
  simpl in *. split_and!; try lia. destruct (Z.eq_dec p' p) as [->|].
  - rewrite upd_eq. lia.
  - by rewrite upd_ne.
Qed.

(** ** Carving a page from the space *)

Lemma disjoint_empty r x : disjoint r (x, x).
Proof. intros y ??. simpl in *. lia. Qed.

Lemma pairwise_split_second lo x y z l :
  x <= y <= z -> pairwise disjoint (lo :: (x, z) :: l) ->
  pairwise disjoint ((x, y) :: lo :: (y, z) :: l).
Proof.
  intros Hy. rewrite (perm_swap (x, z) lo). intros D. apply (pairwise_split x y z) in D; [|done].
  by rewrite (perm_swap (y, z) lo).
Qed.

(** The page [p] of class [s] was part of the unused space. *)
Definition fresh (st : state) (s p : Z) : Prop :=
  exists r, r ∈ spaces st /\ fst r <= p /\ p + PAGE_SIZES s <= snd r.

Lemma fresh_header st l s p st' :
  0 <= s < NSLOTS -> 0 < p -> slot_id st' = upd (slot_id st) p s ->
  pairwise disjoint ((p, p + PAGE_SIZES s) :: spaces st' ++ map extent l) ->
  Forall (fun r => fst r < snd r -> 0 < fst r) (spaces st') ->
  Forall (fun r => 0 < fst r /\ forall s, 0 <= s < NSLOTS -> PAGE_SIZES s <= snd r - fst r)
    (areas st') ->
  pages_ok st l -> pages_ok st' ((p, s) :: l).
Proof.
  intros Hs Hp Ei D S A [_ H _ _]. split; try done.
  - change (map extent ((p, s) :: l)) with ((p, p + PAGE_SIZES s) :: map extent l).
    by rewrite <- (Permutation_middle (spaces st') (map extent l)).
  - constructor; [simpl; rewrite Ei, upd_eq; done|].
    destruct D as [D _]. rewrite Forall_app in D. destruct D as [_ D].
    apply list.Forall_forall. intros [p' t'] Hin.
    destruct (proj1 (list.Forall_forall _ _) H _ Hin) as (H1 & H2 & H3). simpl in *.
    split_and!; try lia. rewrite Ei, upd_ne; [done|]. intros ->.
    apply (proj1 (list.Forall_forall _ _) D (extent (p, t'))) with p.
    + apply list_elem_of_In, in_map_iff. exists (p, t'). split; [done|by apply list_elem_of_In].
    + simpl. pose proof (PAGE_SIZES_pos s Hs). lia.
    + simpl. pose proof (PAGE_SIZES_pos t' ltac:(lia)). lia.
Qed.

Lemma carve_spec st l s :
  pages_ok st l -> areas st <> [] -> 0 <= s < NSLOTS ->
  exists p st', carve s st = (Some p, st') /\ pages_ok st' ((p, s) :: l) /\ fresh st s p /\
    slots st' = slots st /\ cnext st' = cnext st /\ cblock st' = cblock st.
Proof.
  intros O Ha Hs. pose proof (PAGE_SIZES_pos s Hs) as Hz. pose proof O as [D H S A].
  unfold memory.carve. unfold spaces in D, S. simpl in D. pose proof S as S0.
  apply list.Forall_cons in S as [S1 S]. apply list.Forall_cons in S as [S2 S3].
  simpl in S1, S2. unfold fresh. unfold spaces at 1.
  destruct (Z.leb_spec (left_over_start st + PAGE_SIZES s) (left_over_end st)) as [L|L].
  { eexists _, _. split; [reflexivity|]. split_and!; try done.
    2: { eexists. split; [left|simpl; lia]. }
    apply (fresh_header st); try done; [lia|..].
    - apply (pairwise_split _ (left_over_start st + PAGE_SIZES s)) in D; [exact D|lia].
    - unfold spaces. simpl. rewrite !list.Forall_cons. split_and!; simpl; try done; lia. }
  destruct (Z.ltb_spec (allocation_end st) (allocation_start st + PAGE_SIZES s)) as [L2|L2].
  2: { eexists _, _. split; [reflexivity|]. split_and!; try done.
    2: { eexists. split; [right; left|simpl; lia]. }
    apply (fresh_header st); try done; [lia|..].
    - apply (pairwise_split_second _ _ (allocation_start st + PAGE_SIZES s)) in D; [exact D|lia].
    - unfold spaces. simpl. rewrite !list.Forall_cons. split_and!; simpl; try done; lia. }
  destruct (areas st) as [|[c e] ar] eqn:E; [done|].
  apply list.Forall_cons in A as [[A1 A2] A]. specialize (A2 s Hs). simpl in A1, A2.
  set (lo := if _ <? _ then (allocation_start st, allocation_end st) else (left_over_start st, left_over_end st)).
  assert (pairwise disjoint (lo :: (c, e) :: ar ++ map extent l) /\ (fst lo < snd lo -> 0 < fst lo)) as [D' S'].
  { unfold lo. destruct D as (D1 & D2 & D3). destruct (_ <? _); split; try done.
    split; [|done]. by apply list.Forall_cons in D1 as [_ D1]. }
  destruct lo as [ls le]. eexists _, _. split; [reflexivity|]. split_and!; try done.
  2: { exists (c, e). split; [right; right; left|simpl; lia]. }
  apply (fresh_header st); try done.
  - apply (pairwise_split_second _ _ (c + PAGE_SIZES s)) in D'; [exact D'|lia].
  - apply list.Forall_cons in S3 as [_ S3]. unfold spaces. simpl. rewrite !list.Forall_cons. split_and!; simpl; try done; lia.
Qed.

(** ** Moving pages *)

Lemma own_split a s : 0 <= s < NSLOTS -> exists rest,
  own a ≡ₚ pages s (a s) ++ rest /\ (forall q, own (upd a s q) ≡ₚ pages s q ++ rest) /\
  (forall t c, t <> s -> 0 <= t < NSLOTS -> c ∈ chain (a t) -> (c, SLOT_ID) ∈ rest).
Proof.
  intros Hs. set (f := fun a t => pages t (a t)).
  exists (flat_map (f a) (seqZ 0 s) ++ flat_map (f a) (seqZ (s + 1) (NSLOTS - s - 1))).
  assert (forall a', own a' = flat_map (f a') (seqZ 0 s) ++ pages s (a' s) ++
    flat_map (f a') (seqZ (s + 1) (NSLOTS - s - 1))) as E.
  { intros a'. unfold own. assert (seqZ 0 NSLOTS = seqZ 0 s ++ s :: seqZ (s + 1) (NSLOTS - s - 1)) as ->.
    { replace (seqZ 0 NSLOTS) with (seqZ 0 (s + (NSLOTS - s))) by (f_equal; lia).
      rewrite seqZ_app, (seqZ_cons (0 + s)) by lia. by repeat (f_equal; try lia). }
    by rewrite flat_map_app. }
  split_and!.
  - rewrite E. by rewrite Permutation_app_swap_app.
  - intros q. rewrite E, upd_eq. rewrite Permutation_app_swap_app.
    assert (forall k n, (forall t, t ∈ seqZ k n -> t <> s) ->
      flat_map (f (upd a s q)) (seqZ k n) = flat_map (f a) (seqZ k n)) as F.
    { intros k n H. induction (seqZ k n) as [|x l IH]; simpl; [done|].
      rewrite IH by set_solver. unfold f at 1 3. by rewrite upd_ne by set_solver. }
    rewrite !F; [done|..]; intros t Ht%elem_of_seqZ; lia.
  - intros t c Ht Hr Hc. assert ((c, SLOT_ID) ∈ f a t) as Hf.
    { unfold f, pages. apply elem_of_app. left. apply list_elem_of_In, in_map_iff.
      exists c. split; [done|by apply list_elem_of_In]. }
    apply elem_of_app. rewrite !list_elem_of_In, !in_flat_map.
    destruct (Z.lt_ge_cases t s); [left|right]; exists t;
      (split; [apply list_elem_of_In, elem_of_seqZ; lia|by apply list_elem_of_In]).
Qed.

(** The pages of the old state are pages of the new one, which represents [a']. *)
Definition moves (a : Z -> queue) (used : list (Z * Z)) (st' : state) (a' : Z -> queue)
    (used' : list (Z * Z)) : Prop :=
  inv st' a' used' /\ own a ++ used ⊆+ own a' ++ used'.

Lemma moves_trans a used st1 a1 used1 st2 a2 used2 :
  moves a used st1 a1 used1 -> moves a1 used1 st2 a2 used2 -> moves a used st2 a2 used2.
Proof. intros [_ S1] [I2 S2]. split; [done|]. by etrans. Qed.

Lemma in_chain c s q : c ∈ chain q -> c ∈ map fst (pages s q).
Proof.
  intros H. unfold pages. rewrite map_app, map_map. apply elem_of_app. left.
  simpl. by rewrite map_id.
Qed.

(** A change of one queue: its pages and the pages in use are the same. *)
Lemma inv_update st a used s st' q' used' :
  inv st a used -> 0 <= s < NSLOTS -> rep st' s q' ->
  spaces st' = spaces st -> slot_id st' = slot_id st ->
  (forall t, t <> s -> slots st' t = slots st t) ->
  (forall c, c ∉ chain q' -> cnext st' c = cnext st c /\ cblock st' c = cblock st c) ->
  pages s (a s) ++ used ≡ₚ pages s q' ++ used' ->
  moves a used st' (upd a s q') used'.
Proof.
  intros [R O] Hs R' Es Ei Et Ec P. destruct (own_split a s Hs) as (rest & P1 & P2 & Hr).
  assert (own a ++ used ≡ₚ own (upd a s q') ++ used') as PP.
  { by rewrite P1, P2, <- !app_assoc, (Permutation_app_comm rest used),
      (Permutation_app_comm rest used'), !app_assoc, P. }
  assert (pages_ok st' (own (upd a s q') ++ used')) as O'.
  { eapply pages_ok_same; try done. by eapply pages_ok_perm. }
  split; [|by rewrite PP]. split; [|done].
  intros t Ht. destruct (Z.eq_dec t s) as [->|Hne]; [by rewrite upd_eq|].
  rewrite upd_ne by done. pose proof (pages_ok_nodup _ _ O') as N.
  rewrite P2, !map_app, <- app_assoc in N. apply list.NoDup_app in N as (_ & N & _).
  assert (forall c, c ∈ chain (a t) -> c ∉ chain q') as Hd.
  { intros c Hc Hc'. apply (N c); [by apply in_chain|]. apply elem_of_app. left.
    specialize (Hr t c Hne Ht Hc). apply list_elem_of_In, in_map_iff.
    exists (c, SLOT_ID). split; [done|by apply list_elem_of_In]. }
  apply (queue_frame _ st); [by apply Et|..|by apply R].
  - intros c Hc. by apply Ec, Hd.
  - intros c i Hc. destruct (Ec c) as [_ ->]; [by apply Hd|done].
Qed.

(** What disjointness gives for one queue. *)
Lemma inv_chain st a used s : inv st a used -> 0 <= s < NSLOTS ->
  NoDup (chain (a s)) /\ 0 ∉ chain (a s) /\
  (forall p, p ∈ used -> NoDup (chain (a s) ++ [fst p])) /\
  (forall b, b ∈ blocks (a s) -> slot_id st (link b) = s) /\
  (forall c, c ∈ chain (a s) -> slot_id st c = SLOT_ID) /\
  (forall p, p ∈ used -> slot_id st (fst p) = snd p /\ fst p <> 0).
Proof.
  intros [R O] Hs. destruct (own_split a s Hs) as (rest & P1 & _ & _).
  pose proof (pages_ok_nodup _ _ O) as N. pose proof (ok_headers _ _ O) as H.
  rewrite P1, !map_app in N. rewrite list.Forall_forall in H. setoid_rewrite P1 in H.
  assert (map fst (pages s (a s)) = chain (a s) ++ map link (blocks (a s))) as E.
  { unfold pages. rewrite map_app, !map_map. simpl. by rewrite map_id. }
  rewrite E, <- !app_assoc in N. apply list.NoDup_app in N as (N1 & N2 & N3).
  assert (forall c, c ∈ chain (a s) -> (c, SLOT_ID) ∈ pages s (a s)) as Hc.
  { intros c Hc. unfold pages. apply elem_of_app. left. apply list_elem_of_In, in_map_iff.
    exists c. split; [done|by apply list_elem_of_In]. }
  split_and!; try done.
  - intros H0. specialize (H (0, SLOT_ID)). simpl in H. destruct H as [H _]; [|lia].
    rewrite !elem_of_app. left. left. by apply Hc.
  - intros p Hp. apply list.NoDup_app. split_and!; [done| |by apply list.NoDup_singleton].
    intros c Hcc ->%list_elem_of_singleton. apply (N2 _ Hcc). rewrite !elem_of_app. right. right.
    apply list_elem_of_In, in_map, list_elem_of_In, Hp.
  - intros b Hb. apply (H (link b, s)). rewrite !elem_of_app. left. left. unfold pages.
    apply elem_of_app. right. apply list_elem_of_In, in_map_iff. exists b.
    split; [done|by apply list_elem_of_In].
  - intros c Hcc. apply (H (c, SLOT_ID)). rewrite !elem_of_app. left. left. by apply Hc.
  - intros p Hp. specialize (H p). rewrite !elem_of_app in H. destruct H as (? & _ & ?); [by right|].
    split; [done|lia].
Qed.

(** ** The elementary steps keep the invariant *)

Lemma moves_take st a used s b bs :
  inv st a used -> 0 <= s < NSLOTS -> blocks (a s) = b :: bs -> istart (slots st s) + 1 < COUNT ->
  let sl := slots st s in
  moves a used (set_slot s (Slot (ostart sl) (oend sl) (count sl - 1) (istart sl + 1) (iend sl)) st)
    (upd a s (Queue (chain (a s)) bs)) ((link b, s) :: used).
Proof.
  intros I Hs E Hi sl. apply inv_update with (st := st); try done.
  - apply (rep_pop COUNT st s (a s) b bs); try done. by apply (inv_rep _ _ _ I).
  - intros t Ht. simpl. by rewrite upd_ne.
  - unfold pages. rewrite E. simpl. rewrite <- !app_assoc. simpl.
    apply Permutation_app_head, Permutation_middle.
Qed.

Lemma moves_drop st a used s b bs :
  inv st a used -> 0 <= s < NSLOTS -> blocks (a s) = b :: bs -> COUNT <= istart (slots st s) + 1 ->
  let sl := slots st s in
  let n := cnext st (ostart sl) in
  moves a used (set_slot s (if n =? 0 then Slot n 0 (count sl - 1) 0 0
                  else Slot n (oend sl) (count sl - 1) 0 (iend sl)) st)
    (upd a s (Queue (tl (chain (a s))) bs))
    ((ostart sl, SLOT_ID) :: (link b, s) :: used).
Proof.
  intros I Hs E Hi sl n. pose proof (inv_rep _ _ _ I s Hs) as R.
  destruct (inv_chain _ _ _ s I Hs) as (N & H0 & _).
  destruct (rep_head _ _ _ _ _ _ R E) as (c & cs & Ec & Eo & _).
  apply inv_update with (st := st); try done.
  - by apply (rep_drop COUNT st s (a s) b bs).
  - intros t Ht. simpl. by rewrite upd_ne.
  - unfold pages. rewrite E, Ec. unfold sl. rewrite Eo. simpl. rewrite <- !app_assoc. simpl.
    rewrite <- !Permutation_middle. done.
Qed.

Lemma moves_extend st a used s n :
  inv st a ((n, SLOT_ID) :: used) -> 0 <= s < NSLOTS -> chain (a s) <> [] ->
  iend (slots st s) = COUNT ->
  let sl := slots st s in
  moves a ((n, SLOT_ID) :: used)
    (set_slot s (Slot (ostart sl) n (count sl) (istart sl) 0)
      (set_next (oend sl) n (set_next n 0 st)))
    (upd a s (Queue (chain (a s) ++ [n]) (blocks (a s)))) used.
Proof.
  intros I Hs Hne He sl. pose proof (inv_rep _ _ _ I s Hs) as R.
  destruct (inv_chain _ _ _ s I Hs) as (_ & _ & N & _).
  specialize (N (n, SLOT_ID) ltac:(left)). simpl in N.
  apply inv_update with (st := st); try done.
  - by apply rep_extend.
  - intros t Ht. simpl. by rewrite upd_ne.
  - intros c Hc. simpl in *. split; [|done]. unfold memoryqueue.rep in R.
    destruct (chain (a s)) as [|c0 cs]; [done|]. destruct R as (_ & Ro & _).
    pose proof (back_elem c0 cs). rewrite !upd_ne; [done|..]; intros ->; apply Hc; apply elem_of_app.
    + right. by left.
    + left. unfold sl. by rewrite Ro.
  - unfold pages. simpl. rewrite map_app, <- !app_assoc. simpl.
    apply Permutation_app_head. by rewrite <- Permutation_middle.
Qed.

Lemma moves_start st a used s n :
  inv st a ((n, SLOT_ID) :: used) -> 0 <= s < NSLOTS -> chain (a s) = [] ->
  moves a ((n, SLOT_ID) :: used)
    (set_slot s (Slot n n 0 0 0) (set_next n 0 st)) (upd a s (Queue [n] [])) used.
Proof.
  intros I Hs He. pose proof (inv_rep _ _ _ I s Hs) as R. unfold memoryqueue.rep in R.
  rewrite He in R. destruct R as [R1 R2].
  apply inv_update with (st := st); try done.
  - apply rep_start; [lia|done].
  - intros t Ht. simpl. by rewrite upd_ne.
  - intros c Hc. simpl in *. rewrite upd_ne; [done|]. set_solver.
  - unfold pages. by rewrite He, R2.
Qed.

Lemma moves_put st a used s p :
  inv st a ((p, s) :: used) -> 0 <= s < NSLOTS -> chain (a s) <> [] -> iend (slots st s) < COUNT ->
  moves a ((p, s) :: used) (put_block s (oend (slots st s)) p st)
    (upd a s (Queue (chain (a s)) (blocks (a s) ++ [Item p stamp]))) used.
Proof.
  intros I Hs Hne He. pose proof (inv_rep _ _ _ I s Hs) as R.
  destruct (inv_chain _ _ _ s I Hs) as (N & _).
  apply inv_update with (st := st); try done.
  - by apply rep_put.
  - intros t Ht. simpl. by rewrite upd_ne.
  - intros c Hc. simpl in *. split; [done|]. unfold memoryqueue.rep in R.
    destruct (chain (a s)) as [|c0 cs]; [done|]. destruct R as (_ & -> & _).
    pose proof (back_elem c0 cs). rewrite upd_ne; [done|]. by intros ->.
  - unfold pages. simpl. rewrite map_app, <- !app_assoc. simpl. apply Permutation_app_head.
    done.
Qed.

(** A page from the space, and the write of a header that [alloc] does. *)
Lemma moves_carve st a used s :
  inv st a used -> areas st <> [] -> 0 <= s < NSLOTS ->
  exists p st', carve s st = (Some p, st') /\ moves a used st' a ((p, s) :: used) /\ fresh st s p /\
    slots st' = slots st.
Proof.
  intros [R O] Ha Hs. destruct (carve_spec _ _ _ O Ha Hs) as (p & st' & E & O' & F & E1 & E2 & E3).
  exists p, st'. split_and!; try done. split; [split|].
  - intros t Ht. apply (queue_frame _ st); [by rewrite E1|by rewrite E2|by rewrite E3|by apply R].
  - eapply pages_ok_perm; [|exact O']. by rewrite Permutation_middle.
  - rewrite <- (Permutation_middle (own a) used). by apply submseteq_cons.
Qed.

Lemma inv_header st a used p s : inv st a used -> (p, s) ∈ used -> inv (set_slot_id p s st) a used.
Proof.
  intros [R O] H. split; [done|]. apply pages_ok_header; [|done]. apply elem_of_app. by right.
Qed.

(** ** pop *)

(** The block [pop] hands out: the first of the queue, when it may be recycled.
    The last block of the container queue is kept where taking it would free the
    container it is in. *)
Definition grant (st : state) (a : Z -> queue) (s : Z) : option item :=
  match blocks (a s) with
  | [] => None
  | b :: bs =>
      let keep := match bs with
                  | [] => (s =? SLOT_ID) && (COUNT <=? istart (slots st s) + 1)
                  | _ => false
                  end in
      if may_recycle (txn_id b) && negb keep then Some b else None
  end.

(** Taking a container page does not drop a container. *)
Definition calm (st : state) (a : Z -> queue) : Prop :=
  grant st a SLOT_ID <> None -> istart (slots st SLOT_ID) + 1 < COUNT.

Lemma grant_blocks st a s b :
  grant st a s = Some b ->
  exists bs, blocks (a s) = b :: bs /\ may_recycle (txn_id b) = true /\
    (COUNT <= istart (slots st s) + 1 -> s = SLOT_ID -> bs <> []).
Proof.
  unfold grant. destruct (blocks (a s)) as [|b' bs]; [done|].
  destruct (may_recycle (txn_id b')) eqn:M; simpl; [|done]. intros H. exists bs.
  destruct bs as [|b1 bs]; simpl in H.
  - destruct (Z.eqb_spec s SLOT_ID); destruct (Z.leb_spec COUNT (istart (slots st s) + 1)); simpl in H;
      try done; injection H as ->; split_and!; done || lia.
  - injection H as ->. by split_and!.
Qed.

Lemma moves_same st st' a used :
  inv st a used -> (forall t, slots st' t = slots st t) -> cnext st' = cnext st ->
  cblock st' = cblock st -> slot_id st' = slot_id st -> spaces st' = spaces st ->
  moves a used st' a used.
Proof.
  intros [R O] E1 E2 E3 E4 E5. split; [|done]. split.
  - intros t Ht. apply (queue_frame _ st); [done|by rewrite E2|by rewrite E3|by apply R].
  - by apply (pages_ok_same st).
Qed.

Lemma pop_none free st a used s :
  inv st a used -> 0 <= s < NSLOTS -> grant st a s = None ->
  exists st', pop free s st = Ok (None, st') /\ moves a used st' a used /\
    (forall t, slots st' t = slots st t) /\ areas st' = areas st /\ spaces st' = spaces st.
Proof.
  intros I Hs G. pose proof (inv_rep _ _ _ I s Hs) as R. unfold memory.pop.
  destruct (inv_chain _ _ _ s I Hs) as (_ & _ & _ & Hb & _).
  unfold grant in G. destruct (blocks (a s)) as [|b bs] eqn:E.
  { rewrite (rep_empty _ _ _ _ R E). simpl. exists st. by split_and!; try apply (moves_same st). }
  destruct (rep_head _ _ _ _ _ _ R E) as (c & cs & Ec & Eo & Ecount & Eb & _).
  destruct (Z.eqb_spec (count (slots st s)) 0); [done|]. rewrite Eo, Eb.
  destruct (may_recycle (txn_id b)); simpl in *.
  2: { exists st. by split_and!; try apply (moves_same st). }
  destruct bs as [|b1 bs]; simpl in G; [|done].
  destruct (Z.eqb_spec s SLOT_ID) as [Es|]; simpl in G; [|done].
  destruct (Z.leb_spec COUNT (istart (slots st s) + 1)); simpl in G; [|done].
  rewrite Hb by left. rewrite Es, Z.eqb_refl in *.
  unfold memoryqueue.rep in R. rewrite Ec, E in R. destruct R as (R1 & R2 & R3 & R4 & R5 & R6 & R7 & R8).
  rewrite R8. simpl. eexists. split_and!; try done.
  - apply (moves_same st); try done. intros t. simpl. destruct (Z.eq_dec t SLOT_ID) as [->|].
    + rewrite upd_eq. destruct (slots st SLOT_ID). simpl in *. f_equal; lia.
    + by rewrite upd_ne.
  - intros t. simpl. destruct (Z.eq_dec t SLOT_ID) as [->|].
    + rewrite upd_eq. destruct (slots st SLOT_ID). simpl in *. f_equal; lia.
    + by rewrite upd_ne.
Qed.

Lemma pop_take free st a used s b :
  inv st a used -> 0 <= s < NSLOTS -> grant st a s = Some b -> istart (slots st s) + 1 < COUNT ->
  exists st', pop free s st = Ok (Some (link b), st') /\
    moves a used st' (upd a s (Queue (chain (a s)) (tl (blocks (a s))))) ((link b, s) :: used) /\
    (forall t, t <> s -> slots st' t = slots st t) /\ areas st' = areas st /\
    oend (slots st' s) = oend (slots st s) /\ iend (slots st' s) = iend (slots st s).
Proof.
  intros I Hs G Hi. pose proof (inv_rep _ _ _ I s Hs) as R. unfold memory.pop.
  destruct (grant_blocks _ _ _ _ G) as (bs & E & M & _).
  destruct (rep_head _ _ _ _ _ _ R E) as (c & cs & Ec & Eo & Ecount & Eb & _).
  destruct (Z.eqb_spec (count (slots st s)) 0); [done|]. rewrite Eo, Eb, M. simpl.
  destruct (Z.leb_spec COUNT (istart (slots st s) + 1)); [lia|].
  eexists. split; [reflexivity|]. split_and!.
  - rewrite <- Eo, E. by apply moves_take.
  - intros t Ht. simpl. by rewrite upd_ne.
  - done.
  - simpl. by rewrite upd_eq.
  - simpl. by rewrite upd_eq.
Qed.

Lemma pop_exhaust free st a used s b :
  inv st a used -> 0 <= s < NSLOTS -> grant st a s = Some b -> COUNT <= istart (slots st s) + 1 ->
  exists c st1, pop free s st = (st' ← free c st1; Ok (Some (link b), st')) /\
    moves a used st1 (upd a s (Queue (tl (chain (a s))) (tl (blocks (a s)))))
      ((c, SLOT_ID) :: (link b, s) :: used) /\
    slot_id st1 c = SLOT_ID /\ areas st1 = areas st /\ istart (slots st1 s) = 0 /\
    (forall t, t <> s -> slots st1 t = slots st t).
Proof.
  intros I Hs G Hi. pose proof (inv_rep _ _ _ I s Hs) as R. unfold memory.pop.
  destruct (grant_blocks _ _ _ _ G) as (bs & E & M & Hk).
  destruct (inv_chain _ _ _ s I Hs) as (_ & _ & _ & Hb & Hc & _).
  destruct (rep_head _ _ _ _ _ _ R E) as (c & cs & Ec & Eo & Ecount & Eb & _).
  destruct (Z.eqb_spec (count (slots st s)) 0); [done|]. rewrite Eo, Eb, M. simpl.
  destruct (Z.leb_spec COUNT (istart (slots st s) + 1)); [|lia].
  assert ((slot_id st (link b) =? SLOT_ID) && (count (slots st s) - 1 =? 0) = false) as ->.
  { rewrite Hb by (rewrite E; left). apply andb_false_iff.
    destruct (Z.eq_dec s SLOT_ID) as [Es|]; [right|left; by apply Z.eqb_neq].
    unfold memoryqueue.rep in R. rewrite Ec, E in R. destruct R as (_ & _ & _ & _ & _ & _ & _ & ->).
    specialize (Hk Hi Es). destruct bs; [done|]. apply Z.eqb_neq. simpl. lia. }
  eexists _, _. split; [reflexivity|]. split_and!; try done.
  - rewrite <- Eo, E. by apply moves_drop.
  - simpl. apply Hc. rewrite Ec. left.
  - simpl. rewrite upd_eq. by destruct (_ =? 0).
  - intros t Ht. simpl. by rewrite upd_ne.
Qed.

(** ** alloc and push *)

(** Where the page comes from, and what is left of its queue. *)
Definition origin (st : state) (a : Z -> queue) (s p : Z) : Prop :=
  match grant st a s with Some b => p = link b | None => fresh st s p end.

Definition after (st : state) (a : Z -> queue) (s : Z) : list item :=
  match grant st a s with Some _ => tl (blocks (a s)) | None => blocks (a s) end.

Lemma alloc_take free st a used s :
  inv st a used -> areas st <> [] -> 0 <= s < NSLOTS ->
  (grant st a s <> None -> istart (slots st s) + 1 < COUNT) ->
  exists p st' a', alloc (pop free) s st = Ok (Some p, st') /\
    moves a used st' a' ((p, s) :: used) /\ origin st a s p /\ blocks (a' s) = after st a s /\
    (forall t, t <> s -> a' t = a t /\ slots st' t = slots st t) /\ chain (a' s) = chain (a s) /\
    oend (slots st' s) = oend (slots st s) /\ iend (slots st' s) = iend (slots st s).
Proof.
  intros I Ha Hs Hi. unfold origin, after, memory.alloc, mbind, outcome_bind.
  destruct (grant st a s) as [b|] eqn:G.
  - destruct (pop_take free _ _ _ _ _ I Hs G (Hi ltac:(discriminate))) as (st1 & -> & M & E1 & E2 & E3 & E4).
    eexists _, _, (upd a s (Queue (chain (a s)) (tl (blocks (a s))))). split; [reflexivity|].
    split_and!; try done.
    + destruct M as [M1 M2]. split; [|exact M2]. apply inv_header; [done|by left].
    + by rewrite upd_eq.
    + intros t Ht. split; [by rewrite upd_ne|]. by apply E1.
    + by rewrite upd_eq.
  - destruct (pop_none free _ _ _ _ I Hs G) as (st1 & -> & M & E1 & E2 & E3).
    destruct (moves_carve st1 a used s) as (p & st2 & -> & M2 & F & E4); [by apply M|by rewrite E2|done|].
    eexists _, _, a. split; [reflexivity|]. split_and!; try done.
    + unfold fresh in *. by rewrite E3 in F.
    + intros t Ht. split; [done|]. by rewrite E4.
    + by rewrite E4, E1.
    + by rewrite E4, E1.
Qed.

Lemma push_room al st a used s p :
  inv st a ((p, s) :: used) -> 0 <= s < NSLOTS -> chain (a s) <> [] -> iend (slots st s) < COUNT ->
  exists st', push al s p st = Ok st' /\
    moves a ((p, s) :: used) st' (upd a s (Queue (chain (a s)) (blocks (a s) ++ [Item p stamp]))) used /\
    (forall t, t <> s -> slots st' t = slots st t).
Proof.
  intros I Hs Hc Hi. pose proof (inv_rep _ _ _ I s Hs) as R. unfold memory.push, memory.push_back.
  destruct (inv_chain _ _ _ s I Hs) as (_ & H0 & _).
  assert (oend (slots st s) <> 0) as Ho.
  { unfold memoryqueue.rep in R. destruct (chain (a s)) as [|c cs]; [done|].
    destruct R as (_ & -> & _). intros E. apply H0. rewrite <- E. apply back_elem. }
  destruct (Z.eqb_spec (oend (slots st s)) 0); [done|]. simpl.
  destruct (Z.leb_spec COUNT (iend (slots st s))); [lia|]. simpl.
  eexists. split; [reflexivity|]. split; [by apply moves_put|].
  intros t Ht. simpl. by rewrite upd_ne.
Qed.

Lemma push_grow al st a used s p nb st1 a1 :
  inv st a ((p, s) :: used) -> 0 <= s < NSLOTS -> chain (a s) = [] \/ iend (slots st s) = COUNT ->
  al SLOT_ID st = Ok (Some nb, st1) ->
  moves a ((p, s) :: used) st1 a1 ((nb, SLOT_ID) :: (p, s) :: used) ->
  chain (a1 s) = chain (a s) -> oend (slots st1 s) = oend (slots st s) ->
  iend (slots st1 s) = iend (slots st s) ->
  exists st' a', push al s p st = Ok st' /\ moves a ((p, s) :: used) st' a' used /\
    blocks (a' s) = blocks (a1 s) ++ [Item p stamp] /\
    (forall t, t <> s -> a' t = a1 t /\ slots st' t = slots st1 t).
Proof.
  intros I Hs Hc Eal [I1 S1] Ec Eo Ei. pose proof (inv_rep _ _ _ I s Hs) as R.
  pose proof (inv_rep _ _ _ I1 s Hs) as R1. unfold memory.push, memory.push_back, mbind, outcome_bind.
  rewrite Eal. destruct (inv_chain _ _ _ s I Hs) as (_ & H0 & _).
  destruct (chain (a s)) as [|c cs] eqn:Ech.
  - unfold memoryqueue.rep in R, R1. rewrite Ech in R. rewrite Ec in R1.
    destruct R as [-> _]. destruct R1 as [R1 R1b]. simpl.
    destruct (moves_start _ _ _ s nb I1 Hs Ec) as [I2 S2].
    pose proof (moves_put _ _ _ s p I2 Hs) as M3. rewrite !upd_eq in M3. simpl in M3.
    rewrite upd_eq in M3. specialize (M3 ltac:(done) ltac:(simpl; lia)). simpl in M3.
    eexists _, _. split; [reflexivity|]. rewrite R1. simpl. split_and!.
    + destruct M3 as [I3 S3]. split; [exact I3|]. by do 2 (etrans; [done|]).
    + rewrite upd_eq. by rewrite R1b.
    + intros t Ht. split; [by rewrite !upd_ne|]. simpl. by rewrite !upd_ne.
  - assert (oend (slots st s) <> 0) as Ho.
    { unfold memoryqueue.rep in R. rewrite Ech in R. destruct R as (_ & -> & _).
      intros E. apply H0. rewrite <- E. apply back_elem. }
    destruct Hc as [|Hc]; [done|].
    destruct (Z.eqb_spec (oend (slots st s)) 0); [done|]. cbn [negb].
    destruct (Z.leb_spec COUNT (iend (slots st s))); [|lia].
    destruct (moves_extend _ _ _ s nb I1 Hs) as [I2 S2]; [by rewrite Ec|congruence|].
    pose proof (moves_put _ _ _ s p I2 Hs) as M3. rewrite !upd_eq in M3. simpl in M3.
    rewrite upd_eq in M3. simpl in M3.
    destruct M3 as [I3 S3]; [by destruct (chain (a1 s))|lia|]. rewrite Eo in *.
    eexists _, _. split; [reflexivity|]. split_and!.
    + split; [exact I3|]. by do 2 (etrans; [done|]).
    + by rewrite upd_eq.
    + intros t Ht. split; [by rewrite !upd_ne|]. simpl. by rewrite !upd_ne.
Qed.

(** Freeing a container page, where the container queue is calm if it is full. *)
Definition safe (st : state) (a : Z -> queue) : Prop :=
  iend (slots st SLOT_ID) = COUNT -> calm st a.

Lemma calm_start st a : istart (slots st SLOT_ID) = 0 -> calm st a.
Proof. intros E _. lia. Qed.

Lemma push_container f st a used c :
  inv st a ((c, SLOT_ID) :: used) -> areas st <> [] -> safe st a ->
  exists st' a', push (alloc_f (S f)) SLOT_ID c st = Ok st' /\
    moves a ((c, SLOT_ID) :: used) st' a' used /\
    (forall t, t <> SLOT_ID -> a' t = a t /\ slots st' t = slots st t).
Proof.
  intros I Ha Hsafe.
  assert ((chain (a SLOT_ID) = [] \/ iend (slots st SLOT_ID) = COUNT) \/
    (chain (a SLOT_ID) <> [] /\ iend (slots st SLOT_ID) < COUNT)) as C.
  { pose proof (inv_rep _ _ _ I _ SLOT_ID_class) as R. unfold memoryqueue.rep in R.
    destruct (chain (a SLOT_ID)); [by left; left|]. destruct R as (_ & _ & _ & _ & R & _).
    destruct (Z.eq_dec (iend (slots st SLOT_ID)) COUNT); [auto|]. right. split; [done|lia]. }
  assert (chain (a SLOT_ID) = [] \/ iend (slots st SLOT_ID) = COUNT -> calm st a) as Hcalm.
  { intros [E|E]; [|by apply Hsafe]. intros G. exfalso. apply G. unfold grant.
    pose proof (inv_rep _ _ _ I _ SLOT_ID_class) as R. unfold memoryqueue.rep in R. rewrite E in R.
    by destruct R as [_ ->]. }
  destruct C as [Hg|[Hne Hlt]].
  - destruct (alloc_take (free (push (alloc_f f))) _ _ _ _ I Ha SLOT_ID_class (Hcalm Hg))
      as (nb & st1 & a1 & E & M & _ & _ & O & Ec & Eo & Ei).
    destruct (push_grow (alloc_f (S f)) _ _ _ _ _ _ _ _ I SLOT_ID_class Hg E M Ec Eo Ei)
      as (st' & a' & E' & M' & _ & O').
    exists st', a'. split_and!; try done. intros t Ht.
    destruct (O t Ht) as [<- <-]. by apply O'.
  - destruct (push_room (alloc_f (S f)) _ _ _ _ _ I SLOT_ID_class Hne Hlt) as (st' & E' & M' & O').
    eexists st', _. split_and!; [done|exact M'|]. intros t Ht. split; [by rewrite upd_ne|by apply O'].
Qed.

(** [alloc]: the container queue must be safe unless the page is a container. *)
Lemma alloc_any f st a used s :
  inv st a used -> areas st <> [] -> 0 <= s < NSLOTS -> (s <> SLOT_ID -> safe st a) ->
  exists p st' a', alloc_f (S (S f)) s st = Ok (Some p, st') /\
    moves a used st' a' ((p, s) :: used) /\ origin st a s p /\
    (s <> SLOT_ID -> blocks (a' s) = after st a s) /\
    (forall t, t <> s -> t <> SLOT_ID -> a' t = a t /\ slots st' t = slots st t).
Proof.
  intros I Ha Hs Hsafe.
  destruct (decide (COUNT <= istart (slots st s) + 1 /\ grant st a s <> None)) as [[Hx G]|Hn].
  2: { destruct (alloc_take (free (push (alloc_f (S f)))) _ _ _ _ I Ha Hs)
         as (p & st' & a' & E & M & Or & B & O & _).
       { intros G. destruct (Z.lt_ge_cases (istart (slots st s) + 1) COUNT); [done|]. exfalso. auto. }
       exists p, st', a'. split_and!; try done. intros t Ht _. by apply O. }
  destruct (grant st a s) as [b|] eqn:Gb; [|done].
  destruct (pop_exhaust (free (push (alloc_f (S f)))) _ _ _ _ _ I Hs Gb Hx)
    as (c & st1 & E & [I1 S1] & Ei & Ear & E0 & O1).
  destruct (push_container f st1 _ _ c I1) as (st2 & a2 & E2 & [I2 S2] & O2); [by rewrite Ear| |].
  { intros Hfull. destruct (Z.eq_dec s SLOT_ID) as [Es|Hne].
    - apply calm_start. by rewrite <- Es.
    - specialize (Hsafe Hne). unfold safe, calm, grant in *. rewrite upd_ne by done.
      rewrite O1 in * by done. by apply Hsafe. }
  exists (link b), (set_slot_id (link b) s st2), a2. split_and!.
  - change (alloc_f (S (S f))) with (alloc (pop (free (push (alloc_f (S f)))))).
    unfold memory.alloc. rewrite E. unfold memory.free at 1. rewrite Ei, E2. done.
  - split; [|by etrans]. apply inv_header; [done|by left].
  - unfold origin. by rewrite Gb.
  - intros Hne. destruct (O2 s Hne) as [-> _]. rewrite upd_eq. unfold after. by rewrite Gb.
  - intros t Ht Hc. destruct (O2 t Hc) as [-> O2s]. simpl. rewrite upd_ne by done.
    split; [done|]. rewrite O2s. by apply O1.
Qed.

Lemma push_any f st a used s p :
  inv st a ((p, s) :: used) -> areas st <> [] -> 0 <= s < NSLOTS -> (s = SLOT_ID -> safe st a) ->
  exists st' a', push (alloc_f (S (S f))) s p st = Ok st' /\ moves a ((p, s) :: used) st' a' used /\
    (s <> SLOT_ID -> blocks (a' s) = blocks (a s) ++ [Item p stamp]) /\
    (forall t, t <> s -> t <> SLOT_ID -> a' t = a t /\ slots st' t = slots st t).
Proof.
  intros I Ha Hs Hsafe. destruct (Z.eq_dec s SLOT_ID) as [->|Hne].
  { destruct (push_container (S f) _ _ _ _ I Ha (Hsafe eq_refl)) as (st' & a' & E & M & O).
    exists st', a'. split_and!; try done. intros t Ht _. by apply O. }
  pose proof (inv_rep _ _ _ I s Hs) as R. unfold memoryqueue.rep in R.
  destruct (decide (chain (a s) <> [] /\ iend (slots st s) < COUNT)) as [[Hc Hlt]|Hfull].
  - destruct (push_room (alloc_f (S (S f))) _ _ _ _ _ I Hs Hc Hlt) as (st' & E & M & O).
    eexists st', _. split_and!; [done|exact M|by rewrite upd_eq|].
    intros t Ht _. split; [by rewrite upd_ne|by apply O].
  - assert (chain (a s) = [] \/ iend (slots st s) = COUNT) as Hg.
    { destruct (chain (a s)); [by left|]. right. destruct R as (_ & _ & _ & _ & R & _).
      destruct (Z.lt_ge_cases (iend (slots st s)) COUNT); [|lia]. exfalso. by apply Hfull. }
    destruct (alloc_any f _ _ _ SLOT_ID I Ha SLOT_ID_class) as (nb & st1 & a1 & E & M & _ & _ & O); [done|].
    destruct (O s Hne Hne) as [Ea Es].
    destruct (push_grow (alloc_f (S (S f))) _ _ _ _ _ _ _ _ I Hs Hg E M) as (st' & a' & E' & M' & B & O');
      [congruence..|].
    exists st', a'. split_and!; try done.
    + intros _. by rewrite B, Ea.
    + intros t Ht Hc. destruct (O' t Ht) as [-> ->]. by apply O.
Qed.

(** A fresh manager owns nothing. *)
Lemma inv_init st b e :
  pairwise disjoint ((b, e) :: areas st) -> 0 < b ->
  Forall (fun r => 0 < fst r /\ forall s, 0 <= s < NSLOTS -> PAGE_SIZES s <= snd r - fst r) (areas st) ->
  inv (init b e st) (fun _ => Queue [] []) [].
Proof.
  intros D Hb A. split; [done|]. assert (own (fun _ => Queue [] []) = []) as ->.
  { unfold own. by induction (seqZ 0 NSLOTS). }
  split; try done; unfold spaces; simpl.
  - rewrite app_nil_r. split; [|done]. apply list.Forall_forall. intros r _ x ??. simpl in *. lia.
  - constructor; [simpl; lia|]. constructor; [done|]. eapply Forall_impl; [|exact A].
    simpl. intros r [? _] _. done.
Qed.

(** ** The guarantees *)

(** Freed pages are reused first in, first out, and only when the resolver lets
    the oldest be recycled; otherwise the page comes from the space. *)
Theorem alloc_oldest_first (f : nat) (st : state) (a : Z -> queue) (used : list (Z * Z)) (s : Z) :
  inv st a used -> areas st <> [] -> 0 <= s < NSLOTS -> s <> SLOT_ID -> safe st a ->
  exists p st' a', alloc_f (S (S f)) s st = Ok (Some p, st') /\ inv st' a' ((p, s) :: used) /\
    match blocks (a s) with
    | b :: bs =>
        if may_recycle (txn_id b) then p = link b /\ blocks (a' s) = bs
        else fresh st s p /\ blocks (a' s) = b :: bs
    | [] => fresh st s p /\ blocks (a' s) = []
    end /\
    (forall t, t <> s -> t <> SLOT_ID -> a' t = a t).
Proof.
  intros I Ha Hs Hne Hsafe.
  destruct (alloc_any f _ _ _ _ I Ha Hs (fun _ => Hsafe)) as (p & st' & a' & E & [I' S] & O & B & F).
  exists p, st', a'. split_and!; try done; [|by intros; apply F].
  specialize (B Hne). unfold origin, after, grant in *.
  destruct (blocks (a s)) as [|b bs]; [by rewrite B|].
  destruct (Z.eqb_spec s SLOT_ID); [done|]. simpl in *.
  destruct (may_recycle (txn_id b)); destruct bs; simpl in *; by rewrite B.
Qed.

(** A freed page is added behind the others with the stamp of the transaction,
    and leaves the pages in use; no page is lost. Freeing a container page needs
    the container queue [safe]. *)
Theorem free_appends (f : nat) (st : state) (a : Z -> queue) (used : list (Z * Z)) (p s : Z) :
  inv st a ((p, s) :: used) -> areas st <> [] -> 0 <= s < NSLOTS -> (s = SLOT_ID -> safe st a) ->
  exists st' a',
    memory.free_f COUNT SLOT_ID PAGE_SIZES may_recycle stamp (S (S f)) p st = Ok st' /\
    inv st' a' used /\ own a ++ (p, s) :: used ⊆+ own a' ++ used /\
    (s <> SLOT_ID -> blocks (a' s) = blocks (a s) ++ [Item p stamp]) /\
    (forall t, t <> s -> t <> SLOT_ID -> a' t = a t).
Proof.
  intros I Ha Hs Hsafe. destruct (push_any f _ _ _ _ _ I Ha Hs Hsafe) as (st' & a' & E & [I' S] & B & O).
  exists st', a'. split_and!; try done; [|by intros; apply O].
  destruct (inv_chain _ _ _ s I Hs) as (_ & _ & _ & _ & _ & Hu).
  destruct (Hu (p, s)) as [Ep _]; [by left|]. simpl in Ep.
  unfold memory.free_f, memory.free, memory.push_f. rewrite Ep. done.
Qed.

End with_traits.

(** ** Runs of the allocator *)

Section runs.
Context (COUNT SLOT_ID NSLOTS : Z) (PAGE_SIZES : Z -> Z).
Hypothesis COUNT_two : 2 <= COUNT.
Hypothesis SLOT_ID_class : 0 <= SLOT_ID < NSLOTS.
Hypothesis PAGE_SIZES_pos : forall s, 0 <= s < NSLOTS -> 0 < PAGE_SIZES s.

Abbreviation inv := (inv COUNT SLOT_ID NSLOTS PAGE_SIZES).
Abbreviation own := (own SLOT_ID NSLOTS).
Abbreviation extent := (extent PAGE_SIZES).

(** The queue of container pages is not at once full at its end and at the last block of
    its first container: the code does not see to it ([free_loses_pages]). *)
Definition guarded (st : state) : Prop :=
  iend (slots st SLOT_ID) <> COUNT \/ istart (slots st SLOT_ID) + 1 < COUNT.

Lemma guarded_safe may_recycle st a : guarded st -> safe COUNT SLOT_ID may_recycle st a.
Proof. intros [H|H] E G; [done|exact H]. Qed.

(** Allocations and frees, one after the other, of any transactions: what may be recycled
    and the stamp of a freed page differ. The pages in use are kept with their classes. *)
Inductive goes (f : nat) : state * list (Z * Z) -> state * list (Z * Z) -> Prop :=
  | goes_alloc may_recycle stamp s st used p st' : 0 <= s < NSLOTS -> areas st <> [] -> (s <> SLOT_ID -> guarded st) ->
      alloc_f COUNT SLOT_ID PAGE_SIZES may_recycle stamp (S (S f)) s st = Ok (Some p, st') -> goes f (st, used) (st', (p, s) :: used)
  | goes_free may_recycle stamp p s st used used' st' : used ≡ₚ (p, s) :: used' -> areas st <> [] -> (s = SLOT_ID -> guarded st) ->
      free_f COUNT SLOT_ID PAGE_SIZES may_recycle stamp (S (S f)) p st = Ok st' -> goes f (st, used) (st', used').

Lemma inv_used st a used used' : used ≡ₚ used' -> inv st a used -> inv st a used'.
Proof. intros E [H1 H2]. split; [done|]. eapply pages_ok_perm; [|exact H2]. by rewrite E. Qed.

Lemma goes_inv f w w' a : goes f w w' -> inv w.1 a w.2 -> exists a', inv w'.1 a' w'.2 /\ (own a ++ w.2) ⊆+ (own a' ++ w'.2).
Proof.
  intros G I. destruct G as [mr stamp s st used p st' Hs Ha Hg E|mr stamp p s st used used' st' Eu Ha Hg E]; cbn [fst snd] in *.
  - destruct (alloc_any COUNT SLOT_ID NSLOTS PAGE_SIZES mr stamp COUNT_two SLOT_ID_class PAGE_SIZES_pos f st a used s I Ha Hs
      (fun H => guarded_safe _ _ _ (Hg H))) as (q & st2 & a' & E2 & [I' S'] & _). rewrite E2 in E. injection E as -> ->. by exists a'.
  - apply (inv_used _ _ _ _ Eu) in I. assert (0 <= s < NSLOTS) as Hs.
    { destruct (inv_pages _ _ _ _ _ _ _ I) as [_ H _ _]. rewrite Forall_app in H. destruct H as [_ H]. apply list.Forall_cons in H as [H _]. simpl in H. lia. }
    destruct (free_appends COUNT SLOT_ID NSLOTS PAGE_SIZES mr stamp COUNT_two SLOT_ID_class PAGE_SIZES_pos f st a used' p s I Ha Hs
      (fun H => guarded_safe _ _ _ (Hg H))) as (st2 & a' & E2 & I' & S' & _). rewrite E2 in E. injection E as ->. exists a'. split; [done|]. by rewrite Eu.
Qed.

Lemma runs_inv f w w' a : rtc (goes f) w w' -> inv w.1 a w.2 -> exists a', inv w'.1 a' w'.2 /\ (own a ++ w.2) ⊆+ (own a' ++ w'.2).
Proof.
  intros R. revert a. induction R as [w|w w1 w2 G _ IH]; intros a I; [by exists a|].
  destruct (goes_inv f w w1 a G I) as (a1 & I1 & S1). destruct (IH a1 I1) as (a2 & I2 & S2). exists a2. split; [done|]. by etrans.
Qed.

(** C37: however pages are allocated and freed from a good state on, while areas are left
    and the queue of container pages is [guarded] (where it is not, freeing loses pages,
    [free_loses_pages]), the pages in use, the freed ones and the space still to be carved
    are disjoint and no page is lost; the next allocation returns a page that overlaps none
    in use and ends in such a state again, and freeing any page in use succeeds. *)
Theorem pages_stay_disjoint f st a used st' used' : inv st a used -> rtc (goes f) (st, used) (st', used') ->
  exists a', inv st' a' used' /\ own a ++ used ⊆+ own a' ++ used' /\
    pairwise disjoint (spaces st' ++ map extent (own a' ++ used')) /\
    (areas st' <> [] -> guarded st' -> forall may_recycle stamp,
      (forall s, 0 <= s < NSLOTS -> exists p st2,
        alloc_f COUNT SLOT_ID PAGE_SIZES may_recycle stamp (S (S f)) s st' = Ok (Some p, st2) /\
        Forall (disjoint (extent (p, s))) (map extent used') /\ rtc (goes f) (st, used) (st2, (p, s) :: used')) /\
      (forall p, p ∈ used' -> exists st2, free_f COUNT SLOT_ID PAGE_SIZES may_recycle stamp (S (S f)) p.1 st' = Ok st2)).
Proof.
  intros I R. destruct (runs_inv f _ _ a R I) as (a' & I' & S). cbn [fst snd] in *. exists a'. split; [done|]. split; [done|].
  split; [apply (ok_disjoint _ _ _ _ (inv_pages _ _ _ _ _ _ _ I'))|]. intros Ha Hg mr stamp. split.
  - intros s Hs. destruct (alloc_any COUNT SLOT_ID NSLOTS PAGE_SIZES mr stamp COUNT_two SLOT_ID_class PAGE_SIZES_pos f st' a' used' s I' Ha Hs
      (fun _ => guarded_safe _ _ _ Hg)) as (p & st2 & a2 & E & [I2 _] & _). exists p, st2. split; [done|]. split.
    + pose proof (ok_disjoint _ _ _ _ (inv_pages _ _ _ _ _ _ _ I2)) as D. rewrite <- (Permutation_middle (own a2) used' (p, s)) in D. simpl map in D.
      rewrite <- (Permutation_middle (spaces st2)) in D. destruct D as [D _]. revert D. rewrite map_app, !Forall_app. tauto.
    + eapply rtc_r; [exact R|]. by eapply goes_alloc.
  - intros [p s] Hp. apply elem_of_Permutation in Hp as [rest Eu]. apply (inv_used _ _ _ _ Eu) in I'. assert (0 <= s < NSLOTS) as Hs.
    { destruct (inv_pages _ _ _ _ _ _ _ I') as [_ H _ _]. rewrite Forall_app in H. destruct H as [_ H]. apply list.Forall_cons in H as [H _]. simpl in H. lia. }
    destruct (free_appends COUNT SLOT_ID NSLOTS PAGE_SIZES mr stamp COUNT_two SLOT_ID_class PAGE_SIZES_pos f st' a' rest p s I' Ha Hs
      (fun _ => guarded_safe _ _ _ Hg)) as (st2 & a2 & E2 & _). by exists st2.
Qed.
End runs.

(** *** A concrete manager: three size classes, containers of two blocks. *)
Definition sizes (s : Z) : Z := 2048 * (s + 1).

Definition empty_state : state :=
  State (fun _ => Slot 0 0 0 0 0) 0 0 0 0 (fun _ => 0) (fun _ _ => Item 0 0) (fun _ => 0)
    [(262144, 524288); (524288, 786432)].

Definition state0 : state := init 4096 262144 empty_state.

Lemma sizes_pos : forall s, 0 <= s < 3 -> 0 < sizes s.
Proof. unfold sizes. lia. Qed.

Lemma inv_state0 : inv 2 1 3 sizes state0 (fun _ => Queue [] []) [].
Proof.
  apply inv_init; [|lia|].
  - simpl. split_and!; try done; repeat constructor; intros x ??; simpl in *; lia.
  - repeat constructor; simpl; unfold sizes; lia.
Qed.

Lemma safe_state0 : safe 2 1 (fun _ => true) state0 (fun _ => Queue [] []).
Proof. intros E. done. Qed.

(** A page is allocated and freed, and another one allocated. *)
Lemma pages_stay_disjoint_witness : exists p st1 st2 st3, alloc_f 2 1 sizes (fun _ => true) 7 2 0 state0 = Ok (Some p, st1) /\
  free_f 2 1 sizes (fun _ => true) 7 2 p st1 = Ok st2 /\ alloc_f 2 1 sizes (fun _ => true) 8 2 2 st2 = Ok (Some st3.1, st3.2) /\
  exists a', inv 2 1 3 sizes st3.2 a' [(st3.1, 2)] /\ pairwise disjoint (spaces st3.2 ++ map (extent sizes) (own 1 3 a' ++ [(st3.1, 2)])).
Proof.
  destruct (alloc_f 2 1 sizes (fun _ => true) 7 2 0 state0) as [[[p|] st1]| |] eqn:E1; [|by vm_compute in E1..].
  pose proof E1 as F1. vm_compute in F1. injection F1 as F1 F2.
  destruct (free_f 2 1 sizes (fun _ => true) 7 2 p st1) as [st2| |] eqn:E2; [|by subst p st1; vm_compute in E2..].
  pose proof E2 as F3. rewrite <- F1, <- F2 in F3. vm_compute in F3. injection F3 as F3.
  destruct (alloc_f 2 1 sizes (fun _ => true) 8 2 2 st2) as [[[q|] st3]| |] eqn:E3; [|by subst st2; vm_compute in E3..].
  exists p, st1, st2, (q, st3). split; [done|]. split; [done|]. split; [done|].
  destruct (pages_stay_disjoint 2 1 3 sizes ltac:(lia) ltac:(lia) sizes_pos 0 state0 (fun _ => Queue [] []) [] st3 [(q, 2)] inv_state0) as (a' & I & _ & D & _).
  - eapply rtc_l; [eapply (goes_alloc 2 1 3 sizes 0 (fun _ => true) 7 0); [lia|done|by left|exact E1]|].
    eapply rtc_l; [eapply (goes_free 2 1 3 sizes 0 (fun _ => true) 7 p 0 st1 [(p, 0)] []); [done|by subst st1|done|exact E2]|].
    eapply rtc_once. eapply (goes_alloc 2 1 3 sizes 0 (fun _ => true) 8 2); [lia|by subst st2|left; by subst st2|exact E3].
  - by exists a'.
Defined.

Lemma alloc_oldest_first_witness :
  exists p st' a', alloc_f 2 1 sizes (fun _ => true) 7 2 0 state0 = Ok (Some p, st') /\
    inv 2 1 3 sizes st' a' [(p, 0)] /\ (fresh sizes state0 0 p /\ blocks (a' 0) = []) /\
    (forall t, t <> 0 -> t <> 1 -> a' t = Queue [] []).
Proof.
  apply (alloc_oldest_first 2 1 3 sizes (fun _ => true) 7 ltac:(lia) ltac:(lia) sizes_pos 0 state0
    (fun _ => Queue [] []) [] 0 inv_state0 ltac:(done) ltac:(lia) ltac:(lia) safe_state0).
Defined.

(** A state with one page in use. *)
Definition state1 : state :=
  set_slot_id 4096 0 (set_space 0 0 6144 262144 (areas empty_state) state0).

Lemma inv_state1 : inv 2 1 3 sizes state1 (fun _ => Queue [] []) [(4096, 0)].
Proof.
  split; [done|]. split; simpl.
  - split_and!; try done; repeat constructor; intros x ??; simpl in *; unfold sizes in *; lia.
  - by repeat constructor.
  - repeat constructor; simpl; lia.
  - repeat constructor; simpl; unfold sizes; lia.
Qed.

Lemma free_appends_witness :
  exists st' a', free_f 2 1 sizes (fun _ => true) 7 2 4096 state1 = Ok st' /\
    inv 2 1 3 sizes st' a' [] /\ own 1 3 (fun _ => Queue [] []) ++ [(4096, 0)] ⊆+ own 1 3 a' ++ [] /\
    (0 <> 1 -> blocks (a' 0) = [Item 4096 7]) /\
    (forall t, t <> 0 -> t <> 1 -> a' t = Queue [] []).
Proof.
  apply (free_appends 2 1 3 sizes (fun _ => true) 7 ltac:(lia) ltac:(lia) sizes_pos 0 state1
    (fun _ => Queue [] []) [] 4096 0 inv_state1 ltac:(done) ltac:(lia) ltac:(lia)).
Defined.

(** *** Where the container queue is not safe *)

Definition page (r : outcome (option Z * state)) : outcome (Z * state) :=
  '(o, st) ← r; match o with Some p => Ok (p, st) | None => NullPage end.

(** Transaction 5 frees four container pages; transaction 7, for which they may be
    recycled, takes one and frees another. *)
Definition losing_run : outcome (Z * list Z * state) :=
  let take txn st := page (alloc_f 2 1 sizes (fun t => t <? txn) txn 3 1 st) in
  let drop txn p st := free_f 2 1 sizes (fun t => t <? txn) txn 3 p st in
  '(p1, st) ← take 5 state0; '(p2, st) ← take 5 st; '(p3, st) ← take 5 st;
  '(p4, st) ← take 5 st; '(q, st) ← take 5 st;
  st ← drop 5 p1 st; st ← drop 5 p2 st; st ← drop 5 p3 st; st ← drop 5 p4 st;
  '(_, st) ← take 7 st; st ← drop 7 q st;
  Ok (q, [p1; p2; p3; p4], st).

(** Freeing a container page while the container queue's last container is full
    and its first has one recyclable block left loses pages: the allocation
    inside [push] frees the first container, which itself appends a container,
    and [push] then links its own container over it. The queue counts three
    blocks and holds two. *)
Theorem free_loses_pages :
  exists q freed st, losing_run = Ok (q, freed, st) /\
    count (slots st 1) = 3 /\
    exists a b, iter_slot 2 9 1 st = Some [a; b] /\ link b = q.
Proof.
  eexists _, _, _. split; [vm_compute; reflexivity|].
  split; [reflexivity|]. eexists _, _. split; reflexivity.
Qed.

(** [rollback] copies the committed manager back over the transaction's; the pages
    the transaction wrote keep what it wrote. *)
Definition rollback (committed st : state) : state :=
  State (slots committed) (left_over_start committed) (left_over_end committed)
    (allocation_start committed) (allocation_end committed) (cnext st) (cblock st) (slot_id st)
    (areas committed).

(** Transaction 5 fills a container with freed pages of class 0. The next one frees
    a third page and is rolled back; transaction 6 takes a page [p] of class 2 and
    the two freed ones, and frees one again. *)
Definition stale_run : outcome (Z * state) :=
  let take txn s st := page (alloc_f 2 1 sizes (fun t => t <? txn) txn 3 s st) in
  let drop txn p st := free_f 2 1 sizes (fun t => t <? txn) txn 3 p st in
  '(a1, st) ← take 5 0 state0; '(a2, st) ← take 5 0 st; '(a3, st) ← take 5 0 st;
  st ← drop 5 a1 st; committed ← drop 5 a2 st;
  st ← drop 6 a3 committed;
  let st := rollback committed st in
  '(p, st) ← take 6 2 st;
  '(b1, st) ← take 6 0 st; '(_, st) ← take 6 0 st; st ← drop 6 b1 st;
  Ok (p, st).

(** A rolled-back transaction that appended a container leaves the link to it in
    the last committed container. Draining that container follows the link: the
    first container of the queue is then a page in use. *)
Theorem rollback_leaves_link :
  exists p st, stale_run = Ok (p, st) /\ ostart (slots st 0) = p /\ count (slots st 0) = 1.
Proof. eexists _, _. split; [vm_compute; reflexivity|]. split; reflexivity. Qed.

End memoryinv.
