(* ===== verification/Area.v ===== *)
(** * Area: the pool of free areas

    Models [memory/_memory.hpp], lines 323-676: the header of an area, the free
    list with its double-buffered ends ([AreaList]), the pool of single and multi
    areas ([AreaPool]) and [_recover_areas], which rebuilds the pool of a file
    after a crash. An area is named by its offset; [mem] holds the headers. *)
From S2P Require Import Prelude.

Module area.

Record header := Header { offset : Z; size : Z; next : Z }.

Definition mem := Z -> header.

(** [Area::init]: the size is stored in 32 bits. *)
Definition area_init (area_offset area_size next_area : Z) : header :=
  Header area_offset (u32 area_size) next_area.

Definition set_next (m : mem) (o n : Z) : mem := upd m o (Header (offset (m o)) (size (m o)) n).
Definition set_size (m : mem) (o s : Z) : mem := upd m o (Header (offset (m o)) (u32 s) (next (m o))).

Definition content_offset (area_header_size : Z) (h : header) : Z := offset h + area_header_size.
Definition end_ (h : header) : Z := offset h + size h.

(** [Area::get_end]; [fuel] bounds the links followed. *)
Fixpoint follow (fuel : nat) (m : mem) (cur : Z) : option Z :=
  match fuel with
  | O => None
  | S f => if next (m cur) =? 0 then Some cur else follow f m (next (m cur))
  end.

Definition get_end (fuel : nat) (m : mem) (cur : Z) : option Z :=
  if cur =? 0 then Some 0 else follow fuel m cur.

(** ** AreaList *)

Definition MAX_ITER : nat := 10.

Record area_list := AreaList { head : Z -> Z; tail : Z -> Z; active : Z }.

Definition list_init : area_list := AreaList (fun _ => 0) (fun _ => 0) 0.

Definition get_head (l : area_list) : Z := head l (active l).
Definition get_tail (l : area_list) : Z := tail l (active l).

(** The writes of [atomic_switch], in order. *)
Definition switch_prepare (new_head new_tail : Z) (l : area_list) : area_list :=
  let inactive := 1 - active l in
  AreaList (upd (head l) inactive new_head) (upd (tail l) inactive new_tail) (active l).

Definition switch_commit (l : area_list) : area_list := AreaList (head l) (tail l) (1 - active l).

Definition atomic_switch (new_head new_tail : Z) (l : area_list) : area_list :=
  switch_commit (switch_prepare new_head new_tail l).

Definition pop (m : mem) (l : area_list) : option Z * area_list :=
  if get_head l =? 0 then (None, l)
  else
    let area := get_head l in
    let new_head := next (m area) in
    let new_tail := if new_head =? 0 then 0 else get_tail l in
    (Some area, atomic_switch new_head new_tail l).

Definition push (slice_offset slice_size : Z) (m : mem) (l : area_list) : mem * area_list :=
  let m' := upd m slice_offset (area_init slice_offset slice_size (get_head l)) in
  let new_tail := if get_tail l =? 0 then slice_offset else get_tail l in
  (m', atomic_switch slice_offset new_tail l).

(** The loop of [find_and_remove] up to the suitable area: its predecessor and
    its offset. *)
Fixpoint find (iter : nat) (n : Z) (m : mem) (prev curr : Z) : option (Z * Z) :=
  match iter with
  | O => None
  | S i =>
      if curr =? 0 then None
      else if n <=? size (m curr) then Some (prev, curr)
      else find i n m curr (next (m curr))
  end.

Definition find_and_remove (n : Z) (m : mem) (l : area_list) : option Z * mem * area_list :=
  if get_head l =? 0 then (None, m, l)
  else
    match find MAX_ITER n m 0 (get_head l) with
    | None => (None, m, l)
    | Some (prev, curr) =>
        let '(m1, new_head, new_tail) :=
          if negb (prev =? 0) then
            (set_next m prev (next (m curr)), get_head l,
             if curr =? get_tail l then prev else get_tail l)
          else
            (m, next (m curr), if curr =? get_tail l then 0 else get_tail l) in
        let '(m2, new_head) :=
          if n <? size (m1 curr) then
            let rest := offset (m1 curr) + n in
            let m' := upd m1 rest (area_init rest (size (m1 curr) - n) new_head) in
            (set_size m' curr n, rest)
          else (m1, new_head) in
        let new_tail := if (new_tail =? 0) && negb (new_head =? 0) then new_head else new_tail in
        (Some curr, m2, atomic_switch new_head new_tail l)
    end.

Definition add (other_head other_tail : Z) (m : mem) (l : area_list) : mem * area_list :=
  if other_head =? 0 then (m, l)
  else if get_head l =? 0 then (m, atomic_switch other_head other_tail l)
  else (set_next m (get_tail l) other_head, atomic_switch (get_head l) other_tail l).

(** ** AreaPool *)

Record pool := Pool { single_areas : area_list; multi_areas : area_list }.

Definition pool_init : pool := Pool list_init list_init.

Definition unlinked (r : option Z) (m : mem) : mem :=
  match r with Some a => set_next m a 0 | None => m end.

Definition alloc_single_area (AREA_SIZE : Z) (m : mem) (p : pool) : option Z * mem * pool :=
  let '(r, s) := pop m (single_areas p) in
  match r with
  | Some a => (r, unlinked r m, Pool s (multi_areas p))
  | None =>
      let '(r, m', ml) := find_and_remove AREA_SIZE m (multi_areas p) in
      (r, unlinked r m', Pool s ml)
  end.

Definition alloc_multi_area (n : Z) (m : mem) (p : pool) : option Z * mem * pool :=
  let '(r, m', ml) := find_and_remove n m (multi_areas p) in
  (r, unlinked r m', Pool (single_areas p) ml).

Definition return_single_areas (h t : Z) (m : mem) (p : pool) : mem * pool :=
  let '(m', s) := add h t m (single_areas p) in (m', Pool s (multi_areas p)).

Definition return_multi_areas (h t : Z) (m : mem) (p : pool) : mem * pool :=
  let '(m', ml) := add h t m (multi_areas p) in (m', Pool (single_areas p) ml).

(** ** _recover_areas *)

Section recover.
Context (AREA_SIZE : Z).

Fixpoint mark_range (fuel : nat) (cur remaining : Z) (occupied : gset Z) : gset Z :=
  match fuel with
  | O => occupied
  | S f =>
      let occupied := {[cur]} ∪ occupied in
      if remaining <=? AREA_SIZE then occupied
      else mark_range f (cur + AREA_SIZE) (remaining - AREA_SIZE) occupied
  end.

(** [mark_occupied_range]; the fuel is the number of blocks of the range. *)
Definition mark_occupied_range (start n : Z) (occupied : gset Z) : gset Z :=
  if n =? 0 then occupied else mark_range (S (Z.to_nat (n / AREA_SIZE))) start n occupied.

(** [walk]: the chain of areas a database owns; [fuel] bounds its links. *)
Fixpoint walk (fuel : nat) (h : Z) (m : mem) (occupied : gset Z) : mem * gset Z :=
  match fuel with
  | O => (m, occupied)
  | S f =>
      if h =? 0 then (m, occupied)
      else if decide (h ∈ occupied) then (m, occupied)
      else
        let occupied := {[h]} ∪ occupied in
        let area := m h in
        let m' := if offset area =? h then m else upd m h (Header h (size area) (next area)) in
        walk f (next area) m' (mark_occupied_range h (size area) occupied)
  end.

(** One database: the two chains of its header. *)
Definition mark_db (fuel : nat) (db : Z * Z) (s : mem * gset Z) : mem * gset Z :=
  let '(m, occupied) := walk fuel (fst db) (fst s) (snd s) in walk fuel (snd db) m occupied.

(** [link_area]: the area is appended to a chain. *)
Definition link_area (pos n : Z) (m : mem) (ends : Z * Z) : mem * (Z * Z) :=
  let m1 := upd m pos (area_init pos n 0) in
  if fst ends =? 0 then (m1, (pos, pos))
  else (set_next m1 (snd ends) pos, (fst ends, pos)).

Record scan := Scan {
  s_mem : mem;
  singles : Z * Z;
  multis : Z * Z;
  run_start : Z;
  run_blocks : Z
}.

Definition flush_run (s : scan) : scan :=
  if run_blocks s =? 1 then
    let '(m, e) := link_area (run_start s) AREA_SIZE (s_mem s) (singles s) in
    Scan m e (multis s) (run_start s) 0
  else if 1 <? run_blocks s then
    let '(m, e) := link_area (run_start s) (run_blocks s * AREA_SIZE) (s_mem s) (multis s) in
    Scan m (singles s) e (run_start s) 0
  else Scan (s_mem s) (singles s) (multis s) (run_start s) 0.

(** One step of the scan of the file. *)
Definition scan_block (occupied : gset Z) (s : scan) (pos : Z) : scan :=
  if decide (pos ∈ occupied) then flush_run s
  else
    Scan (s_mem s) (singles s) (multis s)
      (if run_blocks s =? 0 then pos else run_start s) (run_blocks s + 1).

(** The positions the scan visits: [pos + AREA_SIZE <= file_size]. *)
Definition positions (first_area_pos file_size : Z) : list Z :=
  map (fun i => first_area_pos + i * AREA_SIZE)
    (seqZ 0 ((file_size - first_area_pos) / AREA_SIZE)).

Definition scan_file (occupied : gset Z) (m : mem) (ps : list Z) : scan :=
  flush_run (fold_left (scan_block occupied) ps (Scan m (0, 0) (0, 0) 0 0)).

Definition recover_areas (fuel : nat) (dbs : list (Z * Z)) (extra : gset Z -> gset Z)
    (first_area_pos file_size : Z) (m : mem) : mem * pool :=
  let '(m, occupied) := fold_left (fun s db => mark_db fuel db s) dbs (m, ∅) in
  let s := scan_file (extra occupied) m (positions first_area_pos file_size) in
  let switch e l := if negb (fst e =? 0) then atomic_switch (fst e) (snd e) l else l in
  (s_mem s, Pool (switch (singles s) list_init) (switch (multis s) list_init)).
End recover.
End area.
