(* ===== verification/AreaFacts.v ===== *)
(** * AreaFacts: the free lists own disjoint areas

    A free list represents the sequence of its areas ([free_list]). Taking an area
    removes it, or its front when it is larger than asked for, and the ranges of
    the list and of the area handed out stay a partition of the old ranges. *)
From S2P Require Import Prelude Area.

Module areafacts.
Import area.

Fixpoint linked (m : mem) (h : Z) (xs : list Z) : Prop :=
  match xs with
  | [] => h = 0
  | x :: xs' => h = x /\ x <> 0 /\ linked m (next (m x)) xs'
  end.

Definition range (m : mem) (x : Z) : Z * Z := (x, x + size (m x)).

Definition lastz (d : Z) (xs : list Z) : Z := default d (list.last xs).

(** The header of a free area: its own offset, and a size that fits its field. *)
Definition ok_header (m : mem) (x : Z) : Prop :=
  offset (m x) = x /\ 0 < x /\ 0 < size (m x) < 2 ^ 32.

Record free_list (m : mem) (l : area_list) (xs : list Z) : Prop := {
  fl_active : active l = 0 \/ active l = 1;
  fl_linked : linked m (get_head l) xs;
  fl_tail : get_tail l = lastz 0 xs;
  fl_headers : Forall (ok_header m) xs;
  fl_disjoint : pairwise disjoint (map (range m) xs)
}.

(** ** Chains *)

Lemma area_linked_ext m m' h xs :
  (forall x, x ∈ xs -> next (m' x) = next (m x)) -> linked m h xs -> linked m' h xs.
Proof.
  revert h. induction xs as [|x xs IH]; intros h E; simpl; [done|]. intros (-> & H0 & L).
  split_and!; try done. rewrite E by left. apply IH; [|done]. intros y Hy. apply E. by right.
Qed.

Lemma linked_app m h xs ys :
  linked m h (xs ++ ys) <->
  exists k, (forall zs, linked m k zs -> linked m h (xs ++ zs)) /\ linked m k ys.
Proof.
  split.
  - revert h. induction xs as [|x xs IH]; intros h L; simpl in *; [by exists h|].
    destruct L as (-> & H0 & L). destruct (IH _ L) as (k & A & B). exists k. split; [|done].
    intros zs Hz. split_and!; try done. by apply A.
  - intros (k & A & B). by apply A.
Qed.

Lemma lastz_app d xs y ys : lastz d (xs ++ y :: ys) = lastz y ys.
Proof. unfold lastz. rewrite last_app_cons, last_cons. by destruct (list.last ys). Qed.

Lemma lastz_cons d y ys : lastz d (y :: ys) = lastz y ys.
Proof. apply (lastz_app d []). Qed.

Lemma lastz_elem d xs : xs <> [] -> lastz d xs ∈ xs.
Proof.
  unfold lastz. intros H. destruct (list.last xs) as [y|] eqn:E; [|by apply last_None in E].
  by apply last_Some_elem_of.
Qed.

Lemma set_next_eq m o n : set_next m o n o = Header (offset (m o)) (size (m o)) n.
Proof. apply upd_eq. Qed.

Lemma set_next_ne m o n x : x <> o -> set_next m o n x = m x.
Proof. apply upd_ne. Qed.

(** The last link of a chain is null, and setting it joins another chain. *)
Lemma linked_join m h xs h' ys :
  NoDup xs -> xs <> [] -> linked m h xs -> linked m h' ys -> (forall x, x ∈ xs -> x ∉ ys) ->
  linked (set_next m (lastz 0 xs) h') h (xs ++ ys).
Proof.
  revert h. induction xs as [|x xs IH]; intros h N Hne L L' D; [done|].
  apply list.NoDup_cons in N as [Nx N]. simpl in L |- *. destruct L as (-> & H0 & L).
  split_and!; try done. rewrite lastz_cons. destruct xs as [|y xs].
  - change (lastz x []) with x. simpl. rewrite set_next_eq. simpl.
    apply (area_linked_ext m); [|done]. intros z Hz. rewrite set_next_ne; [done|].
    intros ->. apply (D x); [by left|done].
  - assert (lastz x (y :: xs) = lastz 0 (y :: xs)) as -> by by rewrite !lastz_cons.
    pose proof (lastz_elem 0 (y :: xs) ltac:(done)) as Hl.
    rewrite set_next_ne by (intros ->; done).
    apply IH; try done. intros z Hz. apply D. by right.
Qed.

(** Unlinking the successor of an area. *)
Lemma linked_unlink m h pre p o post :
  NoDup (pre ++ p :: o :: post) -> linked m h (pre ++ p :: o :: post) ->
  linked (set_next m p (next (m o))) h (pre ++ p :: post).
Proof.
  revert h. induction pre as [|x pre IH]; intros h N L; simpl in *.
  - destruct L as (-> & Hp & E & Ho & L). split_and!; try done.
    rewrite set_next_eq. simpl. rewrite <- E in *.
    apply list.NoDup_cons in N as [Np N].
    apply (area_linked_ext m); [|done]. intros z Hz. rewrite set_next_ne; [done|].
    intros ->. apply Np. by right.
  - destruct L as (-> & Hp & L). apply list.NoDup_cons in N as [Nx N]. split_and!; try done.
    rewrite set_next_ne by (intros ->; apply Nx, elem_of_app; right; left).
    by apply IH.
Qed.

Lemma range_nodup m xs :
  Forall (ok_header m) xs ->
  pairwise disjoint (map (range m) xs) -> NoDup xs.
Proof.
  induction xs as [|x xs IH]; intros H D; [by constructor|].
  apply list.Forall_cons in H as [(_ & _ & Hx) H]. destruct D as [D1 D2]. constructor; [|by apply IH].
  intros Hin. rewrite list.Forall_forall in D1. rewrite list.Forall_forall in H. destruct (H x Hin) as (_ & _ & Hs).
  apply (D1 (range m x)) with x; simpl; try lia.
  apply list_elem_of_In, in_map, list_elem_of_In, Hin.
Qed.

Lemma free_list_nodup m l xs : free_list m l xs -> NoDup xs.
Proof. intros H. eapply range_nodup; [apply H|apply H]. Qed.

Lemma linked_nil m h xs : linked m h xs -> (h = 0 <-> xs = []).
Proof. destruct xs; simpl; [tauto|]. intros (-> & ? & _). by split. Qed.

(** [get_end] finds the last area of a chain. *)
Theorem get_end_last (fuel : nat) (m : mem) (h : Z) (xs : list Z) :
  linked m h xs -> (length xs <= fuel)%nat -> get_end fuel m h = Some (lastz 0 xs).
Proof.
  intros L Hf. unfold get_end. destruct xs as [|x xs]; simpl in L; [by subst|].
  destruct L as (-> & Hx & L). destruct (Z.eqb_spec x 0); [done|]. clear n. rewrite lastz_cons.
  revert x fuel Hx L Hf. induction xs as [|y xs IH]; intros x [|fuel] Hx L Hf; simpl in *; try lia.
  - by rewrite L.
  - destruct L as (-> & Hy & L). destruct (Z.eqb_spec y 0); [done|]. rewrite lastz_cons.
    apply IH; done || lia.
Qed.

Lemma get_end_last_witness :
  get_end 3 (fun x => Header x 64 (if x =? 192 then 0 else x + 64)) 64 = Some 192.
Proof. apply (get_end_last 3 _ 64 [64; 128; 192]); [simpl; lia|simpl; lia]. Defined.

(** ** The switch of the ends *)

Lemma switch_head h t l : get_head (atomic_switch h t l) = h.
Proof. unfold get_head, atomic_switch, switch_commit, switch_prepare. simpl. apply upd_eq. Qed.

Lemma switch_tail h t l : get_tail (atomic_switch h t l) = t.
Proof. unfold get_tail, atomic_switch, switch_commit, switch_prepare. simpl. apply upd_eq. Qed.

Lemma switch_active h t l :
  active l = 0 \/ active l = 1 -> active (atomic_switch h t l) = 0 \/ active (atomic_switch h t l) = 1.
Proof. unfold atomic_switch, switch_commit. simpl. lia. Qed.

(** Between the writes of [atomic_switch] a reader sees the old ends; the last
    write makes both new ends visible at once. *)
Theorem switch_is_atomic (h t : Z) (l : area_list) :
  active l = 0 \/ active l = 1 ->
  (get_head (switch_prepare h t l), get_tail (switch_prepare h t l)) = (get_head l, get_tail l) /\
  (get_head (atomic_switch h t l), get_tail (atomic_switch h t l)) = (h, t).
Proof.
  intros A. rewrite switch_head, switch_tail. split; [|done].
  unfold get_head, get_tail, switch_prepare. simpl. by rewrite !upd_ne by lia.
Qed.

Lemma switch_is_atomic_witness :
  (get_head (switch_prepare 5 7 list_init), get_tail (switch_prepare 5 7 list_init)) = (0, 0) /\
  (get_head (atomic_switch 5 7 list_init), get_tail (atomic_switch 5 7 list_init)) = (5, 7).
Proof. apply (switch_is_atomic 5 7 list_init). by left. Defined.

Lemma free_list_switch m l h t xs :
  active l = 0 \/ active l = 1 -> linked m h xs -> t = lastz 0 xs ->
  Forall (ok_header m) xs ->
  pairwise disjoint (map (range m) xs) -> free_list m (atomic_switch h t l) xs.
Proof.
  intros A L T H D. split; try done.
  - by apply switch_active.
  - by rewrite switch_head.
  - by rewrite switch_tail.
Qed.

(** ** pop, push and add *)

Lemma pop_spec m l xs : free_list m l xs ->
  match xs with
  | [] => pop m l = (None, l)
  | x :: xs' => exists l', pop m l = (Some x, l') /\ free_list m l' xs'
  end.
Proof.
  intros [A L T H D]. unfold pop. destruct xs as [|x xs]; simpl in L; [by rewrite L|].
  destruct L as (E & Hx & L). rewrite E. destruct (Z.eqb_spec x 0); [done|]. eexists. split; [done|].
  destruct D as [_ D]. apply list.Forall_cons in H as [_ H]. apply free_list_switch; try done.
  pose proof (linked_nil _ _ _ L) as Z0. destruct (Z.eqb_spec (next (m x)) 0) as [E0|E0].
  - by rewrite (proj1 Z0 E0).
  - rewrite T, lastz_cons. destruct xs; [by destruct E0; apply Z0|by rewrite !lastz_cons].
Qed.

(** A change of the memory that keeps the headers of a chain. *)
Lemma headers_ext m m' xs :
  (forall x, x ∈ xs -> offset (m' x) = offset (m x) /\ size (m' x) = size (m x)) ->
  Forall (ok_header m) xs ->
  Forall (ok_header m') xs.
Proof.
  intros E. rewrite !list.Forall_forall. unfold ok_header. intros H x Hx. destruct (E x Hx) as [-> ->]. by apply H.
Qed.

Lemma ranges_ext m m' xs :
  (forall x, x ∈ xs -> size (m' x) = size (m x)) -> map (range m') xs = map (range m) xs.
Proof.
  intros E. apply List.map_ext_in. intros x Hx. unfold range.
  by rewrite E by (by apply list_elem_of_In).
Qed.

Lemma push_spec m l xs o n :
  free_list m l xs -> 0 < o -> 0 < n < 2 ^ 32 -> Forall (disjoint (o, o + n)) (map (range m) xs) ->
  free_list (fst (push o n m l)) (snd (push o n m l)) (o :: xs).
Proof.
  intros F Ho Hn Dn. pose proof F as [A L T H D]. unfold push. cbn [fst snd].
  assert (forall x, x ∈ xs -> x <> o) as Hne.
  { intros x Hx ->. rewrite list.Forall_forall in Dn. rewrite list.Forall_forall in H.
    destruct (H _ Hx) as (_ & _ & Hs).
    apply (Dn (range m o)) with o; simpl; try lia. by apply list_elem_of_In, in_map, list_elem_of_In. }
  set (m' := upd m o _). assert (forall x, x ∈ xs -> m' x = m x) as E.
  { intros x Hx. unfold m'. by rewrite upd_ne by auto. }
  assert (m' o = Header o n (get_head l)) as Eo.
  { unfold m'. rewrite upd_eq. unfold area_init. by rewrite wrap_small by lia. }
  apply free_list_switch; try done.
  - simpl. split_and!; try done || lia. rewrite Eo. apply (area_linked_ext m); [|done].
    intros x Hx. by rewrite E.
  - rewrite T, lastz_cons. destruct xs as [|x xs]; [done|].
    destruct (Z.eqb_spec (lastz 0 (x :: xs)) 0) as [E0|]; [|by rewrite !lastz_cons].
    exfalso. pose proof (lastz_elem 0 (x :: xs) ltac:(done)) as Hl. rewrite E0 in Hl.
    clear -L Hl. revert L. generalize (get_head l). revert Hl. generalize (x :: xs).
    intros ys. induction ys as [|y ys IH]; intros Hl h; simpl; [by apply not_elem_of_nil in Hl|].
    intros (-> & Hy & L). apply list.elem_of_cons in Hl as [<-|Hl]; [done|]. by eapply IH.
  - constructor; [unfold ok_header; rewrite Eo; simpl; lia|]. eapply headers_ext; [|exact H]. intros x Hx. by rewrite E.
  - simpl. rewrite (ranges_ext m) by (intros; by rewrite E). split; [|done].
    unfold range at 1. by rewrite Eo.
Qed.

(** The chain [ys] that a database returns is appended. *)
Lemma add_spec m l xs ys h :
  free_list m l xs -> linked m h ys ->
  Forall (ok_header m) ys ->
  pairwise disjoint (map (range m) (xs ++ ys)) ->
  let '(m', l') := add h (lastz 0 ys) m l in
  free_list m' l' (xs ++ ys) /\ (forall x, offset (m' x) = offset (m x) /\ size (m' x) = size (m x)).
Proof.
  intros F L' H' D'. pose proof F as [A L T H D]. pose proof (linked_nil _ _ _ L') as Z'. unfold add.
  destruct (Z.eqb_spec h 0) as [->|Hh].
  { rewrite (proj1 Z') by done. rewrite app_nil_r. by split. }
  assert (ys <> []) as Hys by (intros ->; tauto).
  pose proof (linked_nil _ _ _ L) as ZL. destruct (Z.eqb_spec (get_head l) 0) as [E|Hl].
  { rewrite (proj1 ZL E) in *. split; [|done]. by apply free_list_switch. }
  assert (xs <> []) as Hxs by (intros ->; tauto).
  assert (forall x, offset (set_next m (get_tail l) h x) = offset (m x) /\
    size (set_next m (get_tail l) h x) = size (m x)) as E.
  { intros x. destruct (Z.eq_dec x (get_tail l)) as [->|]; [by rewrite set_next_eq|by rewrite set_next_ne]. }
  split; [|done]. apply free_list_switch; try done.
  - rewrite T. apply linked_join; try done; [by eapply free_list_nodup|].
    assert (NoDup (xs ++ ys)) as N by (eapply range_nodup; [by apply Forall_app|done]).
    apply list.NoDup_app in N. by apply N.
  - destruct ys as [|y ys]; [done|]. by rewrite lastz_app, lastz_cons.
  - apply (headers_ext m); [by intros; apply E|]. by apply Forall_app.
  - rewrite (ranges_ext m); [done|]. intros x _. apply E.
Qed.

(** ** find_and_remove *)

Lemma find_spec iter n m prev curr xs :
  linked m curr xs ->
  (find iter n m prev curr = None /\ Forall (fun x => size (m x) < n) (take iter xs)) \/
  exists pre o post, xs = pre ++ o :: post /\ (length pre < iter)%nat /\
    Forall (fun x => size (m x) < n) pre /\ n <= size (m o) /\
    find iter n m prev curr = Some (lastz prev pre, o).
Proof.
  revert prev curr xs. induction iter as [|i IH]; intros prev curr xs L; simpl; [by left|].
  destruct xs as [|x xs]; simpl in L; [subst; by left|]. destruct L as (-> & Hx & L).
  destruct (Z.eqb_spec x 0); [done|]. destruct (Z.leb_spec n (size (m x))) as [Hs|Hs].
  { right. exists [], x, xs. split_and!; try done. simpl. lia. }
  destruct (IH x _ _ L) as [[E F]|(pre & o & post & -> & Hl & F & Ho & E)].
  - left. split; [done|]. simpl. by constructor.
  - right. exists (x :: pre), o, post. split_and!; try done.
    + simpl. lia.
    + by constructor.
    + by rewrite E, lastz_cons.
Qed.

(** The list without the area [o], before the split of its rest. *)
Lemma unlink_spec m l pre o post :
  free_list m l (pre ++ o :: post) ->
  let prev := lastz 0 pre in
  let m1 := if negb (prev =? 0) then set_next m prev (next (m o)) else m in
  let nh := if negb (prev =? 0) then get_head l else next (m o) in
  linked m1 nh (pre ++ post) /\
  (if o =? get_tail l then prev else get_tail l) = lastz 0 (pre ++ post) /\
  m1 o = m o /\ (forall x, offset (m1 x) = offset (m x) /\ size (m1 x) = size (m x)) /\
  (forall x, x ∉ pre -> m1 x = m x).
Proof.
  intros F prev m1 nh. pose proof (free_list_nodup _ _ _ F) as N. destruct F as [A L T H D].
  assert ((if o =? get_tail l then prev else get_tail l) = lastz 0 (pre ++ post)) as Et.
  { rewrite T, lastz_app. destruct post as [|y post].
    - change (lastz o []) with o. by rewrite Z.eqb_refl, app_nil_r.
    - rewrite lastz_app, lastz_cons. destruct (Z.eqb_spec o (lastz y post)) as [E|]; [|done].
      exfalso. apply list.NoDup_app in N as (_ & _ & N). apply list.NoDup_cons in N as [N _].
      apply N. rewrite E. rewrite <- (lastz_cons 0). by apply lastz_elem. }
  destruct pre as [|p pre'] using rev_ind; simpl in *.
  - subst prev m1 nh. simpl. destruct L as (E & Ho & L). by split_and!.
  - clear IHpre'. subst prev m1 nh.
    assert (lastz 0 (pre' ++ [p]) = p) as Ep by apply lastz_app. rewrite Ep in *.
    rewrite <- !app_assoc in *. simpl in *.
    assert (p <> 0) as Hp.
    { apply Forall_app in H as [_ H]. apply list.Forall_cons in H as [(_ & Hp & _) _]. lia. }
    destruct (Z.eqb_spec p 0); [done|]. simpl. split_and!; [|done| | |].
    + by apply linked_unlink.
    + apply set_next_ne. apply list.NoDup_app in N as (_ & _ & N).
      apply list.NoDup_cons in N as [N _]. intros ->. apply N. by left.
    + intros x. destruct (Z.eq_dec x p) as [->|]; [by rewrite set_next_eq|by rewrite set_next_ne].
    + intros x Hx. apply set_next_ne. intros ->. apply Hx, elem_of_app. right. by left.
Qed.

Lemma find_and_remove_spec n m l xs : 0 < n -> free_list m l xs ->
  (find_and_remove n m l = (None, m, l) /\ Forall (fun x => size (m x) < n) (take MAX_ITER xs)) \/
  exists pre o post m' l',
    xs = pre ++ o :: post /\ (length pre < MAX_ITER)%nat /\
    Forall (fun x => size (m x) < n) pre /\ n <= size (m o) /\
    find_and_remove n m l = (Some o, m', l') /\
    free_list m' l' ((if n <? size (m o) then [o + n] else []) ++ pre ++ post) /\
    offset (m' o) = o /\ size (m' o) = n /\
    (forall x, x ∈ pre ++ post -> size (m' x) = size (m x)) /\
    (n < size (m o) -> size (m' (o + n)) = size (m o) - n) /\
    (forall x, x ∉ pre ++ o :: post -> (n < size (m o) -> x <> o + n) -> m' x = m x).
Proof.
  intros Hn F. unfold find_and_remove. pose proof F as [A L T H D].
  pose proof (linked_nil _ _ _ L) as ZL. destruct (Z.eqb_spec (get_head l) 0) as [E|_].
  { left. split; [done|]. rewrite (proj1 ZL E). constructor. }
  destruct (find_spec MAX_ITER n m 0 (get_head l) xs L) as [[-> Fs]|(pre & o & post & E & Hl & Fs & Ho & ->)].
  { by left. }
  right. subst xs. destruct (unlink_spec _ _ _ _ _ F) as (L1 & T1 & Eo & E1 & E1f).
  set (m1 := if negb (lastz 0 pre =? 0) then set_next m (lastz 0 pre) (next (m o)) else m) in *.
  set (nh := if negb (lastz 0 pre =? 0) then get_head l else next (m o)) in *.
  assert (exists nt, (if negb (lastz 0 pre =? 0)
    then (set_next m (lastz 0 pre) (next (m o)), get_head l,
          if o =? get_tail l then lastz 0 pre else get_tail l)
    else (m, next (m o), if o =? get_tail l then 0 else get_tail l)) = (m1, nh, nt) /\
    nt = lastz 0 (pre ++ post)) as (nt & -> & ->).
  { rewrite <- T1. unfold m1, nh. destruct (Z.eqb_spec (lastz 0 pre) 0) as [->|]; eauto. }
  pose proof (free_list_nodup _ _ _ F) as N.
  assert (o ∉ pre ++ post) as No.
  { rewrite <- Permutation_middle in N. by apply list.NoDup_cons in N as [N _]. }
  rewrite <- (Permutation_middle pre) in H. rewrite <- (Permutation_middle pre post o) in D.
  apply list.Forall_cons in H as [(Hoff & Hpos & Hsz) H]. destruct D as [Do D].
  assert (Forall (ok_header m1) (pre ++ post)) as H1 by (apply (headers_ext m); [by intros; apply E1|done]).
  assert (map (range m1) (pre ++ post) = map (range m) (pre ++ post)) as R1.
  { apply ranges_ext. intros. apply E1. }
  rewrite Eo, Hoff. exists pre, o, post. destruct (Z.ltb_spec n (size (m o))) as [Hlt|Hge].
  - set (m2 := set_size (upd m1 (o + n) (area_init (o + n) (size (m o) - n) nh)) o n).
    assert (m2 (o + n) = Header (o + n) (size (m o) - n) nh) as Er.
    { unfold m2, set_size. rewrite upd_ne, upd_eq by lia. unfold area_init. by rewrite wrap_small by lia. }
    assert (m2 o = Header o n (next (m o))) as E2o.
    { unfold m2, set_size. rewrite upd_eq, !upd_ne, Eo by lia. rewrite wrap_small by lia. by rewrite Hoff. }
    assert (forall x, x ∈ pre ++ post -> x <> o + n) as Nr.
    { intros x Hx ->. rewrite list.Forall_forall in Do. rewrite list.Forall_forall in H.
      destruct (H _ Hx) as (_ & _ & Hs).
      apply (Do (range m (o + n))) with (o + n); simpl; try lia.
      by apply list_elem_of_In, in_map, list_elem_of_In. }
    assert (forall x, x ∈ pre ++ post -> m2 x = m1 x) as E2.
    { intros x Hx. unfold m2, set_size. rewrite !upd_ne; [done|by apply Nr|]. by intros ->. }
    eexists _, _. split_and!; try done.
    + destruct (Z.eqb_spec (o + n) 0); [lia|]. simpl. apply free_list_switch; try done.
      * simpl. split_and!; try done. rewrite Er. simpl. apply (area_linked_ext m1); [|done].
        intros x Hx. by rewrite E2.
      * rewrite lastz_cons, andb_true_r. destruct (pre ++ post) as [|y ys]; [done|].
        destruct (Z.eqb_spec (lastz 0 (y :: ys)) 0) as [E0|]; [|by rewrite !lastz_cons].
        pose proof (lastz_elem 0 (y :: ys) ltac:(done)) as Hl0. rewrite E0 in Hl0.
        rewrite list.Forall_forall in H. destruct (H _ Hl0) as (_ & ? & _). lia.
      * constructor; [unfold ok_header; rewrite Er; simpl; lia|].
        eapply headers_ext; [|exact H1]. intros x Hx. by rewrite E2.
      * simpl. rewrite (ranges_ext m1), R1 by (intros; by rewrite E2). split; [|done].
        unfold range at 1. rewrite Er. simpl. eapply Forall_impl; [|exact Do].
        intros r. apply disjoint_sub; lia.
    + by rewrite E2o.
    + by rewrite E2o.
    + intros x Hx. rewrite E2 by done. apply E1.
    + intros _. by rewrite Er.
    + intros x Hx Hr. specialize (Hr Hlt). rewrite elem_of_app, list.elem_of_cons in Hx.
      unfold m2, set_size. rewrite !upd_ne by tauto. apply E1f. tauto.
  - eexists _, _. split_and!; try done.
    + assert ((lastz 0 (pre ++ post) =? 0) && negb (nh =? 0) = false) as ->.
      { apply andb_false_iff. pose proof (linked_nil _ _ _ L1) as Z1.
        destruct (Z.eqb_spec nh 0) as [|Hnh]; [by right|left]. apply Z.eqb_neq. intros E0.
        assert (pre ++ post <> []) as Hne by (intros E2; apply Hnh, Z1, E2).
        pose proof (lastz_elem 0 _ Hne) as Hl0. rewrite E0 in Hl0.
        rewrite list.Forall_forall in H. destruct (H _ Hl0) as (_ & ? & _). lia. }
      apply free_list_switch; try done. simpl. by rewrite R1.
    + by rewrite Eo.
    + rewrite Eo. lia.
    + intros x Hx. apply E1.
    + lia.
    + intros x Hx _. apply E1f. intros Hp. apply Hx, elem_of_app. by left.
Qed.

(** ** The pool *)

(** The byte [z] is in one of the areas. *)
Definition covered (m : mem) (xs : list Z) (z : Z) : Prop :=
  exists x, x ∈ xs /\ x <= z < x + size (m x).

Record pool_ok (AREA_SIZE : Z) (m : mem) (p : pool) (xs ys : list Z) : Prop := {
  po_single : free_list m (single_areas p) xs;
  po_multi : free_list m (multi_areas p) ys;
  po_sizes : Forall (fun x => size (m x) = AREA_SIZE) xs;
  po_disjoint : pairwise disjoint (map (range m) (xs ++ ys))
}.

Lemma free_list_ext m m' l xs : (forall x, x ∈ xs -> m' x = m x) -> free_list m l xs -> free_list m' l xs.
Proof.
  intros E [A L T H D]. split; try done.
  - apply (area_linked_ext m); [|done]. intros x Hx. by rewrite E.
  - apply (headers_ext m); [|done]. intros x Hx. by rewrite E.
  - rewrite (ranges_ext m); [done|]. intros x Hx. by rewrite E.
Qed.

(** A single area of the right size is found first; else a multi area gives it. *)
Lemma disjoint_member m x xs ys :
  pairwise disjoint (map (range m) (xs ++ ys)) -> x ∈ xs -> forall y, y ∈ ys ->
  disjoint (range m x) (range m y).
Proof.
  rewrite map_app, pairwise_app. intros (_ & _ & D) Hx y Hy. rewrite list.Forall_forall in D.
  specialize (D (range m x) ltac:(by apply list_elem_of_In, in_map, list_elem_of_In)).
  rewrite list.Forall_forall in D. apply D. by apply list_elem_of_In, in_map, list_elem_of_In.
Qed.

Lemma take_multi n m l xs ls ys o m1 l' :
  0 < n -> free_list m ls xs -> free_list m l ys -> pairwise disjoint (map (range m) (xs ++ ys)) ->
  find_and_remove n m l = (Some o, m1, l') ->
  let m2 := set_next m1 o 0 in
  exists ys', free_list m2 l' ys' /\ free_list m2 ls xs /\ m2 o = Header o n 0 /\
    (forall x, x ∈ xs -> m2 x = m x) /\
    pairwise disjoint ((o, o + n) :: map (range m2) (xs ++ ys')) /\
    (forall z, covered m (xs ++ ys) z <-> o <= z < o + n \/ covered m2 (xs ++ ys') z).
Proof.
  intros Hn Fx Fy D E m2.
  destruct (find_and_remove_spec n m l ys Hn Fy)
    as [[E' _]|(pre & o' & post & m' & l2 & -> & _ & _ & Ho & E' & F' & Off & Sz & Same & Rest & Fr)];
    [congruence|]. rewrite E' in E. injection E as -> -> ->.
  set (rest := if n <? size (m o) then [o + n] else []) in *.
  assert (size (m o) = n \/ n < size (m o)) as Hc by lia.
  pose proof (fl_headers _ _ _ Fy) as Hy. rewrite Forall_app, list.Forall_cons in Hy.
  destruct Hy as (Hpre & Hoo & Hpost). destruct Hoo as (_ & Hop & Hos).
  assert (o ∈ pre ++ o :: post) as Hoy by (apply elem_of_app; right; left).
  assert (forall x, x ∈ xs -> disjoint (range m x) (range m o)) as Dxo.
  { intros x Hx. by apply (disjoint_member m x xs (pre ++ o :: post)). }
  assert (forall x, x ∈ xs -> size (m x) > 0) as Sx.
  { intros x Hx. pose proof (fl_headers _ _ _ Fx) as Hx0. rewrite list.Forall_forall in Hx0.
    destruct (Hx0 x Hx) as (_ & _ & ?). lia. }
  assert (forall x, x ∈ xs -> x <> o /\ (n < size (m o) -> x <> o + n)) as Nx.
  { intros x Hx. specialize (Dxo x Hx). specialize (Sx x Hx).
    split; [intros ->|intros ? ->].
    - apply (Dxo o); simpl; lia.
    - apply (Dxo (o + n)); simpl; lia. }
  assert (forall x, x ∈ xs -> m2 x = m x) as Ex.
  { intros x Hx. destruct (Nx x Hx). unfold m2. rewrite set_next_ne by done. apply Fr; [|done].
    intros Hin. pose proof (disjoint_member m x xs (pre ++ o :: post) D Hx x Hin) as Dxx.
    apply (Dxx x); simpl; specialize (Sx x Hx); lia. }
  pose proof (free_list_nodup _ _ _ F') as N'.
  assert (o ∉ rest ++ pre ++ post) as No.
  { intros Hin. apply elem_of_app in Hin as [Hin|Hin].
    - unfold rest in Hin. destruct (n <? size (m o)); [|by inversion Hin].
      apply list_elem_of_singleton in Hin. lia.
    - pose proof (free_list_nodup _ _ _ Fy) as N. rewrite <- Permutation_middle in N.
      by apply list.NoDup_cons in N as [N _]. }
  assert (forall x, size (m2 x) = size (m1 x)) as S2.
  { intros x. unfold m2. destruct (Z.eq_dec x o) as [->|]; [by rewrite set_next_eq|by rewrite set_next_ne]. }
  exists (rest ++ pre ++ post). split_and!.
  - apply (free_list_ext m1); [|done]. intros x Hx. apply set_next_ne. by intros ->.
  - by apply (free_list_ext m).
  - unfold m2. rewrite set_next_eq, Off, Sz. done.
  - done.
  - assert (map (range m2) (xs ++ rest ++ pre ++ post) =
      map (range m) xs ++ map (range m2) rest ++ map (range m) (pre ++ post)) as ->.
    { rewrite (map_app _ xs), (map_app _ rest), (ranges_ext m m2 xs) by (intros; by rewrite Ex).
      rewrite (ranges_ext m m2 (pre ++ post)); [done|].
      intros x Hx. rewrite S2. by apply Same. }
    rewrite map_app in D. rewrite <- (Permutation_middle pre post o) in D. simpl map in D.
    rewrite <- (Permutation_middle (map (range m) xs)) in D. unfold rest.
    destruct (Z.ltb_spec n (size (m o))) as [Hlt|].
    + assert (map (range m2) [o + n] = [(o + n, o + size (m o))]) as ->.
      { simpl. unfold range. rewrite S2, (Rest Hlt). do 2 f_equal. lia. }
      rewrite (Permutation_app_swap_app (map (range m) xs)).
      apply (pairwise_split o (o + n) (o + size (m o))); [lia|exact D].
    + destruct Hc as [Hc|]; [|lia]. unfold range at 1 in D. by rewrite Hc in D.
  - intros z. unfold covered. split.
    + intros (x & Hx & Hz). apply elem_of_app in Hx as [Hx|Hx].
      { right. exists x. rewrite Ex by done. split; [apply elem_of_app; by left|done]. }
      rewrite elem_of_app, list.elem_of_cons in Hx.
      assert (x = o \/ x ∈ pre ++ post) as [->|Hx'] by (rewrite elem_of_app; tauto).
      * destruct (Z.lt_ge_cases z (o + n)); [left; lia|right]. exists (o + n).
        unfold rest. destruct (Z.ltb_spec n (size (m o))); [|lia]. rewrite S2, Rest by done.
        split; [|lia]. rewrite !elem_of_app. right. left. by left.
      * right. exists x. rewrite S2, Same by done. split; [|done]. apply elem_of_app. right.
        apply elem_of_app. by right.
    + intros [Hz|(x & Hx & Hz)].
      { exists o. split; [apply elem_of_app; by right|lia]. }
      apply elem_of_app in Hx as [Hx|Hx].
      { exists x. rewrite Ex in Hz by done. split; [apply elem_of_app; by left|done]. }
      apply elem_of_app in Hx as [Hx|Hx].
      * unfold rest in Hx. destruct (Z.ltb_spec n (size (m o))); [|by inversion Hx].
        apply list_elem_of_singleton in Hx as ->. rewrite S2, Rest in Hz by done.
        exists o. split; [apply elem_of_app; by right|lia].
      * rewrite S2, Same in Hz by done. exists x. split; [|done].
        rewrite !elem_of_app, list.elem_of_cons in *. tauto.
Qed.

(** The two allocations, for the callers that are proved against them. *)
Lemma alloc_single_spec (AREA_SIZE : Z) (m : mem) (p : pool) (xs ys : list Z) :
  0 < AREA_SIZE -> pool_ok AREA_SIZE m p xs ys ->
  let '(r, m', p') := alloc_single_area AREA_SIZE m p in
  match r with
  | Some o =>
      exists xs' ys', pool_ok AREA_SIZE m' p' xs' ys' /\ m' o = Header o AREA_SIZE 0 /\
        Forall (disjoint (o, o + AREA_SIZE)) (map (range m') (xs' ++ ys')) /\
        (forall z, covered m (xs ++ ys) z <-> o <= z < o + AREA_SIZE \/ covered m' (xs' ++ ys') z)
  | None => xs = [] /\ Forall (fun y => size (m y) < AREA_SIZE) (take MAX_ITER ys)
  end.
Proof.
  intros HA [F1 F2 S D]. unfold alloc_single_area. pose proof (pop_spec _ _ _ F1) as P.
  destruct xs as [|o xs].
  - rewrite P. destruct (find_and_remove AREA_SIZE m (multi_areas p)) as [[[o|] m1] l1] eqn:E.
    + destruct (take_multi _ _ _ _ _ _ _ _ _ HA F1 F2 D E) as (ys' & G1 & G2 & G3 & G4 & [G5 G5'] & G6).
      exists [], ys'. simpl. split_and!; done.
    + split; [done|]. destruct (find_and_remove_spec AREA_SIZE m (multi_areas p) ys HA F2)
        as [[_ ?]|(? & ? & ? & ? & ? & _ & _ & _ & _ & E' & _)]; [done|congruence].
  - destruct P as (l1 & -> & F1'). cbn [unlinked]. apply list.Forall_cons in S as [So S].
    pose proof (free_list_nodup _ _ _ F1) as N. apply list.NoDup_cons in N as [No N].
    pose proof (fl_headers _ _ _ F1) as H. apply list.Forall_cons in H as [(Off & Hpos & _) H].
    set (m' := set_next m o 0).
    assert (NoDup ((o :: xs) ++ ys)) as NN.
    { eapply range_nodup; [|exact D]. apply Forall_app. split; [apply F1|apply F2]. }
    simpl in NN. apply list.NoDup_cons in NN as [Noy _]. rewrite elem_of_app in Noy.
    assert (forall x, x ∈ xs ++ ys -> m' x = m x) as E.
    { intros x Hx. unfold m'. apply set_next_ne. intros ->. by apply Noy, elem_of_app. }
    assert (map (range m') (xs ++ ys) = map (range m) (xs ++ ys)) as R.
    { apply ranges_ext. intros x Hx. by rewrite E. }
    destruct D as [D1 D2]. exists xs, ys. split_and!.
    + split; simpl.
      * apply (free_list_ext m); [|done]. intros x Hx. apply E, elem_of_app. by left.
      * apply (free_list_ext m); [|done]. intros x Hx. apply E, elem_of_app. by right.
      * revert S. rewrite !list.Forall_forall. intros S x Hx. rewrite E; [by apply S|].
        apply elem_of_app. by left.
      * by rewrite R.
    + unfold m'. by rewrite set_next_eq, Off, So.
    + rewrite R. unfold range at 1 in D1. by rewrite So in D1.
    + intros z. unfold covered. split.
      * intros (x & Hx & Hz). apply list.elem_of_cons in Hx as [->|Hx]; [left; lia|].
        right. exists x. by rewrite E.
      * intros [Hz|(x & Hx & Hz)]; [exists o; split; [by left|lia]|].
        exists x. rewrite E in Hz by done. split; [by right|done].
Qed.

Lemma alloc_multi_spec (AREA_SIZE n : Z) (m : mem) (p : pool) (xs ys : list Z) :
  0 < n -> pool_ok AREA_SIZE m p xs ys ->
  let '(r, m', p') := alloc_multi_area n m p in
  match r with
  | Some o =>
      exists ys', pool_ok AREA_SIZE m' p' xs ys' /\ m' o = Header o n 0 /\
        Forall (disjoint (o, o + n)) (map (range m') (xs ++ ys')) /\
        (forall z, covered m (xs ++ ys) z <-> o <= z < o + n \/ covered m' (xs ++ ys') z)
  | None => Forall (fun y => size (m y) < n) (take MAX_ITER ys)
  end.
Proof.
  intros HA [F1 F2 S D]. unfold alloc_multi_area.
  destruct (find_and_remove n m (multi_areas p)) as [[[o|] m1] l1] eqn:E.
  - destruct (take_multi _ _ _ _ _ _ _ _ _ HA F1 F2 D E) as (ys' & G1 & G2 & G3 & G4 & [G5 G5'] & G6).
    exists ys'. simpl. split_and!; try done. split; try done. simpl.
    revert S. rewrite !list.Forall_forall. intros S x Hx. rewrite G4 by done. by apply S.
  - destruct (find_and_remove_spec n m (multi_areas p) ys HA F2)
      as [[_ ?]|(? & ? & ? & ? & ? & _ & _ & _ & _ & E' & _)]; [done|congruence].
Qed.

(** Allocating a single area: the area handed out has exactly the size of an area,
    is unlinked and disjoint from the pool, and with the pool covers the bytes the
    pool covered before. It fails only when there is no single area and none of
    the first ten multi areas is large enough. *)
Theorem alloc_single_area_partition (AREA_SIZE : Z) (m : mem) (p : pool) (xs ys : list Z) :
  0 < AREA_SIZE -> pool_ok AREA_SIZE m p xs ys ->
  let '(r, m', p') := alloc_single_area AREA_SIZE m p in
  match r with
  | Some o =>
      exists xs' ys', pool_ok AREA_SIZE m' p' xs' ys' /\ m' o = Header o AREA_SIZE 0 /\
        Forall (disjoint (o, o + AREA_SIZE)) (map (range m') (xs' ++ ys')) /\
        (forall z, covered m (xs ++ ys) z <-> o <= z < o + AREA_SIZE \/ covered m' (xs' ++ ys') z)
  | None => xs = [] /\ Forall (fun y => size (m y) < AREA_SIZE) (take MAX_ITER ys)
  end.
Proof. exact (alloc_single_spec AREA_SIZE m p xs ys). Qed.

(** Allocating a multi area of [n] bytes: the first of the first ten areas that is
    large enough, cut to exactly [n] bytes; the rest stays in the pool. *)
Theorem alloc_multi_area_partition (AREA_SIZE n : Z) (m : mem) (p : pool) (xs ys : list Z) :
  0 < n -> pool_ok AREA_SIZE m p xs ys ->
  let '(r, m', p') := alloc_multi_area n m p in
  match r with
  | Some o =>
      exists ys', pool_ok AREA_SIZE m' p' xs ys' /\ m' o = Header o n 0 /\
        Forall (disjoint (o, o + n)) (map (range m') (xs ++ ys')) /\
        (forall z, covered m (xs ++ ys) z <-> o <= z < o + n \/ covered m' (xs ++ ys') z)
  | None => Forall (fun y => size (m y) < n) (take MAX_ITER ys)
  end.
Proof. exact (alloc_multi_spec AREA_SIZE n m p xs ys). Qed.

(** Returning a chain of areas adds exactly these areas to the pool. *)
Theorem return_multi_areas_appends (AREA_SIZE : Z) (m : mem) (p : pool) (xs ys zs : list Z) (h : Z) :
  pool_ok AREA_SIZE m p xs ys -> linked m h zs -> Forall (ok_header m) zs ->
  pairwise disjoint (map (range m) (xs ++ ys ++ zs)) ->
  let '(m', p') := return_multi_areas h (lastz 0 zs) m p in
  pool_ok AREA_SIZE m' p' xs (ys ++ zs) /\
  (forall x, offset (m' x) = offset (m x) /\ size (m' x) = size (m x)).
Proof.
  intros [F1 F2 S D] L H D'. unfold return_multi_areas.
  assert (pairwise disjoint (map (range m) (ys ++ zs))) as D2.
  { rewrite map_app in D'. apply pairwise_app in D'. by apply D'. }
  pose proof (add_spec _ _ _ _ _ F2 L H D2) as A.
  destruct (add h (lastz 0 zs) m (multi_areas p)) as [m' l'] eqn:E. destruct A as [A1 A2].
  split; [|done]. split; simpl.
  - (* the only area written is the tail of the multi list *)
    apply (free_list_ext m); [|done]. intros x Hx. unfold add in E.
    destruct (h =? 0); [by injection E as <- _|]. destruct (get_head (multi_areas p) =? 0) eqn:E0.
    { by injection E as <- _. }
    injection E as <- _. apply set_next_ne. intros ->.
    pose proof (fl_tail _ _ _ F2) as T. pose proof (linked_nil _ _ _ (fl_linked _ _ _ F2)) as Zl.
    assert (ys <> []) as Hys by (intros ->; apply Z.eqb_neq in E0; tauto).
    pose proof (lastz_elem 0 ys Hys) as Hl. rewrite <- T in Hl.
    pose proof (disjoint_member m _ xs ys D Hx _ Hl) as Dx.
    pose proof (fl_headers _ _ _ F2) as H2. rewrite list.Forall_forall in H2.
    destruct (H2 _ Hl) as (_ & _ & ?). apply (Dx (get_tail (multi_areas p))); simpl; lia.
  - done.
  - revert S. rewrite !list.Forall_forall. intros S x Hx. destruct (A2 x) as [_ ->]. by apply S.
  - rewrite (ranges_ext m); [done|]. intros x _. apply A2.
Qed.

(** *** A pool with one single area and a multi area of four. *)
Definition demo_mem : mem := fun x =>
  if x =? 4096 then Header 4096 1024 0 else Header 8192 4096 0.

Definition demo_pool : pool :=
  Pool (AreaList (fun _ => 4096) (fun _ => 4096) 0) (AreaList (fun _ => 8192) (fun _ => 8192) 0).

Lemma demo_pool_ok : pool_ok 1024 demo_mem demo_pool [4096] [8192].
Proof.
  split.
  - split; try done; [by left|]. repeat constructor; done.
  - split; try done; [by left|]. repeat constructor; done.
  - by repeat constructor.
  - simpl. split_and!; try done. constructor; [|constructor]. intros x ??. simpl in *. lia.
Qed.

Lemma alloc_single_area_partition_witness :
  let '(r, m', p') := alloc_single_area 1024 demo_mem demo_pool in
  match r with
  | Some o => exists xs' ys', pool_ok 1024 m' p' xs' ys' /\ m' o = Header o 1024 0 /\
      Forall (disjoint (o, o + 1024)) (map (range m') (xs' ++ ys')) /\
      (forall z, covered demo_mem ([4096] ++ [8192]) z <->
        o <= z < o + 1024 \/ covered m' (xs' ++ ys') z)
  | None => [4096] = [] /\ Forall (fun y => size (demo_mem y) < 1024) (take MAX_ITER [8192])
  end.
Proof. apply (alloc_single_area_partition 1024 demo_mem demo_pool); [lia|exact demo_pool_ok]. Defined.

Lemma alloc_multi_area_partition_witness :
  let '(r, m', p') := alloc_multi_area 3072 demo_mem demo_pool in
  match r with
  | Some o => exists ys', pool_ok 1024 m' p' [4096] ys' /\ m' o = Header o 3072 0 /\
      Forall (disjoint (o, o + 3072)) (map (range m') ([4096] ++ ys')) /\
      (forall z, covered demo_mem ([4096] ++ [8192]) z <->
        o <= z < o + 3072 \/ covered m' ([4096] ++ ys') z)
  | None => Forall (fun y => size (demo_mem y) < 3072) (take MAX_ITER [8192])
  end.
Proof. apply (alloc_multi_area_partition 1024 3072 demo_mem demo_pool); [lia|exact demo_pool_ok]. Defined.

Lemma return_multi_areas_appends_witness :
  let '(m', p') := return_multi_areas 0 (lastz 0 []) demo_mem demo_pool in
  pool_ok 1024 m' p' [4096] ([8192] ++ []) /\
  (forall x, offset (m' x) = offset (demo_mem x) /\ size (m' x) = size (demo_mem x)).
Proof.
  apply (return_multi_areas_appends 1024 demo_mem demo_pool [4096] [8192] [] 0 demo_pool_ok);
    [done|constructor|].
  simpl. split_and!; try done. constructor; [|constructor]. intros x ??. simpl in *. lia.
Defined.

End areafacts.
