(* ===== verification/AreaRecover.v ===== *)
(** * AreaRecover: rebuilding the pool after a crash

    [_recover_areas] marks the blocks of the areas the databases own and links
    every other block of the file into the pool. The rebuilt pool covers exactly
    the blocks that are not occupied, in disjoint areas, and no owned byte. *)
From S2P Require Import Prelude Area AreaFacts.

Module arearecover.
Import area areafacts.

Section with_size.
Context (AREA_SIZE : Z).
Hypothesis AREA_SIZE_pos : 0 < AREA_SIZE.

(** ** Marking *)

Lemma mark_range_elem fuel cur n occ z :
  0 < n -> n <= Z.of_nat fuel * AREA_SIZE ->
  z ∈ mark_range AREA_SIZE fuel cur n occ <->
  z ∈ occ \/ exists i, 0 <= i /\ i * AREA_SIZE < n /\ z = cur + i * AREA_SIZE.
Proof.
  revert cur n occ. induction fuel as [|f IH]; intros cur n occ Hn Hf; [lia|]. simpl.
  destruct (Z.leb_spec n AREA_SIZE) as [L|L].
  - rewrite elem_of_union, elem_of_singleton. split.
    + intros [->|H]; [right; exists 0; lia|by left].
    + intros [H|(i & Hi & Hl & ->)]; [by right|left]. assert (i = 0) as -> by nia. lia.
  - rewrite IH by nia. rewrite elem_of_union, elem_of_singleton. split.
    + intros [[->|H]|(i & Hi & Hl & ->)]; [right; exists 0; lia|by left|].
      right. exists (i + 1). split_and!; nia.
    + intros [H|(i & Hi & Hl & ->)]; [by left; right|].
      destruct (Z.eq_dec i 0) as [->|]; [left; left; lia|].
      right. exists (i - 1). split_and!; nia.
Qed.

Lemma mark_occupied_elem start n occ z : 0 < n ->
  z ∈ mark_occupied_range AREA_SIZE start n occ <->
  z ∈ occ \/ exists i, 0 <= i /\ i * AREA_SIZE < n /\ z = start + i * AREA_SIZE.
Proof.
  intros Hn. unfold mark_occupied_range. destruct (Z.eqb_spec n 0); [lia|].
  apply mark_range_elem; [done|]. pose proof (Z.div_mod n AREA_SIZE ltac:(lia)).
  pose proof (Z.mod_pos_bound n AREA_SIZE AREA_SIZE_pos). pose proof (Z.div_pos n AREA_SIZE). nia.
Qed.

(** The headers that [walk] repairs keep their links and sizes. *)
Definition same_chain (m m' : mem) : Prop :=
  forall x, next (m' x) = next (m x) /\ size (m' x) = size (m x).

(** The blocks of [x] that [walk] marks. *)
Definition block_of (m : mem) (x z : Z) : Prop :=
  exists i, 0 <= i /\ i * AREA_SIZE < size (m x) /\ z = x + i * AREA_SIZE.

Lemma block_in_range m x z : block_of m x z -> x <= z < x + size (m x).
Proof. intros (i & Hi & Hl & ->). nia. Qed.

Lemma walk_spec fuel h m occ xs :
  linked m h xs -> (length xs < fuel)%nat -> Forall (fun x => 0 < size (m x)) xs ->
  pairwise disjoint (map (range m) xs) -> (forall x, x ∈ xs -> x ∉ occ) ->
  let '(m', occ') := walk AREA_SIZE fuel h m occ in
  same_chain m m' /\ forall z, z ∈ occ' <-> z ∈ occ \/ exists x, x ∈ xs /\ block_of m x z.
Proof.
  revert h m occ xs. induction fuel as [|f IH]; intros h m occ xs L Hf S D H; [lia|].
  destruct xs as [|x xs]; simpl in L.
  { subst h. simpl. split; [done|]. intros z. split; [by left|]. intros [?|(x & Hx & _)]; [done|].
    by inversion Hx. }
  destruct L as (-> & Hx & L). cbn [walk]. destruct (Z.eqb_spec x 0); [done|].
  destruct (decide (x ∈ occ)) as [Hin|_]; [by destruct (H x ltac:(by left))|].
  apply list.Forall_cons in S as [Sx S]. destruct D as [D1 D2]. cbv zeta.
  set (m1 := if offset (m x) =? x then m else _).
  assert (same_chain m m1) as E1.
  { intros y. unfold m1. destruct (_ =? x); [done|]. destruct (Z.eq_dec y x) as [->|].
    - by rewrite upd_eq.
    - by rewrite upd_ne. }
  set (occ1 := mark_occupied_range _ _ _ _).
  assert (forall z, z ∈ occ1 <-> z ∈ occ \/ block_of m x z) as E2.
  { intros z. unfold occ1. rewrite mark_occupied_elem by done. rewrite elem_of_union, elem_of_singleton.
    split; [|unfold block_of; tauto]. intros [[->|?]|?]; [|by left|by right].
    right. exists 0. lia. }
  assert (map (range m1) xs = map (range m) xs) as R1 by (apply ranges_ext; intros; apply E1).
  specialize (IH (next (m x)) m1 occ1 xs).
  destruct (walk AREA_SIZE f (next (m x)) m1 occ1) as [m' occ'] eqn:E.
  destruct IH as [I1 I2].
  - apply (area_linked_ext m); [|done]. intros; apply E1.
  - simpl in Hf. lia.
  - revert S. rewrite !list.Forall_forall. intros S y Hy. destruct (E1 y) as [_ ->]. by apply S.
  - by rewrite R1.
  - intros y Hy Hin. apply E2 in Hin as [Hin|Hin%block_in_range]; [apply (H y); [by right|done]|].
    rewrite list.Forall_forall in D1. rewrite list.Forall_forall in S.
    apply (D1 (range m y)) with y; simpl; [by apply list_elem_of_In, in_map, list_elem_of_In|done|].
    specialize (S y Hy). simpl in S. lia.
  - split.
    + intros y. destruct (I1 y) as [-> ->]. apply E1.
    + intros z. rewrite I2, E2. unfold block_of. split.
      * intros [[?|?]|(y & Hy & B)]; [by left|right; exists x; split; [by left|done]|].
        right. exists y. split; [by right|]. by destruct (E1 y) as [_ <-].
      * intros [?|(y & Hy & B)]; [by left; left|]. apply list.elem_of_cons in Hy as [->|Hy].
        -- left. by right.
        -- right. exists y. split; [done|]. by destruct (E1 y) as [_ ->].
Qed.

(** Chains one after the other, each with the areas it links. *)
Lemma walks_spec fuel chains : forall m occ,
  Forall (fun c => linked m c.1 c.2 /\ (length c.2 < fuel)%nat) chains -> Forall (fun x => 0 < size (m x)) (flat_map snd chains) ->
  pairwise disjoint (map (range m) (flat_map snd chains)) -> (forall x, x ∈ flat_map snd chains -> x ∉ occ) ->
  let '(m', occ') := fold_left (fun s h => walk AREA_SIZE fuel h (fst s) (snd s)) (map fst chains) (m, occ) in
  same_chain m m' /\ forall z, z ∈ occ' <-> z ∈ occ \/ exists x, x ∈ flat_map snd chains /\ block_of m x z.
Proof.
  induction chains as [|[h xs] chains IH]; intros m occ L S D H; cbn [map fold_left flat_map fst snd] in *.
  { split; [done|]. intros z. split; [by left|]. intros [?|(x & Hx & _)]; [done|by apply not_elem_of_nil in Hx]. }
  apply list.Forall_cons in L as [[L1 Lf] L]. apply Forall_app in S as [S1 S2]. pose proof D as D'. rewrite map_app in D'. apply pairwise_app in D' as (D1 & D2 & _).
  pose proof (walk_spec fuel h m occ xs L1 Lf S1 D1 ltac:(intros x Hx; apply H, elem_of_app; by left)) as W.
  destruct (walk AREA_SIZE fuel h m occ) as [m1 occ1]. destruct W as [E1 W].
  specialize (IH m1 occ1). destruct (fold_left _ (map fst chains) (m1, occ1)) as [m' occ'].
  destruct IH as [E2 W2].
  - eapply Forall_impl; [|exact L]. intros c [Lc Lcf]. split; [|done]. apply (area_linked_ext m); [intros; apply E1|done].
  - eapply Forall_impl; [|exact S2]. intros x Hx. by destruct (E1 x) as [_ ->].
  - rewrite (ranges_ext m); [done|]. intros; apply E1.
  - intros x Hx Hin. apply W in Hin as [Hin|(y & Hy & B%block_in_range)]; [apply (H x); [apply elem_of_app; by right|done]|].
    apply (disjoint_member m y xs _ D Hy x Hx x B). simpl. rewrite list.Forall_forall in S2. specialize (S2 x Hx). simpl in S2. lia.
  - split; [intros x; destruct (E2 x) as [-> ->]; apply E1|]. intros z. rewrite W2, W. setoid_rewrite elem_of_app. split.
    + intros [[?|(x & Hx & B)]|(x & Hx & B)]; [by left|right; exists x; by split; [left|]|right; exists x]. split; [by right|]. unfold block_of in *. by destruct (E1 x) as [_ <-].
    + intros [?|(x & [Hx|Hx] & B)]; [by left; left|left; right; by exists x|right; exists x]. split; [done|]. unfold block_of in *. by destruct (E1 x) as [_ ->].
Qed.

(** ** Scanning *)

Definition chain_ok (m : mem) (e : Z * Z) (xs : list Z) : Prop :=
  linked m (fst e) xs /\ snd e = lastz 0 xs.

(** Every byte of [Fr] seen so far is in a linked area or in the current run. *)
Record scan_inv (s : scan) (cur : Z) (Fr : Z -> Prop) (xs ys : list Z) : Prop := {
  si_single : chain_ok (s_mem s) (singles s) xs;
  si_multi : chain_ok (s_mem s) (multis s) ys;
  si_headers : Forall (ok_header (s_mem s)) (xs ++ ys);
  si_sizes : Forall (fun x => size (s_mem s x) = AREA_SIZE) xs;
  si_disjoint : pairwise disjoint (map (range (s_mem s)) (xs ++ ys));
  si_below : Forall (fun x => x + size (s_mem s x) <= cur - run_blocks s * AREA_SIZE) (xs ++ ys);
  si_blocks : 0 <= run_blocks s;
  si_start : 0 < run_blocks s -> run_start s = cur - run_blocks s * AREA_SIZE;
  si_cover : forall z, Fr z <->
    covered (s_mem s) (xs ++ ys) z \/ cur - run_blocks s * AREA_SIZE <= z < cur
}.

Lemma link_area_spec m e xs pos n :
  chain_ok m e xs -> NoDup xs -> pos ∉ xs -> 0 < pos ->
  let '(m', e') := link_area pos n m e in
  chain_ok m' e' (xs ++ [pos]) /\ offset (m' pos) = pos /\ size (m' pos) = u32 n /\
  (forall x, x <> pos -> offset (m' x) = offset (m x) /\ size (m' x) = size (m x)) /\
  (forall x, x <> pos -> x ∉ xs -> m' x = m x).
Proof.
  intros [L T] N Hn Hp. unfold link_area. pose proof (linked_nil _ _ _ L) as Z0.
  set (m1 := upd m pos (area_init pos n 0)).
  assert (m1 pos = area_init pos n 0) as E1 by (unfold m1; by rewrite upd_eq).
  assert (forall x, x <> pos -> m1 x = m x) as E2 by (intros; unfold m1; by rewrite upd_ne).
  destruct (Z.eqb_spec (fst e) 0) as [E|E].
  - rewrite (proj1 Z0 E). simpl. split_and!; try (by rewrite E1).
    + split; [|done]. simpl. rewrite E1. by split_and!; try lia.
    + intros x Hx. by rewrite E2.
    + intros x Hx _. by apply E2.
  - assert (xs <> []) as Hne by (intros ->; tauto). rewrite T.
    pose proof (lastz_elem 0 xs Hne) as Hl. assert (pos <> lastz 0 xs) as Hd by (intros ->; done).
    rewrite set_next_ne by done. split_and!; try (by rewrite E1).
    + split; [|simpl; symmetry; apply lastz_app]. simpl. apply linked_join; try done.
      * apply (area_linked_ext m); [|done]. intros x Hx. rewrite E2; [done|]. by intros ->.
      * simpl. rewrite E1. simpl. split_and!; try done; lia.
      * intros x Hx ->%list_elem_of_singleton. done.
    + intros x Hx. destruct (Z.eq_dec x (lastz 0 xs)) as [->|].
      * rewrite set_next_eq. simpl. by rewrite E2.
      * rewrite set_next_ne by done. by rewrite E2.
    + intros x Hx Hx'. rewrite set_next_ne; [by apply E2|]. by intros ->.
Qed.

Lemma chain_ok_ext m m' e xs : (forall x, x ∈ xs -> next (m' x) = next (m x)) ->
  chain_ok m e xs -> chain_ok m' e xs.
Proof. intros E [L T]. split; [|done]. by eapply area_linked_ext. Qed.

(** The lists after a new area [pos] of [n] bytes joined one of them. *)
Lemma new_area m m' l pos n cur :
  Forall (ok_header m) l -> pairwise disjoint (map (range m) l) ->
  Forall (fun x => x + size (m x) <= pos) l -> 0 < pos -> 0 < n < 2 ^ 32 -> pos + n = cur ->
  offset (m' pos) = pos -> size (m' pos) = u32 n ->
  (forall x, x <> pos -> offset (m' x) = offset (m x) /\ size (m' x) = size (m x)) ->
  Forall (ok_header m') (pos :: l) /\ pairwise disjoint (map (range m') (pos :: l)) /\
  Forall (fun x => x + size (m' x) <= cur) (pos :: l) /\
  (forall z, covered m' (pos :: l) z <-> covered m l z \/ pos <= z < cur).
Proof.
  intros H D B Hp Hn Hc Eo Es Em. rewrite wrap_small in Es by lia.
  rewrite list.Forall_forall in H. rewrite list.Forall_forall in B.
  assert (forall x, x ∈ l -> x <> pos) as Hne.
  { intros x Hx ->. destruct (H _ Hx) as (_ & _ & ?). specialize (B _ Hx). simpl in B. lia. }
  assert (forall x, x ∈ l -> offset (m' x) = offset (m x) /\ size (m' x) = size (m x)) as E by auto.
  split_and!.
  - constructor; [split_and!; lia|]. apply (headers_ext m); [done|by apply list.Forall_forall].
  - simpl. rewrite (ranges_ext m) by (intros; by apply E). split; [|done].
    apply list.Forall_forall. intros r (x & <- & Hx)%list_elem_of_In%in_map_iff y ??.
    apply list_elem_of_In in Hx. specialize (B _ Hx). simpl in *. lia.
  - constructor; [lia|]. apply list.Forall_forall. intros x Hx. destruct (E x Hx) as [_ ->].
    destruct (H _ Hx) as (_ & _ & ?). specialize (B _ Hx). simpl in B. lia.
  - intros z. unfold covered. split.
    + intros (x & Hx & Hz). apply list.elem_of_cons in Hx as [->|Hx]; [right; lia|].
      left. exists x. by destruct (E x Hx) as [_ <-].
    + intros [(x & Hx & Hz)|Hz].
      * exists x. destruct (E x Hx) as [_ ->]. split; [by right|done].
      * exists pos. split; [by left|lia].
Qed.

Lemma covered_perm m l l' z : l ≡ₚ l' -> covered m l z <-> covered m l' z.
Proof. intros P. unfold covered. by setoid_rewrite P. Qed.

Lemma flush_spec s cur Fr xs ys :
  scan_inv s cur Fr xs ys -> 0 < cur - run_blocks s * AREA_SIZE -> run_blocks s * AREA_SIZE < 2 ^ 32 ->
  exists xs' ys', scan_inv (flush_run AREA_SIZE s) cur Fr xs' ys' /\
    run_blocks (flush_run AREA_SIZE s) = 0.
Proof.
  intros [S1 S2 S3 S4 S5 S6 S7 S8 S9] Hp Hb. unfold flush_run.
  assert (NoDup (xs ++ ys)) as N by (by eapply range_nodup).
  assert (forall x, x ∈ xs ++ ys -> x <> cur - run_blocks s * AREA_SIZE) as Hne.
  { intros x Hx ->. rewrite list.Forall_forall in S3. rewrite list.Forall_forall in S6.
    destruct (S3 _ Hx) as (_ & _ & ?). specialize (S6 _ Hx). simpl in S6. lia. }
  set (pos := cur - run_blocks s * AREA_SIZE) in *.
  assert (NoDup xs /\ NoDup ys) as [N1 N2] by (apply list.NoDup_app in N; tauto).
  assert (pos ∉ xs /\ pos ∉ ys) as [P1 P2].
  { split; intros Hin; eapply Hne; try done; apply elem_of_app; tauto. }
  assert (forall x, x ∈ xs -> x ∉ ys) as Dxy by (apply list.NoDup_app in N; tauto).
  destruct (Z.eqb_spec (run_blocks s) 1) as [E1|E1]; [|destruct (Z.ltb_spec 1 (run_blocks s)) as [E2|E2]].
  - rewrite S8 by lia. fold pos.
    pose proof (link_area_spec (s_mem s) (singles s) xs pos AREA_SIZE S1 N1 P1 Hp) as L.
    destruct (link_area pos AREA_SIZE (s_mem s) (singles s)) as [m' e'].
    destruct L as (L1 & L2 & L3 & L4 & L5).
    destruct (new_area (s_mem s) m' (xs ++ ys) pos AREA_SIZE cur) as (A1 & A2 & A3 & A4); try done; try lia.
    assert ((xs ++ [pos]) ++ ys ≡ₚ pos :: xs ++ ys) as P by (rewrite <- app_assoc; simpl; by rewrite Permutation_middle).
    exists (xs ++ [pos]), ys. split; [|done]. split; simpl; try done; try lia.
    + apply (chain_ok_ext (s_mem s)); [|done]. intros x Hx. rewrite L5; [done|..].
      * by intros ->.
      * intros Hx'. by apply (Dxy x).
    + by rewrite P.
    + apply Forall_app. split.
      * revert S4. rewrite !list.Forall_forall. intros S4 x Hx.
        destruct (L4 x) as [_ ->]; [by intros ->|by apply S4].
      * constructor; [|constructor]. rewrite L3. apply wrap_small. lia.
    + by rewrite P.
    + rewrite P. eapply Forall_impl; [|exact A3]. simpl. intros; lia.
    + intros z. rewrite S9, (covered_perm _ _ _ _ P), A4. fold pos. split; [tauto|].
      intros [?|?]; [done|lia].
  - rewrite S8 by lia. fold pos.
    pose proof (link_area_spec (s_mem s) (multis s) ys pos (run_blocks s * AREA_SIZE) S2 N2 P2 Hp) as L.
    destruct (link_area pos (run_blocks s * AREA_SIZE) (s_mem s) (multis s)) as [m' e'].
    destruct L as (L1 & L2 & L3 & L4 & L5).
    destruct (new_area (s_mem s) m' (xs ++ ys) pos (run_blocks s * AREA_SIZE) cur) as (A1 & A2 & A3 & A4);
      try done; try nia.
    assert (xs ++ ys ++ [pos] ≡ₚ pos :: xs ++ ys) as P
      by (rewrite app_assoc; symmetry; apply Permutation_cons_append).
    exists xs, (ys ++ [pos]). split; [|done]. split; simpl; try done; try lia.
    + apply (chain_ok_ext (s_mem s)); [|done]. intros x Hx. rewrite L5; [done|by intros ->|by apply Dxy].
    + by rewrite P.
    + revert S4. rewrite !list.Forall_forall. intros S4 x Hx.
      destruct (L4 x) as [_ ->]; [by intros ->|by apply S4].
    + by rewrite P.
    + rewrite P. eapply Forall_impl; [|exact A3]. simpl. intros; lia.
    + intros z. rewrite S9, (covered_perm _ _ _ _ P), A4. fold pos. split; [tauto|].
      intros [?|?]; [done|lia].
  - exists xs, ys. split; [|done]. assert (run_blocks s = 0) as E0 by lia.
    unfold pos in *. rewrite E0 in *. split; simpl; try done; try lia.
Qed.

(** The free bytes of the first [n] blocks from [first] on. *)
Definition free_byte (occ : gset Z) (first n z : Z) : Prop :=
  exists i, 0 <= i < n /\ first + i * AREA_SIZE ∉ occ /\
    first + i * AREA_SIZE <= z < first + i * AREA_SIZE + AREA_SIZE.

Lemma free_byte_succ occ first n z : 0 <= n ->
  free_byte occ first (n + 1) z <-> free_byte occ first n z \/
    (first + n * AREA_SIZE ∉ occ /\ first + n * AREA_SIZE <= z < first + n * AREA_SIZE + AREA_SIZE).
Proof.
  intros Hn. unfold free_byte. split.
  - intros (i & Hi & H). destruct (Z.eq_dec i n) as [->|]; [by right|]. left. exists i. split; [lia|done].
  - intros [(i & Hi & H)|H]; [exists i; split; [lia|done]|]. exists n. split; [lia|done].
Qed.

Lemma scan_step occ s first n xs ys :
  0 < first -> 0 <= n -> (n + 1) * AREA_SIZE < 2 ^ 32 ->
  scan_inv s (first + n * AREA_SIZE) (free_byte occ first n) xs ys -> run_blocks s <= n ->
  exists xs' ys',
    let s' := scan_block AREA_SIZE occ s (first + n * AREA_SIZE) in
    scan_inv s' (first + (n + 1) * AREA_SIZE) (free_byte occ first (n + 1)) xs' ys' /\
    run_blocks s' <= n + 1.
Proof.
  intros Hf Hn Hb I Hr. unfold scan_block. set (cur := first + n * AREA_SIZE) in *.
  replace (first + (n + 1) * AREA_SIZE) with (cur + AREA_SIZE) by (unfold cur; lia).
  pose proof (si_blocks _ _ _ _ _ I) as Hr0. destruct (decide (cur ∈ occ)) as [Hin|Hnin].
  - destruct (flush_spec s cur _ _ _ I) as (xs' & ys' & [S1 S2 S3 S4 S5 S6 S7 S8 S9] & E0); [unfold cur; nia|nia|].
    exists xs', ys'. cbv zeta. rewrite E0 in *. split; [|lia]. split; try done; rewrite ?E0; try lia.
    + eapply Forall_impl; [|exact S6]. simpl. intros; lia.
    + intros z. rewrite free_byte_succ by done. fold cur. rewrite S9. split.
      * intros [[?|?]|[? _]]; [by left|lia|done].
      * intros [?|?]; [by left; left|lia].
  - exists xs, ys. cbv zeta. destruct I as [S1 S2 S3 S4 S5 S6 S7 S8 S9].
    split; [|simpl; lia]. split; simpl; try done; try lia.
    + eapply Forall_impl; [|exact S6]. simpl. intros; lia.
    + intros _. destruct (Z.eqb_spec (run_blocks s) 0) as [E|E]; [rewrite E; lia|rewrite S8 by lia; lia].
    + intros z. rewrite free_byte_succ by done. fold cur. rewrite S9. split.
      * intros [[?|?]|[_ ?]]; [by left|right; lia|right; nia].
      * intros [?|?]; [by left; left|]. destruct (Z.lt_ge_cases z cur); [left; right; lia|right].
        split; [done|lia].
Qed.

Lemma scan_all occ m first n :
  0 < first -> 0 <= n -> n * AREA_SIZE < 2 ^ 32 ->
  exists xs ys,
    let s := fold_left (scan_block AREA_SIZE occ) (map (fun i => first + i * AREA_SIZE) (seqZ 0 n))
      (Scan m (0, 0) (0, 0) 0 0) in
    scan_inv s (first + n * AREA_SIZE) (free_byte occ first n) xs ys /\ run_blocks s <= n.
Proof.
  intros Hf. revert n. refine (range_ind _ _ _).
  - intros _. exists [], []. simpl. split; [|done]. split; simpl; try done; try lia.
    intros z. unfold free_byte, covered. split; [intros (i & ? & _); lia|].
    intros [(x & Hx & _)|?]; [by inversion Hx|lia].
  - intros n Hn IH Hb. destruct IH as (xs & ys & I & Hr); [nia|].
    destruct (scan_step occ _ _ _ _ _ Hf Hn Hb I Hr) as (xs' & ys' & I' & Hr').
    exists xs', ys'. rewrite seqZ_app, map_app, fold_left_app by lia.
    rewrite (seqZ_cons (0 + n) 1), (seqZ_nil _ (Z.pred 1)) by lia. done.
Qed.

Lemma switch_init m e xs :
  chain_ok m e xs -> Forall (ok_header m) xs -> pairwise disjoint (map (range m) xs) ->
  free_list m (if negb (fst e =? 0) then atomic_switch (fst e) (snd e) list_init else list_init) xs.
Proof.
  intros [L T] H D. destruct (Z.eqb_spec (fst e) 0) as [E|E]; simpl.
  - rewrite (proj1 (linked_nil _ _ _ L) E) in *. split; try done. by left.
  - apply free_list_switch; try done. by left.
Qed.

(** The pool that the scan of a file builds covers exactly the blocks that are not
    occupied; its areas are disjoint and its single areas have the size of one. *)
Lemma scan_file_spec occ m first file_size :
  0 < first <= file_size -> file_size - first < 2 ^ 32 ->
  let s := scan_file AREA_SIZE occ m (positions AREA_SIZE first file_size) in
  let switch e l := if negb (fst e =? 0) then atomic_switch (fst e) (snd e) l else l in
  exists xs ys,
    pool_ok AREA_SIZE (s_mem s) (Pool (switch (singles s) list_init) (switch (multis s) list_init)) xs ys /\
    forall z, covered (s_mem s) (xs ++ ys) z <->
      free_byte occ first ((file_size - first) / AREA_SIZE) z.
Proof.
  intros Hf Hb. unfold scan_file, positions. set (n := (file_size - first) / AREA_SIZE).
  pose proof (Z.div_mod (file_size - first) AREA_SIZE ltac:(lia)).
  pose proof (Z.mod_pos_bound (file_size - first) AREA_SIZE AREA_SIZE_pos).
  assert (0 <= n) by (apply Z.div_pos; lia). fold n in H.
  destruct (scan_all occ m first n) as (xs0 & ys0 & I & Hr); [lia|done|lia|].
  destruct (flush_spec _ _ _ _ _ I) as (xs & ys & [S1 S2 S3 S4 S5 S6 S7 S8 S9] & E0); [nia|nia|].
  exists xs, ys. cbv zeta. set (s := flush_run _ _) in *.
  apply Forall_app in S3 as [S3x S3y]. pose proof S5 as S5'. rewrite map_app in S5'.
  apply pairwise_app in S5' as (Dx & Dy & _). split.
  - split; try done; by apply switch_init.
  - intros z. rewrite S9, E0. split; [by left|]. intros [?|?]; [done|lia].
Qed.

End with_size.

(** What belongs to nobody: the bytes of the blocks of the file that are not in [X] and that
    no area of [all] reaches into. *)
Definition unowned (AREA_SIZE : Z) (m : mem) (all : list Z) (X : gset Z) (first file_size z : Z) : Prop :=
  exists i, 0 <= i < (file_size - first) / AREA_SIZE /\ let block := first + i * AREA_SIZE in
    block <= z < block + AREA_SIZE /\ block ∉ X /\ forall x, x ∈ all -> ~ (x <= block < x + size (m x)).

Lemma mark_dbs AREA_SIZE fuel dbs : forall s, fold_left (fun s db => mark_db AREA_SIZE fuel db s) dbs s =
  fold_left (fun s h => walk AREA_SIZE fuel h (fst s) (snd s)) (flat_map (fun db => [fst db; snd db]) dbs) s.
Proof.
  induction dbs as [|[h1 h2] dbs IH]; intros [m occ]; [done|]. cbn [fold_left flat_map app fst snd]. rewrite IH. f_equal.
  unfold mark_db. cbn [fst snd]. by destruct (walk AREA_SIZE fuel h1 m occ).
Qed.

(** A block begins inside of an area that begins at a block exactly if the area marks it. *)
Lemma block_begins AREA_SIZE m first x i : 0 < AREA_SIZE -> (exists j, x = first + j * AREA_SIZE) ->
  block_of AREA_SIZE m x (first + i * AREA_SIZE) <-> x <= first + i * AREA_SIZE < x + size (m x).
Proof.
  intros HA [j ->]. split; [intros (k & Hk & Hl & E); nia|]. intros H. exists (i - j). assert (j <= i) by nia. split_and!; nia.
Qed.

(** C38: Recovery after a crash, for databases with the heads [dbs], whose two chains link
    [chains], and the blocks [X] of the directory: if the areas begin at blocks of a file
    of less than 4 GiB behind [first] ([recover_run_overflow]) and do not overlap, the pool
    is rebuilt as disjoint areas that cover exactly the blocks that belong to nobody, and
    no byte of an area a database owns. *)
Theorem recover_areas_partition (AREA_SIZE : Z) (fuel : nat) (dbs : list (Z * Z)) (chains : list (list Z * list Z))
    (X : gset Z) (first file_size : Z) (m : mem) :
  0 < AREA_SIZE -> 0 < first <= file_size -> file_size - first < 2 ^ 32 ->
  Forall2 (fun db c => linked m db.1 c.1 /\ linked m db.2 c.2 /\ (length c.1 < fuel)%nat /\ (length c.2 < fuel)%nat) dbs chains ->
  let all := flat_map (fun c => c.1 ++ c.2) chains in
  Forall (fun x => 0 < size (m x) /\ exists j, x = first + j * AREA_SIZE) all -> pairwise disjoint (map (range m) all) ->
  let '(m', p) := recover_areas AREA_SIZE fuel dbs (fun occ => occ ∪ X) first file_size m in
  exists xs ys, pool_ok AREA_SIZE m' p xs ys /\
    (forall z, covered m' (xs ++ ys) z <-> unowned AREA_SIZE m all X first file_size z) /\
    (forall z, covered m' (xs ++ ys) z -> ~ covered m all z).
Proof.
  intros HA Hf Hb L all HS D. unfold recover_areas. rewrite mark_dbs.
  assert (exists cs, map fst cs = flat_map (fun db => [fst db; snd db]) dbs /\ flat_map snd cs = all /\
    Forall (fun c => linked m c.1 c.2 /\ (length c.2 < fuel)%nat) cs) as (cs & Eh & Ea & Lc).
  { clear -L. unfold all. clear all. induction L as [|[h1 h2] [c1 c2] dbs chains (L1 & L2 & F1 & F2) _ (cs & E1 & E2 & F)]; [by exists []|].
    exists ((h1, c1) :: (h2, c2) :: cs). cbn. rewrite E1, E2, app_assoc. split_and!; [done..|]. by repeat constructor. }
  rewrite <- Eh. rewrite <- Ea in D, HS |- *. clear all Ea L.
  assert (Forall (fun x => 0 < size (m x)) (flat_map snd cs)) as P by (eapply Forall_impl; [|exact HS]; by intros ? []).
  pose proof (walks_spec AREA_SIZE HA fuel cs m ∅ Lc P D ltac:(set_solver)) as W.
  destruct (fold_left _ (map fst cs) (m, ∅)) as [m1 occ]. destruct W as [_ W].
  destruct (scan_file_spec AREA_SIZE HA (occ ∪ X) m1 first file_size Hf Hb) as (xs & ys & I & C). exists xs, ys.
  rewrite list.Forall_forall in HS.
  assert (forall i, first + i * AREA_SIZE ∈ occ <-> exists x, x ∈ flat_map snd cs /\ x <= first + i * AREA_SIZE < x + size (m x)) as Hocc.
  { intros i. rewrite W. split.
    - intros [?|(x & Hx & B)]; [set_solver|]. exists x. split; [done|]. apply (block_begins AREA_SIZE); [done|by apply HS|done].
    - intros (x & Hx & B). right. exists x. split; [done|]. apply block_begins; [done|by apply HS|done]. }
  split_and!; [exact I| |].
  - intros z. rewrite C. unfold free_byte, unowned. apply exist_proper. intros i. rewrite not_elem_of_union, Hocc. split.
    + intros (H1 & (H2 & H3) & H4). split; [exact H1|]. split; [lia|]. split; [exact H3|]. intros x Hx B. apply H2. by exists x.
    + intros (H1 & H2 & H3 & H4). split; [exact H1|]. split; [|lia]. split; [|exact H3]. intros (x & Hx & B). by apply (H4 x).
  - intros z Hz (x & Hx & Hxz). apply C in Hz as (i & Hi & Hn & Hz). apply Hn, elem_of_union. left. apply Hocc. exists x. split; [done|].
    destruct (HS x Hx) as [_ [j ->]]. assert (j <= i) by (clear -HA Hz Hxz; nia). assert (j * AREA_SIZE <= i * AREA_SIZE) by (apply Z.mul_le_mono_nonneg_r; lia). lia.
Qed.

(** A file of eight blocks; one database owns the second, another one the area of the fifth
    and sixth; the directory has the first. *)
Definition file_mem : mem := fun x => if x =? 20480 then Header 0 8192 0 else Header 8192 4096 0.

Lemma recover_areas_partition_witness :
  let '(m', p) := recover_areas 4096 9 [(8192, 0); (0, 20480)] (fun o => o ∪ {[4096]}) 4096 36864 file_mem in
  exists xs ys, pool_ok 4096 m' p xs ys /\
    (forall z, covered m' (xs ++ ys) z <-> unowned 4096 file_mem [8192; 20480] {[4096]} 4096 36864 z) /\
    (forall z, covered m' (xs ++ ys) z -> ~ covered file_mem [8192; 20480] z).
Proof.
  apply (recover_areas_partition 4096 9 [(8192, 0); (0, 20480)] [([8192], []); ([], [20480])] {[4096]} 4096 36864 file_mem);
    try done; try lia.
  - constructor; [split_and!; simpl; try done; lia|]. constructor; [split_and!; simpl; try done; lia|constructor].
  - constructor; [split; [done|by exists 1]|]. constructor; [split; [done|by exists 4]|constructor].
  - simpl. split_and!; try done. constructor; [|constructor]. intros x ??. simpl in *. lia.
Defined.

(** A free run of 2^32 bytes does not fit the size field of its area: the area is
    linked with size zero and the run is lost. *)
Theorem recover_run_overflow :
  let s := flush_run (2 ^ 21) (Scan (fun _ => Header 0 0 0) (0, 0) (0, 0) 4096 2048) in
  multis s = (4096, 4096) /\ size (s_mem s 4096) = 0.
Proof. split; reflexivity. Qed.

End arearecover.
