(* ===== verification/Storage.v ===== *)
(** * Storage: the areas of a memory-mapped file

    Models the area management of [storage/_mmap.hpp]: the file grows by at least
    a quarter of its size or ten areas ([resize_file]); what is not asked for goes
    to the pool of [Area]. A growth beyond the mapped region throws [StorageFull]. *)
From S2P Require Import Prelude Util Area AreaFacts.

Module storage.
Import area areafacts.

(** The header of the file as far as areas are concerned, the area headers in the
    file, and the size of the mapped region. *)
Record store := Store { mem : area.mem; area_pool : pool; file_size : Z; region_size : Z }.

(** A value, or the exception with the capacity and what was needed. *)
Inductive result (A : Type) :=
  | Got (x : A)
  | StorageFull (capacity needed : Z).
Arguments Got {A}. Arguments StorageFull {A}.

Section with_area.
Context (AREA_SIZE : Z).

(** The number of bytes the file grows by. *)
Definition growth (size file_size : Z) : Z :=
  let MIN_GROWTH := 10 * AREA_SIZE in
  let geometric_growth := file_size / 4 in
  util.padding (Z.max (Z.max size MIN_GROWTH) geometric_growth) AREA_SIZE.

Definition resize_file (size : Z) (st : store) : result (Z * store) :=
  let total_growth := growth size (file_size st) in
  if region_size st <? file_size st + total_growth then
    StorageFull (region_size st) (file_size st + total_growth)
  else
    let new_offset := file_size st in
    let m := upd (mem st) new_offset (area_init new_offset size 0) in
    if size <? total_growth then
      let extra := area_init (new_offset + size) (total_growth - size) 0 in
      let m := upd m (new_offset + size) extra in
      let '(m, ml) := push (offset extra) (area.size extra) m (multi_areas (area_pool st)) in
      Got (new_offset, Store m (Pool (single_areas (area_pool st)) ml) (file_size st + total_growth) (region_size st))
    else Got (new_offset, Store m (area_pool st) (file_size st + total_growth) (region_size st)).

Definition alloc_single_area (st : store) : result (Z * store) :=
  let '(r, m, p) := area.alloc_single_area AREA_SIZE (mem st) (area_pool st) in
  let st := Store m p (file_size st) (region_size st) in
  match r with Some a => Got (a, st) | None => resize_file AREA_SIZE st end.

Definition alloc_multi_area (size : Z) (st : store) : result (Z * store) :=
  let size := util.padding size AREA_SIZE in
  let '(r, m, p) := area.alloc_multi_area size (mem st) (area_pool st) in
  let st := Store m p (file_size st) (region_size st) in
  match r with Some a => Got (a, st) | None => resize_file size st end.

Definition return_single_areas (head tail : Z) (st : store) : store :=
  let '(m, p) := area.return_single_areas head tail (mem st) (area_pool st) in
  Store m p (file_size st) (region_size st).

Definition return_multi_areas (head tail : Z) (st : store) : store :=
  let '(m, p) := area.return_multi_areas head tail (mem st) (area_pool st) in
  Store m p (file_size st) (region_size st).

End with_area.
(** ** The file is the pool and the areas handed out *)

Section facts.
Context (AREA_SIZE : Z).
Hypothesis AREA_SIZE_pos : 0 < AREA_SIZE.

(** The free areas [xs] (single) and [ys] lie below the end of the file. *)
Record store_ok (st : store) (xs ys : list Z) : Prop := {
  so_pool : pool_ok AREA_SIZE (mem st) (area_pool st) xs ys;
  so_file : 0 < file_size st;
  so_below : forall z, covered (mem st) (xs ++ ys) z -> z < file_size st
}.

Lemma growth_bounds n f : 0 < n -> 0 <= f -> n <= growth AREA_SIZE n f /\ 10 * AREA_SIZE <= growth AREA_SIZE n f /\
  f / 4 <= growth AREA_SIZE n f.
Proof.
  intros Hn Hf. unfold growth. set (w := Z.max _ _).
  pose proof (util.padding_bounds w AREA_SIZE AREA_SIZE_pos). unfold w in *. lia.
Qed.

(** Areas of the pool are below the end of the file, a new one begins there. *)
Lemma below_disjoint st xs ys o n : store_ok st xs ys -> file_size st <= o -> 0 < n ->
  Forall (disjoint (o, o + n)) (map (range (mem st)) (xs ++ ys)).
Proof.
  intros [P F B] Ho Hn. apply list.Forall_forall. intros r Hr. apply list_elem_of_In, in_map_iff in Hr as (x & <- & Hx).
  apply list_elem_of_In in Hx. unfold disjoint, range. simpl. intros z Hz1 Hz2.
  specialize (B z). enough (z < file_size st) by lia. apply B. exists x. split; [done|lia].
Qed.

Lemma pool_ok_ext m m' p xs ys : (forall x, x ∈ xs ++ ys -> m' x = m x) -> pool_ok AREA_SIZE m p xs ys ->
  pool_ok AREA_SIZE m' p xs ys.
Proof.
  intros E [P1 P2 P3 P4].
  assert (forall x, x ∈ xs -> m' x = m x) as E1 by (intros x Hx; apply E, elem_of_app; by left).
  assert (forall x, x ∈ ys -> m' x = m x) as E2 by (intros x Hx; apply E, elem_of_app; by right).
  split.
  - by apply (free_list_ext m).
  - by apply (free_list_ext m).
  - rewrite list.Forall_forall in P3 |- *. intros x Hx. rewrite E1 by done. by apply P3.
  - rewrite (ranges_ext m); [done|]. intros x Hx. by rewrite E.
Qed.

Lemma resize_spec n st xs ys : store_ok st xs ys -> 0 < n < 2 ^ 32 -> growth AREA_SIZE n (file_size st) - n < 2 ^ 32 ->
  match resize_file AREA_SIZE n st with
  | Got (a, st') =>
      a = file_size st /\ exists ys', store_ok st' xs ys' /\ mem st' a = Header a n 0 /\
        Forall (disjoint (a, a + n)) (map (range (mem st')) (xs ++ ys')) /\
        file_size st + n <= file_size st' <= region_size st /\ region_size st' = region_size st /\
        forall z, (covered (mem st) (xs ++ ys) z \/ file_size st <= z < file_size st') <->
          (a <= z < a + n \/ covered (mem st') (xs ++ ys') z)
  | StorageFull c m => c = region_size st /\ m = file_size st + growth AREA_SIZE n (file_size st) /\ c < m
  end.
Proof.
  intros Ok Hn Hg. pose proof Ok as [P F B]. unfold resize_file.
  pose proof (growth_bounds n (file_size st) ltac:(lia) ltac:(lia)) as (G1 & _ & _).
  set (g := growth AREA_SIZE n (file_size st)) in *. set (o := file_size st) in *.
  destruct (Z.ltb_spec (region_size st) (o + g)) as [|Hr]; [done|].
  assert (forall x, x ∈ xs ++ ys -> x < o) as Hlow.
  { intros x Hx. apply B. exists x. split; [done|]. pose proof P as [Q1 Q2 _ _].
    apply elem_of_app in Hx as [Hx|Hx].
    - pose proof (fl_headers _ _ _ Q1) as H. rewrite list.Forall_forall in H. destruct (H x Hx) as (_ & _ & ?). lia.
    - pose proof (fl_headers _ _ _ Q2) as H. rewrite list.Forall_forall in H. destruct (H x Hx) as (_ & _ & ?). lia. }
  set (m1 := upd (mem st) o (area_init o n 0)).
  assert (m1 o = Header o n 0) as E1.
  { unfold m1, area_init. by rewrite upd_eq, wrap_small by lia. }
  assert (forall x, x ∈ xs ++ ys -> m1 x = mem st x) as S1.
  { intros x Hx. specialize (Hlow x Hx). unfold m1. rewrite upd_ne by lia. done. }
  destruct (Z.ltb_spec n g) as [Hlt|Hge].
  - set (e := area_init (o + n) (g - n) 0). set (m2 := upd m1 (o + n) e).
    assert (offset e = o + n /\ size e = g - n) as [Eo Es].
    { unfold e, area_init. cbn [offset size]. by rewrite wrap_small by lia. }
    assert (forall x, x ∈ xs ++ ys -> m2 x = mem st x) as S2.
    { intros x Hx. unfold m2. rewrite upd_ne by (specialize (Hlow x Hx); lia). by apply S1. }
    pose proof (pool_ok_ext _ m2 _ _ _ S2 P) as P2. pose proof P2 as [Q1 Q2 Q3 Q4].
    assert (map (range m2) (xs ++ ys) = map (range (mem st)) (xs ++ ys)) as R2 by (apply ranges_ext; intros; by rewrite S2).
    pose proof (below_disjoint st xs ys (o + n) (g - n) Ok ltac:(lia) ltac:(lia)) as De.
    pose proof (push_spec m2 (multi_areas (area_pool st)) ys (o + n) (g - n) Q2 ltac:(lia) ltac:(lia)) as Pu.
    rewrite <- R2 in De. specialize (Pu ltac:(rewrite map_app in De; by apply Forall_app in De as [_ ?])).
    rewrite Eo, Es. destruct (push (o + n) (g - n) m2 (multi_areas (area_pool st))) as [m3 ml] eqn:Ep.
    cbn [fst snd] in Pu. assert (m3 = upd m2 (o + n) (area_init (o + n) (g - n) (get_head (multi_areas (area_pool st))))) as Em3
      by by injection Ep.
    assert (forall x, x <> o + n -> m3 x = m2 x) as S3 by (intros x Hx; by rewrite Em3, upd_ne).
    assert (m3 (o + n) = Header (o + n) (g - n) (get_head (multi_areas (area_pool st)))) as E3.
    { rewrite Em3, upd_eq. unfold area_init. by rewrite wrap_small by lia. }
    assert (forall x, x ∈ xs ++ ys -> m3 x = mem st x) as S4.
    { intros x Hx. rewrite S3 by (specialize (Hlow x Hx); lia). by apply S2. }
    assert (map (range m3) (xs ++ (o + n) :: ys) ≡ₚ (o + n, o + g) :: map (range (mem st)) (xs ++ ys)) as R3.
    { assert (range m3 (o + n) = (o + n, o + g)) as Er by (unfold range; rewrite E3; simpl; f_equal; lia).
      rewrite !map_app. cbn [map]. rewrite Er, <- Permutation_middle, <- map_app.
      rewrite (ranges_ext (mem st) m3) by (intros; by rewrite S4). by rewrite map_app. }
    split; [done|]. exists ((o + n) :: ys).
    assert (forall z, (covered (mem st) (xs ++ ys) z \/ o <= z < o + g) <->
      (o <= z < o + n \/ covered m3 (xs ++ (o + n) :: ys) z)) as Cov.
    { intros z. split.
      - intros [(x & Hx & Hz)|Hz].
        + right. exists x. rewrite S4 by done. split; [|done]. rewrite !elem_of_app, list.elem_of_cons in *. tauto.
        + destruct (Z.lt_ge_cases z (o + n)); [left; lia|right]. exists (o + n). rewrite E3. cbn [size].
          split; [|lia]. apply elem_of_app. right. by left.
      - intros [Hz|(x & Hx & Hz)]; [right; lia|].
        rewrite elem_of_app, list.elem_of_cons in Hx. destruct (decide (x = o + n)) as [->|Hne].
        + rewrite E3 in Hz. cbn [size] in Hz. right. lia.
        + assert (x ∈ xs ++ ys) as Hx' by (rewrite elem_of_app; tauto). left. exists x. by rewrite S4 in Hz. }
    split_and!; cbn [mem area_pool file_size region_size]; try lia.
    + split; cbn [mem area_pool file_size]; [|lia|].
      * split; cbn [single_areas multi_areas]; [| exact Pu | |].
        -- apply (free_list_ext m2); [|done]. intros x Hx. apply S3.
           specialize (Hlow x ltac:(apply elem_of_app; by left)). lia.
        -- rewrite list.Forall_forall in Q3 |- *. intros x Hx. rewrite S3; [by apply Q3|].
           specialize (Hlow x ltac:(apply elem_of_app; by left)). lia.
        -- rewrite R3. split; [|apply P].
           replace (o + g) with (o + n + (g - n)) by lia. rewrite R2 in De. exact De.
      * intros z Hz. destruct (proj2 (Cov z) (or_intror Hz)) as [Hc|]; [|lia]. specialize (B z Hc). lia.
    + rewrite S3 by lia. unfold m2. rewrite upd_ne by lia. exact E1.
    + rewrite R3. constructor; [unfold disjoint; simpl; lia|]. apply (below_disjoint st xs ys o n Ok); lia.
    + exact Cov.
  - assert (g = n) as Egn by lia. split; [done|]. exists ys.
    split_and!; cbn [mem area_pool file_size region_size]; try (done || lia).
    + split; cbn [mem area_pool file_size]; [by apply (pool_ok_ext (mem st))|lia|].
      intros z (x & Hx & Hz). rewrite S1 in Hz by done. enough (z < o) by lia. apply B. by exists x.
    + rewrite (ranges_ext (mem st)) by (intros; by rewrite S1). apply (below_disjoint st xs ys o n Ok); lia.
    + intros z. split.
      * intros [(x & Hx & Hz)|Hz]; [right; exists x; rewrite S1 by done; by split|left; lia].
      * intros [Hz|(x & Hx & Hz)]; [right; lia|left; exists x; by rewrite S1 in Hz].
Qed.

End facts.
(** ** Allocation from the pool or from a longer file *)

Section claims.
Context (AREA_SIZE : Z).
Hypothesis AREA_SIZE_pos : 0 < AREA_SIZE.

(** What an allocation of [n] bytes gives: an area of that size outside of the
    pool, and no byte of the pool and of the growth of the file is lost. *)
Record partitions (n : Z) (st : store) (xs ys : list Z) (a : Z) (st' : store) (xs' ys' : list Z) : Prop := {
  pa_ok : store_ok AREA_SIZE st' xs' ys';
  pa_header : mem st' a = Header a n 0;
  pa_apart : Forall (disjoint (a, a + n)) (map (range (mem st')) (xs' ++ ys'));
  pa_file : file_size st <= file_size st' /\ region_size st' = region_size st;
  pa_bytes : forall z, (covered (mem st) (xs ++ ys) z \/ file_size st <= z < file_size st') <->
    (a <= z < a + n \/ covered (mem st') (xs' ++ ys') z)
}.

Lemma from_pool n st xs ys o m p xs' ys' : store_ok AREA_SIZE st xs ys -> pool_ok AREA_SIZE m p xs' ys' ->
  m o = Header o n 0 -> Forall (disjoint (o, o + n)) (map (range m) (xs' ++ ys')) ->
  (forall z, covered (mem st) (xs ++ ys) z <-> o <= z < o + n \/ covered m (xs' ++ ys') z) ->
  partitions n st xs ys o (Store m p (file_size st) (region_size st)) xs' ys'.
Proof.
  intros [P F B] P' Eo Ds Cov. split; cbn [mem file_size region_size]; try done.
  - split; cbn [mem area_pool file_size]; [done|done|]. intros z Hz. apply B, Cov. by right.
  - intros z. rewrite Cov. split; [intros [?|?]; [done|lia]|by left].
Qed.

(** The answer of a growing file: the new area, or [StorageFull] when the region is
    too small for it. *)
Definition grown (n : Z) (st : store) (xs ys : list Z) (r : result (Z * store)) : Prop :=
  match r with
  | Got (a, st') => exists xs' ys', partitions n st xs ys a st' xs' ys'
  | StorageFull c q => c = region_size st /\ q = file_size st + growth AREA_SIZE n (file_size st) /\ c < q
  end.

Lemma resize_grown n st xs ys : store_ok AREA_SIZE st xs ys -> 0 < n < 2 ^ 32 ->
  growth AREA_SIZE n (file_size st) - n < 2 ^ 32 -> grown n st xs ys (resize_file AREA_SIZE n st).
Proof.
  intros Ok Hn Hg. pose proof (resize_spec AREA_SIZE AREA_SIZE_pos n st xs ys Ok Hn Hg) as R. unfold grown.
  destruct (resize_file AREA_SIZE n st) as [[a st']|c q]; [|done].
  destruct R as (_ & ys' & R1 & R2 & R3 & R4 & R5 & R6). exists xs, ys'. split; try done. split; [lia|done].
Qed.

Lemma same_store st : Store (mem st) (area_pool st) (file_size st) (region_size st) = st.
Proof. by destruct st. Qed.

Lemma find_none n m l m' l' : find_and_remove n m l = (None, m', l') -> m' = m /\ l' = l.
Proof.
  unfold find_and_remove. destruct (get_head l =? 0); [by intros [= <- <-]|].
  destruct (find MAX_ITER n m 0 (get_head l)) as [[prev curr]|]; [|by intros [= <- <-]].
  destruct (negb (prev =? 0)); destruct (n <? _); done.
Qed.

(** a database that asks for an area gets one that is disjoint from the free
    areas; the bytes of the pool and those the file grew by are the area and the
    new pool; the only failure is a region too small for the growth. *)
Theorem alloc_single_area_grows st xs ys : store_ok AREA_SIZE st xs ys -> AREA_SIZE < 2 ^ 32 ->
  growth AREA_SIZE AREA_SIZE (file_size st) - AREA_SIZE < 2 ^ 32 ->
  grown AREA_SIZE st xs ys (alloc_single_area AREA_SIZE st).
Proof.
  intros Ok HA Hg. unfold alloc_single_area.
  pose proof (alloc_single_spec AREA_SIZE (mem st) (area_pool st) xs ys AREA_SIZE_pos (so_pool _ _ _ _ Ok)) as P.
  destruct (area.alloc_single_area AREA_SIZE (mem st) (area_pool st)) as [[[o|] m] p] eqn:E.
  - destruct P as (xs' & ys' & P1 & P2 & P3 & P4). exists xs', ys'. by apply from_pool.
  - assert (m = mem st /\ p = area_pool st) as [-> ->].
    { unfold area.alloc_single_area, pop in E. destruct (get_head (single_areas (area_pool st)) =? 0); [|done].
      destruct (find_and_remove AREA_SIZE (mem st) (multi_areas (area_pool st))) as [[r m1] l1] eqn:Ef.
      injection E as -> <- <-. apply find_none in Ef as [-> ->]. split; [done|]. by destruct (area_pool st). }
    rewrite same_store. by apply resize_grown.
Qed.

(** the same for an area of several units. *)
Theorem alloc_multi_area_grows n st xs ys : store_ok AREA_SIZE st xs ys -> 0 < n ->
  util.padding n AREA_SIZE < 2 ^ 32 ->
  growth AREA_SIZE (util.padding n AREA_SIZE) (file_size st) - util.padding n AREA_SIZE < 2 ^ 32 ->
  grown (util.padding n AREA_SIZE) st xs ys (alloc_multi_area AREA_SIZE n st).
Proof.
  intros Ok Hn HA Hg. unfold alloc_multi_area. pose proof (util.padding_bounds n AREA_SIZE AREA_SIZE_pos) as Hb.
  set (w := util.padding n AREA_SIZE) in *.
  pose proof (alloc_multi_spec AREA_SIZE w (mem st) (area_pool st) xs ys ltac:(lia) (so_pool _ _ _ _ Ok)) as P.
  destruct (area.alloc_multi_area w (mem st) (area_pool st)) as [[[o|] m] p] eqn:E.
  - destruct P as (ys' & P1 & P2 & P3 & P4). exists xs, ys'. by apply from_pool.
  - assert (m = mem st /\ p = area_pool st) as [-> ->].
    { unfold area.alloc_multi_area in E. destruct (find_and_remove w (mem st) (multi_areas (area_pool st))) as [[r m1] l1] eqn:Ef.
      injection E as -> <- <-. apply find_none in Ef as [-> ->]. split; [done|]. by destruct (area_pool st). }
    rewrite same_store. apply resize_grown; [done|lia|done].
Qed.

End claims.

(** A file of one area of 1024 bytes and an empty pool, in a region of 64. *)
Definition sample_store : store := Store (fun _ => Header 0 0 0) pool_init 1024 65536.

Lemma sample_store_ok : store_ok 1024 sample_store [] [].
Proof.
  split; [split; [split; simpl; try done; by left..|done|done]|done|].
  intros z (x & Hx & _). by apply list.not_elem_of_nil in Hx.
Qed.

Lemma alloc_single_area_grows_witness :
  grown 1024 1024 sample_store [] [] (alloc_single_area 1024 sample_store) /\
  exists st', alloc_single_area 1024 sample_store = Got (1024, st') /\ file_size st' = 11264.
Proof.
  split; [apply (alloc_single_area_grows 1024 ltac:(lia) sample_store [] [] sample_store_ok); by vm_compute|].
  eexists. by split.
Defined.

Lemma alloc_multi_area_grows_witness :
  grown 1024 3072 sample_store [] [] (alloc_multi_area 1024 2500 sample_store).
Proof. apply (alloc_multi_area_grows 1024 ltac:(lia) 2500 sample_store [] [] sample_store_ok); by vm_compute. Defined.

(** The size field of an area has 32 bits: a file of 24 GiB grows by 6 GiB, of which
    the pool is told 2. *)
Theorem large_growth_loses_space :
  match alloc_single_area (2 ^ 21) (Store (fun _ => Header 0 0 0) pool_init (24 * 2 ^ 30) (2 ^ 40)) with
  | Got (_, st) => file_size st = 30 * 2 ^ 30 /\
      get_head (multi_areas (area_pool st)) = 24 * 2 ^ 30 + 2 ^ 21 /\
      area.size (mem st (24 * 2 ^ 30 + 2 ^ 21)) = 2 * 2 ^ 30 - 2 ^ 21 /\
      area.next (mem st (24 * 2 ^ 30 + 2 ^ 21)) = 0
  | StorageFull _ _ => False
  end.
Proof. by vm_compute. Qed.

End storage.
