(* ===== verification/TwoQ.v ===== *)
(** * TwoQ: the page cache

    Models [memory/_twoquecache.hpp]: the pool of cache entries ([ObjectPool]), the
    doubly linked lists threaded through the entries ([IntrusiveList]) and the 2Q
    cache ([TwoQCache]): a short-term queue A1in, a long-term queue Am and the ghost
    queue A1out of keys that left A1in.

    A pointer is an address, 0 the null pointer. A slot of the pool holds either an
    entry or the link of the free list, as the union of the code; an access to a
    slot that does not hold an entry is an error ([None]). The size of a value and
    the number of its references come from its area. *)
From S2P Require Import Prelude.

Module twoq.

(** ** The pool of entries *)

Section entries.
Context {V : Type}.

(** [CacheEntry] *)
Record entry := Entry { key : Z; value : V; prev : Z; next : Z }.

(** [ObjectPool::Slot] *)
Inductive slot :=
  | Free (next_free : Z)
  | Used (e : entry).

(** [ObjectPool] *)
Record pool := Pool { slots : gmap Z slot; free_list : Z; chunks : nat }.

Definition CHUNK_SIZE : nat := 64.

Definition pool_init : pool := Pool ∅ 0 0.

(** The address of slot [i] of chunk [c]. *)
Definition slot_addr (c i : nat) : Z := Z.of_nat (c * CHUNK_SIZE + i) + 1.

Definition add_slot (c : nat) (p : pool) (i : nat) : pool :=
  Pool (<[slot_addr c i := Free (free_list p)]> (slots p)) (slot_addr c i) (chunks p).

Definition add_chunk (p : pool) : pool :=
  fold_left (add_slot (chunks p)) (seq 0 CHUNK_SIZE) (Pool (slots p) (free_list p) (S (chunks p))).

Definition alloc (k : Z) (v : V) (p : pool) : option (Z * pool) :=
  let p := if free_list p =? 0 then add_chunk p else p in
  match slots p !! free_list p with
  | Some (Free n) => Some (free_list p, Pool (<[free_list p := Used (Entry k v 0 0)]> (slots p)) n (chunks p))
  | _ => None
  end.

Definition free (o : Z) (p : pool) : option pool :=
  match slots p !! o with
  | Some (Used _) => Some (Pool (<[o := Free (free_list p)]> (slots p)) o (chunks p))
  | _ => None
  end.

Definition entry_at (o : Z) (p : pool) : option entry :=
  match slots p !! o with Some (Used e) => Some e | _ => None end.

Definition put_entry (o : Z) (e : entry) (p : pool) : pool :=
  Pool (<[o := Used e]> (slots p)) (free_list p) (chunks p).

Definition set_prev (o x : Z) (p : pool) : option pool :=
  e ← entry_at o p; Some (put_entry o (Entry (key e) (value e) x (next e)) p).

Definition set_next (o x : Z) (p : pool) : option pool :=
  e ← entry_at o p; Some (put_entry o (Entry (key e) (value e) (prev e) x) p).

(** ** The lists *)

(** [IntrusiveList] *)
Record ilist := IList { head : Z; tail : Z; size : Z }.

Definition list_init : ilist := IList 0 0 0.

Definition empty (l : ilist) : bool := size l =? 0.

Definition push_back (node : Z) (l : ilist) (p : pool) : option (ilist * pool) :=
  p ← set_prev node (tail l) p;
  p ← set_next node 0 p;
  if negb (tail l =? 0) then
    p ← set_next (tail l) node p; Some (IList (head l) node (u64 (size l + 1)), p)
  else Some (IList node node (u64 (size l + 1)), p).

Definition unlink (node : Z) (l : ilist) (p : pool) : option (ilist * pool) :=
  e ← entry_at node p;
  '(h, p) ← (if negb (prev e =? 0) then p ← set_next (prev e) (next e) p; Some (head l, p)
             else Some (next e, p));
  '(t, p) ← (if negb (next e =? 0) then p ← set_prev (next e) (prev e) p; Some (tail l, p)
             else Some (prev e, p));
  p ← set_prev node 0 p;
  p ← set_next node 0 p;
  Some (IList h t (u64 (size l - 1)), p).

Definition move_to_back (node : Z) (l : ilist) (p : pool) : option (ilist * pool) :=
  if node =? tail l then Some (l, p)
  else '(l, p) ← unlink node l p; push_back node l p.

(** [to.splice_back(from, node)] *)
Definition splice_back (node : Z) (to from : ilist) (p : pool) : option (ilist * ilist * pool) :=
  '(from, p) ← unlink node from p;
  '(to, p) ← push_back node to p;
  Some (to, from, p).

End entries.
Arguments entry : clear implicits. Arguments slot : clear implicits. Arguments pool : clear implicits.

(** ** The cache *)

(** A pointer to a page: the area it lies in. *)
Record page_ptr := PagePtr { present : bool; area : option Z }.

(** [TwoQCache] *)
Record cache := Cache {
  capacity : Z;
  total : Z;                       (** [_size] *)
  a1in_current_size : Z;
  a1in_size_limit : Z;
  a1out_size_limit : Z;
  a1in_list : ilist;
  a1in_map : gmap Z Z;
  a1out_list : ilist;
  a1out_map : gmap Z Z;
  am_list : ilist;
  am_map : gmap Z Z;
  entry_pool : pool page_ptr;
  ghost_pool : pool Z
}.

Section with_areas.
(** [size()] and [get_ref()] of an area. *)
Context (area_size get_ref : Z -> Z).

Definition get_item_size (v : page_ptr) : Z :=
  match area v with None => 0 | Some a => area_size a end.

Definition can_evict (v : page_ptr) : bool :=
  if present v then match area v with None => false | Some a => get_ref a =? 1 end else false.

(** The constructor; the limits are the floating point products of the code. *)
Definition cache_init (capacity a1in_limit a1out_items : Z) : cache :=
  Cache capacity 0 0 a1in_limit (Z.max a1out_items 1) list_init ∅ list_init ∅ list_init ∅ pool_init pool_init.

(** [get]: [None] inside for a key that is not cached. *)
Definition get (k : Z) (c : cache) : option (option page_ptr * cache) :=
  match a1in_map c !! k with
  | Some entry =>
      e ← entry_at entry (entry_pool c);
      '(am, a1in, p) ← splice_back entry (am_list c) (a1in_list c) (entry_pool c);
      Some (Some (value e),
        Cache (capacity c) (total c) (u64 (a1in_current_size c - get_item_size (value e))) (a1in_size_limit c)
          (a1out_size_limit c) a1in (delete k (a1in_map c)) (a1out_list c) (a1out_map c) am
          (<[k := entry]> (am_map c)) p (ghost_pool c))
  | None =>
      match am_map c !! k with
      | Some entry =>
          '(am, p) ← move_to_back entry (am_list c) (entry_pool c);
          e ← entry_at entry p;
          Some (Some (value e),
            Cache (capacity c) (total c) (a1in_current_size c) (a1in_size_limit c) (a1out_size_limit c)
              (a1in_list c) (a1in_map c) (a1out_list c) (a1out_map c) am (am_map c) p (ghost_pool c))
      | None => Some (None, c)
      end
  end.

(** The pass over A1in that chooses what to evict: the evicted entries and the
    sizes that remain ([target_size], [_size], [_a1in_current_size]). *)
Fixpoint choose (fuel : nat) (e : Z) (target size_ a1in : Z) (c : cache) : option (list Z * Z * Z) :=
  if (e =? 0) || (target <=? a1in_size_limit c) then Some ([], size_, a1in)
  else
    match fuel with
    | O => None
    | S fuel =>
        x ← entry_at e (entry_pool c);
        if can_evict (value x) then
          let n := get_item_size (value x) in
          '(l, s, a) ← choose fuel (next x) (u64 (target - n)) (u64 (size_ - n)) (u64 (a1in - n)) c;
          Some (e :: l, s, a)
        else choose fuel (next x) target size_ a1in c
    end.

(** An entry of A1in becomes a ghost. *)
Definition evict (entry : Z) (c : cache) : option cache :=
  e ← entry_at entry (entry_pool c);
  '(ghost, gp) ← alloc (key e) 0 (ghost_pool c);
  '(a1out, gp) ← push_back ghost (a1out_list c) gp;
  '(a1in, p) ← unlink entry (a1in_list c) (entry_pool c);
  p ← free entry p;
  Some (Cache (capacity c) (total c) (a1in_current_size c) (a1in_size_limit c) (a1out_size_limit c)
    a1in (delete (key e) (a1in_map c)) a1out (<[key e := ghost]> (a1out_map c)) (am_list c) (am_map c) p gp).

Fixpoint evict_all (l : list Z) (c : cache) : option cache :=
  match l with
  | [] => Some c
  | e :: l => c ← evict e c; evict_all l c
  end.

Definition maintain_a1in_size (fuel : nat) (c : cache) : option cache :=
  if a1in_current_size c <=? a1in_size_limit c then Some c
  else
    '(l, s, a) ← choose fuel (head (a1in_list c)) (a1in_current_size c) (total c) (a1in_current_size c) c;
    evict_all l (Cache (capacity c) s a (a1in_size_limit c) (a1out_size_limit c) (a1in_list c) (a1in_map c)
      (a1out_list c) (a1out_map c) (am_list c) (am_map c) (entry_pool c) (ghost_pool c)).

(** The oldest ghost is dropped. *)
Definition drop_ghost (c : cache) : option cache :=
  let ghost := head (a1out_list c) in
  e ← entry_at ghost (ghost_pool c);
  '(a1out, gp) ← unlink ghost (a1out_list c) (ghost_pool c);
  gp ← free ghost gp;
  Some (Cache (capacity c) (total c) (a1in_current_size c) (a1in_size_limit c) (a1out_size_limit c)
    (a1in_list c) (a1in_map c) a1out (delete (key e) (a1out_map c)) (am_list c) (am_map c) (entry_pool c) gp).

Fixpoint maintain_a1out_size (fuel : nat) (c : cache) : option cache :=
  if (a1out_size_limit c <? size (a1out_list c)) && negb (empty (a1out_list c)) then
    match fuel with O => None | S fuel => c ← drop_ghost c; maintain_a1out_size fuel c end
  else Some c.

(** The first entry of Am from [e] on that can be evicted, 0 when there is none. *)
Fixpoint victim (fuel : nat) (e : Z) (p : pool page_ptr) : option Z :=
  if e =? 0 then Some 0
  else
    match fuel with
    | O => None
    | S fuel => x ← entry_at e p; if can_evict (value x) then Some e else victim fuel (next x) p
    end.

Definition evict_am (entry : Z) (c : cache) : option cache :=
  e ← entry_at entry (entry_pool c);
  '(am, p) ← unlink entry (am_list c) (entry_pool c);
  p ← free entry p;
  Some (Cache (capacity c) (u64 (total c - get_item_size (value e))) (a1in_current_size c) (a1in_size_limit c)
    (a1out_size_limit c) (a1in_list c) (a1in_map c) (a1out_list c) (a1out_map c) am
    (delete (key e) (am_map c)) p (ghost_pool c)).

Fixpoint shrink (fuel : nat) (c : cache) : option cache :=
  if (capacity c <? total c) && negb (empty (am_list c)) then
    match fuel with
    | O => None
    | S fuel' =>
        v ← victim fuel (head (am_list c)) (entry_pool c);
        if v =? 0 then Some c else c ← evict_am v c; shrink fuel' c
    end
  else Some c.

Definition prune (fuel : nat) (c : cache) : option cache :=
  c ← maintain_a1in_size fuel c;
  c ← maintain_a1out_size fuel c;
  shrink fuel c.

(** The new entry goes to Am when its key is a ghost, to A1in otherwise. *)
Definition place (k : Z) (v : page_ptr) (c : cache) : option cache :=
  let size_ := u64 (total c + get_item_size v) in
  match a1out_map c !! k with
  | Some ghost =>
      '(a1out, gp) ← unlink ghost (a1out_list c) (ghost_pool c);
      gp ← free ghost gp;
      '(entry, p) ← alloc k v (entry_pool c);
      '(am, p) ← push_back entry (am_list c) p;
      Some (Cache (capacity c) size_ (a1in_current_size c) (a1in_size_limit c) (a1out_size_limit c)
        (a1in_list c) (a1in_map c) a1out (delete k (a1out_map c)) am (<[k := entry]> (am_map c)) p gp)
  | None =>
      '(entry, p) ← alloc k v (entry_pool c);
      '(a1in, p) ← push_back entry (a1in_list c) p;
      Some (Cache (capacity c) size_ (u64 (a1in_current_size c + get_item_size v)) (a1in_size_limit c)
        (a1out_size_limit c) a1in (<[k := entry]> (a1in_map c)) (a1out_list c) (a1out_map c)
        (am_list c) (am_map c) p (ghost_pool c))
  end.

Definition put (fuel : nat) (k : Z) (v : page_ptr) (c : cache) : option cache :=
  match a1in_map c !! k, am_map c !! k with
  | None, None => c ← place k v c; prune fuel c
  | _, _ => Some c
  end.

(** [clear_list], for either kind of list. *)
Fixpoint clear_list {V} (fuel : nat) (e : Z) (p : pool V) : option (pool V) :=
  if e =? 0 then Some p
  else
    match fuel with
    | O => None
    | S fuel => x ← entry_at e p; p ← free e p; clear_list fuel (next x) p
    end.

End with_areas.
End twoq.
