(* ===== verification/TwoQList.v ===== *)
(** * TwoQList: the pool and the lists of the cache

    The free list of [ObjectPool] and the doubly linked lists threaded through its
    entries implement sequences: every operation succeeds, so no freed entry and no
    null pointer is ever accessed, and it changes the sequence as its name says. *)
From S2P Require Import Prelude TwoQ.

Module twoqlist.
Export twoq.

Section lists.
Context {V : Type}.
Implicit Types (m : gmap Z (slot V)) (p : pool V) (xs ys : list (Z * (Z * V))).

(** The addresses of a sequence of entries. *)
Abbreviation addrs xs := (map fst xs).

Definition first xs (nx : Z) : Z := match xs with [] => nx | (o, _) :: _ => o end.

Fixpoint final (pr : Z) xs : Z := match xs with [] => pr | (o, _) :: xs => final o xs end.

(** A segment of a doubly linked list between [pr] and [nx]. *)
Fixpoint dseg m (pr : Z) xs (nx : Z) : Prop :=
  match xs with
  | [] => True
  | (o, (k, v)) :: xs => m !! o = Some (Used (Entry k v pr (first xs nx))) /\ dseg m o xs nx
  end.

Record linked (l : ilist) m xs : Prop := {
  li_head : head l = first xs 0;
  li_tail : tail l = final 0 xs;
  li_size : size l = Z.of_nat (length xs);
  li_seg : dseg m 0 xs 0
}.

Fixpoint free_chain m (o : Z) (fl : list Z) : Prop :=
  match fl with
  | [] => o = 0
  | a :: fl => o = a /\ exists n, m !! a = Some (Free n) /\ free_chain m n fl
  end.

(** The pool hands out the entries [us]; the free list holds the other slots. *)
Definition pool_ok p (us : list Z) : Prop :=
  exists fl, free_chain (slots p) (free_list p) fl /\ NoDup (us ++ fl) /\
    forall a, a ∈ us ++ fl <-> 1 <= a <= Z.of_nat (chunks p * CHUNK_SIZE).

(** ** The pool *)

#[export] Instance pool_ok_proper p : Proper ((≡ₚ) ==> iff) (pool_ok p).
Proof.
  assert (forall us vs, us ≡ₚ vs -> pool_ok p us -> pool_ok p vs) as H.
  { intros us vs E (fl & F & N & C). exists fl. split; [done|]. split; [by rewrite <- E|].
    intros a. by rewrite <- E. }
  intros us vs E. split; apply H; [done|by symmetry].
Qed.

Lemma pool_nonzero p us a : pool_ok p us -> a ∈ us -> a <> 0.
Proof. intros (fl & _ & _ & C) Ha. assert (a ∈ us ++ fl) as H by (apply elem_of_app; by left). apply C in H. lia. Qed.

Lemma pool_nodup p us : pool_ok p us -> NoDup us.
Proof. intros (fl & _ & N & _). by apply list.NoDup_app in N as (N & _ & _). Qed.

Lemma free_chain_ext m m' o fl : (forall a, a ∈ fl -> m' !! a = m !! a) -> free_chain m o fl -> free_chain m' o fl.
Proof.
  revert o. induction fl as [|a fl IH]; intros o E; [done|]. intros (-> & n & Hn & F). split; [done|]. exists n.
  split; [rewrite E; [done|left]|]. apply IH; [|done]. intros b Hb. apply E. by right.
Qed.

Lemma pool_init_ok : pool_ok pool_init [].
Proof.
  exists []. split; [done|]. split; [constructor|]. intros a. split; [by intros ?%elem_of_nil|].
  cbn. lia.
Qed.

(** Half way through [add_chunk]: [n] slots of the new chunk are on the free list. *)
Lemma add_slots n p us : pool_ok p us ->
  let p' := fold_left (add_slot (chunks p)) (seq 0 n) (Pool (slots p) (free_list p) (S (chunks p))) in
  chunks p' = S (chunks p) /\ (forall a, a ∈ us -> slots p' !! a = slots p !! a) /\
  exists fl, free_chain (slots p') (free_list p') fl /\ NoDup (us ++ fl) /\ (n <> O -> fl <> []) /\
    forall a, a ∈ us ++ fl <-> 1 <= a <= Z.of_nat (chunks p * CHUNK_SIZE + n).
Proof.
  intros (fl & F & N & C). induction n as [|n IH].
  - cbn [seq fold_left]. split; [done|]. split; [done|]. exists fl. cbn [slots free_list]. split_and!; try done.
    intros a. rewrite C. lia.
  - rewrite seq_S, fold_left_app. cbn [fold_left]. destruct IH as (IH1 & IH2 & fl' & IH3 & IH4 & _ & IH5).
    set (p' := fold_left _ _ _) in IH1, IH2, IH3 |- *. unfold add_slot. cbn [chunks slots free_list].
    assert (slot_addr (chunks p) (0 + n) ∉ us ++ fl') as Hn by (rewrite IH5; unfold slot_addr; lia).
    split; [done|]. split.
    { intros a Ha. rewrite lookup_insert_ne; [by apply IH2|]. intros <-. apply Hn, elem_of_app. by left. }
    exists (slot_addr (chunks p) (0 + n) :: fl'). split; [|split; [|split; [done|]]].
    + split; [done|]. exists (free_list p'). rewrite lookup_insert_eq. split; [done|].
      eapply free_chain_ext; [|exact IH3]. intros a Ha. rewrite lookup_insert_ne; [done|]. intros <-.
      apply Hn, elem_of_app. by right.
    + rewrite <- Permutation_middle. by apply list.NoDup_cons.
    + intros a. rewrite <- Permutation_middle, list.elem_of_cons, IH5. unfold slot_addr. lia.
Qed.

#[local] Opaque CHUNK_SIZE.

Lemma add_chunk_spec p us : pool_ok p us ->
  chunks (add_chunk p) = S (chunks p) /\ (forall a, a ∈ us -> slots (add_chunk p) !! a = slots p !! a) /\
  exists fl, free_chain (slots (add_chunk p)) (free_list (add_chunk p)) fl /\ NoDup (us ++ fl) /\ fl <> [] /\
    forall a, a ∈ us ++ fl <-> 1 <= a <= Z.of_nat (chunks p * CHUNK_SIZE + CHUNK_SIZE).
Proof.
  intros P. destruct (add_slots CHUNK_SIZE p us P) as (E1 & E2 & fl & F & N & Hne & C).
  split; [exact E1|]. split; [exact E2|]. exists fl. split; [exact F|]. split; [exact N|]. split; [|exact C].
  by apply Hne.
Qed.

Lemma alloc_spec k (v : V) p us : pool_ok p us -> exists o p',
  alloc k v p = Some (o, p') /\ o ∉ us /\ pool_ok p' (o :: us) /\ slots p' !! o = Some (Used (Entry k v 0 0)) /\
  forall a, a ∈ us -> slots p' !! a = slots p !! a.
Proof.
  intros P. unfold alloc.
  assert (exists q fl, (if free_list p =? 0 then add_chunk p else p) = q /\ (forall a, a ∈ us -> slots q !! a = slots p !! a) /\
    free_chain (slots q) (free_list q) fl /\ NoDup (us ++ fl) /\ fl <> [] /\
    forall a, a ∈ us ++ fl <-> 1 <= a <= Z.of_nat (chunks q * CHUNK_SIZE)) as (q & fl & -> & Eq & F & N & Hne & C).
  { destruct (Z.eqb_spec (free_list p) 0) as [E|E].
    - destruct (add_chunk_spec p us P) as (E1 & E2 & fl & F & N & Hne & C).
      exists (add_chunk p), fl. split_and!; [reflexivity|exact E2|exact F|exact N|exact Hne|]. intros a. rewrite C, E1. lia.
    - destruct P as (fl & F & N & C). exists p, fl. split_and!; try done. intros ->. by cbn in F. }
  destruct fl as [|o fl]; [done|]. destruct F as (-> & n & En & F). rewrite En. eexists _, _. split; [done|].
  assert (o ∉ us /\ o ∉ fl) as [H1 H2].
  { apply list.NoDup_app in N as (_ & N1 & N2). apply list.NoDup_cons in N2 as [N2 _]. split; [|done].
    intros H. apply (N1 o H). left. }
  split; [done|]. cbn [slots free_list chunks]. rewrite lookup_insert_eq. split_and!; [|done|].
  - exists fl. cbn [slots free_list chunks]. split; [|split].
    + eapply free_chain_ext; [|exact F]. intros a Ha. rewrite lookup_insert_ne; [done|]. by intros <-.
    + cbn [app]. rewrite Permutation_middle. done.
    + intros a. rewrite <- C. cbn [app]. by rewrite Permutation_middle.
  - intros a Ha. rewrite lookup_insert_ne; [by apply Eq|]. by intros <-.
Qed.

Lemma free_spec p us o e : pool_ok p (o :: us) -> slots p !! o = Some (Used e) -> exists p',
  free o p = Some p' /\ pool_ok p' us /\ forall a, a <> o -> slots p' !! a = slots p !! a.
Proof.
  intros (fl & F & N & C) Eo. unfold free. rewrite Eo. eexists. split; [done|]. split.
  - exists (o :: fl). cbn [slots free_list chunks].
    split; [|split; [by rewrite <- Permutation_middle|intros a; by rewrite <- Permutation_middle, <- C]].
    split; [done|]. exists (free_list p). rewrite lookup_insert_eq. split; [done|].
    eapply free_chain_ext; [|exact F]. intros a Ha. rewrite lookup_insert_ne; [done|]. intros <-.
    cbn [app] in N. apply list.NoDup_cons in N as [N _]. apply N, elem_of_app. by right.
  - intros a Ha. cbn [slots]. by rewrite lookup_insert_ne.
Qed.

Lemma put_entry_ok p us o e : pool_ok p us -> o ∈ us -> pool_ok (put_entry o e p) us.
Proof.
  intros (fl & F & N & C) Ho. exists fl. split; [|done]. cbn [put_entry slots free_list].
  eapply free_chain_ext; [|exact F]. intros a Ha. rewrite lookup_insert_ne; [done|]. intros <-.
  apply list.NoDup_app in N as (_ & N & _). by apply (N o).
Qed.

(** ** The lists *)

Lemma dseg_app m pr xs ys nx : dseg m pr (xs ++ ys) nx <-> dseg m pr xs (first ys nx) /\ dseg m (final pr xs) ys nx.
Proof.
  revert pr. induction xs as [|[o [k v]] xs IH]; intros pr; cbn [app dseg final first]; [tauto|].
  rewrite IH. replace (first (xs ++ ys) nx) with (first xs (first ys nx)) by by destruct xs as [|[? ?] ?]. tauto.
Qed.

Lemma dseg_ext m m' pr xs nx : (forall a, a ∈ addrs xs -> m' !! a = m !! a) -> dseg m pr xs nx -> dseg m' pr xs nx.
Proof.
  revert pr. induction xs as [|[o [k v]] xs IH]; intros pr E; [done|]. intros [H1 H2]. split.
  - rewrite E; [done|left].
  - apply IH; [|done]. intros a Ha. apply E. by right.
Qed.

Lemma final_app pr xs ys : final pr (xs ++ ys) = final (final pr xs) ys.
Proof. revert pr. induction xs as [|[o kv] xs IH]; intros pr; [done|]. apply IH. Qed.

Lemma final_member pr xs : xs <> [] -> final pr xs ∈ addrs xs.
Proof.
  revert pr. induction xs as [|[o kv] xs IH]; intros pr; [done|]. intros _. cbn [final map fst].
  destruct xs as [|x xs]; [left|right; by apply IH].
Qed.

Lemma first_member xs nx : xs <> [] -> first xs nx ∈ addrs xs.
Proof. destruct xs as [|[o kv] xs]; [done|]. left. Qed.

(** The ends of a segment can be linked anew. *)
Lemma dseg_set_last m pr xs nx nx' : dseg m pr xs nx -> NoDup (addrs xs) -> xs <> [] ->
  exists e, m !! final pr xs = Some (Used e) /\
    dseg (<[final pr xs := Used (Entry (key e) (value e) (prev e) nx')]> m) pr xs nx'.
Proof.
  revert pr. induction xs as [|[o [k v]] xs IH]; intros pr D N Hx; [done|]. destruct D as [H1 H2]. cbn [map fst] in N.
  apply list.NoDup_cons in N as [No N]. cbn [final]. destruct xs as [|x xs].
  - exists (Entry k v pr nx). split; [done|]. cbn [dseg]. by rewrite lookup_insert_eq.
  - destruct (IH o H2 N ltac:(done)) as (e & Ee & D). exists e. split; [done|]. split; [|exact D].
    rewrite lookup_insert_ne; [by rewrite H1; destruct x|]. intros E. apply No. rewrite <- E. by apply final_member.
Qed.

Lemma dseg_set_first m pr pr' xs nx : dseg m pr xs nx -> NoDup (addrs xs) -> xs <> [] ->
  exists e, m !! first xs nx = Some (Used e) /\
    dseg (<[first xs nx := Used (Entry (key e) (value e) pr' (next e))]> m) pr' xs nx.
Proof.
  destruct xs as [|[o [k v]] xs]; [done|]. intros D N _. destruct D as [H1 H2]. cbn [map fst] in N. apply list.NoDup_cons in N as [No N].
  eexists. split; [exact H1|]. cbn [dseg first key value next]. split; [by rewrite lookup_insert_eq|].
  eapply dseg_ext; [|exact H2]. intros a Ha. rewrite lookup_insert_ne; [done|]. by intros <-.
Qed.

Lemma entry_at_used p o e : slots p !! o = Some (Used e) -> entry_at o p = Some e.
Proof. unfold entry_at. by intros ->. Qed.

Lemma set_next_spec p us o x e : slots p !! o = Some (Used e) -> pool_ok p us -> o ∈ us ->
  let p' := put_entry o (Entry (key e) (value e) (prev e) x) p in set_next o x p = Some p' /\ pool_ok p' us.
Proof. intros E P Ho. cbn zeta. unfold set_next. rewrite (entry_at_used _ _ _ E). split; [done|]. by apply put_entry_ok. Qed.

Lemma set_prev_spec p us o x e : slots p !! o = Some (Used e) -> pool_ok p us -> o ∈ us ->
  let p' := put_entry o (Entry (key e) (value e) x (next e)) p in set_prev o x p = Some p' /\ pool_ok p' us.
Proof. intros E P Ho. cbn zeta. unfold set_prev. rewrite (entry_at_used _ _ _ E). split; [done|]. by apply put_entry_ok. Qed.

(** What an operation on the list [xs] at the node [o] leaves: the slots elsewhere and the entries handed out. *)
Definition local_change p p' (us : list Z) xs (o : Z) : Prop :=
  pool_ok p' us /\ forall a, a ∉ addrs xs -> a <> o -> slots p' !! a = slots p !! a.

Lemma push_back_spec l p us xs o e : pool_ok p us -> linked l (slots p) xs -> addrs xs ⊆ us -> NoDup (addrs xs) ->
  o ∈ us -> o ∉ addrs xs -> slots p !! o = Some (Used e) -> Z.of_nat (length xs) < 2 ^ 64 - 1 ->
  exists l' p', push_back o l p = Some (l', p') /\ linked l' (slots p') (xs ++ [(o, (key e, value e))]) /\
    local_change p p' us xs o.
Proof.
  intros P [Lh Lt Ls Lg] Hs N Ho Hn Eo Hl. unfold push_back.
  destruct (set_prev_spec p us o (tail l) e Eo P Ho) as [-> P1]. cbn [mbind option_bind].
  set (p1 := put_entry _ _ p) in *.
  destruct (set_next_spec p1 us o 0 (Entry (key e) (value e) (tail l) (next e))) as [-> P2]; [by apply lookup_insert_eq|done..|].
  cbn [mbind option_bind key value prev]. set (p2 := put_entry _ _ p1) in *.
  assert (slots p2 !! o = Some (Used (Entry (key e) (value e) (final 0 xs) 0))) as E2.
  { rewrite <- Lt. apply lookup_insert_eq. }
  assert (forall a, a <> o -> slots p2 !! a = slots p !! a) as Ef.
  { intros a Ha. cbn [p2 p1 put_entry slots]. by rewrite !lookup_insert_ne by done. }
  assert (dseg (slots p2) 0 xs 0) as D2.
  { eapply dseg_ext; [|exact Lg]. intros a Ha. apply Ef. by intros ->. }
  assert (u64 (size l + 1) = Z.of_nat (length (xs ++ [(o, (key e, value e))]))) as Es.
  { rewrite length_app, Ls. cbn [length]. rewrite wrap_small by lia. lia. }
  destruct (decide (xs = [])) as [->|Hx].
  - rewrite Lt. cbn [final Z.eqb negb]. eexists _, _. split; [done|]. split.
    + split; [done|done|by rewrite <- Es, Ls|]. by split.
    + split; [done|]. intros a _ Ha. by apply Ef.
  - assert (tail l <> 0) as Ht.
    { rewrite Lt. eapply pool_nonzero; [exact P|]. apply Hs. by apply final_member. }
    destruct (Z.eqb_spec (tail l) 0) as [|_]; [done|]. cbn [negb]. rewrite Lt.
    destruct (dseg_set_last _ _ _ _ o D2 N Hx) as (x & Ex & D3).
    destruct (set_next_spec p2 us _ o x Ex P2) as [-> P3]; [apply Hs; by apply final_member|].
    cbn [mbind option_bind]. eexists _, _. split; [done|]. split.
    + split; cbn [head tail size]; [|by rewrite final_app|done|].
      * rewrite Lh. by destruct xs as [|[? ?] ?].
      * apply dseg_app. split; [exact D3|]. split; [|done]. cbn [put_entry slots]. rewrite lookup_insert_ne; [exact E2|].
        intros Ea. apply Hn. rewrite <- Ea. by apply final_member.
    + split; [done|]. intros a Ha Hao. cbn [put_entry slots]. rewrite lookup_insert_ne; [by apply Ef|].
      intros <-. apply Ha. by apply final_member.
Qed.

Lemma list_unlink_spec l p us xs o k v ys : let zs := xs ++ (o, (k, v)) :: ys in
  pool_ok p us -> linked l (slots p) zs -> addrs zs ⊆ us -> NoDup (addrs zs) -> Z.of_nat (length zs) < 2 ^ 64 ->
  exists l' p', unlink o l p = Some (l', p') /\ linked l' (slots p') (xs ++ ys) /\
    slots p' !! o = Some (Used (Entry k v 0 0)) /\ local_change p p' us zs o.
Proof.
  intros zs P [Lh Lt Ls Lg] Hs N Hl. unfold zs in *. rewrite !map_app in Hs, N. cbn [map fst] in Hs, N.
  apply dseg_app in Lg as [D1 [Eo D2]]. cbn [first] in D1.
  apply list.NoDup_app in N as (N1 & N12 & N2). apply list.NoDup_cons in N2 as [No N2].
  assert (o ∉ addrs xs) as Nx by (intros H; apply (N12 o H); left).
  assert (forall a, a ∈ addrs xs -> a ∉ addrs ys) as Nxy by (intros a H H'; apply (N12 a H); by right).
  unfold unlink. rewrite (entry_at_used _ _ _ Eo). cbn [mbind option_bind prev next].
  (* the entry before *)
  assert (exists h p1, (if negb (final 0 xs =? 0) then p ← set_next (final 0 xs) (first ys 0) p; Some (head l, p)
      else Some (first ys 0, p)) = Some (h, p1) /\ h = first (xs ++ ys) 0 /\ pool_ok p1 us /\ dseg (slots p1) 0 xs (first ys 0) /\
      forall a, a ∉ addrs xs -> slots p1 !! a = slots p !! a) as (h & p1 & -> & Eh & P1 & D1' & F1).
  { destruct (decide (xs = [])) as [->|Hx]; [by exists (first ys 0), p|].
    destruct (dseg_set_last _ _ _ _ (first ys 0) D1 N1 Hx) as (x & Ex & D1').
    pose proof (final_member 0 xs Hx) as Hf.
    destruct (set_next_spec p us _ (first ys 0) x Ex P) as [-> P1]; [apply Hs, elem_of_app; by left|].
    destruct (Z.eqb_spec (final 0 xs) 0) as [E0|_].
    { exfalso. eapply (pool_nonzero p us (final 0 xs)); [exact P| |done]. apply Hs, elem_of_app. by left. }
    eexists _, _. split; [done|]. split_and!; [rewrite Lh; by destruct xs as [|[? ?] ?]|done|exact D1'|].
    intros a Ha. cbn [put_entry slots]. rewrite lookup_insert_ne; [done|]. intros <-. by apply Ha. }
  cbn [mbind option_bind].
  assert (dseg (slots p1) o ys 0) as D2a.
  { eapply dseg_ext; [|exact D2]. intros a Ha. apply F1. intros H. by apply (Nxy a H). }
  (* the entry behind *)
  assert (exists t p2, (if negb (first ys 0 =? 0) then p ← set_prev (first ys 0) (final 0 xs) p1; Some (tail l, p)
      else Some (final 0 xs, p1)) = Some (t, p2) /\ t = final 0 (xs ++ ys) /\ pool_ok p2 us /\ dseg (slots p2) (final 0 xs) ys 0 /\
      forall a, a ∉ addrs ys -> slots p2 !! a = slots p1 !! a) as (t & p2 & -> & Et & P2 & D2' & F2).
  { destruct (decide (ys = [])) as [->|Hy]; [exists (final 0 xs), p1; by rewrite app_nil_r|].
    destruct (dseg_set_first _ _ (final 0 xs) _ _ D2a N2 Hy) as (x & Ex & D2').
    pose proof (first_member ys 0 Hy) as Hf.
    destruct (set_prev_spec p1 us _ (final 0 xs) x Ex P1) as [-> P2]; [apply Hs, elem_of_app; right; by right|].
    destruct (Z.eqb_spec (first ys 0) 0) as [E0|_].
    { exfalso. eapply (pool_nonzero p us (first ys 0)); [exact P| |done]. apply Hs, elem_of_app. right. by right. }
    eexists _, _. split; [done|]. split_and!; [|done|exact D2'|].
    - rewrite Lt, !final_app. cbn [final]. by destruct ys as [|[? ?] ?].
    - intros a Ha. cbn [put_entry slots]. rewrite lookup_insert_ne; [done|]. intros <-. by apply Ha. }
  cbn [mbind option_bind].
  assert (o ∈ us) as Ho by (apply Hs, elem_of_app; right; left).
  assert (slots p2 !! o = Some (Used (Entry k v (final 0 xs) (first ys 0)))) as E2.
  { rewrite F2 by done. rewrite F1 by done. exact Eo. }
  destruct (set_prev_spec p2 us o 0 _ E2 P2 Ho) as [-> P3]. cbn [mbind option_bind key value next prev].
  set (p3 := put_entry _ _ p2) in *.
  destruct (set_next_spec p3 us o 0 (Entry k v 0 (first ys 0))) as [-> P4]; [by apply lookup_insert_eq|done..|].
  cbn [mbind option_bind key value prev]. set (p4 := put_entry _ _ p3) in *.
  assert (forall a, a <> o -> slots p4 !! a = slots p2 !! a) as F4.
  { intros a Ha. cbn [p4 p3 put_entry slots]. by rewrite !lookup_insert_ne by done. }
  eexists _, _. split; [done|]. split; [|split; [by apply lookup_insert_eq|split; [done|]]].
  - split; cbn [head tail size]; [done|done| |].
    + rewrite Ls, !length_app in *. cbn [length] in *. rewrite wrap_small by lia. lia.
    + apply dseg_app. split.
      * eapply dseg_ext; [|exact D1']. intros a Ha. rewrite F4; [|by intros ->]. apply F2. by apply Nxy.
      * eapply dseg_ext; [|exact D2']. intros a Ha. rewrite F4; [done|by intros ->].
  - intros a Ha Hao. rewrite map_app in Ha. cbn [map fst] in Ha. rewrite F4 by done.
    rewrite F2; [apply F1|]; intros H; apply Ha, elem_of_app; [by left|right; by right].
Qed.

(** ** Two lists in one pool *)

(** The entries handed out are those of the lists [xs] and [ys], and [us]. *)
Record two_lists p (l1 l2 : ilist) (us : list Z) xs ys : Prop := {
  tl_pool : pool_ok p (us ++ addrs xs ++ addrs ys);
  tl_one : linked l1 (slots p) xs;
  tl_two : linked l2 (slots p) ys;
  tl_small : Z.of_nat (length xs + length ys) < 2 ^ 64 - 1
}.

Lemma linked_frame l m m' xs : (forall a, a ∈ addrs xs -> m' !! a = m !! a) -> linked l m xs -> linked l m' xs.
Proof. intros E [H1 H2 H3 H4]. split; [done..|]. by eapply dseg_ext. Qed.

Lemma two_swap p l1 l2 us xs ys : two_lists p l1 l2 us xs ys -> two_lists p l2 l1 us ys xs.
Proof. intros [H1 H2 H3 H4]. split; [|done|done|lia]. by rewrite (Permutation_app_comm (addrs ys)). Qed.

(** Without a second list. *)
Lemma one_list p l xs : pool_ok p (addrs xs) -> linked l (slots p) xs -> Z.of_nat (length xs) < 2 ^ 64 - 1 ->
  two_lists p l list_init [] xs [].
Proof. intros P L H. split; [by rewrite app_nil_r|done|by split|cbn; lia]. Qed.

Lemma two_nonzero p l1 l2 us xs ys : two_lists p l1 l2 us xs ys -> 0 ∉ addrs xs.
Proof.
  intros T H. eapply (pool_nonzero p _ 0); [apply T| |done]. apply elem_of_app. right. apply elem_of_app. by left.
Qed.

Lemma two_unlink p l1 l2 xs o k v zs ys : two_lists p l1 l2 [] (xs ++ (o, (k, v)) :: zs) ys -> exists l' p',
  unlink o l1 p = Some (l', p') /\ two_lists p' l' l2 [o] (xs ++ zs) ys /\ slots p' !! o = Some (Used (Entry k v 0 0)).
Proof.
  intros [P L1 L2 Hl]. cbn [app] in P. pose proof (pool_nodup _ _ P) as N. apply list.NoDup_app in N as (N1 & N12 & _).
  destruct (list_unlink_spec l1 p _ xs o k v zs P L1) as (l' & p' & E & L1' & Eo & P' & F).
  { intros a Ha. apply elem_of_app. by left. } { done. } { rewrite ?length_app in *. cbn [length] in *. lia. }
  exists l', p'. split; [done|]. split; [|done]. split; [|done| |].
  - rewrite map_app in P'. cbn [map fst app] in P'. rewrite <- Permutation_middle in P'. rewrite map_app. exact P'.
  - eapply linked_frame; [|exact L2]. intros a Ha. apply F.
    + intros H. by apply (N12 a H).
    + intros ->. apply (N12 o); [|done]. rewrite map_app. apply elem_of_app. right. left.
  - rewrite ?length_app in *. cbn [length] in *. lia.
Qed.

Lemma two_push p l1 l2 o e xs ys : two_lists p l1 l2 [o] xs ys -> slots p !! o = Some (Used e) ->
  Z.of_nat (length xs + length ys) < 2 ^ 64 - 2 -> exists l' p',
  push_back o l1 p = Some (l', p') /\ two_lists p' l' l2 [] (xs ++ [(o, (key e, value e))]) ys.
Proof.
  intros [P L1 L2 Hl] Eo Hs. cbn [app] in P. pose proof (pool_nodup _ _ P) as N. apply list.NoDup_cons in N as [No N].
  apply list.NoDup_app in N as (N1 & N12 & _).
  destruct (push_back_spec l1 p _ xs o e P L1) as (l' & p' & E & L1' & P' & F).
  { intros a Ha. right. apply elem_of_app. by left. } { done. } { left. }
  { intros H. apply No, elem_of_app. by left. } { done. } { lia. }
  exists l', p'. split; [done|]. split; [|done| |].
  - rewrite map_app. cbn [app map fst]. rewrite <- (app_assoc (addrs xs) [o]). cbn [app].
    by rewrite <- Permutation_middle.
  - eapply linked_frame; [|exact L2]. intros a Ha. apply F; [intros H; by apply (N12 a H)|].
    intros ->. apply No, elem_of_app. by right.
  - rewrite length_app. cbn [length]. lia.
Qed.

Lemma two_alloc p l1 l2 xs ys k (v : V) : two_lists p l1 l2 [] xs ys -> exists o p',
  alloc k v p = Some (o, p') /\ two_lists p' l1 l2 [o] xs ys /\ slots p' !! o = Some (Used (Entry k v 0 0)).
Proof.
  intros [P L1 L2 Hl]. cbn [app] in P. destruct (alloc_spec k v p _ P) as (o & p' & E & Ho & P' & Eo & F). exists o, p'.
  split; [done|]. split; [|done]. split; [done| | |done]; (eapply linked_frame; [|eassumption]);
    intros a Ha; apply F, elem_of_app; [by left|by right].
Qed.

Lemma two_free p l1 l2 xs ys o e : two_lists p l1 l2 [o] xs ys -> slots p !! o = Some (Used e) -> exists p',
  free o p = Some p' /\ two_lists p' l1 l2 [] xs ys.
Proof.
  intros [P L1 L2 Hl] Eo. pose proof (pool_nodup _ _ P) as N. cbn [app] in N. apply list.NoDup_cons in N as [No _].
  destruct (free_spec p _ o e P Eo) as (p' & E & P' & F). exists p'.
  split; [done|]. split; [done| | |done]; (eapply linked_frame; [|eassumption]); intros a Ha; apply F;
    intros ->; apply No, elem_of_app; [by left|by right].
Qed.

(** The entry of a member of a list. *)
Lemma two_entry p l1 l2 us xs o k v zs ys : two_lists p l1 l2 us (xs ++ (o, (k, v)) :: zs) ys ->
  exists pr nx, entry_at o p = Some (Entry k v pr nx).
Proof.
  intros [_ [_ _ _ D] _ _]. apply dseg_app in D as [_ [D _]]. eexists _, _. by apply entry_at_used.
Qed.

Lemma two_length p l1 l2 us xs ys : two_lists p l1 l2 us xs ys -> size l1 = Z.of_nat (length xs).
Proof. intros T. apply T. Qed.

Lemma two_move p l1 l2 xs o k v zs ys : two_lists p l1 l2 [] (xs ++ (o, (k, v)) :: zs) ys -> exists l' p',
  move_to_back o l1 p = Some (l', p') /\ two_lists p' l' l2 [] ((xs ++ zs) ++ [(o, (k, v))]) ys.
Proof.
  intros T. unfold move_to_back. rewrite (li_tail _ _ _ (tl_one _ _ _ _ _ _ T)), final_app. cbn [final].
  destruct (Z.eqb_spec o (final o zs)) as [E|_].
  - assert (zs = []) as ->; [|rewrite app_nil_r; by exists l1, p].
    destruct (decide (zs = [])) as [|Hz]; [done|]. exfalso. pose proof (final_member o zs Hz) as Hm. rewrite <- E in Hm.
    pose proof (pool_nodup _ _ (tl_pool _ _ _ _ _ _ T)) as N. cbn [app] in N. rewrite map_app in N.
    apply list.NoDup_app in N as (N & _ & _). apply list.NoDup_app in N as (_ & _ & N).
    apply list.NoDup_cons in N as [N _]. done.
  - destruct (two_unlink _ _ _ _ _ _ _ _ _ T) as (l' & p' & -> & T' & Eo). cbn [mbind option_bind].
    apply (two_push p' l' l2 o _ _ _ T' Eo). pose proof (tl_small _ _ _ _ _ _ T) as H.
    rewrite length_app in H |- *. cbn [length] in H. lia.
Qed.

End lists.
End twoqlist.
