(* ===== verification/TwoQFacts.v ===== *)
(** * TwoQFacts: the page cache implements the 2Q algorithm

    The algorithm on plain sequences of keys and values ([get_spec], [put_spec]) and
    the proof that the cache of [TwoQ] implements it, with its maps, its lists and
    its byte counts consistent after every operation. *)
From S2P Require Import Prelude TwoQ TwoQList.

Module twoqfacts.
Export twoqlist.

Section cache.
Context (area_size get_ref : Z -> Z).
Hypothesis area_size_nonneg : forall a, 0 <= area_size a.

Abbreviation get_item_size := (twoq.get_item_size area_size).
Abbreviation can_evict := (twoq.can_evict get_ref).
Abbreviation addrs xs := (map fst xs).
Abbreviation keys xs := (map (fun x => fst (snd x)) xs).

(** ** The algorithm *)

Definition assoc {V} (k : Z) (l : list (Z * V)) : option V := snd <$> List.find (fun x => fst x =? k) l.
Definition without {V} (k : Z) (l : list (Z * V)) : list (Z * V) := List.filter (fun x => negb (fst x =? k)) l.

(** The bytes of a sequence of entries. *)
Definition weight {X} (val : X -> page_ptr) (l : list X) : Z := foldr (fun x s => get_item_size (val x) + s) 0 l.

(** Evict from the front what can be evicted until [total] bytes are [limit] at most:
    what goes and what stays. *)
Fixpoint evicts {X} (val : X -> page_ptr) (limit total : Z) (l : list X) : list X * list X :=
  match l with
  | [] => ([], [])
  | x :: l' =>
      if total <=? limit then ([], l)
      else if can_evict (val x) then
        let '(out, stay) := evicts val limit (total - get_item_size (val x)) l' in (x :: out, stay)
      else let '(out, stay) := evicts val limit total l' in (out, x :: stay)
  end.

(** A1in and Am with the oldest entry first; A1out are keys. *)
Record spec := Spec { s_a1in : list (Z * page_ptr); s_am : list (Z * page_ptr); s_a1out : list Z }.

Definition get_spec (k : Z) (s : spec) : option page_ptr * spec :=
  match assoc k (s_a1in s) with
  | Some v => (Some v, Spec (without k (s_a1in s)) (s_am s ++ [(k, v)]) (s_a1out s))
  | None =>
      match assoc k (s_am s) with
      | Some v => (Some v, Spec (s_a1in s) (without k (s_am s) ++ [(k, v)]) (s_a1out s))
      | None => (None, s)
      end
  end.

Definition prune_spec (capacity a1in_limit a1out_limit : Z) (s : spec) : spec :=
  let in_bytes := weight snd (s_a1in s) in
  let '(out1, stay1) := evicts snd a1in_limit in_bytes (s_a1in s) in
  let '(_, stay2) := evicts snd capacity (weight snd stay1 + weight snd (s_am s)) (s_am s) in
  let ghosts := s_a1out s ++ map fst out1 in
  Spec stay1 stay2 (drop (Z.to_nat (Z.of_nat (length ghosts) - a1out_limit)) ghosts).

Definition put_spec (capacity a1in_limit a1out_limit k : Z) (v : page_ptr) (s : spec) : spec :=
  match assoc k (s_a1in s), assoc k (s_am s) with
  | None, None =>
      prune_spec capacity a1in_limit a1out_limit
        (if bool_decide (k ∈ s_a1out s) then Spec (s_a1in s) (s_am s ++ [(k, v)]) (filter (fun g => g <> k) (s_a1out s))
         else Spec (s_a1in s ++ [(k, v)]) (s_am s) (s_a1out s))
  | _, _ => s
  end.

(** ** The state of the cache *)

(** The map holds the addresses of the entries of the list. *)
Definition indexes {V} (m : gmap Z Z) (xs : list (Z * (Z * V))) : Prop :=
  forall k o, m !! k = Some o <-> exists v, (o, (k, v)) ∈ xs.

Record shape (c : cache) (xs ys : list (Z * (Z * page_ptr))) (gs : list (Z * (Z * Z))) : Prop := {
  sh_entries : two_lists (entry_pool c) (a1in_list c) (am_list c) [] xs ys;
  sh_ghosts : two_lists (ghost_pool c) (a1out_list c) list_init [] gs [];
  sh_a1in : indexes (a1in_map c) xs;
  sh_am : indexes (am_map c) ys;
  sh_a1out : indexes (a1out_map c) gs;
  sh_keys : NoDup (keys xs ++ keys ys ++ keys gs);
  sh_small : Z.of_nat (length xs + length ys + length gs) < 2 ^ 64 - 2
}.

Definition val (x : Z * (Z * page_ptr)) : page_ptr := snd (snd x).

(** The byte counts. *)
Record counts (c : cache) (xs ys : list (Z * (Z * page_ptr))) : Prop := {
  ct_total : total c = weight val xs + weight val ys;
  ct_a1in : a1in_current_size c = weight val xs;
  ct_small : weight val xs + weight val ys < 2 ^ 64
}.

(** The cache is in the state [s] of the algorithm. *)
Definition represents (c : cache) (s : spec) : Prop :=
  exists xs ys gs, shape c xs ys gs /\ counts c xs ys /\ s = Spec (map snd xs) (map snd ys) (keys gs).

(** ** Maps *)

Lemma indexes_insert {V} m (xs : list (Z * (Z * V))) k o v : indexes m xs -> k ∉ keys xs -> indexes (<[k := o]> m) (xs ++ [(o, (k, v))]).
Proof.
  intros I Hk k' o'. destruct (decide (k' = k)) as [->|Hne].
  - rewrite lookup_insert_eq. split.
    + intros [= ->]. exists v. apply elem_of_app. right. left.
    + intros (v' & [H|H%list_elem_of_singleton]%elem_of_app); [|by injection H as -> _].
      exfalso. apply Hk. apply list_elem_of_fmap. by exists (o', (k, v')).
  - rewrite lookup_insert_ne by done. rewrite (I k' o'). split; intros (v' & H); exists v'.
    + apply elem_of_app. by left.
    + apply elem_of_app in H as [H|H%list_elem_of_singleton]; [done|]. by injection H as _ -> _.
Qed.

Lemma indexes_delete {V} m (xs ys : list (Z * (Z * V))) k o v : indexes m (xs ++ (o, (k, v)) :: ys) ->
  NoDup (keys (xs ++ (o, (k, v)) :: ys)) -> indexes (delete k m) (xs ++ ys).
Proof.
  intros I N k' o'. rewrite map_app in N. cbn [map fst snd] in N. rewrite <- Permutation_middle in N.
  apply list.NoDup_cons in N as [N _]. rewrite <- map_app in N. destruct (decide (k' = k)) as [->|Hne].
  - rewrite lookup_delete_eq. split; [done|]. intros (v' & H). exfalso. apply N. apply list_elem_of_fmap. by exists (o', (k, v')).
  - rewrite lookup_delete_ne by done. rewrite (I k' o'). split; intros (v' & H); exists v'.
    + rewrite <- Permutation_middle in H. apply list.elem_of_cons in H as [H|H]; [|done]. by injection H as _ -> _.
    + rewrite <- Permutation_middle. by right.
Qed.

(** An indexed key splits the list. *)
Lemma indexes_some {V} m (xs : list (Z * (Z * V))) k o : indexes m xs -> m !! k = Some o ->
  exists xs1 v xs2, xs = xs1 ++ (o, (k, v)) :: xs2.
Proof. intros I E. apply I in E as (v & (xs1 & xs2 & ->)%list_elem_of_split). by exists xs1, v, xs2. Qed.

Lemma indexes_none {V} m (xs : list (Z * (Z * V))) k : indexes m xs -> m !! k = None <-> k ∉ keys xs.
Proof.
  intros I. split.
  - intros E ((o & [k' v]) & -> & H)%list_elem_of_fmap. cbn in E. assert (m !! k' = Some o) as E' by (apply I; by exists v). congruence.
  - intros H. destruct (m !! k) as [o|] eqn:E; [|done]. exfalso. apply I in E as (v & E). apply H.
    apply list_elem_of_fmap. by exists (o, (k, v)).
Qed.

Lemma assoc_find_none {V} k (l : list (Z * V)) : k ∉ map fst l -> List.find (fun x => fst x =? k) l = None.
Proof.
  induction l as [|[k' v] l IH]; intros H; [done|]. cbn [List.find fst]. destruct (Z.eqb_spec k' k) as [->|_].
  - exfalso. apply H. left.
  - apply IH. intros H'. apply H. by right.
Qed.

Lemma without_none {V} k (l : list (Z * V)) : k ∉ map fst l -> without k l = l.
Proof.
  unfold without. induction l as [|[k' v] l IH]; intros H; [done|]. cbn [List.filter fst]. destruct (Z.eqb_spec k' k) as [->|_].
  - exfalso. apply H. left.
  - cbn [negb]. f_equal. apply IH. intros H'. apply H. by right.
Qed.

Lemma find_app {A} (f : A -> bool) l1 l2 :
  List.find f (l1 ++ l2) = match List.find f l1 with Some x => Some x | None => List.find f l2 end.
Proof. induction l1 as [|x l1 IH]; [done|]. cbn. by destruct (f x). Qed.

(** Looking up and removing a key that occurs once. *)
Lemma assoc_split {V} k v (l1 l2 : list (Z * V)) : NoDup (map fst (l1 ++ (k, v) :: l2)) ->
  assoc k (l1 ++ (k, v) :: l2) = Some v /\ without k (l1 ++ (k, v) :: l2) = l1 ++ l2.
Proof.
  rewrite map_app. cbn [map fst]. intros N. rewrite <- Permutation_middle in N. apply list.NoDup_cons in N as [N _].
  assert (k ∉ map fst l1) as H1 by (intros H; apply N, elem_of_app; by left).
  assert (k ∉ map fst l2) as H2 by (intros H; apply N, elem_of_app; by right).
  split.
  - unfold assoc. rewrite find_app, assoc_find_none by done. cbn [List.find fst]. by rewrite Z.eqb_refl.
  - unfold without. rewrite List.filter_app. cbn [List.filter fst]. rewrite Z.eqb_refl. cbn [negb].
    fold (without k l1) (without k l2). by rewrite !without_none.
Qed.

Lemma assoc_none {V} k (l : list (Z * V)) : k ∉ map fst l -> assoc k l = None.
Proof. intros H. unfold assoc. by rewrite assoc_find_none. Qed.

(** ** The parts of the operations *)

Lemma weight_app {X} (f : X -> page_ptr) l1 l2 : weight f (l1 ++ l2) = weight f l1 + weight f l2.
Proof. induction l1 as [|x l1 IH]; [done|]. cbn [app weight foldr]. fold (weight f (l1 ++ l2)) (weight f l1). lia. Qed.

Lemma weight_snoc {X} (f : X -> page_ptr) l x : weight f (l ++ [x]) = weight f l + get_item_size (f x).
Proof. rewrite weight_app. unfold weight at 2. cbn [foldr]. lia. Qed.

Lemma item_nonneg v : 0 <= get_item_size v.
Proof. unfold twoq.get_item_size. destruct (area v); [apply area_size_nonneg|lia]. Qed.

Lemma weight_nonneg {X} (f : X -> page_ptr) l : 0 <= weight f l.
Proof. induction l as [|x l IH]; [done|]. cbn [weight foldr]. fold (weight f l). pose proof (item_nonneg (f x)). lia. Qed.

Lemma weight_map {X Y} (g : X -> Y) (f : Y -> page_ptr) l : weight f (map g l) = weight (fun x => f (g x)) l.
Proof. induction l as [|x l IH]; [done|]. cbn [map weight foldr]. f_equal. exact IH. Qed.

Lemma weight_perm {X} (f : X -> page_ptr) l1 l2 : l1 ≡ₚ l2 -> weight f l1 = weight f l2.
Proof. unfold weight. induction 1; cbn [foldr]; lia. Qed.

(** What is evicted and what stays are together what there was. *)
Lemma evicts_perm {X} (f : X -> page_ptr) limit total l :
  let '(out, stay) := evicts f limit total l in out ++ stay ≡ₚ l.
Proof.
  revert total. induction l as [|x l IH]; intros total; [cbn; reflexivity|]. cbn [evicts]. destruct (total <=? limit); [cbn; reflexivity|].
  destruct (can_evict (f x)).
  - specialize (IH (total - get_item_size (f x))). destruct (evicts _ _ _ l) as [out stay]. cbn [app]. by f_equiv.
  - specialize (IH total). destruct (evicts _ _ _ l) as [out stay]. rewrite <- Permutation_middle. by f_equiv.
Qed.

Lemma evicts_map {X Y} (g : X -> Y) (f : Y -> page_ptr) limit total l :
  evicts f limit total (map g l) = let '(out, stay) := evicts (fun x => f (g x)) limit total l in (map g out, map g stay).
Proof.
  revert total. induction l as [|x l IH]; intros total; [done|]. cbn [map evicts]. destruct (total <=? limit); [done|].
  destruct (can_evict (f (g x))); rewrite IH; by destruct (evicts _ _ _ l).
Qed.

(** Of what stays, either nothing can be evicted or the limit is met. *)
Lemma evicts_limit {X} (f : X -> page_ptr) limit total l :
  let '(out, stay) := evicts f limit total l in
  total - weight f out <= limit \/ Forall (fun x => can_evict (f x) = false) stay.
Proof.
  revert total. induction l as [|x l IH]; intros total; [by right|]. cbn [evicts].
  destruct (Z.leb_spec total limit); [left; cbn; lia|]. destruct (can_evict (f x)) eqn:E.
  - specialize (IH (total - get_item_size (f x))). destruct (evicts _ _ _ l) as [out stay].
    destruct IH as [IH|IH]; [left|by right]. cbn [weight foldr]. fold (weight f out). lia.
  - specialize (IH total). destruct (evicts _ _ _ l) as [out stay]. destruct IH as [IH|IH]; [by left|right]. by constructor.
Qed.

(** Only what can be evicted is. *)
Lemma evicts_evictable {X} (f : X -> page_ptr) limit total l :
  let '(out, stay) := evicts f limit total l in Forall (fun x => can_evict (f x) = true) out.
Proof.
  revert total. induction l as [|x l IH]; intros total; [constructor|]. cbn [evicts].
  destruct (total <=? limit); [constructor|]. destruct (can_evict (f x)) eqn:E.
  - specialize (IH (total - get_item_size (f x))). destruct (evicts _ _ _ l) as [out stay]. by constructor.
  - specialize (IH total). by destruct (evicts _ _ _ l) as [out stay].
Qed.

(** The choice of [maintain_a1in_size]. *)
Lemma choose_spec fuel m pr xs t s a c : dseg m pr xs 0 -> m = slots (entry_pool c) -> 0 ∉ addrs xs -> (length xs <= fuel)%nat ->
  weight val xs <= t < 2 ^ 64 -> weight val xs <= s < 2 ^ 64 -> weight val xs <= a < 2 ^ 64 ->
  let '(out, _) := evicts val (a1in_size_limit c) t xs in
  choose area_size get_ref fuel (first xs 0) t s a c = Some (addrs out, s - weight val out, a - weight val out).
Proof.
  intros D -> H0 Hf. revert pr fuel t s a D H0 Hf.
  induction xs as [|[o [k v]] xs IH]; intros pr fuel t s a D H0 Hf Ht Hs Ha.
  { cbn [evicts]. destruct fuel; cbn; by rewrite !Z.sub_0_r. }
  destruct D as [Eo D]. cbn [evicts first]. cbn [map fst] in H0. apply not_elem_of_cons in H0 as [H0 H1].
  cbn [weight foldr val snd] in Ht, Hs, Ha. fold (weight val xs) in Ht, Hs, Ha.
  pose proof (item_nonneg v) as Hv. pose proof (weight_nonneg val xs) as Hb.
  destruct fuel as [|fuel]; [cbn in Hf; lia|]. cbn [choose]. destruct (Z.eqb_spec o 0) as [|_]; [congruence|]. cbn [orb].
  destruct (Z.leb_spec t (a1in_size_limit c)); [by rewrite !Z.sub_0_r|].
  rewrite (entry_at_used _ _ _ Eo). cbn [mbind option_bind value next val snd]. apply le_S_n in Hf.
  destruct (can_evict v).
  - rewrite !wrap_small by lia. specialize (IH o fuel (t - get_item_size v) (s - get_item_size v) (a - get_item_size v) D H1 Hf
      ltac:(lia) ltac:(lia) ltac:(lia)).
    destruct (evicts val _ _ xs) as [out stay]. rewrite IH. cbn [mbind option_bind map fst weight foldr val snd].
    fold (weight val out). f_equal. f_equal; [f_equal|]; lia.
  - specialize (IH o fuel t s a D H1 Hf ltac:(lia) ltac:(lia) ltac:(lia)). by destruct (evicts val _ _ xs) as [out stay].
Qed.

(** [victim] passes over the entries that cannot be evicted. *)
Lemma victim_spec fuel (p : pool page_ptr) pr xs ys : dseg (slots p) pr (xs ++ ys) 0 -> 0 ∉ addrs (xs ++ ys) ->
  (length (xs ++ ys) <= fuel)%nat -> Forall (fun x => can_evict (val x) = false) xs ->
  victim get_ref fuel (first (xs ++ ys) 0) p =
    match ys with
    | [] => Some 0
    | y :: _ => if can_evict (val y) then Some (fst y) else victim get_ref (fuel - length xs) (fst y) p
    end.
Proof.
  revert pr fuel. induction xs as [|[o [k v]] xs IH]; intros pr fuel D H0 Hf Hx; cbn [app] in *.
  - destruct ys as [|[o [k v]] ys]; [by destruct fuel|]. cbn [first fst val snd]. rewrite Nat.sub_0_r.
    destruct D as [Eo D]. cbn [map fst] in H0. apply not_elem_of_cons in H0 as [H0 H1].
    destruct (can_evict v) eqn:E; [|done]. destruct fuel as [|fuel]; [cbn in Hf; lia|]. cbn [victim].
    destruct (Z.eqb_spec o 0) as [|_]; [congruence|]. rewrite (entry_at_used _ _ _ Eo). cbn [mbind option_bind value]. by rewrite E.
  - destruct D as [Eo D]. cbn [map fst] in H0. apply not_elem_of_cons in H0 as [H0 H1].
    inversion Hx as [|? ? Ev Hx']; subst. cbn [val snd] in Ev. destruct fuel as [|fuel]; [cbn in Hf; lia|]. cbn [victim first].
    destruct (Z.eqb_spec o 0) as [|_]; [congruence|]. rewrite (entry_at_used _ _ _ Eo). cbn [mbind option_bind value next].
    rewrite Ev. cbn [length Nat.sub]. apply (IH o); [done..| |done]. cbn [length] in Hf. lia.
Qed.

(** ** The steps on the lists *)

Definition same_counts (c c' : cache) : Prop :=
  capacity c' = capacity c /\ total c' = total c /\ a1in_current_size c' = a1in_current_size c /\
  a1in_size_limit c' = a1in_size_limit c /\ a1out_size_limit c' = a1out_size_limit c.

Lemma same_counts_refl c : same_counts c c.
Proof. by unfold same_counts; split_and!. Qed.

Lemma same_counts_trans c1 c2 c3 : same_counts c1 c2 -> same_counts c2 c3 -> same_counts c1 c3.
Proof. intros (?&?&?&?&?) (?&?&?&?&?). unfold same_counts. split_and!; congruence. Qed.

(** The keys of the three lists when one entry moves. *)
Lemma keys_parts (xs ys : list (Z * (Z * page_ptr))) (gs : list (Z * (Z * Z))) : NoDup (keys xs ++ keys ys ++ keys gs) ->
  NoDup (keys xs) /\ NoDup (keys ys) /\ NoDup (keys gs) /\ (forall k, k ∈ keys xs -> k ∉ keys ys /\ k ∉ keys gs) /\
  forall k, k ∈ keys ys -> k ∉ keys gs.
Proof.
  intros (N1 & N12 & (N2 & N23 & N3)%list.NoDup_app)%list.NoDup_app. split_and!; try done. intros k Hk.
  split; intros H; apply (N12 k Hk), elem_of_app; [by left|by right].
Qed.

Lemma keys_middle {V} (xs1 xs2 : list (Z * (Z * V))) o k v :
  keys (xs1 ++ (o, (k, v)) :: xs2) ≡ₚ k :: keys (xs1 ++ xs2).
Proof. rewrite !map_app. cbn [map fst snd]. by rewrite <- Permutation_middle. Qed.

Lemma keys_snoc {V} (xs : list (Z * (Z * V))) o k v : keys (xs ++ [(o, (k, v))]) ≡ₚ k :: keys xs.
Proof. rewrite map_app. cbn [map fst snd]. rewrite <- Permutation_middle. by rewrite app_nil_r. Qed.

Lemma evict_spec c xs1 o k v xs2 ys gs : shape c (xs1 ++ (o, (k, v)) :: xs2) ys gs -> exists c' g,
  evict o c = Some c' /\ shape c' (xs1 ++ xs2) ys (gs ++ [(g, (k, 0))]) /\ same_counts c c'.
Proof.
  intros [T G I1 I2 I3 N S]. pose proof (keys_parts _ _ _ N) as (N1 & N2 & N3 & N4 & N5).
  assert (k ∈ keys (xs1 ++ (o, (k, v)) :: xs2)) as Hk by (rewrite keys_middle; left).
  unfold evict. destruct (two_entry _ _ _ _ _ _ _ _ _ _ T) as (pr & nx & ->). cbn [mbind option_bind key].
  destruct (two_alloc _ _ _ _ _ k 0 G) as (g & gp & -> & G1 & Eg). cbn [mbind option_bind].
  destruct (two_push _ _ _ _ _ _ _ G1 Eg) as (gl & gp2 & -> & G2); [cbn [length]; lia|]. cbn [mbind option_bind].
  destruct (two_unlink _ _ _ _ _ _ _ _ _ T) as (l' & p1 & -> & T1 & Eo). cbn [mbind option_bind].
  destruct (two_free _ _ _ _ _ _ _ T1 Eo) as (p2 & -> & T2). cbn [mbind option_bind].
  eexists _, g. split; [done|]. split; [|by split_and!].
  split; cbn [entry_pool a1in_list am_list ghost_pool a1out_list a1in_map am_map a1out_map]; try done.
  - by eapply indexes_delete.
  - apply indexes_insert; [done|]. by apply N4.
  - rewrite keys_snoc, <- !Permutation_middle, (app_assoc (keys (xs1 ++ xs2))), <- (app_assoc _ (keys ys)).
    rewrite keys_middle in N. exact N.
  - rewrite ?length_app in *. cbn [length] in *. lia.
Qed.

Lemma evict_all_spec limit t c pre xs ys gs : shape c (pre ++ xs) ys gs ->
  let '(out, stay) := evicts val limit t xs in
  exists c' gs', evict_all (addrs out) c = Some c' /\ shape c' (pre ++ stay) ys (gs ++ gs') /\ same_counts c c' /\
    keys gs' = keys out.
Proof.
  revert t c pre gs. induction xs as [|[o [k v]] xs IH]; intros t c pre gs H; cbn [evicts].
  { exists c, []. rewrite (app_nil_r gs), (app_nil_r pre) in *. split_and!; [done|done|apply same_counts_refl|done]. }
  destruct (t <=? limit).
  { exists c, []. rewrite (app_nil_r gs). split_and!; [done|done|apply same_counts_refl|done]. }
  cbn [val snd]. destruct (can_evict v).
  - destruct (evict_spec c pre o k v xs ys gs H) as (c1 & g & E1 & H1 & S1). specialize (IH (t - get_item_size v) c1 pre _ H1).
    destruct (evicts val limit _ xs) as [out stay]. destruct IH as (c2 & gs' & E2 & H2 & S2 & K2).
    exists c2, ((g, (k, 0)) :: gs'). cbn [map fst snd evict_all]. rewrite E1. cbn [mbind option_bind].
    rewrite <- (app_assoc gs) in H2. split_and!; [done|done|by eapply same_counts_trans|by f_equal].
  - change (pre ++ (o, (k, v)) :: xs) with (pre ++ [(o, (k, v))] ++ xs) in H. rewrite app_assoc in H. specialize (IH t c _ _ H). destruct (evicts val limit t xs) as [out stay].
    destruct IH as (c2 & gs' & E2 & H2 & S2 & K2). exists c2, gs'. rewrite <- (app_assoc pre) in H2. by split_and!.
Qed.

Lemma drop_ghost_spec c xs ys g k z gs : shape c xs ys ((g, (k, z)) :: gs) -> exists c',
  drop_ghost c = Some c' /\ shape c' xs ys gs /\ same_counts c c'.
Proof.
  intros [T G I1 I2 I3 N S]. pose proof (keys_parts _ _ _ N) as (N1 & N2 & N3 & N4 & N5).
  assert (head (a1out_list c) = g) as Hg by apply G. change ((g, (k, z)) :: gs) with ([] ++ (g, (k, z)) :: gs) in G, I3, N3.
  unfold drop_ghost. rewrite Hg. destruct (two_entry _ _ _ _ _ _ _ _ _ _ G) as (pr & nx & ->). cbn [mbind option_bind key].
  destruct (two_unlink _ _ _ _ _ _ _ _ _ G) as (l' & p1 & -> & G1 & Eo). cbn [mbind option_bind].
  destruct (two_free _ _ _ _ _ _ _ G1 Eo) as (p2 & -> & G2). cbn [mbind option_bind].
  eexists. split; [done|]. split; [|by split_and!].
  split; cbn [entry_pool a1in_list am_list ghost_pool a1out_list a1in_map am_map a1out_map]; try done.
  - by eapply (indexes_delete _ []).
  - rewrite !app_assoc in N |- *. cbn [map fst snd] in N. rewrite <- Permutation_middle in N. by apply list.NoDup_cons in N as [_ N].
  - cbn [length] in S. lia.
Qed.

Lemma maintain_a1out_spec fuel c xs ys gs : shape c xs ys gs -> (length gs <= fuel)%nat -> exists c',
  maintain_a1out_size fuel c = Some c' /\
  shape c' xs ys (drop (Z.to_nat (Z.of_nat (length gs) - a1out_size_limit c)) gs) /\ same_counts c c'.
Proof.
  revert c gs. induction fuel as [|fuel IH]; intros c gs H Hf.
  all: pose proof (two_length _ _ _ _ _ _ (sh_ghosts _ _ _ _ H)) as Hs; cbn [maintain_a1out_size]; unfold empty; rewrite Hs.
  { assert (gs = []) as -> by (destruct gs; [done|cbn in Hf; lia]). cbn [length Z.eqb negb]. rewrite andb_false_r, drop_nil.
    exists c. split_and!; [done|done|apply same_counts_refl]. }
  destruct (Z.ltb_spec (a1out_size_limit c) (Z.of_nat (length gs))) as [Hl|Hl]; cbn [andb].
  - destruct gs as [|[g [k z]] gs]; [rewrite drop_nil; exists c; split_and!; [done|done|apply same_counts_refl]|].
    destruct (Z.eqb_spec (Z.of_nat (length ((g, (k, z)) :: gs))) 0) as [E|_]; [cbn in E; lia|]. cbn [negb].
    destruct (drop_ghost_spec c xs ys g k z gs H) as (c1 & E1 & H1 & S1). rewrite E1. cbn [mbind option_bind].
    cbn [length] in *. destruct (IH c1 gs H1 ltac:(lia)) as (c2 & E2 & H2 & S2). exists c2.
    split; [done|]. split; [|by eapply same_counts_trans]. destruct S1 as (_ & _ & _ & _ & S1). rewrite S1 in H2.
    replace (Z.to_nat (Z.of_nat (S (length gs)) - a1out_size_limit c))
      with (S (Z.to_nat (Z.of_nat (length gs) - a1out_size_limit c))) by lia. exact H2.
  - exists c. replace (Z.to_nat (Z.of_nat (length gs) - a1out_size_limit c)) with O by lia.
    split_and!; [done|done|apply same_counts_refl].
Qed.

Lemma evict_am_spec c xs ys1 o k v ys2 gs : shape c xs (ys1 ++ (o, (k, v)) :: ys2) gs -> exists c',
  evict_am area_size o c = Some c' /\ shape c' xs (ys1 ++ ys2) gs /\ total c' = u64 (total c - get_item_size v) /\
  capacity c' = capacity c /\ a1in_current_size c' = a1in_current_size c /\
  a1in_size_limit c' = a1in_size_limit c /\ a1out_size_limit c' = a1out_size_limit c.
Proof.
  intros [T G I1 I2 I3 N S]. pose proof (keys_parts _ _ _ N) as (N1 & N2 & N3 & N4 & N5). apply two_swap in T.
  unfold evict_am. destruct (two_entry _ _ _ _ _ _ _ _ _ _ T) as (pr & nx & ->). cbn [mbind option_bind key].
  destruct (two_unlink _ _ _ _ _ _ _ _ _ T) as (l' & p1 & -> & T1 & Eo). cbn [mbind option_bind].
  destruct (two_free _ _ _ _ _ _ _ T1 Eo) as (p2 & -> & T2). cbn [mbind option_bind value].
  eexists. split; [done|]. split; [|by split_and!].
  split; cbn [entry_pool a1in_list am_list ghost_pool a1out_list a1in_map am_map a1out_map]; try done.
  - by apply two_swap.
  - by eapply indexes_delete.
  - rewrite keys_middle in N. cbn [app] in N. rewrite <- Permutation_middle in N. by apply list.NoDup_cons in N as [_ N].
  - rewrite ?length_app in *. cbn [length] in *. lia.
Qed.

Lemma shrink_spec fuel c xs pre ys gs : shape c xs (pre ++ ys) gs -> Forall (fun x => can_evict (val x) = false) pre ->
  weight val ys <= total c < 2 ^ 64 -> (length (pre ++ ys) <= fuel)%nat ->
  let '(out, stay) := evicts val (capacity c) (total c) ys in
  exists c', shrink area_size get_ref fuel c = Some c' /\ shape c' xs (pre ++ stay) gs /\ total c' = total c - weight val out /\
    a1in_current_size c' = a1in_current_size c /\
    capacity c' = capacity c /\ a1in_size_limit c' = a1in_size_limit c /\ a1out_size_limit c' = a1out_size_limit c.
Proof.
  revert fuel c pre. induction ys as [|[o [k v]] ys IH]; intros fuel c pre H Hp Ht Hf.
  all: pose proof (two_swap _ _ _ _ _ _ (sh_entries _ _ _ _ H)) as T; pose proof (two_length _ _ _ _ _ _ T) as Hs;
    pose proof (two_nonzero _ _ _ _ _ _ T) as H0; pose proof (tl_one _ _ _ _ _ _ T) as L.
  - cbn [evicts]. exists c. rewrite Z.sub_0_r. split; [|by split_and!].
    destruct fuel as [|fuel]; cbn [shrink]; unfold empty; rewrite Hs.
    + assert (pre ++ [] = []) as -> by (destruct (pre ++ []); [done|cbn in Hf; lia]). cbn [length]. by rewrite andb_false_r.
    + rewrite (li_head _ _ _ L). rewrite (victim_spec _ _ 0 pre []) by (done || apply L). cbn [mbind option_bind]. by destruct (_ && _).
  - cbn [evicts val snd]. destruct (Z.leb_spec (total c) (capacity c)) as [Hl|Hl].
    { exists c. rewrite Z.sub_0_r. split; [|by split_and!]. destruct fuel; cbn [shrink];
        (destruct (Z.ltb_spec (capacity c) (total c)); [lia|done]). }
    cbn [weight foldr val snd] in Ht. fold (weight val ys) in Ht. pose proof (item_nonneg v) as Hv.
    pose proof (weight_nonneg val ys) as Hw. destruct (can_evict v) eqn:Ev.
    + destruct (evict_am_spec c xs pre o k v ys gs H) as (c1 & E1 & H1 & Et & Ec & Ea & El1 & El2).
      rewrite wrap_small in Et by lia. rewrite length_app in Hf. cbn [length] in Hf. destruct fuel as [|fuel]; [lia|].
      specialize (IH fuel c1 pre H1 Hp ltac:(lia) ltac:(rewrite length_app; lia)). rewrite Ec, Et in IH.
      destruct (evicts val _ _ ys) as [out stay]. destruct IH as (c2 & E2 & H2 & Et2 & Ea2 & Ec2 & El3 & El4).
      exists c2. split; [|split_and!; [done| |congruence..]].
      * cbn [shrink]. unfold empty. rewrite Hs. destruct (Z.ltb_spec (capacity c) (total c)); [|lia].
        destruct (Z.eqb_spec (Z.of_nat (length (pre ++ (o, (k, v)) :: ys))) 0) as [E|_]; [rewrite length_app in E; cbn in E; lia|].
        cbn [negb andb]. rewrite (li_head _ _ _ L).
        rewrite (victim_spec _ _ 0 pre ((o, (k, v)) :: ys)) by (done || (rewrite length_app; cbn [length]; lia) || apply L).
        cbn [val snd]. rewrite Ev. cbn [mbind option_bind fst]. destruct (Z.eqb_spec o 0) as [->|_].
        { exfalso. apply H0. rewrite map_app. apply elem_of_app. right. left. }
        by rewrite E1.
      * rewrite Et2. cbn [weight foldr val snd]. fold (weight val out). lia.
    + change (pre ++ (o, (k, v)) :: ys) with (pre ++ [(o, (k, v))] ++ ys) in H, Hf. rewrite app_assoc in H, Hf.
      specialize (IH fuel c _ H ltac:(apply list.Forall_app; split; [done|by apply list.Forall_cons]) ltac:(lia) Hf).
      destruct (evicts val _ _ ys) as [out stay]. destruct IH as (c2 & E2 & H2 & R). exists c2.
      rewrite <- (app_assoc pre) in H2. split; [done|]. split; [exact H2|exact R].
Qed.

(** ** Pruning *)

(** The limits do not change. *)
Definition same_limits (c c' : cache) : Prop :=
  capacity c' = capacity c /\ a1in_size_limit c' = a1in_size_limit c /\ a1out_size_limit c' = a1out_size_limit c.

Lemma evicts_weight limit t (xs out stay : list (Z * (Z * page_ptr))) :
  evicts val limit t xs = (out, stay) -> weight val out + weight val stay = weight val xs.
Proof.
  intros E. pose proof (evicts_perm val limit t xs) as P. rewrite E in P. by rewrite <- (weight_perm val _ _ P), weight_app.
Qed.

Lemma maintain_a1in_spec fuel c xs ys gs : shape c xs ys gs -> counts c xs ys -> (length xs <= fuel)%nat ->
  let '(out, stay) := evicts val (a1in_size_limit c) (weight val xs) xs in
  exists c' gs', maintain_a1in_size area_size get_ref fuel c = Some c' /\ shape c' stay ys (gs ++ gs') /\ counts c' stay ys /\
    keys gs' = keys out /\ same_limits c c'.
Proof.
  intros H [C1 C2 C3] Hf. unfold maintain_a1in_size. rewrite C2.
  destruct (Z.leb_spec (weight val xs) (a1in_size_limit c)) as [Hl|Hl].
  - assert (evicts val (a1in_size_limit c) (weight val xs) xs = ([], xs)) as ->.
    { destruct xs as [|x xs]; [done|]. cbn [evicts]. destruct (Z.leb_spec (weight val (x :: xs)) (a1in_size_limit c)); [done|lia]. }
    exists c, []. rewrite app_nil_r. split_and!; [done|done|by split|done|by repeat split].
  - pose proof (sh_entries _ _ _ _ H) as T. pose proof (weight_nonneg val xs) as W1. pose proof (weight_nonneg val ys) as W2.
    pose proof (choose_spec fuel _ 0 xs (weight val xs) (total c) (weight val xs) c (li_seg _ _ _ (tl_one _ _ _ _ _ _ T)) eq_refl
      (two_nonzero _ _ _ _ _ _ T) Hf ltac:(lia) ltac:(lia) ltac:(lia)) as E.
    pose proof (evicts_weight (a1in_size_limit c) (weight val xs) xs) as Ew.
    rewrite (li_head _ _ _ (tl_one _ _ _ _ _ _ T)).
    pose proof (evict_all_spec (a1in_size_limit c) (weight val xs)) as V.
    destruct (evicts val _ _ xs) as [out stay] eqn:Ee. rewrite E. cbn [mbind option_bind]. specialize (Ew _ _ eq_refl).
    match goal with |- context [evict_all _ ?c0] => specialize (V c0 [] xs ys gs) end. rewrite Ee in V.
    destruct V as (c' & gs' & E' & H' & (S1 & S2 & S3 & S4 & S5) & K); [by destruct H; split|].
    exists c', gs'. rewrite E'. cbn [capacity total a1in_current_size a1in_size_limit a1out_size_limit] in *.
    split; [done|]. split; [exact H'|]. split; [pose proof (weight_nonneg val out); split; lia|]. by repeat split.
Qed.

Definition spec_of (xs ys : list (Z * (Z * page_ptr))) (gs : list (Z * (Z * Z))) : spec :=
  Spec (map snd xs) (map snd ys) (keys gs).

Lemma prune_refines fuel c xs ys gs : shape c xs ys gs -> counts c xs ys -> (length xs + length ys + length gs <= fuel)%nat ->
  exists c', prune area_size get_ref fuel c = Some c' /\ same_limits c c' /\
    represents c' (prune_spec (capacity c) (a1in_size_limit c) (a1out_size_limit c) (spec_of xs ys gs)).
Proof.
  intros H C Hf. unfold prune. pose proof (maintain_a1in_spec fuel c xs ys gs H C ltac:(lia)) as M.
  unfold prune_spec, spec_of. cbn [s_a1in s_am s_a1out]. rewrite !evicts_map, !weight_map.
  fold val. change (fun x : Z * (Z * page_ptr) => snd (snd x)) with val.
  pose proof (evicts_perm val (a1in_size_limit c) (weight val xs) xs) as P.
  destruct (evicts val _ _ xs) as [out stay]. destruct M as (c1 & gs1 & -> & H1 & C1 & K1 & (L1 & L2 & L3)).
  cbn [mbind option_bind]. apply Permutation_length in P. rewrite length_app in P.
  assert (length gs1 = length out) as Hg by (by rewrite <- (length_map (fun x => fst (snd x)) gs1), K1, length_map).
  destruct (maintain_a1out_spec fuel c1 stay ys _ H1) as (c2 & -> & H2 & (S1 & S2 & S3 & S4 & S5)); [rewrite length_app; lia|].
  cbn [mbind option_bind]. rewrite L3 in H2.
  pose proof (weight_nonneg val stay) as W1. pose proof (weight_nonneg val ys) as W2. destruct C1 as [CT CA CS].
  pose proof (shrink_spec fuel c2 stay [] ys _ H2 ltac:(constructor) ltac:(lia) ltac:(cbn [app]; lia)) as V.
  rewrite S1, L1, S2, CT in V. rewrite weight_map, evicts_map.
  change (fun x : Z * (Z * page_ptr) => snd (snd x)) with val.
  pose proof (evicts_weight (capacity c) (weight val stay + weight val ys) ys) as Ew.
  destruct (evicts val _ _ ys) as [out2 stay2]. specialize (Ew _ _ eq_refl).
  destruct V as (c3 & E3 & H3 & T3 & A3 & X1 & X2 & X3). exists c3. split; [exact E3|].
  pose proof (weight_nonneg val out2) as W3.
  split; [repeat split; congruence|]. eexists stay, stay2, _. split; [exact H3|]. split; [split; lia|].
  f_equal. rewrite <- skipn_map, map_app, K1. f_equal; [|by rewrite map_map].
  f_equal. by rewrite !length_app, !length_map, Hg.
Qed.

(** ** Reading and storing *)

Lemma fst_snd {V} (xs : list (Z * (Z * V))) : map fst (map snd xs) = keys xs.
Proof. by rewrite map_map. Qed.

(** A cached key in the plain sequence. *)
Lemma assoc_member {V} (xs1 xs2 : list (Z * (Z * V))) o k v : NoDup (keys (xs1 ++ (o, (k, v)) :: xs2)) ->
  assoc k (map snd (xs1 ++ (o, (k, v)) :: xs2)) = Some v /\
  without k (map snd (xs1 ++ (o, (k, v)) :: xs2)) = map snd (xs1 ++ xs2).
Proof. rewrite <- fst_snd, (map_app snd xs1), (map_app snd xs1). apply (assoc_split k v). Qed.

Lemma assoc_absent {V} (xs : list (Z * (Z * V))) k : k ∉ keys xs -> assoc k (map snd xs) = None.
Proof. rewrite <- fst_snd. apply assoc_none. Qed.

(** A hit in A1in moves the entry to the end of Am. *)
Lemma promote_spec c xs1 o k v xs2 ys gs : shape c (xs1 ++ (o, (k, v)) :: xs2) ys gs -> counts c (xs1 ++ (o, (k, v)) :: xs2) ys ->
  a1in_map c !! k = Some o -> exists c',
  get area_size k c = Some (Some v, c') /\ shape c' (xs1 ++ xs2) (ys ++ [(o, (k, v))]) gs /\
  counts c' (xs1 ++ xs2) (ys ++ [(o, (k, v))]) /\ same_limits c c'.
Proof.
  intros [T G I1 I2 I3 N S] [C1 C2 C3] E1. pose proof (keys_parts _ _ _ N) as (N1 & N2 & N3 & N4 & N5). unfold get. rewrite E1.
  destruct (two_entry _ _ _ _ _ _ _ _ _ _ T) as (pr & nx & ->). cbn [mbind option_bind]. unfold splice_back.
  destruct (two_unlink _ _ _ _ _ _ _ _ _ T) as (l' & p1 & -> & T1 & Eo). cbn [mbind option_bind].
  destruct (two_push _ _ _ _ _ _ _ (two_swap _ _ _ _ _ _ T1) Eo) as (l2' & p2 & -> & T2).
  { rewrite ?length_app in *. cbn [length] in *. lia. }
  cbn [mbind option_bind key value fst snd]. eexists. split; [done|].
  pose proof (keys_middle xs1 xs2 o k v) as Km. rewrite Km in N. assert (k ∉ keys ys) as Hk by (apply N4; rewrite Km; left).
  assert (weight val (xs1 ++ (o, (k, v)) :: xs2) = get_item_size v + weight val (xs1 ++ xs2)) as Ew.
  { rewrite !weight_app. cbn [weight foldr val snd]. fold (weight val xs2). lia. }
  pose proof (weight_nonneg val (xs1 ++ xs2)) as W1. pose proof (weight_nonneg val ys) as W2. pose proof (item_nonneg v) as Wv.
  split; [split|split; [split|by repeat split]];
    cbn [entry_pool a1in_list am_list ghost_pool a1out_list a1in_map am_map a1out_map total a1in_current_size]; try done.
  - by apply two_swap.
  - by eapply indexes_delete.
  - by apply indexes_insert.
  - rewrite keys_snoc. cbn [app] in N |- *. by rewrite <- Permutation_middle.
  - rewrite ?length_app in *. cbn [length] in *. lia.
  - rewrite weight_snoc. cbn [val snd]. lia.
  - rewrite C2, wrap_small by lia. lia.
  - rewrite weight_snoc. cbn [val snd]. lia.
Qed.

(** A hit in Am moves the entry to its end. *)
Lemma touch_spec c xs ys1 o k v ys2 gs : shape c xs (ys1 ++ (o, (k, v)) :: ys2) gs -> counts c xs (ys1 ++ (o, (k, v)) :: ys2) ->
  a1in_map c !! k = None -> am_map c !! k = Some o -> let ys' := (ys1 ++ ys2) ++ [(o, (k, v))] in exists c',
  get area_size k c = Some (Some v, c') /\ shape c' xs ys' gs /\ counts c' xs ys' /\ same_limits c c'.
Proof.
  intros [T G I1 I2 I3 N S] [C1 C2 C3] E1 E2 ys'. unfold get. rewrite E1, E2.
  destruct (two_move _ _ _ _ _ _ _ _ _ (two_swap _ _ _ _ _ _ T)) as (l' & p' & -> & T'). cbn [mbind option_bind].
  destruct (two_entry _ _ _ _ _ _ _ _ _ _ T') as (pr & nx & ->). cbn [mbind option_bind value fst snd].
  assert (ys' ≡ₚ ys1 ++ (o, (k, v)) :: ys2) as Pm.
  { unfold ys'. rewrite <- (Permutation_middle ys1 ys2). by rewrite (Permutation_app_comm (ys1 ++ ys2)). }
  eexists. split; [done|]. split; [split|split; [split|by repeat split]];
    cbn [entry_pool a1in_list am_list ghost_pool a1out_list a1in_map am_map a1out_map total a1in_current_size]; try done.
  - by apply two_swap.
  - intros k' o'. rewrite (I2 k' o'). by setoid_rewrite Pm.
  - by rewrite Pm.
  - by rewrite Pm.
  - by rewrite (weight_perm val _ _ Pm).
  - by rewrite (weight_perm val _ _ Pm).
Qed.

Lemma represents_get c s k : represents c s -> exists c', get area_size k c = Some (fst (get_spec k s), c') /\
  represents c' (snd (get_spec k s)) /\ same_limits c c'.
Proof.
  intros (xs & ys & gs & H & C & ->). pose proof (keys_parts _ _ _ (sh_keys _ _ _ _ H)) as (N1 & N2 & _).
  unfold get_spec. cbn [s_a1in s_am s_a1out]. destruct (a1in_map c !! k) as [o|] eqn:E1.
  - destruct (indexes_some _ _ _ _ (sh_a1in _ _ _ _ H) E1) as (xs1 & v & xs2 & ->).
    destruct (assoc_member xs1 xs2 o k v N1) as [-> ->]. destruct (promote_spec c xs1 o k v xs2 ys gs H C E1) as (c' & E & H' & C' & L).
    exists c'. split; [done|]. split; [|done]. eexists _, _, gs. split; [exact H'|]. split; [exact C'|]. cbn [snd]. by rewrite (map_app snd ys).
  - rewrite (assoc_absent xs k) by by apply (indexes_none _ _ _ (sh_a1in _ _ _ _ H)). destruct (am_map c !! k) as [o|] eqn:E2.
    + destruct (indexes_some _ _ _ _ (sh_am _ _ _ _ H) E2) as (ys1 & v & ys2 & ->).
      destruct (assoc_member ys1 ys2 o k v N2) as [-> ->]. destruct (touch_spec c xs ys1 o k v ys2 gs H C E1 E2) as (c' & E & H' & C' & L).
      exists c'. split; [done|]. split; [|done]. eexists xs, _, gs. split; [exact H'|]. split; [exact C'|]. cbn [snd].
      by rewrite (map_app snd (ys1 ++ ys2)).
    + rewrite (assoc_absent ys k) by by apply (indexes_none _ _ _ (sh_am _ _ _ _ H)). exists c. unfold get. rewrite E1, E2.
      split; [done|]. split; [|by repeat split]. by exists xs, ys, gs.
Qed.

Lemma filter_keys (gs1 gs2 : list (Z * (Z * Z))) g k z : NoDup (keys (gs1 ++ (g, (k, z)) :: gs2)) ->
  filter (fun x => x <> k) (keys (gs1 ++ (g, (k, z)) :: gs2)) = keys (gs1 ++ gs2).
Proof.
  intros N. rewrite !map_app in *. cbn [map fst snd] in *. rewrite <- Permutation_middle in N. apply list.NoDup_cons in N as [N _].
  assert (forall l : list Z, k ∉ l -> filter (fun x => x <> k) l = l) as F.
  { intros l. induction l as [|x l IH]; intros Hl; [done|]. apply not_elem_of_cons in Hl as [Hx Hl].
    by rewrite filter_cons_True, IH by congruence. }
  rewrite list.filter_app, filter_cons_False by (intros H; by apply H).
  rewrite !F; [done|intros H; apply N, elem_of_app; by right|intros H; apply N, elem_of_app; by left].
Qed.

(** Where a new key goes. *)
Lemma place_spec c xs ys gs k v : shape c xs ys gs -> counts c xs ys -> k ∉ keys xs -> k ∉ keys ys ->
  get_item_size v + total c < 2 ^ 64 -> Z.of_nat (length xs + length ys + length gs) < 2 ^ 64 - 3 ->
  exists c' xs' ys' gs', place area_size k v c = Some c' /\ shape c' xs' ys' gs' /\ counts c' xs' ys' /\ same_limits c c' /\
    (length xs' + length ys' + length gs' <= S (length xs + length ys + length gs))%nat /\
    spec_of xs' ys' gs' =
      if bool_decide (k ∈ keys gs) then Spec (map snd xs) (map snd ys ++ [(k, v)]) (filter (fun g => g <> k) (keys gs))
      else Spec (map snd xs ++ [(k, v)]) (map snd ys) (keys gs).
Proof.
  intros [T G I1 I2 I3 N S] [C1 C2 C3] Hx Hy Hw Hl. pose proof (keys_parts _ _ _ N) as (N1 & N2 & N3 & N4 & N5).
  pose proof (weight_nonneg val xs) as W1. pose proof (weight_nonneg val ys) as W2. pose proof (item_nonneg v) as Wv.
  unfold place. destruct (two_alloc _ _ _ _ _ k v T) as (o & p1 & E1 & T1 & Eo).
  destruct (a1out_map c !! k) as [g|] eqn:Eg.
  - destruct (indexes_some _ _ _ _ I3 Eg) as (gs1 & z & gs2 & ->).
    rewrite bool_decide_true by (rewrite map_app; apply elem_of_app; right; left).
    destruct (two_unlink _ _ _ _ _ _ _ _ _ G) as (gl & gp1 & -> & G1 & Ego). cbn [mbind option_bind].
    destruct (two_free _ _ _ _ _ _ _ G1 Ego) as (gp2 & -> & G2). cbn [mbind option_bind]. rewrite E1. cbn [mbind option_bind].
    destruct (two_push _ _ _ _ _ _ _ (two_swap _ _ _ _ _ _ T1) Eo) as (l' & p2 & -> & T2); [lia|]. cbn [mbind option_bind].
    cbn [key value] in T2.
    eexists _, xs, (ys ++ [(o, (k, v))]), (gs1 ++ gs2). split; [done|]. split; [split|split; [split|split; [by repeat split|split]]];
      cbn [entry_pool a1in_list am_list ghost_pool a1out_list a1in_map am_map a1out_map total a1in_current_size]; try done.
    + by apply two_swap.
    + by apply indexes_insert.
    + by eapply indexes_delete.
    + rewrite keys_snoc. rewrite (keys_middle gs1) in N. cbn [app]. by rewrite (Permutation_middle (keys ys)).
    + rewrite ?length_app in *. cbn [length] in *. lia.
    + rewrite weight_snoc, wrap_small by lia. cbn [val snd]. lia.
    + rewrite weight_snoc. cbn [val snd]. lia.
    + rewrite ?length_app. cbn [length]. lia.
    + unfold spec_of. by rewrite filter_keys, (map_app snd ys).
  - assert (k ∉ keys gs) as Hg by by apply (indexes_none _ _ _ I3). rewrite bool_decide_false by done.
    rewrite E1. cbn [mbind option_bind].
    destruct (two_push _ _ _ _ _ _ _ T1 Eo) as (l' & p2 & -> & T2); [lia|]. cbn [mbind option_bind]. cbn [key value] in T2.
    eexists _, (xs ++ [(o, (k, v))]), ys, gs. split; [done|]. split; [split|split; [split|split; [by repeat split|split]]];
      cbn [entry_pool a1in_list am_list ghost_pool a1out_list a1in_map am_map a1out_map total a1in_current_size]; try done.
    + by apply indexes_insert.
    + rewrite keys_snoc. cbn [app]. apply list.NoDup_cons. split; [|done]. by intros [?|[?|?]%elem_of_app]%elem_of_app.
    + rewrite ?length_app. cbn [length]. lia.
    + rewrite weight_snoc, wrap_small by lia. cbn [val snd]. lia.
    + rewrite weight_snoc, wrap_small by lia. cbn [val snd]. lia.
    + rewrite weight_snoc. cbn [val snd]. lia.
    + rewrite ?length_app. cbn [length]. lia.
    + unfold spec_of. by rewrite (map_app snd xs).
Qed.

(** The number of entries and ghosts. *)
Definition entries (s : spec) : nat := length (s_a1in s) + length (s_am s) + length (s_a1out s).

Lemma represents_put fuel c s k v : represents c s -> (S (entries s) <= fuel)%nat ->
  get_item_size v + total c < 2 ^ 64 -> Z.of_nat (entries s) < 2 ^ 64 - 3 ->
  exists c', put area_size get_ref fuel k v c = Some c' /\ same_limits c c' /\
    represents c' (put_spec (capacity c) (a1in_size_limit c) (a1out_size_limit c) k v s).
Proof.
  intros (xs & ys & gs & H & C & ->) Hf Hw Hl. unfold entries in Hf, Hl. cbn [s_a1in s_am s_a1out] in Hf, Hl. rewrite !length_map in Hf, Hl.
  pose proof (keys_parts _ _ _ (sh_keys _ _ _ _ H)) as (N1 & N2 & _). unfold put, put_spec. cbn [s_a1in s_am s_a1out].
  destruct (a1in_map c !! k) as [o|] eqn:E1.
  { destruct (indexes_some _ _ _ _ (sh_a1in _ _ _ _ H) E1) as (xs1 & v' & xs2 & ->). destruct (assoc_member xs1 xs2 o k v' N1) as [-> _].
    exists c. split; [done|]. split; [by repeat split|]. by eexists _, ys, gs. }
  rewrite (assoc_absent xs k) by by apply (indexes_none _ _ _ (sh_a1in _ _ _ _ H)).
  destruct (am_map c !! k) as [o|] eqn:E2.
  { destruct (indexes_some _ _ _ _ (sh_am _ _ _ _ H) E2) as (ys1 & v' & ys2 & ->). destruct (assoc_member ys1 ys2 o k v' N2) as [-> _].
    exists c. split; [done|]. split; [by repeat split|]. by eexists xs, _, gs. }
  rewrite (assoc_absent ys k) by by apply (indexes_none _ _ _ (sh_am _ _ _ _ H)).
  destruct (place_spec c xs ys gs k v H C) as (c1 & xs1 & ys1 & gs1 & -> & H1 & C1 & (L1 & L2 & L3) & Hlen & Es).
  { by apply (indexes_none _ _ _ (sh_a1in _ _ _ _ H)). } { by apply (indexes_none _ _ _ (sh_am _ _ _ _ H)). } { done. } { lia. }
  cbn [mbind option_bind].
  destruct (prune_refines fuel c1 xs1 ys1 gs1 H1 C1 ltac:(lia)) as (c2 & E & (M1 & M2 & M3) & R). exists c2.
  split; [done|]. split; [repeat split; congruence|]. rewrite L1, L2, L3, Es in R. exact R.
Qed.

Lemma cache_init_ok cap a1in_limit a1out_items : represents (cache_init cap a1in_limit a1out_items) (Spec [] [] []).
Proof.
  exists [], [], []. split; [|split; [by split|done]].
  split; [apply one_list; [apply pool_init_ok|by split|done]..| | | |constructor|done];
    intros k o; (split; [done|by intros (v & ?%elem_of_nil)]).
Qed.

(** Pruning meets the limits, unless what is left cannot be evicted. *)
Definition within (capacity a1in_limit a1out_limit : Z) (s : spec) : Prop :=
  (weight snd (s_a1in s) + weight snd (s_am s) <= capacity \/ Forall (fun x => can_evict (snd x) = false) (s_am s)) /\
  (weight snd (s_a1in s) <= a1in_limit \/ Forall (fun x => can_evict (snd x) = false) (s_a1in s)) /\
  Z.of_nat (length (s_a1out s)) <= a1out_limit.

Lemma prune_within cap a1in_limit a1out_limit s : 0 <= a1out_limit ->
  within cap a1in_limit a1out_limit (prune_spec cap a1in_limit a1out_limit s).
Proof.
  intros Hl. unfold prune_spec.
  pose proof (evicts_limit snd a1in_limit (weight snd (s_a1in s)) (s_a1in s)) as L1.
  pose proof (evicts_perm snd a1in_limit (weight snd (s_a1in s)) (s_a1in s)) as P1.
  destruct (evicts snd _ _ (s_a1in s)) as [out1 stay1].
  pose proof (evicts_limit snd cap (weight snd stay1 + weight snd (s_am s)) (s_am s)) as L2.
  pose proof (evicts_perm snd cap (weight snd stay1 + weight snd (s_am s)) (s_am s)) as P2.
  destruct (evicts snd _ _ (s_am s)) as [out2 stay2].
  apply (weight_perm snd) in P1, P2. rewrite weight_app in P1, P2.
  split_and!; cbn [s_a1in s_am s_a1out].
  - destruct L2; [left; lia|by right].
  - destruct L1; [left; lia|by right].
  - rewrite length_drop. lia.
Qed.

(** The entries that cannot be evicted stay. *)
Lemma prune_keeps cap a1in_limit a1out_limit s x : can_evict (snd x) = false -> x ∈ s_a1in s ++ s_am s ->
  let s' := prune_spec cap a1in_limit a1out_limit s in x ∈ s_a1in s' ++ s_am s'.
Proof.
  intros Hx Hin. unfold prune_spec.
  pose proof (evicts_evictable snd a1in_limit (weight snd (s_a1in s)) (s_a1in s)) as L1.
  pose proof (evicts_perm snd a1in_limit (weight snd (s_a1in s)) (s_a1in s)) as P1.
  destruct (evicts snd _ _ (s_a1in s)) as [out1 stay1].
  pose proof (evicts_evictable snd cap (weight snd stay1 + weight snd (s_am s)) (s_am s)) as L2.
  pose proof (evicts_perm snd cap (weight snd stay1 + weight snd (s_am s)) (s_am s)) as P2.
  destruct (evicts snd _ _ (s_am s)) as [out2 stay2]. cbn [s_a1in s_am].
  rewrite elem_of_app in Hin. rewrite <- P1, <- P2, !elem_of_app in Hin. rewrite elem_of_app.
  rewrite list.Forall_forall in L1, L2. destruct Hin as [[H|H]|[H|H]]; [|by left| |by right].
  - apply L1 in H. congruence.
  - apply L2 in H. congruence.
Qed.

(** ** The claims *)

(** C13: Reading a key gives its value exactly when it is cached; an entry of the
    short-term queue moves to the long-term one, an entry of that to its end. *)
Theorem get_refines c s k : represents c s -> exists c', get area_size k c = Some (fst (get_spec k s), c') /\
  represents c' (snd (get_spec k s)) /\ same_limits c c'.
Proof. exact (represents_get c s k). Qed.

(** C35: Storing a key follows the algorithm: a ghost goes to the long-term queue, a new
    key to the short-term one, and the cache is pruned. No freed entry is accessed and
    no loop runs longer than there are entries. *)
Theorem put_refines fuel c s k v : represents c s -> (S (entries s) <= fuel)%nat ->
  get_item_size v + total c < 2 ^ 64 -> Z.of_nat (entries s) < 2 ^ 64 - 3 ->
  exists c', put area_size get_ref fuel k v c = Some c' /\ same_limits c c' /\
    represents c' (put_spec (capacity c) (a1in_size_limit c) (a1out_size_limit c) k v s).
Proof. exact (represents_put fuel c s k v). Qed.

(** C36: After a new key is stored the cache is within its limits as far as its entries
    can be evicted, and no entry that is in use elsewhere was evicted. *)
Theorem put_within_limits fuel c s k v c' : represents c s -> (S (entries s) <= fuel)%nat ->
  get_item_size v + total c < 2 ^ 64 -> Z.of_nat (entries s) < 2 ^ 64 - 3 -> 0 <= a1out_size_limit c ->
  assoc k (s_a1in s) = None -> assoc k (s_am s) = None -> put area_size get_ref fuel k v c = Some c' ->
  exists s', represents c' s' /\ within (capacity c) (a1in_size_limit c) (a1out_size_limit c) s' /\
    forall x, can_evict (snd x) = false -> x ∈ (k, v) :: s_a1in s ++ s_am s -> x ∈ s_a1in s' ++ s_am s'.
Proof.
  intros R Hf Hw Hl Ho A1 A2 E. destruct (represents_put fuel c s k v R Hf Hw Hl) as (c2 & E2 & _ & R2).
  assert (c2 = c') as -> by congruence. eexists. split; [exact R2|]. unfold put_spec. rewrite A1, A2.
  split; [by apply prune_within|]. intros x Hx Hin. apply prune_keeps; [done|].
  assert (x = (k, v) \/ x ∈ s_a1in s \/ x ∈ s_am s) as Hin' by (apply list.elem_of_cons in Hin as [|[?|?]%elem_of_app]; auto).
  destruct (bool_decide _); cbn [s_a1in s_am]; rewrite !elem_of_app, ?list_elem_of_singleton; tauto.
Qed.

End cache.

(** ** A small cache: areas of 100 bytes, of which area 7 is in use elsewhere *)

Definition sample_area_size (a : Z) : Z := 100.
Definition sample_get_ref (a : Z) : Z := if a =? 7 then 2 else 1.
Definition sample_cache : cache := cache_init 250 50 4.
Definition sample_page (a : Z) : page_ptr := PagePtr true (Some a).

Lemma sample_size_nonneg a : 0 <= sample_area_size a.
Proof. done. Qed.

Lemma put_refines_witness : exists c', put sample_area_size sample_get_ref 8 5 (sample_page 7) sample_cache = Some c' /\
  represents sample_area_size c' (Spec [(5, sample_page 7)] [] []).
Proof.
  destruct (put_refines sample_area_size sample_get_ref sample_size_nonneg 8 sample_cache _ 5 (sample_page 7)
    (cache_init_ok sample_area_size 250 50 4)) as (c' & E & _ & R).
  - cbn. lia.
  - done.
  - done.
  - exists c'. split; [exact E|exact R].
Defined.

Lemma sample_filled : exists c, represents sample_area_size c (Spec [(5, sample_page 7)] [] []) /\ total c = 100 /\
  a1out_size_limit c = 4.
Proof.
  destruct (represents_put sample_area_size sample_get_ref sample_size_nonneg 8 sample_cache _ 5 (sample_page 7)
    (cache_init_ok sample_area_size 250 50 4)) as (c' & E & (_ & _ & L) & R); [cbn; lia|done..|].
  exists c'. split; [exact R|]. split; [|exact L]. destruct R as (xs & ys & gs & _ & [C _ _] & Es).
  injection Es as E1 E2 _. destruct ys; [|discriminate E2]. destruct xs as [|[o kv] [|? ?]]; [discriminate E1| |discriminate E1].
  injection E1 as E1. rewrite C. cbn. by rewrite <- E1.
Qed.

Lemma get_refines_witness : exists c c', get sample_area_size 5 c = Some (Some (sample_page 7), c') /\
  represents sample_area_size c' (Spec [] [(5, sample_page 7)] []).
Proof.
  destruct sample_filled as (c & R & _). destruct (get_refines sample_area_size sample_size_nonneg c _ 5 R) as (c' & E & R' & _).
  exists c, c'. split; [exact E|exact R'].
Defined.

(** The page in use stays, although the limit of the short-term queue is exceeded. *)
Lemma put_within_limits_witness : exists c c' s', put sample_area_size sample_get_ref 8 6 (sample_page 8) c = Some c' /\
  represents sample_area_size c' s' /\ (5, sample_page 7) ∈ s_a1in s' ++ s_am s'.
Proof.
  destruct sample_filled as (c & R & T & L).
  destruct (represents_put sample_area_size sample_get_ref sample_size_nonneg 8 c _ 6 (sample_page 8) R) as (c' & E & _ & _);
    [cbn; lia|by rewrite T|done|].
  destruct (put_within_limits sample_area_size sample_get_ref sample_size_nonneg 8 c _ 6 (sample_page 8) c' R) as (s' & R' & _ & K);
    [cbn; lia|by rewrite T|done|by rewrite L|done|done|exact E|].
  exists c, c', s'. split; [exact E|]. split; [exact R'|]. apply K; [done|]. right. left.
Defined.

End twoqfacts.
