(* ===== verification/Db.v ===== *)
(** * Db: transactions

    Models [db/_db.hpp]: the header of a database, the chain of its transactions
    and the operations that start, prepare, commit and roll back a write
    transaction, repair a database and sanitize one after a crash.

    A transaction lives in a page of the database and carries the state of the page
    allocator ([Memory]); the memory of freed pages is shared. Areas come from the
    storage ([Storage]) and are chained in the order they were allocated. The lock
    of the write transaction is a flag: where the code waits for it, an operation of
    the model answers that it cannot start. A failed assertion or a null page is
    [NullPage]. *)
From S2P Require Import Prelude Util Serial Memory Area AreaFacts Storage Wal.

Module db.
Import memory.

(** ** State *)

(** [_MemManager] *)
Record manager := Manager {
  slots : Z -> memory.slot;
  left_over_start : Z;
  left_over_end : Z;
  allocation_start : Z;
  allocation_end : Z
}.

(** [_Bigmem]: the free chunks of big values. *)
Record bigmem := Bigmem { big_root : Z; hot_offset : Z; hot_size : Z; hot_successor : bool }.

Definition bigmem_init : bigmem := Bigmem 0 0 0 false.

(** [_TransactionBase] *)
Record txn := Txn {
  txn_id : Z;
  root : Z;
  offset_root : Z;
  big : bigmem;
  start_txn : Z;
  next_txn : Z;
  refs : Z;
  area_list_tail_single : Z;
  area_list_tail_multi : Z;
  mem_manager : manager
}.

(** [_DBHeader]; [txn_lock]: the lock is held. *)
Record header := Header {
  read_txn : Z;
  prepared_txn : Z;
  next_txn_page : Z;
  txn_lock : bool;
  txn_cursor_id : Z;
  area_list_head_single : Z;
  area_list_head_multi : Z
}.

(** The memory of pages, by kind: containers of freed pages, page headers. *)
Record pages := Pages {
  cnext : Z -> Z;
  cblock : Z -> Z -> memory.item;
  slot_id : Z -> Z;
  page_txn : Z -> Z
}.

(** [_DB]: [active] is [_active_txn] (0: none). *)
Record db := Db {
  hd : header;
  txns : Z -> txn;
  pgs : pages;
  disk : storage.store;
  active : Z;
  start_txn_id : Z;
  direct_write : bool
}.

(** ** Field updates *)

Definition set_hd (h : header) (d : db) : db :=
  Db h (txns d) (pgs d) (disk d) (active d) (start_txn_id d) (direct_write d).
Definition put_txn (o : Z) (t : txn) (d : db) : db :=
  Db (hd d) (upd (txns d) o t) (pgs d) (disk d) (active d) (start_txn_id d) (direct_write d).
Definition set_pgs (p : pages) (d : db) : db :=
  Db (hd d) (txns d) p (disk d) (active d) (start_txn_id d) (direct_write d).
Definition set_disk (s : storage.store) (d : db) : db :=
  Db (hd d) (txns d) (pgs d) s (active d) (start_txn_id d) (direct_write d).
Definition set_active (a : Z) (d : db) : db :=
  Db (hd d) (txns d) (pgs d) (disk d) a (start_txn_id d) (direct_write d).
Definition set_start_id (i : Z) (d : db) : db :=
  Db (hd d) (txns d) (pgs d) (disk d) (active d) i (direct_write d).
Definition set_direct (b : bool) (d : db) : db :=
  Db (hd d) (txns d) (pgs d) (disk d) (active d) (start_txn_id d) b.

Definition set_read (o : Z) (h : header) : header :=
  Header o (prepared_txn h) (next_txn_page h) (txn_lock h) (txn_cursor_id h) (area_list_head_single h) (area_list_head_multi h).
Definition set_prepared (o : Z) (h : header) : header :=
  Header (read_txn h) o (next_txn_page h) (txn_lock h) (txn_cursor_id h) (area_list_head_single h) (area_list_head_multi h).
Definition set_next_page (o : Z) (h : header) : header :=
  Header (read_txn h) (prepared_txn h) o (txn_lock h) (txn_cursor_id h) (area_list_head_single h) (area_list_head_multi h).
Definition set_lock (b : bool) (c : Z) (h : header) : header :=
  Header (read_txn h) (prepared_txn h) (next_txn_page h) b c (area_list_head_single h) (area_list_head_multi h).
Definition set_head_multi (o : Z) (h : header) : header :=
  Header (read_txn h) (prepared_txn h) (next_txn_page h) (txn_lock h) (txn_cursor_id h) (area_list_head_single h) o.

Definition set_id_next (i n : Z) (t : txn) : txn :=
  Txn i (root t) (offset_root t) (big t) (start_txn t) n (refs t) (area_list_tail_single t) (area_list_tail_multi t) (mem_manager t).
Definition set_next (n : Z) (t : txn) : txn := set_id_next (txn_id t) n t.
Definition set_start (s : Z) (t : txn) : txn :=
  Txn (txn_id t) (root t) (offset_root t) (big t) s (next_txn t) (refs t) (area_list_tail_single t) (area_list_tail_multi t) (mem_manager t).
Definition set_refs (r : Z) (t : txn) : txn :=
  Txn (txn_id t) (root t) (offset_root t) (big t) (start_txn t) (next_txn t) r (area_list_tail_single t) (area_list_tail_multi t) (mem_manager t).
Definition set_tails (s m : Z) (t : txn) : txn :=
  Txn (txn_id t) (root t) (offset_root t) (big t) (start_txn t) (next_txn t) (refs t) s m (mem_manager t).
Definition set_manager (m : manager) (t : txn) : txn :=
  Txn (txn_id t) (root t) (offset_root t) (big t) (start_txn t) (next_txn t) (refs t) (area_list_tail_single t) (area_list_tail_multi t) m.
Definition set_root (r : Z) (t : txn) : txn :=
  Txn (txn_id t) r (offset_root t) (big t) (start_txn t) (next_txn t) (refs t) (area_list_tail_single t) (area_list_tail_multi t) (mem_manager t).

(** [refs.fetch_add(n)] *)
Definition add_refs (o n : Z) (d : db) : db := put_txn o (set_refs (refs (txns d o) + n) (txns d o)) d.

(** [tid_t]: the order and the next id. *)
Definition older (a b : Z) : bool := serial.ltb 32 (serial.Serial a) (serial.Serial b).
Definition successor (a : Z) : Z := serial.value (serial.add 32 (serial.Serial a) 1).

Section with_traits.
(** The capacity of a container, its size class, the page sizes, the size class of
    a transaction, the size of an area and of its header, and the fuel of the
    allocator and of the walks along the chain of transactions. *)
Context (COUNT SLOT_ID : Z) (PAGE_SIZES : Z -> Z) (TXN_SLOT AREA_SIZE AREA_HEADER : Z) (fuel : nat).

(** ** Areas *)

(** [alloc_single_area]: the area the storage gave is appended to the chain of the
    active transaction. *)
Definition append_single (a : Z) (d : db) : db :=
  let t := txns d (active d) in
  let m := area.set_next (storage.mem (disk d)) (area_list_tail_single t) a in
  let s := disk d in
  put_txn (active d) (set_tails a (area_list_tail_multi t) t)
    (set_disk (storage.Store m (storage.area_pool s) (storage.file_size s) (storage.region_size s)) d).

Definition alloc_multi_area (size : Z) (d : db) : outcome (Z * db) :=
  match storage.alloc_multi_area AREA_SIZE size (disk d) with
  | storage.StorageFull _ _ => NullPage
  | storage.Got (a, s) =>
      let d := set_disk s d in
      let t := txns d (active d) in
      let d :=
        if negb (area_list_tail_multi t =? 0) then
          let m := area.set_next (storage.mem s) (area_list_tail_multi t) a in
          set_disk (storage.Store m (storage.area_pool s) (storage.file_size s) (storage.region_size s)) d
        else set_hd (set_head_multi a (hd d)) d in
      Ok (a, put_txn (active d) (set_tails (area_list_tail_single t) a t) d)
  end.

(** The areas the storage hands out one after the other. *)
Fixpoint supply (n : nat) (s : storage.store) : list (Z * storage.store) :=
  match n with
  | O => []
  | S n =>
      match storage.alloc_single_area AREA_SIZE s with
      | storage.Got (a, s') => (a, s') :: supply n s'
      | storage.StorageFull _ _ => []
      end
  end.

Definition space (x : Z * storage.store) : Z * Z :=
  let h := storage.mem (snd x) (fst x) in (area.content_offset AREA_HEADER h, area.end_ h).

(** ** Pages *)

(** The state of the allocator: the manager of the active transaction and the
    memory of the pages. *)
Definition to_state (sup : list (Z * storage.store)) (d : db) : memory.state :=
  let m := mem_manager (txns d (active d)) in
  memory.State (slots m) (left_over_start m) (left_over_end m) (allocation_start m) (allocation_end m)
    (cnext (pgs d)) (cblock (pgs d)) (slot_id (pgs d)) (map space sup).

Definition from_state (sup : list (Z * storage.store)) (st : memory.state) (d : db) : db :=
  let used := take (length sup - length (memory.areas st)) sup in
  let d := set_disk (match list.last used with Some (_, s) => s | None => disk d end) d in
  let d := fold_left (fun d x => append_single (fst x) d) used d in
  let m := Manager (memory.slots st) (memory.left_over_start st) (memory.left_over_end st)
    (memory.allocation_start st) (memory.allocation_end st) in
  set_pgs (Pages (memory.cnext st) (memory.cblock st) (memory.slot_id st) (page_txn (pgs d)))
    (put_txn (active d) (set_manager m (txns d (active d))) d).

(** [may_recycle] and the stamp of [mark_for_recycle]. *)
Definition may_recycle (d : db) (id : Z) : bool := older id (start_txn_id d).
Definition stamp (d : db) : Z := txn_id (txns d (active d)).

(** [_Transaction::alloc_slot] of the active transaction. *)
Definition alloc_slot (s : Z) (d : db) : outcome (Z * db) :=
  let sup := supply fuel (disk d) in
  '(r, st) ← memory.alloc_f COUNT SLOT_ID PAGE_SIZES (may_recycle d) (stamp d) fuel s (to_state sup d);
  match r with
  | None => NullPage
  | Some p =>
      let d := from_state sup st d in
      let g := pgs d in
      Ok (p, set_pgs (Pages (cnext g) (cblock g) (slot_id g) (upd (page_txn g) p (stamp d))) d)
  end.

(** [_DB::free] *)
Definition free (p : Z) (d : db) : outcome db :=
  let sup := supply fuel (disk d) in
  st ← memory.free_f COUNT SLOT_ID PAGE_SIZES (may_recycle d) (stamp d) fuel p (to_state sup d);
  Ok (from_state sup st d).

(** [_Transaction::clone] of the active transaction. *)
Definition clone (d : db) : outcome (Z * db) :=
  '(p, d) ← alloc_slot TXN_SLOT d; Ok (p, put_txn p (set_refs 0 (txns d (active d))) d).

(** ** Walking along the transactions *)

(** The loop of [iter_transactions]: the callback may change the database; its
    result [true] ends the walk. The link to the next transaction is read after
    the callback. *)
Fixpoint walk (caller : Z -> db -> outcome (bool * db)) (n : nat) (end_ : Z) (o : Z) (d : db) : outcome db :=
  match n with
  | O => NoFuel
  | S n =>
      '(stop, d) ← caller o d;
      if (stop : bool) then Ok d
      else if older (txn_id (txns d o)) end_ then walk caller n end_ (next_txn (txns d o)) d
      else Ok d
  end.

Definition iter_transactions (caller : Z -> db -> outcome (bool * db)) (d : db) : outcome db :=
  let t := txns d (read_txn (hd d)) in walk caller fuel (txn_id t) (start_txn t) d.

(** [txn_ref] and [txn_ref_at]: the transaction and its pin. *)
Definition txn_ref (d : db) : Z * db := (read_txn (hd d), add_refs (read_txn (hd d)) 1 d).

Definition txn_ref_at (o : Z) (d : db) : Z * db := if o =? 0 then (0, d) else (o, add_refs o 1 d).

Definition transaction_active (d : db) : Z :=
  if active d =? 0 then 0 else txn_id (txns d (active d)).

(** [is_active]: a write transaction or a reader. *)
Fixpoint any_ref (n : nat) (end_ o : Z) (d : db) : option bool :=
  match n with
  | O => None
  | S n =>
      if 0 <? refs (txns d o) then Some true
      else if older (txn_id (txns d o)) end_ then any_ref n end_ (next_txn (txns d o)) d
      else Some false
  end.

Definition is_active (d : db) : option bool :=
  if negb (active d =? 0) then Some true
  else any_ref fuel (txn_id (txns d (read_txn (hd d)))) (start_txn (txns d (read_txn (hd d)))) d.

(** ** The life of a write transaction *)

(** The callback of [start_transaction]: the oldest transaction in use starts the
    chain of the new one, those before it are freed. *)
Definition collect (o : Z) (d : db) : outcome (bool * db) :=
  if 0 <? refs (txns d o) then
    let a := active d in
    Ok (true, set_start_id (txn_id (txns d o)) (put_txn a (set_start o (txns d a)) d))
  else d ← free o d; Ok (false, d).

(** [start_transaction]: [None] where the lock is held. *)
Definition start_transaction (cursor_id : Z) (d : db) : outcome (option db) :=
  if txn_lock (hd d) then Ok None
  else
    let last := read_txn (hd d) in
    let page := next_txn_page (hd d) in
    if page =? 0 then NullPage
    else
      let d := set_direct false (set_hd (set_next_page 0 (set_lock true cursor_id (hd d))) d) in
      let d := put_txn page (set_id_next (successor (txn_id (txns d last))) 0 (txns d page)) (set_active page d) in
      let d := add_refs last 1 d in
      let d := set_start_id (txn_id (txns d last)) d in
      d ← iter_transactions collect d;
      Ok (Some (add_refs last (-1) d)).

Definition end_transaction (d : db) : db :=
  set_active 0 (set_direct false (set_hd (set_lock false 0 (hd d)) d)).

(** [return_areas_range] for the single and for the multi areas: those behind
    [start] up to [end_] go back to the storage. *)
Definition return_single_range (start end_ : Z) (d : db) : db :=
  if negb (start =? 0) && negb (end_ =? 0) && negb (start =? end_) then
    let s := storage.return_single_areas (area.next (storage.mem (disk d) start)) end_ (disk d) in
    set_disk (storage.Store (area.set_next (storage.mem s) start 0) (storage.area_pool s)
      (storage.file_size s) (storage.region_size s)) d
  else d.

Definition return_multi_range (start end_ : Z) (d : db) : db :=
  if negb (end_ =? 0) && negb (start =? end_) then
    if start =? 0 then
      set_hd (set_head_multi 0 (hd d))
        (set_disk (storage.return_multi_areas (area_list_head_multi (hd d)) end_ (disk d)) d)
    else
      let s := storage.return_multi_areas (area.next (storage.mem (disk d) start)) end_ (disk d) in
      set_disk (storage.Store (area.set_next (storage.mem s) start 0) (storage.area_pool s)
        (storage.file_size s) (storage.region_size s)) d
  else d.

Definition return_areas_range (start_single end_single start_multi end_multi : Z) (d : db) : db :=
  return_multi_range start_multi end_multi (return_single_range start_single end_single d).

(** [rollback]: the page of the transaction becomes the one of the next. *)
Definition rollback (cursor_id : Z) (d : db) : bool * db :=
  if negb (txn_cursor_id (hd d) =? cursor_id) then (false, d)
  else
    let r := txns d (read_txn (hd d)) in
    let a := txns d (active d) in
    let d := return_areas_range (area_list_tail_single r) (area_list_tail_single a)
      (area_list_tail_multi r) (area_list_tail_multi a) d in
    let d := set_hd (set_prepared (read_txn (hd d)) (hd d)) d in
    let d := put_txn (active d) (set_refs 0 (txns d (read_txn (hd d)))) d in
    let d := set_hd (set_next_page (active d) (hd d)) d in
    (true, end_transaction d).

(** [prepare_commit]: the id of the transaction, 0 for a foreign one. *)
Definition prepare_commit (cursor_id : Z) (sync : bool) (d : db) : outcome (Z * db) :=
  if negb (txn_cursor_id (hd d) =? cursor_id) then Ok (0, d)
  else if negb (prepared_txn (hd d) =? read_txn (hd d)) then Ok (stamp d, d)
  else
    '(next, d) ← clone d;
    let d := set_hd (set_next_page next (hd d)) d in
    let d := set_hd (set_prepared (active d) (hd d)) d in
    let r := read_txn (hd d) in
    let d := put_txn r (set_next (prepared_txn (hd d)) (txns d r)) d in
    Ok (stamp d, if sync then set_direct false d else d).

(** [commit]: [None] for the exception of a failed allocation, after the rollback. *)
Definition commit (cursor_id : Z) (d : db) : outcome (option bool * db) :=
  match prepare_commit cursor_id false d with
  | NoFuel => NoFuel
  | NullPage => Ok (None, snd (rollback cursor_id d))
  | Ok (id, d) =>
      if id =? 0 then Ok (Some false, d)
      else Ok (Some true, end_transaction (set_hd (set_read (prepared_txn (hd d)) (hd d)) d))
  end.

(** ** After a crash *)

(** [_WalDbMixin::wal_recover]: [apply] are the cursor operations of a logged
    transaction, [all] and [dangling] what [_WalWriter::parse] found. *)
Definition replay (apply : list wal.op_record -> db -> outcome db) (cursor_id : Z) (t : wal.txn) (d : db) :
    outcome db :=
  r ← start_transaction cursor_id d;
  match r with
  | None => NullPage
  | Some d =>
      d ← apply (wal.ops t) d;
      '(_, d) ← commit cursor_id d; Ok d
  end.

Fixpoint replay_all (apply : list wal.op_record -> db -> outcome db) (cursor_id read_id : Z)
    (all : list wal.txn) (d : db) : outcome db :=
  match all with
  | [] => Ok d
  | t :: all =>
      if negb (older read_id (wal.txn_id t)) then replay_all apply cursor_id read_id all d
      else d ← replay apply cursor_id t d; replay_all apply cursor_id read_id all d
  end.

Definition wal_recover (apply : list wal.op_record -> db -> outcome db) (cursor_id : Z) (all : list wal.txn)
    (dangling : wal.txn) (d : db) : outcome db :=
  let read_id := txn_id (txns d (read_txn (hd d))) in
  d ← replay_all apply cursor_id read_id all d;
  if negb (wal.txn_id dangling =? 0) && older read_id (wal.txn_id dangling) then
    r ← start_transaction cursor_id d;
    match r with
    | None => NullPage
    | Some d =>
        d ← apply (wal.ops dangling) d;
        '(_, d) ← prepare_commit cursor_id false d;
        Ok (end_transaction d)
    end
  else Ok d.

(** [sanitize]; [recover] is [wal_recover] of the log of the database. *)
Definition sanitize (recover : db -> outcome db) (d : db) : outcome db :=
  let d := set_active 0 (set_hd (set_lock false 0 (hd d)) d) in
  d ← iter_transactions (fun o d => Ok (false, put_txn o (set_refs 0 (txns d o)) d)) d;
  d ← (let page := next_txn_page (hd d) in
       if negb (page =? 0) then Ok (put_txn page (set_refs 0 (txns d page)) d)
       else
         '(next, d) ← clone (set_active (read_txn (hd d)) d);
         Ok (set_active 0 (set_hd (set_next_page next (hd d)) d)));
  d ← recover d;
  if negb (prepared_txn (hd d) =? read_txn (hd d)) then
    Ok (set_active (prepared_txn (hd d)) (set_hd (set_lock true (txn_cursor_id (hd d)) (hd d)) d))
  else Ok d.

(** [repair]; [healthy] is [_check_trie_health] of a root. *)
Fixpoint last_healthy (healthy : Z -> bool) (n : nat) (end_ o found : Z) (d : db) : option Z :=
  match n with
  | O => None
  | S n =>
      if healthy (root (txns d o)) then
        if older (txn_id (txns d o)) end_ then last_healthy healthy n end_ (next_txn (txns d o)) o d else Some o
      else Some found
  end.

Definition repair (healthy : Z -> bool) (d : db) : option db :=
  let r := txns d (read_txn (hd d)) in
  match is_active d with
  | None => None
  | Some true => None
  | Some false =>
      found ← last_healthy healthy fuel (txn_id r) (start_txn r) 0 d;
      if negb (found =? 0) && negb (found =? read_txn (hd d)) then
        Some (set_hd (set_prepared found (set_read found (hd d))) d)
      else Some d
  end.

(** ** A new database *)

(** The in-place transaction at [o], in the first area [a]. *)
Definition first_txn (o a end_ : Z) : txn :=
  Txn 1 0 0 bigmem_init o 0 0 a 0 (Manager (fun _ => Slot 0 0 0 0 0) 0 0 (o + PAGE_SIZES TXN_SLOT) end_).

(** [init]: the first area holds the header and the first transaction. *)
Definition init (header_size : Z) (d : db) : outcome (Z * db) :=
  match storage.alloc_single_area AREA_SIZE (disk d) with
  | storage.StorageFull _ _ => NullPage
  | storage.Got (a, s) =>
      let h := storage.mem s a in
      let off := area.content_offset AREA_HEADER h in
      let o := off + util.padding header_size (PAGE_SIZES 0) in
      let g := pgs d in
      let d := Db (Header o o 0 false 0 a 0) (upd (txns d) o (first_txn o a (area.end_ h)))
        (Pages (cnext g) (cblock g) (upd (slot_id g) o TXN_SLOT) (upd (page_txn g) o 1)) s o (start_txn_id d) (direct_write d) in
      '(next, d) ← clone d;
      Ok (off, set_active 0 (set_hd (set_next_page next (hd d)) d))
  end.

(** [return_areas]: all areas of the database. *)
Definition return_areas (d : db) : db :=
  let r := txns d (read_txn (hd d)) in
  let d :=
    if negb (area_list_head_single (hd d) =? 0) && negb (area_list_tail_single r =? 0) then
      set_disk (storage.return_single_areas (area_list_head_single (hd d)) (area_list_tail_single r) (disk d)) d
    else d in
  if negb (area_list_head_multi (hd d) =? 0) && negb (area_list_tail_multi r =? 0) then
    set_disk (storage.return_multi_areas (area_list_head_multi (hd d)) (area_list_tail_multi r) (disk d)) d
  else d.

(** [reset_in_place] without its guard: the first area and the header stay. *)
Definition restart_in_place (header_size : Z) (d : db) : outcome db :=
  let r := txns d (read_txn (hd d)) in
  let first := area_list_head_single (hd d) in
  let d :=
    if negb (first =? 0) then
      let second := area.next (storage.mem (disk d) first) in
      if negb (second =? 0) then
        let s := storage.return_single_areas second (area_list_tail_single r) (disk d) in
        set_disk (storage.Store (area.set_next (storage.mem s) first 0) (storage.area_pool s)
          (storage.file_size s) (storage.region_size s)) d
      else d
    else d in
  let d :=
    if negb (area_list_head_multi (hd d) =? 0) && negb (area_list_tail_multi r =? 0) then
      set_hd (set_head_multi 0 (hd d))
        (set_disk (storage.return_multi_areas (area_list_head_multi (hd d)) (area_list_tail_multi r) (disk d)) d)
    else d in
  let h := storage.mem (disk d) first in
  let o := area.content_offset AREA_HEADER h + util.padding header_size (PAGE_SIZES 0) in
  let g := pgs d in
  let d := Db (Header o o 0 (txn_lock (hd d)) 0 first (area_list_head_multi (hd d)))
    (upd (txns d) o (first_txn o first (area.end_ h)))
    (Pages (cnext g) (cblock g) (upd (slot_id g) o TXN_SLOT) (upd (page_txn g) o 1)) (disk d) o (start_txn_id d) (direct_write d) in
  '(next, d) ← clone d;
  Ok (set_active 0 (set_hd (set_next_page next (hd d)) d)).

(** [TransactionActive] is [None]. *)
Definition reset (header_size : Z) (d : db) : outcome (option (Z * db)) :=
  match is_active d with
  | None => NoFuel
  | Some true => Ok None
  | Some false => r ← init header_size (return_areas d); Ok (Some r)
  end.

Definition reset_in_place (header_size : Z) (d : db) : outcome (option db) :=
  match is_active d with
  | None => NoFuel
  | Some true => Ok None
  | Some false => d ← restart_in_place header_size d; Ok (Some d)
  end.

End with_traits.
End db.
