(* ===== verification/DbFacts.v ===== *)
(** * DbFacts: what the transaction operations do to the chain of versions

    The committed versions of a database are a chain of transactions, from the
    oldest that is still needed to the current one. [idle] and [writing] are the
    states between and inside of write transactions; the operations lead from one
    to the other. *)
From S2P Require Import Prelude Util Serial Memory Area AreaFacts Storage Wal Db.

Module dbfacts.
Import memory.
Export db.

(** Reads the fields of a database behind a series of updates. *)
Ltac db_simpl := cbn [hd txns pgs disk active start_txn_id direct_write set_hd put_txn set_pgs set_disk set_active
  set_start_id set_direct add_refs end_transaction read_txn prepared_txn next_txn_page txn_lock txn_cursor_id
  set_read set_prepared set_next_page set_lock].

Section with_traits.
Context (COUNT SLOT_ID : Z) (PAGE_SIZES : Z -> Z) (TXN_SLOT AREA_SIZE AREA_HEADER : Z) (fuel : nat).

Abbreviation alloc_slot := (db.alloc_slot COUNT SLOT_ID PAGE_SIZES AREA_SIZE AREA_HEADER fuel).
Abbreviation free := (db.free COUNT SLOT_ID PAGE_SIZES AREA_SIZE AREA_HEADER fuel).
Abbreviation clone := (db.clone COUNT SLOT_ID PAGE_SIZES TXN_SLOT AREA_SIZE AREA_HEADER fuel).
Abbreviation collect := (db.collect COUNT SLOT_ID PAGE_SIZES AREA_SIZE AREA_HEADER fuel).
Abbreviation start_transaction := (db.start_transaction COUNT SLOT_ID PAGE_SIZES AREA_SIZE AREA_HEADER fuel).
Abbreviation prepare_commit := (db.prepare_commit COUNT SLOT_ID PAGE_SIZES TXN_SLOT AREA_SIZE AREA_HEADER fuel).
Abbreviation commit := (db.commit COUNT SLOT_ID PAGE_SIZES TXN_SLOT AREA_SIZE AREA_HEADER fuel).

(** ** What page allocation leaves alone *)

(** The allocator changes the manager and the last area of the active transaction. *)
Record allocated (d d' : db) : Prop := {
  al_hd : hd d' = hd d;
  al_active : active d' = active d;
  al_start : start_txn_id d' = start_txn_id d;
  al_direct : direct_write d' = direct_write d;
  al_other : forall o, o <> active d -> txns d' o = txns d o;
  al_mine : exists s m, txns d' (active d) =
    set_manager m (set_tails s (area_list_tail_multi (txns d (active d))) (txns d (active d)))
}.

Lemma allocated_refl d : allocated d d.
Proof.
  split; try done. exists (area_list_tail_single (txns d (active d))), (mem_manager (txns d (active d))).
  by destruct (txns d (active d)).
Qed.

Lemma allocated_trans d1 d2 d3 : allocated d1 d2 -> allocated d2 d3 -> allocated d1 d3.
Proof.
  intros [A1 A2 A3 A4 A5 (s & m & A6)] [B1 B2 B3 B4 B5 (s' & m' & B6)]. rewrite A2 in *. split; try congruence.
  - intros o Ho. rewrite B5 by done. by apply A5.
  - exists s', m'. rewrite B6, A6. by destruct (txns d1 (active d1)).
Qed.

Lemma append_single_allocated a d : allocated d (append_single a d).
Proof.
  split; try done.
  - intros o Ho. simpl. by rewrite upd_ne by done.
  - exists a, (mem_manager (txns d (active d))). simpl. rewrite upd_eq. by destruct (txns d (active d)).
Qed.

Lemma appends_allocated (l : list (Z * storage.store)) : forall d, allocated d (fold_left (fun d x => append_single (fst x) d) l d).
Proof.
  induction l as [|x l IH]; intros d; [apply allocated_refl|]. cbn [fold_left].
  eapply allocated_trans; [exact (append_single_allocated (fst x) d)|apply IH].
Qed.

Lemma from_state_allocated sup st d : allocated d (from_state sup st d).
Proof.
  unfold from_state. set (used := take _ sup). set (d1 := set_disk _ d).
  assert (allocated d d1) as A1 by (destruct (allocated_refl d); by split).
  pose proof (appends_allocated used d1) as A2.
  set (d2 := fold_left _ used d1) in *.
  pose proof (allocated_trans _ _ _ A1 A2) as [B1 B2 B3 B4 B5 (s & m & B6)]. split; try done.
  - intros o Ho. simpl. rewrite upd_ne by congruence. by apply B5.
  - eexists s, _. simpl. rewrite B2, upd_eq, B6. by destruct (txns d (active d)).
Qed.

Lemma alloc_slot_allocated s d p d' : alloc_slot s d = Ok (p, d') -> allocated d d'.
Proof.
  unfold db.alloc_slot. destruct (memory.alloc_f _ _ _ _ _ _ _ _) as [[[q|] st]| |]; cbn [mbind outcome_bind]; try done.
  intros [= <- <-]. pose proof (from_state_allocated (supply AREA_SIZE fuel (disk d)) st d) as A.
  set (d1 := from_state _ st d) in *. destruct A. by split.
Qed.

Lemma free_allocated p d d' : free p d = Ok d' -> allocated d d'.
Proof.
  unfold db.free. destruct (memory.free_f _ _ _ _ _ _ _ _) as [st| |]; cbn [mbind outcome_bind]; try done.
  intros [= <-]. apply from_state_allocated.
Qed.

Lemma clone_spec d p d' : clone d = Ok (p, d') -> exists d1, allocated d d1 /\
  d' = put_txn p (set_refs 0 (txns d1 (active d))) d1.
Proof.
  unfold db.clone. destruct (alloc_slot TXN_SLOT d) as [[q d1]| |] eqn:E; cbn [mbind outcome_bind]; try done.
  intros [= <- <-]. pose proof (alloc_slot_allocated _ _ _ _ E) as A. exists d1. split; [done|].
  by rewrite (al_active _ _ A).
Qed.

(** ** The chain of versions *)

(** Every transaction links to the next, whose id is the next one. *)
Fixpoint trail (tx : Z -> txn) (l : list Z) : Prop :=
  match l with
  | a :: (b :: _) as l' => next_txn (tx a) = b /\ txn_id (tx b) = successor (txn_id (tx a)) /\ trail tx l'
  | _ => True
  end.

Record chain (tx : Z -> txn) (from to : Z) (l : list Z) : Prop := {
  ch_head : head l = Some from;
  ch_last : list.last l = Some to;
  ch_trail : trail tx l;
  ch_nodup : NoDup (0 :: l);
  ch_valid : forall o, o ∈ l -> serial.valid 32 (serial.Serial (txn_id (tx o)));
  ch_refs : forall o, o ∈ l -> 0 <= refs (tx o);
  ch_short : Z.of_nat (length l) < 2 ^ 31 - 3
}.

(** What a version is to its readers. *)
Definition same_version (t t' : txn) : Prop := txn_id t' = txn_id t /\ root t' = root t /\ big t' = big t.

(** The page prepared for the next transaction continues [t]. *)
Definition continues (t t' : txn) : Prop :=
  root t' = root t /\ offset_root t' = offset_root t /\ big t' = big t /\ start_txn t' = start_txn t /\
  area_list_tail_single t' = area_list_tail_single t /\ area_list_tail_multi t' = area_list_tail_multi t /\
  mem_manager t' = mem_manager t /\ refs t' = 0.

(** No write transaction: [l] are the versions. *)
Record idle (d : db) (l : list Z) : Prop := {
  id_chain : chain (txns d) (start_txn (txns d (read_txn (hd d)))) (read_txn (hd d)) l;
  id_none : active d = 0 /\ txn_lock (hd d) = false /\ prepared_txn (hd d) = read_txn (hd d);
  id_page : next_txn_page (hd d) ∉ 0 :: l;
  id_next : continues (txns d (read_txn (hd d))) (txns d (next_txn_page (hd d)))
}.

(** ** The order of the ids along a chain *)

Abbreviation ser := serial.Serial.

Lemma successor_valid a : serial.valid 32 (ser a) -> serial.valid 32 (ser (successor a)).
Proof.
  intros H. pose proof (serial.add_valid 32 (ser a) 1 ltac:(lia) H ltac:(done)) as V. unfold successor.
  by destruct (serial.add 32 (ser a) 1).
Qed.

Lemma steps_successor b a : serial.valid 32 (ser b) -> serial.valid 32 (ser a) ->
  serial.steps 32 (ser b) (ser a) < serial.MAX_VALUE 32 - 1 ->
  serial.steps 32 (ser b) (ser (successor a)) = serial.steps 32 (ser b) (ser a) + 1.
Proof.
  intros Hb Ha. pose proof (successor_valid a Ha) as Hs. rewrite !serial.steps_value by (done || lia). unfold successor in *.
  pose proof (serial.add_value 32 (ser a) 1 ltac:(lia) Ha ltac:(done)) as E.
  destruct (serial.add 32 (ser a) 1) as [v]. cbn [serial.value] in *. subst v.
  unfold serial.valid in *. cbn [serial.value] in *. change (serial.MAX_VALUE 32) with 4294967295 in *.
  repeat zcase; lia.
Qed.

(** The distance from the head of the chain is the position. *)
Lemma trail_steps tx l i o h : trail tx l -> head l = Some h ->
  (forall x, x ∈ l -> serial.valid 32 (ser (txn_id (tx x)))) -> Z.of_nat (length l) < 2 ^ 32 - 2 ->
  l !! i = Some o -> serial.steps 32 (ser (txn_id (tx h))) (ser (txn_id (tx o))) = Z.of_nat i.
Proof.
  intros T Hh V Hlen. revert o. induction i as [|i IH]; intros o Ho.
  - destruct l as [|x l]; [done|]. simpl in *. injection Hh as ->. injection Ho as ->.
    rewrite serial.steps_value by (lia || by apply V; left). zcase; lia.
  - pose proof (lookup_lt_Some _ _ _ Ho) as Hi. destruct (lookup_lt_is_Some_2 l i ltac:(lia)) as [p Hp].
    specialize (IH p Hp). assert (txn_id (tx o) = successor (txn_id (tx p))) as ->.
    { clear -T Hp Ho. revert i p o Hp Ho. induction l as [|x l IHl]; intros i p o Hp Ho; [done|].
      destruct l as [|y l]; [by destruct i|]. destruct T as (_ & E & T). destruct i as [|i]; simpl in Hp.
      - injection Hp as ->. injection Ho as ->. exact E.
      - by apply (IHl T i). }
    rewrite steps_successor, IH; [lia|..].
    + apply V. destruct l; [done|]. injection Hh as ->. left.
    + apply V. by eapply list_elem_of_lookup_2.
    + change (serial.MAX_VALUE 32) with (2 ^ 32 - 1). lia.
Qed.

Lemma chain_older tx from to l i j a b : chain tx from to l -> l !! i = Some a -> l !! j = Some b ->
  older (txn_id (tx a)) (txn_id (tx b)) = bool_decide (i < j)%nat.
Proof.
  intros [H1 _ H3 _ H5 _ H7] Ha Hb. change (2 ^ 31) with 2147483648 in H7. unfold older.
  assert (from ∈ l) as Hf by (destruct l; [done|injection H1 as ->; left]).
  pose proof (trail_steps tx l i a from H3 H1 H5 ltac:(lia) Ha) as Ea.
  pose proof (trail_steps tx l j b from H3 H1 H5 ltac:(lia) Hb) as Eb.
  pose proof (lookup_lt_Some _ _ _ Ha). pose proof (lookup_lt_Some _ _ _ Hb).
  rewrite (serial.ltb_age 32 (ser (txn_id (tx from)))); [|lia|by apply H5|..].
  - rewrite Ea, Eb. destruct (Z.ltb_spec (Z.of_nat i) (Z.of_nat j)); by rewrite ?bool_decide_eq_true_2, ?bool_decide_eq_false_2 by lia.
  - apply H5. by eapply list_elem_of_lookup_2.
  - apply H5. by eapply list_elem_of_lookup_2.
  - rewrite Ea. change (serial.HALF_RANGE 32) with 2147483648. lia.
  - rewrite Eb. change (serial.HALF_RANGE 32) with 2147483648. lia.
Qed.

Lemma trail_ext tx tx' l : (forall x, x ∈ l -> tx' x = tx x) -> trail tx l -> trail tx' l.
Proof.
  induction l as [|a [|b l] IH]; intros E; [done..|]. intros (T1 & T2 & T3). split_and!.
  - rewrite E by left. done.
  - rewrite !E by (left || (right; left)). done.
  - apply IH; [|done]. intros x Hx. apply E. by right.
Qed.

(** ** Freeing the versions nobody uses *)

Fixpoint frees (l : list Z) (d : db) : outcome db :=
  match l with [] => Ok d | o :: l => d ← free o d; frees l d end.

Lemma frees_allocated l : forall d d', frees l d = Ok d' -> allocated d d'.
Proof.
  induction l as [|o l IH]; intros d d'; simpl; [intros [= <-]; apply allocated_refl|].
  destruct (free o d) as [d1| |] eqn:E; simpl; try done. intros H.
  eapply allocated_trans; [by eapply free_allocated|by apply IH].
Qed.

(** The walk frees the versions in front of the first that is in use. *)
Lemma walk_collect end_ s l2 l1 : forall n d o, head (l1 ++ s :: l2) = Some o -> trail (txns d) (l1 ++ s :: l2) ->
  (forall x, x ∈ l1 -> refs (txns d x) <= 0 /\ older (txn_id (txns d x)) end_ = true) -> 0 < refs (txns d s) ->
  active d ∉ l1 ++ s :: l2 -> (length l1 < n)%nat ->
  walk collect n end_ o d =
    (d1 ← frees l1 d;
     Ok (set_start_id (txn_id (txns d s)) (put_txn (active d) (set_start s (txns d1 (active d))) d1))).
Proof.
  induction l1 as [|x l1 IH]; intros n d o Ho T H1 Hs Ha Hn; destruct n as [|n]; [simpl in Hn; lia|..|simpl in Hn; lia|].
  - injection Ho as <-. cbn [walk]. unfold db.collect. destruct (Z.ltb_spec 0 (refs (txns d s))); [done|lia].
  - injection Ho as <-. destruct (H1 x ltac:(left)) as [R1 O1]. cbn [walk frees].
    assert (collect x d = (d' ← free x d; Ok (false, d'))) as ->.
    { unfold db.collect. destruct (Z.ltb_spec 0 (refs (txns d x))); [lia|done]. }
    destruct (free x d) as [d1| |] eqn:E; cbn [mbind outcome_bind]; try done.
    pose proof (free_allocated _ _ _ E) as [A1 A2 A3 A4 A5 _].
    assert (forall y, y ∈ (x :: l1) ++ s :: l2 -> txns d1 y = txns d y) as E1 by (intros y Hy; apply A5; by intros ->).
    rewrite (E1 x) by left. rewrite O1. rewrite <- app_comm_cons in T.
    assert (head (l1 ++ s :: l2) = Some (next_txn (txns d x)) /\ trail (txns d) (l1 ++ s :: l2)) as [T1 T2].
    { destruct (l1 ++ s :: l2) as [|y l'] eqn:Ey; [by destruct l1|]. destruct T as (-> & _ & T). done. }
    rewrite (IH n d1 (next_txn (txns d x)) T1), A2, (E1 s); [done|..].
    + apply elem_of_app. right. by left.
    + eapply trail_ext; [|exact T2]. intros y Hy. apply E1. by right.
    + intros z Hz. rewrite E1 by (apply elem_of_app; left; by right). apply H1. by right.
    + by rewrite E1 by (apply elem_of_app; right; by left).
    + rewrite A2. intros Hx. apply Ha. by right.
    + simpl in Hn. lia.
Qed.

(** ** Inside a write transaction *)

(** Cursor [c] writes: [l0] are the committed versions, [l] those that stay. *)
Record writing (d : db) (l0 l : list Z) (c : Z) : Prop := {
  wr_full : chain (txns d) (start_txn (txns d (read_txn (hd d)))) (read_txn (hd d)) l0;
  wr_live : exists l1, l0 = l1 ++ l /\ l <> [] /\ forall x, x ∈ l1 -> refs (txns d x) = 0;
  wr_start : head l = Some (start_txn (txns d (active d)));
  wr_oldest : start_txn_id d = txn_id (txns d (start_txn (txns d (active d))));
  wr_lock : txn_lock (hd d) = true /\ txn_cursor_id (hd d) = c;
  wr_active : active d ∉ 0 :: l0;
  wr_id : txn_id (txns d (active d)) = successor (txn_id (txns d (read_txn (hd d))));
  wr_refs : 0 <= refs (txns d (active d))
}.

Definition unprepared (d : db) : Prop :=
  prepared_txn (hd d) = read_txn (hd d) /\ next_txn_page (hd d) = 0.

Definition prepared (d : db) (l0 : list Z) : Prop :=
  prepared_txn (hd d) = active d /\ next_txn_page (hd d) ∉ 0 :: active d :: l0 /\
  next_txn (txns d (read_txn (hd d))) = active d /\
  continues (txns d (active d)) (txns d (next_txn_page (hd d))).

(** A transaction page that is the same but for the link to the next one and the pins. *)
Definition same_txn (t t' : txn) : Prop := t' = set_refs (refs t') (set_next (next_txn t') t).

Lemma same_txn_refl t : same_txn t t.
Proof. by destruct t. Qed.

Lemma same_txn_trans t1 t2 t3 : same_txn t1 t2 -> same_txn t2 t3 -> same_txn t1 t3.
Proof. unfold same_txn. intros E1 E2. rewrite E2 at 1. rewrite E1 at 1. done. Qed.

(** The readers of [l] see the same in both states. *)
Definition undisturbed (d d' : db) (l : list Z) : Prop :=
  forall x, x ∈ l -> same_version (txns d x) (txns d' x) /\ refs (txns d' x) = refs (txns d x) /\ same_txn (txns d x) (txns d' x).

(** The state in which [start_transaction] begins to collect, and what it does last. *)
Definition began (c : Z) (d : db) : db :=
  let last := read_txn (hd d) in
  let page := next_txn_page (hd d) in
  let d := set_direct false (set_hd (set_next_page 0 (set_lock true c (hd d))) d) in
  let d := put_txn page (set_id_next (successor (txn_id (txns d last))) 0 (txns d page)) (set_active page d) in
  set_start_id (txn_id (txns (add_refs last 1 d) last)) (add_refs last 1 d).

Definition started (last s : Z) (d : db) : db :=
  add_refs last (-1)
    (set_start_id (txn_id (txns d s)) (put_txn (active d) (set_start s (txns d (active d))) d)).

Lemma first_in_use (tx : Z -> txn) l r : r ∈ l -> 0 < refs (tx r) ->
  exists l1 s l2, l = l1 ++ s :: l2 /\ 0 < refs (tx s) /\ forall x, x ∈ l1 -> refs (tx x) <= 0.
Proof.
  induction l as [|x l IH]; intros Hr H; [by apply list.not_elem_of_nil in Hr|].
  destruct (Z.lt_ge_cases 0 (refs (tx x))) as [Hx|Hx].
  - exists [], x, l. split_and!; [done|done|]. intros y Hy. by apply list.not_elem_of_nil in Hy.
  - apply list.elem_of_cons in Hr as [->|Hr]; [lia|]. destruct (IH Hr H) as (l1 & s & l2 & -> & Hs & H1).
    exists (x :: l1), s, l2. split_and!; [done|done|]. intros y [->|Hy]%list.elem_of_cons; [lia|]. by apply H1.
Qed.

Lemma chain_ext tx tx' from to l : (forall x, x ∈ l -> (x <> to -> next_txn (tx' x) = next_txn (tx x)) /\
    txn_id (tx' x) = txn_id (tx x) /\ 0 <= refs (tx' x)) -> chain tx from to l -> chain tx' from to l.
Proof.
  intros E [H1 H2 H3 H4 H5 H6 H7]. split; try done.
  - apply list.NoDup_cons in H4 as [_ H4]. clear -E H2 H3 H4. induction l as [|a [|b l] IH]; [done..|].
    destruct H3 as (T1 & T2 & T3). apply list.NoDup_cons in H4 as [N1 N2].
    destruct (E a ltac:(left)) as (Ea & Ia & _). destruct (E b ltac:(right; left)) as (_ & Ib & _).
    split_and!; [|congruence|].
    + rewrite Ea; [done|]. intros ->. apply N1. change (list.last (b :: l) = Some to) in H2.
      apply last_Some in H2 as [l' ->]. apply elem_of_app. right. by left.
    + apply IH; try done. intros x Hx. apply E. by right.
  - intros o Ho. destruct (E o Ho) as (_ & -> & _). by apply H5.
  - intros o Ho. by destruct (E o Ho) as (_ & _ & ?).
Qed.

Lemma chain_member tx from to l : chain tx from to l -> to ∈ l /\ from ∈ l /\ 0 ∉ l.
Proof.
  intros [H1 H2 _ H4 _ _ _]. apply list.NoDup_cons in H4 as [H0 _]. split_and!; [|destruct l; [done|injection H1 as ->; left]|done].
  apply last_Some in H2 as [l' ->]. apply elem_of_app. right. by left.
Qed.

Lemma start_spec c d l : idle d l -> (length l <= fuel)%nat ->
  exists l1 s l2, l = l1 ++ s :: l2 /\ (forall x, x ∈ l1 -> refs (txns d x) = 0) /\
    (0 < refs (txns d s) \/ s = read_txn (hd d)) /\
    start_transaction c d = (d1 ← frees l1 (began c d); Ok (Some (started (read_txn (hd d)) s d1))) /\
    forall d1, frees l1 (began c d) = Ok d1 ->
      let d' := started (read_txn (hd d)) s d1 in
      writing d' l (s :: l2) c /\ unprepared d' /\ read_txn (hd d') = read_txn (hd d) /\
      active d' = next_txn_page (hd d) /\ root (txns d' (active d')) = root (txns d (read_txn (hd d))) /\
      forall x, x ∈ l -> txns d' x = txns d x.
Proof.
  intros [Ch (Ha & Hl & Hp) Hpg Hc] Hf. set (r := read_txn (hd d)) in *. set (p := next_txn_page (hd d)) in *.
  destruct (chain_member _ _ _ _ Ch) as (Hr & Hfrom & H0).
  assert (forall x, x ∈ l -> x <> p) as Hne by (intros x Hx ->; apply Hpg; by right).
  assert (p <> 0) as Hp0 by (intros E; apply Hpg; rewrite E; by left).
  set (d0 := began c d).
  assert (forall x, x ∈ l -> txns d0 x = if decide (x = r) then set_refs (refs (txns d r) + 1) (txns d r) else txns d x) as E0.
  { intros x Hx. unfold d0, began. cbn [add_refs put_txn set_start_id txns hd set_hd set_direct set_active].
    fold r p. rewrite (upd_ne (txns d) p r) by (by apply Hne).
    destruct (decide (x = r)) as [->|Hxr]; [by rewrite upd_eq|].
    rewrite upd_ne by done. rewrite upd_ne; [done|]. by apply Hne. }
  assert (txns d0 p = set_id_next (successor (txn_id (txns d r))) 0 (txns d p)) as E0p.
  { unfold d0, began. cbn [add_refs put_txn set_start_id txns hd set_hd set_direct set_active].
    fold r p. rewrite upd_ne by (apply not_eq_sym; by apply Hne). by rewrite upd_eq. }
  assert (txns d0 r = set_refs (refs (txns d r) + 1) (txns d r)) as E0r by (rewrite E0 by done; by rewrite decide_True).
  assert (chain (txns d0) (start_txn (txns d r)) r l) as Ch0.
  { eapply chain_ext; [|exact Ch]. intros x Hx. pose proof (ch_refs _ _ _ _ Ch x Hx). rewrite E0 by done.
    destruct (decide (x = r)) as [->|]; simpl; split_and!; (done || lia). }
  pose proof (ch_refs _ _ _ _ Ch r Hr) as Hrr.
  destruct (first_in_use (txns d0) l r Hr) as (l1 & s & l2 & El & Hs & Hl1).
  { rewrite E0r. cbn [set_refs refs]. lia. }
  assert (forall x, x ∈ l1 -> x <> r /\ x ∈ l) as Hl1r.
  { intros x Hx. assert (x ∈ l) by (rewrite El; apply elem_of_app; by left). split; [|done].
    intros ->. specialize (Hl1 r Hx). rewrite E0r in Hl1. cbn [set_refs refs] in Hl1. lia. }
  assert (s ∈ l) as Hsl by (rewrite El; apply elem_of_app; right; by left).
  exists l1, s, l2. split; [done|]. split.
  { intros x Hx. destruct (Hl1r x Hx) as [Hxr Hxl]. specialize (Hl1 x Hx). rewrite E0, decide_False in Hl1 by done.
    pose proof (ch_refs _ _ _ _ Ch x Hxl). lia. }
  split.
  { rewrite E0 in Hs by done. destruct (decide (s = r)) as [->|]; [by right|by left]. }
  assert (active d0 = p /\ hd d0 = set_next_page 0 (set_lock true c (hd d)) /\ read_txn (hd d0) = r) as (Ea0 & Eh0 & Er0) by done.
  split.
  { unfold db.start_transaction. rewrite Hl. fold r p. destruct (Z.eqb_spec p 0); [done|].
    change (add_refs r 1 _) with (add_refs r 1 (put_txn p (set_id_next (successor (txn_id (txns d r))) 0 (txns d p))
      (set_active p (set_direct false (set_hd (set_next_page 0 (set_lock true c (hd d))) d))))).
    fold d0. unfold iter_transactions.
    change (set_start_id _ _) with d0. rewrite Er0, E0r. cbn [set_refs start_txn txn_id].
    rewrite (walk_collect _ s l2 l1 fuel d0); rewrite <- ?El; try done.
    - destruct (frees l1 d0) as [d1| |] eqn:Ef; cbn [mbind outcome_bind]; try done.
      pose proof (frees_allocated _ _ _ Ef) as A. unfold started.
      rewrite (al_active _ _ A), (al_other _ _ A s); [done|]. rewrite Ea0. by apply Hne.
    - by apply Ch0.
    - by apply Ch0.
    - intros x Hx. split; [by apply Hl1|].
      destruct (Hl1r x Hx) as [Hxr Hxl]. apply list_elem_of_lookup_1 in Hxl as [i Hi].
      pose proof (ch_last _ _ _ _ Ch) as HL. rewrite last_lookup in HL.
      pose proof (chain_older _ _ _ _ _ _ _ _ Ch0 Hi HL) as Ho. rewrite E0r in Ho. cbn [set_refs txn_id] in Ho.
      rewrite Ho. apply bool_decide_eq_true_2. pose proof (lookup_lt_Some _ _ _ Hi).
      destruct (decide (i = pred (length l))) as [->|]; [congruence|lia].
    - rewrite Ea0. intros Hx. by apply (Hne p Hx).
    - rewrite El, length_app in Hf. simpl in Hf. lia. }
  intros d1 Ef d'. destruct (frees_allocated _ _ _ Ef) as [A1 A2 A3 A4 A5 (tl & m & A6)]. rewrite Ea0 in *.
  assert (active d' = p /\ hd d' = hd d0) as [Ead Ehd] by (unfold d', started; simpl; by rewrite A1, A2).
  assert (forall x, x ∈ l -> txns d' x = txns d x) as Ex.
  { intros x Hx. unfold d', started, add_refs. cbn [put_txn set_start_id txns]. rewrite A2.
    assert (forall y, y ∈ l -> upd (txns d1) p (set_start s (txns d1 p)) y = txns d0 y) as Eu.
    { intros y Hy. rewrite upd_ne by (by apply Hne). apply A5. by apply Hne. }
    destruct (decide (x = r)) as [->|Hxr].
    - rewrite upd_eq, Eu, E0r by done. destruct (txns d r). unfold set_refs. cbn. f_equal. lia.
    - rewrite upd_ne, Eu, E0, decide_False by done. done. }
  assert (txns d' p = set_start s (set_manager m (set_tails tl (area_list_tail_multi (txns d0 p)) (txns d0 p)))) as Ep.
  { unfold d', started, add_refs. cbn [put_txn set_start_id txns]. rewrite A2.
    rewrite upd_ne by (apply not_eq_sym; by apply Hne). by rewrite upd_eq, A6. }
  rewrite E0p in Ep. destruct Hc as (Hc1 & Hc2).
  split; [|split; [unfold unprepared; by rewrite Ehd, Eh0|]].
  - split; rewrite ?Ead, ?Ehd, ?Eh0; cbn [read_txn set_next_page set_lock txn_lock txn_cursor_id]; fold r.
    + rewrite Ex by done. eapply chain_ext; [|exact Ch]. intros x Hx. rewrite Ex by done. split_and!; try done.
      by apply (ch_refs _ _ _ _ Ch).
    + exists l1. split_and!; [done|done|]. intros x Hx. destruct (Hl1r x Hx) as [Hxr Hxl]. rewrite Ex by done.
      specialize (Hl1 x Hx). rewrite E0, decide_False in Hl1 by done. pose proof (ch_refs _ _ _ _ Ch x Hxl). lia.
    + by rewrite Ep.
    + rewrite Ep. cbn [set_start start_txn]. rewrite Ex by done. unfold d', started. cbn [add_refs put_txn set_start_id start_txn_id].
      rewrite A5 by (by apply Hne). rewrite E0 by done. by destruct (decide (s = r)) as [->|].
    + done.
    + done.
    + rewrite Ep, Ex by done. done.
    + rewrite Ep. cbn. destruct Hc2 as (_ & _ & _ & _ & _ & _ & ->). done.
  - rewrite Ehd, Ead, Ep. by split_and!.
Qed.

Lemma start_unique d l0 l c x : writing d l0 l c -> x ∈ l -> x ∈ l0.
Proof. intros W Hx. destruct (wr_live _ _ _ _ W) as (l1 & -> & _). apply elem_of_app. by right. Qed.

Lemma writing_read d l0 l c : writing d l0 l c -> read_txn (hd d) ∈ l /\ list.last l = Some (read_txn (hd d)).
Proof.
  intros W. destruct (wr_live _ _ _ _ W) as (l1 & -> & Hne & _). pose proof (ch_last _ _ _ _ (wr_full _ _ _ _ W)) as HL.
  rewrite last_app in HL. destruct (list.last l) as [z|] eqn:El; [|by apply last_None in El].
  injection HL as ->. split; [|done]. apply last_Some in El as [l' ->]. apply elem_of_app. right. by left.
Qed.

(** ** Rollback *)

Lemma return_areas_keeps a b e f d : let d' := return_areas_range a b e f d in
  txns d' = txns d /\ active d' = active d /\ read_txn (hd d') = read_txn (hd d) /\
  txn_cursor_id (hd d') = txn_cursor_id (hd d) /\ txn_lock (hd d') = txn_lock (hd d).
Proof.
  unfold return_areas_range. set (d1 := return_single_range a b d).
  assert (txns d1 = txns d /\ active d1 = active d /\ hd d1 = hd d) as (E1 & E2 & E3).
  { unfold d1, return_single_range. by destruct (_ && _). }
  unfold return_multi_range. destruct (_ && _); [destruct (e =? 0)|]; cbn; rewrite ?E1, ?E2, ?E3; done.
Qed.

Lemma rollback_spec d l0 l c : writing d l0 l c ->
  let '(done, d') := rollback c d in
  done = true /\ idle d' l0 /\ read_txn (hd d') = read_txn (hd d) /\ next_txn_page (hd d') = active d /\
  forall x, x ∈ l0 -> txns d' x = txns d x.
Proof.
  intros W. destruct (wr_lock _ _ _ _ W) as [_ Hc]. unfold rollback. rewrite Hc, Z.eqb_refl. cbn [negb].
  set (d1 := return_areas_range _ _ _ _ _). destruct (return_areas_keeps (area_list_tail_single (txns d (read_txn (hd d))))
    (area_list_tail_single (txns d (active d))) (area_list_tail_multi (txns d (read_txn (hd d))))
    (area_list_tail_multi (txns d (active d))) d) as (E1 & E2 & E3 & E4 & E5). fold d1 in E1, E2, E3, E4, E5.
  pose proof (wr_active _ _ _ _ W) as Ha. pose proof (wr_full _ _ _ _ W) as Ch.
  destruct (chain_member _ _ _ _ Ch) as (Hr & _ & _).
  db_simpl. rewrite E1, E2, E3.
  assert (forall x, x ∈ l0 -> upd (txns d) (active d) (set_refs 0 (txns d (read_txn (hd d)))) x = txns d x) as Ex.
  { intros x Hx. apply upd_ne. intros ->. apply Ha. by right. }
  split; [done|]. split; [|split_and!; try done; db_simpl; by rewrite ?E3].
  split; db_simpl.
  - rewrite ?E1, ?E2, ?E3, Ex by done. eapply chain_ext; [|exact Ch]. intros x Hx. rewrite Ex by done. split_and!; try done.
    by apply (ch_refs _ _ _ _ Ch).
  - by rewrite ?E1, ?E2, ?E3.
  - done.
  - rewrite ?E1, ?E2, ?E3, Ex, upd_eq by done. by split_and!.
Qed.

(** ** Commit *)

Lemma prepare_spec d l0 l c sync p d2 : writing d l0 l c -> unprepared d -> clone d = Ok (p, d2) ->
  p ∉ 0 :: active d :: l0 ->
  exists d', prepare_commit c sync d = Ok (txn_id (txns d (active d)), d') /\ writing d' l0 l c /\ prepared d' l0 /\
    active d' = active d /\ read_txn (hd d') = read_txn (hd d) /\ same_version (txns d (active d)) (txns d' (active d)) /\
    undisturbed d d' l0.
Proof.
  intros W [U1 U2] Ec Hp. destruct (wr_lock _ _ _ _ W) as [Hl Hc]. pose proof (wr_active _ _ _ _ W) as Ha. pose proof W as W0.
  destruct (clone_spec _ _ _ Ec) as (d1 & [A1 A2 A3 A4 A5 (s & m & A6)] & Ed2).
  pose proof (wr_full _ _ _ _ W) as Ch. destruct (chain_member _ _ _ _ Ch) as (Hr & _ & _).
  set (a := active d) in *. set (r := read_txn (hd d)) in *.
  assert (r <> a) as Hra by (intros E; apply Ha; right; by rewrite <- E).
  assert (p <> a /\ p <> r) as [Hpa Hpr].
  { split; intros E; apply Hp; rewrite E; [right; left|by do 2 right]. }
  unfold db.prepare_commit. rewrite Hc, U1, !Z.eqb_refl. cbn [negb]. rewrite Ec. cbn [mbind outcome_bind].
  set (d' := if sync then _ else _). match goal with |- context [stamp ?x] => assert (stamp x = stamp d') as -> by (unfold d'; by destruct sync) end.
  assert (hd d' = set_prepared a (set_next_page p (hd d)) /\ active d' = a /\ start_txn_id d' = start_txn_id d /\
    txns d' = upd (upd (txns d1) p (set_refs 0 (txns d1 a))) r
      (set_next a (upd (txns d1) p (set_refs 0 (txns d1 a)) r))) as (Eh & Ea & Es & Et).
  { unfold d', a, r. destruct sync; cbn; rewrite Ed2; cbn; rewrite A1, A2, A3; done. }
  rewrite (upd_ne (txns d1) p r) in Et by done. rewrite (A5 r Hra) in Et.
  assert (txns d' a = txns d1 a) as Eta by (rewrite Et, !upd_ne by done; done).
  assert (txns d' r = set_next a (txns d r)) as Etr by (rewrite Et; by rewrite upd_eq).
  assert (forall x, x ∈ l0 -> x <> r -> txns d' x = txns d x) as Ex.
  { intros x Hx Hxr. rewrite Et, upd_ne, upd_ne; [|intros ->; apply Hp; by do 2 right|done].
    apply A5. intros ->. apply Ha. by right. }
  assert (forall x, x ∈ l0 -> txn_id (txns d' x) = txn_id (txns d x) /\ refs (txns d' x) = refs (txns d x) /\
    root (txns d' x) = root (txns d x) /\ big (txns d' x) = big (txns d x) /\ start_txn (txns d' x) = start_txn (txns d x) /\
    same_txn (txns d x) (txns d' x)) as Ef.
  { intros x Hx. destruct (decide (x = r)) as [->|]; [rewrite Etr|rewrite Ex by done]; split_and!; try done; by (apply same_txn_refl || destruct (txns d r)). }
  exists d'. split_and!.
  - f_equal. f_equal. unfold stamp. rewrite Ea, Eta, A6. done.
  - destruct W as [W1 W2 W3 W4 W5 W6 W7 W8]. fold a r in W1, W3, W4, W7, W8. destruct (wr_live _ _ _ _ W0) as (l1 & El & _).
    assert (start_txn (txns d a) ∈ l0) as Hs.
    { rewrite El. apply elem_of_app. right. destruct l; [done|]. injection W3 as ->. left. }
    split; rewrite ?Ea, ?Eh; cbn [read_txn set_prepared set_next_page txn_lock txn_cursor_id]; fold r; rewrite ?Eta, ?A6.
    + destruct (Ef r Hr) as (_ & _ & _ & _ & -> & _). eapply chain_ext; [|exact Ch]. intros x Hx.
      destruct (Ef x Hx) as (E1 & E2 & _). rewrite E1, E2. split_and!; [|done|by apply (ch_refs _ _ _ _ Ch)].
      intros Hxr. by rewrite Ex.
    + destruct W2 as (l2 & E2 & Hne & H2). exists l2. split_and!; [done|done|]. intros x Hx.
      destruct (Ef x) as (_ & -> & _); [rewrite E2; apply elem_of_app; by left|]. by apply H2.
    + done.
    + rewrite Es, W4. cbn [set_manager set_tails start_txn]. symmetry. by apply Ef.
    + done.
    + done.
    + cbn [set_manager set_tails txn_id]. rewrite W7. f_equal. symmetry. by apply Ef.
    + done.
  - split_and!; rewrite ?Ea, ?Eh; cbn [prepared_txn next_txn_page read_txn set_prepared set_next_page]; fold r; try done.
    + by rewrite Etr.
    + rewrite Eta, Et, upd_ne, upd_eq by done. by split_and!.
  - done.
  - by rewrite Eh.
  - rewrite Eta, A6. by split_and!.
  - intros x Hx. destruct (Ef x Hx) as (? & ? & ? & ? & _ & ?). by split_and!.
Qed.

Lemma trail_app_r tx l1 l : trail tx (l1 ++ l) -> trail tx l.
Proof. induction l1 as [|x l1 IH]; [done|]. intros T. apply IH. destruct l1, l; [done|apply T..]. Qed.

Lemma trail_snoc tx l r a : trail tx l -> list.last l = Some r -> next_txn (tx r) = a ->
  txn_id (tx a) = successor (txn_id (tx r)) -> trail tx (l ++ [a]).
Proof.
  intros T Hl Hn Hi. induction l as [|x [|y l] IH]; [done|by injection Hl as ->|].
  destruct T as (T1 & T2 & T3). split_and!; [done|done|]. by apply IH.
Qed.

(** The switch to the prepared transaction: the versions that stay, and the new one. *)
Definition switch (d : db) : db := end_transaction (set_hd (set_read (prepared_txn (hd d)) (hd d)) d).

Lemma switch_spec d l0 l c : writing d l0 l c -> prepared d l0 -> Z.of_nat (length l) < 2 ^ 31 - 4 ->
  idle (switch d) (l ++ [active d]) /\ read_txn (hd (switch d)) = active d /\ txns (switch d) = txns d.
Proof.
  intros W (P1 & P2 & P3 & P4) Hlen. pose proof (wr_active _ _ _ _ W) as Ha.
  pose proof (wr_full _ _ _ _ W) as Ch. destruct (chain_member _ _ _ _ Ch) as (Hr & _ & H0).
  destruct (writing_read _ _ _ _ W) as [Hrl Hll]. destruct (wr_live _ _ _ _ W) as (l1 & El & Hne & H1).
  assert (forall x, x ∈ l -> x ∈ l0) as Hin by (intros; by eapply start_unique).
  unfold switch. rewrite P1. split; [|done].
  split; db_simpl.
  - split.
    + pose proof (wr_start _ _ _ _ W) as Hs. by destruct l.
    + by rewrite last_snoc.
    + apply trail_snoc with (r := read_txn (hd d)); [|done|done|apply (wr_id _ _ _ _ W)].
      apply (trail_app_r _ l1). rewrite <- El. apply (ch_trail _ _ _ _ Ch).
    + pose proof (ch_nodup _ _ _ _ Ch) as N. rewrite El in N. apply list.NoDup_cons in N as [N0 N].
      apply list.NoDup_app in N as (_ & _ & N). apply list.NoDup_cons. split.
      * rewrite elem_of_app, list_elem_of_singleton. intros [Hx|Hx]; [by apply H0, Hin|]. apply Ha. rewrite <- Hx. left.
      * apply list.NoDup_app. split_and!; [done| |by apply list.NoDup_singleton].
        intros x Hx ->%list_elem_of_singleton. apply Ha. right. by apply Hin.
    + intros o [Ho|Ho%list_elem_of_singleton]%elem_of_app.
      * apply (ch_valid _ _ _ _ Ch). by apply Hin.
      * subst o. rewrite (wr_id _ _ _ _ W). apply successor_valid, (ch_valid _ _ _ _ Ch). done.
    + intros o [Ho|Ho%list_elem_of_singleton]%elem_of_app; [by apply (ch_refs _ _ _ _ Ch), Hin|].
      subst o. apply (wr_refs _ _ _ _ W).
    + rewrite length_app. simpl. lia.
  - done.
  - intros Hx. apply P2. apply list.elem_of_cons in Hx as [->|[Hx|Hx%list_elem_of_singleton]%elem_of_app]; [left|do 2 right; by apply Hin|rewrite Hx; right; left].
  - exact P4.
Qed.

(** A valid id follows the one of the current version. *)
Lemma active_id d l0 l c : writing d l0 l c -> txn_id (txns d (active d)) <> 0.
Proof.
  intros W. pose proof (wr_full _ _ _ _ W) as Ch. destruct (chain_member _ _ _ _ Ch) as (Hr & _ & _).
  pose proof (successor_valid _ (ch_valid _ _ _ _ Ch _ Hr)) as V. rewrite <- (wr_id _ _ _ _ W) in V.
  intros E0. rewrite E0 in V. destruct V as [V _]. simpl in V. lia.
Qed.

Lemma commit_prepared d l0 l c : writing d l0 l c -> prepared d l0 -> commit c d = Ok (Some true, switch d).
Proof.
  intros W (P1 & _). destruct (wr_lock _ _ _ _ W) as [_ Hc]. unfold db.commit, db.prepare_commit.
  rewrite Hc, Z.eqb_refl. cbn [negb]. rewrite P1. destruct (Z.eqb_spec (active d) (read_txn (hd d))) as [E|].
  { exfalso. apply (wr_active _ _ _ _ W). right. rewrite E. by apply (chain_member _ _ _ _ (wr_full _ _ _ _ W)). }
  cbn [negb]. unfold stamp. destruct (Z.eqb_spec (txn_id (txns d (active d))) 0) as [E|]; [by apply (active_id _ _ _ _ W) in E|].
  done.
Qed.

Lemma commit_unprepared d l0 l c p d2 : writing d l0 l c -> unprepared d -> clone d = Ok (p, d2) ->
  p ∉ 0 :: active d :: l0 ->
  exists d', prepare_commit c false d = Ok (txn_id (txns d (active d)), d') /\ commit c d = Ok (Some true, switch d').
Proof.
  intros W U Ec Hp. destruct (prepare_spec d l0 l c false p d2 W U Ec Hp) as (d' & E & _).
  exists d'. split; [done|]. unfold db.commit. rewrite E.
  destruct (Z.eqb_spec (txn_id (txns d (active d))) 0) as [E0|]; [by apply (active_id _ _ _ _ W) in E0|done].
Qed.
End with_traits.
End dbfacts.
