(* ===== verification/DbReach.v ===== *)
(** * DbReach: versions, readers and the life of a write transaction

    The steps of a database, of its readers (a pin counts in [refs]) and of its one
    writer. The main theorem: whatever the steps, a version that a reader pins
    stays a version with the same contents. *)
From S2P Require Import Prelude Util Serial Memory Area AreaFacts Storage Wal Db DbFacts.

Module dbreach.
Import memory.
Export dbfacts.

Section with_traits.
Context (COUNT SLOT_ID : Z) (PAGE_SIZES : Z -> Z) (TXN_SLOT AREA_SIZE AREA_HEADER : Z) (fuel : nat).

Abbreviation alloc_slot := (db.alloc_slot COUNT SLOT_ID PAGE_SIZES AREA_SIZE AREA_HEADER fuel).
Abbreviation free := (db.free COUNT SLOT_ID PAGE_SIZES AREA_SIZE AREA_HEADER fuel).
Abbreviation clone := (db.clone COUNT SLOT_ID PAGE_SIZES TXN_SLOT AREA_SIZE AREA_HEADER fuel).
Abbreviation start_transaction := (db.start_transaction COUNT SLOT_ID PAGE_SIZES AREA_SIZE AREA_HEADER fuel).
Abbreviation prepare_commit := (db.prepare_commit COUNT SLOT_ID PAGE_SIZES TXN_SLOT AREA_SIZE AREA_HEADER fuel).
Abbreviation commit := (db.commit COUNT SLOT_ID PAGE_SIZES TXN_SLOT AREA_SIZE AREA_HEADER fuel).
Abbreviation frees := (dbfacts.frees COUNT SLOT_ID PAGE_SIZES AREA_SIZE AREA_HEADER fuel).

(** [l] are the versions of the database: the committed ones that the next commit
    keeps. *)
Definition versions (d : db) (l : list Z) : Prop :=
  idle d l \/ exists l0 c, writing d l0 l c /\ (unprepared d \/ prepared d l0).

(** The steps. A page that becomes a transaction is not one already
    ([pages_stay_disjoint] shows this of the allocator). *)
Inductive step (d : db) : db -> Prop :=
  | step_pin : step d (snd (txn_ref d))
  | step_pin_active : active d <> 0 -> step d (add_refs (active d) 1 d)
  | step_unpin x : 0 < refs (txns d x) -> step d (add_refs x (-1) d)
  | step_start c d' : start_transaction c d = Ok (Some d') -> step d d'
  | step_write r : active d <> 0 -> unprepared d ->
      step d (put_txn (active d) (set_root r (txns d (active d))) d)
  | step_alloc s p d' : active d <> 0 -> unprepared d -> alloc_slot s d = Ok (p, d') -> step d d'
  | step_free p d' : active d <> 0 -> unprepared d -> free p d = Ok d' -> step d d'
  | step_prepare c sync p d2 i d' : active d <> 0 -> unprepared d -> clone d = Ok (p, d2) -> refs (txns d p) = 0 -> p <> 0 -> p <> active d ->
      (forall l0 l, writing d l0 l c -> p ∉ l0) -> prepare_commit c sync d = Ok (i, d') -> step d d'
  | step_commit c d' : prepared_txn (hd d) <> read_txn (hd d) -> commit c d = Ok (Some true, d') -> step d d'
  | step_rollback c d' : txn_cursor_id (hd d) = c -> active d <> 0 -> rollback c d = (true, d') -> step d d'.

(** ** Pins *)

Lemma add_refs_txn x n d y : txns (add_refs x n d) y =
  set_refs (refs (txns d y) + if decide (y = x) then n else 0) (txns d y).
Proof.
  unfold add_refs. db_simpl. destruct (decide (y = x)) as [->|Hy]; [by rewrite upd_eq|].
  rewrite upd_ne by done. destruct (txns d y). unfold set_refs. cbn. f_equal. lia.
Qed.

Lemma idle_refs d l x n : idle d l -> 0 <= refs (txns d x) + n -> x <> next_txn_page (hd d) -> idle (add_refs x n d) l.
Proof.
  intros [Ch (I1 & I2 & I3) Ip (C1 & C2 & C3 & C4 & C5 & C6 & C7 & C8)] Hn Hx.
  split; change (hd (add_refs x n d)) with (hd d); try done; rewrite ?add_refs_txn.
  - cbn [set_refs start_txn]. eapply chain_ext; [|exact Ch]. intros y Hy. rewrite add_refs_txn. cbn [set_refs next_txn txn_id refs].
    split_and!; [done|done|]. pose proof (ch_refs _ _ _ _ Ch y Hy). destruct (decide (y = x)) as [->|]; lia.
  - split_and!; try done. cbn [set_refs refs]. rewrite decide_False by done. lia.
Qed.

Lemma writing_refs d l0 l c x n : writing d l0 l c -> 0 <= refs (txns d x) + n -> (x ∈ l \/ x ∉ l0 \/ 0 < refs (txns d x)) ->
  writing (add_refs x n d) l0 l c.
Proof.
  intros [Ch (l1 & El & Hne & H1) W3 W4 W5 W6 W7 W8] Hn Hx.
  split; change (hd (add_refs x n d)) with (hd d); change (active (add_refs x n d)) with (active d); rewrite ?add_refs_txn; try done.
  - cbn [set_refs start_txn]. eapply chain_ext; [|exact Ch]. intros y Hy. rewrite add_refs_txn. cbn [set_refs next_txn txn_id refs].
    split_and!; [done|done|]. pose proof (ch_refs _ _ _ _ Ch y Hy). destruct (decide (y = x)) as [->|]; lia.
  - exists l1. split_and!; [done|done|]. intros y Hy. rewrite add_refs_txn. cbn [set_refs refs]. rewrite H1 by done.
    destruct (decide (y = x)) as [->|]; [|lia]. exfalso. destruct Hx as [Hx|[Hx|Hx]].
    + pose proof (ch_nodup _ _ _ _ Ch) as N. rewrite El in N. apply list.NoDup_cons in N as [_ N].
      apply list.NoDup_app in N as (_ & N & _). by apply (N x).
    + apply Hx. rewrite El. apply elem_of_app. by left.
    + rewrite H1 in Hx by done. lia.
  - cbn [set_refs refs]. destruct (decide (active d = x)) as [<-|]; lia.
Qed.

Lemma prepared_refs d l0 x n : prepared d l0 -> x <> next_txn_page (hd d) -> prepared (add_refs x n d) l0.
Proof.
  intros (P1 & P2 & P3 & (C1 & C2 & C3 & C4 & C5 & C6 & C7 & C8)) Hx. split_and!; try done; unfold continues;
    change (hd (add_refs x n d)) with (hd d); change (active (add_refs x n d)) with (active d); rewrite ?add_refs_txn; try done.
  split_and!; try done. cbn [set_refs refs]. rewrite decide_False by done. lia.
Qed.

(** What may be pinned or unpinned. *)
Definition pinnable (d : db) (x : Z) : Prop :=
  0 < refs (txns d x) \/ x = read_txn (hd d) \/ x = active d /\ active d <> 0.

Lemma idle_pin d l x n : idle d l -> 0 <= refs (txns d x) + n -> pinnable d x -> idle (add_refs x n d) l.
Proof.
  intros I Hn Hx. apply idle_refs; [done|done|]. intros E.
  destruct I as [Ch (I1 & _) Ip (_ & _ & _ & _ & _ & _ & _ & C8)].
  destruct Hx as [Hx|[->|[-> Ha]]]; [rewrite E, C8 in Hx; lia| |done].
  apply Ip. rewrite <- E. right. by apply (chain_member _ _ _ _ Ch).
Qed.

Lemma writing_pin d l0 l c x n : writing d l0 l c -> unprepared d \/ prepared d l0 -> 0 <= refs (txns d x) + n ->
  pinnable d x -> writing (add_refs x n d) l0 l c /\ (unprepared (add_refs x n d) \/ prepared (add_refs x n d) l0).
Proof.
  intros W S Hn Hx. split.
  - apply writing_refs; [done|done|]. destruct Hx as [Hx|[->|[-> Ha]]]; [by do 2 right| |].
    + left. by apply (writing_read _ _ _ _ W).
    + right. left. intros E. apply (wr_active _ _ _ _ W). by right.
  - destruct S as [S|S]; [by left|right]. apply prepared_refs; [done|].
    destruct S as (_ & P2 & _ & (_ & _ & _ & _ & _ & _ & _ & C8)). intros E. destruct Hx as [Hx|[->|[-> Ha]]].
    + rewrite E, C8 in Hx. lia.
    + apply P2. rewrite <- E. do 2 right. by apply (chain_member _ _ _ _ (wr_full _ _ _ _ W)).
    + apply P2. rewrite <- E. right. left.
Qed.

Lemma versions_refs d l x n : versions d l -> 0 <= refs (txns d x) + n -> pinnable d x -> versions (add_refs x n d) l.
Proof.
  intros [I|(l0 & c & W & S)] Hn Hx; [left; by apply idle_pin|right; exists l0, c; by apply writing_pin].
Qed.

(** The pins the code takes do not make a count negative. *)
Lemma read_refs d l : versions d l -> 0 <= refs (txns d (read_txn (hd d))).
Proof.
  intros [I|(l0 & c & W & _)].
  - pose proof (id_chain _ _ I) as Ch. apply (ch_refs _ _ _ _ Ch), (chain_member _ _ _ _ Ch).
  - pose proof (wr_full _ _ _ _ W) as Ch. apply (ch_refs _ _ _ _ Ch), (chain_member _ _ _ _ Ch).
Qed.

(** ** Changes to the active transaction *)

(** Its root, its manager and its areas may change. *)
Definition own_fields (t t' : txn) : Prop :=
  txn_id t' = txn_id t /\ start_txn t' = start_txn t /\ refs t' = refs t.

Lemma writing_own d d' l0 l c : writing d l0 l c -> hd d' = hd d -> active d' = active d -> start_txn_id d' = start_txn_id d ->
  (forall o, o <> active d -> txns d' o = txns d o) -> own_fields (txns d (active d)) (txns d' (active d)) ->
  writing d' l0 l c /\ forall x, x ∈ l0 -> txns d' x = txns d x.
Proof.
  intros W Eh Ea Es Eo (E1 & E2 & E3). pose proof (wr_active _ _ _ _ W) as Ha.
  assert (forall x, x ∈ l0 -> txns d' x = txns d x) as Ex by (intros x Hx; apply Eo; intros ->; apply Ha; by right).
  split; [|done]. destruct W as [Ch (l1 & El & Hne & H1) W3 W4 W5 W6 W7 W8].
  destruct (chain_member _ _ _ _ Ch) as (Hr & _ & _).
  assert (start_txn (txns d (active d)) ∈ l0) as Hs.
  { rewrite El. apply elem_of_app. right. destruct l; [done|]. injection W3 as ->. left. }
  split; rewrite ?Eh, ?Ea, ?Es, ?E1, ?E2, ?E3; try done.
  - rewrite Ex by done. eapply chain_ext; [|exact Ch]. intros x Hx. rewrite Ex by done.
    split_and!; try done. by apply (ch_refs _ _ _ _ Ch).
  - exists l1. split_and!; [done|done|]. intros x Hx. rewrite Ex by (rewrite El; apply elem_of_app; by left). by apply H1.
  - by rewrite Ex.
  - by rewrite Ex.
Qed.

Lemma allocated_own d d' : allocated d d' -> own_fields (txns d (active d)) (txns d' (active d)).
Proof. intros [_ _ _ _ _ (s & m & ->)]. by split_and!. Qed.

(** ** Every step keeps what readers see *)

(** The version [x] is one of [l'] and has the contents it had. *)
Definition kept (d d' : db) (l' : list Z) (x : Z) : Prop := x ∈ l' /\ same_version (txns d x) (txns d' x).

Lemma versions_change d d' l : versions d l -> active d <> 0 -> unprepared d -> hd d' = hd d -> active d' = active d ->
  start_txn_id d' = start_txn_id d -> (forall o, o <> active d -> txns d' o = txns d o) ->
  own_fields (txns d (active d)) (txns d' (active d)) -> versions d' l /\ forall x, x ∈ l -> 0 < refs (txns d x) -> kept d d' l x.
Proof.
  intros [I|(l0 & c & W & _)] Ha U Eh Ea Es Eo Ef.
  { destruct (id_none _ _ I) as [? _]. done. }
  destruct (writing_own d d' l0 l c W Eh Ea Es Eo Ef) as [W' Ex]. split.
  - right. exists l0, c. split; [done|]. left. destruct U as [U1 U2]. split; by rewrite Eh.
  - intros x Hx _. split; [done|]. rewrite Ex by by eapply start_unique. by split_and!.
Qed.

Lemma step_versions d d' l : versions d l -> step d d' -> (length l <= fuel)%nat -> Z.of_nat (length l) < 2 ^ 31 - 4 ->
  exists l', versions d' l' /\ forall x, x ∈ l -> 0 < refs (txns d x) -> kept d d' l' x.
Proof.
  intros V S Hf Hlen.
  assert (forall x n, versions (add_refs x n d) l -> exists l', versions (add_refs x n d) l' /\
    forall y, y ∈ l -> 0 < refs (txns d y) -> kept d (add_refs x n d) l' y) as Hadd.
  { intros x n V'. exists l. split; [done|]. intros y Hy _. split; [done|]. rewrite add_refs_txn. by split_and!. }
  destruct S as [|Ha|x Hx|c d' E|r Ha U|s p d' Ha U E|p d' Ha U E|c sync p d2 i d' Ha U Ec Hp Hp0 Hpa Hpl E|c d' Hpr E|c d' Hc Ha E].
  - apply Hadd. apply versions_refs; [done| |by right; left]. pose proof (read_refs d l V). lia.
  - apply Hadd. apply versions_refs; [done| |by do 2 right]. destruct V as [I|(l0 & c & W & _)].
    + by destruct (id_none _ _ I).
    + pose proof (wr_refs _ _ _ _ W). lia.
  - apply Hadd. apply versions_refs; [done|lia|by left].
  - destruct V as [I|(l0 & c' & W & _)].
    + destruct (start_spec COUNT SLOT_ID PAGE_SIZES AREA_SIZE AREA_HEADER fuel c d l I Hf) as (l1 & s & l2 & El & H1 & _ & E' & H).
      rewrite E' in E. destruct (frees l1 (began c d)) as [d1| |] eqn:Ef; cbn [mbind outcome_bind] in E; try done.
      injection E as <-. destruct (H d1 eq_refl) as (W & U & _ & _ & _ & Ex). exists (s :: l2). split.
      * right. exists l, c. split; [done|by left].
      * intros x Hx Hr. split; [|rewrite Ex by done; by split_and!]. rewrite El in Hx. apply elem_of_app in Hx as [Hx|Hx]; [|done].
        rewrite H1 in Hr by done. lia.
    + unfold db.start_transaction in E. by rewrite (proj1 (wr_lock _ _ _ _ W)) in E.
  - exists l. eapply versions_change; try done; db_simpl; [by intros o Ho; rewrite upd_ne|by rewrite upd_eq].
  - pose proof (alloc_slot_allocated _ _ _ _ _ _ _ _ _ _ E) as A. exists l. eapply versions_change; try done; try apply A. by apply allocated_own.
  - pose proof (free_allocated _ _ _ _ _ _ _ _ _ E) as A. exists l. eapply versions_change; try done; try apply A. by apply allocated_own.
  - destruct (decide (txn_cursor_id (hd d) = c)) as [Hc|Hc].
    2: { exists l. unfold db.prepare_commit in E. destruct (Z.eqb_spec (txn_cursor_id (hd d)) c); [done|]. injection E as _ <-.
         split; [done|]. intros x Hx _. split; [done|]. by split_and!. }
    destruct V as [I|(l0 & c' & W & _)]; [by destruct (id_none _ _ I)|].
    assert (c' = c) as -> by (destruct (wr_lock _ _ _ _ W); congruence).
    assert (p ∉ 0 :: active d :: l0) as Hin.
    { intros [->|[->|Hin]%list.elem_of_cons]%list.elem_of_cons; [done|done|]. by apply (Hpl l0 l W). }
    destruct (prepare_spec COUNT SLOT_ID PAGE_SIZES TXN_SLOT AREA_SIZE AREA_HEADER fuel d l0 l c sync p d2 W U Ec Hin)
      as (d3 & E3 & W' & P' & _ & _ & _ & Un). rewrite E3 in E. injection E as _ <-.
    exists l. split; [right; exists l0, c; split; [done|by right]|]. intros x Hx _. split; [done|].
    apply Un. by eapply start_unique.
  - destruct V as [I|(l0 & c' & W & [[U _]|P])]; [by destruct (id_none _ _ I) as (_ & _ & ?)|done|].
    assert (txn_cursor_id (hd d) = c) as Hc.
    { unfold db.commit, db.prepare_commit in E. destruct (Z.eqb_spec (txn_cursor_id (hd d)) c); [done|].
      by cbn in E. }
    assert (c' = c) as -> by (destruct (wr_lock _ _ _ _ W); congruence).
    rewrite (commit_prepared COUNT SLOT_ID PAGE_SIZES TXN_SLOT AREA_SIZE AREA_HEADER fuel d l0 l c W P) in E. injection E as <-.
    destruct (switch_spec d l0 l c W P Hlen) as (I & _ & Et). exists (l ++ [active d]). split; [by left|].
    intros x Hx _. split; [apply elem_of_app; by left|]. rewrite Et. by split_and!.
  - destruct V as [I|(l0 & c' & W & _)]; [by destruct (id_none _ _ I)|].
    assert (c' = c) as -> by (destruct (wr_lock _ _ _ _ W); congruence).
    pose proof (rollback_spec d l0 l c W) as R. rewrite E in R. destruct R as (_ & I & _ & _ & Ex).
    exists l0. split; [by left|]. intros x Hx _. assert (x ∈ l0) by by eapply start_unique. split; [done|].
    rewrite Ex by done. by split_and!.
Qed.
(** ** A store of versions: what the operations amount to *)

(** Abstractly a database is the list of its committed versions, each with an id
    and a root, and the root of the write transaction. *)
Record store := Store { committed : list (Z * Z); pending : option Z }.

Definition version (d : db) (o : Z) : Z * Z := (txn_id (txns d o), root (txns d o)).

(** A commit appends the pending version and may drop the oldest ones, but never
    the current one. *)
Inductive spec_step (s : store) : store -> Prop :=
  | spec_stay : spec_step s s
  | spec_start v : list.last (committed s) = Some v -> pending s = None ->
      spec_step s (Store (committed s) (Some (snd v)))
  | spec_write r r' : pending s = Some r -> spec_step s (Store (committed s) (Some r'))
  | spec_commit old kept r i v : pending s = Some r -> committed s = old ++ kept -> list.last kept = Some (i, v) ->
      spec_step s (Store (kept ++ [(successor i, r)]) None)
  | spec_rollback r : pending s = Some r -> spec_step s (Store (committed s) None).

(** The database represents the store. *)
Definition represents (d : db) (s : store) : Prop :=
  (exists l, idle d l /\ s = Store (map (version d) l) None) \/
  (exists l0 l c, writing d l0 l c /\ (unprepared d \/ prepared d l0) /\
    s = Store (map (version d) l0) (Some (root (txns d (active d))))).

Lemma map_version d d' l : (forall x, x ∈ l -> same_version (txns d x) (txns d' x)) -> map (version d') l = map (version d) l.
Proof.
  intros E. apply List.map_ext_in. intros x Hx. apply list_elem_of_In in Hx. destruct (E x Hx) as (E1 & E2 & _).
  unfold version. by rewrite E1, E2.
Qed.

Lemma map_last {X Y} (f : X -> Y) l x : list.last l = Some x -> list.last (map f l) = Some (f x).
Proof. intros E. apply last_Some in E as [l' ->]. rewrite map_app. cbn [map]. by rewrite last_snoc. Qed.

Lemma represents_pin d s x n : represents d s -> 0 <= refs (txns d x) + n -> pinnable d x -> represents (add_refs x n d) s.
Proof.
  intros R Hn Hx.
  assert (forall l0, map (version (add_refs x n d)) l0 = map (version d) l0) as Em.
  { intros l0. apply map_version. intros y _. rewrite add_refs_txn. by split_and!. }
  destruct R as [(l1 & I & ->)|(l0 & l1 & c & W & S & ->)].
  - left. exists l1. rewrite Em. split; [by apply idle_pin|done].
  - right. destruct (writing_pin d l0 l1 c x n W S Hn Hx) as [W' S']. exists l0, l1, c. rewrite Em.
    split_and!; [done|done|]. change (active (add_refs x n d)) with (active d). by rewrite add_refs_txn.
Qed.

Lemma represents_versions d s : represents d s -> exists l, versions d l.
Proof. intros [(l & I & _)|(l0 & l & c & W & S & _)]; exists l; [by left|right; by exists l0, c]. Qed.

Lemma represents_change d d' s r : represents d s -> active d <> 0 -> unprepared d -> hd d' = hd d -> active d' = active d ->
  start_txn_id d' = start_txn_id d -> (forall o, o <> active d -> txns d' o = txns d o) ->
  own_fields (txns d (active d)) (txns d' (active d)) -> root (txns d' (active d)) = r ->
  exists s', spec_step s s' /\ represents d' s' /\ (r = root (txns d (active d)) -> s' = s).
Proof.
  intros [(l & I & _)|(l0 & l & c & W & _ & ->)] Ha U Eh Ea Es Eo Ef Er.
  { destruct (id_none _ _ I) as [? _]. done. }
  destruct (writing_own d d' l0 l c W Eh Ea Es Eo Ef) as [W' Ex].
  exists (Store (map (version d) l0) (Some r)). split_and!.
  - by apply spec_write with (r := root (txns d (active d))).
  - right. exists l0, l, c. split_and!; [done| |].
    + left. destruct U as [U1 U2]. split; by rewrite Eh.
    + rewrite Ea, Er. f_equal. symmetry. apply map_version. intros x Hx. rewrite Ex by done. by split_and!.
  - by intros ->.
Qed.

(** The steps that change the versions, one by one. *)
Lemma start_refines d d' s c : represents d s -> start_transaction c d = Ok (Some d') ->
  (forall l, idle d l -> (length l <= fuel)%nat) -> exists s', spec_step s s' /\ represents d' s'.
Proof.
  intros [(l & I & ->)|(l0 & l & c' & W & _)] E Hb.
  2: { unfold db.start_transaction in E. by rewrite (proj1 (wr_lock _ _ _ _ W)) in E. }
  destruct (start_spec COUNT SLOT_ID PAGE_SIZES AREA_SIZE AREA_HEADER fuel c d l I (Hb l I))
    as (l1 & s & l2 & El & H1 & _ & E' & H).
  rewrite E' in E. destruct (frees l1 (began c d)) as [d1| |] eqn:Ef; cbn [mbind outcome_bind] in E; try done.
  injection E as <-. destruct (H d1 eq_refl) as (W & U & _ & _ & Er & Ex).
  exists (Store (map (version d) l) (Some (root (txns d (read_txn (hd d)))))). split.
  - apply (spec_start (Store _ None) (version d (read_txn (hd d)))); [|done]. apply map_last. apply (id_chain _ _ I).
  - right. exists l, (s :: l2), c. split_and!; [done|by left|]. rewrite Er. f_equal. symmetry. apply map_version.
    intros x Hx. rewrite Ex by done. by split_and!.
Qed.

Lemma prepare_refines d d' s c sync p d2 i : represents d s -> active d <> 0 -> unprepared d -> clone d = Ok (p, d2) ->
  p <> 0 -> p <> active d -> (forall l0 l, writing d l0 l c -> p ∉ l0) -> prepare_commit c sync d = Ok (i, d') ->
  represents d' s.
Proof.
  intros R Ha U Ec Hp0 Hpa Hpl E. destruct (decide (txn_cursor_id (hd d) = c)) as [Hc|Hc].
  2: { unfold db.prepare_commit in E. destruct (Z.eqb_spec (txn_cursor_id (hd d)) c); [done|]. by injection E as _ <-. }
  destruct R as [(l & I & _)|(l0 & l & c' & W & _ & ->)]; [by destruct (id_none _ _ I)|].
  assert (c' = c) as -> by (destruct (wr_lock _ _ _ _ W); congruence).
  assert (p ∉ 0 :: active d :: l0) as Hin.
  { intros [->|[->|Hin]%list.elem_of_cons]%list.elem_of_cons; [done|done|]. by apply (Hpl l0 l W). }
  destruct (prepare_spec COUNT SLOT_ID PAGE_SIZES TXN_SLOT AREA_SIZE AREA_HEADER fuel d l0 l c sync p d2 W U Ec Hin)
    as (d3 & E3 & W' & P' & Ea & _ & (_ & Sr & _) & Un). rewrite E3 in E. injection E as _ <-.
  right. exists l0, l, c. split_and!; [done|by right|]. rewrite Ea, Sr. f_equal. symmetry. apply map_version.
  intros x Hx. by apply Un.
Qed.

Lemma commit_refines d d' s c : represents d s -> prepared_txn (hd d) <> read_txn (hd d) -> commit c d = Ok (Some true, d') ->
  (forall l0 l, writing d l0 l c -> Z.of_nat (length l0) < 2 ^ 31 - 4) -> exists s', spec_step s s' /\ represents d' s'.
Proof.
  intros [(l & I & _)|(l0 & l & c' & W & [[U _]|P] & ->)] Hpr E Hb; [by destruct (id_none _ _ I) as (_ & _ & ?)|done|].
  assert (txn_cursor_id (hd d) = c) as Hc.
  { unfold db.commit, db.prepare_commit in E. destruct (Z.eqb_spec (txn_cursor_id (hd d)) c); [done|]. by cbn in E. }
  assert (c' = c) as -> by (destruct (wr_lock _ _ _ _ W); congruence).
  rewrite (commit_prepared COUNT SLOT_ID PAGE_SIZES TXN_SLOT AREA_SIZE AREA_HEADER fuel d l0 l c W P) in E. injection E as <-.
  pose proof (Hb l0 l W) as Hlen. destruct (wr_live _ _ _ _ W) as (l1 & El & _ & _).
  destruct (switch_spec d l0 l c W P ltac:(rewrite El, length_app in Hlen; lia)) as (I & _ & Et).
  destruct (writing_read _ _ _ _ W) as [_ HL].
  exists (Store (map (version d) l ++ [(successor (txn_id (txns d (read_txn (hd d)))), root (txns d (active d)))]) None). split.
  - eapply (spec_commit _ (map (version d) l1)); [done| |by apply (map_last (version d)) in HL]. cbn [committed]. by rewrite El, map_app.
  - left. exists (l ++ [active d]). split; [done|]. f_equal. rewrite map_app. cbn [map].
    assert (version (switch d) (active d) = (successor (txn_id (txns d (read_txn (hd d)))), root (txns d (active d)))) as ->
      by (unfold version; by rewrite Et, (wr_id _ _ _ _ W)).
    f_equal.
Qed.

Lemma rollback_refines d d' s c : represents d s -> txn_cursor_id (hd d) = c -> active d <> 0 -> rollback c d = (true, d') ->
  exists s', spec_step s s' /\ represents d' s'.
Proof.
  intros [(l & I & _)|(l0 & l & c' & W & _ & ->)] Hc Ha E; [by destruct (id_none _ _ I)|].
  assert (c' = c) as -> by (destruct (wr_lock _ _ _ _ W); congruence).
  pose proof (rollback_spec d l0 l c W) as Rb. rewrite E in Rb. destruct Rb as (_ & I & _ & _ & Ex).
  exists (Store (map (version d) l0) None). split; [by eapply spec_rollback|]. left. exists l0. split; [done|]. f_equal.
  symmetry. apply map_version. intros x Hx. rewrite Ex by done. by split_and!.
Qed.

(** C28: every step is a step of the abstract store of versions. *)
Theorem step_refines d d' s : represents d s -> step d d' ->
  (forall l, idle d l \/ (exists c l1, writing d l c l1) -> (length l <= fuel)%nat /\ Z.of_nat (length l) < 2 ^ 31 - 4) ->
  exists s', spec_step s s' /\ represents d' s'.
Proof.
  intros R S Hb. destruct (represents_versions d s R) as [lv V].
  assert (forall x n, represents (add_refs x n d) s -> exists s', spec_step s s' /\ represents (add_refs x n d) s') as Hadd
    by (intros x n R'; exists s; split; [constructor|done]).
  destruct S as [|Ha|x Hx|c d' E|r Ha U|sl p d' Ha U E|p d' Ha U E|c sync p d2 i d' Ha U Ec Hp Hp0 Hpa Hpl E|c d' Hpr E|c d' Hc Ha E].
  - apply Hadd. apply represents_pin; [done| |by right; left]. pose proof (read_refs d lv V). lia.
  - apply Hadd. apply represents_pin; [done| |by do 2 right]. destruct R as [(l & I & _)|(l0 & l & c & W & _)].
    + by destruct (id_none _ _ I).
    + pose proof (wr_refs _ _ _ _ W). lia.
  - apply Hadd. apply represents_pin; [done|lia|by left].
  - eapply start_refines; [done..|]. intros l I. by apply Hb; left.
  - edestruct (represents_change d (put_txn (active d) (set_root r (txns d (active d))) d) s) as (s' & H1 & H2 & _);
      [done..| | | |by exists s']; db_simpl; [by intros o Ho; rewrite upd_ne|by rewrite upd_eq|by rewrite upd_eq].
  - pose proof (alloc_slot_allocated _ _ _ _ _ _ _ _ _ _ E) as A.
    edestruct (represents_change d d' s) as (s' & H1 & H2 & _); [done..|apply A|apply A|apply A|apply A|by apply allocated_own|done|by exists s'].
  - pose proof (free_allocated _ _ _ _ _ _ _ _ _ E) as A.
    edestruct (represents_change d d' s) as (s' & H1 & H2 & _); [done..|apply A|apply A|apply A|apply A|by apply allocated_own|done|by exists s'].
  - exists s. split; [constructor|]. by eapply prepare_refines.
  - eapply commit_refines; [done..|]. intros l0 l W. apply Hb. right. by exists l, c.
  - by eapply rollback_refines.
Qed.
(** ** The claims *)

(** A run during which a reader pins the version [x]. *)
Inductive held (x : Z) : db -> db -> Prop :=
  | held_refl d : held x d d
  | held_step d d1 d2 : step d d1 -> 0 < refs (txns d x) ->
      (forall l, versions d l -> (length l <= fuel)%nat /\ Z.of_nat (length l) < 2 ^ 31 - 4) ->
      held x d1 d2 -> held x d d2.

(** C29: a version that a reader pins stays a version, with the id, the root and
    the big values it had, whatever the writer and the other readers do. *)
Theorem pinned_version_survives x d d' l : versions d l -> x ∈ l -> held x d d' ->
  exists l', versions d' l' /\ kept d d' l' x.
Proof.
  intros V Hx H. revert l V Hx. induction H as [d|d d1 d2 S Hr Hb H IH]; intros l V Hx.
  - exists l. split; [done|]. split; [done|]. by split_and!.
  - destruct (Hb l V) as [Hf Hl]. destruct (step_versions d d1 l V S Hf Hl) as (l1 & V1 & K).
    destruct (K x Hx Hr) as [Hx1 (E1 & E2 & E3)]. destruct (IH l1 V1 Hx1) as (l2 & V2 & Hx2 & F1 & F2 & F3).
    exists l2. split; [done|]. split; [done|]. split_and!; congruence.
Qed.

(** starting a write transaction frees exactly the versions that are older than
    the oldest one in use; the others are as before, and the new transaction starts
    from the contents of the current one. *)
Theorem start_drops_unused c d l : idle d l -> (length l <= fuel)%nat ->
  exists l1 s l2, l = l1 ++ s :: l2 /\ (forall x, x ∈ l1 -> refs (txns d x) = 0) /\
    (0 < refs (txns d s) \/ s = read_txn (hd d)) /\
    start_transaction c d = (d1 ← frees l1 (began c d); Ok (Some (started (read_txn (hd d)) s d1))) /\
    forall d1, frees l1 (began c d) = Ok d1 ->
      let d' := started (read_txn (hd d)) s d1 in
      writing d' l (s :: l2) c /\ unprepared d' /\ read_txn (hd d') = read_txn (hd d) /\
      active d' = next_txn_page (hd d) /\ root (txns d' (active d')) = root (txns d (read_txn (hd d))) /\
      forall x, x ∈ l -> txns d' x = txns d x.
Proof. exact (start_spec COUNT SLOT_ID PAGE_SIZES AREA_SIZE AREA_HEADER fuel c d l). Qed.

(** a page that may be recycled was freed by a transaction older than every
    version that is kept, so no reader sees it. *)
Theorem recycled_pages_are_old d l0 l c i x : writing d l0 l c -> may_recycle d i = true ->
  serial.valid 32 (serial.Serial i) ->
  serial.steps 32 (serial.Serial i) (serial.Serial (txn_id (txns d (read_txn (hd d))))) < serial.HALF_RANGE 32 - 1 ->
  x ∈ l -> older i (txn_id (txns d x)) = true.
Proof.
  intros W Hm Vi Hw Hx. unfold may_recycle in Hm. rewrite (wr_oldest _ _ _ _ W) in Hm.
  pose proof (wr_full _ _ _ _ W) as Ch. destruct (wr_live _ _ _ _ W) as (l1 & El & _ & _).
  pose proof (wr_start _ _ _ _ W) as Hs. destruct (writing_read _ _ _ _ W) as [Hr Hl].
  set (s := start_txn (txns d (active d))) in *. set (r := read_txn (hd d)) in *.
  assert (forall y, y ∈ l -> serial.valid 32 (serial.Serial (txn_id (txns d y)))) as V.
  { intros y Hy. apply (ch_valid _ _ _ _ Ch). by eapply start_unique. }
  pose proof (ch_trail _ _ _ _ Ch) as T. rewrite El in T. apply trail_app_r in T.
  pose proof (ch_short _ _ _ _ Ch) as Sh. rewrite El, length_app in Sh. change (2 ^ 31) with 2147483648 in Sh.
  assert (forall y j, l !! j = Some y -> serial.steps 32 (serial.Serial (txn_id (txns d s))) (serial.Serial (txn_id (txns d y))) = Z.of_nat j) as St.
  { intros y j Hj. eapply trail_steps; [exact T|exact Hs|exact V|lia|exact Hj]. }
  apply list_elem_of_lookup_1 in Hx as [j Hj]. rewrite last_lookup in Hl. pose proof (St _ _ Hj) as Sx. pose proof (St _ _ Hl) as Sr.
  pose proof (lookup_lt_Some _ _ _ Hj) as Lj. assert (s ∈ l) as Hsl by (destruct l; [done|injection Hs as ->; left]).
  pose proof (V x ltac:(by eapply list_elem_of_lookup_2)) as Vx. pose proof (V s Hsl) as Vs. pose proof (V r Hr) as Vr.
  unfold older in *. apply (serial.ltb_window 32) in Hm; [|lia|done|done]. apply (serial.ltb_window 32); [lia|done|done|].
  rewrite !serial.steps_value in * by (lia || done). unfold serial.valid in *. cbn [serial.value] in *.
  change (serial.MAX_VALUE 32) with 4294967295 in *. change (serial.HALF_RANGE 32) with 2147483648 in *.
  clear -Hm Hw Sx Sr Lj Vx Vs Vr Vi Sh. revert Hm Hw Sx Sr. repeat zcase; intros; lia.
Qed.

(** What may happen between the start of the transaction of [c] and its end: readers pin
    and unpin versions; the transaction changes its root, allocates and frees pages, and
    may prepare its commit. [l] are the versions: a page that becomes a transaction is not
    one of them ([pages_stay_disjoint] shows this of the allocator). *)
Inductive work (c : Z) (l : list Z) (d : db) : db -> Prop :=
  | work_read x n : 0 <= refs (txns d x) + n -> pinnable d x -> work c l d (add_refs x n d)
  | work_write r : unprepared d -> work c l d (put_txn (active d) (set_root r (txns d (active d))) d)
  | work_alloc s p d' : unprepared d -> alloc_slot s d = Ok (p, d') -> work c l d d'
  | work_free p d' : unprepared d -> free p d = Ok d' -> work c l d d'
  | work_prepare sync p d2 i d' : unprepared d -> clone d = Ok (p, d2) -> p ∉ 0 :: active d :: l ->
      prepare_commit c sync d = Ok (i, d') -> work c l d d'.

(** What it leaves of the state [d] in which it began. *)
Record working (c : Z) (l0 l : list Z) (d d' : db) : Prop := {
  wk_writing : writing d' l0 l c;
  wk_phase : unprepared d' \/ prepared d' l0;
  wk_active : active d' = active d;
  wk_read : read_txn (hd d') = read_txn (hd d);
  wk_same : forall x, x ∈ l0 -> same_txn (txns d x) (txns d' x)
}.

Lemma work_working c l0 l d d' : writing d l0 l c -> unprepared d \/ prepared d l0 -> work c l0 d d' -> working c l0 l d d'.
Proof.
  intros W S H. assert (forall d', unprepared d -> hd d' = hd d -> active d' = active d -> start_txn_id d' = start_txn_id d ->
    (forall o, o <> active d -> txns d' o = txns d o) -> own_fields (txns d (active d)) (txns d' (active d)) -> working c l0 l d d') as Hown.
  { intros d1 [U1 U2] Eh Ea Es Eo Ef. destruct (writing_own d d1 l0 l c W Eh Ea Es Eo Ef) as [W' Ex].
    split; [done|left; split; by rewrite Eh|done|by rewrite Eh|]. intros x Hx. rewrite Ex by done. apply same_txn_refl. }
  destruct H as [x n Hn Hx|r U|s p d' U E|p d' U E|sync p d2 i d' U Ec Hin E].
  - destruct (writing_pin d l0 l c x n W S Hn Hx) as [W' S']. split; try done. intros y _. rewrite add_refs_txn. by destruct (txns d y).
  - apply Hown; db_simpl; try done; [by intros o Ho; rewrite upd_ne|by rewrite upd_eq].
  - pose proof (alloc_slot_allocated _ _ _ _ _ _ _ _ _ _ E) as A. apply Hown; try done; try apply A. by apply allocated_own.
  - pose proof (free_allocated _ _ _ _ _ _ _ _ _ E) as A. apply Hown; try done; try apply A. by apply allocated_own.
  - destruct (prepare_spec COUNT SLOT_ID PAGE_SIZES TXN_SLOT AREA_SIZE AREA_HEADER fuel d l0 l c sync p d2 W U Ec Hin)
      as (d3 & E3 & W' & P' & Ea & Er & _ & Un). rewrite E3 in E. injection E as _ <-. split; try done; [by right|]. intros x Hx. by apply Un.
Qed.

Lemma works_working c l0 l d d' : writing d l0 l c -> unprepared d \/ prepared d l0 -> rtc (work c l0) d d' -> working c l0 l d d'.
Proof.
  intros W S R. induction R as [d|d d1 d2 St _ IH]; [split; try done; intros; apply same_txn_refl|].
  destruct (work_working c l0 l d d1 W S St) as [W1 S1 A1 R1 X1]. destruct (IH W1 S1) as [W2 S2 A2 R2 X2].
  split; [done|done|congruence|congruence|]. intros x Hx. eapply same_txn_trans; [by apply X1|by apply X2].
Qed.

(** C34: a write transaction that is rolled back, prepared or not, leaves the database idle
    as it was before the transaction started: with the same versions, the same newest one
    and the same page for the next transaction, which holds a copy of the newest version
    again. The pages of the versions are the same but for the pins readers took meanwhile
    and, where the commit was prepared, the link of the newest one, which nobody follows. *)
Theorem rollback_restores c d l d1 d2 : idle d l -> (length l <= fuel)%nat -> start_transaction c d = Ok (Some d1) -> rtc (work c l) d1 d2 ->
  let '(done, d') := rollback c d2 in
  done = true /\ idle d' l /\ read_txn (hd d') = read_txn (hd d) /\ next_txn_page (hd d') = next_txn_page (hd d) /\
  forall x, x ∈ l -> same_txn (txns d x) (txns d' x).
Proof.
  intros I Hf E R. destruct (start_spec COUNT SLOT_ID PAGE_SIZES AREA_SIZE AREA_HEADER fuel c d l I Hf) as (l1 & s & l2 & _ & _ & _ & E' & H).
  rewrite E' in E. destruct (frees l1 (began c d)) as [d3| |]; cbn [mbind outcome_bind] in E; try done. injection E as <-.
  destruct (H d3 eq_refl) as (W & U & Er & Ea & _ & Ex).
  destruct (works_working c l (s :: l2) _ _ W (or_introl U) R) as [W2 _ A2 R2 X2].
  pose proof (rollback_spec d2 l (s :: l2) c W2) as B. destruct (rollback c d2) as [b d']. destruct B as (B1 & B2 & B3 & B4 & B5).
  split_and!; [done|done|congruence|congruence|]. intros x Hx. rewrite B5 by done. specialize (X2 x Hx). by rewrite Ex in X2.
Qed.

(** a commit makes the transaction the newest version, with its root; the
    versions before it that are kept do not change. *)
Theorem commit_publishes d l0 l c p d2 : writing d l0 l c -> unprepared d -> clone d = Ok (p, d2) ->
  p ∉ 0 :: active d :: l0 -> Z.of_nat (length l) < 2 ^ 31 - 4 ->
  exists d', commit c d = Ok (Some true, d') /\ idle d' (l ++ [active d]) /\ read_txn (hd d') = active d /\
    same_version (txns d (active d)) (txns d' (read_txn (hd d'))) /\ undisturbed d d' l.
Proof.
  intros W U Ec Hp Hl.
  destruct (prepare_spec COUNT SLOT_ID PAGE_SIZES TXN_SLOT AREA_SIZE AREA_HEADER fuel d l0 l c false p d2 W U Ec Hp)
    as (d1 & E1 & W1 & P1 & Ea & Er & Sv & Un).
  destruct (commit_unprepared COUNT SLOT_ID PAGE_SIZES TXN_SLOT AREA_SIZE AREA_HEADER fuel d l0 l c p d2 W U Ec Hp)
    as (d3 & E3 & E4). assert (d3 = d1) as -> by congruence.
  destruct (switch_spec d1 l0 l c W1 P1 Hl) as (I & Ir & Et). exists (switch d1). rewrite <- Ea at 1. split; [done|].
  rewrite Ir, Ea. split; [by rewrite Ea in I|]. split; [done|]. rewrite Et. split; [done|].
  intros x Hx. rewrite Et. apply Un. by eapply start_unique.
Qed.

End with_traits.
(** ** A small database *)

Definition sample_sizes (s : Z) : Z := 64 * (s + 1).
Definition blank_txn : txn := Txn 0 0 0 bigmem_init 0 0 0 0 0 (Manager (fun _ => Slot 0 0 0 0 0) 0 0 0 0).
Definition empty_db : db :=
  Db (Header 0 0 0 false 0 0 0) (fun _ => blank_txn)
    (Pages (fun _ => 0) (fun _ _ => Item 0 0) (fun _ => 0) (fun _ => 0))
    (storage.Store (fun _ => area.Header 0 0 0) area.pool_init 4096 (2 ^ 30)) 0 0 false.

Abbreviation s_init := (init 4 1 sample_sizes 3 4096 32 4 100).
Abbreviation s_start := (start_transaction 4 1 sample_sizes 4096 32 4).
Abbreviation s_clone := (clone 4 1 sample_sizes 3 4096 32 4).
Abbreviation s_prepare := (prepare_commit 4 1 sample_sizes 3 4096 32 4).
Abbreviation s_commit := (commit 4 1 sample_sizes 3 4096 32 4).
Abbreviation s_step := (step 4 1 sample_sizes 3 4096 32 4).

Definition value_or {X} (x0 : X) (r : outcome X) : X := match r with Ok x => x | _ => x0 end.

Definition sample : db := snd (value_or (0, empty_db) (s_init empty_db)).

(** Cursor 7 writes, and wrote the root [r]. *)
Definition opened : db := default empty_db (value_or None (s_start 7 sample)).
Definition written (r : Z) (d : db) : db := put_txn (active d) (set_root r (txns d (active d))) d.

Lemma written_keeps r d l0 l c : writing d l0 l c -> writing (written r d) l0 l c.
Proof.
  intros W. eapply writing_own; [exact W|done..| |]; unfold written; db_simpl.
  - intros o Ho. by rewrite upd_ne.
  - rewrite upd_eq. by split_and!.
Qed.

(** Only evaluated by [vm_compute]. *)
#[local] Opaque sample opened written.

Lemma ok_some_inj {X} (x y : X) : Ok (Some x) = Ok (Some y) -> x = y.
Proof. by intros [= ->]. Qed.

Lemma ok_fst {X} (r : outcome (Z * X)) k :
  match r with Ok (p, _) => p =? k | _ => false end = true -> exists x, r = Ok (k, x).
Proof. destruct r as [[p x]| |]; [|done..]. intros ->%Z.eqb_eq. by exists x. Qed.

Lemma sample_idle : idle sample [4256].
Proof.
  split; [split| | |].
  - by vm_compute.
  - by vm_compute.
  - done.
  - apply list.NoDup_cons. split; [by intros ?%list_elem_of_singleton|apply list.NoDup_singleton].
  - intros o ->%list_elem_of_singleton. by vm_compute.
  - intros o ->%list_elem_of_singleton. by vm_compute.
  - done.
  - by vm_compute.
  - assert (next_txn_page (hd sample) = 4512) as -> by by vm_compute.
    by intros [?|?%list_elem_of_singleton]%list.elem_of_cons.
  - split_and!; by vm_compute.
Qed.

Lemma sample_starts : s_start 7 sample = Ok (Some opened).
Proof.
  change opened with (default empty_db (value_or None (s_start 7 sample))). assert (match s_start 7 sample with Ok (Some _) => true | _ => false end = true) as H by by vm_compute.
  by destruct (s_start 7 sample) as [[d|]| |].
Qed.

Lemma opened_writing : writing opened [4256] [4256] 7 /\ unprepared opened.
Proof.
  destruct (start_spec 4 1 sample_sizes 4096 32 4 7 sample [4256] sample_idle ltac:(simpl; lia))
    as (l1 & s & l2 & El & H1 & _ & E & H).
  assert (l1 = [] /\ s = 4256 /\ l2 = []) as (-> & -> & ->).
  { clear -El. destruct l1 as [|? [|??]]; [|done..]. by injection El as <- <-. }
  rewrite sample_starts in E. cbn [dbfacts.frees mbind outcome_bind] in E.
  apply ok_some_inj in E. rewrite E. destruct (H _ eq_refl) as (W & U & _). exact (conj W U).
Qed.

Lemma sample_root : root (txns sample (read_txn (hd sample))) = 0.
Proof. by vm_compute. Qed.

Lemma start_drops_unused_witness : exists d', s_start 7 sample = Ok (Some d') /\ root (txns d' (active d')) = 0.
Proof.
  destruct (start_drops_unused 4 1 sample_sizes 4096 32 4 7 sample [4256] sample_idle ltac:(simpl; lia))
    as (l1 & s & l2 & El & H1 & _ & E & H).
  assert (l1 = []) as -> by (clear -El; by destruct l1 as [|? [|??]]).
  cbn [dbfacts.frees mbind outcome_bind] in E. destruct (H (began 7 sample) eq_refl) as (_ & _ & _ & _ & R & _).
  exists (started (read_txn (hd sample)) s (began 7 sample)). split; [exact E|]. exact (eq_trans R sample_root).
Defined.

Lemma written_writing : writing (written 8 opened) [4256] [4256] 7 /\ unprepared (written 8 opened).
Proof.
  split; [apply written_keeps, opened_writing|by vm_compute].
Qed.

(** A transaction that writes a root, and prepares its commit. *)
Lemma rollback_restores_witness : exists i d2, s_prepare 7 false (written 8 opened) = Ok (i, d2) /\ prepared_txn (hd d2) <> read_txn (hd d2) /\
  fst (rollback 7 d2) = true /\ idle (snd (rollback 7 d2)) [4256] /\ next_txn_page (hd (snd (rollback 7 d2))) = 4512.
Proof.
  destruct written_writing as [W U]. destruct (ok_fst (s_clone (written 8 opened)) 4768) as [d3 Ec]; [by vm_compute|].
  assert (4768 ∉ 0 :: active (written 8 opened) :: [4256]) as Hp.
  { assert (active (written 8 opened) = 4512) as -> by by vm_compute. intros [?|[?|?%list_elem_of_singleton]%list.elem_of_cons]%list.elem_of_cons; done. }
  destruct (prepare_spec 4 1 sample_sizes 3 4096 32 4 (written 8 opened) [4256] [4256] 7 false 4768 d3 W U Ec Hp) as (d2 & E & W2 & P & _).
  eexists _, d2. split; [exact E|]. pose proof (rollback_restores 4 1 sample_sizes 3 4096 32 4 7 sample [4256] opened d2 sample_idle ltac:(simpl; lia) sample_starts) as T.
  assert (prepared_txn (hd d2) <> read_txn (hd d2)) as Hn.
  { destruct P as [-> _]. intros Eq. apply (wr_active _ _ _ _ W2). rewrite Eq. right. by apply (writing_read _ _ _ _ W2). }
  split; [exact Hn|]. destruct (rollback 7 d2) as [b d'] eqn:Er. cbn [fst snd]. destruct T as (T1 & T2 & _ & T4 & _).
  - eapply rtc_l; [apply work_write; apply opened_writing|]. eapply rtc_once.
    exact (work_prepare 4 1 sample_sizes 3 4096 32 4 7 [4256] (written 8 opened) false 4768 d3 _ d2 U Ec Hp E).
  - split_and!; [done|done|]. rewrite T4. by vm_compute.
Defined.

Lemma commit_publishes_witness : exists d',
  s_commit 7 (written 8 opened) = Ok (Some true, d') /\ idle d' [4256; 4512] /\ root (txns d' (read_txn (hd d'))) = 8.
Proof.
  destruct written_writing as [W U].
  destruct (ok_fst (s_clone (written 8 opened)) 4768) as [d2 Ec]; [by vm_compute|].
  assert (active (written 8 opened) = 4512) as Ea by by vm_compute.
  destruct (commit_publishes 4 1 sample_sizes 3 4096 32 4 (written 8 opened) [4256] [4256] 7 4768 d2 W U Ec)
    as (d' & E & I & _ & (_ & Sr & _) & _).
  - rewrite Ea. intros [?|[?|?%list_elem_of_singleton]%list.elem_of_cons]%list.elem_of_cons; done.
  - done.
  - exists d'. split; [done|]. rewrite Ea in I. split; [done|]. rewrite Sr. by vm_compute.
Defined.

Lemma recycled_pages_are_old_witness : may_recycle opened 4294967295 = true /\ older 4294967295 (txn_id (txns opened 4256)) = true.
Proof.
  split; [by vm_compute|].
  apply (recycled_pages_are_old opened [4256] [4256] 7 4294967295 4256 (proj1 opened_writing)).
  - by vm_compute.
  - by split; vm_compute.
  - by vm_compute.
  - left.
Defined.

Lemma sample_represents : represents sample (Store [(1, 0)] None).
Proof. left. exists [4256]. split; [exact sample_idle|by vm_compute]. Qed.

(** A database whose current version is the oldest one has no other. *)
Lemma single_version d l x : txn_lock (hd d) = false -> read_txn (hd d) = x -> start_txn (txns d x) = x ->
  next_txn (txns d x) = 0 -> (idle d l \/ exists l0 c, writing d l0 l c) -> l = [x].
Proof.
  intros Hl Hr Hs Hn [I|(l0 & c & W)].
  - pose proof (id_chain _ _ I) as Ch. rewrite Hr, Hs in Ch. destruct Ch as [H1 _ H3 H4 _ _ _].
    destruct l as [|y l]; [done|]. injection H1 as ->. destruct l as [|z l]; [done|]. exfalso.
    destruct H3 as (H3 & _). rewrite Hn in H3. apply list.NoDup_cons in H4 as [H4 _]. apply H4. rewrite H3. right. left.
  - destruct (wr_lock _ _ _ _ W) as [E _]. by rewrite Hl in E.
Qed.

Lemma step_refines_witness : exists s', spec_step (Store [(1, 0)] None) s' /\ represents opened s'.
Proof.
  apply (step_refines 4 1 sample_sizes 3 4096 32 4 sample opened); [exact sample_represents| |].
  - apply (step_start _ _ _ _ _ _ _ _ 7), sample_starts.
  - intros l [I|(c & l1 & W)].
    + rewrite (single_version sample l 4256) by first [by left | by vm_compute]. split; [simpl; lia|done].
    + destruct (wr_lock _ _ _ _ W) as [Hl _]. by vm_compute in Hl.
Defined.


(** A reader pins the version 4256; a writer starts while it does. *)
Definition pinned : db := snd (txn_ref sample).
Definition pinned_opened : db := default empty_db (value_or None (s_start 7 pinned)).
#[local] Opaque pinned pinned_opened.

Lemma ok_some_default {X} (r : outcome (option X)) x :
  match r with Ok (Some _) => true | _ => false end = true -> r = Ok (Some (default x (value_or None r))).
Proof. by destruct r as [[y|]| |]. Qed.

Lemma pinned_version_survives_witness : exists l', versions pinned_opened l' /\ kept pinned pinned_opened l' 4256.
Proof.
  assert (s_start 7 pinned = Ok (Some pinned_opened)) as E.
  { change pinned_opened with (default empty_db (value_or None (s_start 7 pinned))). apply ok_some_default. by vm_compute. }
  assert (idle pinned [4256]) as I.
  { change pinned with (add_refs 4256 1 sample). apply idle_refs; [exact sample_idle|by vm_compute|].
    assert (next_txn_page (hd sample) = 4512) as -> by by vm_compute. done. }
  apply (pinned_version_survives 4 1 sample_sizes 3 4096 32 4 4256 pinned pinned_opened [4256]); [by left|left|].
  eapply held_step; [by eapply step_start| | |apply held_refl].
  - by vm_compute.
  - intros l V. rewrite (single_version pinned l 4256); [split; [simpl; lia|done]|by vm_compute..|].
    destruct V as [V|(l0 & c & V & _)]; [by left|right; by exists l0, c].
Defined.

(** ** Where the operations do not do what they mean to *)

Abbreviation s_repair := (repair 4).

(** One transaction of cursor 7 that writes [r]. *)
Definition transaction (r : Z) (d : db) : outcome db :=
  o ← s_start 7 d;
  match o with Some d => '(_, d) ← s_commit 7 (written r d); Ok d | None => NullPage end.

(** The root of the newest version and the root a new write transaction has. *)
Definition roots_seen (d : db) : outcome (Z * Z) :=
  o ← s_start 7 d;
  match o with Some d => Ok (root (txns d (read_txn (hd d))), root (txns d (active d))) | None => NullPage end.

(** A write between [prepare_commit] and [commit]: the page of the next transaction
    was copied before it. *)
Definition write_after_prepare (r r' : Z) : outcome db :=
  o ← s_start 7 sample;
  match o with
  | Some d => '(_, d) ← s_prepare 7 false (written r d); '(_, d) ← s_commit 7 (written r' d); Ok d
  | None => NullPage
  end.

(** The version committed has the root 16, the next transaction starts from 8. *)
Theorem write_after_prepare_is_lost : (d ← write_after_prepare 8 16; roots_seen d) = Ok (16, 8).
Proof. by vm_compute. Qed.

(** [repair] goes back to the newest healthy version but leaves the page of the next
    transaction as the unhealthy one prepared it. *)
Theorem repair_keeps_unhealthy_root :
  (d ← transaction 8 sample; d ← transaction 16 d;
   match s_repair (fun r => negb (r =? 16)) d with Some d => roots_seen d | None => NoFuel end) = Ok (8, 16).
Proof. by vm_compute. Qed.

(** A crash after a prepared transaction that the log holds too: [sanitize] replays
    the logged one into the page of the next transaction, its [prepare_commit]
    returns early, and no page is left for the next transaction. *)
Definition crashed_prepared : outcome db :=
  o ← s_start 7 sample;
  match o with Some d => '(_, d) ← s_prepare 7 true (written 8 d); Ok d | None => NullPage end.
Definition logged (d : db) : wal.txn := wal.Txn (txn_id (txns d (active d))) [].
Definition reopen (d : db) : outcome db :=
  sanitize 4 1 sample_sizes 3 4096 32 4
    (wal_recover 4 1 sample_sizes 3 4096 32 4 (fun _ d => Ok (written 8 d)) 9 [] (logged d)) d.

Theorem replay_after_prepare_loses_page :
  (d ← crashed_prepared; d ← reopen d; '(done, d) ← s_commit 0 d; Ok (done, read_txn (hd d), next_txn_page (hd d))) =
    Ok (Some true, 4512, 0) /\
  (d ← crashed_prepared; d ← reopen d; '(_, d) ← s_commit 0 d; roots_seen d) = NullPage.
Proof. split; by vm_compute. Qed.

End dbreach.
