(* ===== verification/Trie.v ===== *)
(** * Trie: the cursor of a database and its stack of transitions

    Models [db/_cursor.hpp], lines 18-552: the transitions ([_Transition]), their
    stack ([_Stack], [_CursorBase]) and the navigation of [_ICursor]. A node lives
    in a page, named by the offset of the node behind the page header; links are
    typed offsets. A cursor is its stack, the top first, the part of the key
    still to match and the part matched. A pointer into memory is a [place]: the
    root of the trie or a slot of a node's array.

    A method of a transition returns the segment of the stack it leaves above its
    parents, the matched and rest key. The vector behind the stack keeps popped
    elements; [init] resets every field but [branch_key], so the branch keys of
    the elements beyond the top are part of the state ([dead], nearest first). *)
From S2P Require Import Prelude Util Node Leaf.

Module trie.
Export TrieNode.
Import util.

Inductive obj := OTrie (n : TrieNode.node) | OLeaf (l : LeafNode.node).

(** A page: its header and the node behind it. *)
Record page := Page { slot_id : Z; used : Z; txn_id : Z; body : obj }.

Inductive place := Root | Slot (p idx : Z).

Definition heap := Z -> page.

Record transition := Transition {
  t_node : Z;
  t_prefix : Z;
  t_keypos : Z;
  t_branch_key : Z;
  t_cmp : Z;
  t_offset : place;
  t_link_idx : Z
}.

Definition NOT_FOUND : Z := 2.
Definition UNDEFINED : Z := 3.

Definition set_prefix_cmp (p c : Z) (t : transition) : transition :=
  Transition (t_node t) p (t_keypos t) (t_branch_key t) c (t_offset t) (t_link_idx t).
Definition set_cmp (c : Z) (t : transition) : transition := set_prefix_cmp (t_prefix t) c t.
Definition set_branch (b : Z) (t : transition) : transition :=
  Transition (t_node t) (t_prefix t) (t_keypos t) b (t_cmp t) (t_offset t) (t_link_idx t).
Definition set_idx (i : Z) (t : transition) : transition :=
  Transition (t_node t) (t_prefix t) (t_keypos t) (t_branch_key t) (t_cmp t) (t_offset t) i.
Definition set_node (n : Z) (t : transition) : transition :=
  Transition n (t_prefix t) (t_keypos t) (t_branch_key t) (t_cmp t) (t_offset t) (t_link_idx t).
Definition set_offset (o : place) (t : transition) : transition :=
  Transition (t_node t) (t_prefix t) (t_keypos t) (t_branch_key t) (t_cmp t) o (t_link_idx t).

(** A leaf read as a trie node (the code's type punning) is never meant: it has no
    branches here. *)
Definition blank : TrieNode.node := TrieNode.Node 0 0 0 0 0 [] (fun _ => 0).
Definition blank_leaf : LeafNode.node := LeafNode.Node 0 0 [].

Definition trie_at (h : heap) (p : Z) : TrieNode.node :=
  match body (h p) with OTrie n => n | OLeaf _ => blank end.
Definition leaf_at (h : heap) (p : Z) : LeafNode.node :=
  match body (h p) with OLeaf l => l | OTrie _ => blank_leaf end.

(** The link a place holds. *)
Definition load (h : heap) (root : Z) (pl : place) : Z :=
  match pl with Root => root | Slot p i => slot (trie_at h p) i end.

Definition link_to (p : Z) (t : NodeTypes) : Z := Offset.set_type p (type_bits t).
Definition points_leaf (l : Z) : bool := Offset.type l =? 1.
Definition target (l : Z) : Z := Offset.to_uint64 l.

Section with_cfg.
(** The SIMD level of the build ([get_prefix]) and the memory a cursor reads. *)
Context (cfg : simd) (h : heap) (root : Z).

Definition get_prefix (a b : list Z) : Z * Z :=
  let '(n, c) := util.get_prefix a b cfg true in (Z.of_nat n, c).

Definition t_trie (t : transition) : TrieNode.node := trie_at h (t_node t).
Definition t_leaf (t : transition) : LeafNode.node := leaf_at h (t_node t).
Definition is_leaf (t : transition) : bool := points_leaf (load h root (t_offset t)).
Definition success (t : transition) : bool := (t_cmp t =? 0) && is_leaf t.

(** [link()]: the slot the transition follows. *)
Definition link_place (t : transition) : place := Slot (t_node t) (t_link_idx t).

(** [init]: only the branch key of the reused element survives. *)
Definition init (old_branch : Z) (pl : place) (keypos : Z) : transition :=
  Transition (target (load h root pl)) 0 (u16 keypos) old_branch UNDEFINED pl 65535.

(** The state a transition works on: the matched key, the rest key and the branch
    keys of the dead elements. *)
Record keys_state := Keys { cur : list Z; rest : list Z; dead : list Z }.

Definition advance_key (n : Z) (k : keys_state) : keys_state :=
  Keys (cur k ++ take (Z.to_nat n) (rest k)) (drop (Z.to_nat n) (rest k)) (dead k).
Definition append_key (s : list Z) (k : keys_state) : keys_state := Keys (cur k ++ s) (rest k) (dead k).
Definition resize_key (n : Z) (k : keys_state) : keys_state :=
  Keys (take (Z.to_nat n) (cur k)) (rest k) (dead k).

(** [push()]: the child behind [link()]. *)
Definition child (t : transition) (k : keys_state) : transition * keys_state :=
  (init (hd 0 (dead k)) (link_place t) (Z.of_nat (length (cur k))), Keys (cur k) (rest k) (tl (dead k))).

(** [_Transition::find]. *)
Fixpoint find (fuel : nat) (t : transition) (k : keys_state) : option (list transition * keys_state) :=
  match fuel with
  | O => None
  | S f =>
      if t_node t =? 0 then Some ([set_cmp NOT_FOUND t], k)
      else if is_leaf t then
        let lf := t_leaf t in
        let '(p, c) := get_prefix (rest k) (LeafNode.key lf) in
        Some ([set_prefix_cmp p c t], advance_key p k)
      else
        let n := t_trie t in
        let '(p, c) := get_prefix (rest k) (compressed n) in
        let t := set_prefix_cmp p c t in
        let k := advance_key p k in
        if p <? compressed_len n then Some ([t], k)
        else
          match rest k with
          | [] =>
              if has_none n then
                let t := set_idx 0 t in
                let '(ch, k) := child t k in
                '(seg, k) ← find f ch k; Some (seg ++ [t], k)
              else Some ([set_cmp (-1) t], k)
          | b :: _ =>
              let t := set_branch b t in
              let idx := array_index n b in
              if idx <? 0 then Some ([set_cmp NOT_FOUND t], k)
              else
                let t := set_idx idx (set_cmp 0 t) in
                let '(ch, k) := child t k in
                '(seg, k) ← find f ch k; Some (seg ++ [t], k)
          end
  end.

Definition leaf_step (t : transition) (k : keys_state) : transition * keys_state :=
  let lf := t_leaf t in
  (set_prefix_cmp (LeafNode.key_size lf) 0 t, append_key (LeafNode.key lf) (resize_key (t_keypos t) k)).

(** [current_key()[child.keypos]], where there is such a byte. *)
Definition branch_of (ch : transition) (k : keys_state) (t : transition) : transition :=
  match cur k !! Z.to_nat (t_keypos ch) with Some b => set_branch b t | None => t end.

(** The same without the test: a string reads 0 behind its end. *)
Definition branch_at (ch : transition) (k : keys_state) (t : transition) : transition :=
  set_branch (default 0 (cur k !! Z.to_nat (t_keypos ch))) t.

(** [_Transition::first] and [last]. *)
Fixpoint first (fuel : nat) (t : transition) (k : keys_state) : option (list transition * keys_state) :=
  match fuel with
  | O => None
  | S f =>
      if is_leaf t then let '(t, k) := leaf_step t k in Some ([t], k)
      else
        let n := t_trie t in
        let k := append_key (compressed n) k in
        let t := set_idx 0 (set_prefix_cmp (compressed_len n) 0 t) in
        let '(ch, k) := child t k in
        '(seg, k) ← first f ch k; Some (seg ++ [branch_of ch k t], k)
  end.

Fixpoint last (fuel : nat) (t : transition) (k : keys_state) : option (list transition * keys_state) :=
  match fuel with
  | O => None
  | S f =>
      if is_leaf t then let '(t, k) := leaf_step t k in Some ([t], k)
      else
        let n := t_trie t in
        let k := append_key (compressed n) k in
        let t := set_idx (count n - 1) (set_prefix_cmp (compressed_len n) 0 t) in
        let '(ch, k) := child t k in
        '(seg, k) ← last f ch k; Some (seg ++ [branch_at ch k t], k)
  end.

(** [_Transition::next]: [true] with the segment of the next leaf, or [false] with
    the transition as the method leaves it. *)
Definition next (fuel : nat) (t : transition) (k : keys_state) :
    option (bool * list transition * keys_state) :=
  if is_leaf t then
    if t_cmp t <? 0 then let '(t, k) := leaf_step t k in Some (true, [t], k)
    else Some (false, [t], k)
  else
    let n := t_trie t in
    if t_cmp t =? 0 then
      let t := set_idx (u16 (t_link_idx t + 1)) t in
      if count n <=? t_link_idx t then Some (false, [t], k)
      else
        let '(ch, k) := child t k in
        '(seg, k) ← first fuel ch k; Some (true, seg ++ [branch_at ch k t], k)
    else
      let k := resize_key (t_keypos t) k in
      if t_prefix t <? compressed_len n then
        if 0 <? t_cmp t then Some (false, [t], k)
        else '(seg, k) ← first fuel t k; Some (true, seg, k)
      else
        let k := append_key (compressed n) k in
        let next_ := TrieNode.next n (t_branch_key t) in
        if next_ =? OUT_OF_RANGE then Some (false, [t], k)
        else
          let t := set_idx (array_index n next_) (set_branch (u8 next_) (set_cmp 0 t)) in
          let '(ch, k) := child t k in
          '(seg, k) ← first fuel ch k; Some (true, seg ++ [t], k).

(** [_Transition::prev]. *)
Definition prev (fuel : nat) (t : transition) (k : keys_state) :
    option (bool * list transition * keys_state) :=
  if is_leaf t then
    if 0 <? t_cmp t then let '(t, k) := leaf_step t k in Some (true, [t], k)
    else Some (false, [t], k)
  else
    let n := t_trie t in
    if t_cmp t =? 0 then
      if t_link_idx t =? 0 then Some (false, [set_idx 65535 t], k)
      else
        let t := set_idx (t_link_idx t - 1) t in
        let '(ch, k) := child t k in
        '(seg, k) ← last fuel ch k; Some (true, seg ++ [branch_of ch k t], k)
    else
      let k := resize_key (t_keypos t) k in
      if t_prefix t <? compressed_len n then
        if t_cmp t <? 0 then Some (false, [t], k)
        else '(seg, k) ← last fuel t k; Some (true, seg, k)
      else
        let k := append_key (compressed n) k in
        let prev_ := TrieNode.prev n (t_branch_key t) in
        if prev_ =? OUT_OF_RANGE then Some (false, [t], k)
        else
          let t := set_idx (array_index n prev_) (set_branch (u8 prev_) (set_cmp 0 t)) in
          let '(ch, k) := child t k in
          '(seg, k) ← last fuel ch k; Some (true, seg ++ [t], k).

(** ** The cursor *)

Record cursor := Cursor { stack : list transition; keys : keys_state }.

Definition is_valid (c : cursor) : bool :=
  match stack c with t :: _ => success t | [] => false end.

(** [pop()] and [stack.clear(i)]. *)
Definition pop (c : cursor) : cursor :=
  match stack c with
  | t :: ts => Cursor ts (resize_key (t_keypos t) (Keys (cur (keys c)) (rest (keys c)) (t_branch_key t :: dead (keys c))))
  | [] => c
  end.

Definition kill (n : nat) (c : cursor) : cursor :=
  Cursor (drop n (stack c)) (Keys (cur (keys c)) (rest (keys c))
    (rev (map t_branch_key (take n (stack c))) ++ dead (keys c))).

(** [push(ptr)] of the root. *)
Definition push_root (c : cursor) : cursor :=
  let k := keys c in
  Cursor (init (hd 0 (dead k)) Root (Z.of_nat (length (cur k))) :: stack c)
    (Keys (cur k) (rest k) (tl (dead k))).

(** A method of the top transition. *)
Definition on_top (f : transition -> keys_state -> option (list transition * keys_state)) (c : cursor) :
    option cursor :=
  match stack c with
  | [] => Some c
  | t :: ts => '(seg, k) ← f t (keys c); Some (Cursor (seg ++ ts) k)
  end.

(** The elements at the top whose key position is not below [same]. *)
Fixpoint beyond (same : Z) (ts : list transition) : nat :=
  match ts with
  | t :: ts' => if same <=? t_keypos t then S (beyond same ts') else O
  | [] => O
  end.

(** [keep_stack()]: elements beyond the common part of the keys are dropped and
    the top is prepared to be searched again; [true]: the key is already found. *)
Definition keep_stack (c : cursor) : bool * cursor :=
  let k := keys c in
  let '(same, _) := get_prefix (rest k) (cur k) in
  if (same =? Z.of_nat (length (rest k))) && (same =? Z.of_nat (length (cur k))) then
    (true, Cursor (stack c) (Keys (cur k) (drop (Z.to_nat same) (rest k)) (dead k)))
  else
    let c := kill (beyond same (stack c)) c in
    match stack c with
    | [] => (false, c)
    | t :: ts =>
        let k := keys c in
        (false, Cursor (set_prefix_cmp 0 UNDEFINED t :: ts)
          (Keys (take (Z.to_nat (t_keypos t)) (cur k)) (drop (Z.to_nat (t_keypos t)) (rest k)) (dead k)))
    end.

Definition find_ (fuel : nat) (c : cursor) : option cursor :=
  match stack c with
  | [] =>
      if root =? 0 then Some c
      else
        let k := keys c in
        on_top (find fuel) (push_root (Cursor [] (Keys [] (rest k) (dead k))))
  | _ => on_top (find fuel) c
  end.

(** [_ICursor::find]; keys beyond [MAX_KEY_SIZE] are rejected by the caller. *)
Definition find_key (fuel : nat) (key : list Z) (c : cursor) : option cursor :=
  let c := Cursor (stack c) (Keys (cur (keys c)) key (dead (keys c))) in
  match stack c with
  | [] => find_ fuel c
  | _ => let '(found, c) := keep_stack c in if found then Some c else find_ fuel c
  end.

(** [_ICursor::clear]: [true] for an empty trie. *)
Definition clear (c : cursor) : bool * cursor :=
  let c := kill (length (stack c)) c in
  let c := Cursor (stack c) (Keys [] [] (dead (keys c))) in
  if root =? 0 then (true, c) else (false, push_root c).

Definition first_key (fuel : nat) (c : cursor) : option cursor :=
  let '(empty, c) := clear c in if empty then Some c else on_top (first fuel) c.

Definition last_key (fuel : nat) (c : cursor) : option cursor :=
  let '(empty, c) := clear c in if empty then Some c else on_top (last fuel) c.

(** [_ICursor::next] and [prev]: the loop pops one element per round. *)
Fixpoint climb (step : transition -> keys_state -> option (bool * list transition * keys_state))
    (n : nat) (c : cursor) : option cursor :=
  match n, stack c with
  | _, [] => Some c
  | O, _ => None
  | S n', t :: ts =>
      '(found, seg, k) ← step t (keys c);
      if (found : bool) then Some (Cursor (seg ++ ts) k)
      else climb step n' (pop (Cursor (seg ++ ts) k))
  end.

Definition no_rest (c : cursor) : cursor := Cursor (stack c) (Keys (cur (keys c)) [] (dead (keys c))).

Definition next_key (fuel : nat) (c : cursor) : option cursor :=
  climb (next fuel) (length (stack c)) (no_rest c).

Definition prev_key (fuel : nat) (c : cursor) : option cursor :=
  climb (prev fuel) (length (stack c)) (no_rest c).

(** [_ICursor::value()]. *)
Definition value (c : cursor) : option (list Z) :=
  match stack c with
  | t :: _ => if success t then Some (LeafNode.value (t_leaf t)) else None
  | [] => None
  end.

End with_cfg.

(** A cursor that was just created, and one whose stack was cleared. *)
Definition fresh_cursor : cursor := Cursor [] (Keys [] [] []).
End trie.
