(* ===== verification/TrieWrite.v ===== *)
(** * TrieWrite: inserting into and deleting from a trie

    Models the writing half of [db/_cursor.hpp] (copy-on-write in
    [_Transition::update], [_ICursor::reserve], [value], [remove]),
    [db/_inserter.hpp] and [db/_deleter.hpp]. A page that another transaction
    wrote is copied before it changes; the copy's new offset is written into the
    parent, which is copied first if need be, up to the root. Page allocation is
    the interface [PageAlloc]; the memory of a fresh page is arbitrary ([raw]). *)
From S2P Require Import Prelude Util Node Leaf Memory Trie.

(** What the trie relies on: a fresh page is one that was available, and freed
    pages do not become available again within the transaction. Pages are named by
    the offset of the node behind their header. *)
Class PageAlloc (A : Type) := {
  take_page : Z -> A -> option (Z * A);
  give_page : Z -> Z -> A -> option A;
  avail : A -> Z -> Prop;
  take_avail s a p a' : take_page s a = Some (p, a') -> avail a p /\ ~ avail a' p;
  take_mono s a p a' q : take_page s a = Some (p, a') -> avail a' q -> avail a q;
  take_aligned s a p a' : take_page s a = Some (p, a') -> p mod 8 = 0 /\ 0 < p < 2 ^ 64;
  give_mono s p a a' q : give_page s p a = Some a' -> avail a' q -> avail a q
}.

Module triewrite.
Import util.
Export trie.

Section with_alloc.
Context {A : Type} `{PA : PageAlloc A}.
Context (HASH_SIZE PAGE_HEADER PAGE_COUNT : Z) (PAGE_SIZES : Z -> Z).
Context (raw : Z -> TrieNode.node) (raw_leaf : Z -> LeafNode.node).
(** The transaction that writes. *)
Context (txn : Z).

Record db := Db { d_heap : heap; d_root : Z; d_alloc : A }.

(** [resolve] of an lvalue: storing a link at a place. *)
Definition set_body (p : Z) (b : obj) (h : heap) : heap :=
  upd h p (Page (slot_id (h p)) (used (h p)) (txn_id (h p)) b).

Definition store (pl : place) (l : Z) (d : db) : db :=
  match pl with
  | Root => Db (d_heap d) l (d_alloc d)
  | Slot p i => Db (set_body p (OTrie (set_slot (trie_at (d_heap d) p) i l)) (d_heap d)) (d_root d) (d_alloc d)
  end.

Definition write (p : Z) (b : obj) (d : db) : db := Db (set_body p b (d_heap d)) (d_root d) (d_alloc d).

(** [_DB::alloc_slot], [alloc_page], [alloc_node] and [free_node]. *)
Definition alloc_slot (s u : Z) (d : db) : option (Z * db) :=
  '(p, a) ← take_page s (d_alloc d);
  Some (p, Db (upd (d_heap d) p (Page s u txn (body (d_heap d p)))) (d_root d) a).

Definition alloc_node (node_size : Z) (d : db) : option (Z * db) :=
  s ← memory.binary_search PAGE_SIZES PAGE_COUNT (u16 (node_size + PAGE_HEADER));
  alloc_slot s node_size d.

Definition free_node (p : Z) (d : db) : option db :=
  a ← give_page (slot_id (d_heap d p)) p (d_alloc d); Some (Db (d_heap d) (d_root d) a).

Definition needs_cow (p : Z) (d : db) : bool := negb (txn_id (d_heap d p) =? txn).

(** [_Transition::update] of the transition at the head of [ts]: the place of its
    link in memory the transaction may write. *)
Fixpoint update (ts : list transition) (d : db) : option (place * list transition * db) :=
  match ts with
  | [] => None
  | t :: parents =>
      if needs_cow (t_node t) d then
        let pg := d_heap d (t_node t) in
        '(p, d) ← alloc_slot (slot_id pg) (used pg) d;
        let d := write p (body pg) d in
        d ← free_node (t_node t) d;
        '(o, parents, d) ←
          match parents with
          | [] => Some (t_offset t, parents, d)
          | _ => update parents d
          end;
        let d := store o (link_to p TRIE) d in
        let t := set_offset o (set_node p t) in
        Some (link_place t, t :: parents, d)
      else Some (link_place t, ts, d)
  end.

(** [update_offset]: [t] is the transition whose node changed. *)
Definition update_offset (l : Z) (t : transition) (parents : list transition) (d : db) :
    option (transition * list transition * db) :=
  match parents with
  | [] => Some (t, parents, store (t_offset t) l d)
  | _ =>
      '(o, parents, d) ← update parents d;
      Some (set_offset o t, parents, store o l d)
  end.

(** ** Insertion *)

(** [fill_leaf]: the value bytes are not written yet. *)
Definition fill_leaf (key : list Z) (value_size : Z) (d : db) : option (Z * db) :=
  '(p, d) ← alloc_node (LeafNode.size_for HASH_SIZE (Z.of_nat (length key)) value_size) d;
  Some (p, write p (OLeaf (LeafNode.set (raw_leaf p) key value_size)) d).

(** [fill_bigkey] of a transition at the new node [p]. *)
Definition fill_bigkey (t : transition) (k : keys_state) (d : db) : transition * keys_state * db :=
  let prefix := take 255 (rest k) in
  let b := default 0 (rest k !! 255%nat) in
  let '(n, i) := create_one HASH_SIZE (raw (t_node t)) prefix b in
  let t := set_prefix_cmp 255 0 (set_idx i (set_branch b t)) in
  (t, advance_key 255 k, write (t_node t) (OTrie n) d).

(** [create_bigkey] and [create_leaf]: [t] is [back], [ts] its parents. *)
Fixpoint create_leaf (fuel : nat) (value_size : Z) (t : transition) (ts : list transition)
    (k : keys_state) (d : db) : option (list transition * keys_state * db) :=
  match fuel with
  | O => None
  | S f =>
      if 255 <? Z.of_nat (length (rest k)) then
        '(p, d) ← alloc_node (size_for_branches HASH_SIZE 255 1) d;
        let d := store (link_place t) (link_to p TRIE) d in
        let '(bottom, k) := child (d_heap d) (d_root d) t k in
        let '(bottom, k, d) := fill_bigkey bottom k d in
        create_leaf f value_size bottom (t :: ts) k d
      else
        '(p, d) ← fill_leaf (rest k) value_size d;
        let d := store (link_place t) (link_to p LEAF) d in
        let '(bottom, k) := child (d_heap d) (d_root d) t k in
        let bottom := set_prefix_cmp (Z.of_nat (length (rest k))) 0 bottom in
        Some (bottom :: t :: ts, advance_key (t_prefix bottom) k, d)
  end.

(** [first_exec]: the first value of an empty trie, [t] the root transition. *)
Definition first_exec (fuel : nat) (value_size : Z) (t : transition) (k : keys_state) (d : db) :
    option (list transition * keys_state * db) :=
  if 255 <? Z.of_nat (length (rest k)) then
    '(p, d) ← alloc_node (size_for_branches HASH_SIZE 255 1) d;
    let d := store (t_offset t) (link_to p TRIE) d in
    let '(t, k, d) := fill_bigkey (set_node p t) k d in
    create_leaf fuel value_size t [] k d
  else
    '(p, d) ← fill_leaf (rest k) value_size d;
    let d := store (t_offset t) (link_to p LEAF) d in
    let t := set_prefix_cmp (Z.of_nat (length (rest k))) 0 (set_node p t) in
    Some ([t], advance_key (t_prefix t) k, d).

(** [split_compressed], where the key leaves the prefix of the node. *)
Definition split_compressed (fuel : nat) (value_size : Z) (t : transition) (ts : list transition)
    (k : keys_state) (d : db) : option (list transition * keys_state * db) :=
  let op := t_node t in
  let otrie := trie_at (d_heap d) op in
  let prefix := t_prefix t in
  let suffix := drop (Z.to_nat prefix) (compressed otrie) in
  let suffix_len := u8 (compressed_len otrie - prefix) in
  '(cp, d) ← alloc_node (changed_len HASH_SIZE otrie suffix_len) d;
  let d := write cp (OTrie (create_prefix HASH_SIZE (raw cp) otrie suffix)) d in
  let '(t, key) := match rest k with b :: _ => (set_branch b t, b) | [] => (t, NONE) end in
  let okey := default 0 (compressed otrie !! Z.to_nat prefix) in
  '(p, d) ← alloc_node (size_for_keys HASH_SIZE prefix okey key) d;
  let '(n, (i, j)) := create_two HASH_SIZE (raw p) (take (Z.to_nat prefix) (compressed otrie)) okey key in
  let d := write p (OTrie (set_slot n i (link_to cp TRIE))) d in
  let t := set_idx j (set_node p t) in
  d ← free_node op d;
  '(t, ts, d) ← update_offset (link_to p TRIE) t ts d;
  create_leaf fuel value_size t ts k d.

(** [add_to_array], where the node lacks the branch. *)
Definition add_to_array (fuel : nat) (value_size : Z) (t : transition) (ts : list transition)
    (k : keys_state) (d : db) : option (list transition * keys_state * db) :=
  let key := match rest k with _ :: _ => t_branch_key t | [] => NONE end in
  let op := t_node t in
  let otrie := trie_at (d_heap d) op in
  let needed := increment_size HASH_SIZE otrie key in
  let slot_budget := u16 (PAGE_SIZES (slot_id (d_heap d op)) - PAGE_HEADER) in
  if negb (needs_cow op d) && (needed <=? slot_budget) then
    let '(n, i) := insert_branch otrie key in
    let pg := d_heap d op in
    let d := Db (upd (d_heap d) op (Page (slot_id pg) needed (txn_id pg) (OTrie n))) (d_root d) (d_alloc d) in
    create_leaf fuel value_size (set_cmp 0 (set_idx i t)) ts k d
  else
    '(p, d) ← alloc_node needed d;
    let '(n, i) := create_insert HASH_SIZE (raw p) otrie key in
    let d := write p (OTrie n) d in
    let t := set_idx i (set_node p t) in
    d ← free_node op d;
    '(t, ts, d) ← update_offset (link_to p TRIE) t ts d;
    create_leaf fuel value_size (set_cmp 0 t) ts k d.

(** [copy_reduced_leaf]: the old leaf loses the flag of its big value, which the
    copy now refers to. *)
Definition copy_reduced_leaf (split_pos op : Z) (d : db) : option (Z * db) :=
  let oleaf := leaf_at (d_heap d) op in
  let key_size := u8 (LeafNode.key_size oleaf - split_pos) in
  '(p, d) ← alloc_node (LeafNode.size_for HASH_SIZE (LeafNode.key_size oleaf - split_pos) (LeafNode.vsize oleaf)) d;
  let data := take (Z.to_nat (key_size + LeafNode.vsize oleaf)) (drop (Z.to_nat split_pos) (LeafNode.data oleaf)) in
  let d := write p (OLeaf (LeafNode.Node (LeafNode.value_size oleaf) key_size data)) d in
  let d := if LeafNode.is_big oleaf then write op (OLeaf (LeafNode.clear_big oleaf)) d else d in
  Some (p, d).

Definition change_leaf (fuel : nat) (value_size : Z) (t : transition) (ts : list transition)
    (k : keys_state) (d : db) : option (list transition * keys_state * db) :=
  let op := t_node t in
  let oleaf := leaf_at (d_heap d) op in
  if t_cmp t =? 0 then
    '(p, d) ← fill_leaf (LeafNode.key oleaf) value_size d;
    d ← free_node op d;
    '(t, ts, d) ← update_offset (link_to p LEAF) (set_node p t) ts d;
    Some (t :: ts, k, d)
  else
    '(cp, d) ← copy_reduced_leaf (t_prefix t) op d;
    let copy := leaf_at (d_heap d) cp in
    let okey := if LeafNode.key_size copy =? 0 then NONE else default 0 (LeafNode.data copy !! 0%nat) in
    let nkey := match rest k with b :: _ => b | [] => NONE end in
    let t := set_branch (u8 nkey) t in
    '(p, d) ← alloc_node (size_for_keys HASH_SIZE (t_prefix t) okey nkey) d;
    let '(n, (i, j)) :=
      create_two HASH_SIZE (raw p) (take (Z.to_nat (t_prefix t)) (LeafNode.data oleaf)) okey nkey in
    let d := write p (OTrie (set_slot n i (link_to cp LEAF))) d in
    let t := set_cmp 0 (set_idx j (set_node p t)) in
    d ← free_node op d;
    '(t, ts, d) ← update_offset (link_to p TRIE) t ts d;
    create_leaf fuel value_size t ts k d.

Definition exec (fuel : nat) (value_size : Z) (t : transition) (ts : list transition)
    (k : keys_state) (d : db) : option (list transition * keys_state * db) :=
  if is_leaf (d_heap d) (d_root d) t then change_leaf fuel value_size t ts k d
  else if t_prefix t =? compressed_len (trie_at (d_heap d) (t_node t)) then
    add_to_array fuel value_size t ts k d
  else split_compressed fuel value_size t ts k d.

(** [_ICursor::reserve]: an empty stack is a valid position only in an empty trie. *)
Definition reserve (fuel : nat) (value_size : Z) (c : cursor) (d : db) : option (cursor * db) :=
  match stack c with
  | [] =>
      if d_root d =? 0 then
        let c := push_root (d_heap d) (d_root d) c in
        match stack c with
        | t :: _ =>
            '(seg, k, d) ← first_exec fuel value_size t (keys c) d; Some (Cursor seg k, d)
        | [] => None
        end
      else None
  | t :: ts => '(seg, k, d) ← exec fuel value_size t ts (keys c) d; Some (Cursor seg k, d)
  end.

(** The copy of the value into the reserved space. *)
Definition fill_value (v : list Z) (p : Z) (d : db) : db :=
  let l := leaf_at (d_heap d) p in
  let data := LeafNode.data l in
  let k := Z.to_nat (LeafNode.key_size l) in
  write p (OLeaf (LeafNode.Node (LeafNode.value_size l) (LeafNode.key_size l)
    (take k data ++ v ++ drop (k + length v) data))) d.

(** [_ICursor::value(v)]. *)
Definition put_value (fuel : nat) (v : list Z) (c : cursor) (d : db) : option (cursor * db) :=
  '(c, d) ← reserve fuel (Z.of_nat (length v)) c d;
  match stack c with
  | t :: _ => Some (c, fill_value v (t_node t) d)
  | [] => None
  end.

(** ** Deletion *)

(** [reduce_array]: the top of the cursor is [parent]; [prefix] is the one of the
    removed child. *)
Definition reduce_array (fuel : nat) (prefix : Z) (c : cursor) (d : db) : option (cursor * db) :=
  match stack c with
  | [] => None
  | t :: ts =>
      let op := t_node t in
      let otrie := trie_at (d_heap d) op in
      let branch := if prefix =? 0 then NONE else t_branch_key t in
      '(p, d) ← alloc_node (decrement_size HASH_SIZE otrie branch) d;
      let d := write p (OTrie (create_remove HASH_SIZE (raw p) otrie branch)) d in
      '(t, ts, d) ← update_offset (link_to p TRIE) (set_node p t) ts d;
      d ← free_node op d;
      let t := set_cmp (-1) t in
      let t := if prefix =? 0 then set_prefix_cmp 0 (-1) t else t in
      c ← next_key (d_heap d) (d_root d) fuel (Cursor (t :: ts) (keys c));
      Some (c, d)
  end.

(** [parent.first()] behind the combined node. *)
Definition resume_first (fuel : nat) (t : transition) (ts : list transition) (k : keys_state) (d : db) :
    option (cursor * db) :=
  '(seg, k) ← first (d_heap d) (d_root d) fuel t (resize_key (t_keypos t) k);
  Some (Cursor (seg ++ ts) k, d).

(** The end of [combine]: [np] is the new node, [l] its link. *)
Definition finish_combine (fuel : nat) (go_next : bool) (np op cp l : Z) (t : transition)
    (ts : list transition) (k : keys_state) (d : db) : option (cursor * db) :=
  '(t, ts, d) ← update_offset l (set_node np t) ts d;
  d ← free_node cp d;
  let t := set_cmp 1 t in
  d ← free_node op d;
  if go_next then
    c ← next_key (d_heap d) (d_root d) fuel (Cursor (t :: ts) k); Some (c, d)
  else resume_first fuel t ts k d.

(** [combine]: the parent is left with one child, which takes its prefix. *)
Definition combine (fuel : nat) (prefix : Z) (c : cursor) (d : db) : option (cursor * db) :=
  match stack c with
  | [] => None
  | t :: ts =>
      let op := t_node t in
      let otrie := trie_at (d_heap d) op in
      let go_next := negb (t_link_idx t =? 0) in
      let child_remaining := slot otrie (if go_next then 0 else 1) in
      let len := compressed_len otrie in
      let cp := target child_remaining in
      if negb (points_leaf child_remaining) then
        let child := trie_at (d_heap d) cp in
        if 255 <? len + compressed_len child then reduce_array fuel prefix c d
        else
          let buffer := compressed otrie ++ compressed child in
          '(p, d) ← alloc_node (changed_len HASH_SIZE child (len + compressed_len child)) d;
          let d := write p (OTrie (create_prefix HASH_SIZE (raw p) child buffer)) d in
          finish_combine fuel go_next p op cp (link_to p TRIE) t ts (keys c) d
      else
        let child := leaf_at (d_heap d) cp in
        if 255 <? len + LeafNode.key_size child then reduce_array fuel prefix c d
        else
          let buffer := compressed otrie ++ LeafNode.key child in
          '(p, d) ← alloc_node
            (LeafNode.size_for HASH_SIZE (len + LeafNode.key_size child) (LeafNode.vsize child)) d;
          let d := write p (OLeaf (LeafNode.Node (LeafNode.value_size child)
            (u8 (len + LeafNode.key_size child)) (buffer ++ LeafNode.value child))) d in
          finish_combine fuel go_next p op cp (link_to p LEAF) t ts (keys c) d
  end.

(** [remove_node] of the transition at the top; the recursion follows parents
    with a single child. *)
Fixpoint remove_node (rounds fuel : nat) (c : cursor) (d : db) : option (cursor * db) :=
  match rounds, stack c with
  | S r, [t] =>
      let d := store (t_offset t) 0 d in
      d ← free_node (t_node t) d;
      Some (pop c, d)
  | S r, t :: parent :: ts =>
      let node := t_node t in
      let prefix := t_prefix t in
      let c := pop c in
      '(c, d) ←
        (let n := count (trie_at (d_heap d) (t_node parent)) in
         if n =? 0 then None
         else if n =? 1 then remove_node r fuel c d
         else if n =? 2 then combine fuel prefix c d
         else reduce_array fuel prefix c d);
      d ← free_node node d;
      Some (c, d)
  | _, _ => None
  end.

(** [_ICursor::remove]. *)
Definition remove (fuel : nat) (c : cursor) (d : db) : option (cursor * db) :=
  if is_valid (d_heap d) (d_root d) c then remove_node (length (stack c)) fuel c d else None.

End with_alloc.
End triewrite.
