(* ===== verification/TrieRep.v ===== *)
(** * TrieRep: the map a trie in memory stands for

    [rep h l f m]: the link [l] leads to a trie of the pages [f] that maps the keys
    of [m] to their values. [ctx] is the path of a cursor: a trie with a hole where
    the top of the stack points, and what the whole trie maps once the hole is
    filled ([ctx_plug]). *)
From S2P Require Import Prelude Bits Util Node Leaf NodeFacts NodeUpdate NodeCreate Trie.

Module trierep.
Import util.
Export trie NodeFacts.

(** What a leaf stores for its key: the size field with the flag of a big value,
    and the bytes. *)
Definition payload : Type := Z * list Z.
Definition payload_of (l : LeafNode.node) : payload := (LeafNode.value_size l, LeafNode.value l).

Definition keymap := list Z -> option payload.

Record leaf_ok (l : LeafNode.node) : Prop := {
  lo_key_size : 0 <= LeafNode.key_size l <= 255;
  lo_value_size : 0 <= LeafNode.value_size l < 2 ^ 16;
  lo_data : LeafNode.key_size l + LeafNode.vsize l <= Z.of_nat (length (LeafNode.data l));
  lo_bytes : byte_list (LeafNode.key l)
}.

(** The branch a key takes at a node whose prefix it has passed. *)
Definition branch (r : list Z) : Z := match r with [] => NONE | b :: _ => b end.

(** The first byte a node matches: every node but the root begins with the byte
    of the branch that leads to it. *)
Definition first_byte (h : heap) (l : Z) : Z :=
  if points_leaf l then branch (LeafNode.key (leaf_at h (target l)))
  else match compressed (trie_at h (target l)) with [] => -2 | b :: _ => b end.

(** The map of a node from the maps of its children. *)
Definition node_map (comp : list Z) (lk : Z -> option Z) (M : Z -> keymap) : keymap :=
  fun key =>
    if decide (comp `prefix_of` key) then
      let r := drop (length comp) key in
      match lk (branch r) with Some _ => M (branch r) r | None => None end
    else None.

Section with_hash.
Context (HASH_SIZE : Z).
Hypothesis HASH_SIZE_range : 0 <= HASH_SIZE <= 512.

Inductive rep (h : heap) : Z -> (Z -> Prop) -> keymap -> Prop :=
  | rep_leaf lnk l f m :
      points_leaf lnk = true -> target lnk <> 0 -> body (h (target lnk)) = OLeaf l -> leaf_ok l ->
      (forall x, f x <-> x = target lnk) ->
      (forall k, byte_list k ->
        m k = if decide (k = LeafNode.key l) then Some (payload_of l) else None) ->
      rep h lnk f m
  | rep_node lnk n F M f m :
      points_leaf lnk = false -> target lnk <> 0 -> body (h (target lnk)) = OTrie n ->
      wf HASH_SIZE n -> byte_list (compressed n) -> (exists k, -1 <= k <= 255 /\ isset n k = true) ->
      (forall k l, -1 <= k <= 255 -> link n k = Some l -> rep h l (F k) (M k)) ->
      (forall k l, -1 <= k <= 255 -> link n k = Some l -> first_byte h l = k) ->
      (forall k l, -1 <= k <= 255 -> link n k = Some l -> ~ F k (target lnk)) ->
      (forall k l k' l' x, -1 <= k <= 255 -> -1 <= k' <= 255 -> link n k = Some l ->
        link n k' = Some l' -> F k x -> F k' x -> k = k') ->
      (forall x, f x <-> x = target lnk \/ exists k l, -1 <= k <= 255 /\ link n k = Some l /\ F k x) ->
      (forall k, byte_list k -> m k = node_map (compressed n) (link n) M k) ->
      rep h lnk f m.

Lemma rep_target h l f m : rep h l f m -> f (target l).
Proof.
  intros [lnk lf f' m' H1 H2 H3 H4 H5 H6|lnk n F M f' m' H1 H2 H3 H4 H5 H6 H7 H8 H9 H10 H11 H12].
  - by apply H5.
  - apply H11. by left.
Qed.

Lemma rep_nonzero h l f m : rep h l f m -> target l <> 0.
Proof. by intros []. Qed.

(** Only the map on byte strings and the set of pages matter. *)
Lemma rep_ext h l f m f' m' :
  rep h l f m -> (forall x, f' x <-> f x) -> (forall k, byte_list k -> m' k = m k) -> rep h l f' m'.
Proof.
  intros [lnk lf f0 m0 H1 H2 H3 H4 H5 H6|lnk n F M f0 m0 H1 H2 H3 H4 H5 H6 H7 H8 H9 H10 H11 H12] Ef Em.
  - eapply rep_leaf; try done; [intros; by rewrite Ef|intros; rewrite Em; auto].
  - eapply rep_node; try done; [intros; by rewrite Ef|intros; rewrite Em; auto].
Qed.

(** Memory outside the pages of the trie does not matter. *)
Lemma first_byte_frame h h' l : h' (target l) = h (target l) -> first_byte h' l = first_byte h l.
Proof. intros E. unfold first_byte, leaf_at, trie_at. by rewrite E. Qed.

Lemma rep_frame h h' l f m : rep h l f m -> (forall x, f x -> h' x = h x) -> rep h' l f m.
Proof.
  induction 1 as [lnk lf f m H1 H2 H3 H4 H5 H6|lnk n F M f m H1 H2 H3 H4 H5 H6 H7 IH H8 H9 H10 H11 H12];
    intros E.
  - eapply rep_leaf; try done. rewrite E; [done|by apply H5].
  - assert (forall k l, -1 <= k <= 255 -> link n k = Some l -> forall x, F k x -> h' x = h x) as EF.
    { intros k l Hk Hl x Hx. apply E, H11. right. by exists k, l. }
    eapply rep_node; try done.
    + rewrite E; [done|]. apply H11. by left.
    + intros k l Hk Hl. apply (IH k l Hk Hl). by apply (EF k l).
    + intros k l Hk Hl. rewrite (first_byte_frame h); [by apply H8|].
      apply (EF k l Hk Hl). apply (rep_target h l (F k) (M k)). by apply H7.
Qed.

(** ** Facts about the links of a node *)

Lemma link_isset n k : wf HASH_SIZE n -> -1 <= k <= 255 ->
  link n k = if isset n k then Some (slot n (array_index n k)) else None.
Proof.
  intros W Hk. unfold link, offset. rewrite array_index_rank by (apply W || done).
  destruct (isset n k); [|done].
  pose proof (zcount_nonneg (isset n) (-1) (k + 1)). zcase; [done|lia].
Qed.

Lemma link_some n k l : wf HASH_SIZE n -> -1 <= k <= 255 -> link n k = Some l ->
  isset n k = true /\ l = slot n (array_index n k) /\ 0 <= array_index n k < count n.
Proof.
  intros W Hk. rewrite link_isset by done. destruct (isset n k) eqn:S; [|done]. intros [= <-].
  split_and!; [done|done| |].
  - rewrite array_index_rank, S by (apply W || done). apply zcount_nonneg.
  - rewrite array_index_rank, S by (apply W || done). rewrite (wf_count _ _ W).
    apply (zcount_strict _ _ _ _ k); [done|lia..].
Qed.

Lemma array_index_neg n k : wf HASH_SIZE n -> -1 <= k <= 255 ->
  array_index n k < 0 <-> link n k = None.
Proof.
  intros W Hk. rewrite link_isset by done. rewrite array_index_rank by (apply W || done).
  pose proof (zcount_nonneg (isset n) (-1) (k + 1)). destruct (isset n k); split; done || lia.
Qed.

(** The rank of a branch depends on the branches only. *)
Lemma array_index_isset n n' k : wf HASH_SIZE n -> wf HASH_SIZE n' ->
  (forall c, -1 <= c <= 255 -> isset n' c = isset n c) -> -1 <= k <= 255 -> array_index n' k = array_index n k.
Proof.
  intros W W' E Hk. rewrite !array_index_rank, E by (apply W || apply W' || done).
  destruct (isset n k); [|done]. apply zcount_ext. intros; apply E. lia.
Qed.

Lemma none_index n : wf HASH_SIZE n -> has_none n = true -> array_index n NONE = 0.
Proof.
  intros W H. unfold NONE. rewrite array_index_rank by (apply W || lia).
  change (isset n (-1)) with (has_none n). rewrite H. by rewrite zcount_nonpos by lia.
Qed.

Lemma compressed_length n : wf HASH_SIZE n -> Z.of_nat (length (compressed n)) = compressed_len n.
Proof. intros W. apply (wf_len _ _ W). Qed.

Lemma byte_branch r : byte_list r -> -1 <= branch r <= 255.
Proof. intros H. destruct r as [|b r]; simpl; [unfold NONE; lia|]. inversion H. lia. Qed.

Lemma byte_list_app a b : byte_list (a ++ b) <-> byte_list a /\ byte_list b.
Proof. apply Forall_app. Qed.

Lemma byte_list_drop n a : byte_list a -> byte_list (drop n a).
Proof. intros H. by apply Forall_drop. Qed.

Lemma byte_list_take n a : byte_list a -> byte_list (take n a).
Proof. intros H. by apply Forall_take. Qed.

Lemma leaf_key_length l : leaf_ok l -> Z.of_nat (length (LeafNode.key l)) = LeafNode.key_size l.
Proof.
  intros [H1 H2 H3 _]. unfold LeafNode.key. rewrite length_take.
  assert (0 <= LeafNode.vsize l).
  { unfold LeafNode.vsize. apply Z.land_nonneg. lia. }
  lia.
Qed.

(** The keys of a trie begin with the first byte of its link. *)
Lemma rep_first_byte h l f m key v :
  rep h l f m -> byte_list key -> m key = Some v -> -1 <= first_byte h l -> branch key = first_byte h l.
Proof.
  intros R Hk Hm Hf. destruct R as [lnk lf f m H1 H2 H3 H4 H5 H6|lnk n F M f m H1 H2 H3 H4 H5 H6 H7 H8 H9 H10 H11 H12].
  - unfold first_byte, leaf_at in *. rewrite H1, H3 in *. rewrite H6 in Hm by done.
    by destruct (decide (key = LeafNode.key lf)) as [->|].
  - unfold first_byte, trie_at in *. rewrite H1, H3 in *. rewrite H12 in Hm by done.
    unfold node_map in Hm. destruct (decide _) as [[r ->]|]; [|done].
    destruct (compressed n); simpl in *; [lia|done].
Qed.

(** A trie is never empty. *)
Lemma rep_inhabited h l f m : rep h l f m -> exists key v, byte_list key /\ m key = Some v.
Proof.
  induction 1 as [lnk lf f m H1 H2 H3 H4 H5 H6|lnk n F M f m H1 H2 H3 H4 H5 H6 H7 IH H8 H9 H10 H11 H12].
  - exists (LeafNode.key lf), (payload_of lf). pose proof (lo_bytes _ H4). split; [done|].
    rewrite H6 by done. by rewrite decide_True.
  - destruct H6 as (k & Hk & Hs). pose proof (link_isset n k H4 Hk) as El. rewrite Hs in El.
    destruct (IH k _ Hk El) as (r & v & Hr & Hm). exists (compressed n ++ r), v.
    assert (byte_list (compressed n ++ r)) as Hb by by apply byte_list_app.
    split; [done|]. rewrite H12 by done. unfold node_map. rewrite decide_True by by exists r.
    rewrite drop_app_length. assert (branch r = k) as ->.
    { rewrite <- (H8 k _ Hk El). eapply rep_first_byte; [by apply H7|done|done|].
      rewrite (H8 k _ Hk El). lia. }
    by rewrite El.
Qed.

(** ** The path of a cursor *)

(** The links of a node, the one for [b] being the hole. *)
Record siblings (h : heap) (n : node) (p b : Z) (F : Z -> Z -> Prop) (M : Z -> keymap) : Prop := {
  sib_rep : forall k l, -1 <= k <= 255 -> k <> b -> link n k = Some l ->
    rep h l (F k) (M k) /\ first_byte h l = k /\ ~ F k p;
  sib_disj : forall k l k' l' x, -1 <= k <= 255 -> -1 <= k' <= 255 -> k <> b -> k' <> b ->
    link n k = Some l -> link n k' = Some l' -> F k x -> F k' x -> k = k'
}.

(** [ctx h root ts pl G W pre e]: the transitions [ts], the nearest first, lead from
    the root to the link at [pl]; [G] are the pages of the trie outside of what this
    link leads to, [pre] the bytes matched so far, [e] the branch taken last, and
    [W m] what the trie maps when the link leads to a trie for [m]. *)
Inductive ctx (h : heap) (root : Z) :
    list transition -> place -> (Z -> Prop) -> (keymap -> keymap) -> list Z -> option Z -> Prop :=
  | ctx_root : ctx h root [] Root (fun _ => False) (fun m => m) [] None
  | ctx_node t ts n b F M G W pre e :
      ctx h root ts (t_offset t) G W pre e ->
      let lnk := load h root (t_offset t) in
      points_leaf lnk = false -> target lnk <> 0 -> t_node t = target lnk ->
      t_keypos t = Z.of_nat (length pre) ->
      body (h (t_node t)) = OTrie n -> wf HASH_SIZE n -> byte_list (compressed n) ->
      (forall x, e = Some x -> first_byte h lnk = x) ->
      -1 <= b <= 255 -> isset n b = true -> t_link_idx t = array_index n b ->
      siblings h n (t_node t) b F M -> ~ G (t_node t) ->
      (forall k l x, -1 <= k <= 255 -> k <> b -> link n k = Some l -> F k x -> ~ G x) ->
      ctx h root (t :: ts) (link_place t)
        (fun x => G x \/ x = t_node t \/
          exists k l, -1 <= k <= 255 /\ k <> b /\ link n k = Some l /\ F k x)
        (fun m => W (node_map (compressed n) (link n) (fun k => if k =? b then m else M k)))
        (pre ++ compressed n) (Some b).

(** The key taken from the hole on. *)
Definition enters (e : option Z) (r : list Z) : Prop :=
  match e with Some b => branch r = b | None => True end.

#[export] Instance enters_dec e r : Decision (enters e r).
Proof. destruct e; simpl; apply _. Defined.

Lemma ctx_frame h h' root ts pl G W pre e :
  ctx h root ts pl G W pre e -> (forall x, G x -> h' x = h x) ->
  ctx h' root ts pl G W pre e /\ (ts <> [] -> load h' root pl = load h root pl).
Proof.
  induction 1 as [|t ts n b F M G W pre e C IH lnk H1 H2 H3 H4 H5 H6 H7 H8 H9 H10 H11 H12 H13 H14];
    intros E; [split; [constructor|done]|].
  destruct IH as [IH1 IH2]; [intros x Hx; apply E; by left|].
  assert (h' (t_node t) = h (t_node t)) as Et by (apply E; right; by left).
  assert (load h' root (t_offset t) = lnk) as El.
  { unfold lnk. destruct ts as [|t' ts]; [|by apply IH2].
    assert (t_offset t = Root) as -> by by inversion C. done. }
  split.
  - eapply ctx_node; rewrite ?El; try done.
    + by rewrite Et.
    + intros x Hx. rewrite (first_byte_frame h); [by apply H8|]. by rewrite <- H3.
    + destruct H12 as [S1 S2]. split; [|done]. intros k l Hk Hne Hl.
      destruct (S1 k l Hk Hne Hl) as (R & Hf & Hp). split_and!; [|rewrite (first_byte_frame h)|]; try done.
      * apply (rep_frame h); [done|]. intros x Hx. apply E. right. right. by exists k, l.
      * apply E. right. right. exists k, l. split_and!; try (done || lia). by eapply rep_target.
  - intros _. simpl. unfold trie_at. by rewrite Et.
Qed.

(** The load of a hole is the link it holds. *)
Lemma ctx_load h root t ts pl G W pre e : ctx h root (t :: ts) pl G W pre e ->
  exists n b, body (h (t_node t)) = OTrie n /\ e = Some b /\ -1 <= b <= 255 /\ wf HASH_SIZE n /\
    isset n b = true /\ link n b = Some (load h root pl) /\ pl = Slot (t_node t) (array_index n b) /\
    G (t_node t).
Proof.
  intros C. inversion C as [|t' ts' n b F M G' W' pre' e' C' lnk H1 H2 H3 H4 H5 H6 H7 H8 H9 H10 H11 H12 H13 H14]; subst.
  exists n, b. split_and!; try (done || lia).
  - rewrite link_isset, H10 by done. unfold link_place, load, trie_at. by rewrite H5, H11.
  - unfold link_place. by rewrite H11.
Qed.

(** Filling the hole gives a trie at the node above it. *)
Lemma ctx_up h root t ts pl G W pre e f m :
  ctx h root (t :: ts) pl G W pre e -> rep h (load h root pl) f m ->
  (forall b, e = Some b -> first_byte h (load h root pl) = b) -> (forall x, f x -> G x -> False) ->
  exists n G0 W0 pre0 e0 f0 m0,
    ctx h root ts (t_offset t) G0 W0 pre0 e0 /\ rep h (load h root (t_offset t)) f0 m0 /\
    (forall b, e0 = Some b -> first_byte h (load h root (t_offset t)) = b) /\
    (forall x, f0 x -> G0 x -> False) /\ t_node t = target (load h root (t_offset t)) /\
    t_keypos t = Z.of_nat (length pre0) /\ points_leaf (load h root (t_offset t)) = false /\
    body (h (t_node t)) = OTrie n /\ pre = pre0 ++ compressed n /\ W0 m0 = W m /\
    (forall x, G0 x \/ f0 x <-> G x \/ f x).
Proof.
  intros C R Hfb D.
  inversion C as [|t' ts' n b F M G0 W0 pre0 e0 C0 lnk H1 H2 H3 H4 H5 H6 H7 H8 H9 H10 H11 H12 H13 H14]; subst.
  assert (link n b = Some (load h root (link_place t))) as Elb.
  { rewrite link_isset, H10 by done. unfold link_place, load, trie_at. by rewrite H5, H11. }
  set (l := load h root (link_place t)) in *. destruct H12 as [S1 S2].
  set (M' := fun k => if k =? b then m else M k). set (F' := fun k => if k =? b then f else F k).
  exists n, G0, W0, pre0, e0, (fun x => x = t_node t \/
    exists k l, -1 <= k <= 255 /\ link n k = Some l /\ F' k x), (node_map (compressed n) (link n) M').
  split_and!; try done.
  - eapply (rep_node h lnk n F' M'); try done.
    + by rewrite <- H3.
    + by exists b.
    + intros k l0 Hk Hl. unfold F', M'. destruct (Z.eqb_spec k b) as [->|]; [congruence|].
      by apply (S1 k l0).
    + intros k l0 Hk Hl. destruct (Z.eq_dec k b) as [->|]; [|by apply (S1 k l0)].
      replace l0 with l by congruence. by apply Hfb.
    + intros k l0 Hk Hl. unfold F'. rewrite <- H3. destruct (Z.eqb_spec k b) as [->|]; [|by apply (S1 k l0)].
      intros Hx. apply (D _ Hx). right. by left.
    + intros k l0 k' l0' x Hk Hk' Hl Hl'. unfold F'.
      destruct (Z.eqb_spec k b) as [->|N1], (Z.eqb_spec k' b) as [->|N2]; [done| | |].
      * intros Hx Hx'. exfalso. apply (D _ Hx). right. right. by exists k', l0'.
      * intros Hx Hx'. exfalso. apply (D _ Hx'). right. right. by exists k, l0.
      * by apply (S2 k l0 k' l0').
    + intros x. by rewrite <- H3.
  - intros x [->|(k & l0 & Hk & Hl & Hx)] Hg; [done|]. unfold F' in Hx.
    destruct (Z.eqb_spec k b) as [->|Hne]; [|by apply (H14 k l0 x)].
    apply (D x Hx). by left.
  - intros x. split.
    + intros [Hg|[->|(k & l0 & Hk & Hl & Hx)]]; [by do 2 left|left; right; by left|].
      unfold F' in Hx. destruct (Z.eqb_spec k b) as [->|Hne]; [by right|].
      left. right. right. by exists k, l0.
    + intros [[Hg|[->|(k & l0 & Hk & Hne & Hl & Hx)]]|Hx]; [by left|right; by left| |].
      * right. right. exists k, l0. split_and!; try (done || lia). unfold F'. by destruct (Z.eqb_spec k b).
      * right. right. exists b, l. split_and!; try (done || lia). unfold F'. by rewrite Z.eqb_refl.
Qed.

Lemma ctx_plug h root ts pl G W pre e f m :
  ctx h root ts pl G W pre e -> rep h (load h root pl) f m ->
  (forall b, e = Some b -> first_byte h (load h root pl) = b) -> (forall x, f x -> G x -> False) ->
  rep h root (fun x => G x \/ f x) (W m).
Proof.
  revert pl G W pre e f m. induction ts as [|t ts IH]; intros pl G W pre e f m C R Hfb D.
  { inversion C; subst. simpl in R. eapply rep_ext; [exact R| |done]. tauto. }
  destruct (ctx_up h root t ts pl G W pre e f m C R Hfb D)
    as (n & G0 & W0 & pre0 & e0 & f0 & m0 & C0 & R0 & Hf0 & D0 & _ & _ & _ & _ & _ & EW & EG).
  rewrite <- EW. eapply rep_ext; [by eapply IH| |done]. intros x. by rewrite EG.
Qed.

(** ** What the whole trie maps, seen through the hole *)

Lemma node_map_app comp lk M r : node_map comp lk M (comp ++ r) =
  match lk (branch r) with Some _ => M (branch r) r | None => None end.
Proof. unfold node_map. rewrite decide_True by by exists r. by rewrite drop_app_length. Qed.

(** A child's prefix begins with the branch that leads to it. *)
Lemma ctx_enters h root ts pl G W pre e n r :
  ctx h root ts pl G W pre e -> points_leaf (load h root pl) = false ->
  body (h (target (load h root pl))) = OTrie n ->
  (forall x, e = Some x -> first_byte h (load h root pl) = x) -> enters e (compressed n ++ r).
Proof.
  intros C Hl Hb Hf. destruct e as [x|]; [|done]. specialize (Hf x eq_refl). simpl.
  unfold first_byte, trie_at in Hf. rewrite Hl, Hb in Hf.
  destruct (compressed n) as [|b c]; [|by subst].
  inversion C; subst. lia.
Qed.

Lemma ctx_focus h root ts pl G W pre e m r :
  ctx h root ts pl G W pre e -> enters e r -> W m (pre ++ r) = m r.
Proof.
  intros C. revert m r.
  induction C as [|t ts n b F M G W pre e C IH lnk H1 H2 H3 H4 H5 H6 H7 H8 H9 H10 H11 H12 H13 H14];
    intros m r Hr; [done|].
  rewrite <- app_assoc, IH.
  - rewrite node_map_app. simpl in Hr. rewrite Hr, Z.eqb_refl. by rewrite link_isset, H10.
  - eapply ctx_enters; [exact C|exact H1| |exact H8]. fold lnk. by rewrite <- H3.
Qed.

Lemma ctx_outside h root ts pl G W pre e m1 m2 key :
  ctx h root ts pl G W pre e -> ~ (exists r, key = pre ++ r /\ enters e r) -> W m1 key = W m2 key.
Proof.
  intros C. revert m1 m2 key.
  induction C as [|t ts n b F M G W pre e C IH lnk H1 H2 H3 H4 H5 H6 H7 H8 H9 H10 H11 H12 H13 H14];
    intros m1 m2 key Hn; [by destruct Hn; exists key|].
  destruct (decide (pre `prefix_of` key)) as [[r' ->]|Hp].
  2: { apply IH. intros (r & -> & _). apply Hp. by exists r. }
  destruct (decide (compressed n `prefix_of` r')) as [[r ->]|Hc].
  - assert (enters e (compressed n ++ r)) as He.
    { eapply ctx_enters; [exact C|exact H1| |exact H8]. fold lnk. by rewrite <- H3. }
    rewrite !(ctx_focus _ _ _ _ _ _ _ _ _ _ C He), !node_map_app.
    destruct (link n (branch r)); [|done]. destruct (Z.eqb_spec (branch r) b) as [E|]; [|done].
    destruct Hn. exists r. by rewrite app_assoc.
  - destruct (decide (enters e r')) as [He|He].
    + rewrite !(ctx_focus _ _ _ _ _ _ _ _ _ _ C He). unfold node_map. by rewrite !decide_False.
    + apply IH. intros (r & E%app_inv_head & He'). congruence.
Qed.

(** Replacing the map behind the hole. *)
Lemma ctx_replace h root ts pl G W pre e m1 m2 key :
  ctx h root ts pl G W pre e -> byte_list key -> (forall r, byte_list r -> m1 r = m2 r) -> W m1 key = W m2 key.
Proof.
  intros C Hk E. destruct (decide (pre `prefix_of` key)) as [[r ->]|Hp].
  - destruct (decide (enters e r)) as [He|He].
    + rewrite !(ctx_focus _ _ _ _ _ _ _ _ _ _ C He). apply E. by apply byte_list_app in Hk as [_ ?].
    + eapply ctx_outside; [exact C|]. intros (r' & E'%app_inv_head & ?). congruence.
  - eapply ctx_outside; [exact C|]. intros (r' & -> & _). apply Hp. by exists r'.
Qed.

End with_hash.

(** ** A sample trie, for the witnesses: the keys [a] and [ab] *)

Definition sample_node : node :=
  let '(n, (i, j)) := create_two 0 trie.blank [97] NONE 98 in
  set_slot (set_slot n i (link_to 16 LEAF)) j (link_to 24 LEAF).
Definition sample_heap : heap := fun p =>
  Page 0 0 0 (if p =? 8 then OTrie sample_node
    else if p =? 16 then OLeaf (LeafNode.Node 1 0 [120]) else OLeaf (LeafNode.Node 1 1 [98; 121])).
Definition sample_root : Z := link_to 8 TRIE.
Definition sample_pages (x : Z) : Prop := x = 8 \/ x = 16 \/ x = 24.
Definition sample_map : keymap := fun key =>
  if decide (key = [97]) then Some (1, [120]) else if decide (key = [97; 98]) then Some (1, [121]) else None.

Lemma sample_links : wf 0 sample_node /\ compressed sample_node = [97] /\
  forall k, -1 <= k <= 255 -> link sample_node k =
    if k =? NONE then Some (link_to 16 LEAF) else if k =? 98 then Some (link_to 24 LEAF) else None.
Proof.
  pose proof (NodeCreate.create_two_paired 0 ltac:(lia) trie.blank [97] NONE 98 ltac:(done) ltac:(done)
    ltac:(lia) ltac:(done)) as P. unfold sample_node.
  destruct (create_two 0 trie.blank [97] NONE 98) as [n [i j]].
  destruct (NodeCreate.paired_links 0 ltac:(lia) n [97] NONE 98 (link_to 16 LEAF) (link_to 24 LEAF) i j
    ltac:(done) ltac:(lia) ltac:(done) P) as (W & C & _ & L).
  by split_and!.
Qed.

Lemma sample_rep : rep 0 sample_heap sample_root sample_pages sample_map.
Proof.
  destruct sample_links as (W & C & L).
  set (F := fun b x => x = if b =? NONE then 16 else 24).
  set (M := fun (b : Z) (key : list Z) =>
    if b =? NONE then (if decide (key = []) then Some (1, [120]) else None)
    else if decide (key = [98]) then Some (1, [121]) else None).
  assert (forall k l, -1 <= k <= 255 -> link sample_node k = Some l ->
    k = NONE /\ l = link_to 16 LEAF \/ k = 98 /\ l = link_to 24 LEAF) as Cs.
  { intros k l Hk. rewrite L by done. zcases; intros [= <-]; [by left|by right]. }
  eapply (rep_node 0 _ _ _ F M); [done|done|reflexivity|exact W|rewrite C; forall_lia| | | | | | |].
  - exists NONE. split; [done|]. specialize (L NONE ltac:(done)). rewrite (link_isset 0) in L by done.
    by destruct (isset sample_node NONE).
  - intros k l Hk Hl. destruct (Cs k l Hk Hl) as [[-> ->]|[-> ->]].
    + eapply rep_leaf; [reflexivity|done|reflexivity|split; simpl; try (change (LeafNode.vsize _) with 1); try lia; simpl; forall_lia|intros x; reflexivity|intros q Hq; unfold M, payload_of; simpl; unfold LeafNode.key; simpl; by repeat case_decide].
    + eapply rep_leaf; [reflexivity|done|reflexivity|split; simpl; try (change (LeafNode.vsize _) with 1); try lia; simpl; forall_lia|intros x; reflexivity|intros q Hq; unfold M, payload_of; simpl; unfold LeafNode.key; simpl; by repeat case_decide].
  - intros k l Hk Hl. destruct (Cs k l Hk Hl) as [[-> ->]|[-> ->]]; reflexivity.
  - intros k l Hk Hl. destruct (Cs k l Hk Hl) as [[-> ->]|[-> ->]]; by intros [=].
  - intros k l k' l' x Hk Hk' Hl Hl'. destruct (Cs k l Hk Hl) as [[-> ->]|[-> ->]],
      (Cs k' l' Hk' Hl') as [[-> ->]|[-> ->]]; unfold F; simpl; lia.
  - intros x. unfold sample_pages. split.
    + intros [->|[->| ->]]; [by left| |]; right.
      * exists NONE, (link_to 16 LEAF). split_and!; [done..|by rewrite L|done].
      * exists 98, (link_to 24 LEAF). split_and!; [done..|by rewrite L|done].
    + intros [->|(k & l & Hk & Hl & ->)]; [by left|]. destruct (Cs k l Hk Hl) as [[-> ->]|[-> ->]]; auto.
  - intros key Hk. unfold node_map, sample_map. rewrite C. destruct (decide ([97] `prefix_of` key)) as [[r ->]|Hp].
    + rewrite drop_app_length. rewrite L by (apply byte_branch; by apply byte_list_app in Hk as [_ ?]).
      destruct r as [|b r]; [done|]. cbn [branch app].
      rewrite decide_False by done. unfold M. destruct (decide _) as [[= -> ->]|Hne].
      * done.
      * zcases; try done. destruct (decide (b :: r = [])); [done|]. rewrite decide_False; [done|]. by intros [= -> ->].
    + rewrite !decide_False; [done| |]; intros ->; apply Hp; eexists; reflexivity.
Qed.

End trierep.
