(* ===== verification/TrieFind.v ===== *)
(** * TrieFind: where a search ends

    [find] descends as long as the key passes the prefixes of the nodes. Its result
    is the path to the node where the key ends or leaves the trie, together with
    what was matched: enough for the lookup to be right and for the insertion to
    know where the new key belongs. *)
From S2P Require Import Prelude Bits Util Node Leaf NodeFacts Trie TrieRep.

Module triefind.
Import util.
Export trierep.

Lemma take_common a b : take (common_prefix a b) a = take (common_prefix a b) b.
Proof. apply common_prefix_take. Qed.

Lemma common_prefix_full a b : (length b <= common_prefix a b)%nat -> exists r, a = b ++ r.
Proof.
  intros H. pose proof (common_prefix_le a b) as Hl. assert (common_prefix a b = length b) as E by lia.
  pose proof (take_common a b) as T. rewrite E, firstn_all in T. exists (drop (length b) a).
  rewrite <- T at 1. by rewrite take_drop.
Qed.

Lemma common_prefix_app b r : common_prefix (b ++ r) b = length b.
Proof. induction b as [|x b IH]; simpl; [by destruct r|]. by rewrite Z.eqb_refl, IH. Qed.

(** The parents [ts] of a transition at [pos] follow [key]: each compared equal, ends
    where the one above it begins and has taken the byte there as its branch. *)
Fixpoint trail (key : list Z) (pos : Z) (ts : list transition) (stop : Z) : Prop :=
  match ts with
  | [] => pos = stop
  | u :: us => t_cmp u = 0 /\ 0 <= t_prefix u /\ t_keypos u + t_prefix u = pos /\
      (forall b, key !! Z.to_nat pos = Some b -> t_branch_key u = b) /\ trail key (t_keypos u) us stop
  end.

Definition trailing (key : list Z) (c : cursor) : Prop :=
  match stack c with [] => True | t :: ts => trail key (t_keypos t) ts 0 end.

Lemma trail_app key pos a b stop : trail key pos (a ++ b) stop <-> exists mid, trail key pos a mid /\ trail key mid b stop.
Proof.
  revert pos. induction a as [|u a IH]; intros pos; cbn [app trail].
  - split; [by exists pos|]. by intros (mid & -> & H).
  - rewrite IH. naive_solver.
Qed.

(** Only the bytes up to [pos] matter. *)
Lemma trail_same key key' pos ts stop : trail key pos ts stop ->
  (forall i b, (i <= Z.to_nat pos)%nat -> key' !! i = Some b -> key !! i = Some b) -> trail key' pos ts stop.
Proof.
  revert pos. induction ts as [|u us IH]; intros pos; cbn [trail]; [done|].
  intros (H1 & H2 & H3 & H4 & H5) E. split_and!; try done.
  - intros b Hb. apply H4. by apply E.
  - apply IH; [done|]. intros i b Hi. apply E. lia.
Qed.

Lemma trail_drop key pos n ts : trail key pos ts 0 -> match drop n ts with [] => True | u :: us => trail key (t_keypos u) us 0 end.
Proof.
  revert pos n. induction ts as [|t ts IH]; intros pos n H; [by rewrite drop_nil|]. destruct H as (_ & _ & _ & _ & H).
  destruct n as [|n]; [done|]. cbn [drop]. by eapply IH.
Qed.

Section with_cfg.
Context (HASH_SIZE : Z) (cfg : simd) (h : heap) (root : Z).
Hypothesis HASH_SIZE_range : 0 <= HASH_SIZE <= 512.

Abbreviation rep := (trierep.rep HASH_SIZE).
Abbreviation ctx := (trierep.ctx HASH_SIZE).

Lemma get_prefix_common a b : byte_list a -> byte_list b ->
  trie.get_prefix cfg a b = (Z.of_nat (common_prefix a b), lex a b).
Proof. intros Ha Hb. unfold trie.get_prefix. by rewrite get_prefix_spec. Qed.

(** The transition [t] on the parents [ts] looks at a link of the trie. *)
Record focus (t : transition) (ts : list transition) (G : Z -> Prop) (W : keymap -> keymap)
    (pre : list Z) (e : option Z) (f : Z -> Prop) (m : keymap) : Prop := {
  fo_ctx : ctx h root ts (t_offset t) G W pre e;
  fo_rep : rep h (load h root (t_offset t)) f m;
  fo_first : forall b, e = Some b -> first_byte h (load h root (t_offset t)) = b;
  fo_disj : forall x, f x -> G x -> False;
  fo_node : t_node t = target (load h root (t_offset t));
  fo_keypos : t_keypos t = Z.of_nat (length pre)
}.

(** What the node of the transition matches. *)
Definition content (t : transition) : list Z :=
  if is_leaf h root t then LeafNode.key (t_leaf h t) else compressed (t_trie h t).

(** The search of [pre ++ r] ended at [t]. *)
Record stopped (t : transition) (k : keys_state) (pre r : list Z) : Prop := {
  st_prefix : t_prefix t = Z.of_nat (common_prefix r (content t));
  st_cur : cur k = pre ++ take (common_prefix r (content t)) r;
  st_rest : rest k = drop (common_prefix r (content t)) r;
  st_cmp :
    if is_leaf h root t then t_cmp t = lex r (content t)
    else if t_prefix t <? compressed_len (t_trie h t) then t_cmp t = lex r (content t)
    else match rest k with
         | [] => has_none (t_trie h t) = false /\ t_cmp t = -1
         | b :: _ => link (t_trie h t) b = None /\ t_branch_key t = b /\ t_cmp t = NOT_FOUND
         end
}.

(** The child of a transition whose link is set. *)
Lemma focus_child t ts n F M G W pre e b l k :
  focus t ts G W pre e (fun x => x = t_node t \/ exists k l, -1 <= k <= 255 /\ link n k = Some l /\ F k x)
    (node_map (compressed n) (link n) M) ->
  is_leaf h root t = false -> body (h (t_node t)) = OTrie n -> wf HASH_SIZE n -> byte_list (compressed n) ->
  (forall k l, -1 <= k <= 255 -> link n k = Some l -> rep h l (F k) (M k)) ->
  (forall k l, -1 <= k <= 255 -> link n k = Some l -> first_byte h l = k) ->
  (forall k l, -1 <= k <= 255 -> link n k = Some l -> ~ F k (t_node t)) ->
  (forall k l k' l' x, -1 <= k <= 255 -> -1 <= k' <= 255 -> link n k = Some l ->
    link n k' = Some l' -> F k x -> F k' x -> k = k') ->
  -1 <= b <= 255 -> link n b = Some l -> Z.of_nat (length (pre ++ compressed n)) < 2 ^ 16 ->
  cur k = pre ++ compressed n ->
  forall t', t_node t' = t_node t -> t_offset t' = t_offset t -> t_keypos t' = t_keypos t ->
  t_link_idx t' = array_index n b ->
  let '(ch, k') := child h root t' k in
  exists G' W', focus ch (t' :: ts) G' W' (pre ++ compressed n) (Some b) (F b) (M b) /\
    (forall m, W' m = W (node_map (compressed n) (link n) (fun c => if c =? b then m else M c))) /\
    load h root (t_offset ch) = l /\ k' = Keys (cur k) (rest k) (tl (dead k)).
Proof.
  intros [C R Hf D En Ek] Hl Hb Hw Hc Hr Hfc HF HD Hbr El Hlen Ecur t' E1 E2 E3 E4. cbn [child].
  destruct (link_some HASH_SIZE n b l Hw Hbr El) as (Hs & Es & Hi).
  assert (load h root (link_place t') = l) as Eload.
  { unfold link_place. simpl. unfold trie_at. by rewrite E1, Hb, E4. }
  eexists _, _. split_and!; [|done|done|done]. split; cbn [init t_offset t_node t_keypos].
  - eapply (ctx_node HASH_SIZE h root t' ts n b F M); rewrite ?E1, ?E2, ?E3; try done.
    + by apply (rep_nonzero HASH_SIZE _ _ _ _ R).
    + split; [|intros; eapply HD; eauto]. intros k0 l0 Hk0 Hne Hl0. by split_and!; eauto.
    + intros Hg. apply (D (t_node t)); [by left|done].
    + intros k0 l0 x Hk0 Hne Hl0 Hx Hg. apply (D x); [|done]. right. by exists k0, l0.
  - rewrite Eload. by apply Hr.
  - rewrite Eload. intros b' [= <-]. by apply Hfc.
  - rewrite E1. intros x Hx [Hg|[->|(k0 & l0 & Hk0 & Hne & Hl0 & Hx0)]].
    + apply (D x); [|done]. right. by exists b, l.
    + by apply (HF b l).
    + apply Hne. by apply (HD k0 l0 b l x).
  - done.
  - rewrite Ecur. apply wrap_small. lia.
Qed.

Lemma focus_ext t ts G W pre e f m f' m' :
  focus t ts G W pre e f m -> (forall x, f' x <-> f x) -> (forall k, byte_list k -> m' k = m k) ->
  focus t ts G W pre e f' m'.
Proof.
  intros [C R Hf D En Ek] Ef Em. split; try done.
  - by eapply rep_ext.
  - intros x Hx. apply D. by apply Ef.
Qed.

(** A focus on a leaf or on a node. *)
Lemma focus_cases t ts G W pre e f m :
  focus t ts G W pre e f m ->
  (is_leaf h root t = true /\ exists l, body (h (t_node t)) = OLeaf l /\ leaf_ok l /\
    forall key, byte_list key -> m key = if decide (key = LeafNode.key l) then Some (payload_of l) else None) \/
  (is_leaf h root t = false /\ exists n F M, body (h (t_node t)) = OTrie n /\ wf HASH_SIZE n /\
    byte_list (compressed n) /\
    (forall k l, -1 <= k <= 255 -> link n k = Some l -> rep h l (F k) (M k)) /\
    (forall k l, -1 <= k <= 255 -> link n k = Some l -> first_byte h l = k) /\
    (forall k l, -1 <= k <= 255 -> link n k = Some l -> ~ F k (t_node t)) /\
    (forall k l k' l' x, -1 <= k <= 255 -> -1 <= k' <= 255 -> link n k = Some l ->
      link n k' = Some l' -> F k x -> F k' x -> k = k') /\
    focus t ts G W pre e (fun x => x = t_node t \/ exists k l, -1 <= k <= 255 /\ link n k = Some l /\ F k x)
      (node_map (compressed n) (link n) M) /\
    (forall key, byte_list key -> m key = node_map (compressed n) (link n) M key) /\
    (forall x, f x <-> x = t_node t \/ exists k l, -1 <= k <= 255 /\ link n k = Some l /\ F k x)).
Proof.
  intros Fo. pose proof (fo_node _ _ _ _ _ _ _ _ Fo) as En. unfold is_leaf.
  pose proof (fo_rep _ _ _ _ _ _ _ _ Fo) as R. remember (load h root (t_offset t)) as lk eqn:Elk.
  destruct R as [lnk lf f0 m0 H1 H2 H3 H4 H5 H6|lnk n F M f0 m0 H1 H2 H3 H4 H5 H6 H7 H8 H9 H10 H11 H12].
  - left. split; [done|]. exists lf. by rewrite En.
  - right. split; [done|]. exists n, F, M. rewrite En. split_and!; try done.
    eapply focus_ext; [exact Fo| |].
    + intros x. by rewrite H11.
    + intros key Hk. by rewrite H12.
Qed.

(** The branches of a search at a node whose prefix it passed. *)
Lemma find_node fuel t k n :
  is_leaf h root t = false -> t_node t <> 0 -> body (h (t_node t)) = OTrie n ->
  wf HASH_SIZE n -> byte_list (compressed n) -> byte_list (rest k) ->
  let p := common_prefix (rest k) (compressed n) in
  let t1 := set_prefix_cmp (Z.of_nat p) (lex (rest k) (compressed n)) t in
  let k1 := Keys (cur k ++ take p (rest k)) (drop p (rest k)) (dead k) in
  trie.find cfg h root (S fuel) t k =
    if (p <? length (compressed n))%nat then Some ([t1], k1)
    else
      let b := branch (drop p (rest k)) in
      let t2 := match drop p (rest k) with [] => t1 | c :: _ => set_branch c t1 end in
      match link n b with
      | None =>
          Some ([set_cmp (match drop p (rest k) with [] => -1 | _ => NOT_FOUND end) t2], k1)
      | Some _ =>
          let t3 := set_idx (array_index n b) (match drop p (rest k) with [] => t2 | _ => set_cmp 0 t2 end) in
          let '(ch, k2) := child h root t3 k1 in
          '(seg, k3) ← trie.find cfg h root fuel ch k2; Some (seg ++ [t3], k3)
      end.
Proof.
  intros Hl Hn Hb Hw Hc Hr p t1 k1. cbn [trie.find]. destruct (Z.eqb_spec (t_node t) 0); [done|].
  rewrite Hl. unfold t_trie, trie_at. rewrite Hb, get_prefix_common by done. fold p.
  unfold advance_key. rewrite Nat2Z.id. fold t1 k1. rewrite <- (compressed_length HASH_SIZE n Hw).
  destruct (Z.ltb_spec (Z.of_nat p) (Z.of_nat (length (compressed n)))) as [L|L],
    (Nat.ltb_spec p (length (compressed n))) as [L'|L']; try lia; [done|].
  cbn [rest k1]. destruct (drop p (rest k)) as [|b r] eqn:Ed.
  - cbn [branch]. rewrite (link_isset HASH_SIZE n NONE Hw) by (unfold NONE; lia).
    change (isset n NONE) with (has_none n). destruct (has_none n) eqn:Hnone; [|done].
    by rewrite (none_index HASH_SIZE n Hw Hnone).
  - cbn [branch]. assert (0 <= b < 256) as Hb256.
    { pose proof (byte_list_drop p _ Hr) as Hd. rewrite Ed in Hd. by inversion Hd. }
    destruct (Z.ltb_spec (array_index n b) 0) as [Hi|Hi].
    + rewrite (proj1 (array_index_neg HASH_SIZE n b Hw ltac:(lia)) Hi). done.
    + destruct (link n b) as [l|] eqn:El; [done|].
      apply (array_index_neg HASH_SIZE n b Hw) in El; lia.
Qed.

(** ** The search stops where the key ends or leaves the trie *)

(** [find] at a focus: the new top, its parents and the matched key. *)
Definition lands (ts : list transition) (k : keys_state) (pre : list Z) (w : keymap)
    (res : option (list transition * keys_state)) : Prop :=
  exists t' seg k' G' W' pre' e' f' m' r',
    res = Some (t' :: seg, k') /\ focus t' (seg ++ ts) G' W' pre' e' f' m' /\
    pre ++ rest k = pre' ++ r' /\ enters e' r' /\ stopped t' k' pre' r' /\
    (forall key, byte_list key -> W' m' key = w key) /\
    trail (pre ++ rest k) (t_keypos t') seg (Z.of_nat (length pre)).

Lemma find_leaf fuel t k l : is_leaf h root t = true -> t_node t <> 0 ->
  body (h (t_node t)) = OLeaf l -> leaf_ok l -> byte_list (rest k) ->
  let p := common_prefix (rest k) (LeafNode.key l) in
  trie.find cfg h root (S fuel) t k =
    Some ([set_prefix_cmp (Z.of_nat p) (lex (rest k) (LeafNode.key l)) t],
      Keys (cur k ++ take p (rest k)) (drop p (rest k)) (dead k)).
Proof.
  intros Hl Hn Hb Hok Hr p. cbn [trie.find]. destruct (Z.eqb_spec (t_node t) 0); [done|].
  rewrite Hl. unfold t_leaf, leaf_at. rewrite Hb, get_prefix_common by (done || apply (lo_bytes _ Hok)).
  fold p. unfold advance_key. by rewrite Nat2Z.id.
Qed.

(** Fields of the transition that a focus does not mention. *)
Lemma focus_same t t' ts G W pre e f m : focus t ts G W pre e f m ->
  t_node t' = t_node t -> t_offset t' = t_offset t -> t_keypos t' = t_keypos t ->
  focus t' ts G W pre e f m.
Proof. intros [C R Hf D En Ek] E1 E2 E3. split; rewrite ?E1, ?E2, ?E3; done. Qed.

Lemma ctx_load_ext t ts G W pre e f m w : focus t ts G W pre e f m ->
  (forall key, byte_list key -> w key = m key) -> forall key, byte_list key -> W w key = W m key.
Proof. intros Fo E key Hk. by eapply ctx_replace; [apply Fo| |]. Qed.

Lemma find_stops fuel t ts k G W pre e f m :
  focus t ts G W pre e f m -> cur k = pre -> byte_list (rest k) -> enters e (rest k) ->
  Z.of_nat (length (pre ++ rest k)) < 2 ^ 16 ->
  (length (rest k) + match e with None => 2 | Some _ => 1 end <= fuel)%nat ->
  lands ts k pre (W m) (trie.find cfg h root fuel t k).
Proof.
  revert t ts k G W pre e f m. induction fuel as [|fuel IH]; intros t ts k G W pre e f m Fo Ec Hr He Hlen Hf.
  { destruct e; lia. }
  pose proof (fo_node _ _ _ _ _ _ _ _ Fo) as En.
  pose proof (rep_nonzero HASH_SIZE _ _ _ _ (fo_rep _ _ _ _ _ _ _ _ Fo)) as Hnz. rewrite <- En in Hnz.
  destruct (focus_cases _ _ _ _ _ _ _ _ Fo) as
    [(Hl & l & Hb & Hok & Hm)|(Hl & n & F & M & Hb & Hw & Hc & H1 & H2 & H3 & H4 & Fo' & Hm & _)].
  - rewrite (find_leaf fuel t k l) by done. eexists _, [], _, G, W, pre, e, f, m, (rest k).
    split_and!; [done|by eapply focus_same|done|done| |done|apply Fo].
    split; unfold content, is_leaf, t_leaf, leaf_at in *; cbn [set_prefix_cmp t_offset t_node t_prefix t_cmp cur rest];
      rewrite ?Hl, ?Hb, ?Ec; done.
  - rewrite (find_node fuel t k n) by done. set (p := common_prefix (rest k) (compressed n)).
    set (t1 := set_prefix_cmp _ _ t).
    assert (forall t', t_offset t' = t_offset t -> t_node t' = t_node t -> content t' = compressed n) as Hcon.
    { intros t' E1 E2. unfold content, is_leaf, t_trie, trie_at. unfold is_leaf in Hl. by rewrite E1, Hl, E2, Hb. }
    assert (forall t', t_offset t' = t_offset t -> is_leaf h root t' = false) as Hl'.
    { intros t' E. unfold is_leaf. by rewrite E. }
    pose proof (common_prefix_le (rest k) (compressed n)) as Hple. fold p in Hple.
    pose proof (compressed_length HASH_SIZE n Hw) as Hcl.
    destruct (Nat.ltb_spec p (length (compressed n))) as [L|L].
    { eexists _, [], _, G, W, pre, e, f, m, (rest k).
      split_and!; [done|by eapply focus_same|done|done| |done|apply Fo].
      split; rewrite ?Hcon, ?Hl' by done; fold p; cbn [t1 set_prefix_cmp t_prefix t_cmp cur rest];
        [done|by rewrite Ec|done|]. unfold t_trie, trie_at. cbn [t1 set_prefix_cmp t_node]. rewrite Hb.
      destruct (Z.ltb_spec (Z.of_nat p) (compressed_len n)); [done|lia]. }
    destruct (common_prefix_full _ _ L) as [r Er].
    assert (p = length (compressed n)) as Ep by lia.
    assert (drop p (rest k) = r) as Edr by by rewrite Er, Ep, drop_app_length.
    assert (take p (rest k) = compressed n) as Etk by by rewrite Er, Ep, take_app_length.
    assert (byte_list r) as Hbr by (rewrite <- Edr; by apply byte_list_drop).
    rewrite Edr. cbv zeta.
    set (t2 := match r with [] => t1 | c :: _ => set_branch c t1 end).
    assert (t_node t2 = t_node t /\ t_offset t2 = t_offset t /\ t_keypos t2 = t_keypos t /\
      t_prefix t2 = Z.of_nat p) as (E1 & E2 & E3 & E4) by by destruct r.
    destruct (link n (branch r)) as [l|] eqn:El.
    + set (t3 := set_idx _ _).
      assert (t_node t3 = t_node t /\ t_offset t3 = t_offset t /\ t_keypos t3 = t_keypos t) as (E5 & E6 & E7)
        by by destruct r.
      assert (t_cmp t3 = 0) as Ecmp.
      { destruct r; [|done]. unfold t3, t2, t1. cbn [set_idx set_prefix_cmp t_cmp]. rewrite Er, app_nil_r. by apply lex_zero. }
      set (k1 := Keys _ _ _).
      pose proof (focus_child t ts n F M G W pre e (branch r) l k1 Fo' Hl Hb Hw Hc H1 H2 H3 H4
        (byte_branch r Hbr) El) as Hch.
      destruct (child h root t3 k1) as [ch k2] eqn:Ech.
      specialize (Hch ltac:(rewrite Er in Hlen; rewrite !length_app in *; lia)
        ltac:(cbn [k1 cur]; by rewrite Ec, Etk) t3 E5 E6 E7 eq_refl). rewrite Ech in Hch.
      destruct Hch as (G' & W' & Fc & HW' & Eld & Ek2).
      pose proof (fo_ctx _ _ _ _ _ _ _ _ Fc) as Cc.
      assert (enters (Some (branch r)) r) as Her by done.
      assert (forall key, byte_list key -> W' (M (branch r)) key = W m key) as EW.
      { intros key Hk. rewrite HW'. eapply ctx_replace; [apply Fo|done|]. intros q Hq. rewrite Hm by done.
        unfold node_map. destruct (decide _); [|done]. destruct (link _ _); [|done].
        destruct (Z.eqb_spec (branch (drop (length (compressed n)) q)) (branch r)) as [->|]; done. }
      assert (lands (t3 :: ts) k2 (pre ++ compressed n) (W' (M (branch r))) (trie.find cfg h root fuel ch k2)) as Hla.
      { eapply IH; [exact Fc|rewrite Ek2; cbn [k1 cur]; by rewrite Ec, Etk|by rewrite Ek2|by rewrite Ek2| |].
        - rewrite Ek2. cbn [k1 rest]. rewrite <- app_assoc, <- Er. done.
        - rewrite Ek2. cbn [k1 rest]. rewrite Er, length_app in Hf.
          destruct e as [x|]; [|lia]. simpl in He.
          pose proof (fo_first _ _ _ _ _ _ _ _ Fo x eq_refl) as Hfx.
          unfold first_byte, trie_at in Hfx. rewrite <- En, Hb in Hfx. unfold is_leaf in Hl. rewrite Hl in Hfx.
          pose proof (byte_branch _ Hr) as Hbb. rewrite He in Hbb.
          destruct (compressed n); [lia|]. simpl in Hf. lia. }
      destruct Hla as (t' & seg & k' & G2 & W2 & pre' & e' & f' & m' & r' & Hres & Fo2 & Epr & He' & Hst & HW2 & Hfo).
      rewrite Hres. simpl. exists t', (seg ++ [t3]), k', G2, W2, pre', e', f', m', r'.
      split_and!; [done|by rewrite <- app_assoc| |done|done| |].
      * rewrite <- Epr, Ek2. cbn [k1 rest]. by rewrite Er, app_assoc.
      * intros key Hk. rewrite HW2 by done. by apply EW.
      * apply trail_app. exists (Z.of_nat (length (pre ++ compressed n))).
        rewrite Ek2, <- app_assoc in Hfo. cbn [k1 rest] in Hfo. rewrite <- Er in Hfo. split; [done|].
        rewrite Er. cbn [trail]. rewrite E7, (fo_keypos _ _ _ _ _ _ _ _ Fo), Nat2Z.id, length_app.
        assert (t_prefix t3 = Z.of_nat p) as -> by by destruct r. split_and!; [done|lia|lia| |done].
        intros b. rewrite app_assoc, lookup_app_r, length_app, Nat.sub_diag by (rewrite length_app; lia). by destruct r as [|c r]; [|intros [= ->]].
    + set (t3 := set_cmp _ t2). assert (t_keypos t3 = t_keypos t) as E8 by by destruct r.
      eexists t3, [], _, G, W, pre, e, f, m, (rest k).
      split_and!; [done|eapply focus_same; [exact Fo|done..]|done|done| |done|rewrite E8; apply Fo].
      split; rewrite ?Hcon, ?Hl' by done; fold p; cbn [cur rest]; rewrite ?Edr;
        [by rewrite <- E4|by rewrite Ec|done|].
      unfold t_trie, trie_at. replace (t_node t3) with (t_node t) by done. rewrite Hb.
      replace (t_prefix t3) with (Z.of_nat p) by done.
      destruct (Z.ltb_spec (Z.of_nat p) (compressed_len n)); [lia|].
      destruct r as [|b r]; [|done]. split; [|done].
      change (branch []) with NONE in El. rewrite (link_isset HASH_SIZE n NONE Hw) in El by (unfold NONE; lia).
      change (has_none n) with (isset n NONE). by destruct (isset n NONE).
Qed.

End with_cfg.
End triefind.
