(* ===== verification/TrieLookup.v ===== *)
(** * TrieLookup: lookups and the reuse of a cursor's stack

    A cursor keeps its stack between two searches. [positioned] says what such a
    stack stands for; a search from a fresh or a positioned cursor finds exactly
    the keys of the trie, except that a cursor left invalid at a key is not searched
    again for the same key, where an invalid answer can be wrong. *)
From S2P Require Import Prelude Bits Util Node Leaf NodeFacts Trie TrieRep TrieFind.

Module trielookup.
Import util.
Export triefind.

Section with_cfg.
Context (HASH_SIZE : Z) (cfg : simd) (h : heap) (root : Z).
Hypothesis HASH_SIZE_range : 0 <= HASH_SIZE <= 512.

Abbreviation rep := (trierep.rep HASH_SIZE).
Abbreviation ctx := (trierep.ctx HASH_SIZE).
Abbreviation focus := (triefind.focus HASH_SIZE).
Abbreviation keys := trie.keys.
Abbreviation success := (trie.success h root).
Abbreviation is_leaf := (trie.is_leaf h root).

(** What a positioned top says about the map behind its link. *)
Definition reading (t : transition) : option (list Z) :=
  if success t then Some (LeafNode.value (t_leaf h t)) else None.

Lemma stopped_reads t ts G W pre e f m k r :
  focus h root t ts G W pre e f m -> stopped h root t k pre r -> enters e r -> byte_list r ->
  success t = match m r with Some _ => true | None => false end /\
  reading t = option_map snd (m r) /\
  (success t = true -> r = LeafNode.key (t_leaf h t)).
Proof.
  intros Fo [S1 S2 S3 S4] He Hr. unfold reading, trie.success.
  destruct (focus_cases _ _ _ _ _ _ _ _ _ _ _ Fo) as
    [(Hl & l & Hb & Hok & Hm)|(Hl & n & F & M & Hb & Hw & Hc & H1 & H2 & H3 & H4 & Fo' & Hm & _)].
  - rewrite Hl in *. unfold content in *. rewrite Hl in *. unfold t_leaf, leaf_at in *. rewrite Hb in *.
    rewrite Hm by done. rewrite S4, andb_true_r.
    destruct (Z.eqb_spec (lex r (LeafNode.key l)) 0) as [E|E]; rewrite lex_zero in E.
    + rewrite decide_True by done. done.
    + by rewrite decide_False.
  - rewrite Hl in *. rewrite andb_false_r. unfold content, t_trie, trie_at in *. rewrite Hl, Hb in *.
    assert (m r = None) as ->; [|done]. rewrite Hm by done. unfold node_map.
    destruct (decide _) as [[q ->]|]; [|done]. rewrite common_prefix_app in *.
    rewrite <- (compressed_length HASH_SIZE n Hw), S1 in S4.
    destruct (Z.ltb_spec (Z.of_nat (length (compressed n))) (Z.of_nat (length (compressed n)))); [lia|].
    rewrite S3, drop_app_length in S4. rewrite drop_app_length.
    destruct q as [|b q]; simpl; [|by destruct S4 as [-> _]].
    destruct S4 as [Hn _]. rewrite (link_isset HASH_SIZE n NONE Hw) by (unfold NONE; lia).
    change (isset n NONE) with (has_none n). by rewrite Hn.
Qed.

(** ** Positioned cursors *)

(** The transition [t] on the parents [ts] belongs to a trie for [w], and [cu] is
    what has been matched up to and at [t]. *)
Definition seated (t : transition) (ts : list transition) (cu : list Z) (w : keymap) : Prop :=
  exists G W pre e f m q, focus h root t ts G W pre e f m /\ cu = pre ++ q /\ (q = [] \/ enters e q) /\
    (forall key, byte_list key -> W m key = w key).

(** The search of [key] ended at the top of the cursor. *)
Definition located (c : cursor) (key : list Z) (w : keymap) : Prop :=
  match stack c with
  | [] => False
  | t :: ts => exists G W pre e f m r, focus h root t ts G W pre e f m /\ key = pre ++ r /\
      enters e r /\ stopped h root t (keys c) pre r /\ (forall q, byte_list q -> W m q = w q)
  end.

(** A cursor between two operations: its top is seated, and what it takes for a
    found key is one. *)
Record positioned (c : cursor) (w : keymap) : Prop := {
  po_bytes : byte_list (cur (keys c));
  po_seat : match stack c with [] => False | t :: ts => seated t ts (cur (keys c)) w end;
  po_valid : is_valid h root c = true -> located (no_rest c) (cur (keys c)) w
}.

Lemma seated_up t u us cu w : seated t (u :: us) cu w -> seated u us cu w.
Proof.
  intros (G & W & pre & e & f & m & q & [C R Hf D En Ek] & -> & Hq & EW).
  destruct (ctx_up HASH_SIZE h root u us (t_offset t) G W pre e f m C R Hf D)
    as (n & G0 & W0 & pre0 & e0 & f0 & m0 & C0 & R0 & Hf0 & D0 & En0 & Ek0 & Hl0 & Hb0 & -> & EW0 & EG).
  exists G0, W0, pre0, e0, f0, m0, (compressed n ++ q). split_and!.
  - by split.
  - by rewrite app_assoc.
  - right. rewrite En0 in Hb0. eapply (ctx_enters HASH_SIZE); [exact C0|done|exact Hb0|exact Hf0].
  - by rewrite EW0.
Qed.

Lemma seated_beyond same t ts cu w : seated t ts cu w ->
  match drop (beyond same (t :: ts)) (t :: ts) with
  | [] => True
  | u :: us => seated u us cu w /\ t_keypos u < same
  end.
Proof.
  revert t. induction ts as [|u us IH]; intros t S; cbn [beyond];
    (destruct (Z.leb_spec same (t_keypos t)); [|by split]); [done|].
  apply IH. by apply seated_up in S.
Qed.

Lemma branch_drop i a : branch (drop i a) = default NONE (a !! i).
Proof. revert i. induction a as [|x a IH]; intros [|i]; simpl; [done..|]. apply IH. Qed.

Lemma branch_common i a b : (i < common_prefix a b)%nat -> branch (drop i a) = branch (drop i b).
Proof.
  intros H. rewrite !branch_drop. f_equal.
  rewrite <- (lookup_take_lt a (common_prefix a b)), <- (lookup_take_lt b (common_prefix a b)) by done.
  by rewrite take_common.
Qed.

(** A located cursor answers for its key and is positioned. *)
Lemma located_reads c key w : located c key w -> byte_list key ->
  is_valid h root c = match w key with Some _ => true | None => false end /\
  value h root c = option_map snd (w key) /\ (is_valid h root c = true -> cur (keys c) = key).
Proof.
  destruct c as [[|t ts] k]; cbn [located stack trie.keys]; [done|].
  intros (G & W & pre & e & f & m & r & Fo & -> & He & Hst & HW) Hb. pose proof Hb as [_ Hr]%byte_list_app.
  destruct (stopped_reads _ _ _ _ _ _ _ _ _ _ Fo Hst He Hr) as (Hs & Hv & Hk).
  assert (w (pre ++ r) = m r) as ->.
  { rewrite <- HW by done. eapply (ctx_focus HASH_SIZE); [apply Fo|done]. }
  split_and!; [done|done|]. intros E. cbn [is_valid stack] in E. destruct Hst as [S1 S2 S3 S4].
  rewrite S2. f_equal. specialize (Hk E). apply andb_true_iff in E as [_ E].
  unfold content. rewrite E, <- Hk.
  rewrite (proj2 (common_prefix_refl_iff r r eq_refl)) by done. by rewrite firstn_all.
Qed.

Lemma located_positioned c key w : located c key w -> byte_list key -> positioned c w.
Proof.
  intros L Hb. destruct (located_reads c key w L Hb) as (_ & _ & Hcur).
  destruct c as [[|t ts] k]; cbn [located stack trie.keys] in *; [done|].
  destruct L as (G & W & pre & e & f & m & r & Fo & -> & He & Hst & HW). pose proof Hst as [S1 S2 S3 S4].
  split; cbn [stack trie.keys].
  - rewrite S2. apply byte_list_app in Hb as [Hb1 Hb2]. apply byte_list_app. split; [done|].
    by apply byte_list_take.
  - exists G, W, pre, e, f, m, (take (common_prefix r (content h root t)) r).
    split_and!; try done. destruct e as [b|]; [|by right]. simpl in *.
    destruct (common_prefix r (content h root t)); [by left|]. destruct r; [by left|by right].
  - intros E. rewrite (Hcur E). exists G, W, pre, e, f, m, r. split_and!; try done.
    cbn [is_valid stack] in E. apply andb_true_iff in E as [Ec El].
    split; unfold no_rest; cbn [trie.keys cur rest]; [done|done| |].
    + rewrite El in S4. apply Z.eqb_eq in Ec. rewrite Ec in S4. symmetry in S4. apply lex_zero in S4.
      rewrite <- S4, (proj2 (common_prefix_refl_iff r r eq_refl)) by done. by rewrite drop_all.
    + by rewrite El in *.
Qed.

Lemma lands_located ts k pre w res key : lands HASH_SIZE h root ts k pre w res -> key = pre ++ rest k ->
  exists seg k', res = Some (seg, k') /\ located (Cursor (seg ++ ts) k') key w /\
    (trail key (Z.of_nat (length pre)) ts 0 -> trailing key (Cursor (seg ++ ts) k')).
Proof.
  intros (t' & seg & k' & G' & W' & pre' & e' & f' & m' & r' & Hres & Fo & Epr & He & Hst & HW & Hfo) ->.
  exists (t' :: seg), k'. split; [done|]. split; [exists G', W', pre', e', f', m', r'; by split_and!|].
  intros Hts. apply trail_app. by exists (Z.of_nat (length pre)).
Qed.

(** ** Searching from a seated transition, and from the root *)

Lemma root_focus f m : rep h root f m -> forall b,
  focus h root (init h root b Root 0) [] (fun _ => False) (fun m => m) [] None f m.
Proof. intros R b. by split; [constructor|..]. Qed.

Lemma seated_find fuel t ts key cu w d p c :
  seated t ts cu w -> byte_list key -> Z.of_nat (length key) < 2 ^ 16 -> (length key + 2 <= fuel)%nat ->
  (Z.to_nat (t_keypos t) < common_prefix key cu)%nat ->
  lands HASH_SIZE h root ts (Keys (take (Z.to_nat (t_keypos t)) cu) (drop (Z.to_nat (t_keypos t)) key) d)
    (take (Z.to_nat (t_keypos t)) key) w
    (trie.find cfg h root fuel (set_prefix_cmp p c t)
       (Keys (take (Z.to_nat (t_keypos t)) cu) (drop (Z.to_nat (t_keypos t)) key) d)).
Proof.
  intros (G & W & pre & e & f & m & q & Fo & -> & Hq & EW) Hb Hlen Hf Hi.
  pose proof (fo_keypos _ _ _ _ _ _ _ _ _ _ _ Fo) as Ek. rewrite Ek, Nat2Z.id in *.
  pose proof (common_prefix_le key (pre ++ q)) as Hle.
  assert (take (length pre) key = pre) as Epre.
  { pose proof (take_common key (pre ++ q)) as T. apply (f_equal (take (length pre))) in T.
    rewrite !take_take, !Nat.min_l in T by lia. by rewrite take_app_length in T. }
  rewrite take_app_length, Epre.
  assert (lands HASH_SIZE h root ts (Keys pre (drop (length pre) key) d) pre (W m)
    (trie.find cfg h root fuel (set_prefix_cmp p c t) (Keys pre (drop (length pre) key) d))) as L.
  { eapply (find_stops HASH_SIZE); [eapply focus_same; [exact Fo|done..]|done| | | |];
      cbn [rest].
    - by apply byte_list_drop.
    - destruct e as [b|]; [|done]. simpl. rewrite (branch_common _ _ _ Hi), drop_app_length.
      destruct Hq as [->|Hq]; [|done]. rewrite app_nil_r in Hle, Hi. lia.
    - rewrite <- Epre at 1. by rewrite take_drop.
    - rewrite length_drop. destruct e; lia. }
  destruct L as (t' & seg & k' & G' & W' & pre' & e' & f' & m' & r' & Hres & Fo' & Epr & He & Hst & HW & Hfo).
  exists t', seg, k', G', W', pre', e', f', m', r'. split_and!; try done.
  intros x Hx. by rewrite HW, EW.
Qed.

Lemma find_key_locates fuel key c f m :
  rep h root f m -> byte_list key -> Z.of_nat (length key) < 2 ^ 16 -> (length key + 2 <= fuel)%nat ->
  (stack c = [] \/ positioned c m /\ (key <> cur (keys c) \/ is_valid h root c = true)) ->
  exists c', find_key cfg h root fuel key c = Some c' /\ located c' key m /\
    (trailing (cur (keys c)) c -> trailing key c').
Proof.
  intros R Hb Hlen Hf Hc. pose proof (rep_nonzero HASH_SIZE _ _ _ _ R) as Hnz.
  assert (root <> 0) as Hr by (by intros ->).
  assert (forall cu d, exists c', find_ cfg h root fuel (Cursor [] (Keys cu key d)) = Some c' /\
    located c' key m /\ trailing key c') as Hfresh.
  { intros cu d. unfold find_. cbn [stack]. destruct (Z.eqb_spec root 0); [done|].
    unfold push_root. cbn [trie.keys cur rest dead length on_top stack].
    destruct (lands_located [] (Keys [] key (tl d)) [] m
      (trie.find cfg h root fuel (init h root (hd 0 d) Root 0) (Keys [] key (tl d))) key)
      as (seg & k' & E & L & Hfo); [|done|].
    - apply (find_stops HASH_SIZE cfg h root fuel _ [] _ (fun _ => False) (fun w => w) [] None f m);
        [by apply root_focus|done..|]. simpl. lia.
    - change (Z.of_nat 0) with 0. rewrite E. cbn [mbind option_bind]. eexists. split; [done|]. split; [done|]. by apply Hfo. }
  unfold find_key. destruct Hc as [->|[P Hne]].
  { unfold find_. cbn [stack]. specialize (Hfresh [] (dead (keys c))). unfold find_ in Hfresh.
    cbn [stack trie.keys rest dead] in *. destruct (Z.eqb_spec root 0); [done|].
    destruct Hfresh as (c' & E & L & Hfo). by exists c'. }
  destruct P as [Pb Ps Pv]. destruct c as [[|t ts] [cu re d]]; cbn [stack trie.keys cur rest dead] in *; [done|].
  unfold keep_stack. cbn [stack trie.keys cur rest dead]. rewrite get_prefix_common by done.
  set (same := common_prefix key cu).
  destruct ((Z.of_nat same =? Z.of_nat (length key)) && (Z.of_nat same =? Z.of_nat (length cu))) eqn:Ef.
  - apply andb_true_iff in Ef as [E1%Z.eqb_eq E2%Z.eqb_eq].
    assert (key = cu) as ->.
    { pose proof (take_common key cu) as T. fold same in T. rewrite !firstn_all2 in T by lia. done. }
    destruct Hne as [?|Hv]; [done|]. eexists. split; [done|].
    rewrite drop_ge by lia. split; [exact (Pv Hv)|done].
  - pose proof (seated_beyond (Z.of_nat same) t ts cu m Ps) as Hk.
    unfold kill. cbn [stack trie.keys cur rest dead].
    assert (trail cu (t_keypos t) ts 0 -> match drop (beyond (Z.of_nat same) (t :: ts)) (t :: ts) with
      [] => True | u :: us => trail cu (t_keypos u) us 0 end) as Hdrop.
    { destruct (beyond _ _) as [|i]; [done|]. cbn [drop]. apply trail_drop. }
    destruct (drop (beyond (Z.of_nat same) (t :: ts)) (t :: ts)) as [|u us].
    { destruct (Hfresh cu (rev (map t_branch_key (take (beyond (Z.of_nat same) (t :: ts)) (t :: ts))) ++ d)) as (c' & E & L & Hfo).
      by exists c'. }
    destruct Hk as [Su Hu]. unfold find_. cbn [stack on_top trie.keys cur rest dead].
    set (d' := rev _ ++ d). assert (0 <= t_keypos u) as Hu0.
    { destruct Su as (? & ? & ? & ? & ? & ? & ? & Fo & _). rewrite (fo_keypos _ _ _ _ _ _ _ _ _ _ _ Fo). lia. }
    pose proof (seated_find fuel u us key cu m d' 0 UNDEFINED Su Hb Hlen Hf ltac:(fold same; lia)) as L.
    destruct (lands_located us _ _ m _ key L) as (seg & k' & E & H1 & Hfo).
    + cbn [rest]. by rewrite take_drop.
    + rewrite E. cbn [mbind option_bind]. eexists. split; [done|]. split; [done|]. intros Hc. apply Hfo.
      pose proof (common_prefix_le key cu) as Hle. fold same in Hle. rewrite length_take, Nat.min_l, Z2Nat.id by lia.
      eapply trail_same; [apply Hdrop, Hc|]. intros i b Hi.
      rewrite <- (lookup_take_lt key same), <- (lookup_take_lt cu same) by lia. unfold same. by rewrite take_common.
Qed.

(** The search is skipped: the cursor has a stack, is not valid, and its current key is the
    one looked for already. *)
Definition stale (c : cursor) (key : list Z) : bool :=
  match stack c with [] => false | _ => bool_decide (key = cur (keys c)) && negb (is_valid h root c) end.

Lemma find_skipped fuel c : byte_list (cur (keys c)) -> stack c <> [] ->
  find_key cfg h root fuel (cur (keys c)) c = Some (Cursor (stack c) (Keys (cur (keys c)) [] (dead (keys c)))).
Proof.
  intros Hb Hs. unfold find_key. cbn [stack]. destruct (stack c) as [|t ts] eqn:Ec; [done|]. unfold keep_stack. cbn [stack trie.keys cur rest dead].
  rewrite get_prefix_common by done. assert (common_prefix (cur (keys c)) (cur (keys c)) = length (cur (keys c))) as -> by (generalize (cur (keys c)) as l; clear; induction l as [|x l IH]; cbn; [done|by rewrite Z.eqb_refl, IH]).
  rewrite Z.eqb_refl. cbn [andb]. by rewrite Nat2Z.id, drop_ge by lia.
Qed.

Lemma invalid_value c : is_valid h root c = false -> value h root c = None.
Proof. unfold is_valid, value. destruct (stack c) as [|t ts]; [done|]. by intros ->. Qed.

(** C30: a search from a cursor without a stack, or from any that an earlier search left
    behind, succeeds exactly for the keys of the trie and gives their values, and leaves a
    cursor that can be searched again; the stack that is kept makes no difference, but for
    one case: where the earlier search left the cursor, not valid, exactly at the key, it
    is skipped and fails although the trie may have the key
    ([find_after_longer_key_misses]). *)
Theorem find_key_looks_up fuel key c f m :
  rep h root f m -> byte_list key -> Z.of_nat (length key) < 2 ^ 16 -> (length key + 2 <= fuel)%nat ->
  stack c = [] \/ positioned c m ->
  exists c', find_key cfg h root fuel key c = Some c' /\ positioned c' m /\
    is_valid h root c' = (if stale c key then false else match m key with Some _ => true | None => false end) /\
    value h root c' = (if stale c key then None else option_map snd (m key)) /\
    (is_valid h root c' = true -> cur (keys c') = key).
Proof.
  intros R Hb Hlen Hf Hs. destruct (stale c key) eqn:Es.
  { assert (stack c <> [] /\ key = cur (keys c) /\ is_valid h root c = false) as (Hn & -> & Ev).
    { unfold stale in Es. destruct (stack c); [done|]. by apply andb_true_iff in Es as [Ek%bool_decide_eq_true Ev%negb_true_iff]. }
    destruct Hs as [Hs|P]; [done|]. exists (Cursor (stack c) (Keys (cur (keys c)) [] (dead (keys c)))).
    split; [by apply find_skipped|]. split; [by destruct P|]. split; [exact Ev|]. split; [by apply invalid_value|].
    intros Hv. change (is_valid h root c = true) in Hv. congruence. }
  assert (stack c = [] \/ positioned c m /\ (key <> cur (keys c) \/ is_valid h root c = true)) as Hc.
  { destruct Hs as [Hs|P]; [by left|right]. split; [done|]. unfold stale in Es. destruct (stack c) eqn:Ec; [by destruct P as [_ Ps _]; rewrite Ec in Ps|].
    case_bool_decide; [|by left]. right. by destruct (is_valid h root c). }
  destruct (find_key_locates fuel key c f m R Hb Hlen Hf Hc) as (c' & E & L & _).
  exists c'. split; [done|]. split; [by eapply located_positioned|]. by apply located_reads.
Qed.

End with_cfg.

(** The build of the witnesses: no SIMD. *)
Definition plain : simd := Simd false false false false.

Lemma find_key_looks_up_witness : exists c',
  find_key plain sample_heap sample_root 9 [97; 98] fresh_cursor = Some c' /\
  value sample_heap sample_root c' = Some [121].
Proof.
  destruct (find_key_looks_up 0 plain sample_heap sample_root 9 [97; 98] fresh_cursor sample_pages sample_map
    sample_rep ltac:(forall_lia) ltac:(done) ltac:(simpl; lia) (or_introl eq_refl)) as (c' & H1 & _ & _ & H2 & _).
  exists c'. by split.
Defined.

(** the condition on the kept stack is needed. In the trie of the keys [a] and
    [ab], a search for [abc] fails at the leaf of [ab] with [ab] matched; the same
    cursor then takes [ab] for already found and reports it missing. *)
Theorem find_after_longer_key_misses :
  rep 0 sample_heap sample_root sample_pages sample_map /\
  is_Some (sample_map [97; 98]) /\
  (c1 ← find_key plain sample_heap sample_root 9 [97; 98; 99] fresh_cursor;
   c2 ← find_key plain sample_heap sample_root 9 [97; 98] c1;
   Some (is_valid sample_heap sample_root c2)) = Some false.
Proof. split; [apply sample_rep|]. split; [by eexists|]. reflexivity. Qed.
End trielookup.
