(* ===== verification/TrieIter.v ===== *)
(** * TrieIter: iteration in the order of the keys

    [first], [last], [next] and [prev] move a cursor to the neighbour of its key in
    the lexicographic order of byte strings. The two directions are one proof: a
    direction is a bool, [true] for forward. *)
From Stdlib Require Import Sorted.
From S2P Require Import Prelude Bits Util Node Leaf NodeFacts Trie TrieRep TrieFind TrieLookup.

Module trieiter.
Import util.
Export trielookup.

(** ** The order of keys *)

(** [b] comes after [a] in the direction. *)
Definition ahead (d : bool) (a b : list Z) : Prop := if d then lex a b < 0 else lex b a < 0.

(** The same for branches. *)
Definition beyond_branch (d : bool) (j k : Z) : Prop := if d then j < k else k < j.

Lemma lex_app p a b : lex (p ++ a) (p ++ b) = lex a b.
Proof. induction p as [|x p IH]; [done|]. cbn [app lex]. by rewrite Z.ltb_irrefl. Qed.

Lemma ahead_app d p a b : ahead d (p ++ a) (p ++ b) <-> ahead d a b.
Proof. destruct d; unfold ahead; by rewrite lex_app. Qed.

Lemma ahead_irrefl d a : ~ ahead d a a.
Proof. destruct d; unfold ahead; rewrite lex_refl; lia. Qed.

Lemma ahead_trans d a b c : ahead d a b -> ahead d b c -> ahead d a c.
Proof. destruct d; unfold ahead; intros; by eapply lex_lt_trans. Qed.

Lemma ahead_total d a b : a <> b -> ahead d a b \/ ahead d b a.
Proof.
  intros Hne. pose proof (lex_flip a b). assert (lex a b <> 0) by (by rewrite lex_zero). destruct d; unfold ahead; lia.
Qed.

(** Keys that part at their first byte are ordered by it. *)
Lemma ahead_branch d a b : byte_list a -> byte_list b -> beyond_branch d (branch a) (branch b) -> ahead d a b.
Proof.
  intros Ha Hb H. assert (forall x y, byte_list x -> byte_list y -> branch x < branch y -> lex x y < 0) as L.
  { intros [|x xs] [|y ys] Hx Hy; unfold NONE; cbn [branch lex]; unfold NONE; intros Hl; try lia.
    - inversion Hx; lia.
    - by destruct (Z.ltb_spec x y); [|lia]. }
  destruct d; by apply L.
Qed.

Lemma ahead_branch_inv d a b : byte_list a -> byte_list b -> ahead d a b -> ~ beyond_branch d (branch b) (branch a).
Proof.
  intros Ha Hb H H'. apply (ahead_irrefl d a). eapply ahead_trans; [exact H|]. by apply ahead_branch.
Qed.

(** Outside the hole the side does not depend on the key inside. *)
Lemma ahead_outside d pre b r1 r2 key : byte_list (pre ++ r1) -> byte_list (pre ++ r2) -> byte_list key ->
  branch r1 = b -> branch r2 = b -> ~ (exists r, key = pre ++ r /\ branch r = b) -> ahead d (pre ++ r1) key -> ahead d (pre ++ r2) key.
Proof.
  revert key. induction pre as [|x pre IH]; intros key H1 H2 Hk E1 E2 Hn H.
  - cbn [app] in *. apply ahead_branch; [done..|]. rewrite E2, <- E1. pose proof (ahead_branch_inv d _ _ H1 Hk H) as Hi.
    assert (branch key <> branch r1) by (intros E; apply Hn; exists key; split; [done|congruence]).
    destruct d; unfold beyond_branch in *; lia.
  - destruct key as [|y key]; [by destruct d; unfold ahead in *; cbn [app lex] in *|].
    cbn [app] in *. inversion H1; subst. inversion H2; subst. inversion Hk; subst.
    assert (x = y -> ahead d (pre ++ r1) key -> ahead d (pre ++ r2) key) as Hi.
    { intros -> H'. apply IH; try done. intros (r & -> & Er). apply Hn. by exists r. }
    destruct d; unfold ahead in *; cbn [lex] in *; destruct (Z.ltb_spec x y), (Z.ltb_spec y x); try lia;
      apply Hi; (lia || done).
Qed.

(** ** The extreme key of a map *)

(** No key of [m] comes before [key] in the direction. *)
Record extreme (d : bool) (m : keymap) (key : list Z) : Prop := {
  ex_bytes : byte_list key;
  ex_in : is_Some (m key);
  ex_first : forall key', byte_list key' -> is_Some (m key') -> key' = key \/ ahead d key key'
}.

Lemma extreme_ext d m m' key : (forall q, byte_list q -> m' q = m q) -> extreme d m key -> extreme d m' key.
Proof. intros E [H1 H2 H3]. split; [done|by rewrite E|]. intros q Hq. rewrite E by done. by apply H3. Qed.

(** The extreme branch of a node. *)
Definition end_index (d : bool) (n : node) : Z := if d then 0 else count n - 1.

Section with_cfg.
Context (HASH_SIZE : Z) (cfg : simd) (h : heap) (root : Z).
Hypothesis HASH_SIZE_range : 0 <= HASH_SIZE <= 512.

Abbreviation rep := (trierep.rep HASH_SIZE).
Abbreviation ctx := (trierep.ctx HASH_SIZE).
Abbreviation focus := (triefind.focus HASH_SIZE).

(** ** The array of a node is sorted *)

Lemma index_mono n j k : wf HASH_SIZE n -> -1 <= j <= 255 -> -1 <= k <= 255 -> isset n j = true -> isset n k = true ->
  j < k <-> array_index n j < array_index n k.
Proof.
  intros W Hj Hk Sj Sk. rewrite !array_index_rank, Sj, Sk by (apply W || done).
  destruct (Z.lt_trichotomy j k) as [H|[->|H]]; [|lia|].
  - pose proof (zcount_strict (isset n) (-1) (j + 1) (k + 1) j Sj). lia.
  - pose proof (zcount_strict (isset n) (-1) (k + 1) (j + 1) k Sk). lia.
Qed.

Lemma index_branch n i : wf HASH_SIZE n -> 0 <= i < count n -> exists k, -1 <= k <= 255 /\ isset n k = true /\ array_index n k = i.
Proof.
  intros W Hi. destruct (keys n !! Z.to_nat i) as [k|] eqn:E.
  2: { apply lookup_ge_None_1 in E. pose proof (keys_length HASH_SIZE n W). lia. }
  assert (k ∈ keys n) as [Hk Hs]%elem_of_keys by (by eapply list_elem_of_lookup_2). exists k. split_and!; try (done || lia).
  destruct (array_index_keys HASH_SIZE n W k Hk) as [(_ & Hr & Hl)|[Hf _]]; [|congruence].
  assert (Z.to_nat (array_index n k) = Z.to_nat i); [|lia].
  eapply NoDup_lookup; [|done|done]. unfold keys, zfilter. apply list.NoDup_filter, NoDup_seqZ.
Qed.

(** ** Where the extreme key of a node lies *)

Lemma node_map_some comp lk M key v : node_map comp lk M key = Some v ->
  exists r l, key = comp ++ r /\ lk (branch r) = Some l /\ M (branch r) r = Some v.
Proof.
  unfold node_map. destruct (decide _) as [[r ->]|]; [|done]. rewrite drop_app_length.
  destruct (lk (branch r)) as [l|] eqn:E; [|done]. intros H. by exists r, l.
Qed.

(** The keys below a branch begin with it. *)
Lemma child_branch n F M k l q v : (forall k l, -1 <= k <= 255 -> link n k = Some l -> rep h l (F k) (M k)) ->
  (forall k l, -1 <= k <= 255 -> link n k = Some l -> first_byte h l = k) ->
  -1 <= k <= 255 -> link n k = Some l -> byte_list q -> M k q = Some v -> branch q = k.
Proof.
  intros HR HF Hk El Hq Hm. rewrite <- (HF k l Hk El). eapply (rep_first_byte HASH_SIZE); [by apply HR|done|done|].
  rewrite (HF k l Hk El). lia.
Qed.

(** The key continues with the extreme branch, and its rest is extreme below it. *)
Lemma extreme_node d n F M key : wf HASH_SIZE n -> byte_list (compressed n) ->
  (forall k l, -1 <= k <= 255 -> link n k = Some l -> rep h l (F k) (M k)) ->
  (forall k l, -1 <= k <= 255 -> link n k = Some l -> first_byte h l = k) ->
  extreme d (node_map (compressed n) (link n) M) key ->
  exists r l, key = compressed n ++ r /\ byte_list r /\ link n (branch r) = Some l /\ extreme d (M (branch r)) r /\
    array_index n (branch r) = end_index d n.
Proof.
  intros W Hc HR HF [E1 [v E2] E3]. apply node_map_some in E2 as (r & l & -> & El & E2).
  pose proof E1 as [_ Hr]%byte_list_app. pose proof (byte_branch r Hr) as Hb. exists r, l. split_and!; try done.
  - split; [done|by exists v|]. intros r' Hr' [v' Hv'].
    assert (branch r' = branch r) as Eb by (by eapply (child_branch n F M)).
    destruct (E3 (compressed n ++ r')) as [E|E]; [by apply byte_list_app| |left; by apply app_inv_head in E|right; by apply ahead_app in E].
    rewrite node_map_app, Eb, El. by exists v'.
  - destruct (link_some HASH_SIZE n (branch r) l W Hb El) as (Hs & _ & Hi).
    assert (forall j, -1 <= j <= 255 -> isset n j = true -> ~ beyond_branch d j (branch r)) as Hend.
    { intros j Hj Sj Hlt. assert (exists lj, link n j = Some lj) as [lj Elj] by (rewrite (link_isset HASH_SIZE), Sj by done; by eexists).
      destruct (rep_inhabited HASH_SIZE h lj _ _ (HR j lj Hj Elj)) as (q & w & Hq & Hw).
      assert (branch q = j) as Eb by (by eapply (child_branch n F M)).
      destruct (E3 (compressed n ++ q)) as [E|E]; [by apply byte_list_app| | |].
      - rewrite node_map_app, Eb, Elj. by exists w.
      - apply app_inv_head in E as ->. destruct d; unfold beyond_branch in Hlt; lia.
      - apply ahead_app in E. apply (ahead_branch_inv d r q Hr Hq E). by rewrite Eb. }
    assert (0 <= end_index d n < count n) as He by (destruct d; unfold end_index; lia).
    destruct (index_branch n (end_index d n) W He) as (k & Hk & Sk & Ek).
    destruct (Z.eq_dec k (branch r)) as [->|Hne]; [done|]. exfalso.
    pose proof (index_mono n k (branch r) W Hk Hb Sk Hs). pose proof (index_mono n (branch r) k W Hb Hk Hs Sk).
    specialize (Hend k Hk Sk). destruct d; unfold beyond_branch, end_index in *; lia.
Qed.

Lemma rep_extreme d l f m : rep h l f m -> exists key, extreme d m key.
Proof.
  induction 1 as [lnk lf f m H1 H2 H3 H4 H5 H6|lnk n F M f m H1 H2 H3 H4 H5 (k & Hk & Sk) H7 IH H8 H9 H10 H11 H12].
  - exists (LeafNode.key lf). pose proof (lo_bytes _ H4) as Hb. split; [done|rewrite H6 by done; by rewrite decide_True|].
    intros q Hq [v Hv]. rewrite H6 in Hv by done. destruct (decide _); [by left|done].
  - pose proof (wf_count _ _ H4) as Ec.
    assert (0 < count n) as Hc.
    { rewrite Ec. pose proof (zcount_strict (isset n) (-1) 0 257 k Sk ltac:(lia) ltac:(lia)) as H. by rewrite zcount_nonpos in H by lia. }
    destruct (index_branch n (end_index d n) H4) as (b & Hb & Sb & Eb); [destruct d; unfold end_index; lia|].
    assert (exists l0, link n b = Some l0) as [l0 El] by (rewrite (link_isset HASH_SIZE), Sb by done; by eexists).
    destruct (IH b l0 Hb El) as (r & [R1 [v R2] R3]). exists (compressed n ++ r).
    assert (branch r = b) as Er by (by eapply (child_branch n F M)).
    eapply extreme_ext; [exact H12|]. split.
    + by apply byte_list_app.
    + rewrite node_map_app, Er, El. by exists v.
    + intros key' Hk' [v' Hv']. apply node_map_some in Hv' as (r' & l' & -> & El' & Hv'). apply byte_list_app in Hk' as [_ Hr'].
      destruct (Z.eq_dec (branch r') b) as [E|Hne].
      * rewrite E in Hv'. destruct (R3 r' Hr' (mk_is_Some _ _ Hv')) as [->|Ha]; [by left|right; by apply ahead_app].
      * right. apply ahead_app, ahead_branch; [done|done|]. rewrite Er. pose proof (byte_branch r' Hr') as Hb'.
        destruct (link_some HASH_SIZE n _ _ H4 Hb' El') as (S' & _ & I').
        pose proof (index_mono n b (branch r') H4 Hb Hb' Sb S') as M1. pose proof (index_mono n (branch r') b H4 Hb' Hb S' Sb) as M2.
        destruct d; unfold beyond_branch, end_index in *; lia.
Qed.

(** ** Branch keys do not matter for the path *)

Lemma ctx_rebranch us t ts pl G W pre e x : ctx h root (us ++ t :: ts) pl G W pre e ->
  ctx h root (us ++ set_branch x t :: ts) pl G W pre e.
Proof.
  revert pl G W pre e. induction us as [|u us IH]; intros pl G W pre e C; cbn [app] in *;
    inversion C as [|t' ts' n b F M G0 W0 pre0 e0 C0 lnk H1 H2 H3 H4 H5 H6 H7 H8 H9 H10 H11 H12 H13 H14]; subst.
  - exact (ctx_node HASH_SIZE h root (set_branch x t) ts n b F M G0 W0 pre0 e0 C0 H1 H2 H3 H4 H5 H6 H7 H8 H9 H10 H11 H12 H13 H14).
  - apply IH in C0. exact (ctx_node HASH_SIZE h root u _ n b F M G0 W0 pre0 e0 C0 H1 H2 H3 H4 H5 H6 H7 H8 H9 H10 H11 H12 H13 H14).
Qed.

Lemma focus_rebranch u us t ts G W pre e f m x : focus h root u (us ++ t :: ts) G W pre e f m ->
  focus h root u (us ++ set_branch x t :: ts) G W pre e f m.
Proof. intros [C R Hf D En Ek]. split; [by apply ctx_rebranch|done..]. Qed.

(** ** Down to the extreme leaf *)

Definition walk (d : bool) := if d then trie.first h root else trie.last h root.

(** What a step makes of the branch key after the child has moved. *)
Lemma rebranch_set (d : bool) ch k t : exists x, (if d then branch_of ch k t else branch_at ch k t) = set_branch x t /\
  forall b, cur k !! Z.to_nat (t_keypos ch) = Some b -> x = b.
Proof.
  destruct d.
  - unfold branch_of. destruct (_ !! _) as [b|]; [exists b; split; [done|congruence]|]. exists (t_branch_key t). by destruct t.
  - eexists. split; [done|]. by intros b ->.
Qed.

(** The walk ends at the leaf of [key], with the path above it; it began behind
    [base]. *)
Definition reaches (base : list Z) (ts : list transition) (w : keymap) (key : list Z)
    (res : option (list transition * keys_state)) : Prop :=
  exists t' seg k', res = Some (t' :: seg, k') /\ trail key (t_keypos t') seg (Z.of_nat (length base)) /\
    rest k' = [] /\ cur k' = key /\
    exists G W pre e f m r, focus h root t' (seg ++ ts) G W pre e f m /\ key = pre ++ r /\ enters e r /\
      stopped h root t' k' pre r /\ forall q, byte_list q -> W m q = w q.

Lemma reaches_rebranch base x t ts w key res : reaches base (t :: ts) w key res -> reaches base (set_branch x t :: ts) w key res.
Proof.
  intros (t' & seg & k' & E & Hc & Hr & Hk & G & W & pre & e & f & m & r & Fo & R). exists t', seg, k'. split_and!; [done..|].
  exists G, W, pre, e, f, m, r. split; [|exact R]. by apply focus_rebranch.
Qed.

Lemma common_refl (a : list Z) : common_prefix a a = length a.
Proof. by apply common_prefix_refl_iff. Qed.

(** A step to a leaf: its key is appended to the key of the path. *)
Lemma leaf_reaches t ts k G W pre e f m r l : focus h root t ts G W pre e f m -> is_leaf h root t = true ->
  body (h (t_node t)) = OLeaf l -> leaf_ok l -> r = LeafNode.key l -> enters e r ->
  (exists q, cur k = pre ++ q) -> rest k = [] ->
  reaches pre ts (W m) (pre ++ r) (let '(t, k) := leaf_step h t k in Some ([t], k)).
Proof.
  intros Fo Hl Hb Hok -> He (q & Eq) Er. unfold leaf_step, t_leaf, leaf_at. rewrite Hb.
  pose proof (leaf_key_length l Hok) as Hlen. pose proof (fo_keypos _ _ _ _ _ _ _ _ _ _ _ Fo) as Ek.
  assert (cur (append_key (LeafNode.key l) (resize_key (t_keypos t) k)) = pre ++ LeafNode.key l) as Ecur.
  { cbn [append_key resize_key cur]. by rewrite Ek, Nat2Z.id, Eq, take_app_length. }
  eexists _, [], _. split; [done|]. split; [done|]. split; [done|]. split; [exact Ecur|].
  exists G, W, pre, e, f, m, (LeafNode.key l). split; [by eapply (focus_same HASH_SIZE)|]. split; [done|]. split; [done|]. split; [|done].
  assert (forall p c, content h root (set_prefix_cmp p c t) = LeafNode.key l) as Ec.
  { intros p c. unfold content, is_leaf in *. cbn [set_prefix_cmp t_offset]. rewrite Hl. unfold t_leaf, leaf_at. cbn [set_prefix_cmp t_node]. by rewrite Hb. }
  split; rewrite ?Ec, ?common_refl; cbn [set_prefix_cmp t_prefix append_key resize_key cur rest].
  - by rewrite Hlen.
  - by rewrite firstn_all, <- Ecur.
  - by rewrite drop_all, Er.
  - unfold is_leaf in *. cbn [set_prefix_cmp t_offset t_cmp]. rewrite Hl. by rewrite lex_refl.
Qed.

(** One level of a walk. *)
Lemma walk_node (d : bool) fuel t k : is_leaf h root t = false ->
  let n := t_trie h t in
  let t1 := set_idx (end_index d n) (set_prefix_cmp (compressed_len n) 0 t) in
  let '(ch, k1) := child h root t1 (append_key (compressed n) k) in
  walk d (S fuel) t k =
    '(seg, k2) ← walk d fuel ch k1; Some (seg ++ [if d then branch_of ch k2 t1 else branch_at ch k2 t1], k2).
Proof. intros Hl. unfold walk. destruct d; cbn [trie.first trie.last]; rewrite Hl; done. Qed.

Lemma walk_leaf (d : bool) fuel t k : is_leaf h root t = true ->
  walk d (S fuel) t k = let '(t, k) := leaf_step h t k in Some ([t], k).
Proof. intros Hl. unfold walk. destruct d; cbn [trie.first trie.last]; by rewrite Hl. Qed.

Lemma walk_reaches (d : bool) fuel t ts k G W pre e f m r :
  focus h root t ts G W pre e f m -> extreme d m r -> enters e r -> cur k = pre -> rest k = [] ->
  Z.of_nat (length (pre ++ r)) < 2 ^ 16 -> (length r + match e with None => 2 | Some _ => 1 end <= fuel)%nat ->
  reaches pre ts (W m) (pre ++ r) (walk d fuel t k).
Proof.
  revert t ts k G W pre e f m r. induction fuel as [|fuel IH]; intros t ts k G W pre e f m r Fo Ex He Ecur Er Hlen Hf;
    [destruct e; lia|].
  destruct (focus_cases _ _ _ _ _ _ _ _ _ _ _ Fo) as
    [(Hl & l & Hb & Hok & Hm)|(Hl & n & F & M & Hb & Hw & Hc & H1 & H2 & H3 & H4 & Fo' & Hm & _)].
  { rewrite walk_leaf by done. eapply leaf_reaches; try done; [|exists []; by rewrite app_nil_r].
    destruct Ex as [E1 [v E2] _]. rewrite Hm in E2 by done. by destruct (decide _). }
  destruct (extreme_node d n F M r Hw Hc H1 H2) as (r' & l & -> & Hr' & El & Ex' & Ei).
  { eapply extreme_ext; [|exact Ex]. intros q Hq. by rewrite Hm. }
  pose proof (byte_branch r' Hr') as Hbr. pose proof (walk_node d fuel t k Hl) as Ew. unfold t_trie, trie_at in Ew. rewrite Hb in Ew.
  cbn zeta in Ew. set (t1 := set_idx (end_index d n) (set_prefix_cmp (compressed_len n) 0 t)) in *.
  pose proof (focus_child HASH_SIZE h root t ts n F M G W pre e (branch r') l (append_key (compressed n) k) Fo' Hl Hb Hw Hc H1 H2 H3 H4
    Hbr El ltac:(rewrite !length_app in Hlen; rewrite length_app; lia) ltac:(cbn; by rewrite Ecur) t1 eq_refl eq_refl eq_refl
    ltac:(symmetry; exact Ei)) as Ch.
  destruct (child h root t1 (append_key (compressed n) k)) as [ch k1]. destruct Ch as (G' & W' & Fc & EW & _ & ->).
  rewrite Ew. pose proof (IH ch (t1 :: ts) (Keys (cur (append_key (compressed n) k)) (rest (append_key (compressed n) k)) (tl (dead (append_key (compressed n) k))))
    G' W' (pre ++ compressed n) (Some (branch r')) _ _ r' Fc Ex' eq_refl) as R.
  destruct R as (t' & seg & k2 & E & Hc2 & Hr2 & Hk2 & R); [cbn; by rewrite Ecur|done|by rewrite <- app_assoc|..].
  { rewrite length_app in Hf. destruct e as [b|]; [|lia]. destruct (compressed n) as [|x c] eqn:Ec; [|cbn [length] in Hf; lia].
    exfalso. pose proof (fo_first _ _ _ _ _ _ _ _ _ _ _ Fo b eq_refl) as Hfb. unfold is_leaf in Hl.
    unfold first_byte, trie_at in Hfb. rewrite Hl, <- (fo_node _ _ _ _ _ _ _ _ _ _ _ Fo), Hb, Ec in Hfb.
    pose proof (fo_ctx _ _ _ _ _ _ _ _ _ _ _ Fo) as C. inversion C; subst; lia. }
  rewrite E. cbn [mbind option_bind app]. destruct (rebranch_set d ch k2 t1) as (x & -> & Ex1).
  rewrite Hk2, (fo_keypos _ _ _ _ _ _ _ _ _ _ _ Fc), Nat2Z.id in Ex1. rewrite <- app_assoc in Hc2, Hk2.
  exists t', (seg ++ [set_branch x t1]), k2. split; [done|]. split.
  { apply trail_app. eexists. split; [exact Hc2|]. cbn [trail set_branch t1 set_idx set_prefix_cmp t_cmp t_prefix t_keypos t_branch_key].
    rewrite (fo_keypos _ _ _ _ _ _ _ _ _ _ _ Fo), length_app, <- (compressed_length HASH_SIZE n Hw).
    split_and!; [done|lia|lia| |done]. rewrite Nat2Z.id, <- length_app. intros b Eb. apply Ex1. by rewrite <- app_assoc. }
  split; [done|]. split; [done|]. destruct R as (Ga & Wa & pa & ea & fa & ma & ra & Fa & Epa & R3 & R4 & R5).
  exists Ga, Wa, pa, ea, fa, ma, ra. rewrite <- (app_assoc seg). cbn [app]. split; [by apply focus_rebranch|].
  split; [by rewrite app_assoc|]. split; [done|]. split; [done|]. intros q Hq. rewrite R5, EW by done.
  assert (forall q0, byte_list q0 -> node_map (compressed n) (link n) (fun c => if c =? branch r' then M (branch r') else M c) q0 = m q0) as Em.
  { intros q0 Hq0. rewrite Hm by done. unfold node_map. destruct (decide _); [|done]. destruct (link n _); [|done].
    by destruct (Z.eqb_spec (branch (drop (length (compressed n)) q0)) (branch r')) as [->|]. }
  eapply (ctx_replace HASH_SIZE); [apply Fo|done|exact Em].
Qed.

(** ** To the neighbour of a key *)

Definition step (d : bool) := if d then trie.next h root else trie.prev h root.

(** The next index in the direction. *)
Definition next_index (d : bool) (i : Z) : Z := if d then i + 1 else i - 1.

(** A node whose branches in the direction are not all done moves to the next one. *)
Lemma step_sibling (d : bool) fuel t k n : is_leaf h root t = false -> t_trie h t = n -> t_cmp t = 0 ->
  0 <= t_link_idx t < count n -> count n <= 257 -> 0 <= next_index d (t_link_idx t) < count n ->
  let t1 := set_idx (next_index d (t_link_idx t)) t in
  let '(ch, k1) := child h root t1 k in
  step d fuel t k = '(seg, k2) ← walk d fuel ch k1; Some (true, seg ++ [if negb d then branch_of ch k2 t1 else branch_at ch k2 t1], k2).
Proof.
  intros Hl <- Hc Hi Hn Hr. unfold step, walk, next_index in *. destruct d; unfold trie.next, trie.prev; rewrite Hl, Hc; cbn [Z.eqb].
  - rewrite wrap_small by (change (2 ^ 16) with 65536; lia). cbn [set_idx t_link_idx].
    destruct (Z.leb_spec (count (t_trie h t)) (t_link_idx t + 1)); [lia|]. done.
  - destruct (Z.eqb_spec (t_link_idx t) 0); [lia|]. done.
Qed.

(** Otherwise it is left. *)
Lemma step_done (d : bool) fuel t k n : is_leaf h root t = false -> t_trie h t = n -> t_cmp t = 0 ->
  0 <= t_link_idx t < count n -> count n <= 257 -> ~ 0 <= next_index d (t_link_idx t) < count n ->
  exists t', step d fuel t k = Some (false, [t'], k) /\ t_keypos t' = t_keypos t.
Proof.
  intros Hl <- Hc Hi Hn Hr. unfold step, next_index in *. destruct d; unfold trie.next, trie.prev; rewrite Hl, Hc; cbn [Z.eqb].
  - rewrite wrap_small by (change (2 ^ 16) with 65536; lia). cbn [set_idx t_link_idx].
    destruct (Z.leb_spec (count (t_trie h t)) (t_link_idx t + 1)); [by eexists|lia].
  - destruct (Z.eqb_spec (t_link_idx t) 0); [by eexists|lia].
Qed.

(** The keys are short enough for the key positions and the fuel. *)
Definition fits (fuel : nat) (w : keymap) : Prop :=
  forall key, byte_list key -> is_Some (w key) -> Z.of_nat (length key) < 2 ^ 16 /\ (length key + 2 <= fuel)%nat.

(** [key] is the neighbour of [key0]: the first one ahead of it. *)
Record neighbour (d : bool) (w : keymap) (key0 key : list Z) : Prop := {
  ne_bytes : byte_list key;
  ne_in : is_Some (w key);
  ne_ahead : ahead d key0 key;
  ne_first : forall key', byte_list key' -> is_Some (w key') -> ahead d key0 key' -> key' = key \/ ahead d key key'
}.

(** A valid cursor that can move: the search or walk to its key is complete and no
    parent waits for a comparison. *)
Record standing (c : cursor) (key : list Z) (w : keymap) : Prop := {
  sd_located : located HASH_SIZE h root c key w;
  sd_parents : trailing key c
}.

(** What holds of the whole trie at a transition that is not a leaf. *)
Lemma node_keys t ts G W pre e f m n F M : focus h root t ts G W pre e f m -> body (h (t_node t)) = OTrie n ->
  is_leaf h root t = false -> (forall key, byte_list key -> m key = node_map (compressed n) (link n) M key) ->
  (forall k l, -1 <= k <= 255 -> link n k = Some l -> rep h l (F k) (M k)) ->
  (forall x, byte_list (pre ++ compressed n ++ x) ->
    enters e (compressed n ++ x) /\
    W m (pre ++ compressed n ++ x) = match link n (branch x) with Some _ => M (branch x) x | None => None end) /\
  (forall key, byte_list key -> is_Some (W m key) -> (exists q, key = pre ++ q /\ enters e q) ->
    exists x l, key = pre ++ compressed n ++ x /\ link n (branch x) = Some l /\ is_Some (M (branch x) x)).
Proof.
  intros Fo Hb Hl Hm HR. pose proof (fo_node _ _ _ _ _ _ _ _ _ _ _ Fo) as En. split.
  - intros x Hx. assert (enters e (compressed n ++ x)) as He.
    { eapply (ctx_enters HASH_SIZE); [apply Fo|exact Hl|by rewrite <- En|]. intros b Eb. by apply (fo_first _ _ _ _ _ _ _ _ _ _ _ Fo). }
    split; [done|]. rewrite (ctx_focus HASH_SIZE _ _ _ _ _ _ _ _ _ _ (fo_ctx _ _ _ _ _ _ _ _ _ _ _ Fo) He).
    apply byte_list_app in Hx as [_ Hx]. rewrite Hm by done. apply node_map_app.
  - intros key Hk [v Hv] (q & -> & He). rewrite (ctx_focus HASH_SIZE _ _ _ _ _ _ _ _ _ _ (fo_ctx _ _ _ _ _ _ _ _ _ _ _ Fo) He) in Hv.
    apply byte_list_app in Hk as [_ Hq]. rewrite Hm in Hv by done. apply node_map_some in Hv as (x & l & -> & El & Hv).
    exists x, l. split_and!; [done|done|by exists v].
Qed.

(** The side of a key outside the hole. *)
Lemma ahead_enters d ts pl G W pre e r1 r2 key : ctx h root ts pl G W pre e -> byte_list (pre ++ r1) -> byte_list (pre ++ r2) ->
  byte_list key -> enters e r1 -> enters e r2 -> ~ (exists r, key = pre ++ r /\ enters e r) ->
  ahead d (pre ++ r1) key -> ahead d (pre ++ r2) key.
Proof.
  intros C H1 H2 Hk E1 E2 Hn. destruct e as [b|]; [by eapply (ahead_outside d pre b)|].
  inversion C; subst. exfalso. apply Hn. by exists key.
Qed.

(** The next branch of a node in the direction, by index. *)
Lemma next_branch d n b k x : wf HASH_SIZE n -> -1 <= b <= 255 -> -1 <= k <= 255 -> -1 <= x <= 255 ->
  isset n b = true -> isset n k = true -> isset n x = true -> array_index n k = next_index d (array_index n b) ->
  beyond_branch d b k /\ (beyond_branch d b x -> x = k \/ beyond_branch d k x).
Proof.
  intros W Hb Hk Hx Sb Sk Sx E. pose proof (index_mono n b k W Hb Hk Sb Sk). pose proof (index_mono n k b W Hk Hb Sk Sb).
  pose proof (index_mono n b x W Hb Hx Sb Sx). pose proof (index_mono n x b W Hx Hb Sx Sb).
  pose proof (index_mono n k x W Hk Hx Sk Sx). pose proof (index_mono n x k W Hx Hk Sx Sk).
  destruct d; unfold beyond_branch, next_index in *; lia.
Qed.

Lemma below_or_not pre e key : (exists q, key = pre ++ q /\ enters e q) \/ ~ (exists q, key = pre ++ q /\ enters e q).
Proof.
  destruct (decide (pre `prefix_of` key)) as [[q ->]|Hp]; [destruct (decide (enters e q))|].
  - left. by exists q.
  - right. intros (q' & E%app_inv_head & ?). congruence.
  - right. intros (q' & -> & _). apply Hp. by exists q'.
Qed.

(** The extreme key of the next branch is the neighbour of a key that is the last of
    its own. *)
Lemma branch_neighbour d t ts G W pre e f m n F M b k l r0 r : focus h root t ts G W pre e f m ->
  body (h (t_node t)) = OTrie n -> is_leaf h root t = false -> wf HASH_SIZE n ->
  (forall key, byte_list key -> m key = node_map (compressed n) (link n) M key) ->
  (forall k l, -1 <= k <= 255 -> link n k = Some l -> rep h l (F k) (M k)) ->
  (forall k l, -1 <= k <= 255 -> link n k = Some l -> first_byte h l = k) ->
  branch r0 = b -> byte_list (pre ++ compressed n ++ r0) ->
  (forall x, byte_list x -> branch x = b -> is_Some (W m (pre ++ compressed n ++ x)) -> ~ ahead d r0 x) ->
  -1 <= k <= 255 -> link n k = Some l -> beyond_branch d b k ->
  (forall x, -1 <= x <= 255 -> isset n x = true -> beyond_branch d b x -> x = k \/ beyond_branch d k x) ->
  extreme d (M k) r ->
  neighbour d (W m) (pre ++ compressed n ++ r0) (pre ++ compressed n ++ r).
Proof.
  intros Fo Hb Hl Hw Hm HR HF Eb H0 Hgt Hk El Hbk Hnext [X1 [v X2] X3].
  destruct (node_keys _ _ _ _ _ _ _ _ _ _ _ Fo Hb Hl Hm HR) as [K1 K2].
  assert (branch r = k) as Er by (by eapply (child_branch n F M)).
  pose proof H0 as [Hp [Hc Hr0]%byte_list_app]%byte_list_app.
  assert (byte_list (pre ++ compressed n ++ r)) as Hkey by (by rewrite !byte_list_app).
  split; [done| | |].
  - destruct (K1 r Hkey) as [_ ->]. rewrite Er, El. by exists v.
  - rewrite !ahead_app. apply ahead_branch; [done|done|]. by rewrite Eb, Er.
  - intros key' Hk' Hin Ha.
    destruct (below_or_not pre e key') as [Hq|Hq].
    + destruct (K2 key' Hk' Hin Hq) as (x & lx & -> & Elx & [vx Hx]). rewrite !ahead_app in *.
      pose proof Hk' as [_ [_ Hbx]%byte_list_app]%byte_list_app. pose proof (byte_branch x Hbx) as Hxr.
      destruct (link_some HASH_SIZE n _ _ Hw Hxr Elx) as (Sx & _ & _).
      destruct (Z.eq_dec (branch x) b) as [E|Hne]; [by exfalso; apply (Hgt x)|].
      pose proof (ahead_branch_inv d r0 x Hr0 Hbx Ha) as Hi. rewrite Eb in Hi.
      destruct (Hnext _ Hxr Sx) as [E|Hn]; [destruct d; unfold beyond_branch in *; lia| |].
      * rewrite E in Hx. destruct (X3 x Hbx (mk_is_Some _ _ Hx)) as [->|?]; [by left|by right].
      * right. apply ahead_branch; [done|done|]. by rewrite Er.
    + right. eapply (ahead_enters d ts _ G W pre e (compressed n ++ r0)); try done; [apply Fo|by apply K1|by apply K1].
Qed.

(** A key that is the last of a branch without a next sibling is the last of the
    node. *)
Lemma last_of_node d t ts G W pre e f m n F M b r0 x : focus h root t ts G W pre e f m ->
  body (h (t_node t)) = OTrie n -> is_leaf h root t = false -> wf HASH_SIZE n ->
  (forall key, byte_list key -> m key = node_map (compressed n) (link n) M key) ->
  (forall k l, -1 <= k <= 255 -> link n k = Some l -> rep h l (F k) (M k)) ->
  -1 <= b <= 255 -> isset n b = true -> branch r0 = b -> byte_list (pre ++ compressed n ++ r0) ->
  (forall x, byte_list x -> branch x = b -> is_Some (W m (pre ++ compressed n ++ x)) -> ~ ahead d r0 x) ->
  ~ 0 <= next_index d (array_index n b) < count n ->
  byte_list (pre ++ x) -> enters e x -> is_Some (W m (pre ++ x)) -> ~ ahead d (compressed n ++ r0) x.
Proof.
  intros Fo Hb Hl Hw Hm HR Hbr Sb Eb H0 Hgt Hi Hx He Hin. destruct (node_keys _ _ _ _ _ _ _ _ _ _ _ Fo Hb Hl Hm HR) as [K1 K2].
  destruct (K2 (pre ++ x) Hx Hin) as (y & ly & Ey & Ely & _); [by exists x|]. apply app_inv_head in Ey as ->.
  rewrite ahead_app. pose proof Hx as [_ [_ Hby]%byte_list_app]%byte_list_app. pose proof (byte_branch y Hby) as Hyr.
  pose proof H0 as [_ [_ Hr0]%byte_list_app]%byte_list_app.
  destruct (Z.eq_dec (branch y) b) as [E|Hne]; [by apply Hgt|]. intros Ha. apply (ahead_branch_inv d r0 y Hr0 Hby Ha). rewrite Eb.
  destruct (link_some HASH_SIZE n _ _ Hw Hyr Ely) as (Sy & _ & Iy).
  destruct (array_index_keys HASH_SIZE n Hw b Hbr) as [(_ & Ib & _)|[? _]]; [|congruence].
  pose proof (index_mono n b (branch y) Hw Hbr Hyr Sb Sy). pose proof (index_mono n (branch y) b Hw Hyr Hbr Sy Sb).
  destruct d; unfold beyond_branch, next_index in *; lia.
Qed.

(** Where a move ends: at the neighbour of [key0], or beyond the last key. *)
Definition moved (d : bool) (w : keymap) (key0 : list Z) (res : option cursor) : Prop :=
  exists c', res = Some c' /\
    ((exists key, standing c' key w /\ neighbour d w key0 key /\ rest (trie.keys c') = []) \/
     (stack c' = [] /\ forall key', byte_list key' -> is_Some (w key') -> ~ ahead d key0 key')).

Lemma standing_ext c key w w' : standing c key w -> (forall q, byte_list q -> w q = w' q) -> standing c key w'.
Proof.
  intros [L T] E. split; [|done]. unfold located in *. destruct (stack c) as [|t ts]; [done|].
  destruct L as (G & W & pre & e & f & m & r & H1 & H2 & H3 & H4 & H5). exists G, W, pre, e, f, m, r.
  split_and!; try done. intros q Hq. by rewrite H5, E.
Qed.

Lemma moved_ext d w w' key0 res : moved d w key0 res -> (forall q, byte_list q -> w q = w' q) -> moved d w' key0 res.
Proof.
  intros (c' & -> & [(key & S & [N1 N2 N3 N4] & Er)|[Es Hn]]) E; exists c'; (split; [done|]).
  - left. exists key. split; [by eapply standing_ext|]. split; [|done]. split; [done|by rewrite <- E|done|].
    intros q Hq. rewrite <- E by done. by apply N4.
  - right. split; [done|]. intros q Hq. rewrite <- E by done. by apply Hn.
Qed.

(** The transition at the top, when it is a node with a hole. *)
Lemma node_at_top t ts pl G W pre e f m : ctx h root (t :: ts) pl G W pre e -> rep h (load h root pl) f m ->
  (forall b, e = Some b -> first_byte h (load h root pl) = b) -> (forall x, f x -> G x -> False) ->
  exists n b G0 W0 pre0 e0 f0 m0,
    focus h root t ts G0 W0 pre0 e0 f0 m0 /\ is_leaf h root t = false /\ body (h (t_node t)) = OTrie n /\
    pre = pre0 ++ compressed n /\ W0 m0 = W m /\ e = Some b /\ -1 <= b <= 255 /\ isset n b = true /\
    t_link_idx t = array_index n b.
Proof.
  intros C R Hf D. destruct (ctx_load HASH_SIZE _ _ _ _ _ _ _ _ _ C) as (n & b & Hb & -> & Hbr & Hw & Sb & Elk & -> & _).
  destruct (ctx_up HASH_SIZE _ _ _ _ _ _ _ _ _ _ _ C R Hf D)
    as (n' & G0 & W0 & pre0 & e0 & f0 & m0 & C0 & R0 & Hf0 & D0 & En & Ek & Hl & Hb' & Ep & EW & _).
  assert (n' = n) as -> by congruence. exists n, b, G0, W0, pre0, e0, f0, m0. split_and!; try done; try lia.
  inversion C; subst. unfold link_place in *. congruence.
Qed.

(** The parents of a node see no difference between two keys below it. *)
Lemma trail_below t ts G W pre e f m n r0 r : focus h root t ts G W pre e f m -> is_leaf h root t = false ->
  body (h (t_node t)) = OTrie n -> trail (pre ++ compressed n ++ r0) (Z.of_nat (length pre)) ts 0 ->
  trail (pre ++ compressed n ++ r) (Z.of_nat (length pre)) ts 0.
Proof.
  intros Fo Hl Hb T. destruct ts as [|u us]; [done|]. eapply trail_same; [exact T|]. rewrite Nat2Z.id. intros i b Hi.
  destruct (compressed n) as [|x c] eqn:Ec.
  - exfalso. destruct (ctx_load HASH_SIZE _ _ _ _ _ _ _ _ _ (fo_ctx _ _ _ _ _ _ _ _ _ _ _ Fo)) as (n0 & b0 & _ & Ee & Hb0 & _).
    pose proof (fo_first _ _ _ _ _ _ _ _ _ _ _ Fo b0 Ee) as Hf. unfold is_leaf in Hl. unfold first_byte, trie_at in Hf.
    rewrite Hl, <- (fo_node _ _ _ _ _ _ _ _ _ _ _ Fo), Hb, Ec in Hf. lia.
  - destruct (decide (i < length pre)%nat); [by rewrite !lookup_app_l by done|].
    assert (i = length pre) as -> by lia. cbn [app]. by rewrite !list_lookup_middle.
Qed.

(** The walk into a branch of a transition. *)
Lemma enter_child d fuel t t1 ts n F M G W pre e f m k l kk r0 r : focus h root t ts G W pre e f m ->
  is_leaf h root t = false -> body (h (t_node t)) = OTrie n -> wf HASH_SIZE n -> byte_list (compressed n) ->
  (forall k l, -1 <= k <= 255 -> link n k = Some l -> rep h l (F k) (M k)) ->
  (forall k l, -1 <= k <= 255 -> link n k = Some l -> first_byte h l = k) ->
  (forall k l, -1 <= k <= 255 -> link n k = Some l -> ~ F k (t_node t)) ->
  (forall k l k' l' x, -1 <= k <= 255 -> -1 <= k' <= 255 -> link n k = Some l -> link n k' = Some l' -> F k x -> F k' x -> k = k') ->
  focus h root t ts G W pre e (fun x => x = t_node t \/ exists k l, -1 <= k <= 255 /\ link n k = Some l /\ F k x)
    (node_map (compressed n) (link n) M) ->
  (forall key, byte_list key -> m key = node_map (compressed n) (link n) M key) ->
  -1 <= k <= 255 -> link n k = Some l -> extreme d (M k) r ->
  neighbour d (W m) (pre ++ compressed n ++ r0) (pre ++ compressed n ++ r) ->
  cur kk = pre ++ compressed n -> rest kk = [] ->
  t_node t1 = t_node t -> t_offset t1 = t_offset t -> t_keypos t1 = t_keypos t -> t_link_idx t1 = array_index n k ->
  t_cmp t1 = 0 -> 0 <= t_prefix t1 -> t_keypos t + t_prefix t1 = Z.of_nat (length (pre ++ compressed n)) ->
  trail (pre ++ compressed n ++ r0) (t_keypos t) ts 0 -> fits fuel (W m) ->
  let '(ch, k1) := child h root t1 kk in
  exists t' seg k2, walk d fuel ch k1 = Some (t' :: seg, k2) /\ rest k2 = [] /\ cur k2 = pre ++ compressed n ++ r /\
    t_keypos ch = Z.of_nat (length (pre ++ compressed n)) /\
    forall x, (forall b, (pre ++ compressed n ++ r) !! length (pre ++ compressed n) = Some b -> x = b) ->
      standing (Cursor ((t' :: seg ++ [set_branch x t1]) ++ ts) k2) (pre ++ compressed n ++ r) (W m).
Proof.
  intros Fo Hl Hb Hw Hc HR HF Hown HD Fo' Hm Hk El Ex Ne Ecur Er E1 E2 E3 E4 Ec Hpx Hkp Hts Hfit.
  destruct (Hfit _ (ne_bytes _ _ _ _ Ne) (ne_in _ _ _ _ Ne)) as [Hl16 Hfuel].
  pose proof (focus_child HASH_SIZE h root t ts n F M G W pre e k l kk Fo' Hl Hb Hw Hc HR HF Hown HD Hk El
    ltac:(rewrite !length_app in Hl16; rewrite length_app; lia) Ecur t1 E1 E2 E3 E4) as Ch.
  destruct (child h root t1 kk) as [ch k1]. destruct Ch as (G' & W' & Fc & EW & _ & ->).
  assert (branch r = k) as Ebr by (destruct Ex as [Hr [v Hv] _]; by eapply (child_branch n F M)).
  destruct (walk_reaches d fuel ch (t1 :: ts) (Keys (cur kk) (rest kk) (tl (dead kk))) G' W' (pre ++ compressed n) (Some k) _ _ r Fc Ex Ebr Ecur Er)
    as (t' & seg & k2 & E & Hseg & Er2 & Ek2 & Ga & Wa & pa & ea & fa & ma & ra & Fa & Epa & He & St & EWa).
  { by rewrite <- app_assoc. } { rewrite !length_app in Hfuel. lia. }
  rewrite <- app_assoc in Hseg, Ek2. exists t', seg, k2.
  split; [done|]. split; [done|]. split; [done|]. split; [apply Fc|]. intros x Hx. split.
  - cbn [located stack]. exists Ga, Wa, pa, ea, fa, ma, ra. cbn [app]. rewrite <- app_assoc. cbn [app]. split; [by apply focus_rebranch|].
    split; [by rewrite app_assoc|]. split; [done|]. split; [done|]. intros q Hq. rewrite EWa, EW by done.
    eapply (ctx_replace HASH_SIZE); [apply Fo|done|]. intros q0 Hq0. rewrite Hm by done. unfold node_map.
    destruct (decide _); [|done]. destruct (link n _); [|done]. by destruct (Z.eqb_spec (branch (drop (length (compressed n)) q0)) k) as [->|].
  - cbn [trailing stack app]. rewrite <- app_assoc. apply trail_app. eexists. split; [exact Hseg|]. cbn [app trail].
    change (t_keypos (set_branch x t1)) with (t_keypos t1). rewrite E3, Nat2Z.id.
    split; [done|]. split; [done|]. split; [done|]. split; [exact Hx|].
    rewrite (fo_keypos _ _ _ _ _ _ _ _ _ _ _ Fo) in *. by eapply trail_below.
Qed.

Lemma climb_moves d fuel ts : forall n pl G W pre e f m k r0,
  ctx h root ts pl G W pre e -> rep h (load h root pl) f m ->
  (forall b, e = Some b -> first_byte h (load h root pl) = b) -> (forall x, f x -> G x -> False) ->
  byte_list (pre ++ r0) -> enters e r0 ->
  (forall x, byte_list (pre ++ x) -> enters e x -> is_Some (W m (pre ++ x)) -> ~ ahead d r0 x) ->
  cur k = pre -> rest k = [] -> trail (pre ++ r0) (Z.of_nat (length pre)) ts 0 -> fits fuel (W m) -> (length ts <= n)%nat ->
  moved d (W m) (pre ++ r0) (climb (step d fuel) n (Cursor ts k)).
Proof.
  induction ts as [|t ts IH]; intros n pl G W pre e f m k r0 C R Hf D H0 He Hgt Ecur Er Hts Hfit Hn.
  { inversion C; subst. exists (Cursor [] k). split; [by destruct n|]. right. split; [done|]. intros key' Hk' Hin. rewrite <- H4 in Hgt. by apply Hgt. }
  destruct n as [|n]; [cbn in Hn; lia|].
  destruct (node_at_top t ts pl G W pre e f m C R Hf D)
    as (nd & b & G0 & W0 & pre0 & e0 & f0 & m0 & Fo & Hl & Hb & -> & EW & -> & Hbr & Sb & Ei). rewrite <- EW in *.
  destruct (focus_cases _ _ _ _ _ _ _ _ _ _ _ Fo) as [(Hl' & _)|(_ & n' & F & M & Hb' & Hw & Hc & HR & HF & Hown & HD & Fo' & Hm & _)]; [congruence|].
  assert (n' = nd) as -> by congruence. rewrite <- app_assoc in *. cbn [enters] in He.
  assert (forall x, byte_list x -> branch x = b -> is_Some (W0 m0 (pre0 ++ compressed nd ++ x)) -> ~ ahead d r0 x) as Hgt'.
  { intros x Hx Eb Hin. apply Hgt; [|done|by rewrite <- app_assoc]. apply byte_list_app. split; [|done].
    apply byte_list_app in H0 as [? [? _]%byte_list_app]. by apply byte_list_app. }
  cbn [climb stack trie.keys]. destruct (decide (0 <= next_index d (array_index nd b) < count nd)) as [Hi|Hi].
  - destruct (index_branch nd _ Hw Hi) as (b' & Hb'r & Sb' & Eb').
    assert (exists l, link nd b' = Some l) as [l El] by (rewrite (link_isset HASH_SIZE), Sb' by done; by eexists).
    destruct (rep_extreme d l _ _ (HR b' l Hb'r El)) as [r Ex].
    assert (branch r0 = b) as Eb0 by done. destruct (array_index_keys HASH_SIZE nd Hw b Hbr) as [(_ & Ib & _)|[? _]]; [|congruence].
    destruct (next_branch d nd b b' b' Hw Hbr Hb'r Hb'r Sb Sb' Sb' Eb') as [Hbb _].
    pose proof (branch_neighbour d t ts G0 W0 pre0 e0 f0 m0 nd F M b b' l r0 r Fo Hb Hl Hw Hm HR HF He H0 Hgt' Hb'r El Hbb
      ltac:(intros x Hx Sx; by apply (next_branch d nd b b' x Hw Hbr Hb'r Hx Sb Sb' Sx Eb')) Ex) as Ne.
    destruct Hts as (Hc0 & Hpx & Hkp & _ & Hts).
    pose proof (step_sibling d fuel t k nd Hl ltac:(unfold t_trie, trie_at; by rewrite Hb) Hc0 ltac:(lia)
      ltac:(apply (count_range HASH_SIZE nd Hw)) ltac:(by rewrite Ei)) as Es. cbn zeta in Es.
    set (t1 := set_idx (next_index d (t_link_idx t)) t) in *.
    pose proof (enter_child d fuel t t1 ts nd F M G0 W0 pre0 e0 f0 m0 b' l k r0 r Fo Hl Hb Hw Hc HR HF Hown HD Fo' Hm
      Hb'r El Ex Ne Ecur Er eq_refl eq_refl eq_refl ltac:(cbn; by rewrite Ei, Eb') Hc0 Hpx Hkp Hts Hfit) as En.
    destruct (child h root t1 k) as [ch k1]. destruct En as (t' & seg & k2 & E & Er2 & Ek2 & Ekp & St).
    rewrite E in Es. cbn [mbind option_bind app] in Es. destruct (rebranch_set (negb d) ch k2 t1) as (x & Ex1 & Hx).
    rewrite Ex1 in Es. rewrite Ek2, Ekp, Nat2Z.id in Hx.
    rewrite Es. cbn [mbind option_bind]. eexists. split; [done|]. left. exists (pre0 ++ compressed nd ++ r). split; [by apply St|by split].
  - destruct (array_index_keys HASH_SIZE nd Hw b Hbr) as [(_ & Ib & _)|[? _]]; [|congruence].
    destruct (step_done d fuel t k nd Hl ltac:(unfold t_trie, trie_at; by rewrite Hb) (proj1 Hts) ltac:(lia) ltac:(apply (count_range HASH_SIZE nd Hw))
      ltac:(by rewrite Ei)) as (t' & Es & Ek').
    rewrite Es. cbn [mbind option_bind app]. unfold pop. cbn [stack trie.keys]. rewrite Ek'.
    pose proof (fo_keypos _ _ _ _ _ _ _ _ _ _ _ Fo) as Ekp.
    eapply IH; [apply Fo|apply Fo|apply Fo|apply Fo|done|..].
    + destruct (node_keys _ _ _ _ _ _ _ _ _ _ _ Fo Hb Hl Hm HR) as [K1 _]. by apply K1.
    + intros x Hx Hex Hin. by eapply (last_of_node d t ts G0 W0 pre0 e0 f0 m0 nd F M b).
    + cbn [resize_key cur]. by rewrite Ekp, Nat2Z.id, Ecur, take_app_length.
    + done.
    + destruct Hts as (_ & _ & _ & _ & Hts). by rewrite <- Ekp.
    + done.
    + cbn [length] in Hn. lia.
Qed.

(** ** Cursors *)

(** From a leaf the search goes up. *)
Lemma move_from d fuel c key f m : rep h root f m -> standing c key m -> is_valid h root c = true -> byte_list key -> fits fuel m ->
  moved d m key (climb (step d fuel) (length (stack c)) (no_rest c)).
Proof.
  intros R [L P] V Hb Hfit. destruct (located_reads HASH_SIZE h root c key m L Hb) as (_ & _ & Hcur). specialize (Hcur V).
  destruct c as [[|t ts] k]; cbn [located stack] in L; [done|]. destruct L as (G & W & pre & e & f0 & m0 & r & Fo & -> & He & St & EW).
  unfold is_valid in V. cbn [stack trie.keys] in *. unfold success in V. apply andb_true_iff in V as [Vc Vl]. apply Z.eqb_eq in Vc.
  unfold no_rest. cbn [stack trie.keys length]. cbn [climb stack trie.keys].
  assert (forall kk, step d fuel t kk = Some (false, [t], kk)) as ->.
  { intros kk. unfold step. destruct d; unfold trie.next, trie.prev; by rewrite Vl, Vc. }
  cbn [mbind option_bind app]. unfold pop. cbn [stack trie.keys cur rest dead].
  assert (forall q, byte_list q -> W m0 q = m q) as EW' by done.
  destruct (climb_moves d fuel ts (length ts) (t_offset t) G W pre e f0 m0 (resize_key (t_keypos t) (Keys (cur k) [] (t_branch_key t :: dead k))) r
    (fo_ctx _ _ _ _ _ _ _ _ _ _ _ Fo) (fo_rep _ _ _ _ _ _ _ _ _ _ _ Fo) (fo_first _ _ _ _ _ _ _ _ _ _ _ Fo)
    (fo_disj _ _ _ _ _ _ _ _ _ _ _ Fo) Hb He) as (c' & E & M).
  - intros x Hx Hex [v Hv]. rewrite (ctx_focus HASH_SIZE _ _ _ _ _ _ _ _ _ _ (fo_ctx _ _ _ _ _ _ _ _ _ _ _ Fo) Hex) in Hv.
    apply byte_list_app in Hx as [_ Hx]. pose proof Hb as [_ Hr]%byte_list_app.
    destruct (focus_cases _ _ _ _ _ _ _ _ _ _ _ Fo) as [(_ & l & Hbl & Hok & Hm)|(Hl & _)]; [|congruence].
    destruct (stopped_reads HASH_SIZE h root _ _ _ _ _ _ _ _ _ _ Fo St He Hr) as (_ & _ & Hk).
    rewrite Hk by (unfold success; by rewrite Vc, Vl). unfold t_leaf, leaf_at. rewrite Hbl. rewrite Hm in Hv by done.
    destruct (decide _) as [->|]; [apply ahead_irrefl|done].
  - cbn [resize_key cur]. rewrite (fo_keypos _ _ _ _ _ _ _ _ _ _ _ Fo), Nat2Z.id, Hcur. by rewrite take_app_length.
  - done.
  - unfold trailing in P. cbn [stack] in P. by rewrite (fo_keypos _ _ _ _ _ _ _ _ _ _ _ Fo) in P.
  - intros q Hq [v Hv]. rewrite EW' in Hv by done. apply Hfit; [done|by exists v].
  - done.
  - eapply moved_ext; [|exact EW']. by exists c'.
Qed.

(** A cursor without a stack or a dead one starts at the extreme key. *)
Lemma start_at d fuel c f m key : rep h root f m -> extreme d m key -> fits fuel m ->
  exists c', (if d then first_key h root fuel c else last_key h root fuel c) = Some c' /\ standing c' key m /\ rest (trie.keys c') = [].
Proof.
  intros R Ex Hfit. pose proof (rep_nonzero HASH_SIZE _ _ _ _ R) as Hnz. assert (root <> 0) as Hr by (by intros ->).
  destruct (Hfit key (ex_bytes _ _ _ Ex) (ex_in _ _ _ Ex)) as [H1 H2].
  set (d0 := dead (trie.keys (kill (length (stack c)) c))).
  assert (clear h root c = (false, push_root h root (Cursor [] (Keys [] [] d0)))) as Ec.
  { unfold clear. destruct (Z.eqb_spec root 0); [done|]. unfold kill. cbn [stack trie.keys]. by rewrite drop_all. }
  destruct (walk_reaches d fuel (init h root (hd 0 d0) Root 0) [] (Keys [] [] (tl d0)) (fun _ => False) (fun w => w) [] None f m key
    (root_focus HASH_SIZE h root f m R _) Ex I eq_refl eq_refl H1 H2) as (t' & seg & k' & E & Hseg & Er & _ & G & W & pre & e & f0 & m0 & r & Fo & Ek & He & St & EW).
  exists (Cursor (t' :: seg) k'). split; [|split; [split|done]].
  - assert (forall w, (if d then first_key h root fuel c else last_key h root fuel c) = w <-> on_top (walk d fuel) (push_root h root (Cursor [] (Keys [] [] d0))) = w) as ->.
    { intros w. unfold first_key, last_key, walk. rewrite Ec. by destruct d. }
    unfold push_root, on_top. cbn [stack trie.keys cur rest dead length]. change (Z.of_nat 0) with 0. rewrite E.
    cbn [mbind option_bind]. by rewrite app_nil_r.
  - cbn [located stack]. exists G, W, pre, e, f0, m0, r. rewrite app_nil_r in Fo. split; [exact Fo|]. split; [exact Ek|]. by split_and!.
  - exact Hseg.
Qed.

(** What a standing cursor at a key of the trie answers. *)
Lemma standing_reads c key m : standing c key m -> byte_list key -> is_Some (m key) ->
  is_valid h root c = true /\ cur (trie.keys c) = key /\ value h root c = option_map snd (m key).
Proof.
  intros [L _] Hb [v Hv]. destruct (located_reads HASH_SIZE h root c key m L Hb) as (V1 & V2 & V3).
  rewrite Hv in V1. split_and!; [done|by apply V3|done].
Qed.

Definition move (d : bool) := if d then next_key h root else prev_key h root.
Definition start (d : bool) := if d then first_key h root else last_key h root.

Lemma move_moves d fuel c key f m : rep h root f m -> standing c key m -> is_valid h root c = true -> byte_list key -> fits fuel m ->
  moved d m key (move d fuel c).
Proof.
  intros R S V Hb Hfit. pose proof (move_from d fuel c key f m R S V Hb Hfit) as M. unfold move, next_key, prev_key, step in *.
  by destruct d.
Qed.

(** A search that succeeds leaves a cursor that can move. *)
Lemma found_stands fuel key c f m : rep h root f m -> byte_list key -> is_Some (m key) -> fits fuel m ->
  (stack c = [] \/ positioned HASH_SIZE h root c m /\ (key <> cur (trie.keys c) \/ is_valid h root c = true)) ->
  trailing (cur (trie.keys c)) c ->
  exists c', find_key cfg h root fuel key c = Some c' /\ standing c' key m.
Proof.
  intros R Hb Hin Hfit Hc Hfo. destruct (Hfit key Hb Hin) as [H1 H2].
  destruct (find_key_locates HASH_SIZE cfg h root fuel key c f m R Hb H1 H2 Hc) as (c' & E & L & Hfo').
  exists c'. split; [done|]. split; [done|by apply Hfo'].
Qed.

(** Reading the keys one after the other until the cursor is invalid. *)
Fixpoint scan (d : bool) (fuel n : nat) (c : cursor) : option (list (list Z)) :=
  match n with
  | O => None
  | S n =>
      if is_valid h root c then
        c' ← move d fuel c; ks ← scan d fuel n c'; Some (cur (trie.keys c) :: ks)
      else Some []
  end.

(** [l] are the keys of [m] from its first one on, in the direction. *)
Record listing (d : bool) (m : keymap) (l : list (list Z)) : Prop := {
  ls_in : forall key, byte_list key -> key ∈ l <-> is_Some (m key);
  ls_bytes : Forall byte_list l;
  ls_sorted : StronglySorted (ahead d) l
}.

Lemma listing_split d m l1 key l2 : listing d m (l1 ++ key :: l2) ->
  byte_list key /\ is_Some (m key) /\ (forall q, q ∈ l1 -> ahead d q key) /\ forall q, q ∈ l2 -> ahead d key q.
Proof.
  intros [H1 H2 H3]. assert (key ∈ l1 ++ key :: l2) as Hin by (apply elem_of_app; right; left).
  assert (byte_list key) as Hb by (rewrite list.Forall_forall in H2; by apply H2).
  split; [done|]. split; [by apply H1|]. clear H1 H2 Hin Hb. split.
  - induction l1 as [|x l1 IH]; [by intros q ?%elem_of_nil|]. cbn [app] in H3. apply StronglySorted_inv in H3 as [H3 H4].
    intros q [->|Hq]%list.elem_of_cons; [|by apply IH]. rewrite list.Forall_forall in H4. apply H4, elem_of_app. right. left.
  - induction l1 as [|x l1 IH]; cbn [app] in H3; apply StronglySorted_inv in H3 as [H3 H4]; [|by apply IH].
    intros q Hq. rewrite list.Forall_forall in H4. by apply H4.
Qed.

Lemma scan_from d fuel f m l2 : rep h root f m -> fits fuel m -> forall n l1 key c, listing d m (l1 ++ key :: l2) -> standing c key m ->
  (length l2 + 2 <= n)%nat -> scan d fuel n c = Some (key :: l2).
Proof.
  intros R Hfit. induction l2 as [|key2 l2 IH]; intros n l1 key c Ls Sd Hn; destruct n as [|n]; try (cbn in Hn; lia).
  all: destruct (listing_split d m l1 key _ Ls) as (Hb & Hin & Hbef & Haft); destruct (standing_reads c key m Sd Hb Hin) as (V & Ec & _);
    cbn [scan]; rewrite V, Ec; destruct (move_moves d fuel c key f m R Sd V Hb Hfit) as (c' & -> & M); cbn [mbind option_bind].
  - destruct M as [(key' & _ & [N1 N2 N3 _] & _)|[Es _]].
    + exfalso. apply (ls_in _ _ _ Ls) in N2 as [N2|[->|N2%elem_of_nil]%list.elem_of_cons]%elem_of_app; [| |done|done].
      * apply (ahead_irrefl d key). eapply ahead_trans; [exact N3|by apply Hbef].
      * by apply (ahead_irrefl d key).
    + destruct n as [|n]; [cbn in Hn; lia|]. cbn [scan]. unfold is_valid. by rewrite Es.
  - assert (ahead d key key2) as Ha2 by (apply Haft; left).
    change (l1 ++ key :: key2 :: l2) with (l1 ++ [key] ++ key2 :: l2) in Ls. rewrite app_assoc in Ls.
    destruct (listing_split d m _ key2 l2 Ls) as (Hb2 & Hin2 & Hbef2 & _). destruct M as [(key' & Sd' & [N1 N2 N3 N4] & _)|[_ Hno]].
    + assert (key' = key2) as ->.
      { destruct (N4 key2 Hb2 Hin2 Ha2) as [->|Hlt]; [done|]. exfalso.
        apply (ls_in _ _ _ Ls) in N2 as [N2|[->|N2]%list.elem_of_cons]%elem_of_app; [|by apply (ahead_irrefl d key2)| |done].
        - apply elem_of_app in N2 as [N2|N2%list_elem_of_singleton]; [|rewrite N2 in N3; by apply (ahead_irrefl d key)].
          apply (ahead_irrefl d key). eapply ahead_trans; [exact N3|by apply Hbef].
        - destruct (listing_split d m _ key2 l2 Ls) as (_ & _ & _ & Haft2). apply (ahead_irrefl d key2).
          eapply ahead_trans; [by apply Haft2|done]. }
      by rewrite (IH n _ key2 c' Ls Sd') by (cbn [length] in Hn; lia).
    + exfalso. by apply (Hno key2).
Qed.

(** The first key of a listing is the extreme one. *)
Lemma listing_extreme d m key l : listing d m (key :: l) -> extreme d m key.
Proof.
  intros Ls. destruct (listing_split d m [] key l Ls) as (Hb & Hin & _ & Ha). split; [done|done|].
  intros q Hq Hi. apply (ls_in _ _ _ Ls) in Hi as [->|Hi]%list.elem_of_cons; [by left|right; by apply Ha|done].
Qed.

(** ** The claims *)

(** From a cursor at a key, [next] goes to the least greater key and [prev] to the
    greatest smaller one, with its value; beyond the last key the cursor is invalid. *)
Theorem move_to_neighbour d fuel c key f m : rep h root f m -> standing c key m -> is_valid h root c = true -> byte_list key ->
  fits fuel m ->
  exists c', move d fuel c = Some c' /\
    ((exists key', neighbour d m key key' /\ standing c' key' m /\ is_valid h root c' = true /\ cur (trie.keys c') = key' /\
        value h root c' = option_map snd (m key')) \/
     (is_valid h root c' = false /\ stack c' = [] /\ forall key', byte_list key' -> is_Some (m key') -> ~ ahead d key key')).
Proof.
  intros R S V Hb Hfit. destruct (move_moves d fuel c key f m R S V Hb Hfit) as (c' & E & M). exists c'. split; [done|].
  destruct M as [(key' & Sd & N & _)|[Es Hn]]; [left|right].
  - exists key'. split; [done|]. split; [done|]. apply standing_reads; [done|apply N|apply N].
  - split; [unfold is_valid; by rewrite Es|done].
Qed.

(** [first] goes to the least key of the trie and [last] to the greatest. *)
Theorem start_at_extreme d fuel c f m : rep h root f m -> fits fuel m ->
  exists c' key, start d fuel c = Some c' /\ extreme d m key /\ standing c' key m /\ is_valid h root c' = true /\
    cur (trie.keys c') = key /\ value h root c' = option_map snd (m key).
Proof.
  intros R Hfit. destruct (rep_extreme d root f m R) as [key Ex]. destruct (start_at d fuel c f m key R Ex Hfit) as (c' & E & Sd & _).
  exists c', key. split; [unfold start; by destruct d|]. split; [done|]. split; [done|]. apply standing_reads; [done|apply Ex|apply Ex].
Qed.

(** C31: A scan from either end lists all keys of the trie in their order, each once. *)
Theorem scan_lists_keys d fuel n c f m l : rep h root f m -> fits fuel m -> listing d m l -> (length l + 1 <= n)%nat ->
  (c' ← start d fuel c; scan d fuel n c') = Some l.
Proof.
  intros R Hfit Ls Hn. destruct l as [|key l].
  { exfalso. destruct (rep_inhabited HASH_SIZE h root f m R) as (key & v & Hb & Hm). assert (is_Some (m key)) as Hi by by exists v.
    apply (ls_in _ _ _ Ls) in Hi; [by apply elem_of_nil in Hi|done]. }
  destruct (start_at d fuel c f m key R (listing_extreme d m key l Ls) Hfit) as (c' & E & Sd & _).
  assert (start d fuel c = Some c') as -> by (unfold start; by destruct d). cbn [mbind option_bind].
  apply (scan_from d fuel f m l R Hfit n [] key c' Ls Sd). cbn [length] in Hn. lia.
Qed.

(** A scan from a key that was found lists it and the keys behind it. *)
Theorem scan_from_found d fuel n key c f m l1 l2 : rep h root f m -> fits fuel m -> listing d m (l1 ++ key :: l2) ->
  (length l2 + 2 <= n)%nat ->
  (stack c = [] \/ positioned HASH_SIZE h root c m /\ (key <> cur (trie.keys c) \/ is_valid h root c = true)) ->
  trailing (cur (trie.keys c)) c ->
  (c' ← find_key cfg h root fuel key c; scan d fuel n c') = Some (key :: l2).
Proof.
  intros R Hfit Ls Hn Hc Hfo. destruct (listing_split d m l1 key l2 Ls) as (Hb & Hin & _).
  destruct (found_stands fuel key c f m R Hb Hin Hfit Hc Hfo) as (c' & -> & Sd). cbn [mbind option_bind].
  by apply (scan_from d fuel f m l2 R Hfit n l1).
Qed.

End with_cfg.

(** ** Witnesses: the trie of the keys [a] and [ab] *)

Lemma sample_keys key : is_Some (sample_map key) <-> key = [97] \/ key = [97; 98].
Proof. unfold sample_map. repeat case_decide; subst; rewrite is_Some_alt; naive_solver. Qed.

Lemma sample_fits : fits 9 sample_map.
Proof. intros key _ [->| ->]%sample_keys; simpl; lia. Qed.

Lemma sample_listing : listing true sample_map [[97]; [97; 98]].
Proof.
  split.
  - intros key _. by rewrite sample_keys, list.elem_of_cons, list_elem_of_singleton.
  - constructor; [|constructor; [|done]]; forall_lia.
  - repeat constructor; cbn; lia.
Qed.

Lemma sample_listing_back : listing false sample_map [[97; 98]; [97]].
Proof.
  split.
  - intros key _. rewrite sample_keys, list.elem_of_cons, list_elem_of_singleton. by rewrite Logic.or_comm.
  - constructor; [|constructor; [|done]]; forall_lia.
  - repeat constructor; cbn; lia.
Qed.

(** The cursor after a search for [a]. *)
Lemma sample_standing : exists c, find_key plain sample_heap sample_root 9 [97] fresh_cursor = Some c /\
  standing 0 sample_heap sample_root c [97] sample_map /\ is_valid sample_heap sample_root c = true.
Proof.
  destruct (found_stands 0 plain sample_heap sample_root 9 [97] fresh_cursor sample_pages sample_map sample_rep
    ltac:(forall_lia) ltac:(by eexists) sample_fits (or_introl eq_refl) I) as (c & E & Sd).
  exists c. split; [done|]. split; [done|]. eapply standing_reads; [done|forall_lia|by eexists].
Qed.

Lemma move_to_neighbour_witness : exists c c',
  find_key plain sample_heap sample_root 9 [97] fresh_cursor = Some c /\
  move sample_heap sample_root true 9 c = Some c' /\ cur (trie.keys c') = [97; 98] /\ value sample_heap sample_root c' = Some [121].
Proof.
  destruct sample_standing as (c & E & Sd & V).
  destruct (move_to_neighbour 0 sample_heap sample_root true 9 c [97] sample_pages sample_map sample_rep Sd V
    ltac:(forall_lia) sample_fits) as (c' & E' & [(key' & N & _ & _ & Hc & Hv)|(_ & _ & Hno)]).
  - exists c, c'. destruct (proj1 (sample_keys key') (ne_in _ _ _ _ N)) as [->| ->].
    + destruct (ahead_irrefl true [97] (ne_ahead _ _ _ _ N)).
    + by split_and!.
  - destruct (Hno [97; 98]); [forall_lia|by eexists|cbn; lia].
Defined.

Lemma start_at_extreme_witness : exists c',
  start sample_heap sample_root false 9 fresh_cursor = Some c' /\ cur (trie.keys c') = [97; 98] /\
  value sample_heap sample_root c' = Some [121].
Proof.
  destruct (start_at_extreme 0 sample_heap sample_root false 9 fresh_cursor sample_pages sample_map sample_rep sample_fits)
    as (c' & key & E & Ex & _ & _ & Hc & Hv).
  exists c'. destruct (proj1 (sample_keys key) (ex_in _ _ _ Ex)) as [->| ->].
  - destruct (ex_first _ _ _ Ex [97; 98]) as [|Ha]; [forall_lia|by eexists|done|cbn in Ha; lia].
  - by split_and!.
Defined.

Lemma scan_lists_keys_witness :
  (c ← start sample_heap sample_root false 9 fresh_cursor; scan sample_heap sample_root false 9 3 c) = Some [[97; 98]; [97]].
Proof.
  apply (scan_lists_keys 0 sample_heap sample_root false 9 3 fresh_cursor sample_pages sample_map _ sample_rep sample_fits
    sample_listing_back). cbn [length]. lia.
Defined.

Lemma scan_from_found_witness :
  (c ← find_key plain sample_heap sample_root 9 [97; 98] fresh_cursor; scan sample_heap sample_root true 9 2 c) = Some [[97; 98]].
Proof.
  apply (scan_from_found 0 plain sample_heap sample_root true 9 2 [97; 98] fresh_cursor sample_pages sample_map [[97]] []
    sample_rep sample_fits sample_listing); [cbn [length]; lia|by left|done].
Defined.
End trieiter.
