(* ===== verification/TrieSeek.v ===== *)
(** * TrieSeek: moving from a key that is not in the trie

    A search for a key that is missing leaves the cursor where the key would be; the
    next move goes to the neighbour of that key, so a search followed by [next] is
    an upper bound. The one exception is a key that ends inside the trie, where the
    search does not record a branch. *)
From Stdlib Require Import Sorted.
From S2P Require Import Prelude Bits Util Node Leaf NodeFacts Trie TrieRep TrieFind TrieLookup TrieIter.

Module trieseek.
Import util.
Export trieiter.

Section with_cfg.
Context (HASH_SIZE : Z) (h : heap) (root : Z).
Hypothesis HASH_SIZE_range : 0 <= HASH_SIZE <= 512.

Abbreviation rep := (trierep.rep HASH_SIZE).
Abbreviation ctx := (trierep.ctx HASH_SIZE).
Abbreviation focus := (triefind.focus HASH_SIZE).
Abbreviation moved := (trieiter.moved HASH_SIZE h root).
Abbreviation standing := (trieiter.standing HASH_SIZE h root).
Abbreviation step := (trieiter.step h root).
Abbreviation move := (trieiter.move h root).
Abbreviation walk := (trieiter.walk h root).

(** The parents see no difference between two keys that enter the hole. *)
Lemma trail_enters ts pl G W pre e r0 r1 : ctx h root ts pl G W pre e -> enters e r0 -> enters e r1 -> byte_list r1 ->
  trail (pre ++ r0) (Z.of_nat (length pre)) ts 0 -> trail (pre ++ r1) (Z.of_nat (length pre)) ts 0.
Proof.
  intros C E0 E1 Hr1 T. destruct ts as [|t ts]; [exact T|]. destruct (ctx_load HASH_SIZE _ _ _ _ _ _ _ _ _ C) as (_ & c & _ & -> & _).
  eapply trail_same; [exact T|]. rewrite Nat2Z.id. intros i b Hi.
  destruct (decide (i < length pre)%nat); [by rewrite !lookup_app_l by done|].
  assert (i = length pre) as -> by lia. rewrite !lookup_app_r, !Nat.sub_diag by lia.
  simpl in *. destruct r1 as [|y r1]; [done|]. apply list.Forall_cons in Hr1 as [Hy _].
  destruct r0 as [|x r0]; simpl in *; unfold NONE in *; [lia|congruence].
Qed.

Lemma move_climb d fuel c : move d fuel c = climb (step d fuel) (length (stack c)) (no_rest c).
Proof. unfold trieiter.move, trieiter.step, next_key, prev_key. by destruct d. Qed.

(** Nothing is left below [t]: the search goes on above it. *)
Lemma resume_above d fuel t t' ts k k' G W pre e f m r0 : focus h root t ts G W pre e f m ->
  byte_list (pre ++ r0) -> enters e r0 ->
  (forall x, byte_list (pre ++ x) -> enters e x -> is_Some (W m (pre ++ x)) -> ~ ahead d r0 x) ->
  step d fuel t (trie.keys (no_rest (Cursor (t :: ts) k))) = Some (false, [t'], k') -> t_keypos t' = t_keypos t ->
  take (length pre) (cur k') = pre -> rest k' = [] ->
  trail (pre ++ r0) (Z.of_nat (length pre)) ts 0 -> fits fuel (W m) ->
  moved d (W m) (pre ++ r0) (move d fuel (Cursor (t :: ts) k)).
Proof.
  intros Fo Hb He Hgt Es Ek Hc Hr Ht Hfit. rewrite move_climb. cbn [stack length climb]. unfold no_rest in *. cbn [stack trie.keys climb] in *.
  rewrite Es. cbn [mbind option_bind app]. unfold pop. cbn [stack trie.keys].
  pose proof (climb_moves HASH_SIZE h root d fuel ts (length ts) (t_offset t) G W pre e f m
    (resize_key (t_keypos t') (Keys (cur k') (rest k') (t_branch_key t' :: dead k'))) r0) as M.
  apply M; clear M; try (done || apply Fo).
  cbn [resize_key cur]. by rewrite Ek, (fo_keypos _ _ _ _ _ _ _ _ _ _ _ Fo), Nat2Z.id.
Qed.

(** The next key is the first one below [t]. *)
Lemma resume_here d fuel t ts k G W pre e f m r0 r1 : focus h root t ts G W pre e f m ->
  byte_list (pre ++ r0) -> enters e r0 -> enters e r1 -> extreme d m r1 -> ahead d r0 r1 ->
  cur k = pre -> rest k = [] -> trail (pre ++ r0) (Z.of_nat (length pre)) ts 0 -> fits fuel (W m) ->
  exists t' seg k', walk d fuel t k = Some (t' :: seg, k') /\ rest k' = [] /\
    standing (Cursor ((t' :: seg) ++ ts) k') (pre ++ r1) (W m) /\ neighbour d (W m) (pre ++ r0) (pre ++ r1).
Proof.
  intros Fo Hb He E1 Ex Ha Hc Hr Ht Hfit. pose proof Ex as [X1 X2 X3]. pose proof Hb as [Hp _]%byte_list_app.
  pose proof (ctx_focus HASH_SIZE _ _ _ _ _ _ _ _ m r1 (fo_ctx _ _ _ _ _ _ _ _ _ _ _ Fo) E1) as Em.
  assert (byte_list (pre ++ r1)) as Hb1 by by apply byte_list_app.
  destruct (Hfit (pre ++ r1) Hb1 ltac:(by rewrite Em)) as [Hl Hf].
  destruct (walk_reaches HASH_SIZE h root d fuel t ts k G W pre e f m r1 Fo Ex E1 Hc Hr Hl)
    as (t' & seg & k' & E & Hseg & Er & Ek & Ga & Wa & pa & ea & fa & ma & ra & Fa & Epa & Hea & St & EWa).
  { rewrite length_app in Hf. destruct e; lia. }
  exists t', seg, k'. split; [exact E|]. split; [done|]. split; [split|split].
  - cbn [located stack app]. exists Ga, Wa, pa, ea, fa, ma, ra. split_and!; done.
  - cbn [trailing stack app]. apply trail_app. eexists. split; [exact Hseg|].
    eapply trail_enters; [apply Fo|exact He|done..].
  - done.
  - by rewrite Em.
  - by apply ahead_app.
  - intros key' Hk' Hin Ha'. destruct (below_or_not pre e key') as [Hq|Hq].
    + destruct Hq as (q & -> & Hq). rewrite (ctx_focus HASH_SIZE _ _ _ _ _ _ _ _ m q (fo_ctx _ _ _ _ _ _ _ _ _ _ _ Fo) Hq) in Hin.
      apply byte_list_app in Hk' as [_ Hbq]. destruct (X3 q Hbq Hin) as [->|?]; [by left|right]. by apply ahead_app.
    + right. eapply (ahead_enters HASH_SIZE); [apply Fo|exact Hb|done|done|exact He|done|done|done].
Qed.

(** The keys of a node take its branches. *)
Lemma node_key_branch t ts G W pre e f m n y : focus h root t ts G W pre e f m -> is_leaf h root t = false ->
  body (h (t_node t)) = OTrie n -> byte_list (pre ++ y) -> enters e y -> is_Some (W m (pre ++ y)) ->
  exists x, y = compressed n ++ x /\ isset n (branch x) = true.
Proof.
  intros Fo Hl Hb Hy He Hin.
  destruct (focus_cases _ _ _ _ _ _ _ _ _ _ _ Fo) as [(Hl' & _)|(_ & n' & F & M & Hb' & Hw & _ & HR & _ & _ & _ & _ & Hm & _)]; [congruence|].
  assert (n' = n) as -> by congruence.
  destruct (node_keys _ _ _ _ _ _ _ _ _ _ _ _ _ _ Fo Hb Hl Hm HR) as [_ K2].
  destruct (K2 (pre ++ y) Hy Hin) as (x & l & Ex & El & _); [by exists y|]. apply app_inv_head in Ex as ->.
  exists x. split; [done|]. apply byte_list_app in Hy as [_ [_ Hx]%byte_list_app].
  by apply (link_some HASH_SIZE n _ l Hw (byte_branch x Hx) El).
Qed.

Lemma moved_found d w key0 key c : standing c key w -> neighbour d w key0 key -> rest (trie.keys c) = [] ->
  moved d w key0 (Some c).
Proof. intros S N Er. exists c. split; [done|]. left. by exists key. Qed.

(** What [TrieNode::next] and [prev] answer for a branch. *)
Definition sought (d : bool) (n : node) (b : Z) : Z := if d then TrieNode.next n b else TrieNode.prev n b.

Lemma sought_spec d n b : wf HASH_SIZE n -> -1 <= b <= 255 -> isset n b = false ->
  (sought d n b = OUT_OF_RANGE /\ forall x, -1 <= x <= 255 -> isset n x = true -> ~ beyond_branch d b x) \/
  (sought d n b <> OUT_OF_RANGE /\ -1 <= sought d n b <= 255 /\ isset n (sought d n b) = true /\ beyond_branch d b (sought d n b) /\
    forall x, -1 <= x <= 255 -> isset n x = true -> beyond_branch d b x -> x = sought d n b \/ beyond_branch d (sought d n b) x).
Proof.
  intros W Hb Hs. unfold sought, beyond_branch, OUT_OF_RANGE. destruct d.
  - destruct (next_least_key n (wf_groups _ _ W) b Hb) as [[E Hno]|(Hr & Sn & Hl)]; [left|right]; unfold OUT_OF_RANGE in *.
    + split; [done|]. intros x Hx Sx Hlt. by rewrite Hno in Sx by lia.
    + split_and!; try (done || lia). intros x Hx Sx Hlt. destruct (Z.lt_trichotomy x (TrieNode.next n b)) as [H|[->|H]]; [|by left|by right].
      by rewrite Hl in Sx by lia.
  - destruct (prev_greatest_key n (wf_groups _ _ W) b Hb) as [[E Hno]|(Hr & Sn & Hl)]; [left|right]; unfold OUT_OF_RANGE in *.
    + split; [done|]. intros x Hx Sx Hlt. by rewrite Hno in Sx by lia.
    + split_and!; try (done || lia). intros x Hx Sx Hlt. destruct (Z.lt_trichotomy x (TrieNode.prev n b)) as [H|[->|H]]; [by right|by left|].
      by rewrite Hl in Sx by lia.
Qed.

(** A step at a node where the search found no branch. *)
Lemma step_missing d fuel t k n : is_leaf h root t = false -> t_trie h t = n -> t_cmp t <> 0 -> t_prefix t = compressed_len n ->
  step d fuel t k =
    let kk := append_key (compressed n) (resize_key (t_keypos t) k) in
    let s := sought d n (t_branch_key t) in
    if s =? OUT_OF_RANGE then Some (false, [t], kk)
    else let t := set_idx (array_index n s) (set_branch (u8 s) (set_cmp 0 t)) in
      let '(ch, k) := child h root t kk in
      '(seg, k) ← walk d fuel ch k; Some (true, seg ++ [t], k).
Proof.
  intros Hl <- Hc Ep. unfold trieiter.step, trieiter.walk, sought. destruct d; unfold trie.next, trie.prev;
    rewrite Hl, (proj2 (Z.eqb_neq _ _) Hc), Ep, Z.ltb_irrefl; done.
Qed.

(** The extreme key below the next branch of a node, or behind the node. *)
Lemma next_missing_branch d fuel t ts k G W pre e f m n r : focus h root t ts G W pre e f m -> is_leaf h root t = false ->
  body (h (t_node t)) = OTrie n -> isset n (branch r) = false -> t_cmp t <> 0 -> byte_list (pre ++ compressed n ++ r) ->
  t_prefix t = compressed_len n -> t_branch_key t = branch r ->
  trail (pre ++ compressed n ++ r) (Z.of_nat (length pre)) ts 0 -> take (length pre) (cur k) = pre -> fits fuel (W m) ->
  moved d (W m) (pre ++ compressed n ++ r) (move d fuel (Cursor (t :: ts) k)).
Proof.
  intros Fo Hl Hb Hs Hc Hkey Ep Ebk Ht Hcur Hfit.
  destruct (focus_cases _ _ _ _ _ _ _ _ _ _ _ Fo) as [(Hl' & _)|(_ & n' & F & M & Hb' & Hw & Hcb & HR & HF & Hown & HD & Fo' & Hm & _)]; [congruence|].
  assert (n' = n) as -> by congruence. pose proof (fo_keypos _ _ _ _ _ _ _ _ _ _ _ Fo) as Ek.
  destruct (node_keys _ _ _ _ _ _ _ _ _ _ _ _ _ _ Fo Hb Hl Hm HR) as [K1 K2].
  pose proof (compressed_length HASH_SIZE n Hw) as Hcl. pose proof Hkey as [Hp [_ Hr]%byte_list_app]%byte_list_app.
  pose proof (byte_branch r Hr) as Hbr. destruct (K1 r Hkey) as [He _].
  assert (t_trie h t = n) as Et by (unfold t_trie, trie_at; by rewrite Hb).
  pose proof (step_missing d fuel t (Keys (cur k) [] (dead k)) n Hl Et Hc Ep) as Es. rewrite Ebk in Es. cbv zeta in Es.
  set (kk := append_key (compressed n) (resize_key (t_keypos t) (Keys (cur k) [] (dead k)))) in *.
  assert (cur kk = pre ++ compressed n) as Ekk.
  { unfold kk. cbn [append_key resize_key cur]. by rewrite Ek, Nat2Z.id, Hcur. }
  destruct (sought_spec d n (branch r) Hw Hbr Hs) as [[En Hno]|(Hnr & Hbs & Ss & Hbb & Hnext)].
  - rewrite En in Es. eapply (resume_above d fuel t t ts k kk); try done.
    + intros x Hx Hex Hin Ha. destruct (node_key_branch _ _ _ _ _ _ _ _ _ x Fo Hl Hb Hx Hex Hin) as (y & -> & Sy).
      apply ahead_app in Ha. apply byte_list_app in Hx as [_ [_ Hy]%byte_list_app]. pose proof (byte_branch y Hy) as Hyr.
      pose proof (ahead_branch_inv d r y Hr Hy Ha) as Hi. apply (Hno _ Hyr Sy).
      assert (branch y <> branch r) by congruence. destruct d; unfold beyond_branch in *; lia.
    + by rewrite Ekk, take_app_length.
  - set (b := sought d n (branch r)) in *. rewrite (proj2 (Z.eqb_neq _ _) Hnr) in Es.
    assert (exists l, link n b = Some l) as [l El] by (rewrite (link_isset HASH_SIZE), Ss by (done || lia); by eexists).
    destruct (rep_extreme HASH_SIZE h d l _ _ (HR b l Hbs El)) as [r1 Ex].
    assert (forall x, byte_list x -> branch x = branch r -> is_Some (W m (pre ++ compressed n ++ x)) -> ~ ahead d r x) as Hgt.
    { intros x Hx Eb Hin _. destruct (node_key_branch _ _ _ _ _ _ _ _ _ (compressed n ++ x) Fo Hl Hb) as (y & Ey & Sy).
      - by rewrite !byte_list_app.
      - apply K1. by rewrite !byte_list_app.
      - done.
      - apply app_inv_head in Ey as ->. congruence. }
    pose proof (branch_neighbour HASH_SIZE h root d t ts G W pre e f m n F M (branch r) b l r r1 Fo Hb Hl Hw Hm HR HF eq_refl Hkey
      Hgt Hbs El Hbb Hnext Ex) as Ne.
    set (t1 := set_idx (array_index n b) (set_branch (u8 b) (set_cmp 0 t))) in *.
    pose proof (enter_child HASH_SIZE h root d fuel t t1 ts n F M G W pre e f m b l kk r r1 Fo Hl Hb Hw Hcb HR HF Hown HD Fo' Hm
      Hbs El Ex Ne Ekk eq_refl eq_refl eq_refl eq_refl eq_refl eq_refl) as En.
    destruct (child h root t1 kk) as [ch k1].
    destruct En as (t' & seg & k2 & E & Er2 & Ek2 & _ & St).
    { change (t_prefix t1) with (t_prefix t). rewrite Ep. lia. }
    { change (t_prefix t1) with (t_prefix t). rewrite Ep, Ek, length_app. lia. }
    { by rewrite Ek. }
    { done. }
    rewrite E in Es. cbn [mbind option_bind app] in Es.
    assert (move d fuel (Cursor (t :: ts) k) = Some (Cursor ((t' :: seg ++ [t1]) ++ ts) k2)) as ->.
    { rewrite move_climb. cbn [stack length no_rest trie.keys climb]. by rewrite Es. }
    apply (moved_found d (W m) _ (pre ++ compressed n ++ r1)); [|exact Ne|done].
    assert (t1 = set_branch (u8 b) t1) as E1 by done. rewrite E1 at 1. apply St.
    intros c Hc1. rewrite app_assoc, lookup_app_r, Nat.sub_diag in Hc1 by done.
    destruct Ex as [X1 [v X2] _]. assert (branch r1 = b) as Eb by (by eapply (child_branch HASH_SIZE h n F M)).
    destruct r1 as [|c1 r1]; [done|]. simpl in Hc1, Eb. injection Hc1 as ->. subst c.
    apply list.Forall_cons in X1 as [? _]. apply wrap_small. change (2 ^ 8) with 256. lia.
Qed.

(** ** After a search that failed *)

(** Strings that part inside the second one compare like their continuations. *)
Lemma lex_parts a b x : (common_prefix a b < length b)%nat -> lex a (b ++ x) = lex a b /\ lex a b <> 0.
Proof.
  revert b. induction a as [|y a IH]; intros [|z b]; cbn [common_prefix length lex app]; try (intros; lia).
  destruct (Z.eqb_spec y z) as [->|Hne]; [rewrite Z.ltb_irrefl; intros; apply IH; lia|].
  destruct (Z.ltb_spec y z); destruct (Z.ltb_spec z y); lia.
Qed.

(** The side of a comparison. *)
Definition before (d : bool) (c : Z) : bool := if d then c <? 0 else 0 <? c.

Lemma before_ahead d a b : before d (lex a b) = true <-> ahead d a b.
Proof. unfold before, ahead. pose proof (lex_flip a b). destruct d; rewrite Z.ltb_lt; lia. Qed.

(** The search stopped in a leaf or inside a prefix. *)
Definition inside (t : transition) : Prop := is_leaf h root t = true \/ t_prefix t < compressed_len (t_trie h t).

Lemma step_inside d fuel t k : t_cmp t <> 0 -> inside t ->
  if before d (t_cmp t) then
    step d (S fuel) t k = ('(seg, k) ← walk d (S fuel) t (resize_key (t_keypos t) k); Some (true, seg, k))
  else exists k', step d (S fuel) t k = Some (false, [t], k') /\ (k' = k \/ k' = resize_key (t_keypos t) k).
Proof.
  intros Hc Hin. destruct (is_leaf h root t) eqn:Hl.
  - rewrite (walk_leaf h root d fuel t) by done.
    assert (leaf_step h t (resize_key (t_keypos t) k) = leaf_step h t k) as ->.
    { unfold leaf_step, resize_key. cbn [cur rest dead]. by rewrite take_take, Nat.min_id. }
    unfold trieiter.step, before. destruct d; unfold trie.next, trie.prev; rewrite Hl.
    + destruct (t_cmp t <? 0); [by destruct (leaf_step h t k)|]. exists k. by split; [|left].
    + destruct (0 <? t_cmp t); [by destruct (leaf_step h t k)|]. exists k. by split; [|left].
  - destruct Hin as [?|Hp]; [congruence|]. apply Z.ltb_lt in Hp. unfold trieiter.step, trieiter.walk, before.
    destruct d; unfold trie.next, trie.prev; rewrite Hl, (proj2 (Z.eqb_neq _ _) Hc), Hp.
    + destruct (Z.ltb_spec (t_cmp t) 0), (Z.ltb_spec 0 (t_cmp t)); try lia; [done|]. eexists. by split; [|right].
    + destruct (Z.ltb_spec (t_cmp t) 0), (Z.ltb_spec 0 (t_cmp t)); try lia; [|done]. eexists. by split; [|right].
Qed.

(** All keys below such a transition lie on the same side. *)
Lemma inside_side t ts k G W pre e f m r : focus h root t ts G W pre e f m -> stopped h root t k pre r -> enters e r ->
  byte_list r -> success h root t = false -> inside t ->
  t_cmp t <> 0 /\ forall y, byte_list y -> is_Some (m y) -> lex r y = t_cmp t.
Proof.
  intros Fo St He Hr Hv Hin. destruct (stopped_reads HASH_SIZE h root _ _ _ _ _ _ _ _ _ _ Fo St He Hr) as (Hs & _).
  destruct St as [S1 _ _ S4]. unfold content in *.
  destruct (focus_cases _ _ _ _ _ _ _ _ _ _ _ Fo) as [(Hl & l & Hb & Hok & Hm)|(Hl & n & F & M & Hb & Hw & Hcb & _ & _ & _ & _ & _ & Hm & _)];
    rewrite Hl in *.
  - unfold t_leaf, leaf_at in *. rewrite Hb in *. unfold success in Hv. rewrite Hl, andb_true_r in Hv. apply Z.eqb_neq in Hv.
    split; [done|]. intros y Hy [v Hmy]. rewrite Hm in Hmy by done. destruct (decide _) as [->|]; [done|discriminate Hmy].
  - destruct Hin as [?|Hp]; [congruence|]. rewrite (proj2 (Z.ltb_lt _ _) Hp) in S4. unfold t_trie, trie_at in *. rewrite Hb in *.
    pose proof (compressed_length HASH_SIZE n Hw) as Hcl. rewrite S4.
    assert (common_prefix r (compressed n) < length (compressed n))%nat as Hlt by lia. split; [by apply (lex_parts _ _ [])|].
    intros y Hy [v Hmy]. rewrite Hm in Hmy by done. apply node_map_some in Hmy as (x & l & -> & _). by apply lex_parts.
Qed.

(** The keys behind a hole enter it. *)
Lemma key_enters t ts G W pre e f m r q : focus h root t ts G W pre e f m -> enters e r -> byte_list r -> byte_list q ->
  is_Some (m q) -> enters e q.
Proof.
  intros Fo He Hr Hq [v Hv]. destruct e as [b|]; [|done]. simpl in *. pose proof (byte_branch r Hr).
  rewrite <- (fo_first _ _ _ _ _ _ _ _ _ _ _ Fo b eq_refl). eapply (rep_first_byte HASH_SIZE); [apply Fo|done|done|].
  rewrite (fo_first _ _ _ _ _ _ _ _ _ _ _ Fo b eq_refl). lia.
Qed.

(** The move when the search stopped in a leaf or inside a prefix. *)
Lemma move_inside d fuel t ts k G W pre e f m r : focus h root t ts G W pre e f m -> stopped h root t k pre r -> enters e r ->
  byte_list (pre ++ r) -> success h root t = false -> inside t -> trail (pre ++ r) (Z.of_nat (length pre)) ts 0 -> fits fuel (W m) ->
  moved d (W m) (pre ++ r) (move d fuel (Cursor (t :: ts) k)).
Proof.
  intros Fo St He Hb Hv Hin Ht Hfit. pose proof Hb as [Hp Hr]%byte_list_app.
  destruct (inside_side t ts k G W pre e f m r Fo St He Hr Hv Hin) as [Hc Hside].
  pose proof (fo_keypos _ _ _ _ _ _ _ _ _ _ _ Fo) as Ek. pose proof (st_cur _ _ _ _ _ _ St) as Ecur.
  assert (forall y, take (length pre) (pre ++ y) = pre) as Etk by (intros; by rewrite take_app_length).
  destruct (rep_extreme HASH_SIZE h d _ f m (fo_rep _ _ _ _ _ _ _ _ _ _ _ Fo)) as [r1 Ex].
  pose proof (key_enters t ts G W pre e f m r r1 Fo He Hr (ex_bytes _ _ _ Ex) (ex_in _ _ _ Ex)) as He1.
  assert (exists fuel', fuel = S fuel') as [fuel' ->].
  { destruct (Hfit (pre ++ r1)) as [_ Hf]; [apply byte_list_app; split; [done|apply Ex]| |destruct fuel; [lia|by eexists]].
    rewrite (ctx_focus HASH_SIZE _ _ _ _ _ _ _ _ _ _ (fo_ctx _ _ _ _ _ _ _ _ _ _ _ Fo) He1). apply Ex. }
  pose proof (step_inside d fuel' t (Keys (cur k) [] (dead k)) Hc Hin) as Es.
  pose proof (Hside r1 (ex_bytes _ _ _ Ex) (ex_in _ _ _ Ex)) as Hs1.
  destruct (before d (t_cmp t)) eqn:Eb.
  - rewrite <- Hs1, before_ahead in Eb.
    destruct (resume_here d (S fuel') t ts (resize_key (t_keypos t) (Keys (cur k) [] (dead k))) G W pre e f m r r1 Fo Hb He He1 Ex Eb)
      as (t' & seg & k' & E & Er & Sd & Ne); try done.
    { cbn [resize_key cur]. by rewrite Ek, Nat2Z.id, Ecur, Etk. }
    rewrite E in Es. cbn [mbind option_bind] in Es. rewrite move_climb. cbn [stack length no_rest trie.keys climb]. rewrite Es.
    by eapply moved_found.
  - destruct Es as (k' & Es & Hk').
    apply (resume_above d (S fuel') t t ts k k' G W pre e f m r Fo Hb He); try done.
    + intros x Hx Hex Hin' Ha. rewrite (ctx_focus HASH_SIZE _ _ _ _ _ _ _ _ _ _ (fo_ctx _ _ _ _ _ _ _ _ _ _ _ Fo) Hex) in Hin'.
      apply byte_list_app in Hx as [_ Hx]. apply before_ahead in Ha. rewrite Hside in Ha by done. congruence.
    + destruct Hk' as [-> | ->]; cbn [resize_key cur]; rewrite ?Ek, ?Nat2Z.id, ?take_take, ?Nat.min_id; by rewrite Ecur, Etk.
    + by destruct Hk' as [-> | ->].
Qed.

(** No key of the map goes on where [key] ends. *)
Definition no_longer (m : keymap) (key : list Z) : Prop :=
  forall q, byte_list q -> is_Some (m q) -> key `prefix_of` q -> q = key.

(** The move from where a search ended, at a key of the trie or not. *)
Lemma seek_moves d fuel c key f m : rep h root f m -> standing c key m -> byte_list key -> no_longer m key -> fits fuel m ->
  moved d m key (move d fuel c).
Proof.
  intros R [L T] Hb Hno Hfit. destruct (is_valid h root c) eqn:V; [by apply (move_moves HASH_SIZE h root d fuel c key f m)|].
  unfold located in L. destruct c as [[|t ts] k]; cbn [stack trie.keys] in *; [done|].
  destruct L as (G & W & pre & e & f0 & m0 & r & Fo & -> & He & St & EW). cbn [is_valid stack trailing] in *.
  rewrite (fo_keypos _ _ _ _ _ _ _ _ _ _ _ Fo) in T.
  assert (fits fuel (W m0)) as Hfit' by (intros q Hq; rewrite EW by done; by apply Hfit).
  eapply moved_ext; [|exact EW]. pose proof Hb as [Hp Hr]%byte_list_app.
  destruct (focus_cases _ _ _ _ _ _ _ _ _ _ _ Fo) as [(Hl & _)|(Hl & n & F & M & Hbn & Hw & Hcb & HR & HF & _ & _ & _ & Hm & _)].
  { eapply move_inside; try done. by left. }
  assert (t_trie h t = n) as Et by (unfold t_trie, trie_at; by rewrite Hbn).
  destruct (Z.ltb_spec (t_prefix t) (compressed_len n)) as [Hlt|Hge]; [eapply move_inside; try done; right; by rewrite Et|].
  destruct St as [S1 S2 S3 S4]. unfold content in *. rewrite Hl, Et in *. pose proof (compressed_length HASH_SIZE n Hw) as Hcl.
  destruct (common_prefix_full r (compressed n)) as [r' ->]; [lia|]. rewrite common_prefix_app in *.
  rewrite (proj2 (Z.ltb_ge _ _)) in S4 by lia. rewrite S3, drop_app_length in S4. destruct r' as [|b r'].
  - exfalso. destruct S4 as [Hnone _]. destruct (rep_inhabited HASH_SIZE h _ _ _ (fo_rep _ _ _ _ _ _ _ _ _ _ _ Fo)) as (q & v & Hq & Hv).
    pose proof (key_enters t ts G W pre e f0 m0 _ q Fo He Hr Hq (mk_is_Some _ _ Hv)) as Heq.
    assert (is_Some (m (pre ++ q))) as Hin.
    { rewrite <- EW by by apply byte_list_app. rewrite (ctx_focus HASH_SIZE _ _ _ _ _ _ _ _ _ _ (fo_ctx _ _ _ _ _ _ _ _ _ _ _ Fo) Heq). by exists v. }
    rewrite Hm in Hv by done. apply node_map_some in Hv as (x & l & -> & El & _). rewrite app_nil_r in Hno.
    assert (pre ++ compressed n ++ x = pre ++ compressed n) as Heqk.
    { apply Hno; [by apply byte_list_app|done|]. exists x. by rewrite <- app_assoc. }
    apply app_inv_head in Heqk. rewrite <- (app_nil_r (compressed n)) in Heqk at 2. apply app_inv_head in Heqk as ->.
    rewrite (link_isset HASH_SIZE) in El by done. change (isset n (branch [])) with (has_none n) in El. by rewrite Hnone in El.
  - destruct S4 as (El & Ebk & Ecmp). pose proof Hr as [_ [Hb0 _]%list.Forall_cons]%byte_list_app.
    eapply next_missing_branch; try done.
    + rewrite (link_isset HASH_SIZE) in El by (done || lia). cbn [branch]. by destruct (isset n b).
    + by rewrite Ecmp.
    + lia.
    + by rewrite S2, take_app_length.
Qed.

(** C6: From where a search for a key ended, be it in the trie or not, [next] goes to the
    least greater key and [prev] to the greatest smaller one, if the key does not end
    inside of a longer key of the trie. The search started from a new cursor or from one an
    earlier operation left, but not, without being valid, exactly at this key
    ([prev_after_longer_key_stays]). *)
Theorem find_move_to_neighbour cfg d fuel c key f m : rep h root f m -> byte_list key -> no_longer m key ->
  Z.of_nat (length key) < 2 ^ 16 -> (length key + 2 <= fuel)%nat -> fits fuel m ->
  (stack c = [] \/ positioned HASH_SIZE h root c m /\ (key <> cur (trie.keys c) \/ is_valid h root c = true)) ->
  trailing (cur (trie.keys c)) c ->
  exists c', (c ← find_key cfg h root fuel key c; move d fuel c) = Some c' /\
    ((exists key', neighbour d m key key' /\ standing c' key' m /\ is_valid h root c' = true /\ cur (trie.keys c') = key' /\
        value h root c' = option_map snd (m key')) \/
     (is_valid h root c' = false /\ stack c' = [] /\ forall key', byte_list key' -> is_Some (m key') -> ~ ahead d key key')).
Proof.
  intros R Hb Hno H1 H2 Hfit Hc Ht.
  destruct (find_key_locates HASH_SIZE cfg h root fuel key c f m R Hb H1 H2 Hc) as (c1 & -> & L & Tr).
  destruct (seek_moves d fuel c1 key f m R (Build_standing _ _ _ _ _ _ L (Tr Ht)) Hb Hno Hfit) as (c' & E & M).
  exists c'. split; [exact E|]. destruct M as [(key' & Sd & N & _)|[Es Hn]]; [left|right].
  - exists key'. split; [done|]. split; [done|]. eapply (standing_reads HASH_SIZE); [done|apply N|apply N].
  - split; [unfold is_valid; by rewrite Es|done].
Qed.

End with_cfg.

Lemma find_move_to_neighbour_witness : exists c,
  (c ← find_key plain sample_heap sample_root 9 [97; 65] fresh_cursor; trieiter.move sample_heap sample_root true 9 c) = Some c /\
  cur (trie.keys c) = [97; 98] /\ value sample_heap sample_root c = Some [121].
Proof.
  assert (no_longer sample_map [97; 65]) as Hno.
  { intros q _ [->| ->]%sample_keys Hp; [by apply prefix_length in Hp; simpl in Hp; lia|]. by destruct Hp as [x [= <-]]. }
  destruct (find_move_to_neighbour 0 sample_heap sample_root plain true 9 fresh_cursor [97; 65] sample_pages sample_map sample_rep
    ltac:(forall_lia) Hno ltac:(reflexivity) ltac:(simpl; lia) sample_fits (or_introl eq_refl) I)
    as (c & E & [(key' & N & _ & _ & Hc & Hv)|(_ & _ & Hno')]).
  - exists c. destruct (proj1 (sample_keys key') (ne_in _ _ _ _ N)) as [->| ->].
    + pose proof (ne_ahead _ _ _ _ N) as Ha. cbn in Ha. lia.
    + by split_and!.
  - destruct (Hno' [97; 98]); [forall_lia|by eexists|cbn; lia].
Defined.

(** the condition on the cursor is needed: after a search for [abc] that failed, a search
    for [ab] is skipped, and [prev] goes to [ab] itself, not to [a]. *)
Theorem prev_after_longer_key_stays :
  (c ← find_key plain sample_heap sample_root 9 [97; 98; 99] fresh_cursor; c ← find_key plain sample_heap sample_root 9 [97; 98] c;
   c ← trieiter.move sample_heap sample_root false 9 c; Some (cur (trie.keys c))) = Some [97; 98].
Proof. reflexivity. Qed.
End trieseek.

