(* ===== verification/TrieStore.v ===== *)
(** * TrieStore: copy-on-write along the path of a cursor

    [update] makes the page of a transition writable: pages of other transactions
    are copied, up to the root. The trie it leaves is the same, no page of another
    transaction changes, and every node still fits its page. The facts are stated
    for the path ([ctx]) above the place that is going to change. *)
From S2P Require Import Prelude Bits Util Node Leaf NodeFacts NodeUpdate NodeCreate Memory MemoryFacts.
From S2P Require Import Trie TrieWrite TrieRep.

Module triestore.
Import util.
Export triewrite trierep.

(** ** Links of aligned offsets *)

Lemma mask_out p m : 0 <= m < 8 -> p mod 8 = 0 -> 0 <= p < 2 ^ 64 ->
  Z.land p (u64 (Z.lnot m)) = p.
Proof.
  intros Hm Hp Hr. apply Z.bits_inj'. intros i Hi. unfold wrap. rewrite Z.land_spec.
  destruct (Z.ltb_spec i 64).
  - rewrite Z.mod_pow2_bits_low, Z.lnot_spec by lia. destruct (Z.ltb_spec i 3).
    + replace (Z.testbit p i) with false; [done|].
      rewrite (Z.div_mod p 8), Hp, Z.add_0_r by lia. change 8 with (2 ^ 3).
      rewrite Z.mul_comm, Z.mul_pow2_bits_low by lia. done.
    + replace (Z.testbit m i) with false; [by rewrite andb_true_r|].
      symmetry. destruct (Z.eq_dec m 0) as [->|]; [by rewrite Z.bits_0|].
      apply Z.bits_above_log2; [lia|]. enough (Z.log2 m < 3) by lia. apply Z.log2_lt_pow2; lia.
  - rewrite Z.mod_pow2_bits_high, andb_false_r by lia. symmetry.
    destruct (Z.eq_dec p 0) as [->|]; [by rewrite Z.bits_0|].
    apply Z.bits_above_log2; [lia|]. enough (Z.log2 p < 64) by lia. apply Z.log2_lt_pow2; lia.
Qed.

Lemma land_aligned p m : 0 <= m < 8 -> p mod 8 = 0 -> Z.land p m = 0.
Proof.
  intros Hm Hp. rewrite (Z.div_mod p 8), Hp, Z.add_0_r by lia. apply Z.bits_inj'. intros i Hi.
  rewrite Z.land_spec, Z.bits_0. change 8 with (2 ^ 3). destruct (Z.ltb_spec i 3).
  - by rewrite Z.mul_comm, Z.mul_pow2_bits_low by lia.
  - destruct (Z.eq_dec m 0) as [->|]; [by rewrite Z.bits_0, andb_false_r|].
    rewrite (Z.bits_above_log2 m); [by rewrite andb_false_r|lia|].
    enough (Z.log2 m < 3) by lia. apply Z.log2_lt_pow2; lia.
Qed.

Lemma link_to_spec p t : p mod 8 = 0 -> 0 <= p < 2 ^ 64 ->
  target (link_to p t) = p /\ points_leaf (link_to p t) = match t with LEAF => true | TRIE => false end.
Proof.
  intros Hp Hr. unfold target, points_leaf, link_to, Offset.to_uint64, Offset.type, Offset.set_type,
    Offset.TYPE_MASK, Offset.RELATIVE_FLAG.
  rewrite (mask_out p 3) by lia. rewrite !Z.land_lor_distr_l.
  rewrite (mask_out p (Z.lor 3 4)) by (done || lia). rewrite (land_aligned p 3) by lia.
  destruct t; cbn [type_bits]; split; try done; by rewrite Z.lor_0_r.
Qed.

(** What the traits of a storage fix: the classes of page sizes increase, and the
    largest class takes any trie node. *)
Record layout (HASH_SIZE PAGE_HEADER PAGE_COUNT : Z) (PAGE_SIZES : Z -> Z) : Prop := {
  ly_hash : 0 <= HASH_SIZE <= 512;
  ly_count : 0 < PAGE_COUNT;
  ly_header : 0 <= PAGE_HEADER;
  ly_mono : forall i j, 0 <= i -> i < j -> j < PAGE_COUNT -> PAGE_SIZES i < PAGE_SIZES j;
  ly_max : PAGE_SIZES (PAGE_COUNT - 1) < 2 ^ 16;
  ly_trie : MAX_SIZE HASH_SIZE + PAGE_HEADER <= PAGE_SIZES (PAGE_COUNT - 1)
}.

Section with_alloc.
Context {A : Type} `{PA : PageAlloc A}.
Context (HASH_SIZE PAGE_HEADER PAGE_COUNT : Z) (PAGE_SIZES : Z -> Z) (txn : Z).
Hypothesis Lay : layout HASH_SIZE PAGE_HEADER PAGE_COUNT PAGE_SIZES.
Let HASH_SIZE_range : 0 <= HASH_SIZE <= 512 := ly_hash _ _ _ _ Lay.

Abbreviation rep := (trierep.rep HASH_SIZE).
Abbreviation ctx := (trierep.ctx HASH_SIZE).
Abbreviation db := (@triewrite.db A).
Abbreviation alloc_slot := (triewrite.alloc_slot (A := A) txn).
Abbreviation update := (triewrite.update (A := A) txn).

(** The allocator can serve [n] more requests. *)
Fixpoint roomy (n : nat) (a : A) : Prop :=
  match n with
  | O => True
  | S n =>
      (forall s, 0 <= s < PAGE_COUNT -> exists p a', take_page s a = Some (p, a') /\ roomy n a') /\
      (forall s p, 0 <= s < PAGE_COUNT -> exists a', give_page s p a = Some a' /\ roomy n a')
  end.

Lemma roomy_less n m a : (n <= m)%nat -> roomy m a -> roomy n a.
Proof.
  revert m a. induction n as [|n IH]; intros [|m] a H; simpl; try done; [lia|].
  intros [H1 H2]. split; intros s.
  - intros Hs. destruct (H1 s Hs) as (p & a' & E & R). exists p, a'. split; [done|].
    eapply IH; [|exact R]. lia.
  - intros p Hs. destruct (H2 s p Hs) as (a' & E & R). exists a'. split; [done|].
    eapply IH; [|exact R]. lia.
Qed.

(** ** Pages in use *)

Definition obj_size (o : obj) : Z :=
  match o with OTrie n => size n | OLeaf l => LeafNode.size HASH_SIZE l end.

(** A page in use belongs to a class of sizes, and its node fits. *)
Record owned (d : db) (x : Z) : Prop := {
  ow_used : ~ avail (d_alloc d) x;
  ow_slot : 0 <= slot_id (d_heap d x) < PAGE_COUNT;
  ow_fits : obj_size (body (d_heap d x)) + PAGE_HEADER <= PAGE_SIZES (slot_id (d_heap d x))
}.

(** What the operations of a transaction leave alone: pages in use outside of
    [s], and every page another transaction wrote. *)
Record grows (d d' : db) (s : Z -> Prop) : Prop := {
  gr_mono : forall x, avail (d_alloc d') x -> avail (d_alloc d) x;
  gr_frame : forall x, ~ avail (d_alloc d) x -> ~ s x -> d_heap d' x = d_heap d x;
  gr_cow : forall x, ~ avail (d_alloc d) x -> txn_id (d_heap d x) <> txn -> d_heap d' x = d_heap d x;
  gr_page : forall x, ~ avail (d_alloc d) x ->
    slot_id (d_heap d' x) = slot_id (d_heap d x) /\ txn_id (d_heap d' x) = txn_id (d_heap d x)
}.

Lemma grows_refl d s : grows d d s.
Proof. by split. Qed.

Lemma grows_trans d1 d2 d3 s1 s2 (s : Z -> Prop) : grows d1 d2 s1 -> grows d2 d3 s2 ->
  (forall x, ~ avail (d_alloc d1) x -> s1 x \/ s2 x -> s x) -> grows d1 d3 s.
Proof.
  intros [M1 F1 C1 P1] [M2 F2 C2 P2] E.
  assert (forall x, ~ avail (d_alloc d1) x -> ~ avail (d_alloc d2) x) as Ha by (intros x; auto).
  split; [auto| | |].
  - intros x Hx Hn. rewrite F2, F1; auto.
  - intros x Hx Ht. destruct (P1 x Hx) as [_ Et]. rewrite C2, C1; auto. by rewrite Et.
  - intros x Hx. destruct (P1 x Hx) as [<- <-]. by apply P2, Ha.
Qed.

Lemma grows_weaken d1 d2 s1 (s : Z -> Prop) : grows d1 d2 s1 ->
  (forall x, ~ avail (d_alloc d1) x -> s1 x -> s x) -> grows d1 d2 s.
Proof. intros [M F C P] E. split; auto. Qed.

Lemma grows_owned d d' s x : grows d d' s -> owned d x -> ~ s x -> owned d' x.
Proof. intros [M F C P] [O1 O2 O3] Hs. split; rewrite ?F by done; auto. Qed.

(** ** The elementary steps *)

Lemma alloc_slot_spec n s u d : roomy (S n) (d_alloc d) -> 0 <= s < PAGE_COUNT ->
  exists p a, alloc_slot s u d =
      Some (p, Db (upd (d_heap d) p (Page s u txn (body (d_heap d p)))) (d_root d) a) /\
    roomy n a /\ avail (d_alloc d) p /\ ~ avail a p /\ p mod 8 = 0 /\ 0 < p < 2 ^ 64 /\
    forall x, avail a x -> avail (d_alloc d) x.
Proof.
  intros [R _] Hs. destruct (R s Hs) as (p & a & E & R'). exists p, a. unfold triewrite.alloc_slot.
  rewrite E. simpl. pose proof (take_avail _ _ _ _ E) as []. pose proof (take_aligned _ _ _ _ E) as [].
  split_and!; try (done || lia). intros x. by apply (take_mono _ _ _ _ _ E).
Qed.

Lemma free_node_spec n p d : roomy (S n) (d_alloc d) -> 0 <= slot_id (d_heap d p) < PAGE_COUNT ->
  exists a, free_node p d = Some (Db (d_heap d) (d_root d) a) /\ roomy n a /\
    forall x, avail a x -> avail (d_alloc d) x.
Proof.
  intros [_ R] Hs. destruct (R _ p Hs) as (a & E & R'). exists a. unfold triewrite.free_node. rewrite E. simpl.
  split_and!; try done. intros x. by apply (give_mono _ _ _ _ _ E).
Qed.

(** A page that was available gets a body. *)
Lemma fresh_grows d p s u b a : avail (d_alloc d) p -> (forall x, avail a x -> avail (d_alloc d) x) ->
  grows d (Db (upd (d_heap d) p (Page s u txn b)) (d_root d) a) (fun _ => False).
Proof.
  intros Hp Ha. split; cbn [d_heap d_alloc]; [done|..]; intros x Hx; rewrite upd_ne by congruence; done.
Qed.

(** ** Storing a link *)

Definition place_page (pl : place) (x : Z) : Prop := match pl with Root => False | Slot p _ => x = p end.
Definition writable (d : db) (pl : place) : Prop :=
  match pl with Root => True | Slot p _ => txn_id (d_heap d p) = txn end.

Lemma set_body_other p b h x : x <> p -> set_body p b h x = h x.
Proof. intros. unfold set_body. by rewrite upd_ne. Qed.

Lemma set_body_same p b h : body (set_body p b h p) = b.
Proof. unfold set_body. by rewrite upd_eq. Qed.

Lemma set_body_page p b h x :
  slot_id (set_body p b h x) = slot_id (h x) /\ txn_id (set_body p b h x) = txn_id (h x).
Proof. unfold set_body, upd. by destruct (Z.eqb_spec x p) as [->|]. Qed.

Lemma write_grows d p b : txn_id (d_heap d p) = txn -> grows d (write p b d) (fun x => x = p).
Proof.
  intros Ht. split; cbn [write d_heap d_alloc]; [done|..]; intros x Hx.
  - intros Hn. by apply set_body_other.
  - intros Hn. apply set_body_other. by intros ->.
  - apply set_body_page.
Qed.

Lemma write_owned d p b x : owned d x -> (x = p -> obj_size b <= obj_size (body (d_heap d x))) ->
  owned (write p b d) x.
Proof.
  intros [O1 O2 O3] Hs. split; cbn [write d_heap d_alloc]; [done|by rewrite (proj1 (set_body_page _ _ _ _))|].
  rewrite (proj1 (set_body_page _ _ _ _)). destruct (Z.eq_dec x p) as [->|Hn].
  - rewrite set_body_same. specialize (Hs eq_refl). lia.
  - by rewrite set_body_other.
Qed.

Lemma store_spec d ts pl l G W pre e :
  ctx (d_heap d) (d_root d) ts pl G W pre e -> writable d pl ->
  exists G' W', ctx (d_heap (store pl l d)) (d_root (store pl l d)) ts pl G' W' pre e /\
    (forall x, G' x -> G x) /\ (forall m key, byte_list key -> W' m key = W m key) /\
    load (d_heap (store pl l d)) (d_root (store pl l d)) pl = l /\
    grows d (store pl l d) (place_page pl) /\
    (forall x, owned d x -> owned (store pl l d) x) /\
    d_alloc (store pl l d) = d_alloc d.
Proof.
  intros C Hw. destruct C as [|t ts n b F M G W pre e C lnk H1 H2 H3 H4 H5 H6 H7 H8 H9 H10 H11 H12 H13 H14].
  { exists (fun _ => False), (fun m => m). split; [constructor|]. split_and!; [done|done|done| | |done].
    - by split.
    - by intros x []. }
  unfold link_place in *. cbn [store writable] in *. unfold trie_at. rewrite H5.
  destruct (NodeCreate.set_link_spec HASH_SIZE HASH_SIZE_range n b l H6 H9 H10) as (Wr & Is & Sz & Cp & Lk).
  rewrite <- H11 in *. set (n' := set_slot n (t_link_idx t) l) in *.
  set (h' := set_body (t_node t) (OTrie n') (d_heap d)).
  change (Db (set_body (t_node t) (OTrie n') (d_heap d)) (d_root d) (d_alloc d))
    with (write (t_node t) (OTrie n') d).
  assert (body (h' (t_node t)) = OTrie n') as Hb' by apply set_body_same.
  assert (forall x, G x -> h' x = d_heap d x) as Efr.
  { intros x Hx. apply set_body_other. by intros ->. }
  destruct (ctx_frame HASH_SIZE _ h' _ _ _ _ _ _ _ C Efr) as [C' Ld'].
  assert (load h' (d_root d) (t_offset t) = lnk) as El.
  { destruct ts as [|u us]; [|by apply Ld']. assert (t_offset t = Root) as -> by (by inversion C).
    unfold lnk. assert (t_offset t = Root) as -> by (by inversion C). done. }
  assert (forall k l0, -1 <= k <= 255 -> k <> b -> link n' k = Some l0 <-> link n k = Some l0) as Lk'.
  { intros k l0 Hk Hne. rewrite Lk by done. by destruct (Z.eqb_spec k b). }
  assert (array_index n' b = t_link_idx t) as Ei.
  { rewrite H11. by apply (array_index_isset HASH_SIZE). }
  pose proof (ctx_node HASH_SIZE h' (d_root d) t ts n' b F M G W pre e) as N. cbn zeta in N.
  rewrite El, Cp in N. unfold link_place in N.
  eexists _, _. split; [apply N; try done|].
  - intros x Hx. unfold first_byte, trie_at. rewrite H1, <- H3, Hb', Cp.
    rewrite <- (H8 x Hx). unfold first_byte, trie_at. by rewrite H1, <- H3, H5.
  - by rewrite Is.
  - destruct H12 as [S1 S2]. split.
    + intros k l0 Hk Hne Hl0. rewrite Lk' in Hl0 by done. destruct (S1 k l0 Hk Hne Hl0) as (R & Hf & Hp).
      assert (forall x, F k x -> h' x = d_heap d x) as EF.
      { intros x Hx. apply set_body_other. by intros ->. }
      split_and!; [by eapply rep_frame| |done].
      rewrite (first_byte_frame (d_heap d)); [done|]. apply EF. by eapply rep_target.
    + intros k l0 k' l0' x Hk Hk' Hne Hne' Hl0 Hl0'. rewrite Lk' in Hl0, Hl0' by done. by apply (S2 k l0 k' l0').
  - intros k l0 x Hk Hne Hl0. rewrite Lk' in Hl0 by done. by apply (H14 k l0).
  - split_and!.
    + intros x [Hx|[->|(k & l0 & Hk & Hne & Hl & Hx)]]; [by left|right; by left|].
      rewrite Lk' in Hl by done. right. right. by exists k, l0.
    + intros m key Hk. eapply (ctx_replace HASH_SIZE); [exact C|done|]. intros r Hr. unfold node_map.
      destruct (decide _) as [[q ->]|]; [|done]. rewrite drop_app_length.
      apply byte_list_app in Hr as [_ Hq]. rewrite Lk by by apply byte_branch.
      destruct (Z.eqb_spec (branch q) b) as [->|]; [|done]. by rewrite (link_isset HASH_SIZE), H10.
    + cbn [write d_heap d_root load]. unfold trie_at. fold h'. rewrite Hb'.
      specialize (Lk b H9). rewrite Z.eqb_refl, (link_isset HASH_SIZE n' b Wr H9), Is, H10, Ei in Lk.
      by injection Lk.
    + apply write_grows. done.
    + intros x Hx. apply write_owned; [done|]. intros ->. cbn [obj_size]. rewrite H5. cbn [obj_size]. lia.
    + done.
Qed.

(** A path whose pages stay is the same path. *)
Lemma ctx_keep (d d2 : db) ts pl G W pre e : ctx (d_heap d) (d_root d) ts pl G W pre e ->
  (forall x, G x -> d_heap d2 x = d_heap d x) -> d_root d2 = d_root d ->
  ctx (d_heap d2) (d_root d2) ts pl G W pre e /\
  load (d_heap d2) (d_root d2) pl = load (d_heap d) (d_root d) pl.
Proof.
  intros C Eh Er. destruct (ctx_frame HASH_SIZE _ (d_heap d2) _ _ _ _ _ _ _ C Eh) as [C' L]. rewrite Er.
  split; [done|]. destruct ts as [|t ts]; [|by apply L]. inversion C; subst. done.
Qed.

(** ** Copying the path *)

(** A fresh page with a body. *)
Lemma alloc_write_spec n s u b d : roomy (S n) (d_alloc d) -> 0 <= s < PAGE_COUNT ->
  exists p d1, alloc_slot s u d = Some (p, d1) /\ let d2 := write p b d1 in
    d_heap d2 p = Page s u txn b /\ (forall x, x <> p -> d_heap d2 x = d_heap d x) /\
    d_root d2 = d_root d /\ roomy n (d_alloc d2) /\ avail (d_alloc d) p /\ ~ avail (d_alloc d2) p /\
    p mod 8 = 0 /\ 0 < p < 2 ^ 64 /\ grows d d2 (fun _ => False).
Proof.
  intros R Hs. destruct (alloc_slot_spec n s u d R Hs) as (p & a & E & R' & A1 & A2 & A3 & A4 & A5).
  eexists p, _. split; [exact E|]. cbn [write d_heap d_root d_alloc].
  assert (forall x, x <> p -> set_body p b (upd (d_heap d) p (Page s u txn (body (d_heap d p)))) x = d_heap d x) as Ex.
  { intros x Hx. by rewrite set_body_other, upd_ne. }
  split_and!; try (done || lia).
  - unfold set_body. rewrite !upd_eq. done.
  - split; cbn [write d_heap d_alloc]; [done|..]; intros x Hx; rewrite Ex by congruence; done.
Qed.

Lemma place_page_ctx h root ts pl G W pre e x : ctx h root ts pl G W pre e -> place_page pl x -> G x.
Proof. intros C. destruct C; simpl; [done|]. intros ->. right. by left. Qed.

(** Hanging a copy of a node of the path in another path to the same place. *)
Lemma ctx_rehang h h' root root' t ts n p o ts' b F M G W pre e G' W' :
  ctx h root ts (t_offset t) G W pre e ->
  (forall x, e = Some x -> first_byte h (load h root (t_offset t)) = x) ->
  points_leaf (load h root (t_offset t)) = false -> t_node t = target (load h root (t_offset t)) ->
  t_keypos t = Z.of_nat (length pre) -> body (h (t_node t)) = OTrie n -> wf HASH_SIZE n ->
  byte_list (compressed n) -> -1 <= b <= 255 -> isset n b = true -> t_link_idx t = array_index n b ->
  siblings HASH_SIZE h n (t_node t) b F M ->
  ctx h' root' ts' o G' W' pre e -> load h' root' o = link_to p TRIE -> p mod 8 = 0 -> 0 < p < 2 ^ 64 ->
  body (h' p) = OTrie n -> ~ G' p ->
  (forall k l x, -1 <= k <= 255 -> k <> b -> link n k = Some l -> F k x -> h' x = h x /\ x <> p /\ ~ G' x) ->
  ctx h' root' (set_offset o (set_node p t) :: ts') (Slot p (t_link_idx t))
    (fun x => G' x \/ x = p \/ exists k l, -1 <= k <= 255 /\ k <> b /\ link n k = Some l /\ F k x)
    (fun m => W' (node_map (compressed n) (link n) (fun k => if k =? b then m else M k)))
    (pre ++ compressed n) (Some b).
Proof.
  intros C Hf Hl En Ek Hb Hw Hc Hbr Hs Hi [S1 S2] C' El Hp Hp' Hb' Hg HF.
  destruct (link_to_spec p TRIE Hp ltac:(lia)) as [Et Epl].
  apply (ctx_node HASH_SIZE h' root' (set_offset o (set_node p t)) ts' n b F M G' W' pre e);
    cbn [set_offset set_node t_offset t_node t_keypos t_link_idx]; rewrite ?El, ?Et; try done; [lia| | |].
  - intros x Hx. unfold first_byte, trie_at. rewrite Epl, Et, Hb'. rewrite <- (Hf x Hx).
    unfold first_byte, trie_at. by rewrite Hl, <- En, Hb.
  - split; [|done]. intros k l Hk Hne Hlk. destruct (S1 k l Hk Hne Hlk) as (R & Hfb & Hnp).
    assert (forall x, F k x -> h' x = h x) as EF by (intros x Hx; by destruct (HF k l x Hk Hne Hlk Hx)).
    split_and!; [by eapply rep_frame| |].
    + rewrite (first_byte_frame h); [done|]. apply EF. by eapply rep_target.
    + intros Hx. by destruct (HF k l p Hk Hne Hlk Hx) as (_ & ? & _).
  - intros k l x Hk Hne Hlk Hx. by destruct (HF k l x Hk Hne Hlk Hx) as (_ & _ & ?).
Qed.

(** [update] and [update_offset] see a path of this kind afterwards. *)
Record repathed (d d' : db) (ts' : list transition) (o : place) (G : Z -> Prop) (W : keymap -> keymap)
    (pre : list Z) (e : option Z) (l : Z) (n : nat) (G' : Z -> Prop) (W' : keymap -> keymap) : Prop := {
  rp_ctx : ctx (d_heap d') (d_root d') ts' o G' W' pre e;
  rp_map : forall m key, byte_list key -> W' m key = W m key;
  rp_load : load (d_heap d') (d_root d') o = l;
  rp_grows : grows d d' G;
  rp_owned : forall x, G' x -> owned d' x;
  rp_pages : forall x, G' x -> G x \/ avail (d_alloc d) x;
  rp_write : writable d' o;
  rp_room : roomy n (d_alloc d')
}.

Lemma repathed_store d d' ts' o G W pre e l n G' W' l' :
  repathed d d' ts' o G W pre e l n G' W' ->
  exists G2 W2, repathed d (store o l' d') ts' o G W pre e l' n G2 W2.
Proof.
  intros [C Em El Gr Ow Pg Wr Ro].
  destruct (store_spec d' ts' o l' G' W' pre e C Wr) as (G2 & W2 & C2 & S2 & E2 & L2 & Gr2 & O2 & A2).
  exists G2, W2. split; try done.
  - intros m key Hk. by rewrite E2, Em.
  - eapply grows_trans; [exact Gr|exact Gr2|]. intros x Hx [|Hp]; [done|].
    destruct (Pg x); [by eapply place_page_ctx|done|done].
  - intros x Hx. by apply O2, Ow, S2.
  - intros x Hx. by apply Pg, S2.
  - destruct o as [|p i]; [done|]. unfold writable in *.
    assert (G' p) as Hg by by eapply place_page_ctx.
    destruct (gr_page _ _ _ Gr2 p) as [_ Et]; [by destruct (Ow p Hg)|congruence].
  - by rewrite A2.
Qed.

Lemma repathed_refl d ts o G W pre e n : ctx (d_heap d) (d_root d) ts o G W pre e ->
  (forall x, G x -> owned d x) -> writable d o -> roomy n (d_alloc d) ->
  repathed d d ts o G W pre e (load (d_heap d) (d_root d) o) n G W.
Proof. intros C Ow Wr Ro. split; try done. intros x Hx. by left. Qed.

Lemma repathed_weaken d0 d d' ts' o (G1 G : Z -> Prop) W pre e l n G' W' :
  grows d0 d (fun _ => False) -> repathed d d' ts' o G1 W pre e l n G' W' ->
  (forall x, G1 x -> G x) -> repathed d0 d' ts' o G W pre e l n G' W'.
Proof.
  intros Gr0 [C Em El Gr Ow Pg Wr Ro] E. split; try done.
  - eapply grows_trans; [exact Gr0|exact Gr|]. intros x Hx [[]|Hg]; auto.
  - intros x Hx. destruct (Pg x Hx); [auto|]. right. by apply (gr_mono _ _ _ Gr0).
Qed.

Lemma update_spec n ts : forall d pl G W pre e,
  ctx (d_heap d) (d_root d) ts pl G W pre e -> ts <> [] -> (forall x, G x -> owned d x) ->
  roomy (2 * length ts + n) (d_alloc d) ->
  exists o ts' d' G' W', update ts d = Some (o, ts', d') /\ length ts' = length ts /\
    repathed d d' ts' o G W pre e (load (d_heap d) (d_root d) pl) n G' W'.
Proof.
  induction ts as [|t ts IH]; intros d pl G W pre e C Hne Ow Ro; [done|]. cbn [triewrite.update].
  unfold needs_cow. destruct (Z.eqb_spec (txn_id (d_heap d (t_node t))) txn) as [Et|Et]; cbn [negb].
  { assert (pl = link_place t) as -> by by inversion C.
    exists (link_place t), (t :: ts), d, G, W. split; [done|]. split; [done|].
    apply repathed_refl; [done|done|done|]. eapply roomy_less; [|exact Ro]. lia. }
  inversion C as [|t0 ts0 b0 b F M G0 W0 pre0 e0 C0 lnk H1 H2 H3 H4 H5 H6 H7 H8 H9 H10 H11 H12 H13 H14]; subst.
  rename b0 into nd. set (p0 := t_node t) in *.
  pose proof (Ow p0 ltac:(right; by left)) as [Oa Os Of].
  replace (2 * length (t :: ts) + n)%nat with (S (S (2 * length ts + n))) in Ro by (simpl; lia).
  destruct (alloc_write_spec _ (slot_id (d_heap d p0)) (used (d_heap d p0)) (body (d_heap d p0)) d Ro Os)
    as (p & d1 & E1 & P1 & P2 & P3 & P4 & P5 & P6 & P7 & P8 & P9).
  rewrite E1. cbn [mbind option_bind]. set (d2 := write p (body (d_heap d p0)) d1) in *.
  assert (p0 <> p) as Hpp by congruence.
  destruct (free_node_spec _ p0 d2 P4 ltac:(by rewrite P2)) as (a3 & E3 & R3 & M3).
  rewrite E3. cbn [mbind option_bind]. set (d3 := Db (d_heap d2) (d_root d2) a3) in *.
  assert (grows d d3 (fun _ => False)) as G3.
  { destruct P9 as [A1 A2 A3 A4]. split; cbn [d3 d_heap d_alloc]; [by auto|done..]. }
  assert (forall x, owned d x -> owned d3 x) as O3 by (intros x Hx; eapply grows_owned; [exact G3|done|tauto]).
  assert (forall x, owned d x -> d_heap d3 x = d_heap d x) as F3.
  { intros x [Hx _ _]. apply P2. congruence. }
  destruct (ctx_frame HASH_SIZE (d_heap d) (d_heap d3) _ _ _ _ _ _ _ C0) as [C3 L3].
  { intros x Hx. apply F3, Ow. by left. }
  assert (d_root d3 = d_root d) as Er by exact P3. rewrite <- Er in C3.
  assert (load (d_heap d3) (d_root d3) (t_offset t) = lnk) as El.
  { destruct ts as [|u us]; [|rewrite Er; by apply L3].
    assert (t_offset t = Root) as Eo by by inversion C0. unfold lnk. rewrite Eo. exact Er. }
  assert (exists o parents d4 G4 W4,
    match ts with [] => Some (t_offset t, ts, d3) | _ => update ts d3 end = Some (o, parents, d4) /\
    length parents = length ts /\ repathed d3 d4 parents o G0 W0 pre0 e0 lnk n G4 W4)
    as (o & parents & d4 & G4 & W4 & E4 & L4 & R4).
  { rewrite <- El. destruct ts as [|u us].
    - exists (t_offset t), [], d3, G0, W0. split; [done|]. split; [done|].
      apply repathed_refl; [done| | |by eapply roomy_less; [|exact R3]; lia].
      + intros x Hx. apply O3, Ow. by left.
      + assert (t_offset t = Root) as -> by by inversion C0. done.
    - apply IH; [done|done| |exact R3]. intros x Hx. apply O3, Ow. by left. }
  rewrite E4. cbn [mbind option_bind].
  destruct (repathed_store _ _ _ _ _ _ _ _ _ _ _ _ (link_to p TRIE) R4) as (G5 & W5 & [C5 Em5 El5 Gr5 Ow5 Pg5 Wr5 Ro5]).
  set (d5 := store o (link_to p TRIE) d4) in *.
  assert (~ avail (d_alloc d3) p) as Hp3 by (cbn; auto).
  assert (~ G0 p) as Hp0 by (intros Hg; destruct (Ow p ltac:(by left)); done).
  assert (d_heap d5 p = Page (slot_id (d_heap d p0)) (used (d_heap d p0)) txn (body (d_heap d p0))) as Hp5.
  { rewrite (gr_frame _ _ _ Gr5) by done. exact P1. }
  assert (forall k l x, -1 <= k <= 255 -> k <> b -> link nd k = Some l -> F k x ->
    owned d x /\ d_heap d5 x = d_heap d x /\ x <> p /\ ~ G5 x) as HF.
  { intros k l x Hk Hkb Hl Hx. assert (owned d x) as Ox by (apply Ow; right; right; by exists k, l).
    pose proof (H14 k l x Hk Hkb Hl Hx) as Hg. pose proof (ow_used _ _ (O3 x Ox)) as Ha.
    split; [done|]. split; [by rewrite (gr_frame _ _ _ Gr5), F3|]. split; [by destruct Ox; congruence|].
    intros Hx5. by destruct (Pg5 x Hx5). }
  eexists (Slot p (t_link_idx t)), _, d5, _, _. split; [done|]. split; [simpl; by rewrite L4|].
  split.
  - apply (ctx_rehang (d_heap d) (d_heap d5) (d_root d) (d_root d5) t ts nd p o parents b F M G0 W0 pre0 e0 G5 W5);
      try done.
    + by rewrite Hp5.
    + intros Hx. by destruct (Pg5 p Hx).
    + intros k l x Hk Hkb Hl Hx. by destruct (HF k l x Hk Hkb Hl Hx) as (_ & ?).
  - intros m key Hk. by apply Em5.
  - unfold link_place. simpl. unfold trie_at. fold p0. by rewrite Hp5, H5.
  - eapply grows_trans; [exact G3|exact Gr5|]. intros x Hx [[]|Hg]; by left.
  - intros x [Hx|[->|(k & l & Hk & Hkb & Hl & Hx)]]; [auto| |].
    + split; rewrite ?Hp5; [|done|done]. intros Ha. by apply Hp3, (gr_mono _ _ _ Gr5).
    + destruct (HF k l x Hk Hkb Hl Hx) as (Ox & E & _). split; rewrite ?E; [|apply Ox..].
      intros Ha. by apply (ow_used _ _ Ox), (gr_mono _ _ _ G3), (gr_mono _ _ _ Gr5).
  - intros x [Hx|[->|(k & l & Hk & Hkb & Hl & Hx)]].
    + destruct (Pg5 x Hx) as [|Ha]; [left; by left|right]. by apply (gr_mono _ _ _ G3).
    + by right.
    + left. right. right. by exists k, l.
  - simpl. by rewrite Hp5.
  - done.
Qed.

Lemma update_offset_spec n d t ts l G W pre e :
  ctx (d_heap d) (d_root d) ts (t_offset t) G W pre e -> (forall x, G x -> owned d x) ->
  roomy (2 * length ts + n) (d_alloc d) ->
  exists o ts' d' G' W', triewrite.update_offset (A := A) txn l t ts d = Some (set_offset o t, ts', d') /\
    length ts' = length ts /\ repathed d d' ts' o G W pre e l n G' W'.
Proof.
  intros C Ow Ro. destruct ts as [|u us].
  - assert (t_offset t = Root) as Eo by by inversion C. rewrite Eo in C.
    pose proof (repathed_refl d [] Root G W pre e n C Ow I ltac:(by eapply roomy_less; [|exact Ro]; lia)) as R.
    destruct (repathed_store _ _ _ _ _ _ _ _ _ _ _ _ l R) as (G' & W' & R').
    exists Root, [], (store Root l d), G', W'. split_and!; [|done|done].
    unfold triewrite.update_offset. rewrite Eo. f_equal. f_equal. f_equal. destruct t. simpl in Eo. by subst.
  - destruct (update_spec n (u :: us) d (t_offset t) G W pre e C ltac:(done) Ow Ro)
      as (o & ts' & d' & G' & W' & E & L & R).
    destruct (repathed_store _ _ _ _ _ _ _ _ _ _ _ _ l R) as (G2 & W2 & R2).
    exists o, ts', (store o l d'), G2, W2. split_and!; [|done|done].
    cbn [triewrite.update_offset]. by rewrite E.
Qed.

(** ** Pages of a size *)

Abbreviation alloc_node := (triewrite.alloc_node (A := A) PAGE_HEADER PAGE_COUNT PAGE_SIZES txn).

(** The size of the largest class. *)
Definition room : Z := PAGE_SIZES (PAGE_COUNT - 1) - PAGE_HEADER.

(** [d2] is [d] with a new page [p] for [sz] bytes that holds [b]. *)
Record fresh (d d2 : db) (p sz : Z) (b : obj) (n : nat) : Prop := {
  fr_page : exists s u, d_heap d2 p = Page s u txn b /\ 0 <= s < PAGE_COUNT /\
    sz + PAGE_HEADER <= PAGE_SIZES s;
  fr_other : forall x, x <> p -> d_heap d2 x = d_heap d x;
  fr_root : d_root d2 = d_root d;
  fr_room : roomy n (d_alloc d2);
  fr_avail : avail (d_alloc d) p;
  fr_used : ~ avail (d_alloc d2) p;
  fr_aligned : p mod 8 = 0 /\ 0 < p < 2 ^ 64;
  fr_grows : grows d d2 (fun _ => False)
}.

Lemma alloc_node_spec n sz d : roomy (S n) (d_alloc d) -> 0 <= sz <= room ->
  exists p d1, alloc_node sz d = Some (p, d1) /\ fresh d d1 p sz (body (d_heap d1 p)) n /\
    forall b, fresh d (write p b d1) p sz b n.
Proof.
  pose proof Lay as [_ PAGE_COUNT_pos PAGE_HEADER_pos PAGE_SIZES_mono PAGE_SIZES_max _].
  intros Ro Hs. unfold room in Hs. unfold triewrite.alloc_node.
  destruct (memoryfacts.binary_search_spec PAGE_SIZES PAGE_COUNT (u16 (sz + PAGE_HEADER)) ltac:(lia)
    PAGE_SIZES_mono) as (s & E & Hr & Hlo & Hhi).
  rewrite wrap_small in * by lia. rewrite E. cbn [mbind option_bind].
  assert (s < PAGE_COUNT) as Hs'.
  { destruct (Z.eq_dec s PAGE_COUNT) as [->|]; [|lia]. specialize (Hlo (PAGE_COUNT - 1) ltac:(lia)). lia. }
  destruct (alloc_slot_spec n s sz d Ro ltac:(lia)) as (p & a & E' & R' & A1 & A2 & A3 & A4 & A5).
  eexists p, _. split; [exact E'|].
  assert (forall i, i < PAGE_COUNT -> s <= i -> sz + PAGE_HEADER <= PAGE_SIZES i) as Hf by (intros; apply Hhi; lia).
  split.
  - split; cbn [d_heap d_root d_alloc]; try done; [|by intros x Hx; rewrite upd_ne|by apply fresh_grows].
    exists s, sz. rewrite !upd_eq. split_and!; try (done || lia). apply Hf; lia.
  - intros b. assert (forall x, x <> p ->
      set_body p b (upd (d_heap d) p (Page s sz txn (body (d_heap d p)))) x = d_heap d x) as Ex.
    { intros x Hx. by rewrite set_body_other, upd_ne. }
    split; cbn [write d_heap d_root d_alloc]; try done.
    + exists s, sz. unfold set_body. rewrite !upd_eq. split_and!; try (done || lia). apply Hf; lia.
    + split; cbn [write d_heap d_alloc]; [done|..]; intros x Hx; rewrite Ex by congruence; done.
Qed.

Lemma fresh_body d d2 p sz b n : fresh d d2 p sz b n -> body (d_heap d2 p) = b /\ txn_id (d_heap d2 p) = txn.
Proof. intros Fr. destruct (fr_page _ _ _ _ _ _ Fr) as (s & u & -> & _). done. Qed.

Lemma fresh_owned d d2 p sz b n : fresh d d2 p sz b n -> obj_size b <= sz -> owned d2 p.
Proof.
  intros Fr Hb. destruct (fr_page _ _ _ _ _ _ Fr) as (s & u & E & Hs & Hf).
  split; [by apply (fr_used _ _ _ _ _ _ Fr)|..]; rewrite E; [done|]. simpl. lia.
Qed.

Lemma fresh_link d d2 p sz b n t : fresh d d2 p sz b n -> target (link_to p t) = p /\
  points_leaf (link_to p t) = match t with LEAF => true | TRIE => false end.
Proof. intros Fr. destruct (fr_aligned _ _ _ _ _ _ Fr). apply link_to_spec; [done|lia]. Qed.

(** Pages in use stay as they are. *)
Lemma fresh_keeps d d2 p sz b n x : fresh d d2 p sz b n -> owned d x ->
  d_heap d2 x = d_heap d x /\ owned d2 x /\ x <> p.
Proof.
  intros Fr Ox. assert (x <> p) as Hx. { intros ->. by apply (ow_used _ _ Ox), (fr_avail _ _ _ _ _ _ Fr). }
  split; [by apply (fr_other _ _ _ _ _ _ Fr)|]. split; [|done].
  eapply grows_owned; [apply Fr|done|tauto].
Qed.

End with_alloc.
End triestore.
