(* ===== verification/TrieInsert.v ===== *)
(** * TrieInsert: where an insertion ends

    Every case of an insertion leaves a trie with a hole for the new key, which
    [create_leaf] fills with a leaf, through a chain of nodes when the rest of the
    key is long ([create_leaf_spec]). [grow_spec] is what the cases share: a new
    node takes the place of an old one and the leaf hangs below it. *)
From S2P Require Import Prelude Bits Util Node Leaf NodeFacts NodeUpdate NodeCreate Memory MemoryFacts.
From S2P Require Import Trie TrieWrite TrieRep TrieFind TrieLookup TrieStore.

Module trieinsert.
Import util.
Export triestore trielookup.

(** The map of one key. *)
Definition only (r : list Z) (v : payload) : keymap := fun q => if decide (q = r) then Some v else None.

(** The map with one more entry. *)
Definition put_map (key : list Z) (v : payload) (m : keymap) : keymap :=
  fun q => if decide (q = key) then Some v else m q.

(** A branch more is an entry more. *)
Lemma node_map_put prefix lk lk0 M nk r v m q :
  (forall q, byte_list q -> m q = node_map prefix lk0 M q) -> lk0 nk = None -> is_Some (lk nk) ->
  (forall c, -1 <= c <= 255 -> c <> nk -> is_Some (lk c) <-> is_Some (lk0 c)) -> branch r = nk -> byte_list q ->
  node_map prefix lk (fun c => if c =? nk then only r v else M c) q = put_map (prefix ++ r) v m q.
Proof.
  intros Hm H0 H1 Hc Hr Hq. unfold put_map. rewrite Hm by done. unfold node_map.
  destruct (decide (prefix `prefix_of` q)) as [[q' ->]|Hp].
  - rewrite drop_app_length. apply byte_list_app in Hq as [_ Hq]. specialize (Hc _ (byte_branch q' Hq)).
    destruct (Z.eqb_spec (branch q') nk) as [E|Hn].
    + rewrite E, H0. destruct H1 as [l ->]. unfold only. destruct (decide (q' = r)) as [->|Hne].
      * by rewrite decide_True.
      * rewrite decide_False; [done|]. by intros ?%app_inv_head.
    + rewrite decide_False by (intros ->%app_inv_head; congruence). specialize (Hc Hn).
      destruct (lk (branch q')), (lk0 (branch q')); try done; exfalso.
      * by destruct (proj1 Hc ltac:(by eexists)).
      * by destruct (proj2 Hc ltac:(by eexists)).
  - rewrite decide_False; [done|]. intros ->. apply Hp. by exists r.
Qed.

(** The link of a node with one branch. *)
Definition one_link (b : Z) : Z -> option Z := fun c => if c =? b then Some 0 else None.

(** A node split in two maps the same keys. *)
Lemma node_map_split p1 p2 lk M q : p2 <> [] -> byte_list q ->
  node_map (p1 ++ p2) lk M q = node_map p1 (one_link (branch p2)) (fun _ => node_map p2 lk M) q.
Proof.
  intros Hp Hq. unfold node_map at 2. destruct (decide (p1 `prefix_of` q)) as [[q' ->]|Hn].
  - rewrite drop_app_length. unfold one_link, node_map. destruct (decide (p2 `prefix_of` q')) as [[q2 ->]|Hn2].
    + rewrite decide_True by (exists q2; by rewrite app_assoc).
      assert (branch (p2 ++ q2) = branch p2) as -> by by destruct p2. rewrite Z.eqb_refl.
      rewrite app_assoc, !drop_app_length. done.
    + rewrite decide_False. 2: { intros [q2 E]. rewrite <- app_assoc in E. apply app_inv_head in E. apply Hn2. by exists q2. }
      by destruct (branch q' =? branch p2).
  - unfold node_map. rewrite decide_False; [done|]. intros [q2 ->]. apply Hn. exists (p2 ++ q2). by rewrite app_assoc.
Qed.

Lemma node_map_single p1 p2 v q : byte_list q ->
  only (p1 ++ p2) v q = node_map p1 (one_link (branch p2)) (fun _ => only p2 v) q.
Proof.
  intros Hq. unfold node_map, one_link, only. destruct (decide (p1 `prefix_of` q)) as [[q' ->]|Hn].
  - rewrite drop_app_length. destruct (decide (q' = p2)) as [->|Hne].
    + rewrite decide_True by done. by rewrite Z.eqb_refl.
    + rewrite decide_False by by intros ?%app_inv_head. by destruct (branch q' =? branch p2).
  - rewrite decide_False; [done|]. intros ->. apply Hn. by exists p2.
Qed.

(** Two strings part behind their common prefix. *)
Lemma branch_apart a b : byte_list a -> byte_list b -> a <> b ->
  branch (drop (common_prefix a b) a) <> branch (drop (common_prefix a b) b).
Proof.
  revert b. induction a as [|x a IH]; intros [|y b] Ha Hb Hn; [done|..]; simpl; unfold NONE.
  - inversion Hb. lia.
  - inversion Ha. lia.
  - inversion Ha. inversion Hb. destruct (Z.eqb_spec x y) as [->|]; simpl; [|done].
    apply IH; [done..|congruence].
Qed.

Section with_alloc.
Context {A : Type} `{PA : PageAlloc A}.
Context (HASH_SIZE PAGE_HEADER PAGE_COUNT : Z) (PAGE_SIZES : Z -> Z).
Context (raw : Z -> TrieNode.node) (raw_leaf : Z -> LeafNode.node) (txn : Z).
Hypothesis Lay : layout HASH_SIZE PAGE_HEADER PAGE_COUNT PAGE_SIZES.
Let HASH_SIZE_range : 0 <= HASH_SIZE <= 512 := ly_hash _ _ _ _ Lay.

Abbreviation rep := (trierep.rep HASH_SIZE).
Abbreviation ctx := (trierep.ctx HASH_SIZE).
Abbreviation db := (@triewrite.db A).
Abbreviation owned := (triestore.owned HASH_SIZE PAGE_HEADER PAGE_COUNT PAGE_SIZES).
Abbreviation grows := (triestore.grows txn).
Abbreviation roomy := (triestore.roomy PAGE_COUNT).
Abbreviation room := (triestore.room PAGE_HEADER PAGE_COUNT PAGE_SIZES).
Abbreviation create_leaf := (triewrite.create_leaf (A := A) HASH_SIZE PAGE_HEADER PAGE_COUNT PAGE_SIZES raw raw_leaf txn).

(** The size of a value that is stored in its leaf, whatever the key. *)
Context (value_size : Z).
Hypothesis value_fits : 0 <= value_size < 2 ^ 15 /\ LeafNode.HEADER_SIZE HASH_SIZE + 255 + value_size <= room.

Lemma vsize_small v : 0 <= v < 2 ^ 15 -> Z.land (u16 v) (Z.lnot LeafNode.BIG_VALUE_FLAG) = v.
Proof.
  intros Hv. rewrite wrap_small by (change (2 ^ 16) with 65536; change (2 ^ 15) with 32768 in Hv; lia).
  apply Z.bits_inj'. intros i Hi. rewrite Z.land_spec, Z.lnot_spec by lia.
  change LeafNode.BIG_VALUE_FLAG with (2 ^ 15). rewrite Z.pow2_bits_eqb by lia.
  destruct (Z.eqb_spec 15 i) as [<-|]; [|by rewrite andb_true_r].
  rewrite andb_false_r. symmetry. destruct (Z.eq_dec v 0) as [->|]; [done|].
  apply Z.bits_above_log2; [lia|]. apply Z.log2_lt_pow2; lia.
Qed.

(** A new leaf fits the page it was allocated. *)
Lemma set_leaf_size l key : Z.of_nat (length key) <= 255 ->
  LeafNode.size HASH_SIZE (LeafNode.set l key value_size) =
    LeafNode.size_for HASH_SIZE (Z.of_nat (length key)) value_size /\
  0 <= LeafNode.size_for HASH_SIZE (Z.of_nat (length key)) value_size <= room.
Proof.
  intros Hk. unfold LeafNode.size, LeafNode.size_for, LeafNode.vsize, LeafNode.set. cbn [LeafNode.key_size LeafNode.value_size].
  rewrite vsize_small by lia. rewrite (wrap_small 8) by (change (2 ^ 8) with 256; lia). split; [done|].
  destruct value_fits as [_ Hf]. pose proof Lay as [H1 H2 H3 _ H5 _]. unfold triestore.room in *.
  unfold LeafNode.HEADER_SIZE in *. rewrite wrap_small; lia.
Qed.

(** The chain to a new leaf maps one key. *)
Lemma node_map_only prefix lk M b r v q : (forall k, -1 <= k <= 255 -> is_Some (lk k) <-> k = b) ->
  branch r = b -> byte_list q ->
  node_map prefix lk (fun k => if k =? b then only r v else M k) q = only (prefix ++ r) v q.
Proof.
  intros Hl Hb Hq. unfold node_map, only. destruct (decide (prefix `prefix_of` q)) as [[q' ->]|Hp].
  - rewrite drop_app_length. apply byte_list_app in Hq as [_ Hq]. pose proof (Hl _ (byte_branch q' Hq)) as Hl'.
    destruct (lk (branch q')).
    + rewrite (proj1 Hl') by by eexists. rewrite Z.eqb_refl.
      destruct (decide (q' = r)) as [->|Hn]; [by rewrite decide_True|].
      rewrite decide_False; [done|]. by intros ?%app_inv_head.
    + rewrite decide_False; [done|]. intros ->%app_inv_head. rewrite Hb in Hl'.
      by destruct (proj2 Hl' eq_refl).
  - rewrite decide_False; [done|]. intros ->. apply Hp. by exists r.
Qed.

(** ** The new leaf *)

(** An insertion of [key] ended at the leaf of [t] on the parents [ts]: [wt v] is
    the map once the value is filled in, [s] bounds the pages in use it changed. *)
Record landed (d d' : db) (t : transition) (ts : list transition) (k : keys_state) (key : list Z)
    (wt : payload -> keymap) (s : Z -> Prop) (n : nat) : Prop := {
  ld_path : exists G W pre e r, ctx (d_heap d') (d_root d') ts (t_offset t) G W pre e /\
    key = pre ++ r /\ enters e r /\ Z.of_nat (length r) <= 255 /\
    t_keypos t = Z.of_nat (length pre) /\ t_prefix t = Z.of_nat (length r) /\
    body (d_heap d' (t_node t)) = OLeaf (LeafNode.set (raw_leaf (t_node t)) r value_size) /\
    (forall v q, byte_list q -> W (only r v) q = wt v q) /\
    (forall x, G x -> owned d' x /\ x <> t_node t);
  ld_link : load (d_heap d') (d_root d') (t_offset t) = link_to (t_node t) LEAF;
  ld_aligned : t_node t mod 8 = 0 /\ 0 < t_node t < 2 ^ 64;
  ld_txn : txn_id (d_heap d' (t_node t)) = txn;
  ld_new : avail (d_alloc d) (t_node t) /\ owned d' (t_node t);
  ld_cmp : t_cmp t = 0;
  ld_cur : cur k = key;
  ld_rest : rest k = [];
  ld_grows : grows d d' s;
  ld_room : roomy n (d_alloc d')
}.

(** An insertion that begins with other changes. *)
Lemma landed_after d0 d d' t ts k key wt0 wt (s0 s1 s : Z -> Prop) n :
  grows d0 d s0 -> landed d d' t ts k key wt0 s1 n ->
  (forall x, ~ avail (d_alloc d0) x -> s0 x \/ s1 x -> s x) ->
  (forall v q, byte_list q -> wt0 v q = wt v q) -> landed d0 d' t ts k key wt s n.
Proof.
  intros Gr [P1 P2 P3 P4 P5 P6 P7 P8 P9 P10] Hs Hw. split; try done.
  - destruct P1 as (G & W & pre & e & r & H1 & H2 & H3 & H4 & H5 & H6 & H7 & H8 & H9).
    exists G, W, pre, e, r. split_and!; try done. intros v q Hq. by rewrite H8, Hw.
  - destruct P5 as [Ha Ho]. split; [|done]. by apply (gr_mono _ _ _ _ Gr).
  - by eapply grows_trans.
Qed.

(** The end of [create_leaf]: a leaf for the rest of the key. *)
Lemma leaf_spec n d t ts k pre b G W : roomy (S n) (d_alloc d) ->
  ctx (d_heap d) (d_root d) (t :: ts) (link_place t) G W pre (Some b) ->
  (forall x, G x -> owned d x) -> txn_id (d_heap d (t_node t)) = txn -> cur k = pre ->
  branch (rest k) = b -> Z.of_nat (length (pre ++ rest k)) < 2 ^ 16 -> Z.of_nat (length (rest k)) <= 255 ->
  exists t' k' d', create_leaf 1 value_size t ts k d = Some (t' :: t :: ts, k', d') /\
    landed d d' t' (t :: ts) k' (pre ++ rest k) (fun v => W (only (rest k) v)) G n.
Proof.
  intros Ro C Ow Ht Hc Hb Hlen H255. cbn [triewrite.create_leaf].
  destruct (Z.ltb_spec 255 (Z.of_nat (length (rest k)))); [lia|].
  unfold fill_leaf.
  destruct (set_leaf_size (raw_leaf 0) (rest k) H255) as [_ Hsz].
  destruct (alloc_node_spec _ _ _ _ txn Lay n _ d Ro Hsz) as (p & d1 & E1 & _ & F1). rewrite E1. cbn [mbind option_bind].
  specialize (F1 (OLeaf (LeafNode.set (raw_leaf p) (rest k) value_size))).
  set (d2 := write p _ d1) in *.
  assert (forall x, G x -> d_heap d2 x = d_heap d x /\ owned d2 x /\ x <> p) as K2.
  { intros x Hx. eapply fresh_keeps; [exact Lay|exact F1|by apply Ow]. }
  destruct (ctx_keep HASH_SIZE d d2 _ _ _ _ _ _ C) as [C2 L2].
  { intros x Hx. by apply K2. }
  { apply (fr_root _ _ _ _ _ _ _ _ _ _ F1). }
  assert (G (t_node t)) as Gt by by eapply place_page_ctx.
  assert (writable txn d2 (link_place t)) as Wr.
  { unfold writable, link_place. by rewrite (proj1 (K2 _ Gt)). }
  destruct (store_spec _ _ _ _ txn Lay d2 _ _ (link_to p LEAF) _ _ _ _ C2 Wr)
    as (G3 & W3 & C3 & S3 & E3 & L3 & Gr3 & O3 & A3).
  set (d3 := store (link_place t) (link_to p LEAF) d2) in *.
  destruct (fresh_link _ _ _ _ _ _ _ _ _ _ LEAF F1) as [Et _].
  unfold child, init. rewrite L3, Et. cbn [set_prefix_cmp t_node t_offset t_keypos t_branch_key t_link_idx t_prefix t_cmp].
  assert (d_heap d3 p = d_heap d2 p) as E3p.
  { apply (gr_frame _ _ _ _ Gr3); [by apply (fr_used _ _ _ _ _ _ _ _ _ _ F1)|]. simpl. intros ->. by destruct (K2 _ Gt) as (_ & _ & ?). }
  destruct (fresh_body _ _ _ _ _ _ _ _ _ _ F1) as [B2 T2].
  eexists _, _, d3. split; [done|]. split; cbn [set_prefix_cmp t_node t_offset t_keypos t_prefix t_cmp cur rest advance_key].
  - exists G3, W3, pre, (Some b), (rest k). split_and!; try done.
    + rewrite Hc. apply wrap_small. rewrite length_app in Hlen. lia.
    + by rewrite E3p.
    + intros v q Hq. by rewrite E3.
    + intros x Hx. destruct (K2 x) as (_ & ? & ?); [by apply S3|]. split; [by apply O3|done].
  - done.
  - apply (fr_aligned _ _ _ _ _ _ _ _ _ _ F1).
  - by rewrite E3p.
  - split; [apply (fr_avail _ _ _ _ _ _ _ _ _ _ F1)|]. apply O3. eapply fresh_owned; [exact F1|].
    simpl. destruct (set_leaf_size (raw_leaf p) (rest k) H255) as [-> _]. lia.
  - done.
  - by rewrite Hc, Nat2Z.id, firstn_all.
  - by rewrite Nat2Z.id, drop_all.
  - eapply grows_trans; [apply F1|exact Gr3|]. intros x Hx [[]|Hp]. by eapply place_page_ctx.
  - rewrite A3. apply (fr_room _ _ _ _ _ _ _ _ _ _ F1).
Qed.

(** ** Long keys: a node for the next 255 bytes *)

(** The state after one round of [create_bigkey], or of [first_exec]: [bottom] is
    a new node with one branch, which is still to be linked. *)
Record chained (d d3 : db) (bottom : transition) (ts : list transition) (k k3 : keys_state)
    (pre : list Z) (G G3 : Z -> Prop) (W W3 : keymap -> keymap) (n : nat) : Prop := {
  ch_ctx : ctx (d_heap d3) (d_root d3) (bottom :: ts) (link_place bottom) G3 W3
    (pre ++ take 255 (rest k)) (Some (branch (drop 255 (rest k))));
  ch_owned : forall x, G3 x -> owned d3 x;
  ch_txn : txn_id (d_heap d3 (t_node bottom)) = txn;
  ch_cur : cur k3 = pre ++ take 255 (rest k);
  ch_rest : rest k3 = drop 255 (rest k);
  ch_map : forall v q, byte_list q ->
    W3 (only (drop 255 (rest k)) v) q = W (only (rest k) v) q;
  ch_grows : grows d d3 G;
  ch_pages : forall x, G3 x -> G x \/ avail (d_alloc d) x;
  ch_room : roomy n (d_alloc d3)
}.

Lemma bigkey_spec n d pl ts k pre e G W bottom p d1 : ctx (d_heap d) (d_root d) ts pl G W pre e ->
  (forall x, G x -> owned d x) -> writable txn d pl -> cur k = pre -> enters e (rest k) -> byte_list (rest k) ->
  Z.of_nat (length (pre ++ rest k)) < 2 ^ 16 -> 255 < Z.of_nat (length (rest k)) ->
  fresh PAGE_HEADER PAGE_COUNT PAGE_SIZES txn d d1 p (size_for_branches HASH_SIZE 255 1) (body (d_heap d1 p)) n ->
  t_node bottom = p -> t_offset bottom = pl -> t_keypos bottom = Z.of_nat (length pre) ->
  let d2 := store pl (link_to p TRIE) d1 in
  exists G3 W3, let '(bottom', k3, d3) := fill_bigkey HASH_SIZE raw bottom k d2 in
    chained d d3 bottom' ts k k3 pre G G3 W W3 n.
Proof.
  intros C Ow Wr Hc He Hb Hlen Hbig Fr En Eo Ek d2.
  assert (forall x, G x -> d_heap d1 x = d_heap d x /\ owned d1 x /\ x <> p) as K1.
  { intros x Hx. eapply fresh_keeps; [exact Lay|exact Fr|by apply Ow]. }
  destruct (ctx_keep HASH_SIZE d d1 _ _ _ _ _ _ C) as [C1 L1].
  { intros x Hx. by apply K1. }
  { apply (fr_root _ _ _ _ _ _ _ _ _ _ Fr). }
  assert (writable txn d1 pl) as Wr1.
  { destruct pl as [|q i]; [done|]. simpl in *. rewrite (proj1 (K1 q ltac:(by eapply place_page_ctx))). done. }
  destruct (store_spec _ _ _ _ txn Lay d1 _ _ (link_to p TRIE) _ _ _ _ C1 Wr1)
    as (G2 & W2 & C2 & S2 & E2 & L2 & Gr2 & O2 & A2). fold d2 in C2, L2, Gr2, O2, A2.
  unfold fill_bigkey. set (prefix := take 255 (rest k)).
  assert (length prefix = 255%nat) as Lp by (unfold prefix; rewrite length_take; lia).
  assert (default 0 (rest k !! 255%nat) = branch (drop 255 (rest k))) as ->.
  { rewrite branch_drop. destruct (lookup_lt_is_Some_2 (rest k) 255 ltac:(lia)) as [c ->]. done. }
  set (b := branch (drop 255 (rest k))).
  assert (-1 <= b <= 255) as Hbr by (apply byte_branch; by apply byte_list_drop).
  pose proof (NodeCreate.create_one_single HASH_SIZE HASH_SIZE_range (raw (t_node bottom)) prefix b
    ltac:(lia) Hbr) as Sg.
  destruct (create_one HASH_SIZE (raw (t_node bottom)) prefix b) as [nd i]. destruct Sg as [-> [Sw Sp Si Sx Ss]].
  set (d3 := write (t_node bottom) (OTrie nd) d2).
  assert (d_heap d2 p = d_heap d1 p) as E2p.
  { apply (gr_frame _ _ _ _ Gr2); [by apply (fr_used _ _ _ _ _ _ _ _ _ _ Fr)|].
    intros Hp. by destruct (K1 p ltac:(by eapply place_page_ctx)) as (_ & _ & ?). }
  assert (txn_id (d_heap d2 p) = txn) as T2 by (rewrite E2p; apply (fresh_body _ _ _ _ _ _ _ _ _ _ Fr)).
  assert (grows d2 d3 (fun x => x = p)) as Gr3 by (unfold d3; rewrite En; by apply write_grows).
  assert (~ G2 p) as Hp2 by (intros Hg; by destruct (K1 p (S2 _ Hg)) as (_ & _ & ?)).
  assert (forall x, x <> p -> d_heap d3 x = d_heap d2 x) as E3 by (intros x Hx; unfold d3; rewrite En; by apply set_body_other).
  destruct (ctx_keep HASH_SIZE d2 d3 _ _ _ _ _ _ C2) as [C3 L3]; [intros x Hx; apply E3; by intros ->|done|].
  destruct (fresh_link _ _ _ _ _ _ _ _ _ _ TRIE Fr) as [Et Ep].
  assert (body (d_heap d3 p) = OTrie nd) as B3 by (unfold d3; rewrite En; apply set_body_same).
  set (bot := set_prefix_cmp 255 0 (set_idx 0 (set_branch b bottom))).
  assert (forall k0 l, -1 <= k0 <= 255 -> k0 <> b -> link nd k0 = Some l -> False) as Hno.
  { intros k0 l Hk0 Hne. rewrite (link_isset HASH_SIZE nd k0 Sw Hk0), Si by done. by destruct (Z.eqb_spec k0 b). }
  pose proof (ctx_node HASH_SIZE (d_heap d3) (d_root d3) bot ts nd b (fun _ _ => False) (fun _ _ => None) G2 W2 pre e) as N.
  assert (~ avail (d_alloc d2) p) as Hu2 by (rewrite A2; apply (fr_used _ _ _ _ _ _ _ _ _ _ Fr)).
  assert (t_offset bot = pl /\ t_keypos bot = Z.of_nat (length pre) /\ t_node bot = p) as (Ebo & Ebk & Eb) by done.
  cbn zeta in N. rewrite Ebo, Ebk, Eb, L3, L2, Ep, Et, B3, Sp in N.
  eexists _, _. split.
  - apply N; try done.
    + pose proof (fr_aligned _ _ _ _ _ _ _ _ _ _ Fr). lia.
    + unfold prefix. by apply byte_list_take.
    + intros x ->. unfold first_byte, trie_at. rewrite Ep, Et, B3, Sp. simpl in He. rewrite <- He. unfold prefix.
      destruct (rest k); [simpl in Hbig; lia|done].
    + rewrite Si, Z.eqb_refl by done. done.
    + split; [intros k0 l H1 H2 H3; by destruct (Hno k0 l H1 H2 H3)|done].
  - intros x [Hx|[->|(k0 & l & H1 & H2 & H3 & [])]].
    + eapply grows_owned; [exact Gr3|apply O2; by apply K1, S2|by intros ->].
    + change (write (t_node bot) (OTrie nd) d2) with d3.
      destruct (fr_page _ _ _ _ _ _ _ _ _ _ Fr) as (s & u & Ep1 & Hs & Hf).
      destruct (gr_page _ _ _ _ Gr3 p Hu2) as [Es _].
      split; [exact Hu2|by rewrite Es, E2p, Ep1|]. rewrite Es, E2p, Ep1, B3. cbn [slot_id obj_size].
      rewrite Lp in Ss. change (Z.of_nat 255) with 255 in Ss. lia.
  - change (write (t_node bot) (OTrie nd) d2) with d3. rewrite Eb.
    by destruct (gr_page _ _ _ _ Gr3 p Hu2) as [_ ->].
  - cbn [advance_key cur]. by rewrite Hc.
  - done.
  - intros v q Hq. cbn beta. rewrite E2 by done. eapply (ctx_replace HASH_SIZE); [exact C|done|].
    intros r Hr. rewrite (node_map_only prefix (link nd) _ b _ v r); [|..].
    + unfold prefix. by rewrite take_drop.
    + intros k0 Hk0. rewrite (link_isset HASH_SIZE nd k0 Sw Hk0), Si by done.
      destruct (Z.eqb_spec k0 b) as [->|]; [split; [done|by eexists]|]. split; [by intros []|done].
    + done.
    + done.
  - eapply grows_trans; [exact (fr_grows _ _ _ _ _ _ _ _ _ _ Fr)|eapply grows_trans; [exact Gr2|exact Gr3|]|].
    + intros x Hx Hp. exact Hp.
    + intros x Hx [[]|[Hp| ->]]; [by eapply place_page_ctx|]. destruct Hx. apply (fr_avail _ _ _ _ _ _ _ _ _ _ Fr).
  - intros x [Hx|[->|(k0 & l & H1 & H2 & H3 & [])]]; [left; by apply S2|right]. apply (fr_avail _ _ _ _ _ _ _ _ _ _ Fr).
  - unfold d3. cbn. rewrite A2. apply (fr_room _ _ _ _ _ _ _ _ _ _ Fr).
Qed.

Lemma landed_room d d' t ts k key wt s n m : (m <= n)%nat -> landed d d' t ts k key wt s n ->
  landed d d' t ts k key wt s m.
Proof. intros Hn [P1 P2 P3 P4 P5 P6 P7 P8 P9 P10]. split; try done. by eapply roomy_less. Qed.

Lemma create_leaf_spec fuel n : forall d t ts k pre b G W, roomy (fuel + n) (d_alloc d) ->
  ctx (d_heap d) (d_root d) (t :: ts) (link_place t) G W pre (Some b) ->
  (forall x, G x -> owned d x) -> txn_id (d_heap d (t_node t)) = txn -> cur k = pre ->
  branch (rest k) = b -> byte_list (rest k) -> Z.of_nat (length (pre ++ rest k)) < 2 ^ 16 ->
  (length (rest k) <= 255 * fuel)%nat -> (1 <= fuel)%nat ->
  exists t' ts' k' d', create_leaf fuel value_size t ts k d = Some (t' :: ts', k', d') /\
    landed d d' t' ts' k' (pre ++ rest k) (fun v => W (only (rest k) v)) G n.
Proof.
  induction fuel as [|fuel IH]; intros d t ts k pre b G W Ro C Ow Ht Hc Hb Hbl Hlen Hf H1; [lia|].
  destruct (Z.ltb_spec 255 (Z.of_nat (length (rest k)))) as [Hbig|Hsmall].
  - cbn [triewrite.create_leaf]. destruct (Z.ltb_spec 255 (Z.of_nat (length (rest k)))); [|lia].
    assert (0 <= size_for_branches HASH_SIZE 255 1 <= room) as Hsz.
    { destruct (NodeCreate.size_for_one HASH_SIZE HASH_SIZE_range 255 0 ltac:(lia) ltac:(lia)) as [S1 S2].
      pose proof (ly_trie _ _ _ _ Lay). unfold triestore.room.
      assert (0 <= util.align (util.padding (HEADER_SIZE HASH_SIZE + 255) 4 + 0 * 4)); [|lia].
      apply Z.land_nonneg. left. apply wrap_range. lia. }
    destruct (alloc_node_spec _ _ _ _ txn Lay (fuel + n) _ d Ro Hsz) as (p & d1 & E1 & F1 & _).
    rewrite E1. cbn [mbind option_bind]. set (d2 := store (link_place t) (link_to p TRIE) d1).
    assert (load (d_heap d2) (d_root d2) (link_place t) = link_to p TRIE) as El.
    { destruct (ctx_keep HASH_SIZE d d1 _ _ _ _ _ _ C) as [C1 _].
      { intros x Hx. eapply fresh_keeps; [exact Lay|exact F1|by apply Ow]. }
      { apply (fr_root _ _ _ _ _ _ _ _ _ _ F1). }
      assert (writable txn d1 (link_place t)) as Wr1.
      { unfold writable, link_place. rewrite (proj1 (fresh_keeps _ _ _ _ _ Lay _ _ _ _ _ _ (t_node t) F1
          (Ow _ ltac:(by eapply place_page_ctx)))). done. }
      destruct (store_spec _ _ _ _ txn Lay d1 _ _ (link_to p TRIE) _ _ _ _ C1 Wr1) as (? & ? & _ & _ & _ & L & _).
      exact L. }
    unfold child, init. rewrite El, (proj1 (fresh_link _ _ _ _ _ _ _ _ _ _ TRIE F1)).
    set (bot := Transition _ _ _ _ _ _ _). set (k1 := Keys _ _ _).
    destruct (bigkey_spec (fuel + n) d (link_place t) (t :: ts) k1 pre (Some b) G W bot p d1 C Ow Ht Hc Hb Hbl
      Hlen Hbig F1 eq_refl eq_refl) as (G3 & W3 & Ch).
    { simpl. rewrite Hc. apply wrap_small. rewrite length_app in Hlen. lia. }
    fold d2 in Ch. destruct (fill_bigkey HASH_SIZE raw bot k1 d2) as [[bot' k3] d3].
    destruct Ch as [Cc Co Ct Cu Cr Cm Cg Cp Ck]. cbn [rest k1] in *.
    destruct (IH d3 bot' (t :: ts) k3 _ _ G3 W3 Ck Cc Co Ct Cu) as (t' & ts' & k' & d' & E & L).
    + by rewrite Cr.
    + rewrite Cr. by apply byte_list_drop.
    + by rewrite Cr, <- app_assoc, take_drop.
    + rewrite Cr, length_drop. lia.
    + lia.
    + exists t', ts', k', d'. split; [exact E|]. rewrite Cr, <- app_assoc, take_drop in L.
      eapply landed_after; [exact Cg|exact L| |done]. intros x Hx [Hg|Hg]; [done|].
      by destruct (Cp x Hg).
  - destruct (leaf_spec (fuel + n) d t ts k pre b G W Ro C Ow Ht Hc Hb Hlen Hsmall) as (t' & k' & d' & E & L).
    exists t', (t :: ts), k', d'. split; [|eapply landed_room; [|exact L]; lia].
    rewrite <- E. cbn [triewrite.create_leaf]. by destruct (Z.ltb_spec 255 (Z.of_nat (length (rest k)))); [lia|].
Qed.

(** ** Where the new leaf hangs *)

(** An entry put behind a hole is an entry of the whole trie. *)
Lemma ctx_put h root ts pl G W pre e r v m q : ctx h root ts pl G W pre e -> enters e r -> byte_list q ->
  W (put_map r v m) q = put_map (pre ++ r) v (W m) q.
Proof.
  intros C He Hq. unfold put_map at 2. destruct (decide (q = pre ++ r)) as [->|Hn].
  - rewrite (ctx_focus HASH_SIZE _ _ _ _ _ _ _ _ _ _ C He). unfold put_map. by rewrite decide_True.
  - destruct (decide (pre `prefix_of` q)) as [[r' ->]|Hp].
    + destruct (decide (enters e r')) as [He'|He'].
      * rewrite !(ctx_focus HASH_SIZE _ _ _ _ _ _ _ _ _ _ C He'). unfold put_map.
        rewrite decide_False; [done|]. by intros ->.
      * eapply (ctx_outside HASH_SIZE); [exact C|]. intros (r2 & E%app_inv_head & ?). congruence.
    + eapply (ctx_outside HASH_SIZE); [exact C|]. intros (r2 & -> & _). apply Hp. by exists r2.
Qed.

(** A node with a free branch for the rest of the key hangs at the place of [t]. *)
Record waiting (d : db) (t : transition) (ts : list transition) (pre : list Z) (e : option Z) (nn : node) (nk : Z)
    (G : Z -> Prop) (W : keymap -> keymap) (F : Z -> Z -> Prop) (M : Z -> keymap) : Prop := {
  wa_ctx : ctx (d_heap d) (d_root d) ts (t_offset t) G W pre e;
  wa_load : points_leaf (load (d_heap d) (d_root d) (t_offset t)) = false /\
    target (load (d_heap d) (d_root d) (t_offset t)) = t_node t /\ t_node t <> 0;
  wa_keypos : t_keypos t = Z.of_nat (length pre);
  wa_body : body (d_heap d (t_node t)) = OTrie nn;
  wa_node : wf HASH_SIZE nn /\ byte_list (compressed nn) /\ -1 <= nk <= 255 /\ isset nn nk = true /\
    t_link_idx t = array_index nn nk;
  wa_first : forall x, e = Some x -> match compressed nn with [] => -2 | c :: _ => c end = x;
  wa_siblings : siblings HASH_SIZE (d_heap d) nn (t_node t) nk F M;
  wa_apart : ~ G (t_node t) /\ forall c l x, -1 <= c <= 255 -> c <> nk -> link nn c = Some l -> F c x -> ~ G x;
  wa_owned : (forall x, G x -> owned d x) /\ owned d (t_node t) /\
    forall c l x, -1 <= c <= 255 -> c <> nk -> link nn c = Some l -> F c x -> owned d x;
  wa_txn : txn_id (d_heap d (t_node t)) = txn
}.

Lemma hang_spec fuel n d t ts k pre e nn nk G W F M m :
  waiting d t ts pre e nn nk G W F M -> roomy (fuel + n) (d_alloc d) -> cur k = pre ++ compressed nn ->
  branch (rest k) = nk -> byte_list (rest k) -> Z.of_nat (length (pre ++ compressed nn ++ rest k)) < 2 ^ 16 ->
  (length (rest k) <= 255 * fuel)%nat -> (1 <= fuel)%nat ->
  (forall v q, byte_list q ->
    node_map (compressed nn) (link nn) (fun c => if c =? nk then only (rest k) v else M c) q =
    put_map (compressed nn ++ rest k) v m q) ->
  exists t' ts' k' d', create_leaf fuel value_size t ts k d = Some (t' :: ts', k', d') /\
    landed d d' t' ts' k' (pre ++ compressed nn ++ rest k)
      (fun v => put_map (pre ++ compressed nn ++ rest k) v (W m))
      (fun x => G x \/ x = t_node t \/ exists c l, -1 <= c <= 255 /\ c <> nk /\ link nn c = Some l /\ F c x) n.
Proof.
  intros [C (L1 & L2 & L3) Ek Hb (Hw & Hcb & Hnk & Hs & Hi) Hf Sib (A1 & A2) (O1 & O2 & O3) Ht]
    Ro Hc Hbr Hbl Hlen Hfu H1 Em.
  assert (forall x, e = Some x -> first_byte (d_heap d) (load (d_heap d) (d_root d) (t_offset t)) = x) as Hfb.
  { intros x Hx. unfold first_byte, trie_at. rewrite L1, L2, Hb. by apply Hf. }
  pose proof (ctx_node HASH_SIZE (d_heap d) (d_root d) t ts nn nk F M G W pre e C L1
    ltac:(by rewrite L2) ltac:(by rewrite L2) Ek Hb Hw Hcb Hfb Hnk Hs Hi Sib A1 A2) as N.
  destruct (create_leaf_spec fuel n d t ts k _ _ _ _ Ro N) as (t' & ts' & k' & d' & E & L); try done.
  - intros x [Hx|[->|(c & l & H2 & H3 & H4 & H5)]]; [by apply O1|done|by apply (O3 c l)].
  - by rewrite <- app_assoc.
  - exists t', ts', k', d'. split; [exact E|]. rewrite <- app_assoc in L.
    eapply landed_after; [apply (grows_refl txn d (fun _ => False))|exact L| |].
    + intros x Hx [[]|Hg]. exact Hg.
    + intros v q Hq. cbn beta.
      assert (enters e (compressed nn ++ rest k)) as He.
      { eapply (ctx_enters HASH_SIZE); [exact C|exact L1|by rewrite L2|exact Hfb]. }
      rewrite <- (ctx_put _ _ _ _ _ _ _ _ _ v m q C He Hq).
      eapply (ctx_replace HASH_SIZE); [exact C|done|]. intros r Hr. by apply Em.
Qed.

(** A new node takes the place of the old one of [t], whose page is freed. *)
Lemma grow_spec fuel n d d2 t t2 ts k pre e f m G W nn nk F M (g : transition -> transition) :
  focus HASH_SIZE (d_heap d) (d_root d) t ts G W pre e f m ->
  (forall x, G x \/ f x -> owned d x) -> grows d d2 (fun _ => False) -> d_root d2 = d_root d ->
  roomy (S (2 * length ts + (fuel + n))) (d_alloc d2) ->
  t_node t2 mod 8 = 0 /\ 0 < t_node t2 < 2 ^ 64 -> avail (d_alloc d) (t_node t2) ->
  body (d_heap d2 (t_node t2)) = OTrie nn -> txn_id (d_heap d2 (t_node t2)) = txn -> owned d2 (t_node t2) ->
  t_offset t2 = t_offset t -> t_keypos t2 = t_keypos t -> t_link_idx t2 = array_index nn nk ->
  (forall u, t_node (g u) = t_node u /\ t_offset (g u) = t_offset u /\ t_keypos (g u) = t_keypos u /\
    t_link_idx (g u) = t_link_idx u) ->
  wf HASH_SIZE nn -> byte_list (compressed nn) -> -1 <= nk <= 255 -> isset nn nk = true ->
  (forall x, e = Some x -> match compressed nn with [] => -2 | c :: _ => c end = x) ->
  siblings HASH_SIZE (d_heap d2) nn (t_node t2) nk F M ->
  (forall c l x, -1 <= c <= 255 -> c <> nk -> link nn c = Some l -> F c x ->
    owned d2 x /\ ~ G x /\ (f x \/ avail (d_alloc d) x)) ->
  cur k = pre ++ compressed nn -> branch (rest k) = nk -> byte_list (rest k) ->
  Z.of_nat (length (pre ++ compressed nn ++ rest k)) < 2 ^ 16 ->
  (length (rest k) <= 255 * fuel)%nat -> (1 <= fuel)%nat ->
  (forall v q, byte_list q ->
    node_map (compressed nn) (link nn) (fun c => if c =? nk then only (rest k) v else M c) q =
    put_map (compressed nn ++ rest k) v m q) ->
  exists t' ts' k' d',
    (d3 ← free_node (t_node t) d2;
     '(t3, ts3, d4) ← triewrite.update_offset (A := A) txn (link_to (t_node t2) TRIE) t2 ts d3;
     create_leaf fuel value_size (g t3) ts3 k d4) = Some (t' :: ts', k', d') /\
    landed d d' t' ts' k' (pre ++ compressed nn ++ rest k)
      (fun v => put_map (pre ++ compressed nn ++ rest k) v (W m)) (fun x => G x \/ f x) n.
Proof.
  intros Fo Ow Gr Er Ro Al Av Hb Ht Hop Eo Ek Ei Hg Hw Hcb Hnk Hs Hf Sib HF Hc Hbr Hbl Hlen Hfu H1 Em.
  destruct Fo as [C R Hfb D En Ekp]. set (p := t_node t2) in *.
  assert (forall x, owned d x -> d_heap d2 x = d_heap d x /\ owned d2 x /\ x <> p) as K.
  { intros x Hx. split; [apply (gr_frame _ _ _ _ Gr); [apply Hx|tauto]|]. split; [eapply grows_owned; [exact Gr|done|tauto]|].
    intros ->. by apply (ow_used _ _ _ _ _ _ Hx). }
  assert (f (t_node t)) as Hft by (rewrite En; by eapply (rep_target HASH_SIZE)).
  destruct (K (t_node t) ltac:(apply Ow; by right)) as (_ & Kt & _).
  destruct (free_node_spec _ _ (t_node t) d2 Ro ltac:(apply Kt)) as (a3 & E3 & R3 & M3).
  rewrite E3. cbn [mbind option_bind]. set (d3 := Db (d_heap d2) (d_root d2) a3) in *.
  assert (grows d2 d3 (fun _ => False)) as Gr3 by (split; cbn; auto).
  assert (forall x, owned d2 x -> owned d3 x) as O3 by (intros x Hx; eapply grows_owned; [exact Gr3|done|tauto]).
  destruct (ctx_keep HASH_SIZE d d3 _ _ _ _ _ _ C) as [C3 L3]; [|exact Er|].
  { intros x Hx. apply K, Ow. by left. }
  rewrite <- Eo in C3.
  destruct (update_offset_spec _ _ _ _ txn Lay (fuel + n) d3 t2 ts (link_to p TRIE) _ _ _ _ C3)
    as (o & ts3 & d4 & G4 & W4 & E4 & _ & [C4 Em4 El4 Gr4 Ow4 Pg4 Wr4 Ro4]);
    [intros x Hx; apply O3, K, Ow; by left|exact R3|].
  rewrite E4. cbn [mbind option_bind].
  destruct (Hg (set_offset o t2)) as (Eg1 & Eg2 & Eg3 & Eg4). cbn [set_offset t_node t_offset t_keypos t_link_idx] in *.
  assert (~ avail a3 p) as Hp3 by (intros Ha; by apply (ow_used _ _ _ _ _ _ Hop), M3).
  assert (~ G p) as Hgp by (intros Hx; by destruct (K p ltac:(apply Ow; by left)) as (_ & _ & ?)).
  assert (d_heap d4 p = d_heap d2 p) as E4p by (by rewrite (gr_frame _ _ _ _ Gr4)).
  destruct (link_to_spec p TRIE ltac:(apply Al) ltac:(lia)) as [Lt Ll].
  assert (forall c l x, -1 <= c <= 255 -> c <> nk -> link nn c = Some l -> F c x ->
    d_heap d4 x = d_heap d2 x /\ owned d4 x /\ ~ G4 x) as HF4.
  { intros c l x H2 H3 H4 H5. destruct (HF c l x H2 H3 H4 H5) as (Ox & Hgx & _).
    pose proof (O3 x Ox) as Ox3. split; [|split].
    - by rewrite (gr_frame _ _ _ _ Gr4) by (done || apply Ox3).
    - eapply grows_owned; [exact Gr4|exact Ox3|done].
    - intros Hx. destruct (Pg4 x Hx); [done|]. by apply (ow_used _ _ _ _ _ _ Ox3). }
  assert (waiting d4 (g (set_offset o t2)) ts3 pre e nn nk G4 W4 F M) as Wa.
  { split; rewrite ?Eg1, ?Eg2, ?Eg3, ?Eg4, ?El4, ?Lt; fold p; try done; try (split_and!; done || lia).
    - by rewrite Ek.
    - by rewrite E4p.
    - destruct Sib as [S1 S2]. split; [|done]. intros c l H2 H3 H4. destruct (S1 c l H2 H3 H4) as (Rc & Fc & Nc).
      split_and!; [|rewrite (first_byte_frame (d_heap d2)); [done|]|done].
      + eapply (rep_frame HASH_SIZE); [exact Rc|]. intros x Hx. by apply (HF4 c l x).
      + apply (HF4 c l); try done. by eapply (rep_target HASH_SIZE).
    - split.
      + intros Hx. by destruct (Pg4 p Hx).
      + intros c l x H2 H3 H4 H5. by apply (HF4 c l x).
    - split; [done|]. split.
      + eapply grows_owned; [exact Gr4|by apply O3|done].
      + intros c l x H2 H3 H4 H5. by apply (HF4 c l x).
    - by rewrite E4p. }
  destruct (hang_spec fuel n d4 _ _ k _ _ _ _ _ _ _ _ m Wa Ro4 Hc Hbr Hbl Hlen Hfu H1 Em) as (t' & ts' & k' & d' & E & L).
  exists t', ts', k', d'. split; [exact E|].
  eapply (landed_after d d4); [|exact L| |].
  - eapply (grows_trans txn d d2 d4 _ G G); [exact Gr| |intros x Hx [[]|]; done].
    eapply (grows_trans txn d2 d3 d4 _ G G); [exact Gr3|exact Gr4|intros x Hx [[]|]; done].
  - intros x Hx [Hgx|[Hx4|[->|(c & l & H2 & H3 & H4 & H5)]]]; [by left| | |].
    + destruct (Pg4 x Hx4) as [|Ha]; [by left|]. destruct Hx. by apply (gr_mono _ _ _ _ Gr), M3.
    + rewrite Eg1 in Hx. fold p in Hx. done.
    + destruct (HF c l x H2 H3 H4 H5) as (_ & _ & [|]); [by right|done].
  - intros v q Hq. cbn beta. unfold put_map. destruct (decide _); [done|]. by apply Em4.
Qed.

End with_alloc.
End trieinsert.
