(* ===== verification/TrieExec.v ===== *)
(** * TrieExec: an insertion changes the map at its key and nothing else

    [exec] is followed through its cases: replacing the value of a leaf, splitting a
    leaf, adding a branch, in place or by a copy, and splitting a prefix. *)
From S2P Require Import Prelude Bits Util Node Leaf NodeFacts NodeUpdate NodeCreate Memory MemoryFacts.
From S2P Require Import Trie TrieWrite TrieRep TrieFind TrieLookup TrieStore TrieInsert.

Module trieexec.
Import util.
Export trieinsert.

Section with_alloc.
Context {A : Type} `{PA : PageAlloc A}.
Context (HASH_SIZE PAGE_HEADER PAGE_COUNT : Z) (PAGE_SIZES : Z -> Z).
Context (raw : Z -> TrieNode.node) (raw_leaf : Z -> LeafNode.node) (txn : Z).
Hypothesis Lay : layout HASH_SIZE PAGE_HEADER PAGE_COUNT PAGE_SIZES.
Let HASH_SIZE_range : 0 <= HASH_SIZE <= 512 := ly_hash _ _ _ _ Lay.

Abbreviation rep := (trierep.rep HASH_SIZE).
Abbreviation ctx := (trierep.ctx HASH_SIZE).
Abbreviation db := (@triewrite.db A).
Abbreviation owned := (triestore.owned HASH_SIZE PAGE_HEADER PAGE_COUNT PAGE_SIZES).
Abbreviation grows := (triestore.grows txn).
Abbreviation roomy := (triestore.roomy PAGE_COUNT).
Abbreviation room := (triestore.room PAGE_HEADER PAGE_COUNT PAGE_SIZES).
Abbreviation create_leaf := (triewrite.create_leaf (A := A) HASH_SIZE PAGE_HEADER PAGE_COUNT PAGE_SIZES raw raw_leaf txn).

(** The size of a value that is stored in its leaf, whatever the key. *)
Context (value_size : Z).
Hypothesis value_fits : 0 <= value_size < 2 ^ 15 /\ LeafNode.HEADER_SIZE HASH_SIZE + 255 + value_size <= room.

Abbreviation landed := (trieinsert.landed HASH_SIZE PAGE_HEADER PAGE_COUNT PAGE_SIZES raw_leaf txn value_size).

(** What the cases share: the search for [pre ++ r] ended at [t]. *)
Record ready (d : db) (t : transition) (ts : list transition) (k : keys_state) (pre r : list Z)
    (e : option Z) (f : Z -> Prop) (m : keymap) (G : Z -> Prop) (W : keymap -> keymap) : Prop := {
  rd_focus : focus HASH_SIZE (d_heap d) (d_root d) t ts G W pre e f m;
  rd_stopped : stopped (d_heap d) (d_root d) t k pre r;
  rd_enters : enters e r;
  rd_bytes : byte_list (pre ++ r);
  rd_length : Z.of_nat (length (pre ++ r)) < 2 ^ 16;
  rd_owned : forall x, G x \/ f x -> owned d x
}.

Lemma room_max s : 0 <= s < PAGE_COUNT -> PAGE_SIZES s - PAGE_HEADER <= room.
Proof.
  intros Hs. pose proof (ly_mono _ _ _ _ Lay) as Hm. unfold triestore.room.
  destruct (Z.eq_dec s (PAGE_COUNT - 1)) as [->|]; [lia|]. specialize (Hm s (PAGE_COUNT - 1)). lia.
Qed.

Lemma leaf_fits d x l : owned d x -> body (d_heap d x) = OLeaf l -> leaf_ok l ->
  LeafNode.HEADER_SIZE HASH_SIZE + LeafNode.key_size l + LeafNode.vsize l <= room /\ 0 <= LeafNode.vsize l < 2 ^ 15.
Proof.
  intros [_ O2 O3] Hb [K1 K2 K3 K4]. rewrite Hb in O3. cbn [obj_size] in O3. pose proof (room_max _ O2).
  assert (0 <= LeafNode.vsize l < 2 ^ 15) as Hv.
  { unfold LeafNode.vsize. split; [apply Z.land_nonneg; lia|].
    destruct (Z.eq_dec (Z.land (LeafNode.value_size l) (Z.lnot LeafNode.BIG_VALUE_FLAG)) 0) as [->|Hn]; [done|].
    apply Z.log2_lt_pow2; [enough (0 <= Z.land (LeafNode.value_size l) (Z.lnot LeafNode.BIG_VALUE_FLAG)) by lia; apply Z.land_nonneg; lia|].
    apply Z.nle_gt. intros Hl. set (z := Z.land _ _) in *.
    assert (Z.testbit z (Z.log2 z) = true) as Ht by (apply Z.bit_log2; enough (0 <= z) by lia; apply Z.land_nonneg; lia).
    unfold z in Ht at 1. rewrite Z.land_spec, Z.lnot_spec in Ht by lia. apply andb_true_iff in Ht as [T1 T2].
    assert (Z.log2 z < 16) as H16.
    { apply Z.nle_gt. intros H16. rewrite Z.bits_above_log2 in T1; [done|lia|].
      destruct (Z.eq_dec (LeafNode.value_size l) 0) as [E|]; [rewrite E; simpl; lia|].
      enough (Z.log2 (LeafNode.value_size l) < 16) by lia. apply Z.log2_lt_pow2; lia. }
    assert (Z.log2 z = 15) as E15 by lia. rewrite E15 in T2. done. }
  split; [|done]. unfold LeafNode.size, LeafNode.HEADER_SIZE in *. pose proof (ly_hash _ _ _ _ Lay).
  rewrite wrap_small in O3; [lia|]. change (2 ^ 15) with 32768 in Hv. change (2 ^ 16) with 65536. lia.
Qed.

Lemma only_put r v v0 m q : (forall q, byte_list q -> m q = only r v0 q) -> byte_list q ->
  only r v q = put_map r v m q.
Proof. intros E Hq. unfold put_map. rewrite E by done. unfold only. by destruct (decide (q = r)). Qed.

(** The key is there already: a new leaf takes the place of the old one. *)
Lemma change_leaf_replaces fuel n d t ts k pre r e f m G W :
  ready d t ts k pre r e f m G W -> is_leaf (d_heap d) (d_root d) t = true -> t_cmp t = 0 ->
  roomy (S (S (2 * length ts + n))) (d_alloc d) ->
  exists t' ts' k' d', change_leaf HASH_SIZE PAGE_HEADER PAGE_COUNT PAGE_SIZES raw raw_leaf txn fuel value_size t ts k d =
      Some (t' :: ts', k', d') /\
    landed d d' t' ts' k' (pre ++ r) (fun v => put_map (pre ++ r) v (W m)) (fun x => G x \/ f x) n.
Proof.
  intros [Fo St He Hb Hlen Ow] Hl Hcmp Ro. unfold change_leaf. rewrite Hcmp. cbn [Z.eqb].
  destruct (focus_cases _ _ _ _ _ _ _ _ _ _ _ Fo) as [(_ & l & Hbd & Hok & Hm)|(Hl' & _)]; [|congruence].
  destruct St as [S1 S2 S3 S4]. unfold content, t_leaf, leaf_at in *. rewrite Hl, Hbd in *.
  rewrite Hcmp in S4. symmetry in S4. apply lex_zero in S4. rewrite <- S4.
  rewrite <- S4, (proj2 (common_prefix_refl_iff r r eq_refl)) in S1, S2, S3 by done.
  rewrite firstn_all in S2. rewrite drop_all in S3.
  pose proof Hok as [K1 K2 K3 K4]. pose proof (leaf_key_length l Hok) as Hkl. rewrite <- S4 in Hkl.
  destruct Fo as [C R Hfb D En Ek].
  assert (Z.of_nat (length r) <= 255) as H255 by lia.
  destruct (set_leaf_size _ _ _ _ Lay _ value_fits (raw_leaf 0) r H255) as [_ Hsz]. unfold fill_leaf.
  destruct (alloc_node_spec _ _ _ _ txn Lay _ _ d Ro Hsz) as (p & d1 & E1 & _ & F1).
  rewrite E1. cbn [mbind option_bind].
  specialize (F1 (OLeaf (LeafNode.set (raw_leaf p) r value_size))). set (d2 := write p _ d1) in *.
  assert (forall x, owned d x -> d_heap d2 x = d_heap d x /\ owned d2 x /\ x <> p) as K.
  { intros x Hx. eapply fresh_keeps; [exact Lay|exact F1|done]. }
  assert (f (t_node t)) as Hft by (rewrite En; by eapply (rep_target HASH_SIZE)).
  destruct (K (t_node t) ltac:(apply Ow; by right)) as (_ & Kt & _).
  destruct (free_node_spec _ _ (t_node t) d2 (fr_room _ _ _ _ _ _ _ _ _ _ F1) ltac:(apply Kt)) as (a3 & E3 & R3 & M3).
  rewrite E3. cbn [mbind option_bind]. set (d3 := Db (d_heap d2) (d_root d2) a3) in *.
  assert (grows d2 d3 (fun _ => False)) as Gr3 by (split; cbn; auto).
  destruct (ctx_keep HASH_SIZE d d3 _ _ _ _ _ _ C) as [C3 _];
    [intros x Hx; apply K, Ow; by left|apply (fr_root _ _ _ _ _ _ _ _ _ _ F1)|].
  destruct (update_offset_spec _ _ _ _ txn Lay n d3 (set_node p t) ts (link_to p LEAF) _ _ _ _ C3)
    as (o & ts3 & d4 & G4 & W4 & E4 & _ & [C4 Em4 El4 Gr4 Ow4 Pg4 Wr4 Ro4]);
    [intros x Hx; eapply grows_owned; [exact Gr3|apply K, Ow; by left|tauto]|exact R3|].
  rewrite E4. cbn [mbind option_bind].
  assert (~ avail a3 p) as Hp3 by (intros Ha; by apply (fr_used _ _ _ _ _ _ _ _ _ _ F1), M3).
  assert (~ G p) as Hgp by (intros Hx; by destruct (K p ltac:(apply Ow; by left)) as (_ & _ & ?)).
  assert (d_heap d4 p = d_heap d2 p) as E4p by (by rewrite (gr_frame _ _ _ _ Gr4)).
  destruct (fresh_body _ _ _ _ _ _ _ _ _ _ F1) as [B2 T2].
  eexists _, ts3, k, d4. split; [done|].
  split; cbn [set_offset set_node t_node t_offset t_keypos t_prefix t_cmp]; try done.
  - exists G4, W4, pre, e, r. split_and!; try done.
    + by rewrite E4p.
    + intros v q Hq. rewrite Em4 by done. rewrite <- (ctx_put HASH_SIZE _ _ _ _ _ _ _ _ _ v m q C He Hq).
      eapply (ctx_replace HASH_SIZE); [exact C|done|]. intros q' Hq'. apply (only_put r v (payload_of l)); [|done].
      intros q0 Hq0. rewrite Hm, <- S4 by done. done.
    + intros x Hx. split; [by apply Ow4|]. intros ->. by destruct (Pg4 p Hx).
  - apply (fr_aligned _ _ _ _ _ _ _ _ _ _ F1).
  - by rewrite E4p.
  - split; [apply (fr_avail _ _ _ _ _ _ _ _ _ _ F1)|]. eapply grows_owned; [exact Gr4| |done].
    eapply grows_owned; [exact Gr3| |tauto]. eapply fresh_owned; [exact F1|]. cbn [obj_size].
    destruct (set_leaf_size _ _ _ _ Lay _ value_fits (raw_leaf p) r H255) as [-> _]. lia.
  - eapply (grows_trans txn d d2 d4 _ G); [apply (fr_grows _ _ _ _ _ _ _ _ _ _ F1)| |intros x Hx [[]|]; by left].
    eapply (grows_trans txn d2 d3 d4 _ G G); [exact Gr3|exact Gr4|intros x Hx [[]|]; done].
Qed.

(** What a search that passed the prefix of a node knows about it. *)
Record at_node (d : db) (t : transition) (k : keys_state) (pre r : list Z) (e : option Z) (f : Z -> Prop)
    (m : keymap) (G : Z -> Prop) (nt : node) (F : Z -> Z -> Prop) (M : Z -> keymap) : Prop := {
  an_leaf : is_leaf (d_heap d) (d_root d) t = false;
  an_body : body (d_heap d (t_node t)) = OTrie nt;
  an_wf : wf HASH_SIZE nt /\ byte_list (compressed nt);
  an_rep : forall c l, -1 <= c <= 255 -> link nt c = Some l ->
    rep (d_heap d) l (F c) (M c) /\ first_byte (d_heap d) l = c /\ ~ F c (t_node t);
  an_disj : forall c l c' l' x, -1 <= c <= 255 -> -1 <= c' <= 255 -> link nt c = Some l ->
    link nt c' = Some l' -> F c x -> F c' x -> c = c';
  an_pages : forall x, f x <-> x = t_node t \/ exists c l, -1 <= c <= 255 /\ link nt c = Some l /\ F c x;
  an_map : forall q, byte_list q -> m q = node_map (compressed nt) (link nt) M q;
  an_apart : forall c l x, -1 <= c <= 255 -> link nt c = Some l -> F c x -> ~ G x;
  an_first : forall x, e = Some x -> match compressed nt with [] => -2 | c :: _ => c end = x;
  an_offset : target (load (d_heap d) (d_root d) (t_offset t)) = t_node t /\ t_node t <> 0 /\
    points_leaf (load (d_heap d) (d_root d) (t_offset t)) = false;
  an_prefix : t_prefix t = Z.of_nat (common_prefix r (compressed nt));
  an_cur : cur k = pre ++ take (common_prefix r (compressed nt)) r;
  an_rest : rest k = drop (common_prefix r (compressed nt)) r
}.

Lemma ready_node d t ts k pre r e f m G W : ready d t ts k pre r e f m G W ->
  is_leaf (d_heap d) (d_root d) t = false -> exists nt F M, at_node d t k pre r e f m G nt F M.
Proof.
  intros [Fo [S1 S2 S3 S4] He Hb Hlen Ow] Hl.
  destruct (focus_cases _ _ _ _ _ _ _ _ _ _ _ Fo) as
    [(Hl' & _)|(_ & nt & F & M & Hbd & Hw & Hc & H1 & H2 & H3 & H4 & Fo' & Hm & Hp)]; [congruence|].
  unfold content, t_trie, trie_at in *. rewrite Hl, Hbd in *. destruct Fo as [C R Hfb D En Ek].
  exists nt, F, M. split; try done.
  - intros c l Hc1 Hl1. split_and!; [by apply H1|by apply H2|by eapply H3].
  - intros c l x Hc1 Hl1 Hx Hg. apply (D x); [|done]. apply Hp. right. by exists c, l.
  - intros x Hx. rewrite <- (Hfb x Hx). unfold first_byte, trie_at. unfold is_leaf in Hl. by rewrite Hl, <- En, Hbd.
  - split_and!; [done| |done]. rewrite En. by eapply (rep_nonzero HASH_SIZE).
Qed.

(** The siblings of a new branch are the links there were. *)
Lemma siblings_of (d d2 : db) t k pre r e f m G nt nn nk p F M : at_node d t k pre r e f m G nt F M ->
  (forall x, f x -> x <> t_node t -> d_heap d2 x = d_heap d x) ->
  (forall c, -1 <= c <= 255 -> c <> nk -> link nn c = link nt c) -> (p = t_node t \/ ~ f p) ->
  siblings HASH_SIZE (d_heap d2) nn p nk F M.
Proof.
  intros An E El Hp. split.
  - intros c l H1 H2 H3. rewrite El in H3 by done. destruct (an_rep _ _ _ _ _ _ _ _ _ _ _ _ An c l H1 H3) as (R & Fb & N).
    assert (forall x, F c x -> d_heap d2 x = d_heap d x) as EF.
    { intros x Hx. apply E; [|by intros ->]. apply (an_pages _ _ _ _ _ _ _ _ _ _ _ _ An). right. by exists c, l. }
    split_and!; [by eapply (rep_frame HASH_SIZE)| |].
    + rewrite (first_byte_frame (d_heap d)); [done|]. apply EF. by eapply (rep_target HASH_SIZE).
    + intros Hx. destruct Hp as [->|Hp]; [done|]. apply Hp, (an_pages _ _ _ _ _ _ _ _ _ _ _ _ An). right. by exists c, l.
  - intros c l c' l' x H1 H2 H3 H4 H5 H6. rewrite El in H5, H6 by done.
    by apply (an_disj _ _ _ _ _ _ _ _ _ _ _ _ An c l c' l' x).
Qed.

Lemma set_cmp_keeps c u : t_node (set_cmp c u) = t_node u /\ t_offset (set_cmp c u) = t_offset u /\
  t_keypos (set_cmp c u) = t_keypos u /\ t_link_idx (set_cmp c u) = t_link_idx u.
Proof. done. Qed.

Lemma key_branch r : byte_list r -> (match r with [] => NONE | c :: _ => c end) = branch r.
Proof. by destruct r. Qed.

(** The search passed the prefix but the branch is missing. *)
Lemma missing_branch d t ts k pre r e f m G W nt F M : ready d t ts k pre r e f m G W ->
  at_node d t k pre r e f m G nt F M -> t_prefix t = compressed_len nt ->
  r = compressed nt ++ rest k /\ cur k = pre ++ compressed nt /\ isset nt (branch (rest k)) = false /\
  link nt (branch (rest k)) = None /\
  match rest k with _ :: _ => t_branch_key t | [] => NONE end = branch (rest k).
Proof.
  intros [Fo [S1 S2 S3 S4] He Hb Hlen Ow] An Ep.
  destruct An as [Hl Hbd [Hw Hc] _ _ _ _ _ _ _ Ap Ac Ar].
  pose proof (compressed_length HASH_SIZE nt Hw) as Ecl.
  destruct (common_prefix_full r (compressed nt)) as [q Eq]; [lia|].
  assert (common_prefix r (compressed nt) = length (compressed nt)) as Ecp by lia. rewrite Ecp in *.
  assert (rest k = q) as Erq by by rewrite Ar, Eq, drop_app_length.
  rewrite Hl in S4. unfold t_trie, trie_at in S4. rewrite Hbd, Ep, Z.ltb_irrefl in S4.
  apply byte_list_app in Hb as [_ Hbr]. rewrite Eq in Hbr. apply byte_list_app in Hbr as [_ Hbq].
  assert (link nt (branch (rest k)) = None) as Hln.
  { rewrite Erq in *. destruct q as [|c q]; [|by destruct S4 as [? _]]. simpl.
    destruct S4 as [Hn _]. rewrite (link_isset HASH_SIZE nt NONE Hw) by (unfold NONE; lia).
    change (isset nt NONE) with (has_none nt). by rewrite Hn. }
  split_and!; [by rewrite Erq|by rewrite Ac, Eq, take_app_length| |done|].
  - rewrite (link_isset HASH_SIZE nt _ Hw) in Hln by (rewrite Erq; by apply byte_branch). by destruct (isset nt _).
  - destruct (rest k) as [|c q']; [done|]. simpl. by destruct S4 as (_ & ? & _).
Qed.

(** A branch more in the node. *)
Lemma added_map nt nn nk i F M d t k pre r e f m G v q : at_node d t k pre r e f m G nt F M ->
  NodeUpdate.inserted HASH_SIZE nt nn nk i -> -1 <= nk <= 255 -> link nt nk = None -> branch (rest k) = nk -> byte_list q ->
  node_map (compressed nn) (link nn) (fun c => if c =? nk then only (rest k) v else M c) q =
    put_map (compressed nn ++ rest k) v m q.
Proof.
  intros An [Iw Ip Is Ii Il _] Hnk Hno Hbr Hq. rewrite Ip.
  apply (node_map_put _ _ (link nt)); try done.
  - apply (an_map _ _ _ _ _ _ _ _ _ _ _ _ An).
  - rewrite (link_isset HASH_SIZE nn nk Iw Hnk), Is, Z.eqb_refl by done. by eexists.
  - intros c Hc Hne. by rewrite Il.
Qed.

Lemma add_in_place fuel n d t ts k pre r e f m G W nt F M :
  ready d t ts k pre r e f m G W -> at_node d t k pre r e f m G nt F M -> t_prefix t = compressed_len nt ->
  txn_id (d_heap d (t_node t)) = txn ->
  increment_size HASH_SIZE nt (branch (rest k)) + PAGE_HEADER <= PAGE_SIZES (slot_id (d_heap d (t_node t))) ->
  roomy (fuel + n) (d_alloc d) -> (length (rest k) <= 255 * fuel)%nat -> (1 <= fuel)%nat ->
  let '(nn, i) := insert_branch nt (branch (rest k)) in
  let pg := d_heap d (t_node t) in
  let d2 := Db (upd (d_heap d) (t_node t) (Page (slot_id pg) (increment_size HASH_SIZE nt (branch (rest k)))
    (txn_id pg) (OTrie nn))) (d_root d) (d_alloc d) in
  exists t' ts' k' d', create_leaf fuel value_size (set_cmp 0 (set_idx i t)) ts k d2 = Some (t' :: ts', k', d') /\
    landed d d' t' ts' k' (pre ++ r) (fun v => put_map (pre ++ r) v (W m)) (fun x => G x \/ f x) n.
Proof.
  intros Rd An Ep Ht Hfit Ro Hf H1.
  destruct (missing_branch _ _ _ _ _ _ _ _ _ _ _ _ _ _ Rd An Ep) as (Er & Ec & Hns & Hln & _).
  pose proof Rd as [Fo _ He Hb Hlen Ow]. pose proof An as [Hl Hbd [Hw Hc] Arep Adisj Apg Amap Aap Afst (Ao1 & Ao2 & Ao3) _ _ _].
  assert (byte_list (rest k)) as Hbr.
  { apply byte_list_app in Hb as [_ Hb]. rewrite Er in Hb. by apply byte_list_app in Hb as [_ ?]. }
  pose proof (byte_branch _ Hbr) as Hnk. set (nk := branch (rest k)) in *.
  pose proof (NodeUpdate.insert_branch_inserted HASH_SIZE HASH_SIZE_range nt nk Hw Hnk Hns) as Ins.
  destruct (insert_branch nt nk) as [nn i]. intros pg d2.
  pose proof Ins as [Iw Ip Is Ii Il Isz].
  assert (f (t_node t)) as Hft by (apply Apg; by left).
  assert (~ G (t_node t)) as Hgt by (intros Hg; by apply (fo_disj _ _ _ _ _ _ _ _ _ _ _ Fo (t_node t))).
  assert (forall x, x <> t_node t -> d_heap d2 x = d_heap d x) as E2 by (intros x Hx; cbn; by rewrite upd_ne).
  assert (d_heap d2 (t_node t) = Page (slot_id pg) (increment_size HASH_SIZE nt nk) (txn_id pg) (OTrie nn)) as E2t
    by (cbn; by rewrite upd_eq).
  assert (grows d d2 (fun x => x = t_node t)) as Gr.
  { split; cbn [d2 d_alloc]; [done|..]; intros x Hx.
    - intros Hn. by apply E2.
    - intros Hn. apply E2. intros ->. done.
    - destruct (Z.eq_dec x (t_node t)) as [->|]; [by rewrite E2t|by rewrite E2]. }
  assert (forall x, owned d x -> x <> t_node t -> owned d2 x) as O2.
  { intros x Ox Hx. by eapply grows_owned; [exact Gr|..]. }
  destruct (ctx_keep HASH_SIZE d d2 _ _ _ _ _ _ (fo_ctx _ _ _ _ _ _ _ _ _ _ _ Fo)) as [C2 L2];
    [intros x Hx; apply E2; by intros ->|done|].
  assert (forall c l x, -1 <= c <= 255 -> c <> nk -> link nn c = Some l -> F c x -> f x /\ x <> t_node t /\ ~ G x) as HF.
  { intros c l x H2 H3 H4 H5. rewrite Il in H4 by done. split_and!.
    - apply Apg. right. by exists c, l.
    - intros ->. by destruct (Arep c l H2 H4) as (_ & _ & ?).
    - by apply (Aap c l). }
  assert (waiting HASH_SIZE PAGE_HEADER PAGE_COUNT PAGE_SIZES txn d2 (set_cmp 0 (set_idx i t)) ts pre e nn nk G W F M) as Wa.
  { split; cbn [set_cmp set_prefix_cmp set_idx t_offset t_node t_keypos t_link_idx]; rewrite ?L2; try done.
    - apply (fo_keypos _ _ _ _ _ _ _ _ _ _ _ Fo).
    - by rewrite E2t.
    - split_and!; try (done || lia); [by rewrite Ip|]. by rewrite Is, Z.eqb_refl.
    - by rewrite Ip.
    - eapply siblings_of; [exact An| |exact Il|by left]. intros x _ Hx. by apply E2.
    - split; [done|]. intros c l x H2 H3 H4 H5. by apply (HF c l).
    - split_and!.
      + intros x Hx. apply O2; [apply Ow; by left|by intros ->].
      + destruct (Ow (t_node t) ltac:(by right)) as [Oa Ob Oc]. split; rewrite ?E2t; [done|done|].
        cbn [obj_size slot_id body]. rewrite Isz. exact Hfit.
      + intros c l x H2 H3 H4 H5. destruct (HF c l x H2 H3 H4 H5) as (? & ? & ?). apply O2; [apply Ow; by right|done].
    - by rewrite E2t. }
  assert (compressed nn ++ rest k = r) as Er' by (rewrite Ip; by symmetry).
  destruct (hang_spec HASH_SIZE PAGE_HEADER PAGE_COUNT PAGE_SIZES raw raw_leaf txn Lay value_size value_fits
    fuel n d2 _ _ k _ _ _ _ _ _ _ _ m Wa) as (t' & ts' & k' & d' & E & L); try done.
  - by rewrite Ip.
  - by rewrite Er'.
  - intros v q Hq. by eapply added_map.
  - exists t', ts', k', d'. split; [exact E|]. rewrite Er' in L.
    eapply landed_after; [exact Gr|exact L| |done].
    intros x Hx [->|[Hg|[->|(c & l & H2 & H3 & H4 & H5)]]]; [by right|by left|by right|].
    right. by apply (HF c l).
Qed.

Lemma trie_fits nn : wf HASH_SIZE nn -> 0 <= size nn <= room.
Proof.
  intros Hw. pose proof (NodeCreate.size_bounds HASH_SIZE HASH_SIZE_range nn Hw) as [H1 H2].
  pose proof (ly_trie _ _ _ _ Lay). unfold triestore.room. unfold HEADER_SIZE in H1. lia.
Qed.

Lemma add_by_copy fuel n d t ts k pre r e f m G W nt F M :
  ready d t ts k pre r e f m G W -> at_node d t k pre r e f m G nt F M -> t_prefix t = compressed_len nt ->
  roomy (S (S (2 * length ts + (fuel + n)))) (d_alloc d) ->
  (length (rest k) <= 255 * fuel)%nat -> (1 <= fuel)%nat ->
  exists t' ts' k' d',
    ('(p, d) ← triewrite.alloc_node (A := A) PAGE_HEADER PAGE_COUNT PAGE_SIZES txn
        (increment_size HASH_SIZE nt (branch (rest k))) d;
     let '(nn, i) := create_insert HASH_SIZE (raw p) nt (branch (rest k)) in
     let d := write p (OTrie nn) d in
     let t2 := set_idx i (set_node p t) in
     d ← free_node (t_node t) d;
     '(t3, ts, d) ← triewrite.update_offset (A := A) txn (link_to p TRIE) t2 ts d;
     create_leaf fuel value_size (set_cmp 0 t3) ts k d) = Some (t' :: ts', k', d') /\
    landed d d' t' ts' k' (pre ++ r) (fun v => put_map (pre ++ r) v (W m)) (fun x => G x \/ f x) n.
Proof.
  intros Rd An Ep Ro Hf H1.
  destruct (missing_branch _ _ _ _ _ _ _ _ _ _ _ _ _ _ Rd An Ep) as (Er & Ec & Hns & Hln & _).
  pose proof Rd as [Fo _ He Hb Hlen Ow]. pose proof An as [Hl Hbd [Hw Hc] Arep Adisj Apg Amap Aap Afst _ _ _ _].
  assert (byte_list (rest k)) as Hbr.
  { apply byte_list_app in Hb as [_ Hb]. rewrite Er in Hb. by apply byte_list_app in Hb as [_ ?]. }
  pose proof (byte_branch _ Hbr) as Hnk. set (nk := branch (rest k)) in *.
  assert (0 <= increment_size HASH_SIZE nt nk <= room) as Hsz.
  { pose proof (NodeUpdate.create_insert_inserted HASH_SIZE HASH_SIZE_range trie.blank nt nk Hw Hnk Hns) as Ins.
    destruct (create_insert HASH_SIZE trie.blank nt nk) as [n0 i0]. destruct Ins as [Iw _ _ _ _ <-]. by apply trie_fits. }
  destruct (alloc_node_spec _ _ _ _ txn Lay _ _ d Ro Hsz) as (p & d1 & E1 & _ & F1).
  rewrite E1. cbn [mbind option_bind].
  pose proof (NodeUpdate.create_insert_inserted HASH_SIZE HASH_SIZE_range (raw p) nt nk Hw Hnk Hns) as Ins.
  destruct (create_insert HASH_SIZE (raw p) nt nk) as [nn i]. pose proof Ins as [Iw Ip Is Ii Il Isz].
  specialize (F1 (OTrie nn)). set (d2 := write p (OTrie nn) d1) in *. cbv zeta.
  destruct (fresh_body _ _ _ _ _ _ _ _ _ _ F1) as [B2 T2].
  assert (forall x, f x -> d_heap d2 x = d_heap d x /\ owned d2 x /\ x <> p) as K.
  { intros x Hx. eapply fresh_keeps; [exact Lay|exact F1|apply Ow; by right]. }
  assert (compressed nn ++ rest k = r) as Er' by (rewrite Ip; by symmetry).
  destruct (grow_spec HASH_SIZE PAGE_HEADER PAGE_COUNT PAGE_SIZES raw raw_leaf txn Lay value_size value_fits
    fuel n d d2 t (set_idx i (set_node p t)) ts k pre e f m G W nn nk F M (set_cmp 0) Fo Ow)
    as (t' & ts' & k' & d' & E & L); cbn [set_idx set_node t_node t_offset t_keypos t_link_idx]; try done.
  - apply (fr_grows _ _ _ _ _ _ _ _ _ _ F1).
  - apply (fr_root _ _ _ _ _ _ _ _ _ _ F1).
  - apply (fr_room _ _ _ _ _ _ _ _ _ _ F1).
  - apply (fr_aligned _ _ _ _ _ _ _ _ _ _ F1).
  - apply (fr_avail _ _ _ _ _ _ _ _ _ _ F1).
  - eapply fresh_owned; [exact F1|]. cbn [obj_size]. lia.
  - by rewrite Ip.
  - by rewrite Is, Z.eqb_refl.
  - by rewrite Ip.
  - eapply siblings_of; [exact An| |exact Il|].
    + intros x Hx _. by apply K.
    + right. intros Hx. by destruct (K p Hx) as (_ & _ & ?).
  - intros c l x H2 H3 H4 H5. rewrite Il in H4 by done.
    assert (f x) as Hx by (apply Apg; right; by exists c, l). split_and!; [by apply K|by apply (Aap c l)|by left].
  - by rewrite Ip.
  - by rewrite Er'.
  - intros v q Hq. by eapply added_map.
  - exists t', ts', k', d'. rewrite Er' in L. by split.
Qed.

Lemma add_to_array_spec fuel n d t ts k pre r e f m G W nt F M :
  ready d t ts k pre r e f m G W -> at_node d t k pre r e f m G nt F M -> t_prefix t = compressed_len nt ->
  roomy (S (S (2 * length ts + (fuel + n)))) (d_alloc d) ->
  (length (rest k) <= 255 * fuel)%nat -> (1 <= fuel)%nat ->
  exists t' ts' k' d',
    add_to_array HASH_SIZE PAGE_HEADER PAGE_COUNT PAGE_SIZES raw raw_leaf txn fuel value_size t ts k d =
      Some (t' :: ts', k', d') /\
    landed d d' t' ts' k' (pre ++ r) (fun v => put_map (pre ++ r) v (W m)) (fun x => G x \/ f x) n.
Proof.
  intros Rd An Ep Ro Hf H1.
  destruct (missing_branch _ _ _ _ _ _ _ _ _ _ _ _ _ _ Rd An Ep) as (_ & _ & _ & _ & Ek).
  unfold add_to_array. unfold trie_at. rewrite (an_body _ _ _ _ _ _ _ _ _ _ _ _ An).
  assert (match rest k with [] => NONE | _ :: _ => t_branch_key t end = branch (rest k)) as Ek' by exact Ek.
  rewrite Ek'. clear Ek Ek'.
  destruct (negb (needs_cow txn (t_node t) d) && _) eqn:Eb.
  - apply andb_true_iff in Eb as [E1%negb_true_iff E2%Z.leb_le].
    unfold needs_cow in E1. apply negb_false_iff, Z.eqb_eq in E1.
    assert (f (t_node t)) as Hft by (apply (an_pages _ _ _ _ _ _ _ _ _ _ _ _ An); by left).
    pose proof (rd_owned _ _ _ _ _ _ _ _ _ _ _ Rd _ (or_intror Hft)) as [_ Os Ofit].
    rewrite (an_body _ _ _ _ _ _ _ _ _ _ _ _ An) in Ofit. cbn [obj_size] in Ofit.
    destruct (an_wf _ _ _ _ _ _ _ _ _ _ _ _ An) as [Hw _]. pose proof (trie_fits nt Hw).
    assert (u16 (PAGE_SIZES (slot_id (d_heap d (t_node t))) - PAGE_HEADER) <=
      PAGE_SIZES (slot_id (d_heap d (t_node t))) - PAGE_HEADER) by (apply Z.mod_le; lia).
    pose proof (add_in_place fuel n d t ts k pre r e f m G W nt F M Rd An Ep E1 ltac:(lia)
      ltac:(eapply roomy_less; [|exact Ro]; lia) Hf H1) as P.
    destruct (insert_branch nt (branch (rest k))) as [nn i]. exact P.
  - exact (add_by_copy fuel n d t ts k pre r e f m G W nt F M Rd An Ep Ro Hf H1).
Qed.

End with_alloc.
End trieexec.
