(* ===== verification/TrieSplit.v ===== *)
(** * TrieSplit: an insertion that splits a prefix or a leaf

    Where the new key leaves the bytes a node or a leaf matches, the bytes behind
    the common prefix move to a copy, and a node with two branches takes the place
    of the original ([fork_spec]). *)
From S2P Require Import Prelude Bits Util Node Leaf NodeFacts NodeUpdate NodeCreate Memory MemoryFacts.
From S2P Require Import Trie TrieWrite TrieRep TrieFind TrieLookup TrieStore TrieInsert TrieExec.

Module triesplit.
Import util.
Export trieexec.

Section with_alloc.
Context {A : Type} `{PA : PageAlloc A}.
Context (HASH_SIZE PAGE_HEADER PAGE_COUNT : Z) (PAGE_SIZES : Z -> Z).
Context (raw : Z -> TrieNode.node) (raw_leaf : Z -> LeafNode.node) (txn : Z).
Hypothesis Lay : layout HASH_SIZE PAGE_HEADER PAGE_COUNT PAGE_SIZES.
Let HASH_SIZE_range : 0 <= HASH_SIZE <= 512 := ly_hash _ _ _ _ Lay.

Abbreviation rep := (trierep.rep HASH_SIZE).
Abbreviation ctx := (trierep.ctx HASH_SIZE).
Abbreviation db := (@triewrite.db A).
Abbreviation owned := (triestore.owned HASH_SIZE PAGE_HEADER PAGE_COUNT PAGE_SIZES).
Abbreviation grows := (triestore.grows txn).
Abbreviation roomy := (triestore.roomy PAGE_COUNT).
Abbreviation room := (triestore.room PAGE_HEADER PAGE_COUNT PAGE_SIZES).
Abbreviation create_leaf := (triewrite.create_leaf (A := A) HASH_SIZE PAGE_HEADER PAGE_COUNT PAGE_SIZES raw raw_leaf txn).

Context (value_size : Z).
Hypothesis value_fits : 0 <= value_size < 2 ^ 15 /\ LeafNode.HEADER_SIZE HASH_SIZE + 255 + value_size <= room.

Abbreviation landed := (trieinsert.landed HASH_SIZE PAGE_HEADER PAGE_COUNT PAGE_SIZES raw_leaf txn value_size).
Abbreviation ready := (trieexec.ready HASH_SIZE PAGE_HEADER PAGE_COUNT PAGE_SIZES).

(** What is cut off keeps the byte of the branch above it. *)
Lemma first_kept e r w x : enters e r -> (forall y, e = Some y -> branch w = y) -> byte_list r -> byte_list w -> r <> w ->
  e = Some x -> match take (common_prefix r w) r with [] => -2 | c :: _ => c end = x.
Proof.
  intros He Hw Hbr Hbw Hn ->. simpl in He. pose proof (Hw x eq_refl) as Hx.
  destruct r as [|a r], w as [|b w]; simpl in *; subst; unfold NONE in *; try done.
  - inversion Hbw. lia.
  - inversion Hbr. lia.
  - by rewrite Z.eqb_refl.
Qed.

(** A node with two branches, the first of which is set. *)
Record forked (nn : TrieNode.node) (prefix : list Z) (k1 k2 j l sz : Z) : Prop := {
  fk_wf : wf HASH_SIZE nn;
  fk_prefix : compressed nn = prefix;
  fk_set : isset nn k2 = true;
  fk_idx : j = array_index nn k2;
  fk_size : size nn = sz;
  fk_link : forall c, -1 <= c <= 255 -> c <> k2 -> link nn c = if c =? k1 then Some l else None;
  fk_other : is_Some (link nn k2)
}.

Lemma two_node n0 prefix k1 k2 i j l : NodeCreate.paired HASH_SIZE n0 prefix k1 k2 i j -> -1 <= k1 <= 255 -> -1 <= k2 <= 255 ->
  k1 <> k2 ->
  forked (set_slot n0 i l) prefix k1 k2 j l (size_for_keys HASH_SIZE (Z.of_nat (length prefix)) k1 k2).
Proof.
  intros [Pw Pp Ps P1 P2 Pz] H1 H2 Hne. set (nn := set_slot n0 i l).
  assert (isset n0 k1 = true) as S1 by (rewrite Ps, Z.eqb_refl; done).
  assert (isset n0 k2 = true) as S2 by (rewrite Ps, Z.eqb_refl, orb_true_r; done).
  destruct (NodeCreate.set_link_spec HASH_SIZE HASH_SIZE_range n0 k1 l Pw H1 S1) as (Wr & Is & Sz & Cp & Lk).
  rewrite P1 in *. fold nn in Wr, Is, Sz, Cp, Lk. split; try congruence; try done.
  - rewrite <- P2. symmetry. apply (array_index_isset HASH_SIZE); [done|done| |done]. intros; apply Is.
  - intros c Hc Hn. rewrite Lk by done. destruct (Z.eqb_spec c k1); [done|].
    rewrite (link_isset HASH_SIZE n0 c Pw Hc), Ps by done. destruct (Z.eqb_spec c k1), (Z.eqb_spec c k2); done.
  - rewrite (link_isset HASH_SIZE nn k2 Wr H2), Is, S2. by eexists.
Qed.

(** The two-way node with the cut trie below one branch takes the place of the
    trie there was, and the new leaf hangs below the other branch. *)
Lemma fork_spec fuel n d d2 t t2 ts k pre r e f m G W nn okey c lnk sz Fc Mc (g : transition -> transition) :
  ready d t ts k pre r e f m G W -> grows d d2 (fun _ => False) -> d_root d2 = d_root d ->
  roomy (S (2 * length ts + (fuel + n))) (d_alloc d2) ->
  t_node t2 mod 8 = 0 /\ 0 < t_node t2 < 2 ^ 64 -> avail (d_alloc d) (t_node t2) ->
  body (d_heap d2 (t_node t2)) = OTrie nn -> txn_id (d_heap d2 (t_node t2)) = txn -> owned d2 (t_node t2) ->
  t_offset t2 = t_offset t -> t_keypos t2 = t_keypos t ->
  (forall u, t_node (g u) = t_node u /\ t_offset (g u) = t_offset u /\ t_keypos (g u) = t_keypos u /\
    t_link_idx (g u) = t_link_idx u) ->
  rest k = drop c r -> cur k = pre ++ take c r ->
  forked nn (take c r) okey (branch (rest k)) (t_link_idx t2) lnk sz ->
  (forall x, e = Some x -> match take c r with [] => -2 | b :: _ => b end = x) ->
  okey <> branch (rest k) -> rep (d_heap d2) lnk Fc Mc -> first_byte (d_heap d2) lnk = okey ->
  (forall x, Fc x -> owned d2 x /\ x <> t_node t2 /\ ~ G x /\ (f x \/ avail (d_alloc d) x)) ->
  (forall q, byte_list q -> m q = node_map (take c r) (one_link okey) (fun _ => Mc) q) ->
  (length (rest k) <= 255 * fuel)%nat -> (1 <= fuel)%nat ->
  exists t' ts' k' d',
    (d3 ← free_node (t_node t) d2;
     '(t3, ts3, d4) ← triewrite.update_offset (A := A) txn (link_to (t_node t2) TRIE) t2 ts d3;
     create_leaf fuel value_size (g t3) ts3 k d4) = Some (t' :: ts', k', d') /\
    landed d d' t' ts' k' (pre ++ r) (fun v => put_map (pre ++ r) v (W m)) (fun x => G x \/ f x) n.
Proof.
  intros [Fo St He Hb Hlen Ow] Gr Er Ro Al Av Hbd Ht Hop Eo Ek Hg Hrest Hcur [Fw Fp Fs Fi Fz Fl Fot] Hf Hne R Hfb Hpg Hm Hfu H1.
  assert (byte_list (rest k)) as Hbr by (rewrite Hrest; apply byte_list_drop; by apply byte_list_app in Hb as [_ ?]).
  pose proof (byte_branch _ Hbr) as Hnk.
  assert (byte_list (compressed nn)) as Hbc by (rewrite Fp; apply byte_list_take; by apply byte_list_app in Hb as [_ ?]).
  assert (compressed nn ++ rest k = r) as Er' by (rewrite Fp, Hrest; apply take_drop).
  destruct (grow_spec HASH_SIZE PAGE_HEADER PAGE_COUNT PAGE_SIZES raw raw_leaf txn Lay value_size value_fits
    fuel n d d2 t t2 ts k pre e f m G W nn (branch (rest k)) (fun _ => Fc) (fun _ => Mc) g Fo Ow)
    as (t' & ts' & k' & d' & E & L); try done.
  - by rewrite Fp.
  - split.
    + intros c0 l Hc0 Hn Hl. rewrite Fl in Hl by done. destruct (Z.eqb_spec c0 okey) as [->|]; [|done].
      injection Hl as <-. split_and!; [done|done|]. intros Hx. by destruct (Hpg _ Hx) as (_ & ? & _).
    + intros c0 l c1 l' x Hc0 Hc1 Hn0 Hn1 Hl0 Hl1 _ _. rewrite Fl in Hl0, Hl1 by done.
      destruct (Z.eqb_spec c0 okey), (Z.eqb_spec c1 okey); congruence.
  - intros c0 l x _ _ _ Hx. by destruct (Hpg x Hx) as (? & _ & ? & ?).
  - by rewrite Fp.
  - by rewrite Er'.
  - intros v q Hq. apply (node_map_put _ _ (one_link okey) (fun _ => Mc)); try done.
    + intros q0 Hq0. rewrite Fp. by apply Hm.
    + unfold one_link. destruct (Z.eqb_spec (branch (rest k)) okey); [congruence|done].
    + intros c0 Hc0 Hn. rewrite Fl by done. unfold one_link. by destruct (c0 =? okey).
  - exists t', ts', k', d'. rewrite Er' in L. by split.
Qed.

(** Two new pages, one after the other. *)
Lemma two_fresh d d1 d2 cp p s1 s2 b1 b2 n1 n2 :
  fresh PAGE_HEADER PAGE_COUNT PAGE_SIZES txn d d1 cp s1 b1 n1 -> obj_size HASH_SIZE b1 <= s1 ->
  fresh PAGE_HEADER PAGE_COUNT PAGE_SIZES txn d1 d2 p s2 b2 n2 -> obj_size HASH_SIZE b2 <= s2 ->
  grows d d2 (fun _ => False) /\ d_root d2 = d_root d /\ avail (d_alloc d) p /\ avail (d_alloc d) cp /\ cp <> p /\
  body (d_heap d2 cp) = b1 /\ owned d2 cp /\ body (d_heap d2 p) = b2 /\ txn_id (d_heap d2 p) = txn /\ owned d2 p /\
  forall x, owned d x -> d_heap d2 x = d_heap d x /\ owned d2 x /\ x <> p /\ x <> cp.
Proof.
  intros FA HA FB HB.
  pose proof (fr_grows _ _ _ _ _ _ _ _ _ _ FA) as GA. pose proof (fr_grows _ _ _ _ _ _ _ _ _ _ FB) as GB.
  pose proof (fresh_owned HASH_SIZE _ _ _ _ _ _ _ _ _ _ FA HA) as OA.
  destruct (fresh_keeps HASH_SIZE _ _ _ _ Lay _ _ _ _ _ _ cp FB OA) as (EA & OA2 & NA).
  destruct (fresh_body _ _ _ _ _ _ _ _ _ _ FA) as [BA _]. destruct (fresh_body _ _ _ _ _ _ _ _ _ _ FB) as [BB TB].
  split_and!; try done.
  - eapply grows_trans; [exact GA|exact GB|tauto].
  - rewrite (fr_root _ _ _ _ _ _ _ _ _ _ FB). apply (fr_root _ _ _ _ _ _ _ _ _ _ FA).
  - apply (gr_mono _ _ _ _ GA), (fr_avail _ _ _ _ _ _ _ _ _ _ FB).
  - apply (fr_avail _ _ _ _ _ _ _ _ _ _ FA).
  - by rewrite EA.
  - by eapply fresh_owned.
  - intros x Hx. destruct (fresh_keeps HASH_SIZE _ _ _ _ Lay _ _ _ _ _ _ x FA Hx) as (E1 & O1 & N1).
    destruct (fresh_keeps HASH_SIZE _ _ _ _ Lay _ _ _ _ _ _ x FB O1) as (E2 & O2 & N2). by rewrite E2.
Qed.

(** The node a prefix is split at maps some key. *)
Lemma at_node_branch d t ts k pre r e f m G W nt F M : ready d t ts k pre r e f m G W ->
  at_node HASH_SIZE d t k pre r e f m G nt F M -> exists c, -1 <= c <= 255 /\ isset nt c = true.
Proof.
  intros Rd An. destruct (an_wf _ _ _ _ _ _ _ _ _ _ _ _ _ An) as [Hw _].
  destruct (rep_inhabited HASH_SIZE _ _ _ _ (fo_rep _ _ _ _ _ _ _ _ _ _ _ (rd_focus _ _ _ _ _ _ _ _ _ _ _ _ _ _ _ Rd)))
    as (q & v & Hq & Hm).
  rewrite (an_map _ _ _ _ _ _ _ _ _ _ _ _ _ An) in Hm by done. unfold node_map in Hm.
  destruct (decide _); [|done]. set (c := branch _) in Hm.
  assert (-1 <= c <= 255) as Hc by (apply byte_branch; by apply byte_list_drop).
  exists c. split; [done|]. destruct (link nt c) as [l|] eqn:El; [|done]. by destruct (link_some HASH_SIZE nt c l Hw Hc El).
Qed.

(** The copy of the node without the front of its prefix. *)
Lemma rebased_rep (d d2 : db) t ts k pre r e f m G W nt F M cp ch suffix : ready d t ts k pre r e f m G W ->
  at_node HASH_SIZE d t k pre r e f m G nt F M -> NodeCreate.rebased HASH_SIZE nt ch suffix ->
  byte_list suffix -> suffix <> [] -> cp mod 8 = 0 /\ 0 < cp < 2 ^ 64 -> body (d_heap d2 cp) = OTrie ch ->
  (forall x, owned d x -> d_heap d2 x = d_heap d x /\ x <> cp) ->
  rep (d_heap d2) (link_to cp TRIE) (fun x => x = cp \/ exists c l, -1 <= c <= 255 /\ link nt c = Some l /\ F c x)
    (node_map suffix (link nt) M) /\
  first_byte (d_heap d2) (link_to cp TRIE) = branch suffix.
Proof.
  intros Rd An [Rw Rp Rs Rl Rz] Hs Hne [Hm Hr] Hb K.
  destruct (link_to_spec cp TRIE Hm ltac:(lia)) as [Et Ep].
  assert (forall c l x, -1 <= c <= 255 -> link nt c = Some l -> F c x -> d_heap d2 x = d_heap d x /\ x <> cp) as KF.
  { intros c l x Hc Hl Hx. apply K, (rd_owned _ _ _ _ _ _ _ _ _ _ _ _ _ _ _ Rd). right.
    apply (an_pages _ _ _ _ _ _ _ _ _ _ _ _ _ An). right. by exists c, l. }
  split.
  - apply (rep_node HASH_SIZE _ _ ch F M); rewrite ?Et; try done; [lia|by rewrite Rp|..].
    + destruct (at_node_branch _ _ _ _ _ _ _ _ _ _ _ _ _ _ Rd An) as (c & Hc & Hi). exists c. by rewrite Rs.
    + intros c l Hc Hl. rewrite Rl in Hl by done.
      destruct (an_rep _ _ _ _ _ _ _ _ _ _ _ _ _ An c l Hc Hl) as (R & _ & _).
      eapply (rep_frame HASH_SIZE); [exact R|]. intros x Hx. by apply (KF c l).
    + intros c l Hc Hl. rewrite Rl in Hl by done.
      destruct (an_rep _ _ _ _ _ _ _ _ _ _ _ _ _ An c l Hc Hl) as (R & Hf & _).
      rewrite (first_byte_frame (d_heap d)); [done|]. apply (KF c l); [done..|]. by eapply (rep_target HASH_SIZE).
    + intros c l Hc Hl Hx. rewrite Rl in Hl by done. by destruct (KF c l cp Hc Hl Hx).
    + intros c l c' l' x Hc Hc' Hl Hl'. rewrite Rl in Hl, Hl' by done.
      by apply (an_disj _ _ _ _ _ _ _ _ _ _ _ _ _ An c l c' l').
    + intros x. split; (intros [->|(c & l & Hc & Hl & Hx)]; [by left|right; exists c, l]).
      * by rewrite Rl.
      * by rewrite Rl in Hl.
    + intros q Hq. rewrite Rp. unfold node_map. destruct (decide _); [|done].
      rewrite Rl; [done|]. apply byte_branch. by apply byte_list_drop.
  - unfold first_byte, trie_at. rewrite Ep, Et, Hb, Rp. by destruct suffix.
Qed.

Lemma split_compressed_spec fuel n d t ts k pre r e f m G W nt F M :
  ready d t ts k pre r e f m G W -> at_node HASH_SIZE d t k pre r e f m G nt F M -> t_prefix t < compressed_len nt ->
  roomy (S (S (S (2 * length ts + (fuel + n))))) (d_alloc d) ->
  (length (rest k) <= 255 * fuel)%nat -> (1 <= fuel)%nat ->
  exists t' ts' k' d',
    split_compressed HASH_SIZE PAGE_HEADER PAGE_COUNT PAGE_SIZES raw raw_leaf txn fuel value_size t ts k d =
      Some (t' :: ts', k', d') /\
    landed d d' t' ts' k' (pre ++ r) (fun v => put_map (pre ++ r) v (W m)) (fun x => G x \/ f x) n.
Proof.
  intros Rd An Ep Ro Hf H1.
  pose proof Rd as [Fo _ He Hb Hlen Ow].
  pose proof An as [Hl Hbd [Hw Hc] Arep Adisj Apg Amap Aap Afst _ Apf Acur Arest].
  pose proof (compressed_length HASH_SIZE nt Hw) as Ecl. pose proof (wf_len _ _ Hw) as [Wl _].
  apply byte_list_app in Hb as [Hbp Hbr]. set (c := common_prefix r (compressed nt)) in *.
  assert (c < length (compressed nt))%nat as Hcl by lia.
  set (suffix := drop c (compressed nt)) in *.
  assert (Z.of_nat (length suffix) = compressed_len nt - t_prefix t) as Hsl.
  { unfold suffix. rewrite length_drop. lia. }
  assert (suffix <> []) as Hsne by (intros E; rewrite E in Hsl; simpl in Hsl; lia).
  assert (r <> compressed nt) as Hne.
  { intros E. unfold c in Hcl. rewrite E, (proj2 (common_prefix_refl_iff _ _ eq_refl)) in Hcl by done. lia. }
  assert (byte_list (rest k)) as Hbrk by (rewrite Arest; by apply byte_list_drop).
  assert (byte_list suffix) as Hbs by by apply byte_list_drop.
  pose proof (byte_branch _ Hbrk) as Hnk. pose proof (byte_branch _ Hbs) as Hok.
  assert (branch suffix <> branch (rest k)) as Hkk.
  { rewrite Arest. unfold suffix, c. intros E. symmetry in E. revert E. by apply branch_apart. }
  assert (take c r = take c (compressed nt)) as Etk by apply take_common.
  unfold split_compressed. unfold trie_at. rewrite Hbd.
  rewrite Apf, Nat2Z.id. fold suffix. rewrite <- Apf, <- Hsl.
  rewrite (wrap_small 8 (Z.of_nat (length suffix))) by (change (2 ^ 8) with 256; lia).
  pose proof (NodeCreate.create_prefix_rebased HASH_SIZE HASH_SIZE_range (raw 0) nt suffix Hw ltac:(lia)) as Rb0.
  assert (0 <= changed_len HASH_SIZE nt (Z.of_nat (length suffix)) <= room) as Hsz1.
  { rewrite <- (NodeCreate.reb_size _ _ _ _ Rb0). apply (trie_fits _ _ _ _ Lay), Rb0. }
  destruct (alloc_node_spec _ _ _ _ txn Lay _ _ d Ro Hsz1) as (cp & dA & EA & _ & FA).
  rewrite EA. cbn [mbind option_bind].
  pose proof (NodeCreate.create_prefix_rebased HASH_SIZE HASH_SIZE_range (raw cp) nt suffix Hw ltac:(lia)) as Rb.
  specialize (FA (OTrie (create_prefix HASH_SIZE (raw cp) nt suffix))).
  set (ch := create_prefix HASH_SIZE (raw cp) nt suffix) in *. set (d1 := write cp (OTrie ch) dA) in *.
  cbv zeta. set (t1 := match rest k with b :: _ => (set_branch b t, b) | [] => (t, NONE) end).
  assert (exists tb, t1 = (tb, branch (rest k)) /\ t_node tb = t_node t /\ t_offset tb = t_offset t /\
    t_keypos tb = t_keypos t) as (tb & Et1 & Etb1 & Etb2 & Etb3).
  { unfold t1. destruct (rest k) as [|b q]; [by exists t|by exists (set_branch b t)]. }
  rewrite Et1. cbn iota beta.
  assert (default 0 (compressed nt !! c) = branch suffix) as ->.
  { unfold suffix. rewrite branch_drop. destruct (lookup_lt_is_Some_2 (compressed nt) c Hcl) as [y ->]. done. }
  set (okey := branch suffix) in *. set (nk := branch (rest k)) in *.
  rewrite <- Etk. assert (length (take c r) = c) as Htl by (rewrite Etk, length_take; lia).
  assert (t_prefix t = Z.of_nat (length (take c r))) as -> by by rewrite Htl.
  assert (0 <= size_for_keys HASH_SIZE (Z.of_nat (length (take c r))) okey nk <= room) as Hsz2.
  { pose proof (NodeCreate.create_two_paired HASH_SIZE HASH_SIZE_range trie.blank (take c r) okey nk
      ltac:(lia) Hok Hnk Hkk) as P0.
    destruct (create_two HASH_SIZE trie.blank (take c r) okey nk) as [n0 [i0 j0]].
    rewrite <- (NodeCreate.pair_size _ _ _ _ _ _ _ P0). apply (trie_fits _ _ _ _ Lay), P0. }
  destruct (alloc_node_spec _ _ _ _ txn Lay _ _ d1 (fr_room _ _ _ _ _ _ _ _ _ _ FA) Hsz2) as (p & dB & EB & _ & FB).
  rewrite EB. cbn [mbind option_bind].
  pose proof (NodeCreate.create_two_paired HASH_SIZE HASH_SIZE_range (raw p) (take c r) okey nk
    ltac:(lia) Hok Hnk Hkk) as Pr.
  destruct (create_two HASH_SIZE (raw p) (take c r) okey nk) as [n0 [i j]].
  pose proof (two_node n0 _ okey nk i j (link_to cp TRIE) Pr Hok Hnk Hkk) as Fk.
  set (nn := set_slot n0 i (link_to cp TRIE)) in *. specialize (FB (OTrie nn)).
  set (d2 := write p (OTrie nn) dB) in *.
  destruct (two_fresh d d1 d2 _ _ _ _ _ _ _ _ FA ltac:(cbn [obj_size]; rewrite (NodeCreate.reb_size _ _ _ _ Rb); lia)
    FB ltac:(cbn [obj_size]; rewrite (fk_size _ _ _ _ _ _ _ Fk); lia))
    as (Gr & Er & Avp & Avc & Hcp & Bc & Oc & Bp & Tp & Op & K).
  destruct (rebased_rep d d2 t ts k pre r e f m G W nt F M cp ch suffix Rd An Rb Hbs Hsne
    (fr_aligned _ _ _ _ _ _ _ _ _ _ FA) Bc) as [Rc Fc]; [intros x Hx; by destruct (K x Hx) as (? & _ & _ & ?)|].
  pose proof (fork_spec fuel n d d2 t (set_idx j (set_node p tb)) ts k pre r e f m G W nn okey c (link_to cp TRIE) _
    (fun x => x = cp \/ exists c l, -1 <= c <= 255 /\ link nt c = Some l /\ F c x) (node_map suffix (link nt) M) (fun u => u)
    Rd Gr Er (fr_room _ _ _ _ _ _ _ _ _ _ FB) (fr_aligned _ _ _ _ _ _ _ _ _ _ FB) Avp Bp Tp Op Etb2 Etb3
    ltac:(done) Arest Acur Fk) as Spec.
  cbn [set_idx set_node t_node] in Spec. apply Spec; try done.
  - intros x Hx. eapply first_kept; try done. intros y Hy. rewrite Hy in He. simpl in He. specialize (Afst y Hy).
    destruct (compressed nt); [|done]. pose proof (byte_branch r Hbr). lia.
  - intros x [->|(b & l & Hb & Hlk & Hx)].
    + split_and!; try done; [|by right]. intros Hg. by destruct (K cp ltac:(apply Ow; by left)) as (_ & _ & _ & ?).
    + assert (f x) as Hfx by (apply Apg; right; by exists b, l).
      destruct (K x ltac:(apply Ow; by right)) as (_ & ? & ? & _). split_and!; try done; [by eapply Aap|by left].
  - intros q Hq. rewrite Amap by done. rewrite Etk. unfold okey. rewrite <- node_map_split by done. unfold suffix. by rewrite take_drop.
Qed.

(** The copy of a leaf without the front of its key. *)
Definition reduced (l : LeafNode.node) (c : nat) : LeafNode.node :=
  let key_size := u8 (LeafNode.key_size l - Z.of_nat c) in
  LeafNode.Node (LeafNode.value_size l) key_size
    (take (Z.to_nat (key_size + LeafNode.vsize l)) (drop c (LeafNode.data l))).

Lemma reduced_spec l c : leaf_ok l -> (c <= length (LeafNode.key l))%nat ->
  leaf_ok (reduced l c) /\ LeafNode.key (reduced l c) = drop c (LeafNode.key l) /\
  payload_of (reduced l c) = payload_of l /\ LeafNode.key_size (reduced l c) = LeafNode.key_size l - Z.of_nat c /\
  LeafNode.vsize (reduced l c) = LeafNode.vsize l.
Proof.
  intros Hok Hc. pose proof (leaf_key_length l Hok) as Hkl. destruct Hok as [K1 K2 K3 K4].
  assert (0 <= LeafNode.vsize l) as Hv by (unfold LeafNode.vsize; apply Z.land_nonneg; lia).
  assert (u8 (LeafNode.key_size l - Z.of_nat c) = LeafNode.key_size l - Z.of_nat c) as Eu.
  { apply wrap_small. change (2 ^ 8) with 256. lia. }
  assert (LeafNode.key (reduced l c) = drop c (LeafNode.key l)) as Ek.
  { unfold LeafNode.key at 1, reduced. cbn [LeafNode.key_size LeafNode.data]. rewrite Eu.
    rewrite take_take. unfold LeafNode.key. rewrite skipn_firstn_comm. f_equal. lia. }
  split_and!.
  - split; unfold reduced; cbn [LeafNode.key_size LeafNode.value_size LeafNode.data]; rewrite ?Eu; [lia|done| |].
    + change (LeafNode.vsize _) with (LeafNode.vsize l). rewrite length_take, length_drop. lia.
    + fold (reduced l c). rewrite <- Eu. change (byte_list (LeafNode.key (reduced l c))). rewrite Ek. by apply byte_list_drop.
  - done.
  - unfold payload_of, LeafNode.value, LeafNode.vdata, reduced. cbn [LeafNode.key_size LeafNode.value_size LeafNode.data].
    change (LeafNode.vsize (LeafNode.Node _ _ _)) with (LeafNode.vsize l). rewrite Eu. f_equal.
    rewrite skipn_firstn_comm, drop_drop, take_take. f_equal; [lia|]. f_equal. lia.
  - unfold reduced. cbn [LeafNode.key_size]. done.
  - done.
Qed.

Lemma reduced_rep d2 cp l c : leaf_ok l -> (c <= length (LeafNode.key l))%nat -> cp mod 8 = 0 /\ 0 < cp < 2 ^ 64 ->
  body (d_heap (d2 : db) cp) = OLeaf (reduced l c) ->
  rep (d_heap d2) (link_to cp LEAF) (fun x => x = cp) (only (drop c (LeafNode.key l)) (payload_of l)) /\
  first_byte (d_heap d2) (link_to cp LEAF) = branch (drop c (LeafNode.key l)).
Proof.
  intros Hok Hc [Hm Hr] Hb. destruct (link_to_spec cp LEAF Hm ltac:(lia)) as [Et Ep].
  destruct (reduced_spec l c Hok Hc) as (Rok & Rk & Rp & _).
  split.
  - apply (rep_leaf HASH_SIZE _ _ (reduced l c)); rewrite ?Et; try done; [lia|].
    intros q Hq. unfold only. by rewrite Rk, Rp.
  - unfold first_byte, leaf_at. by rewrite Ep, Et, Hb, Rk.
Qed.

(** The byte behind the common prefix, as the code reads it. *)
Lemma reduced_branch l c : leaf_ok l -> (c <= length (LeafNode.key l))%nat ->
  (if LeafNode.key_size (reduced l c) =? 0 then NONE else default 0 (LeafNode.data (reduced l c) !! 0%nat)) =
  branch (drop c (LeafNode.key l)).
Proof.
  intros Hok Hc. destruct (reduced_spec l c Hok Hc) as (Rok & Rk & _ & Rs & _). rewrite <- Rk.
  pose proof (leaf_key_length _ Rok) as Hl. unfold LeafNode.key in Hl |- *. destruct Rok as [R1 _ _ _].
  destruct (Z.eqb_spec (LeafNode.key_size (reduced l c)) 0) as [->|Hn]; [by rewrite take_0|].
  destruct (LeafNode.data (reduced l c)) as [|b q]; [rewrite take_nil in Hl; cbn [length] in Hl; lia|].
  destruct (Z.to_nat (LeafNode.key_size (reduced l c))) eqn:E; [lia|done].
Qed.

Lemma change_leaf_splits fuel n d t ts k pre r e f m G W :
  ready d t ts k pre r e f m G W -> is_leaf (d_heap d) (d_root d) t = true -> t_cmp t <> 0 ->
  LeafNode.is_big (leaf_at (d_heap d) (t_node t)) = false ->
  roomy (S (S (S (2 * length ts + (fuel + n))))) (d_alloc d) ->
  (length (rest k) <= 255 * fuel)%nat -> (1 <= fuel)%nat ->
  exists t' ts' k' d',
    change_leaf HASH_SIZE PAGE_HEADER PAGE_COUNT PAGE_SIZES raw raw_leaf txn fuel value_size t ts k d =
      Some (t' :: ts', k', d') /\
    landed d d' t' ts' k' (pre ++ r) (fun v => put_map (pre ++ r) v (W m)) (fun x => G x \/ f x) n.
Proof.
  intros Rd Hl Hcmp Hbig Ro Hf H1. pose proof Rd as [Fo St He Hb Hlen Ow]. unfold change_leaf.
  destruct (Z.eqb_spec (t_cmp t) 0) as [|_]; [done|].
  destruct (focus_cases _ _ _ _ _ _ _ _ _ _ _ Fo) as [(_ & l & Hbd & Hok & Hm)|(Hl' & _)]; [|congruence].
  assert (leaf_at (d_heap d) (t_node t) = l) as El by (unfold leaf_at; by rewrite Hbd).
  destruct St as [Apf Acur Arest S4]. unfold content, t_leaf in *. rewrite Hl, El in *.
  assert (r <> LeafNode.key l) as Hne by (intros E; by rewrite (proj2 (lex_zero _ _) E) in S4).
  pose proof (proj1 (byte_list_app _ _) Hb) as [Hbp Hbr]. set (c := common_prefix r (LeafNode.key l)) in *.
  assert (c <= length (LeafNode.key l) /\ c <= length r)%nat as [Hcl Hcr]
    by (pose proof (common_prefix_le r (LeafNode.key l)); lia).
  pose proof (leaf_key_length l Hok) as Hkl. pose proof Hok as [K1 K2 K3 K4].
  assert (f (t_node t)) as Hft.
  { rewrite (fo_node _ _ _ _ _ _ _ _ _ _ _ Fo). eapply (rep_target HASH_SIZE), (fo_rep _ _ _ _ _ _ _ _ _ _ _ Fo). }
  destruct (leaf_fits _ _ _ _ Lay d _ l (Ow _ (or_intror Hft)) Hbd Hok) as [Hlf Hlv].
  assert (byte_list (rest k)) as Hbrk by (rewrite Arest; by apply byte_list_drop).
  assert (byte_list (drop c (LeafNode.key l))) as Hbs by by apply byte_list_drop.
  pose proof (byte_branch _ Hbrk) as Hnk. pose proof (byte_branch _ Hbs) as Hokb.
  assert (branch (drop c (LeafNode.key l)) <> branch (rest k)) as Hkk.
  { rewrite Arest. unfold c. intros E. symmetry in E. revert E. by apply branch_apart. }
  assert (take c r = take c (LeafNode.key l)) as Etk by apply take_common.
  assert (take c (LeafNode.data l) = take c r) as Etd.
  { rewrite Etk. unfold LeafNode.key. rewrite take_take. f_equal. lia. }
  unfold copy_reduced_leaf. rewrite !El, Hbig, Apf, Nat2Z.id.
  destruct (reduced_spec l c Hok Hcl) as (Rok & Rk & _ & Rs & Rv).
  assert (LeafNode.size HASH_SIZE (reduced l c) =
    LeafNode.size_for HASH_SIZE (LeafNode.key_size l - Z.of_nat c) (LeafNode.vsize l)) as Esz.
  { unfold LeafNode.size, LeafNode.size_for. by rewrite Rs, Rv. }
  assert (0 <= LeafNode.size_for HASH_SIZE (LeafNode.key_size l - Z.of_nat c) (LeafNode.vsize l) <= room) as Hsz1.
  { pose proof Lay as [L1 L2 L3 _ L5 _]. unfold triestore.room in *. unfold LeafNode.size_for, LeafNode.HEADER_SIZE in *.
    rewrite wrap_small; lia. }
  destruct (alloc_node_spec _ _ _ _ txn Lay _ _ d Ro Hsz1) as (cp & dA & EA & _ & FA).
  rewrite EA. cbn [mbind option_bind].
  specialize (FA (OLeaf (reduced l c))). rewrite <- Esz in FA.
  change (OLeaf (LeafNode.Node _ _ _)) with (OLeaf (reduced l c)).
  set (d1 := write cp (OLeaf (reduced l c)) dA) in *. cbv zeta.
  destruct (fresh_body _ _ _ _ _ _ _ _ _ _ FA) as [B1 _].
  assert (leaf_at (d_heap d1) cp = reduced l c) as -> by (unfold leaf_at; by rewrite B1).
  rewrite (reduced_branch l c Hok Hcl), (key_branch (rest k) Hbrk).
  cbn [set_branch t_prefix]. rewrite Apf, Nat2Z.id, Etd.
  set (okey := branch (drop c (LeafNode.key l))) in *. set (nk := branch (rest k)) in *.
  assert (length (take c r) = c) as Htl by (rewrite length_take; lia).
  assert (Z.of_nat c = Z.of_nat (length (take c r))) as -> by by rewrite Htl.
  assert (0 <= size_for_keys HASH_SIZE (Z.of_nat (length (take c r))) okey nk <= room) as Hsz2.
  { pose proof (NodeCreate.create_two_paired HASH_SIZE HASH_SIZE_range trie.blank (take c r) okey nk
      ltac:(lia) Hokb Hnk Hkk) as P0.
    destruct (create_two HASH_SIZE trie.blank (take c r) okey nk) as [n0 [i0 j0]].
    rewrite <- (NodeCreate.pair_size _ _ _ _ _ _ _ P0). apply (trie_fits _ _ _ _ Lay), P0. }
  destruct (alloc_node_spec _ _ _ _ txn Lay _ _ d1 (fr_room _ _ _ _ _ _ _ _ _ _ FA) Hsz2) as (p & dB & EB & _ & FB).
  rewrite EB. cbn [mbind option_bind].
  pose proof (NodeCreate.create_two_paired HASH_SIZE HASH_SIZE_range (raw p) (take c r) okey nk
    ltac:(lia) Hokb Hnk Hkk) as Pr.
  destruct (create_two HASH_SIZE (raw p) (take c r) okey nk) as [n0 [i j]].
  pose proof (two_node n0 _ okey nk i j (link_to cp LEAF) Pr Hokb Hnk Hkk) as Fk.
  set (nn := set_slot n0 i (link_to cp LEAF)) in *. specialize (FB (OTrie nn)).
  set (d2 := write p (OTrie nn) dB) in *.
  destruct (two_fresh d d1 d2 _ _ _ _ _ _ _ _ FA ltac:(cbn [obj_size]; lia)
    FB ltac:(cbn [obj_size]; rewrite (fk_size _ _ _ _ _ _ _ Fk); lia))
    as (Gr & Er & Avp & Avc & Hcp & Bc & Oc & Bp & Tp & Op & K).
  destruct (reduced_rep d2 cp l c Hok Hcl (fr_aligned _ _ _ _ _ _ _ _ _ _ FA) Bc) as [Rc Fc].
  pose proof (fork_spec fuel n d d2 t (set_cmp 0 (set_idx j (set_node p (set_branch (u8 nk) t)))) ts k pre r e f m G W
    nn okey c (link_to cp LEAF) _ (fun x => x = cp) (only (drop c (LeafNode.key l)) (payload_of l)) (fun u => u)
    Rd Gr Er (fr_room _ _ _ _ _ _ _ _ _ _ FB) (fr_aligned _ _ _ _ _ _ _ _ _ _ FB) Avp Bp Tp Op eq_refl eq_refl
    ltac:(done) Arest Acur Fk) as Spec.
  apply (fun H => Spec H Hkk Rc Fc); try done.
  - intros x Hx. eapply first_kept; try done. intros y Hy. rewrite <- (fo_first _ _ _ _ _ _ _ _ _ _ _ Fo y Hy).
    unfold first_byte. unfold is_leaf in Hl. rewrite Hl, <- (fo_node _ _ _ _ _ _ _ _ _ _ _ Fo), El. done.
  - intros x ->. split_and!; try done; [|by right]. intros Hg. by destruct (K cp ltac:(apply Ow; by left)) as (_ & _ & _ & ?).
  - intros q Hq. rewrite Hm, Etk by done. unfold okey. rewrite <- node_map_single by done. by rewrite take_drop.
Qed.

End with_alloc.
End triesplit.
