(* ===== verification/TriePut.v ===== *)
(** * TriePut: a value put into a trie is there afterwards

    The insertion as a cursor performs it: the search of the key, [reserve], which
    runs [first_exec] or [exec], and the copy of the value. *)
From S2P Require Import Prelude Bits Util Node Leaf NodeFacts NodeUpdate NodeCreate Memory MemoryFacts.
From S2P Require Import Trie TrieWrite TrieRep TrieFind TrieLookup TrieStore TrieInsert TrieExec TrieSplit.

Module trieput.
Import util.
Export triesplit.

Section with_alloc.
Context {A : Type} `{PA : PageAlloc A}.
Context (HASH_SIZE PAGE_HEADER PAGE_COUNT : Z) (PAGE_SIZES : Z -> Z).
Context (raw : Z -> TrieNode.node) (raw_leaf : Z -> LeafNode.node) (txn : Z).
Hypothesis Lay : layout HASH_SIZE PAGE_HEADER PAGE_COUNT PAGE_SIZES.
Let HASH_SIZE_range : 0 <= HASH_SIZE <= 512 := ly_hash _ _ _ _ Lay.

Abbreviation rep := (trierep.rep HASH_SIZE).
Abbreviation ctx := (trierep.ctx HASH_SIZE).
Abbreviation db := (@triewrite.db A).
Abbreviation owned := (triestore.owned HASH_SIZE PAGE_HEADER PAGE_COUNT PAGE_SIZES).
Abbreviation grows := (triestore.grows txn).
Abbreviation roomy := (triestore.roomy PAGE_COUNT).
Abbreviation room := (triestore.room PAGE_HEADER PAGE_COUNT PAGE_SIZES).
Abbreviation create_leaf := (triewrite.create_leaf (A := A) HASH_SIZE PAGE_HEADER PAGE_COUNT PAGE_SIZES raw raw_leaf txn).

Context (value_size : Z).
Hypothesis value_fits : 0 <= value_size < 2 ^ 15 /\ LeafNode.HEADER_SIZE HASH_SIZE + 255 + value_size <= room.

Abbreviation landed := (trieinsert.landed HASH_SIZE PAGE_HEADER PAGE_COUNT PAGE_SIZES raw_leaf txn value_size).
Abbreviation ready := (trieexec.ready HASH_SIZE PAGE_HEADER PAGE_COUNT PAGE_SIZES).

Lemma chain_fits : 0 <= size_for_branches HASH_SIZE 255 1 <= room.
Proof.
  destruct (NodeCreate.size_for_one HASH_SIZE HASH_SIZE_range 255 0 ltac:(lia) ltac:(lia)) as [S1 S2].
  pose proof (ly_trie _ _ _ _ Lay). unfold triestore.room.
  assert (0 <= util.align (util.padding (HEADER_SIZE HASH_SIZE + 255) 4 + 0 * 4)); [|lia].
  apply Z.land_nonneg. left. apply wrap_range. lia.
Qed.

(** ** All cases of an insertion *)

Lemma exec_spec fuel n d t ts k pre r e f m G W :
  ready d t ts k pre r e f m G W ->
  (forall l, body (d_heap d (t_node t)) = OLeaf l -> LeafNode.is_big l = false) ->
  roomy (S (S (S (2 * length ts + (fuel + n))))) (d_alloc d) ->
  (length (rest k) <= 255 * fuel)%nat -> (1 <= fuel)%nat ->
  exists t' ts' k' d',
    exec HASH_SIZE PAGE_HEADER PAGE_COUNT PAGE_SIZES raw raw_leaf txn fuel value_size t ts k d =
      Some (t' :: ts', k', d') /\
    landed d d' t' ts' k' (pre ++ r) (fun v => put_map (pre ++ r) v (W m)) (fun x => G x \/ f x) n.
Proof.
  intros Rd Hbig Ro Hf H1. unfold exec. destruct (is_leaf (d_heap d) (d_root d) t) eqn:El.
  - destruct (Z.eq_dec (t_cmp t) 0) as [Ec|Ec].
    + destruct (change_leaf_replaces HASH_SIZE PAGE_HEADER PAGE_COUNT PAGE_SIZES raw raw_leaf txn Lay value_size
        value_fits fuel n d t ts k pre r e f m G W Rd El Ec) as (t' & ts' & k' & d' & E & L).
      { eapply roomy_less; [|exact Ro]. lia. }
      by exists t', ts', k', d'.
    + apply (change_leaf_splits HASH_SIZE PAGE_HEADER PAGE_COUNT PAGE_SIZES raw raw_leaf txn Lay value_size value_fits
        fuel n d t ts k pre r e f m G W Rd); try done. apply Hbig.
      pose proof (rd_focus _ _ _ _ _ _ _ _ _ _ _ _ _ _ _ Rd) as Fo.
      destruct (focus_cases _ _ _ _ _ _ _ _ _ _ _ Fo) as [(_ & l & Hb & _)|(? & _)]; [|congruence].
      unfold leaf_at. by rewrite Hb.
  - destruct (ready_node _ _ _ _ _ _ _ _ _ _ _ _ _ _ _ Rd El) as (nt & F & M & An).
    pose proof (an_wf _ _ _ _ _ _ _ _ _ _ _ _ _ An) as [Hw _].
    assert (trie_at (d_heap d) (t_node t) = nt) as ->
      by (unfold trie_at; by rewrite (an_body _ _ _ _ _ _ _ _ _ _ _ _ _ An)).
    destruct (Z.eqb_spec (t_prefix t) (compressed_len nt)) as [Ep|Ep].
    + apply (add_to_array_spec HASH_SIZE PAGE_HEADER PAGE_COUNT PAGE_SIZES raw raw_leaf txn Lay value_size value_fits
        fuel n d t ts k pre r e f m G W nt F M Rd An); try done.
      eapply roomy_less; [|exact Ro]. lia.
    + apply (split_compressed_spec HASH_SIZE PAGE_HEADER PAGE_COUNT PAGE_SIZES raw raw_leaf txn Lay value_size value_fits
        fuel n d t ts k pre r e f m G W nt F M Rd An); try done.
      pose proof (compressed_length HASH_SIZE nt Hw). rewrite (an_prefix _ _ _ _ _ _ _ _ _ _ _ _ _ An) in *.
      pose proof (common_prefix_le r (compressed nt)). lia.
Qed.

(** The first value of an empty trie. *)
Lemma first_exec_spec fuel n d t k : d_root d = 0 -> t_offset t = Root -> t_keypos t = 0 -> cur k = [] ->
  byte_list (rest k) -> Z.of_nat (length (rest k)) < 2 ^ 16 ->
  roomy (S (fuel + n)) (d_alloc d) -> (length (rest k) <= 255 * fuel)%nat -> (1 <= fuel)%nat ->
  exists t' ts' k' d',
    first_exec HASH_SIZE PAGE_HEADER PAGE_COUNT PAGE_SIZES raw raw_leaf txn fuel value_size t k d =
      Some (t' :: ts', k', d') /\
    landed d d' t' ts' k' (rest k) (only (rest k)) (fun _ => False) n.
Proof.
  intros Hr Eo Ek Hc Hb Hlen Ro Hf H1. unfold first_exec. rewrite Eo.
  pose proof (ctx_root HASH_SIZE (d_heap d) (d_root d)) as C.
  destruct (Z.ltb_spec 255 (Z.of_nat (length (rest k)))) as [Hbig|Hsmall].
  - destruct (alloc_node_spec _ _ _ _ txn Lay (fuel + n) _ d Ro chain_fits) as (p & d1 & E1 & F1 & _).
    rewrite E1. cbn [mbind option_bind].
    destruct (bigkey_spec HASH_SIZE PAGE_HEADER PAGE_COUNT PAGE_SIZES raw txn Lay (fuel + n) d Root [] k [] None
      _ _ (set_node p t) p d1 C ltac:(done) I Hc I Hb Hlen Hbig F1 eq_refl Eo Ek) as (G3 & W3 & Ch).
    destruct (fill_bigkey _ _ _ _ _) as [[bot' k3] d3]. destruct Ch as [Cc Co Ct Cu Cr Cm Cg Cp Ck].
    destruct (create_leaf_spec HASH_SIZE PAGE_HEADER PAGE_COUNT PAGE_SIZES raw raw_leaf txn Lay value_size value_fits
      fuel n d3 bot' [] k3 _ _ G3 W3 Ck Cc Co Ct Cu) as (t' & ts' & k' & d' & E & L); try (done || by rewrite Cr).
    + rewrite Cr. by apply byte_list_drop.
    + rewrite Cr. cbn [app]. by rewrite take_drop.
    + rewrite Cr, length_drop. lia.
    + exists t', ts', k', d'. split; [exact E|]. rewrite Cr in L. cbn [app] in L. rewrite take_drop in L.
      eapply landed_after; [exact Cg|exact L| |done]. intros x Hx [[]|Hg]. by destruct (Cp x Hg).
  - unfold fill_leaf. destruct (set_leaf_size _ _ _ _ Lay _ value_fits (raw_leaf 0) (rest k) ltac:(lia)) as [_ Hsz].
    destruct (alloc_node_spec _ _ _ _ txn Lay _ _ d Ro Hsz) as (p & d1 & E1 & _ & F1).
    rewrite E1. cbn [mbind option_bind].
    specialize (F1 (OLeaf (LeafNode.set (raw_leaf p) (rest k) value_size))). set (d2 := write p _ d1) in *.
    destruct (fresh_body _ _ _ _ _ _ _ _ _ _ F1) as [B2 T2].
    pose proof (fr_aligned _ _ _ _ _ _ _ _ _ _ F1) as Al.
    eexists _, [], _, _. split; [done|].
    split; cbn [set_prefix_cmp set_node t_node t_offset t_keypos t_prefix t_cmp cur rest advance_key
      store d_heap d_root d_alloc]; try done; rewrite ?Eo, ?Ek.
    + exists (fun _ => False), (fun w => w), [], None, (rest k). split_and!; try (done || lia); constructor.
    + done.
    + split; [apply (fr_avail _ _ _ _ _ _ _ _ _ _ F1)|].
      enough (owned d2 p) as [O1 O2 O3] by by split.
      eapply fresh_owned; [exact F1|]. cbn [obj_size].
      destruct (set_leaf_size _ _ _ _ Lay _ value_fits (raw_leaf p) (rest k) ltac:(lia)) as [-> _]. lia.
    + by rewrite Hc, Nat2Z.id, firstn_all.
    + by rewrite Nat2Z.id, drop_all.
    + destruct (fr_grows _ _ _ _ _ _ _ _ _ _ F1) as [A1 A2 A3 A4]. by split.
    + eapply roomy_less; [|apply (fr_room _ _ _ _ _ _ _ _ _ _ F1)]. lia.
Qed.

(** ** The depth of a cursor *)

(** Every node below the root matches a byte of the key. *)
Lemma ctx_depth h root ts pl G W pre e : ctx h root ts pl G W pre e -> (length ts <= length pre + 1)%nat.
Proof.
  induction 1 as [|t ts n b F M G W pre e C IH lnk H1 H2 H3 H4 H5 H6 H7 H8 H9 H10 H11 H12 H13 H14]; simpl; [lia|].
  destruct ts as [|u us]; [simpl; lia|].
  destruct (ctx_load _ _ _ _ _ _ _ _ _ _ C) as (n0 & b0 & _ & -> & Hb0 & _).
  specialize (H8 b0 eq_refl). unfold first_byte, trie_at in H8. rewrite H1, <- H3, H5 in H8.
  rewrite length_app. destruct (compressed n); simpl in *; lia.
Qed.

(** ** The value *)

(** A leaf with a key and a value. *)
Definition filled (l : LeafNode.node) (r v : list Z) : Prop :=
  LeafNode.key l = r /\ payload_of l = (Z.of_nat (length v), v) /\ leaf_ok l.

Lemma filled_set l0 r v : Z.of_nat (length v) < 2 ^ 15 -> byte_list r -> Z.of_nat (length r) <= 255 ->
  let l := LeafNode.set l0 r (Z.of_nat (length v)) in
  let k := Z.to_nat (LeafNode.key_size l) in
  filled (LeafNode.Node (LeafNode.value_size l) (LeafNode.key_size l)
    (take k (LeafNode.data l) ++ v ++ drop (k + length v) (LeafNode.data l))) r v.
Proof.
  intros Hv Hb Hr l k. assert (k = length r) as Ek.
  { unfold k, l, LeafNode.set. cbn [LeafNode.key_size]. rewrite wrap_small; [lia|]. change (2 ^ 8) with 256. lia. }
  assert (LeafNode.value_size l = Z.of_nat (length v)) as Ev.
  { apply wrap_small. change (2 ^ 16) with 65536. change (2 ^ 15) with 32768 in Hv. lia. }
  assert (LeafNode.key_size l = Z.of_nat (length r)) as Eks.
  { apply wrap_small. change (2 ^ 8) with 256. lia. }
  assert (take k (LeafNode.data l) = r) as ->.
  { rewrite Ek. unfold l, LeafNode.set. cbn [LeafNode.data]. by rewrite take_app_length. }
  rewrite Ev, Eks. set (rest := drop _ _). set (l' := LeafNode.Node _ _ _).
  assert (LeafNode.vsize l' = Z.of_nat (length v)) as Evs.
  { pose proof (vsize_small (Z.of_nat (length v)) ltac:(lia)) as Hs.
    change (u16 (Z.of_nat (length v))) with (LeafNode.value_size l) in Hs. by rewrite Ev in Hs. }
  assert (LeafNode.key l' = r) as Ekey by (unfold LeafNode.key, l'; cbn; by rewrite Nat2Z.id, take_app_length).
  split_and!; [done| |].
  - unfold payload_of, LeafNode.value. rewrite Evs. unfold LeafNode.vdata, l'. cbn [LeafNode.value_size LeafNode.key_size LeafNode.data].
    by rewrite !Nat2Z.id, drop_app_length, take_app_length.
  - split; [unfold l'; cbn; lia|unfold l'; cbn [LeafNode.value_size]| |by rewrite Ekey].
    + change (2 ^ 16) with 65536. change (2 ^ 15) with 32768 in Hv. lia.
    + rewrite Evs. unfold l'. cbn [LeafNode.key_size LeafNode.data]. rewrite !length_app. lia.
Qed.

Lemma landed_filled d d' t ts k key wt s n v :
  landed d d' t ts k key wt s n -> Z.of_nat (length v) = value_size -> byte_list key ->
  let d2 := fill_value v (t_node t) d' in
  exists f', rep (d_heap d2) (d_root d2) f' (wt (Z.of_nat (length v), v)) /\ (forall x, f' x -> owned d2 x) /\
    located HASH_SIZE (d_heap d2) (d_root d2) (Cursor (t :: ts) k) key (wt (Z.of_nat (length v), v)) /\
    grows d d2 s /\ roomy n (d_alloc d2).
Proof.
  intros [(G & W & pre & e & r & C & -> & He & Hr & Hkp & Hpf & Hb & HW & HG) Hl Ha Ht [Hav Ho] Hc Hcu Hre Gr Ro] Hv Hbk d2.
  apply byte_list_app in Hbk as [Hbp Hbr].
  pose proof (filled_set (raw_leaf (t_node t)) r v ltac:(lia) Hbr Hr) as Fl. cbv zeta in Fl.
  set (l := LeafNode.Node _ _ _) in Fl. destruct Fl as (Fk & Fp & Fok).
  assert (d2 = write (t_node t) (OLeaf l) d') as Ed2.
  { unfold d2, fill_value, leaf_at. by rewrite Hb, <- Hv. }
  clearbody d2. subst d2. set (d2 := write _ _ _).
  pose proof (write_grows txn d' (t_node t) (OLeaf l) Ht) as Gw. fold d2 in Gw.
  assert (body (d_heap d2 (t_node t)) = OLeaf l) as B2 by apply set_body_same.
  assert (forall x, x <> t_node t -> d_heap d2 x = d_heap d' x) as E2 by (intros x Hx; by apply set_body_other).
  destruct (ctx_keep HASH_SIZE d' d2 _ _ _ _ _ _ C) as [C2 L2]; [intros x Hx; apply E2; by destruct (HG x Hx)|done|].
  destruct (link_to_spec (t_node t) LEAF ltac:(apply Ha) ltac:(lia)) as [Et Ep].
  assert (rep (d_heap d2) (load (d_heap d2) (d_root d2) (t_offset t)) (fun x => x = t_node t)
    (only r (Z.of_nat (length v), v))) as R.
  { apply (rep_leaf HASH_SIZE _ _ l); rewrite ?L2, ?Hl, ?Et; try done; [lia|].
    intros q Hq. unfold only. by rewrite Fk, Fp. }
  assert (forall b, e = Some b -> first_byte (d_heap d2) (load (d_heap d2) (d_root d2) (t_offset t)) = b) as Hfb.
  { intros b ->. unfold first_byte, leaf_at. by rewrite L2, Hl, Ep, Et, B2, Fk. }
  assert (forall q, byte_list q -> W (only r (Z.of_nat (length v), v)) q = wt (Z.of_nat (length v), v) q) as HW2
    by (intros; by apply HW).
  assert (forall x, x = t_node t -> G x -> False) as D by (intros x -> Hg; by destruct (HG _ Hg)).
  assert (LeafNode.size HASH_SIZE l = LeafNode.size HASH_SIZE (LeafNode.set (raw_leaf (t_node t)) r (Z.of_nat (length v))))
    as Esz by done.
  exists (fun x => G x \/ x = t_node t). split_and!.
  - eapply (rep_ext HASH_SIZE); [eapply (ctx_plug HASH_SIZE HASH_SIZE_range); [exact C2|exact R|done..]|done|].
    intros q Hq. by rewrite HW2.
  - intros x Hx. assert (owned d' x) as Ox by (destruct Hx as [Hg| ->]; [by apply HG|done]).
    apply write_owned; [done|]. intros ->. by rewrite Hb, <- Hv.
  - exists G, W, pre, e, (fun x => x = t_node t), (only r (Z.of_nat (length v), v)), r. split_and!; try done.
    + split; try done. by rewrite L2, Hl.
    + assert (is_leaf (d_heap d2) (d_root d2) t = true) as El by (unfold is_leaf; by rewrite L2, Hl).
      assert (content (d_heap d2) (d_root d2) t = r) as Ec.
      { unfold content, t_leaf, leaf_at. by rewrite El, B2. }
      rewrite <- (take_drop (length r) r) in Hcu. rewrite drop_all, app_nil_r in Hcu.
      split; cbn [keys]; rewrite ?Ec, ?El, ?(proj2 (common_prefix_refl_iff r r eq_refl)) by done; try done.
      * by rewrite drop_all.
      * rewrite Hc. symmetry. by apply lex_zero.
  - eapply grows_trans; [exact Gr|exact Gw|]. intros x Hx [|Hx']; [done|]. simpl in Hx'. by rewrite Hx' in Hx.
  - exact Ro.
Qed.

(** ** The whole insertion *)

(** The memory determines the pages of a trie. *)
Lemma rep_pages h l f m f' m' : rep h l f m -> rep h l f' m' -> forall x, f x -> f' x.
Proof.
  intros R. revert f' m'. induction R as [lnk lf f m H1 H2 H3 H4 H5 H6|lnk n F M f m H1 H2 H3 H4 H5 H6 H7 IH H8 H9 H10 H11 H12];
    intros f' m' R' x Hx.
  - apply H5 in Hx as ->. by eapply (rep_target HASH_SIZE).
  - apply H11 in Hx as [->|(k & l & Hk & Hl & Hx)]; [by eapply (rep_target HASH_SIZE)|].
    destruct R' as [lnk lf f' m' G1|lnk n' F' M' f' m' G1 G2 G3 G4 G5 G6 G7 G8 G9 G10 G11 G12]; [congruence|].
    assert (n' = n) as -> by congruence. apply G11. right. exists k, l. split_and!; try (done || lia).
    eapply (IH k l Hk Hl); [by apply G7|done].
Qed.

Abbreviation keys := trie.keys.

(** The database holds the map [m] in the pages [f]. *)
Definition holds (d : db) (f : Z -> Prop) (m : keymap) : Prop :=
  (if d_root d =? 0 then forall q, byte_list q -> m q = None else rep (d_heap d) (d_root d) f m) /\
  forall x, f x -> owned d x.

(** No value lives outside of its leaf. *)
Definition small_values (m : keymap) : Prop :=
  forall q s b, byte_list q -> m q = Some (s, b) -> 0 <= s < 2 ^ 15.

(** A cursor an insertion may start from: without a stack, or where an earlier
    search left it, valid or at another key. *)
Definition startable (d : db) (key : list Z) (c : cursor) (m : keymap) : Prop :=
  if d_root d =? 0 then stack c = [] /\ cur (keys c) = []
  else stack c = [] \/ positioned HASH_SIZE (d_heap d) (d_root d) c m /\
    (key <> cur (keys c) \/ trie.is_valid (d_heap d) (d_root d) c = true).

Lemma small_leaf d t ts G W pre e f m0 m l : focus HASH_SIZE (d_heap (d : db)) (d_root d) t ts G W pre e f m0 ->
  (forall q, byte_list q -> W m0 q = m q) -> small_values m -> byte_list pre ->
  body (d_heap d (t_node t)) = OLeaf l -> LeafNode.is_big l = false.
Proof.
  intros Fo EW Hs Hp Hb. pose proof Fo as [C R Hf D En Ek].
  destruct (focus_cases _ _ _ _ _ _ _ _ _ _ _ Fo) as [(El & l' & Hb' & Hok & Hm)|(El & nt & _ & _ & Hb' & _)]; [|congruence].
  assert (l' = l) as -> by congruence. pose proof (lo_bytes _ Hok) as Hk.
  assert (byte_list (pre ++ LeafNode.key l)) as Hbk by by apply byte_list_app.
  assert (m (pre ++ LeafNode.key l) = Some (payload_of l)) as E.
  { rewrite <- EW by done. rewrite (ctx_focus HASH_SIZE _ _ _ _ _ _ _ _ _ _ C).
    - rewrite Hm by done. by rewrite decide_True.
    - destruct e as [b|]; [|done]. simpl. rewrite <- (Hf b eq_refl). unfold first_byte, leaf_at.
      unfold is_leaf in El. by rewrite El, <- En, Hb. }
  specialize (Hs _ _ _ Hbk E). pose proof (vsize_small (LeafNode.value_size l) Hs) as Hv.
  rewrite wrap_small in Hv by (change (2 ^ 16) with 65536; change (2 ^ 15) with 32768 in Hs; lia).
  unfold LeafNode.is_big. apply Z.eqb_neq. intros Eb.
  assert (Z.testbit (LeafNode.value_size l) 15 = true) as Ht.
  { assert (Z.testbit (Z.land (LeafNode.value_size l) LeafNode.BIG_VALUE_FLAG) 15 = true) as Ht by by rewrite Eb.
    rewrite Z.land_spec in Ht. by apply andb_true_iff in Ht as [Ht _]. }
  rewrite <- Hv, Z.land_spec, Z.lnot_spec, andb_false_r in Ht by lia. done.
Qed.

Context (cfg : simd).

Lemma put_spec ffuel fuel n key v d f m c :
  holds d f m -> small_values m -> startable d key c m -> Z.of_nat (length v) = value_size ->
  byte_list key -> Z.of_nat (length key) < 2 ^ 16 -> (length key + 2 <= ffuel)%nat ->
  (length key <= 255 * fuel)%nat -> (1 <= fuel)%nat -> roomy (5 + 2 * length key + (fuel + n)) (d_alloc d) ->
  exists c1 c2 d' f',
    find_key cfg (d_heap d) (d_root d) ffuel key c = Some c1 /\
    put_value HASH_SIZE PAGE_HEADER PAGE_COUNT PAGE_SIZES raw raw_leaf txn fuel v c1 d = Some (c2, d') /\
    rep (d_heap d') (d_root d') f' (put_map key (Z.of_nat (length v), v) m) /\ (forall x, f' x -> owned d' x) /\
    located HASH_SIZE (d_heap d') (d_root d') c2 key (put_map key (Z.of_nat (length v), v) m) /\
    grows d d' f /\ roomy n (d_alloc d').
Proof.
  intros [Hr Ho] Hs Hc Hv Hb Hlen Hff Hf H1 Ro. unfold startable, put_value, reserve in *.
  assert (exists c1 t ts k d1 s, find_key cfg (d_heap d) (d_root d) ffuel key c = Some c1 /\
    reserve HASH_SIZE PAGE_HEADER PAGE_COUNT PAGE_SIZES raw raw_leaf txn fuel (Z.of_nat (length v)) c1 d =
      Some (Cursor (t :: ts) k, d1) /\ (forall x, s x -> f x) /\
    landed d d1 t ts k key (fun p => put_map key p m) s n) as (c1 & t & ts & k & d1 & s & E1 & E2 & Hsf & L).
  { unfold reserve. destruct (Z.eqb_spec (d_root d) 0) as [E0|E0].
    - destruct Hc as [Es Ec]. exists (Cursor [] (Keys [] key (dead (keys c)))). unfold find_key, find_. rewrite Es. cbn [stack].
      rewrite E0. cbn [Z.eqb stack]. unfold push_root. cbn [stack keys cur rest dead].
      set (t0 := init _ _ _ _ _). set (k0 := Keys [] key (list.tail _)).
      destruct (first_exec_spec fuel n d t0 k0 E0 eq_refl eq_refl eq_refl Hb Hlen) as (t' & ts' & k' & d' & E & L);
        [eapply roomy_less; [|exact Ro]; lia|done|done|].
      rewrite Hv. exists t', ts', k', d', (fun _ => False). split; [by rewrite Ec|]. rewrite E. split_and!; [done|done|].
      eapply landed_after; [apply (grows_refl txn d (fun _ => False))|exact L|tauto|].
      intros p q Hq. unfold only, put_map. destruct (decide _); [done|]. by rewrite Hr.
    - destruct (find_key_locates HASH_SIZE cfg _ _ ffuel key c f m Hr Hb Hlen Hff Hc) as (c1 & E & L & _).
      exists c1. destruct c1 as [[|t ts] k]; [done|]. cbn [located stack keys] in L |- *.
      destruct L as (G & W & pre & e & fh & mh & r & Fo & -> & He & St & EW).
      pose proof (proj1 (byte_list_app _ _) Hb) as [Hbp Hbr].
      assert (forall x, G x \/ fh x -> f x) as Hfx.
      { intros x Hx. apply (rep_pages _ _ (fun x => G x \/ fh x) (W mh) _ _) with (2 := Hr); [|exact Hx].
        eapply (ctx_plug HASH_SIZE HASH_SIZE_range); apply Fo. }
      assert (ready d t ts k pre r e fh mh G W) as Rd by (split; try done; intros x Hx; by apply Ho, Hfx).
      pose proof (ctx_depth _ _ _ _ _ _ _ _ (fo_ctx _ _ _ _ _ _ _ _ _ _ _ Fo)) as Hd.
      destruct (exec_spec fuel n d t ts k pre r e fh mh G W Rd) as (t' & ts' & k' & d' & E' & L).
      + intros l Hl. by eapply small_leaf.
      + eapply roomy_less; [|exact Ro]. rewrite length_app. lia.
      + rewrite (st_rest _ _ _ _ _ _ St), length_drop, length_app in *. lia.
      + done.
      + exists t', ts', k', d', (fun x => G x \/ fh x). split; [done|]. rewrite Hv, E'. split_and!; [done|done|].
        eapply landed_after; [apply (grows_refl txn d (fun _ => False))|exact L|tauto|].
        intros p q Hq. unfold put_map. destruct (decide _); [done|]. by apply EW. }
  destruct (landed_filled d d1 t ts k key _ s n v L Hv Hb) as (f' & R & O & Lo & Gr & Ron).
  exists c1, (Cursor (t :: ts) k), (fill_value v (t_node t) d1), f'. split; [done|]. unfold reserve in E2. rewrite E2.
  cbn [mbind option_bind stack]. split_and!; try done. eapply grows_weaken; [exact Gr|]. intros x _. apply Hsf.
Qed.

End with_alloc.
(** ** What the caller of a cursor sees *)

Section claims.
Context {A : Type} `{PA : PageAlloc A}.
Context (HASH_SIZE PAGE_HEADER PAGE_COUNT : Z) (PAGE_SIZES : Z -> Z).
Context (raw : Z -> TrieNode.node) (raw_leaf : Z -> LeafNode.node) (txn : Z) (cfg : simd).
Hypothesis Lay : layout HASH_SIZE PAGE_HEADER PAGE_COUNT PAGE_SIZES.

Abbreviation db := (@triewrite.db A).
Abbreviation holds := (trieput.holds HASH_SIZE PAGE_HEADER PAGE_COUNT PAGE_SIZES).
Abbreviation roomy := (triestore.roomy PAGE_COUNT).

(** [find(key)] and [value(v)]. *)
Definition put (ffuel fuel : nat) (key v : list Z) (c : cursor) (d : db) : option (cursor * db) :=
  c ← find_key cfg (d_heap d) (d_root d) ffuel key c;
  put_value HASH_SIZE PAGE_HEADER PAGE_COUNT PAGE_SIZES raw raw_leaf txn fuel v c d.

(** The value is stored in its leaf, whatever the key. *)
Definition value_fits (v : list Z) : Prop :=
  Z.of_nat (length v) < 2 ^ 15 /\
  LeafNode.HEADER_SIZE HASH_SIZE + 255 + Z.of_nat (length v) <= room PAGE_HEADER PAGE_COUNT PAGE_SIZES.

(** The limits of the arguments. *)
Record puttable (ffuel fuel n : nat) (key v : list Z) (d : db) : Prop := {
  pt_bytes : byte_list key;
  pt_length : Z.of_nat (length key) < 2 ^ 16;
  pt_value : value_fits v;
  pt_find_fuel : (length key + 2 <= ffuel)%nat;
  pt_fuel : (1 <= fuel /\ length key <= 255 * fuel)%nat;
  pt_room : roomy (5 + 2 * length key + (fuel + n)) (d_alloc d)
}.

Lemma put_located ffuel fuel n key v d f m c :
  holds d f m -> small_values m -> startable HASH_SIZE d key c m -> puttable ffuel fuel n key v d ->
  exists c2 d' f', put ffuel fuel key v c d = Some (c2, d') /\
    rep HASH_SIZE (d_heap d') (d_root d') f' (put_map key (Z.of_nat (length v), v) m) /\
    (forall x, f' x -> owned HASH_SIZE PAGE_HEADER PAGE_COUNT PAGE_SIZES d' x) /\
    located HASH_SIZE (d_heap d') (d_root d') c2 key (put_map key (Z.of_nat (length v), v) m) /\
    grows txn d d' f /\ roomy n (d_alloc d').
Proof.
  intros Hh Hs Hc [P1 P2 [P3 P4] P5 [P6 P7] P8].
  destruct (put_spec HASH_SIZE PAGE_HEADER PAGE_COUNT PAGE_SIZES raw raw_leaf txn Lay (Z.of_nat (length v))
    ltac:(split; [lia|exact P4]) cfg ffuel fuel n key v d f m c Hh Hs Hc eq_refl P1 P2 P5 P7 P6 P8)
    as (c1 & c2 & d' & f' & E1 & E2 & H).
  exists c2, d', f'. split; [|exact H]. unfold put. by rewrite E1.
Qed.

(** C1: in a trie none of whose values is big, putting a value makes the trie the map with
    this entry more, or with the entry replaced, and leaves the cursor at it, ready for the
    next operation. The cursor is new or was left by an earlier operation, but not, without
    being valid, exactly at the key ([startable]; where a search for a longer key left it
    there, [put_after_longer_key_doubles]); the key, the value and the free memory are
    within the limits ([puttable]). With big values, see [split_changes_committed_leaf]. *)
Theorem put_inserts ffuel fuel n key v d f m c :
  holds d f m -> small_values m -> startable HASH_SIZE d key c m -> puttable ffuel fuel n key v d ->
  let m' := put_map key (Z.of_nat (length v), v) m in
  exists c' d' f', put ffuel fuel key v c d = Some (c', d') /\
    holds d' f' m' /\ small_values m' /\ (forall key', startable HASH_SIZE d' key' c' m') /\
    trie.is_valid (d_heap d') (d_root d') c' = true /\ cur (trie.keys c') = key /\
    trie.value (d_heap d') (d_root d') c' = Some v /\ roomy n (d_alloc d').
Proof.
  intros Hh Hs Hc P m'. pose proof (pt_bytes _ _ _ _ _ _ P) as Hb. pose proof (pt_value _ _ _ _ _ _ P) as [Hv _].
  destruct (put_located ffuel fuel n key v d f m c Hh Hs Hc P) as (c' & d' & f' & E & R & O & L & _ & Ro).
  fold m' in R, L. pose proof (located_positioned HASH_SIZE _ _ _ _ _ L Hb) as Po.
  destruct (located_reads HASH_SIZE _ _ _ _ _ L Hb) as (V1 & V2 & V3).
  assert (m' key = Some (Z.of_nat (length v), v)) as Em by (unfold m', put_map; by rewrite decide_True).
  rewrite Em in V1, V2. exists c', d', f'. split; [done|].
  assert (d_root d' <> 0) as Hnz.
  { intros E0. pose proof (rep_nonzero HASH_SIZE _ _ _ _ R) as Hn. by rewrite E0 in Hn. }
  split; [|split; [|split_and!]]; try done; auto.
  - split; [|done]. by destruct (Z.eqb_spec (d_root d') 0).
  - intros q s b Hq. unfold m', put_map. destruct (decide _); [|by apply Hs]. intros [= <- <-]. lia.
  - intros key'. unfold startable. destruct (Z.eqb_spec (d_root d') 0); [done|]. right. split; [done|]. by right.
Qed.

(** C2: in a trie none of whose values is big ([split_changes_committed_leaf]), putting a
    value through a cursor as in [put_inserts] leaves every version of the trie that
    another transaction committed as it is: its pages are not available for allocation, are
    not those of this transaction, and the map below its root stays. *)
Theorem put_keeps_versions ffuel fuel n key v d f m c c' d' l0 f0 m0 :
  holds d f m -> small_values m -> startable HASH_SIZE d key c m -> puttable ffuel fuel n key v d ->
  put ffuel fuel key v c d = Some (c', d') ->
  rep HASH_SIZE (d_heap d) l0 f0 m0 ->
  (forall x, f0 x -> ~ avail (d_alloc d) x /\ txn_id (d_heap d x) <> txn) ->
  rep HASH_SIZE (d_heap d') l0 f0 m0 /\ forall x, f0 x -> ~ avail (d_alloc d') x.
Proof.
  intros Hh Hs Hc P E R0 H0.
  destruct (put_located ffuel fuel n key v d f m c Hh Hs Hc P) as (c2 & d2 & f' & E2 & _ & _ & _ & Gr & _).
  assert (d2 = d') as -> by congruence. split.
  - eapply rep_frame; [exact R0|]. intros x Hx. by apply (gr_cow _ _ _ _ Gr); apply H0.
  - intros x Hx Ha. destruct (H0 x Hx) as [Hn _]. by apply Hn, (gr_mono _ _ _ _ Gr).
Qed.

End claims.

(** ** Witnesses: an allocator that hands out one page after the other *)

Definition bump_take (s a : Z) : option (Z * Z) :=
  if (0 <? a) && (a <? 2 ^ 48) then Some (4096 * a, a + 1) else None.

#[local] Program Instance bump : PageAlloc Z := {
  take_page := bump_take; give_page _ _ a := Some a; avail a p := 4096 * a <= p }.
Next Obligation.
  intros s a p a'. unfold bump_take. destruct ((0 <? a) && (a <? 2 ^ 48)); [|done]. intros [= <- <-]. lia.
Qed.
Next Obligation.
  intros s a p a' q. unfold bump_take. destruct ((0 <? a) && (a <? 2 ^ 48)); [|done]. intros [= <- <-]. lia.
Qed.
Next Obligation.
  intros s a p a'. unfold bump_take. destruct ((0 <? a) && (a <? 2 ^ 48)) eqn:E; [|done]. intros [= <- <-].
  apply andb_true_iff in E as [E1%Z.ltb_lt E2%Z.ltb_lt]. split; [|lia].
  replace (4096 * a) with (512 * a * 8) by lia. apply Z.mod_mul. lia.
Qed.
Next Obligation. by intros s p a a' q [= <-]. Qed.

Lemma bump_roomy N n : forall a, 0 < a -> a + Z.of_nat n < 2 ^ 48 -> roomy (A := Z) N n a.
Proof.
  induction n as [|n IH]; intros a Ha Hn; [done|]. split.
  - intros s _. exists (4096 * a), (a + 1). split; [|apply IH; lia]. simpl. unfold bump_take.
    assert ((0 <? a) && (a <? 2 ^ 48) = true) as ->; [|done].
    apply andb_true_iff. split; apply Z.ltb_lt; lia.
  - intros s p _. exists a. split; [done|]. apply IH; lia.
Qed.

Definition sample_sizes (s : Z) : Z := 512 * (s + 1).
Definition sample_db : @triewrite.db Z := Db sample_heap sample_root 1.

Lemma sample_layout : layout 0 8 64 sample_sizes.
Proof. split; unfold sample_sizes; try done; lia. Qed.

Lemma sample_holds : holds 0 8 64 sample_sizes sample_db sample_pages sample_map /\ small_values sample_map.
Proof.
  split; [split; [exact sample_rep|]|].
  - intros x [->|[->| ->]]; split; simpl; try lia; vm_compute; intros [=].
  - intros q s b Hq. unfold sample_map. do 2 (destruct (decide _); [intros [= <- <-]; done|]). done.
Qed.

Lemma sample_puttable : puttable 0 8 64 sample_sizes 9 1 0 [98] [122] sample_db.
Proof.
  split; [forall_lia|done| |simpl; lia|simpl; lia|apply bump_roomy; [done|vm_compute; done]].
  split; [done|]. vm_compute. intros [=].
Qed.

Lemma put_inserts_witness : exists c' d',
  put 0 8 64 sample_sizes (fun _ => trie.blank) (fun _ => trie.blank_leaf) 5 plain 9 1 [98] [122] fresh_cursor sample_db =
    Some (c', d') /\
  trie.value (d_heap d') (d_root d') c' = Some [122].
Proof.
  destruct (put_inserts 0 8 64 sample_sizes (fun _ => trie.blank) (fun _ => trie.blank_leaf) 5 plain sample_layout 9 1 0
    [98] [122] sample_db sample_pages sample_map fresh_cursor (proj1 sample_holds) (proj2 sample_holds)
    (or_introl eq_refl) sample_puttable) as (c' & d' & f' & E & _ & _ & _ & _ & _ & V & _).
  exists c', d'. by split.
Defined.

Lemma put_keeps_versions_witness : exists c' d',
  put 0 8 64 sample_sizes (fun _ => trie.blank) (fun _ => trie.blank_leaf) 5 plain 9 1 [98] [122] fresh_cursor sample_db =
    Some (c', d') /\ rep 0 (d_heap d') sample_root sample_pages sample_map.
Proof.
  destruct (put_located 0 8 64 sample_sizes (fun _ => trie.blank) (fun _ => trie.blank_leaf) 5 plain sample_layout 9 1 0
    [98] [122] sample_db sample_pages sample_map fresh_cursor (proj1 sample_holds) (proj2 sample_holds)
    (or_introl eq_refl) sample_puttable) as (c' & d' & f' & E & _).
  exists c', d'. split; [exact E|].
  apply (put_keeps_versions 0 8 64 sample_sizes (fun _ => trie.blank) (fun _ => trie.blank_leaf) 5 plain sample_layout 9 1 0
    [98] [122] sample_db sample_pages sample_map fresh_cursor c' d' sample_root sample_pages sample_map
    (proj1 sample_holds) (proj2 sample_holds) (or_introl eq_refl) sample_puttable E sample_rep).
  intros x [->|[->| ->]]; split; simpl; try lia; done.
Defined.

(** ** A cursor that may not be used *)

(** the condition on the cursor is needed. In the trie of the keys [a] and [ab], a search
    for [abc] fails with [ab] matched; the same cursor then takes [ab] for found, without
    standing at its leaf, and writing its value makes a second leaf of [ab] behind the
    first: a scan lists the key twice, and a search still reads the old value. *)
Theorem put_after_longer_key_doubles :
  (c ← find_key plain sample_heap sample_root 9 [97; 98; 99] fresh_cursor;
   '(_, d) ← put 0 8 64 sample_sizes (fun _ => trie.blank) (fun _ => trie.blank_leaf) 5 plain 9 1 [97; 98] [122] c sample_db;
   c1 ← trie.first_key (d_heap d) (d_root d) 9 fresh_cursor; c2 ← trie.next_key (d_heap d) (d_root d) 9 c1;
   c3 ← trie.next_key (d_heap d) (d_root d) 9 c2; c4 ← find_key plain (d_heap d) (d_root d) 9 [97; 98] fresh_cursor;
   Some (map (fun c => cur (trie.keys c)) [c1; c2; c3], trie.value (d_heap d) (d_root d) c4)) =
  Some ([[97]; [97; 98]; [97; 98]], Some [121]).
Proof. vm_compute. reflexivity. Qed.

(** ** A big value is no longer one in the committed version *)

(** A committed leaf for [ab] whose value, 16 bytes that describe an area, is big. *)
Definition big_leaf : LeafNode.node := LeafNode.Node (2 ^ 15 + 16) 2 ([97; 98] ++ repeat 7 16).
Definition big_db : @triewrite.db Z := Db (fun _ => Page 0 0 0 (OLeaf big_leaf)) (link_to 8 LEAF) 1.

(** the condition on big values is needed: an insertion that splits a leaf clears
    the flag of the original, so a reader of the committed version takes the
    description of the area for the value. *)
Theorem split_changes_committed_leaf :
  txn_id (d_heap big_db 8) <> 5 /\ LeafNode.is_big (leaf_at (d_heap big_db) 8) = true /\
  (c ← find_key plain (d_heap big_db) (d_root big_db) 9 [97; 99] fresh_cursor;
   '(_, d) ← put_value 0 8 64 sample_sizes (fun _ => trie.blank) (fun _ => trie.blank_leaf) 5 1 [122] c big_db;
   Some (LeafNode.is_big (leaf_at (d_heap d) 8))) = Some false.
Proof. split; [done|]. split; [done|]. vm_compute. reflexivity. Qed.

End trieput.
