(* ===== verification/TrieRemove.v ===== *)
(** * TrieRemove: a removal takes one key out of the map

    [remove_node] unlinks the leaf of the cursor. A parent left with one child is
    merged with it ([combine]), one with more is copied without the branch
    ([reduce_array]), one without any is removed itself. Both copies take the place
    of the old node in the same way ([swap_spec]). The cursor moves to the key behind
    the removed one. *)
From Stdlib Require Import Sorted.
From S2P Require Import Prelude Bits Util Node Leaf NodeFacts NodeUpdate NodeCreate Memory MemoryFacts.
From S2P Require Import Trie TrieWrite TrieRep TrieFind TrieLookup TrieIter TrieSeek TrieStore TrieInsert TrieExec TriePut.

Module trieremove.
Import util.
Export triestore trieinsert trieiter trieseek trieput.

(** The map with one entry less. *)
Definition del_map (key : list Z) (m : keymap) : keymap := fun q => if decide (q = key) then None else m q.

(** ** The stack of a copied path *)

(** [update] leaves what a search recorded about the parents. *)
Definition alike (t u : transition) : Prop :=
  t_cmp u = t_cmp t /\ t_prefix u = t_prefix t /\ t_keypos u = t_keypos t /\ t_branch_key u = t_branch_key t.

Lemma trail_alike key pos ts us stop : Forall2 alike ts us -> trail key pos ts stop -> trail key pos us stop.
Proof.
  intros F. revert pos. induction F as [|t u ts us (E1 & E2 & E3 & E4) F IH]; intros pos; cbn [trail]; [done|].
  rewrite E1, E2, E3, E4. naive_solver.
Qed.

Section with_alloc.
Context {A : Type} `{PA : PageAlloc A}.
Context (HASH_SIZE PAGE_HEADER PAGE_COUNT : Z) (PAGE_SIZES : Z -> Z).
Context (raw : Z -> TrieNode.node) (txn : Z).
Hypothesis Lay : layout HASH_SIZE PAGE_HEADER PAGE_COUNT PAGE_SIZES.
Let HASH_SIZE_range : 0 <= HASH_SIZE <= 512 := ly_hash _ _ _ _ Lay.

Abbreviation rep := (trierep.rep HASH_SIZE).
Abbreviation ctx := (trierep.ctx HASH_SIZE).
Abbreviation focus := (triefind.focus HASH_SIZE).
Abbreviation db := (@triewrite.db A).
Abbreviation owned := (triestore.owned HASH_SIZE PAGE_HEADER PAGE_COUNT PAGE_SIZES).
Abbreviation grows := (triestore.grows txn).
Abbreviation roomy := (triestore.roomy PAGE_COUNT).
Abbreviation room := (triestore.room PAGE_HEADER PAGE_COUNT PAGE_SIZES).
Abbreviation holds := (trieput.holds HASH_SIZE PAGE_HEADER PAGE_COUNT PAGE_SIZES).

Lemma update_alike ts : forall (d : db) o ts' d', triewrite.update txn ts d = Some (o, ts', d') -> Forall2 alike ts ts'.
Proof.
  induction ts as [|t ts IH]; intros d o ts' d'; cbn [triewrite.update]; [done|].
  assert (forall us : list transition, Forall2 alike us us) as Hrefl by (induction us; constructor; [by split_and!|done]).
  destruct (needs_cow txn _ _); [|intros [= <- <- <-]; apply Hrefl].
  destruct (triewrite.alloc_slot txn _ _ d) as [[p d1]|]; [|done]. cbn [mbind option_bind].
  destruct (free_node _ _) as [d2|]; [|done]. cbn [mbind option_bind].
  destruct ts as [|u us].
  - intros [= <- <- <-]. constructor; [by split_and!|constructor].
  - destruct (triewrite.update txn (u :: us) d2) as [[[o' us'] d3]|] eqn:E; [|done]. cbn [mbind option_bind].
    intros [= <- <- <-]. constructor; [by split_and!|by eapply IH].
Qed.

Lemma update_offset_alike l t ts (d : db) t' ts' d' :
  triewrite.update_offset txn l t ts d = Some (t', ts', d') -> Forall2 alike (t :: ts) (t' :: ts').
Proof.
  unfold triewrite.update_offset. destruct ts as [|u us].
  - intros [= <- <- <-]. constructor; [by split_and!|constructor].
  - destruct (triewrite.update txn (u :: us) d) as [[[o us'] d1]|] eqn:E; [|done]. cbn [mbind option_bind].
    intros [= <- <- <-]. constructor; [by split_and!|by eapply update_alike].
Qed.

(** ** A new trie in the place of an old one *)

(** [t3] on [ts3] is where [t2] on [ts] was, with the new trie below it. *)
Record swapped (d d4 : db) (t2 t3 : transition) (ts ts3 : list transition) (G G4 : Z -> Prop) (W W4 : keymap -> keymap)
    (pre : list Z) (e : option Z) (l : Z) (f : Z -> Prop) (m : keymap) (n : nat) : Prop := {
  sw_focus : focus (d_heap d4) (d_root d4) t3 ts3 G4 W4 pre e f m;
  sw_load : load (d_heap d4) (d_root d4) (t_offset t3) = l;
  sw_same : t3 = set_offset (t_offset t3) t2;
  sw_map : forall w q, byte_list q -> W4 w q = W w q;
  sw_alike : Forall2 alike ts ts3;
  sw_pages : forall x, f x -> d_heap d4 x = d_heap d x;
  sw_grows : grows d d4 G;
  sw_owned : forall x, G4 x \/ f x -> owned d4 x;
  sw_room : roomy n (d_alloc d4)
}.

Lemma swap_spec n d t2 ts l G W pre e f m :
  ctx (d_heap d) (d_root d) ts (t_offset t2) G W pre e -> (forall x, G x -> owned d x) ->
  t_keypos t2 = Z.of_nat (length pre) -> t_node t2 = target l ->
  rep (d_heap d) l f m -> (forall b, e = Some b -> first_byte (d_heap d) l = b) ->
  (forall x, f x -> owned d x /\ ~ G x) -> roomy (2 * length ts + n) (d_alloc d) ->
  exists t3 ts3 d4 G4 W4, triewrite.update_offset txn l t2 ts d = Some (t3, ts3, d4) /\
    swapped d d4 t2 t3 ts ts3 G G4 W W4 pre e l f m n.
Proof.
  intros C Ow Ek En R Hf Hp Ro.
  destruct (update_offset_spec _ _ _ _ txn Lay n d t2 ts l G W pre e C Ow Ro)
    as (o & ts3 & d4 & G4 & W4 & E & _ & [C4 Em4 El4 Gr4 Ow4 Pg4 Wr4 Ro4]).
  assert (forall x, f x -> d_heap d4 x = d_heap d x) as E4.
  { intros x Hx. destruct (Hp x Hx) as [Ox Gx]. apply (gr_frame _ _ _ _ Gr4); [apply Ox|done]. }
  exists (set_offset o t2), ts3, d4, G4, W4. split; [exact E|]. split; try done.
  - split; cbn [set_offset t_offset t_node t_keypos]; rewrite ?El4; try done.
    + by eapply (rep_frame HASH_SIZE).
    + intros b Hb. rewrite (first_byte_frame (d_heap d)); [by apply Hf|]. apply E4. by eapply (rep_target HASH_SIZE).
    + intros x Hx HG. destruct (Hp x Hx) as [Ox Gx]. destruct (Pg4 x HG); [done|]. by apply (ow_used _ _ _ _ _ _ Ox).
  - apply update_offset_alike in E. by inversion E.
  - intros x [HG|Hx]; [by apply Ow4|]. destruct (Hp x Hx) as [Ox Gx]. by eapply grows_owned.
Qed.

(** ** Where the cursor goes on *)

Section resume.
Context (h : heap) (root : Z).

Abbreviation moved := (trieiter.moved HASH_SIZE h root).
Abbreviation standing := (trieiter.standing HASH_SIZE h root).

(** The first key below a node, when the removed key ended there. *)
Lemma next_removed_end fuel t ts k G W pre e f m n : focus h root t ts G W pre e f m -> is_leaf h root t = false ->
  body (h (t_node t)) = OTrie n -> wf HASH_SIZE n -> isset n NONE = false -> t_cmp t = -1 -> t_prefix t = 0 ->
  compressed n <> [] -> byte_list (pre ++ compressed n) -> enters e (compressed n) ->
  trail (pre ++ compressed n) (Z.of_nat (length pre)) ts 0 -> cur k = pre ++ compressed n -> fits fuel (W m) ->
  moved true (W m) (pre ++ compressed n) (next_key h root fuel (Cursor (t :: ts) k)).
Proof.
  intros Fo Hl Hb Hw Hs Hc Ep Hne Hkey He Ht Hcur Hfit. pose proof (fo_keypos _ _ _ _ _ _ _ _ _ _ _ Fo) as Ek.
  pose proof (compressed_length HASH_SIZE n Hw) as Hcl.
  destruct (rep_extreme HASH_SIZE h true _ f m (fo_rep _ _ _ _ _ _ _ _ _ _ _ Fo)) as [r1 Ex].
  pose proof Ex as [X1 [v X2] _]. pose proof Hkey as [Hp Hcb]%byte_list_app.
  pose proof (key_enters HASH_SIZE h root t ts G W pre e f m _ r1 Fo He Hcb X1 (mk_is_Some _ _ X2)) as E1.
  destruct (node_key_branch HASH_SIZE _ _ _ _ _ _ _ _ _ _ _ r1 Fo Hl Hb) as (x & -> & Sx).
  { by apply byte_list_app. } { done. }
  { rewrite (ctx_focus HASH_SIZE _ _ _ _ _ _ _ _ _ _ (fo_ctx _ _ _ _ _ _ _ _ _ _ _ Fo) E1). by exists v. }
  unfold next_key. cbn [stack length no_rest trie.keys climb]. unfold trie.next.
  assert (t_trie h t = n) as -> by (unfold t_trie, trie_at; by rewrite Hb). rewrite Hl, Hc, Ep. cbn [Z.eqb Z.ltb].
  destruct (Z.ltb_spec 0 (compressed_len n)) as [_|Hz]; [|destruct (compressed n); simpl in Hcl; [done|lia]].
  destruct (resume_here HASH_SIZE h root true fuel t ts (resize_key (t_keypos t) (Keys (cur k) [] (dead k))) G W pre e f m (compressed n)
    (compressed n ++ x) Fo Hkey He E1 Ex) as (t' & seg & k' & E & Er & St & Ne); try done.
  - rewrite <- (app_nil_r (compressed n)) at 1. apply ahead_app. destruct x as [|c x]; [change (branch []) with NONE in Sx; congruence|done].
  - cbn [resize_key cur]. by rewrite Ek, Nat2Z.id, Hcur, take_app_length.
  - cbv beta iota delta [trieiter.walk] in E. rewrite E. cbn [mbind option_bind]. by eapply moved_found.
Qed.

(** An empty prefix is one of the root. *)
Lemma empty_prefix t ts G W pre e f m n : focus h root t ts G W pre e f m -> is_leaf h root t = false ->
  body (h (t_node t)) = OTrie n -> compressed n = [] -> ts = [] /\ pre = [].
Proof.
  intros Fo Hl Hb Hc. pose proof (fo_ctx _ _ _ _ _ _ _ _ _ _ _ Fo) as C. destruct ts as [|u us]; [by inversion C|]. exfalso.
  destruct (ctx_load HASH_SIZE _ _ _ _ _ _ _ _ _ C) as (_ & b & _ & Ee & Hb' & _).
  pose proof (fo_first _ _ _ _ _ _ _ _ _ _ _ Fo b Ee) as Hf. unfold first_byte, trie_at in Hf. unfold is_leaf in Hl.
  rewrite Hl, <- (fo_node _ _ _ _ _ _ _ _ _ _ _ Fo), Hb, Hc in Hf. lia.
Qed.

(** At a root without a prefix [next] starts from the branch taken last. *)
Lemma next_root fuel t k G W e f m n : focus h root t [] G W [] e f m -> is_leaf h root t = false ->
  body (h (t_node t)) = OTrie n -> compressed n = [] -> t_cmp t = -1 -> t_prefix t = 0 -> -1 <= t_branch_key t <= 255 ->
  fits fuel (W m) -> exists c', next_key h root fuel (Cursor [t] k) = Some c'.
Proof.
  intros Fo Hl Hb Hc0 Hc Ep Hbk Hfit.
  destruct (focus_cases _ _ _ _ _ _ _ _ _ _ _ Fo) as [(Hl' & _)|(_ & n' & F & M & Hb' & Hw & Hcb & HR & HF & Hown & HD & Fo' & Hm & _)]; [congruence|].
  assert (n' = n) as -> by congruence. pose proof (compressed_length HASH_SIZE n Hw) as Hcl. rewrite Hc0 in Hcl. cbn in Hcl.
  unfold next_key. cbn [stack length no_rest trie.keys climb]. unfold trie.next.
  assert (t_trie h t = n) as -> by (unfold t_trie, trie_at; by rewrite Hb). rewrite Hl, Hc, Ep, <- Hcl, Hc0. cbn [Z.eqb Z.ltb].
  destruct (next_least_key n (wf_groups _ _ Hw) (t_branch_key t) Hbk) as [[-> _]|(Hnr & Sn & _)]; [by eexists|].
  set (b := TrieNode.next n (t_branch_key t)) in *.
  destruct (Z.eqb_spec b OUT_OF_RANGE) as [Eb|_]; [unfold OUT_OF_RANGE in Eb; lia|].
  assert (exists l, link n b = Some l) as [l El] by (rewrite (link_isset HASH_SIZE), Sn by (done || lia); by eexists).
  destruct (rep_extreme HASH_SIZE h true l _ _ (HR b l ltac:(lia) El)) as [r1 Ex].
  assert (branch r1 = b) as Eb1.
  { destruct Ex as [X1 [v X2] _]. eapply (child_branch HASH_SIZE h n F M); try done. lia. }
  assert (byte_list r1 /\ is_Some (W m r1)) as [Hr1 Hin].
  { split; [apply Ex|]. destruct (node_keys _ _ _ _ _ _ _ _ _ _ _ _ _ _ Fo Hb Hl Hm HR) as [K1 _].
    specialize (K1 r1 ltac:(rewrite Hc0; apply Ex)). rewrite Hc0, Eb1, El in K1. cbn [app] in K1. destruct K1 as [_ ->]. apply Ex. }
  destruct (Hfit r1 Hr1 Hin) as [H16 Hfu].
  set (t1 := set_idx _ _). set (kk := append_key _ _).
  assert (cur kk = []) as Ekk.
  { unfold kk. cbn [append_key resize_key cur]. by rewrite (fo_keypos _ _ _ _ _ _ _ _ _ _ _ Fo). }
  pose proof (focus_child HASH_SIZE h root t [] n F M G W [] e b l kk Fo' Hl Hb Hw Hcb HR HF Hown HD ltac:(lia) El
    ltac:(rewrite Hc0; done) ltac:(by rewrite Hc0) t1 eq_refl eq_refl eq_refl eq_refl) as Ch.
  destruct (child h root t1 kk) as [ch k1]. destruct Ch as (G' & W' & Fc & _ & _ & ->).
  destruct (walk_reaches HASH_SIZE h root true fuel ch [t1] (Keys (cur kk) (rest kk) (tl (dead kk))) G' W' _ (Some b) _ _ r1 Fc Ex Eb1)
    as (t' & seg & k2 & E & _); try done.
  { by rewrite Hc0. } { by rewrite Hc0. } { lia. }
  unfold walk in E. rewrite E. by eexists.
Qed.

(** [next] from a node that lost the branch of the key. *)
Lemma next_removed fuel t ts k G W pre e f m n r : focus h root t ts G W pre e f m -> is_leaf h root t = false ->
  body (h (t_node t)) = OTrie n -> wf HASH_SIZE n -> isset n (branch r) = false -> t_cmp t = -1 ->
  byte_list (pre ++ compressed n ++ r) -> enters e (compressed n ++ r) ->
  t_prefix t = (if decide (r = []) then 0 else compressed_len n) -> (r <> [] -> t_branch_key t = branch r) ->
  (pre ++ compressed n ++ r = [] -> -1 <= t_branch_key t <= 255) -> trail (pre ++ compressed n ++ r) (Z.of_nat (length pre)) ts 0 -> cur k = pre ++ compressed n ->
  fits fuel (W m) ->
  exists c', next_key h root fuel (Cursor (t :: ts) k) = Some c' /\
    (pre ++ compressed n ++ r <> [] -> moved true (W m) (pre ++ compressed n ++ r) (Some c')).
Proof.
  intros Fo Hl Hb Hw Hs Hc Hkey He Ep Ebk Hbk Ht Hcur Hfit. destruct (decide (r = [])) as [->|Hne].
  - rewrite app_nil_r in *. destruct (decide (compressed n = [])) as [Hc0|Hc0].
    + destruct (empty_prefix _ _ _ _ _ _ _ _ _ Fo Hl Hb Hc0) as [-> ->].
      destruct (next_root fuel t k G W e f m n Fo Hl Hb Hc0 Hc Ep ltac:(by apply Hbk; rewrite Hc0) Hfit) as [c' E]. exists c'. split; [done|]. by rewrite Hc0.
    + pose proof (next_removed_end fuel t ts k G W pre e f m n Fo Hl Hb Hw Hs Hc Ep Hc0 Hkey He Ht Hcur Hfit) as (c' & E & Mv).
      exists c'. split; [done|]. intros _. by exists c'.
  - pose proof (next_missing_branch HASH_SIZE h root true fuel t ts k G W pre e f m n r Fo Hl Hb Hs ltac:(lia) Hkey ltac:(by destruct (decide (r = []))) (Ebk Hne) Ht ltac:(by rewrite Hcur, take_app_length) Hfit) as (c' & E & Mv).
    exists c'. split; [done|]. intros _. by exists c'.
Qed.

End resume.

(** ** The parent of what is removed *)

(** An entry taken out behind a hole is taken out of the whole trie. *)
Lemma ctx_del h root ts pl G W pre e r m q : ctx h root ts pl G W pre e -> enters e r ->
  W (del_map r m) q = del_map (pre ++ r) (W m) q.
Proof.
  intros C He. unfold del_map at 2. destruct (decide (q = pre ++ r)) as [->|Hn].
  - rewrite (ctx_focus HASH_SIZE _ _ _ _ _ _ _ _ _ _ C He). unfold del_map. by rewrite decide_True.
  - destruct (below_or_not pre e q) as [(r' & -> & He')|Ho].
    + rewrite !(ctx_focus HASH_SIZE _ _ _ _ _ _ _ _ _ _ C He'). unfold del_map.
      rewrite decide_False; [done|]. by intros ->.
    + by eapply (ctx_outside HASH_SIZE).
Qed.

(** A branch less is an entry less, when the branch led to one key. *)
Lemma node_map_del comp lk lk' M m r q : (forall q, byte_list q -> m q = node_map comp lk M q) ->
  lk' (branch r) = None -> (forall c, -1 <= c <= 255 -> c <> branch r -> lk' c = lk c) ->
  (forall q, byte_list q -> branch q = branch r -> q <> r -> m (comp ++ q) = None) -> byte_list q ->
  node_map comp lk' M q = del_map (comp ++ r) m q.
Proof.
  intros Hm Hn Hk Ho Hq. unfold del_map, node_map at 1. destruct (decide (comp `prefix_of` q)) as [[x ->]|Hp].
  - rewrite drop_app_length. pose proof Hq as [Hc Hx]%byte_list_app.
    destruct (Z.eq_dec (branch x) (branch r)) as [E|Hne].
    + rewrite E, Hn. destruct (decide _) as [|Hne]; [done|]. rewrite Ho; [done..|]. by intros ->.
    + rewrite Hk by (done || by apply byte_branch). rewrite decide_False by (intros E%app_inv_head; by subst).
      rewrite Hm by done. by rewrite node_map_app.
  - rewrite decide_False by (intros ->; apply Hp; by exists r). rewrite Hm by done.
    unfold node_map. by rewrite decide_False.
Qed.

(** [u] on [us] is the node whose branch for the rest [r] of the key leads to what
    is removed. *)
Record gap (fuel : nat) (d : db) (u : transition) (us : list transition) (k : keys_state) (pre r : list Z) (e : option Z)
    (f : Z -> Prop) (m : keymap) (G : Z -> Prop) (W : keymap -> keymap) (n : node) (F : Z -> Z -> Prop) (M : Z -> keymap) : Prop := {
  ga_focus : focus (d_heap d) (d_root d) u us G W pre e f m;
  ga_trie : is_leaf (d_heap d) (d_root d) u = false;
  ga_body : body (d_heap d (t_node u)) = OTrie n;
  ga_wf : wf HASH_SIZE n;
  ga_bytes : byte_list (compressed n);
  ga_rep : forall c l, -1 <= c <= 255 -> link n c = Some l -> rep (d_heap d) l (F c) (M c);
  ga_first : forall c l, -1 <= c <= 255 -> link n c = Some l -> first_byte (d_heap d) l = c;
  ga_other : forall c l, -1 <= c <= 255 -> link n c = Some l -> ~ F c (t_node u);
  ga_disj : forall c l c' l' x, -1 <= c <= 255 -> -1 <= c' <= 255 -> link n c = Some l -> link n c' = Some l' ->
    F c x -> F c' x -> c = c';
  ga_map : forall q, byte_list q -> m q = node_map (compressed n) (link n) M q;
  ga_pages : forall x, f x <-> x = t_node u \/ exists c l, -1 <= c <= 255 /\ link n c = Some l /\ F c x;
  ga_branch : isset n (branch r) = true;
  ga_index : t_link_idx u = array_index n (branch r);
  ga_key : byte_list (pre ++ compressed n ++ r);
  ga_only : forall q, byte_list q -> branch q = branch r -> q <> r -> m (compressed n ++ q) = None;
  ga_owned : forall x, G x \/ f x -> owned d x;
  ga_trail : trail (pre ++ compressed n ++ r) (Z.of_nat (length (pre ++ compressed n))) (u :: us) 0;
  ga_cur : cur k = pre ++ compressed n;
  ga_rest : rest k = [];
  ga_fits : fits fuel (W m)
}.

(** [key] was removed: [w] is the map before. *)
Record gone (d d' : db) (c' : cursor) (key : list Z) (w : keymap) (s : Z -> Prop) (n : nat) : Prop := {
  gn_holds : exists f', holds d' f' (del_map key w);
  gn_moved : key <> [] -> moved HASH_SIZE (d_heap d') (d_root d') true (del_map key w) key (Some c');
  gn_grows : grows d d' s;
  gn_room : roomy n (d_alloc d');
  gn_reset : d_root d' = 0 -> stack c' = [] /\ cur (trie.keys c') = []
}.

Lemma fits_del fuel key w w' : fits fuel w -> (forall q, byte_list q -> w' q = del_map key w q) -> fits fuel w'.
Proof.
  intros Hf E q Hq [v Hv]. rewrite E in Hv by done. unfold del_map in Hv. destruct (decide _); [done|]. apply Hf; [done|by exists v].
Qed.

(** The node [u] is at a gap enters like its keys. *)
Lemma gap_enters fuel d u us k pre r e f m G W n F M q : gap fuel d u us k pre r e f m G W n F M -> enters e (compressed n ++ q).
Proof.
  intros Ga. pose proof (ga_focus _ _ _ _ _ _ _ _ _ _ _ _ _ _ _ Ga) as Fo. eapply (ctx_enters HASH_SIZE).
  - apply Fo.
  - exact (ga_trie _ _ _ _ _ _ _ _ _ _ _ _ _ _ _ Ga).
  - rewrite <- (fo_node _ _ _ _ _ _ _ _ _ _ _ Fo). apply Ga.
  - apply Fo.
Qed.

(** A trie for the reduced map takes the place of the node. *)
Lemma replaced_spec fuel n0 (d d2 : db) u us k pre r e f m G W n F M p l f2 m2 : gap fuel d u us k pre r e f m G W n F M ->
  grows d d2 (fun _ => False) -> d_root d2 = d_root d -> target l = p ->
  rep (d_heap d2) l f2 m2 -> (forall b, e = Some b -> first_byte (d_heap d2) l = b) ->
  (forall x, f2 x -> owned d2 x /\ ~ G x) -> (forall q, byte_list q -> m2 q = del_map (compressed n ++ r) m q) ->
  roomy (2 * length us + n0) (d_alloc d2) ->
  exists t3 us3 d4 G4 W4, triewrite.update_offset txn l (set_node p u) us d2 = Some (t3, us3, d4) /\
    swapped d2 d4 (set_node p u) t3 us us3 G G4 W W4 pre e l f2 m2 n0 /\ owned d4 (t_node u) /\
    (forall q, byte_list q -> W4 m2 q = del_map (pre ++ compressed n ++ r) (W m) q) /\
    trail (pre ++ compressed n ++ r) (Z.of_nat (length pre)) us3 0 /\ fits fuel (W4 m2).
Proof.
  intros Ga Gr Er Et R Hf Hp Hm Ro. pose proof Ga as [Fo _ _ _ _ _ _ _ _ _ Hpg _ _ _ _ Ow Htr _ _ Hfit].
  pose proof Fo as [C _ _ D En Ek].
  destruct (ctx_keep HASH_SIZE d d2 _ _ _ _ _ _ C) as [C2 _].
  { intros x Hx. apply (gr_frame _ _ _ _ Gr); [|tauto]. apply Ow. by left. } { done. }
  destruct (swap_spec n0 d2 (set_node p u) us l G W pre e f2 m2) as (t3 & us3 & d4 & G4 & W4 & E & Sw); try done.
  { intros x Hx. eapply grows_owned; [exact Gr|apply Ow; by left|tauto]. }
  assert (forall q, byte_list q -> W4 m2 q = del_map (pre ++ compressed n ++ r) (W m) q) as EW.
  { intros q Hq. rewrite (sw_map _ _ _ _ _ _ _ _ _ _ _ _ _ _ _ _ Sw) by done.
    rewrite <- (ctx_del _ _ _ _ _ _ _ _ (compressed n ++ r) m q C) by by eapply gap_enters.
    by eapply (ctx_replace HASH_SIZE). }
  exists t3, us3, d4, G4, W4. split; [exact E|]. split; [exact Sw|]. split; [|split; [exact EW|split]].
  - assert (f (t_node u)) as Hu by (apply Hpg; by left).
    eapply grows_owned; [apply Sw|eapply grows_owned; [exact Gr|apply Ow; by right|tauto]|intros HG; by apply (D (t_node u))].
  - eapply trail_alike; [apply Sw|]. destruct Htr as (_ & _ & _ & _ & Htr). by rewrite <- Ek.
  - by eapply fits_del.
Qed.

(** ** The copies *)

(** A copy of a node with some of its links. *)
Lemma copied_rep (d d2 : db) p n nn F M : wf HASH_SIZE nn -> byte_list (compressed nn) ->
  (exists c, -1 <= c <= 255 /\ isset nn c = true) ->
  (forall c l, -1 <= c <= 255 -> link nn c = Some l -> link n c = Some l) ->
  (forall c l, -1 <= c <= 255 -> link n c = Some l -> rep (d_heap d) l (F c) (M c)) ->
  (forall c l, -1 <= c <= 255 -> link n c = Some l -> first_byte (d_heap d) l = c) ->
  (forall c l c' l' x, -1 <= c <= 255 -> -1 <= c' <= 255 -> link n c = Some l -> link n c' = Some l' ->
    F c x -> F c' x -> c = c') ->
  (forall c l x, -1 <= c <= 255 -> link n c = Some l -> F c x -> d_heap d2 x = d_heap d x /\ x <> p) ->
  p mod 8 = 0 /\ 0 < p < 2 ^ 64 -> body (d_heap d2 p) = OTrie nn ->
  rep (d_heap d2) (link_to p TRIE) (fun x => x = p \/ exists c l, -1 <= c <= 255 /\ link nn c = Some l /\ F c x)
    (node_map (compressed nn) (link nn) M).
Proof.
  intros Hw Hc Hex Hlk HR HF HD K [Ha Hr] Hb. destruct (link_to_spec p TRIE Ha ltac:(lia)) as [Et Ep].
  apply (rep_node HASH_SIZE _ _ nn F M); rewrite ?Et; try done; try lia.
  - intros c l Hcr Hl. eapply (rep_frame HASH_SIZE); [by apply HR, Hlk|]. intros x Hx. by apply (K c l); auto.
  - intros c l Hcr Hl. rewrite (first_byte_frame (d_heap d)); [by apply HF, Hlk|].
    apply (K c l); auto. eapply (rep_target HASH_SIZE). by apply HR, Hlk.
  - intros c l Hcr Hl Hx. destruct (K c l p); auto.
  - intros c l c' l' x H1 H2 L1 L2. apply (HD c l c' l'); auto.
Qed.

(** [d2] has a new page and is [d] elsewhere. *)
Lemma fresh_frame d d2 p sz b n0 x : fresh PAGE_HEADER PAGE_COUNT PAGE_SIZES txn d d2 p sz b n0 -> owned d x ->
  d_heap d2 x = d_heap d x /\ owned d2 x /\ x <> p.
Proof. intros Fr Hx. by eapply fresh_keeps. Qed.

Lemma gone_intro fuel n0 n1 (d d2 d4 d5 : db) c' key w s (G4 : Z -> Prop) W4 pre e l f2 m2 t2 t3 us us3 G W :
  grows d d2 (fun _ => False) -> swapped d2 d4 t2 t3 us us3 G G4 W W4 pre e l f2 m2 n0 ->
  d_heap d5 = d_heap d4 -> d_root d5 = d_root d4 -> (forall x, avail (d_alloc d5) x -> avail (d_alloc d4) x) ->
  roomy n1 (d_alloc d5) -> (forall q, byte_list q -> W4 m2 q = del_map key w q) -> (forall x, G x -> s x) ->
  fits fuel (W4 m2) -> (key <> [] -> moved HASH_SIZE (d_heap d4) (d_root d4) true (W4 m2) key (Some c')) ->
  gone d d5 c' key w s n1.
Proof.
  intros Gr Sw Eh Er Ea Ro Em Hs Hf Hm. pose proof Sw as [Fo _ _ _ _ _ Gr4 Ow4 _].
  assert (grows d4 d5 (fun _ => False)) as Gr5 by (split; intros x; rewrite ?Eh; auto).
  assert (rep (d_heap d5) (d_root d5) (fun x => G4 x \/ f2 x) (W4 m2)) as R.
  { rewrite Eh, Er. eapply (ctx_plug HASH_SIZE HASH_SIZE_range); apply Fo. }
  assert (d_root d5 <> 0) as Hnz by (intros E0; pose proof (rep_nonzero HASH_SIZE _ _ _ _ R) as Hn; by rewrite E0 in Hn).
  split; [| | |done|done].
  - exists (fun x => G4 x \/ f2 x). split; [|intros x Hx; eapply grows_owned; [exact Gr5|by apply Ow4|tauto]].
    destruct (Z.eqb_spec (d_root d5) 0) as [E0|_]; [done|].
    eapply (rep_ext HASH_SIZE); [exact R|done|]. intros q Hq. by rewrite Em.
  - intros Hk. rewrite Eh, Er. eapply moved_ext; [by apply Hm|done].
  - eapply (grows_trans txn d d2 d5 _ G s); [exact Gr| |intros x _ [[]|]; auto].
    eapply (grows_trans txn d2 d4 d5 _ (fun _ => False) G); [exact Gr4|exact Gr5|intros x _ [|[]]; auto].
Qed.

(** ** A branch less *)

(** The branch that [reduce_array] removes. *)
Lemma gap_branch_key fuel d u us k pre r e f m G W n F M prefix : gap fuel d u us k pre r e f m G W n F M ->
  (prefix = 0 <-> r = []) -> (if prefix =? 0 then NONE else t_branch_key u) = branch r.
Proof.
  intros Ga Hp. destruct (Z.eqb_spec prefix 0) as [E|E].
  - apply Hp in E as ->. done.
  - pose proof (ga_trail _ _ _ _ _ _ _ _ _ _ _ _ _ _ _ Ga) as (_ & _ & _ & Hb & _).
    destruct r as [|c r]; [by rewrite Hp in E|]. apply Hb.
    by rewrite Nat2Z.id, app_assoc, lookup_app_r, Nat.sub_diag by done.
Qed.

(** What the prefix and the children of a node without one branch are. *)
Lemma removed_less n nn b : NodeUpdate.removed HASH_SIZE n nn b -> wf HASH_SIZE n -> -1 <= b <= 255 ->
  link nn b = None /\ (forall c, -1 <= c <= 255 -> c <> b -> link nn c = link n c) /\
  (forall c l, -1 <= c <= 255 -> link nn c = Some l -> link n c = Some l /\ c <> b).
Proof.
  intros [Rw Rp Rs Rl Rz] Hw Hb. assert (link nn b = None) as Hn.
  { rewrite (link_isset HASH_SIZE), Rs by done. by rewrite Z.eqb_refl, andb_false_r. }
  split; [done|]. split; [done|]. intros c l Hc El. assert (c <> b) by congruence. by rewrite <- Rl.
Qed.

Lemma reduce_array_spec fuel n0 d u us k pre r e f m G W n F M prefix : gap fuel d u us k pre r e f m G W n F M ->
  (prefix = 0 <-> r = []) -> (exists c, -1 <= c <= 255 /\ c <> branch r /\ isset n c = true) ->
  (pre ++ compressed n ++ r = [] -> -1 <= t_branch_key u <= 255) -> roomy (S (2 * length us + S n0)) (d_alloc d) ->
  exists c' d', reduce_array HASH_SIZE PAGE_HEADER PAGE_COUNT PAGE_SIZES raw txn fuel prefix (Cursor (u :: us) k) d = Some (c', d') /\
    gone d d' c' (pre ++ compressed n ++ r) (W m) (fun x => G x \/ f x) n0.
Proof.
  intros Ga Hpf (c0 & Hc0 & Hne0 & Sc0) Hbk Ro.
  pose proof Ga as [Fo Hl Hb Hw Hcb HR HF Hown HD Hm Hpg Sb Hi Hkey Honly Ow Htr Hcu Hre Hfit].
  pose proof Hkey as [_ [_ Hr]%byte_list_app]%byte_list_app. pose proof (byte_branch r Hr) as Hbr.
  unfold reduce_array. cbn [stack trie.keys]. unfold trie_at at 1 2. rewrite Hb.
  rewrite (gap_branch_key _ _ _ _ _ _ _ _ _ _ _ _ _ _ _ _ Ga Hpf).
  pose proof (fun x => NodeCreate.create_remove_removed HASH_SIZE HASH_SIZE_range (raw x) n (branch r) Hw Hbr Sb) as Rm.
  assert (0 <= decrement_size HASH_SIZE n (branch r) <= room) as Hsz.
  { rewrite <- (NodeUpdate.rem_size _ _ _ _ (Rm 0)). apply (trie_fits _ _ _ _ Lay), Rm. }
  destruct (alloc_node_spec _ _ _ _ txn Lay _ _ d Ro Hsz) as (p & d1 & E1 & _ & F1). rewrite E1. cbn [mbind option_bind].
  specialize (F1 (OTrie (create_remove HASH_SIZE (raw p) n (branch r)))). specialize (Rm p).
  set (nn := create_remove HASH_SIZE (raw p) n (branch r)) in *. set (d2 := write p (OTrie nn) d1) in *.
  pose proof Rm as [Rw Rp Rs Rl Rz]. destruct (removed_less n nn (branch r) Rm Hw Hbr) as (Ln & Lo & Ls).
  destruct (fresh_body _ _ _ _ _ _ _ _ _ _ F1) as [B2 _]. pose proof (fr_aligned _ _ _ _ _ _ _ _ _ _ F1) as Al.
  destruct (fresh_link _ _ _ _ _ _ _ _ _ _ TRIE F1) as [Et Ep].
  assert (forall c l x, -1 <= c <= 255 -> link n c = Some l -> F c x -> owned d x) as OF.
  { intros c l x Hc El Hx. apply Ow. right. apply Hpg. right. by exists c, l. }
  assert (rep (d_heap d2) (link_to p TRIE) (fun x => x = p \/ exists c l, -1 <= c <= 255 /\ link nn c = Some l /\ F c x)
    (node_map (compressed nn) (link nn) M)) as R2.
  { eapply (copied_rep d d2 p n nn F M); try done; [by rewrite Rp| |by apply Ls|].
    - exists c0. split; [done|]. rewrite Rs, Sc0 by done. by destruct (Z.eqb_spec c0 (branch r)).
    - intros c l x Hc El Hx. destruct (fresh_frame _ _ _ _ _ _ x F1) as (? & _ & ?); [by eapply OF|done]. }
  destruct (replaced_spec fuel (S n0) d d2 u us k pre r e f m G W n F M p (link_to p TRIE) _ _ Ga
    (fr_grows _ _ _ _ _ _ _ _ _ _ F1) (fr_root _ _ _ _ _ _ _ _ _ _ F1) Et R2)
    as (t3 & us3 & d4 & G4 & W4 & E4 & Sw & Ou & Em4 & Tr4 & Fi4).
  - intros b0 Eb. pose proof (fo_first _ _ _ _ _ _ _ _ _ _ _ Fo b0 Eb) as Hf. unfold first_byte, trie_at in *.
    unfold is_leaf in Hl. rewrite Hl, <- (fo_node _ _ _ _ _ _ _ _ _ _ _ Fo), Hb in Hf. by rewrite Ep, Et, B2, Rp.
  - intros x [->|(c & l & Hc & El & Hx)].
    + split; [|intros HG; destruct (fresh_frame _ _ _ _ _ _ p F1) as (_ & _ & ?); [apply Ow; by left|done]].
      eapply fresh_owned; [exact F1|]. cbn [obj_size]. rewrite Rz. lia.
    + destruct (Ls c l Hc El) as [El' _]. destruct (fresh_frame _ _ _ _ _ _ x F1) as (_ & ? & _); [by eapply OF|].
      split; [done|]. intros HG. apply (fo_disj _ _ _ _ _ _ _ _ _ _ _ Fo x); [|done]. apply Hpg. right. by exists c, l.
  - intros q Hq. rewrite Rp. eapply node_map_del; try done.
  - apply (fr_room _ _ _ _ _ _ _ _ _ _ F1).
  - rewrite E4. cbn [mbind option_bind].
    destruct (free_node_spec _ _ (t_node u) d4 (sw_room _ _ _ _ _ _ _ _ _ _ _ _ _ _ _ _ Sw) ltac:(apply Ou)) as (a5 & E5 & R5 & M5).
    rewrite E5. cbn [mbind option_bind d_heap d_root].
    pose proof (sw_focus _ _ _ _ _ _ _ _ _ _ _ _ _ _ _ _ Sw) as Fo3. pose proof (sw_same _ _ _ _ _ _ _ _ _ _ _ _ _ _ _ _ Sw) as Es3.
    assert (t_node t3 = p /\ t_prefix t3 = t_prefix u /\ t_branch_key t3 = t_branch_key u) as (Np & Pp & Bp) by by rewrite Es3.
    assert (body (d_heap d4 p) = OTrie nn) as B4.
    { rewrite (sw_pages _ _ _ _ _ _ _ _ _ _ _ _ _ _ _ _ Sw); [done|by left]. }
    assert (is_leaf (d_heap d4) (d_root d4) t3 = false) as L3.
    { unfold is_leaf. by rewrite (sw_load _ _ _ _ _ _ _ _ _ _ _ _ _ _ _ _ Sw), Ep. }
    set (t5 := if prefix =? 0 then _ else _).
    assert (t_node t5 = t_node t3 /\ t_offset t5 = t_offset t3 /\ t_keypos t5 = t_keypos t3 /\ t_cmp t5 = -1 /\
      t_branch_key t5 = t_branch_key t3 /\ t_prefix t5 = if prefix =? 0 then 0 else t_prefix t3) as (N5 & O5 & K5 & C5 & B5 & P5)
      by (unfold t5; by destruct (prefix =? 0)).
    assert (focus (d_heap d4) (d_root d4) t5 us3 G4 W4 pre e _ _) as Fo5 by (eapply (focus_same HASH_SIZE); [exact Fo3|done..]).
    assert (is_leaf (d_heap d4) (d_root d4) t5 = false) as L5 by (unfold is_leaf in *; by rewrite O5).
    destruct (next_removed (d_heap d4) (d_root d4) fuel t5 us3 k G4 W4 pre e _ _ nn r Fo5 L5) as (c' & Ec & Mv);
      rewrite ?N5, ?Np, ?Rp, ?C5, ?B5, ?Bp; try done.
    { by rewrite Rs, Z.eqb_refl, andb_false_r by done. }
    { by eapply gap_enters. }
    { rewrite P5, Pp. destruct (Z.eqb_spec prefix 0) as [E0|E0]; destruct (decide (r = [])) as [Er|Er]; try tauto.
      destruct Htr as (_ & _ & Hkp & _). rewrite (fo_keypos _ _ _ _ _ _ _ _ _ _ _ Fo), length_app in Hkp.
      rewrite <- (compressed_length HASH_SIZE nn Rw), Rp. lia. }
    { intros Hrne. rewrite <- (gap_branch_key _ _ _ _ _ _ _ _ _ _ _ _ _ _ _ _ Ga Hpf).
      destruct (Z.eqb_spec prefix 0); tauto. }
    { by rewrite Rp in Fi4. }
    rewrite Ec. cbn [mbind option_bind]. eexists _, _. split; [done|].
    eapply gone_intro; [apply F1|exact Sw|done|done|exact M5|exact R5|exact Em4|by left|exact Fi4|rewrite <- Rp; exact Mv].
Qed.

(** ** The only child takes the place of the node *)

(** The keys that are left begin with the other branch. *)
Lemma left_over fuel d u us k pre r e f m G W n F M b y : gap fuel d u us k pre r e f m G W n F M ->
  (forall c, -1 <= c <= 255 -> isset n c = true -> c = branch r \/ c = b) -> byte_list (pre ++ y) -> enters e y ->
  is_Some (del_map (pre ++ compressed n ++ r) (W m) (pre ++ y)) ->
  exists x, y = compressed n ++ x /\ byte_list x /\ branch x = b.
Proof.
  intros Ga Hbs Hy He [v Hv]. unfold del_map in Hv. destruct (decide _) as [|Hne]; [done|].
  destruct (node_key_branch HASH_SIZE _ _ _ _ _ _ _ _ _ _ _ y (ga_focus _ _ _ _ _ _ _ _ _ _ _ _ _ _ _ Ga)
    (ga_trie _ _ _ _ _ _ _ _ _ _ _ _ _ _ _ Ga) (ga_body _ _ _ _ _ _ _ _ _ _ _ _ _ _ _ Ga) Hy He) as (x & -> & Sx); [by eexists|].
  pose proof Hy as [_ [_ Hx]%byte_list_app]%byte_list_app. exists x. split; [done|]. split; [done|].
  destruct (Hbs _ (byte_branch x Hx) Sx) as [E|]; [|done]. exfalso.
  rewrite (ctx_focus HASH_SIZE _ _ _ _ _ _ _ _ _ _ (fo_ctx _ _ _ _ _ _ _ _ _ _ _ (ga_focus _ _ _ _ _ _ _ _ _ _ _ _ _ _ _ Ga)) He) in Hv.
  rewrite (ga_only _ _ _ _ _ _ _ _ _ _ _ _ _ _ _ Ga x Hx E) in Hv; [done|]. intros ->. by apply Hne.
Qed.

Lemma finish_combine_spec fuel n0 (d d2 : db) u us k pre r e f m G W n F M p l f2 m2 cp b :
  gap fuel d u us k pre r e f m G W n F M -> grows d d2 (fun _ => False) -> d_root d2 = d_root d -> target l = p ->
  rep (d_heap d2) l f2 m2 -> (forall b, e = Some b -> first_byte (d_heap d2) l = b) ->
  (forall x, f2 x -> owned d2 x /\ ~ G x) -> (forall q, byte_list q -> m2 q = del_map (compressed n ++ r) m q) ->
  (points_leaf l = true \/ points_leaf l = false /\ exists nn, body (d_heap d2 p) = OTrie nn /\ compressed_len n < compressed_len nn) ->
  f cp -> isset n b = true -> -1 <= b <= 255 -> b <> branch r ->
  (forall c, -1 <= c <= 255 -> isset n c = true -> c = branch r \/ c = b) ->
  roomy (2 * length us + S (S n0)) (d_alloc d2) ->
  exists c' d', finish_combine txn fuel (negb (t_link_idx u =? 0)) p (t_node u) cp l u us k d2 = Some (c', d') /\
    gone d d' c' (pre ++ compressed n ++ r) (W m) (fun x => G x \/ f x) n0.
Proof.
  intros Ga Gr Er Et R2 Hf2 Hp2 Hm2 Hsh Hcp Sb' Hb' Hbne Hbs Ro.
  pose proof Ga as [Fo Hl Hb Hw Hcb HR HF Hown HD Hm Hpg Sb Hi Hkey Honly Ow Htr Hcu Hre Hfit].
  pose proof Hkey as [_ [_ Hr]%byte_list_app]%byte_list_app. pose proof (byte_branch r Hr) as Hbr.
  destruct (replaced_spec fuel (S (S n0)) d d2 u us k pre r e f m G W n F M p l f2 m2 Ga Gr Er Et R2 Hf2 Hp2 Hm2 Ro)
    as (t3 & us3 & d4 & G4 & W4 & E4 & Sw & Ou & Em4 & Tr4 & Fi4).
  unfold finish_combine. rewrite E4. cbn [mbind option_bind].
  assert (owned d4 cp) as Oc.
  { eapply grows_owned; [apply Sw|eapply grows_owned; [exact Gr|apply Ow; by right|tauto]|].
    intros HG. by apply (fo_disj _ _ _ _ _ _ _ _ _ _ _ Fo cp). }
  destruct (free_node_spec _ _ cp d4 (sw_room _ _ _ _ _ _ _ _ _ _ _ _ _ _ _ _ Sw) ltac:(apply Oc)) as (a5 & E5 & R5 & M5).
  rewrite E5. cbn [mbind option_bind]. set (d5 := Db (d_heap d4) (d_root d4) a5) in *.
  destruct (free_node_spec _ _ (t_node u) d5 R5 ltac:(apply Ou)) as (a6 & E6 & R6 & M6).
  rewrite E6. cbn [mbind option_bind d5 d_heap d_root].
  pose proof (sw_focus _ _ _ _ _ _ _ _ _ _ _ _ _ _ _ _ Sw) as Fo3. pose proof (sw_same _ _ _ _ _ _ _ _ _ _ _ _ _ _ _ _ Sw) as Es3.
  assert (t_node t3 = p /\ t_prefix t3 = t_prefix u) as (Np & Pp) by by rewrite Es3.
  assert (focus (d_heap d4) (d_root d4) (set_cmp 1 t3) us3 G4 W4 pre e f2 m2) as Fo5 by (eapply (focus_same HASH_SIZE); [exact Fo3|done..]).
  pose proof (index_mono HASH_SIZE n b (branch r) Hw Hb' Hbr Sb' Sb) as Hmono.
  pose proof (index_mono HASH_SIZE n (branch r) b Hw Hbr Hb' Sb Sb') as Hmono'.
  assert (enters e (compressed n ++ r)) as He by by eapply gap_enters.
  assert (exists c', (if negb (t_link_idx u =? 0)
      then c ← next_key (d_heap d4) (d_root d4) fuel (Cursor (set_cmp 1 t3 :: us3) k); Some (c, Db (d_heap d4) (d_root d4) a6)
      else resume_first fuel (set_cmp 1 t3) us3 k (Db (d_heap d4) (d_root d4) a6)) = Some (c', Db (d_heap d4) (d_root d4) a6) /\
    moved HASH_SIZE (d_heap d4) (d_root d4) true (W4 m2) (pre ++ compressed n ++ r) (Some c')) as (c' & Ec & Mv).
  { destruct (Z.eqb_spec (t_link_idx u) 0) as [E0|E0]; cbn [negb].
    - destruct (rep_extreme HASH_SIZE (d_heap d4) true _ f2 m2 (fo_rep _ _ _ _ _ _ _ _ _ _ _ Fo5)) as [r1 Ex].
      pose proof Ex as [X1 [v X2] _].
      assert (exists x, r1 = compressed n ++ x /\ byte_list x /\ branch x = b) as (x & -> & Hx & Ebx).
      { rewrite Hm2 in X2 by done. unfold del_map in X2. destruct (decide _) as [|Hne]; [done|]. rewrite Hm in X2 by done.
        apply node_map_some in X2 as (x & lx & -> & El & X2). apply byte_list_app in X1 as [_ X1].
        exists x. split; [done|]. split; [done|]. destruct (link_some HASH_SIZE n _ _ Hw (byte_branch x X1) El) as (Sx & _ & _).
        destruct (Hbs _ (byte_branch x X1) Sx) as [E|]; [|done]. exfalso.
        pose proof (Honly x X1 E ltac:(intros ->; done)) as Hno. rewrite Hm in Hno by by apply byte_list_app.
        by rewrite node_map_app, El, X2 in Hno. }
      destruct (resume_here HASH_SIZE (d_heap d4) (d_root d4) true fuel (set_cmp 1 t3) us3 (resize_key (t_keypos (set_cmp 1 t3)) k) G4 W4 pre e f2 m2
        (compressed n ++ r) (compressed n ++ x) Fo5 Hkey He ltac:(by eapply gap_enters) Ex) as (t' & seg & k' & E & Er' & St & Ne); try done.
      + apply ahead_app, ahead_branch; [done|done|]. simpl. rewrite Ebx.
        destruct (array_index_keys HASH_SIZE n Hw b Hb') as [(_ & Ib & _)|[? _]]; [|congruence].
        destruct (Z.lt_trichotomy b (branch r)) as [Hlt|[|]]; [|done|done]. apply Hmono in Hlt. lia.
      + cbn [resize_key cur]. by rewrite (fo_keypos _ _ _ _ _ _ _ _ _ _ _ Fo5), Nat2Z.id, Hcu, take_app_length.
      + unfold resume_first. cbv beta iota delta [trieiter.walk] in E. cbn [d_heap d_root]. rewrite E. cbn [mbind option_bind].
        eexists. split; [done|]. by eapply moved_found.
    - assert (exists t' k', trie.next (d_heap d4) (d_root d4) fuel (set_cmp 1 t3) (trie.keys (no_rest (Cursor (set_cmp 1 t3 :: us3) k))) =
        Some (false, [t'], k') /\ t_keypos t' = t_keypos t3 /\ take (length pre) (cur k') = pre /\ rest k' = []) as (t' & k' & En & E1 & E2 & E3).
      { unfold trie.next, is_leaf. change (t_offset (set_cmp 1 t3)) with (t_offset t3). change (t_cmp (set_cmp 1 t3)) with 1.
        change (t_prefix (set_cmp 1 t3)) with (t_prefix t3). change (t_keypos (set_cmp 1 t3)) with (t_keypos t3).
        cbn [no_rest trie.keys]. rewrite (sw_load _ _ _ _ _ _ _ _ _ _ _ _ _ _ _ _ Sw). destruct Hsh as [->|[-> (nn & Bn & Hcl)]].
        - eexists _, _. split; [done|]. cbn [cur rest]. rewrite Hcu. split_and!; [done|by rewrite take_app_length|done].
        - unfold t_trie, trie_at. change (t_node (set_cmp 1 t3)) with (t_node t3). rewrite Np, (sw_pages _ _ _ _ _ _ _ _ _ _ _ _ _ _ _ _ Sw), Bn
            by (rewrite <- Et; by eapply (rep_target HASH_SIZE)).
          cbn [Z.eqb Z.ltb]. assert (t_prefix t3 < compressed_len nn) as Hlt.
          { destruct Htr as (_ & _ & Hkp & _). rewrite (fo_keypos _ _ _ _ _ _ _ _ _ _ _ Fo), length_app in Hkp.
            pose proof (compressed_length HASH_SIZE n Hw). lia. }
          destruct (Z.ltb_spec (t_prefix t3) (compressed_len nn)); [|lia]. eexists _, _. split; [done|].
          cbn [resize_key cur rest]. rewrite (fo_keypos _ _ _ _ _ _ _ _ _ _ _ Fo3), Nat2Z.id, Hcu, take_app_length.
          split_and!; [apply Fo5|by rewrite firstn_all|done]. }
      destruct (resume_above HASH_SIZE (d_heap d4) (d_root d4) true fuel (set_cmp 1 t3) t' us3 k k' G4 W4 pre e f2 m2 (compressed n ++ r) Fo5 Hkey He)
        as (c' & Ec & Mv); try done.
      + intros y Hy Hey Hin Ha. rewrite Em4 in Hin by done.
        destruct (left_over _ _ _ _ _ _ _ _ _ _ _ _ _ _ _ b y Ga Hbs Hy Hey Hin) as (x & -> & Hx & Ebx). apply ahead_app in Ha.
        apply (ahead_branch_inv true r x Hr Hx Ha). simpl. rewrite Ebx.
        destruct (array_index_keys HASH_SIZE n Hw (branch r) Hbr) as [(_ & Ib & _)|[? _]]; [|congruence].
        destruct (index_branch HASH_SIZE n 0 Hw ltac:(lia)) as (c & Hc & Sc & Ec).
        destruct (Hbs c Hc Sc) as [-> | ->]; [congruence|]. apply Hmono. lia.
      + cbv beta iota delta [trieiter.move] in Ec. rewrite Ec. cbn [mbind option_bind]. exists c'. split; [done|]. by exists c'. }
  rewrite Ec. eexists _, _. split; [done|].
  eapply gone_intro; [exact Gr|exact Sw|done|done| |exact R6|exact Em4|by left|exact Fi4|by intros _].
  intros x Hx. by apply M5, M6.
Qed.

(** Leaves have room for a longer key. *)
Definition values_fit (w : keymap) : Prop :=
  forall q s b, byte_list q -> w q = Some (s, b) -> LeafNode.HEADER_SIZE HASH_SIZE + 255 + Z.of_nat (length b) <= room.

(** A node with two branches without one of them is the other child. *)
Lemma node_map_other comp lk M m r b l m' q : (forall q, byte_list q -> m q = node_map comp lk M q) -> lk b = Some l ->
  b <> branch r -> (forall c, -1 <= c <= 255 -> is_Some (lk c) -> c = branch r \/ c = b) ->
  (forall q, byte_list q -> M b q = m' q) -> (forall q, byte_list q -> branch q = branch r -> q <> r -> m (comp ++ q) = None) ->
  byte_list q -> node_map comp (one_link b) (fun _ => m') q = del_map (comp ++ r) m q.
Proof.
  intros Hm Hb Hne Hbs HM Ho Hq. unfold del_map, node_map at 1. destruct (decide (comp `prefix_of` q)) as [[x ->]|Hp].
  - rewrite drop_app_length. pose proof Hq as [Hc Hx]%byte_list_app. unfold one_link. pose proof (byte_branch x Hx) as Hxr.
    destruct (Z.eqb_spec (branch x) b) as [E|Hnb].
    + rewrite decide_False by (intros E'%app_inv_head; by subst). rewrite Hm by done. by rewrite node_map_app, E, Hb, HM.
    + destruct (decide _) as [|Hn]; [done|]. destruct (Z.eq_dec (branch x) (branch r)) as [E|Hnr].
      * rewrite Ho; [done..|]. by intros ->.
      * rewrite Hm by done. rewrite node_map_app. destruct (lk (branch x)) eqn:El; [|done].
        destruct (Hbs (branch x) Hxr) as [|]; [by eexists|done|done].
  - rewrite decide_False by (intros ->; apply Hp; by exists r). rewrite Hm by done.
    unfold node_map. by rewrite decide_False.
Qed.

(** The other branch of a node with two. *)
Lemma other_branch fuel d u us k pre r e f m G W n F M : gap fuel d u us k pre r e f m G W n F M -> count n = 2 ->
  exists b, -1 <= b <= 255 /\ b <> branch r /\ isset n b = true /\
    link n b = Some (slot n (if negb (t_link_idx u =? 0) then 0 else 1)) /\
    forall c, -1 <= c <= 255 -> isset n c = true -> c = branch r \/ c = b.
Proof.
  intros Ga Hn. pose proof (ga_wf _ _ _ _ _ _ _ _ _ _ _ _ _ _ _ Ga) as Hw. pose proof (ga_branch _ _ _ _ _ _ _ _ _ _ _ _ _ _ _ Ga) as Sb.
  pose proof (ga_key _ _ _ _ _ _ _ _ _ _ _ _ _ _ _ Ga) as [_ [_ Hr]%byte_list_app]%byte_list_app. pose proof (byte_branch r Hr) as Hbr.
  rewrite (ga_index _ _ _ _ _ _ _ _ _ _ _ _ _ _ _ Ga).
  assert (forall c, -1 <= c <= 255 -> isset n c = true -> 0 <= array_index n c < 2) as Hix.
  { intros c Hc Sc. destruct (array_index_keys HASH_SIZE n Hw c Hc) as [(_ & Ib & _)|[? _]]; [lia|congruence]. }
  assert (forall c c', -1 <= c <= 255 -> -1 <= c' <= 255 -> isset n c = true -> isset n c' = true ->
    array_index n c = array_index n c' -> c = c') as Hinj.
  { intros c c' H1 H2 S1 S2 E. pose proof (index_mono HASH_SIZE n c c' Hw H1 H2 S1 S2).
    pose proof (index_mono HASH_SIZE n c' c Hw H2 H1 S2 S1). lia. }
  set (i := if negb (array_index n (branch r) =? 0) then 0 else 1).
  pose proof (Hix _ Hbr Sb) as Hir.
  destruct (index_branch HASH_SIZE n i Hw) as (b & Hb & Sb' & Eb); [unfold i; destruct (Z.eqb_spec (array_index n (branch r)) 0); cbn; lia|].
  exists b. split; [done|]. split; [|split; [done|split]].
  - intros ->. unfold i in Eb. destruct (Z.eqb_spec (array_index n (branch r)) 0); cbn in Eb; lia.
  - rewrite (link_isset HASH_SIZE) by done. by rewrite Sb', Eb.
  - intros c Hc Sc. pose proof (Hix c Hc Sc). destruct (Z.eq_dec (array_index n c) (array_index n (branch r))) as [E|E].
    + left. by apply Hinj.
    + right. apply Hinj; try done. rewrite Eb. unfold i. destruct (Z.eqb_spec (array_index n (branch r)) 0); cbn; lia.
Qed.

Lemma gap_first fuel d u us k pre r e f m G W n F M q x : gap fuel d u us k pre r e f m G W n F M -> e = Some x ->
  branch (compressed n ++ q) = x /\ match compressed n ++ q with [] => -2 | b :: _ => b end = x.
Proof.
  intros Ga ->. pose proof (gap_enters _ _ _ _ _ _ _ _ _ _ _ _ _ _ _ q Ga) as He. simpl in He. split; [done|].
  destruct (compressed n) as [|c cs] eqn:Ec; [|by simpl in *].
  destruct (empty_prefix _ _ _ _ _ _ _ _ _ _ _ (ga_focus _ _ _ _ _ _ _ _ _ _ _ _ _ _ _ Ga) (ga_trie _ _ _ _ _ _ _ _ _ _ _ _ _ _ _ Ga)
    (ga_body _ _ _ _ _ _ _ _ _ _ _ _ _ _ _ Ga) Ec) as [-> _].
  pose proof (fo_ctx _ _ _ _ _ _ _ _ _ _ _ (ga_focus _ _ _ _ _ _ _ _ _ _ _ _ _ _ _ Ga)) as C. inversion C.
Qed.

(** The copy of a leaf with more key in front. *)
Lemma longer_leaf lf p1 : leaf_ok lf -> byte_list p1 -> Z.of_nat (length p1) + LeafNode.key_size lf <= 255 ->
  let nl := LeafNode.Node (LeafNode.value_size lf) (u8 (Z.of_nat (length p1) + LeafNode.key_size lf))
    ((p1 ++ LeafNode.key lf) ++ LeafNode.value lf) in
  leaf_ok nl /\ LeafNode.key nl = p1 ++ LeafNode.key lf /\ payload_of nl = payload_of lf /\
  LeafNode.size HASH_SIZE nl = LeafNode.size_for HASH_SIZE (Z.of_nat (length p1) + LeafNode.key_size lf) (LeafNode.vsize lf) /\
  Z.of_nat (length (LeafNode.value lf)) = LeafNode.vsize lf.
Proof.
  intros Hok Hb Hlen. pose proof (leaf_key_length lf Hok) as Hk. destruct Hok as [H1 H2 H3 H4]. cbv zeta.
  rewrite (wrap_small 8) by (change (2 ^ 8) with 256; lia). set (nl := LeafNode.Node _ _ _).
  assert (0 <= LeafNode.vsize lf) as Hv by (apply Z.land_nonneg; lia).
  assert (Z.of_nat (length (LeafNode.value lf)) = LeafNode.vsize lf) as Hvl.
  { unfold LeafNode.value, LeafNode.vdata. rewrite length_take, length_drop. lia. }
  assert (LeafNode.vsize nl = LeafNode.vsize lf) as Evs by done.
  assert (Z.to_nat (LeafNode.key_size nl) = length (p1 ++ LeafNode.key lf)) as Eks.
  { unfold nl. cbn [LeafNode.key_size]. rewrite length_app. lia. }
  assert (LeafNode.key nl = p1 ++ LeafNode.key lf) as Ekey by (unfold LeafNode.key at 1; rewrite Eks; unfold nl; apply take_app_length).
  split_and!; [|done| |done|done].
  - split; [unfold nl; cbn [LeafNode.key_size]; lia|done| |rewrite Ekey; by apply byte_list_app].
    rewrite Evs. unfold nl. cbn [LeafNode.key_size LeafNode.data]. rewrite !length_app. lia.
  - unfold payload_of. f_equal. unfold LeafNode.value at 1. rewrite Evs. unfold LeafNode.vdata. rewrite Eks. unfold nl.
    cbn [LeafNode.data]. by rewrite drop_app_length, <- Hvl, Nat2Z.id, firstn_all.
Qed.

Lemma combine_leaf fuel n0 d u us k pre r e f m G W n F M b l lf : gap fuel d u us k pre r e f m G W n F M ->
  -1 <= b <= 255 -> b <> branch r -> isset n b = true -> link n b = Some l ->
  (forall c, -1 <= c <= 255 -> isset n c = true -> c = branch r \/ c = b) ->
  points_leaf l = true -> body (d_heap d (target l)) = OLeaf lf -> leaf_ok lf ->
  (forall q, byte_list q -> M b q = if decide (q = LeafNode.key lf) then Some (payload_of lf) else None) ->
  compressed_len n + LeafNode.key_size lf <= 255 -> values_fit (W m) -> roomy (S (2 * length us + S (S n0))) (d_alloc d) ->
  exists c' d',
    ('(p, d) ← triewrite.alloc_node PAGE_HEADER PAGE_COUNT PAGE_SIZES txn
        (LeafNode.size_for HASH_SIZE (compressed_len n + LeafNode.key_size lf) (LeafNode.vsize lf)) d;
     let d := write p (OLeaf (LeafNode.Node (LeafNode.value_size lf) (u8 (compressed_len n + LeafNode.key_size lf))
       ((compressed n ++ LeafNode.key lf) ++ LeafNode.value lf))) d in
     finish_combine txn fuel (negb (t_link_idx u =? 0)) p (t_node u) (target l) (link_to p LEAF) u us k d) = Some (c', d') /\
    gone d d' c' (pre ++ compressed n ++ r) (W m) (fun x => G x \/ f x) n0.
Proof.
  intros Ga Hb Hne Sb El Hbs Hpl Hbd Hok HM Hsz Hvf Ro. pose proof (ga_wf _ _ _ _ _ _ _ _ _ _ _ _ _ _ _ Ga) as Hw.
  pose proof (compressed_length HASH_SIZE n Hw) as Hcl. rewrite <- Hcl in *.
  destruct (longer_leaf lf (compressed n) Hok (ga_bytes _ _ _ _ _ _ _ _ _ _ _ _ _ _ _ Ga) Hsz) as (Nok & Nkey & Npl & Nsz & Nvl).
  set (nl := LeafNode.Node _ _ _) in *. pose proof Ga as [Fo Hl Hb' _ Hcb HR HF Hown HD Hm Hpg _ _ Hkey Honly Ow _ _ _ _].
  pose proof (lo_bytes _ Hok) as Hbl.
  assert (branch (LeafNode.key lf) = b) as Ebr.
  { pose proof (HF b l Hb El) as Hfb. unfold first_byte, leaf_at in Hfb. by rewrite Hpl, Hbd in Hfb. }
  assert (0 <= LeafNode.size_for HASH_SIZE (Z.of_nat (length (compressed n)) + LeafNode.key_size lf) (LeafNode.vsize lf) <= room) as Hroom.
  { destruct (node_keys _ _ _ _ _ _ _ _ _ _ _ _ _ _ Fo Hb' Hl Hm HR) as [K1 _].
    assert (byte_list (pre ++ compressed n ++ LeafNode.key lf)) as Hbq.
    { apply byte_list_app in Hkey as [? [? _]%byte_list_app]. by rewrite !byte_list_app. }
    destruct (K1 (LeafNode.key lf) Hbq) as [_ EW]. rewrite Ebr, El, HM, decide_True in EW by done.
    specialize (Hvf _ _ _ Hbq EW). rewrite Nvl in Hvf. pose proof (lo_key_size _ Hok). pose proof Lay as [L1 L2 L3 _ L5 _].
    pose proof (Z.land_nonneg (LeafNode.value_size lf) (Z.lnot LeafNode.BIG_VALUE_FLAG)) as Hv. pose proof (lo_value_size _ Hok).
    unfold LeafNode.vsize, LeafNode.size_for, triestore.room, LeafNode.HEADER_SIZE in *. rewrite wrap_small; lia. }
  destruct (alloc_node_spec _ _ _ _ txn Lay _ _ d Ro Hroom) as (p & d1 & E1 & _ & F1). rewrite E1. cbn [mbind option_bind].
  specialize (F1 (OLeaf nl)). cbv zeta. fold nl. set (d2 := write p (OLeaf nl) d1) in *.
  destruct (fresh_body _ _ _ _ _ _ _ _ _ _ F1) as [B2 _]. pose proof (fr_aligned _ _ _ _ _ _ _ _ _ _ F1) as Al.
  destruct (fresh_link _ _ _ _ _ _ _ _ _ _ LEAF F1) as [Et Ep].
  eapply (finish_combine_spec fuel n0 d d2 u us k pre r e f m G W n F M p (link_to p LEAF) (fun x => x = p)
    (only (compressed n ++ LeafNode.key lf) (payload_of lf)) (target l) b Ga).
  - apply F1.
  - apply F1.
  - done.
  - apply (rep_leaf HASH_SIZE _ _ nl); rewrite ?Et; try done; [lia|]. intros q Hq. unfold only. by rewrite Nkey, Npl.
  - intros x Ex. unfold first_byte, leaf_at. rewrite Ep, Et, B2, Nkey. by apply (gap_first _ _ _ _ _ _ _ _ _ _ _ _ _ _ _ _ _ Ga).
  - intros x ->. split; [eapply fresh_owned; [exact F1|cbn [obj_size]; rewrite Nsz; lia]|].
    intros HG. destruct (fresh_frame _ _ _ _ _ _ p F1) as (_ & _ & ?); [apply Ow; by left|done].
  - intros q Hq. rewrite node_map_single by done. rewrite Ebr. eapply node_map_other; try done.
    intros c Hc [v Hv]. apply Hbs; [done|]. by apply (link_some HASH_SIZE n c v Hw Hc Hv).
  - by left.
  - apply Hpg. right. exists b, l. split_and!; try (done || lia). eapply (rep_target HASH_SIZE). by apply HR.
  - done.
  - done.
  - done.
  - done.
  - apply F1.
Qed.

Lemma combine_trie fuel n0 d u us k pre r e f m G W n F M b l cn F' M' : gap fuel d u us k pre r e f m G W n F M ->
  -1 <= b <= 255 -> b <> branch r -> isset n b = true -> link n b = Some l ->
  (forall c, -1 <= c <= 255 -> isset n c = true -> c = branch r \/ c = b) ->
  points_leaf l = false -> body (d_heap d (target l)) = OTrie cn -> wf HASH_SIZE cn -> byte_list (compressed cn) ->
  (exists c, -1 <= c <= 255 /\ isset cn c = true) ->
  (forall c l, -1 <= c <= 255 -> link cn c = Some l -> rep (d_heap d) l (F' c) (M' c)) ->
  (forall c l, -1 <= c <= 255 -> link cn c = Some l -> first_byte (d_heap d) l = c) ->
  (forall c l c' l' x, -1 <= c <= 255 -> -1 <= c' <= 255 -> link cn c = Some l -> link cn c' = Some l' -> F' c x -> F' c' x -> c = c') ->
  (forall c l x, -1 <= c <= 255 -> link cn c = Some l -> F' c x -> F b x) ->
  (forall q, byte_list q -> M b q = node_map (compressed cn) (link cn) M' q) ->
  compressed_len n + compressed_len cn <= 255 -> roomy (S (2 * length us + S (S n0))) (d_alloc d) ->
  exists c' d',
    ('(p, d) ← triewrite.alloc_node PAGE_HEADER PAGE_COUNT PAGE_SIZES txn
        (changed_len HASH_SIZE cn (compressed_len n + compressed_len cn)) d;
     let d := write p (OTrie (create_prefix HASH_SIZE (raw p) cn (compressed n ++ compressed cn))) d in
     finish_combine txn fuel (negb (t_link_idx u =? 0)) p (t_node u) (target l) (link_to p TRIE) u us k d) = Some (c', d') /\
    gone d d' c' (pre ++ compressed n ++ r) (W m) (fun x => G x \/ f x) n0.
Proof.
  intros Ga Hb Hne Sb El Hbs Hpl Hbd Hwc Hcc Hex HRc HFc HDc HFb HMb Hsz Ro.
  pose proof (ga_wf _ _ _ _ _ _ _ _ _ _ _ _ _ _ _ Ga) as Hw.
  pose proof (compressed_length HASH_SIZE n Hw) as Hcl. pose proof (compressed_length HASH_SIZE cn Hwc) as Hcl'.
  pose proof Ga as [Fo Hl Hb' _ Hcb HR HF Hown HD Hm Hpg _ _ Hkey Honly Ow _ _ _ _].
  assert (branch (compressed cn) = b /\ compressed cn <> []) as [Ebr Hcne].
  { pose proof (HF b l Hb El) as Hfb. unfold first_byte, trie_at in Hfb. rewrite Hpl, Hbd in Hfb.
    destruct (compressed cn); [lia|done]. }
  assert (Z.of_nat (length (compressed n ++ compressed cn)) <= 255) as Hlen by (rewrite length_app; lia).
  pose proof (fun x => NodeCreate.create_prefix_rebased HASH_SIZE HASH_SIZE_range (raw x) cn _ Hwc Hlen) as Rb.
  assert (compressed_len n + compressed_len cn = Z.of_nat (length (compressed n ++ compressed cn))) as Esum by (rewrite length_app; lia).
  rewrite Esum in *.
  assert (0 <= changed_len HASH_SIZE cn (Z.of_nat (length (compressed n ++ compressed cn))) <= room) as Hroom.
  { rewrite <- (NodeCreate.reb_size _ _ _ _ (Rb 0)). apply (trie_fits _ _ _ _ Lay), Rb. }
  destruct (alloc_node_spec _ _ _ _ txn Lay _ _ d Ro Hroom) as (p & d1 & E1 & _ & F1). rewrite E1. cbn [mbind option_bind].
  specialize (F1 (OTrie (create_prefix HASH_SIZE (raw p) cn (compressed n ++ compressed cn)))). specialize (Rb p).
  cbv zeta. set (nn := create_prefix _ _ _ _) in *. set (d2 := write p (OTrie nn) d1) in *. destruct Rb as [Rw Rp Rs Rl Rz].
  destruct (fresh_body _ _ _ _ _ _ _ _ _ _ F1) as [B2 _]. pose proof (fr_aligned _ _ _ _ _ _ _ _ _ _ F1) as Al.
  destruct (fresh_link _ _ _ _ _ _ _ _ _ _ TRIE F1) as [Et Ep].
  assert (forall c l x, -1 <= c <= 255 -> link cn c = Some l -> F' c x -> f x) as Ff.
  { intros c l' x Hc Hl' Hx. apply Hpg. right. exists b, l. split_and!; try (done || lia). by eapply HFb. }
  eapply (finish_combine_spec fuel n0 d d2 u us k pre r e f m G W n F M p (link_to p TRIE)
    (fun x => x = p \/ exists c l, -1 <= c <= 255 /\ link nn c = Some l /\ F' c x)
    (node_map (compressed nn) (link nn) M') (target l) b Ga).
  - apply F1.
  - apply F1.
  - done.
  - eapply (copied_rep d d2 p cn nn F' M'); try done.
    + rewrite Rp. by apply byte_list_app.
    + destruct Hex as (c & Hc & Sc). exists c. by rewrite Rs.
    + intros c l' Hc Hl'. by rewrite <- Rl.
    + intros c l' x Hc Hl' Hx. destruct (fresh_frame _ _ _ _ _ _ x F1) as (? & _ & ?); [apply Ow; right; by eapply Ff|done].
  - intros x Ex. unfold first_byte, trie_at. rewrite Ep, Et, B2, Rp. by apply (gap_first _ _ _ _ _ _ _ _ _ _ _ _ _ _ _ _ _ Ga).
  - intros x [->|(c & l' & Hc & Hl' & Hx)].
    + split; [eapply fresh_owned; [exact F1|cbn [obj_size]; rewrite Rz; lia]|].
      intros HG. destruct (fresh_frame _ _ _ _ _ _ p F1) as (_ & _ & ?); [apply Ow; by left|done].
    + rewrite Rl in Hl' by done. assert (f x) as Hfx by by eapply Ff.
      destruct (fresh_frame _ _ _ _ _ _ x F1) as (_ & ? & _); [apply Ow; by right|].
      split; [done|]. intros HG. by apply (fo_disj _ _ _ _ _ _ _ _ _ _ _ Fo x).
  - intros q Hq. rewrite Rp. transitivity (node_map (compressed n ++ compressed cn) (link cn) M' q).
    { unfold node_map. destruct (decide _); [|done]. rewrite Rl; [done|]. apply byte_branch. by apply byte_list_drop. }
    rewrite node_map_split by done. rewrite Ebr. eapply node_map_other; try done.
    intros c Hc [v Hv]. apply Hbs; [done|]. by apply (link_some HASH_SIZE n c v Hw Hc Hv).
  - right. split; [done|]. exists nn. split; [done|]. rewrite <- Hcl, <- (compressed_length HASH_SIZE nn Rw), Rp, length_app.
    destruct (compressed cn); simpl; [done|lia].
  - apply Hpg. right. exists b, l. split_and!; try (done || lia). eapply (rep_target HASH_SIZE). by apply HR.
  - done.
  - done.
  - done.
  - done.
  - apply F1.
Qed.

Lemma combine_spec fuel n0 d u us k pre r e f m G W n F M prefix : gap fuel d u us k pre r e f m G W n F M -> count n = 2 ->
  (prefix = 0 <-> r = []) -> (pre ++ compressed n ++ r = [] -> -1 <= t_branch_key u <= 255) -> values_fit (W m) -> roomy (S (2 * length us + S (S n0))) (d_alloc d) ->
  exists c' d', combine HASH_SIZE PAGE_HEADER PAGE_COUNT PAGE_SIZES raw txn fuel prefix (Cursor (u :: us) k) d = Some (c', d') /\
    gone d d' c' (pre ++ compressed n ++ r) (W m) (fun x => G x \/ f x) n0.
Proof.
  intros Ga Hc Hpf Hbk Hvf Ro. destruct (other_branch _ _ _ _ _ _ _ _ _ _ _ _ _ _ _ Ga Hc) as (b & Hb & Hne & Sb & El & Hbs).
  assert (trie_at (d_heap d) (t_node u) = n) as Eu by (unfold trie_at; by rewrite (ga_body _ _ _ _ _ _ _ _ _ _ _ _ _ _ _ Ga)).
  unfold combine. cbn [stack trie.keys]. cbv zeta. rewrite Eu.
  set (l := slot n _) in *. clearbody l.
  assert (exists c' d', reduce_array HASH_SIZE PAGE_HEADER PAGE_COUNT PAGE_SIZES raw txn fuel prefix (Cursor (u :: us) k) d = Some (c', d') /\
    gone d d' c' (pre ++ compressed n ++ r) (W m) (fun x => G x \/ f x) n0) as Red.
  { eapply reduce_array_spec; try done; [by exists b|]. eapply roomy_less; [|exact Ro]. lia. }
  pose proof (ga_rep _ _ _ _ _ _ _ _ _ _ _ _ _ _ _ Ga b l Hb El) as Rl. remember (M b) as mb eqn:Emb. remember (F b) as fb eqn:Efb.
  pose proof Rl as Rl'. destruct Rl' as [lnk lf fb mb H1 H2 H3 H4 H5 H6|lnk cn F' M' fb mb H1 H2 H3 H4 H5 H6 H7 H8 H9 H10 H11 H12];
    rewrite H1; cbn [negb].
  - unfold leaf_at. rewrite H3. destruct (Z.ltb_spec 255 (compressed_len n + LeafNode.key_size lf)); [exact Red|].
    eapply combine_leaf; try done. by rewrite <- Emb.
  - unfold trie_at. rewrite H3. destruct (Z.ltb_spec 255 (compressed_len n + compressed_len cn)); [exact Red|].
    eapply combine_trie; try done; [|by rewrite <- Emb].
    intros c l' x Hc' Hl' Hx. rewrite <- Efb. apply H11. right. by exists c, l'.
Qed.

(** ** The removal *)

Lemma gap_intro fuel d t u us k pre r e f m G W : focus (d_heap d) (d_root d) t (u :: us) G W pre e f m ->
  (forall x, G x \/ f x -> owned d x) -> (forall q, byte_list q -> q <> r -> m q = None) -> byte_list (pre ++ r) -> enters e r ->
  trail (pre ++ r) (Z.of_nat (length pre)) (u :: us) 0 -> cur k = pre -> rest k = [] -> fits fuel (W m) ->
  exists n pre0 e0 f0 m0 G0 W0 F M, gap fuel d u us k pre0 r e0 f0 m0 G0 W0 n F M /\ pre = pre0 ++ compressed n /\
    W0 m0 = W m /\ forall x, G0 x \/ f0 x <-> G x \/ f x.
Proof.
  intros Fo Ow Hm Hb He Ht Hcu Hre Hfit.
  destruct (ctx_load HASH_SIZE _ _ _ _ _ _ _ _ _ (fo_ctx _ _ _ _ _ _ _ _ _ _ _ Fo)) as (n & b & Hbd & Ee & Hbr & Hw & Sb & Elk & Epl & _).
  destruct (ctx_up HASH_SIZE _ _ _ _ _ _ _ _ _ _ _ (fo_ctx _ _ _ _ _ _ _ _ _ _ _ Fo) (fo_rep _ _ _ _ _ _ _ _ _ _ _ Fo)
    (fo_first _ _ _ _ _ _ _ _ _ _ _ Fo) (fo_disj _ _ _ _ _ _ _ _ _ _ _ Fo))
    as (n' & G0 & W0 & pre0 & e0 & f0 & m0 & C0 & R0 & Hf0 & D0 & En & Ek & Hl & Hb' & Ep & EW & EG).
  assert (n' = n) as -> by congruence.
  assert (focus (d_heap d) (d_root d) u us G0 W0 pre0 e0 f0 m0) as Fu by by split.
  destruct (focus_cases _ _ _ _ _ _ _ _ _ _ _ Fu) as [(Hl' & _)|(Hl' & n' & F & M & Hb2 & _ & Hc & HR & HF & Hown & HD & _ & Hm0 & Hpg)].
  { unfold is_leaf in Hl'. congruence. }
  assert (n' = n) as -> by congruence. subst e. rewrite Ep in *. simpl in He. subst b.
  exists n, pre0, e0, f0, m0, G0, W0, F, M. split; [|split; [done|split; [done|done]]].
  rewrite <- app_assoc in Hb, Ht. split; try done.
  - assert (Slot (t_node u) (t_link_idx u) = Slot (t_node u) (array_index n (branch r))) as E; [|by injection E].
    rewrite <- Epl. pose proof (fo_ctx _ _ _ _ _ _ _ _ _ _ _ Fo) as C. by inversion C.
  - intros q Hq Eq Hne. pose proof Hb as [Hp0 [Hc0 _]%byte_list_app]%byte_list_app.
    assert (enters e0 (compressed n ++ q)) as He0 by (eapply (ctx_enters HASH_SIZE); [exact C0|done|by rewrite <- En|done]).
    rewrite <- (ctx_focus HASH_SIZE _ _ _ _ _ _ _ _ m0 (compressed n ++ q) C0 He0), EW, app_assoc.
    rewrite (ctx_focus HASH_SIZE _ _ _ _ _ _ _ _ m q (fo_ctx _ _ _ _ _ _ _ _ _ _ _ Fo)) by done. by apply Hm.
  - intros x Hx. by apply Ow, EG.
  - by rewrite EW.
Qed.

Lemma gone_weaken d d' c' key w (s1 s : Z -> Prop) n : gone d d' c' key w s1 n -> (forall x, s1 x -> s x) -> gone d d' c' key w s n.
Proof. intros [H1 H2 H3 H4 H5] Hs. split; try done. eapply grows_weaken; [exact H3|]. intros x _. apply Hs. Qed.

(** Freeing a page that is in use changes no memory. *)
Lemma gone_free d d' c' key w (s : Z -> Prop) n x : gone d d' c' key w s (S n) -> owned d x ->
  exists d2, free_node x d' = Some d2 /\ gone d d2 c' key w s n.
Proof.
  intros [(f' & Hh & Ho) H2 H3 H4 H5] Ox. destruct (gr_page _ _ _ _ H3 x (ow_used _ _ _ _ _ _ Ox)) as [Es _].
  destruct (free_node_spec _ _ x d' H4 ltac:(rewrite Es; apply Ox)) as (a & E & R & Mn).
  eexists. split; [exact E|]. assert (grows d' (Db (d_heap d') (d_root d') a) (fun _ => False)) as Gr by (split; cbn; auto).
  split; cbn [d_heap d_root d_alloc]; try done.
  - exists f'. split; [done|]. intros y Hy. eapply grows_owned; [exact Gr|by apply Ho|tauto].
  - eapply grows_trans; [exact H3|exact Gr|]. intros y _ [|[]]. done.
Qed.

(** The last key. *)
Lemma gone_last n d t k pre r e f m G W : focus (d_heap d) (d_root d) t [] G W pre e f m -> owned d (t_node t) ->
  (forall q, byte_list q -> q <> r -> m q = None) -> roomy (S n) (d_alloc d) ->
  exists d', (d ← free_node (t_node t) (store (t_offset t) 0 d); Some (pop (Cursor [t] k), d)) = Some (pop (Cursor [t] k), d') /\
    gone d d' (pop (Cursor [t] k)) (pre ++ r) (W m) (fun x => G x \/ f x) n.
Proof.
  intros Fo Ot Hm Ro. pose proof (fo_ctx _ _ _ _ _ _ _ _ _ _ _ Fo) as C. inversion C as [Ew Eo|]; subst. cbn [store app].
  destruct (free_node_spec _ _ (t_node t) (Db (d_heap d) 0 (d_alloc d)) Ro ltac:(apply Ot)) as (a & -> & R & Mn).
  cbn [mbind option_bind d_heap d_root]. eexists. split; [done|].
  assert (forall q, byte_list q -> del_map r m q = None) as Hn.
  { intros q Hq. unfold del_map. destruct (decide _); [done|by apply Hm]. }
  split; cbn [d_heap d_root d_alloc]; [|intros _|by split; cbn; auto|done|].
  - exists (fun _ => False). split; [exact Hn|done].
  - eexists. split; [done|]. right. split; [done|]. intros q Hq [v Hv]. by rewrite Hn in Hv.
  - intros _. split; [done|]. unfold pop. cbn [stack trie.keys resize_key cur]. by rewrite (fo_keypos _ _ _ _ _ _ _ _ _ _ _ Fo).
Qed.

(** A node with one branch holds the one key. *)
Lemma only_branch fuel d u us k pre r e f m G W n F M q : gap fuel d u us k pre r e f m G W n F M -> count n = 1 ->
  byte_list q -> q <> compressed n ++ r -> m q = None.
Proof.
  intros Ga Hc Hq Hne. destruct (m q) as [v|] eqn:Em; [|done]. exfalso. pose proof Em as Em'.
  pose proof (ga_wf _ _ _ _ _ _ _ _ _ _ _ _ _ _ _ Ga) as Hw. rewrite (ga_map _ _ _ _ _ _ _ _ _ _ _ _ _ _ _ Ga) in Em by done.
  apply node_map_some in Em as (y & l & -> & El & _). pose proof Hq as [_ Hy]%byte_list_app. pose proof (byte_branch y Hy) as Hyr.
  destruct (link_some HASH_SIZE n _ l Hw Hyr El) as (Sy & _ & Iy).
  pose proof (ga_key _ _ _ _ _ _ _ _ _ _ _ _ _ _ _ Ga) as [_ [_ Hr]%byte_list_app]%byte_list_app. pose proof (byte_branch r Hr) as Hbr.
  pose proof (ga_branch _ _ _ _ _ _ _ _ _ _ _ _ _ _ _ Ga) as Sb.
  destruct (array_index_keys HASH_SIZE n Hw (branch r) Hbr) as [(_ & Ib & _)|[? _]]; [|congruence].
  pose proof (index_mono HASH_SIZE n (branch y) (branch r) Hw Hyr Hbr Sy Sb).
  pose proof (index_mono HASH_SIZE n (branch r) (branch y) Hw Hbr Hyr Sb Sy).
  assert (branch y = branch r) as E by lia.
  rewrite (ga_only _ _ _ _ _ _ _ _ _ _ _ _ _ _ _ Ga y Hy E) in Em'; [done|]. by intros ->.
Qed.

Abbreviation remove_node := (triewrite.remove_node (A := A) HASH_SIZE PAGE_HEADER PAGE_COUNT PAGE_SIZES raw txn).
Abbreviation remove := (triewrite.remove (A := A) HASH_SIZE PAGE_HEADER PAGE_COUNT PAGE_SIZES raw txn).

Lemma remove_node_step r fuel t u us k (d : db) : remove_node (S r) fuel (Cursor (t :: u :: us) k) d =
  let c := pop (Cursor (t :: u :: us) k) in
  '(c, d') ← (let n := count (trie_at (d_heap d) (t_node u)) in
    if n =? 0 then None else if n =? 1 then remove_node r fuel c d
    else if n =? 2 then combine HASH_SIZE PAGE_HEADER PAGE_COUNT PAGE_SIZES raw txn fuel (t_prefix t) c d
    else reduce_array HASH_SIZE PAGE_HEADER PAGE_COUNT PAGE_SIZES raw txn fuel (t_prefix t) c d);
  d' ← free_node (t_node t) d'; Some (c, d').
Proof. done. Qed.

Lemma remove_node_spec fuel ts : forall n0 d t k pre r e f m G W,
  focus (d_heap d) (d_root d) t ts G W pre e f m -> (forall x, G x \/ f x -> owned d x) ->
  (forall q, byte_list q -> q <> r -> m q = None) -> byte_list (pre ++ r) -> enters e r ->
  (ts <> [] -> t_prefix t = 0 <-> r = []) -> trail (pre ++ r) (Z.of_nat (length pre)) ts 0 ->
  take (length pre) (cur k) = pre -> rest k = [] -> fits fuel (W m) -> values_fit (W m) ->
  (pre ++ r = [] -> Forall (fun u => -1 <= t_branch_key u <= 255) ts) -> roomy (3 * length ts + S n0) (d_alloc d) ->
  exists c' d', remove_node (S (length ts)) fuel (Cursor (t :: ts) k) d = Some (c', d') /\
    gone d d' c' (pre ++ r) (W m) (fun x => G x \/ f x) n0.
Proof.
  induction ts as [|u us IH]; intros n0 d t k pre r e f m G W Fo Ow Hm Hb He Hpf Ht Hcu Hre Hfit Hvf Hbk Ro.
  all: assert (owned d (t_node t)) as Ot by (apply Ow; right; rewrite (fo_node _ _ _ _ _ _ _ _ _ _ _ Fo);
    eapply (rep_target HASH_SIZE); apply Fo).
  { destruct (gone_last n0 d t k pre r e f m G W Fo Ot Hm Ro) as (d' & E & Go). eexists _, _. split; [exact E|done]. }
  set (k1 := resize_key (t_keypos t) (Keys (cur k) (rest k) (t_branch_key t :: dead k))).
  assert (cur k1 = pre) as Ek1.
  { unfold k1. cbn [resize_key cur]. by rewrite (fo_keypos _ _ _ _ _ _ _ _ _ _ _ Fo), Nat2Z.id. }
  destruct (gap_intro fuel d t u us k1 pre r e f m G W Fo Ow Hm Hb He Ht Ek1 Hre Hfit)
    as (n & pre0 & e0 & f0 & m0 & G0 & W0 & F & M & Ga & Ep & EW & EG).
  rewrite Ep in Hb, Hbk. rewrite <- app_assoc in Hb, Hbk. rewrite Ep, <- app_assoc, <- EW in *.
  pose proof (ga_wf _ _ _ _ _ _ _ _ _ _ _ _ _ _ _ Ga) as Hw. pose proof (compressed_length HASH_SIZE n Hw) as Hcl.
  assert (exists c' d', (if count n =? 0 then None else if count n =? 1 then remove_node (S (length us)) fuel (Cursor (u :: us) k1) d
      else if count n =? 2 then combine HASH_SIZE PAGE_HEADER PAGE_COUNT PAGE_SIZES raw txn fuel (t_prefix t) (Cursor (u :: us) k1) d
      else reduce_array HASH_SIZE PAGE_HEADER PAGE_COUNT PAGE_SIZES raw txn fuel (t_prefix t) (Cursor (u :: us) k1) d) = Some (c', d') /\
    gone d d' c' (pre0 ++ compressed n ++ r) (W0 m0) (fun x => G0 x \/ f0 x) (S n0)) as (c' & d' & E & Go).
  { pose proof (ga_branch _ _ _ _ _ _ _ _ _ _ _ _ _ _ _ Ga) as Sb. specialize (Hpf ltac:(done)).
    pose proof Hb as [_ [_ Hr]%byte_list_app]%byte_list_app. pose proof (byte_branch r Hr) as Hbr.
    destruct (array_index_keys HASH_SIZE n Hw (branch r) Hbr) as [(_ & Ib & _)|[? _]]; [|congruence].
    assert (pre0 ++ compressed n ++ r = [] -> -1 <= t_branch_key u <= 255) as Hbu by (intros E; by apply Hbk, list.Forall_cons in E as [? _]).
    destruct (Z.eqb_spec (count n) 0); [lia|]. destruct (Z.eqb_spec (count n) 1) as [E1|E1].
    - pose proof (ga_trail _ _ _ _ _ _ _ _ _ _ _ _ _ _ _ Ga) as (_ & _ & Hkp & _ & Ht0).
      pose proof (fo_keypos _ _ _ _ _ _ _ _ _ _ _ (ga_focus _ _ _ _ _ _ _ _ _ _ _ _ _ _ _ Ga)) as Ek0.
      rewrite Ek0 in Hkp, Ht0. rewrite length_app in Hkp.
      apply (IH (S n0) d u k1 pre0 (compressed n ++ r) e0 f0 m0 G0 W0); try done.
      + apply Ga.
      + apply Ga.
      + intros q Hq Hne. by eapply only_branch.
      + by eapply gap_enters.
      + intros Hus. assert (compressed n <> []) as Hcn.
        { intros Ec. apply Hus. by apply (empty_prefix _ _ _ _ _ _ _ _ _ _ _ (ga_focus _ _ _ _ _ _ _ _ _ _ _ _ _ _ _ Ga)
            (ga_trie _ _ _ _ _ _ _ _ _ _ _ _ _ _ _ Ga) (ga_body _ _ _ _ _ _ _ _ _ _ _ _ _ _ _ Ga) Ec). }
        destruct (compressed n); [done|]. cbn [length] in Hkp. split; [lia|done].
      + by rewrite Ek1, take_app_length.
      + intros E. by apply Hbk, list.Forall_cons in E as [_ ?].
      + eapply roomy_less; [|exact Ro]. cbn [length]. lia.
    - destruct (Z.eqb_spec (count n) 2) as [E2|E2].
      + eapply combine_spec; try done. eapply roomy_less; [|exact Ro]. cbn [length]. lia.
      + eapply reduce_array_spec; try done; [|eapply roomy_less; [|exact Ro]; cbn [length]; lia].
        assert (exists i, 0 <= i < count n /\ i <> array_index n (branch r)) as (i & Hi & Hni).
        { exists (if array_index n (branch r) =? 0 then 1 else 0). destruct (Z.eqb_spec (array_index n (branch r)) 0); lia. }
        destruct (index_branch HASH_SIZE n i Hw Hi) as (c & Hc & Sc & Ec). exists c. split_and!; try (done || lia). by intros ->. }
  destruct (gone_free _ _ _ _ _ _ _ _ Go Ot) as (d2 & Ef & Go2). exists c', d2. split.
  - cbn [length]. rewrite remove_node_step. unfold pop. cbn [stack trie.keys]. fold k1. cbv zeta.
    assert (trie_at (d_heap d) (t_node u) = n) as ->.
    { unfold trie_at. by rewrite (ga_body _ _ _ _ _ _ _ _ _ _ _ _ _ _ _ Ga). }
    rewrite E. cbn [mbind option_bind]. by rewrite Ef.
  - eapply gone_weaken; [exact Go2|]. intros x. apply EG.
Qed.

(** A valid cursor stands at a leaf for its key. *)
Lemma standing_top (d : db) c key m : standing HASH_SIZE (d_heap d) (d_root d) c key m -> is_valid (d_heap d) (d_root d) c = true ->
  byte_list key -> exists t ts G W pre r e f0 m0, c = Cursor (t :: ts) (trie.keys c) /\ key = pre ++ r /\
    focus (d_heap d) (d_root d) t ts G W pre e f0 m0 /\ (forall q, byte_list q -> W m0 q = m q) /\
    (forall q, byte_list q -> q <> r -> m0 q = None) /\ enters e r /\ (t_prefix t = 0 <-> r = []) /\
    take (length pre) (cur (trie.keys c)) = pre /\ rest (trie.keys c) = [].
Proof.
  intros [L T] V Hb. destruct (located_reads HASH_SIZE _ _ _ _ _ L Hb) as (_ & _ & Hcu). specialize (Hcu V).
  destruct c as [[|t ts] k]; [done|]. cbn [located stack trie.keys] in *.
  destruct L as (G & W & pre & e & f0 & m0 & r & Fo & -> & He & St & EW). cbn [is_valid stack] in V.
  pose proof Hb as [_ Hr]%byte_list_app. destruct (stopped_reads HASH_SIZE _ _ _ _ _ _ _ _ _ _ _ _ Fo St He Hr) as (_ & _ & Hk).
  specialize (Hk V). unfold success in V. apply andb_true_iff in V as [_ Vl].
  destruct (focus_cases _ _ _ _ _ _ _ _ _ _ _ Fo) as [(_ & l & Hbd & Hok & Hm)|(Hl & _)]; [|congruence].
  unfold t_leaf, leaf_at in Hk. rewrite Hbd in Hk. destruct St as [S1 S2 S3 _].
  assert (content (d_heap d) (d_root d) t = r) as Ec by (unfold content, t_leaf, leaf_at; by rewrite Vl, Hbd).
  rewrite Ec, common_refl in S1, S3. exists t, ts, G, W, pre, r, e, f0, m0. split_and!; try done.
  - intros q Hq Hne. rewrite Hm by done. by rewrite decide_False by congruence.
  - rewrite S1. destruct r; [done|]. split; [cbn [length]; lia|done].
  - by rewrite Hcu, take_app_length.
  - by rewrite S3, drop_all.
Qed.

Lemma remove_gone fuel n key c d f m : holds d f m -> standing HASH_SIZE (d_heap d) (d_root d) c key m ->
  is_valid (d_heap d) (d_root d) c = true -> byte_list key -> fits fuel m -> values_fit m ->
  (key = [] -> Forall (fun t => -1 <= t_branch_key t <= 255) (stack c)) -> roomy (3 * length (stack c) + n) (d_alloc d) ->
  exists c' d', remove fuel c d = Some (c', d') /\ gone d d' c' key m f n.
Proof.
  intros [Hr Ho] S V Hb Hfit Hvf Hbk Ro.
  destruct (standing_top d c key m S V Hb) as (t & ts & G & W & pre & r & e & f0 & m0 & Ec & -> & Fo & EW & Hm & He & Hpf & Hcu & Hre).
  destruct S as [_ T]. rewrite Ec in T, Hbk, Ro. cbn [trailing stack length] in *. rewrite (fo_keypos _ _ _ _ _ _ _ _ _ _ _ Fo) in T.
  destruct (Z.eqb_spec (d_root d) 0) as [E0|E0].
  { exfalso. pose proof (rep_nonzero HASH_SIZE _ _ _ _ (ctx_plug HASH_SIZE HASH_SIZE_range _ _ _ _ _ _ _ _ _ _
      (fo_ctx _ _ _ _ _ _ _ _ _ _ _ Fo) (fo_rep _ _ _ _ _ _ _ _ _ _ _ Fo) (fo_first _ _ _ _ _ _ _ _ _ _ _ Fo)
      (fo_disj _ _ _ _ _ _ _ _ _ _ _ Fo))) as Hn. by rewrite E0 in Hn. }
  assert (forall x, G x \/ f0 x -> f x) as Hfx.
  { intros x Hx. apply (rep_pages _ _ _ (fun x => G x \/ f0 x) (W m0) _ _) with (2 := Hr); [|exact Hx].
    eapply (ctx_plug HASH_SIZE HASH_SIZE_range); apply Fo. }
  destruct (remove_node_spec fuel ts n d t (trie.keys c) pre r e f0 m0 G W Fo) as (c' & d' & E & Go); try done.
  - intros x Hx. by apply Ho, Hfx.
  - intros q Hq [v Hv]. rewrite EW in Hv by done. apply Hfit; [done|by exists v].
  - intros q s b Hq Hv. rewrite EW in Hv by done. by eapply Hvf.
  - intros Ek. by apply Hbk, list.Forall_cons in Ek as [_ ?].
  - eapply roomy_less; [|exact Ro]. lia.
  - exists c', d'. split.
    + unfold triewrite.remove. rewrite V. rewrite Ec at 1 2. exact E.
    + apply (gone_weaken _ _ _ _ _ _ f) in Go; [|exact Hfx]. destruct Go as [(f' & Hh & Ho') H2 H3 H4 H5].
      assert (forall q, byte_list q -> del_map (pre ++ r) (W m0) q = del_map (pre ++ r) m q) as Em.
      { intros q Hq. unfold del_map. destruct (decide _); [done|by apply EW]. }
      split; try done.
      * exists f'. split; [|done]. destruct (d_root d' =? 0); [intros q Hq; rewrite <- Em by done; by apply Hh|].
        eapply (rep_ext HASH_SIZE); [exact Hh|done|]. intros q Hq. by rewrite Em.
      * intros Hk. eapply moved_ext; [by apply H2|exact Em].
Qed.

(** C3: [remove] at a key makes the trie the map without it, also for the empty key; from
    any other key it goes to the next one (from the empty key the cursor may lose its
    place, [remove_empty_key_loses_position]). *)
Theorem remove_deletes fuel n key c d f m : holds d f m -> standing HASH_SIZE (d_heap d) (d_root d) c key m ->
  is_valid (d_heap d) (d_root d) c = true -> byte_list key -> fits fuel m -> values_fit m ->
  (key = [] -> Forall (fun t => -1 <= t_branch_key t <= 255) (stack c)) -> roomy (3 * length (stack c) + n) (d_alloc d) ->
  exists c' d' f', remove fuel c d = Some (c', d') /\ holds d' f' (del_map key m) /\ roomy n (d_alloc d') /\
    (key <> [] -> (exists key', neighbour true m key key' /\ standing HASH_SIZE (d_heap d') (d_root d') c' key' (del_map key m) /\
        is_valid (d_heap d') (d_root d') c' = true /\ cur (trie.keys c') = key' /\
        trie.value (d_heap d') (d_root d') c' = option_map snd (m key')) \/
     (stack c' = [] /\ forall key', byte_list key' -> is_Some (m key') -> ~ ahead true key key')).
Proof.
  intros Hh S V Hb Hfit Hvf Hbk Ro.
  destruct (remove_gone fuel n key c d f m Hh S V Hb Hfit Hvf Hbk Ro) as (c' & d' & E & [(f' & Hf') Mv _ Ro' _]).
  exists c', d', f'. split; [done|]. split; [done|]. split; [done|]. intros Hk.
  assert (forall q, q <> key -> del_map key m q = m q) as Em by (intros q Hq; unfold del_map; by rewrite decide_False).
  assert (forall q, ahead true key q -> q <> key) as Hah by (intros q Ha ->; by apply (ahead_irrefl true key)).
  destruct (Mv Hk) as (c2 & [= <-] & [(key' & S' & [N1 N2 N3 N4] & _)|[Es Hn]]).
  - left. exists key'. pose proof (standing_reads HASH_SIZE _ _ _ _ _ S' N1 N2) as (R1 & R2 & R3). rewrite Em in R3 by auto.
    split_and!; try done. split; [done|by rewrite <- Em by auto|done|].
    intros q Hq Hin Ha. apply N4; [done|by rewrite Em by auto|done].
  - right. split; [done|]. intros q Hq Hin Ha. apply (Hn q Hq); [by rewrite Em by auto|done].
Qed.

(** C4: A version another transaction committed keeps its map. *)
Theorem remove_keeps_versions fuel n key c d f m c' d' l0 f0 m0 : holds d f m -> standing HASH_SIZE (d_heap d) (d_root d) c key m ->
  is_valid (d_heap d) (d_root d) c = true -> byte_list key -> fits fuel m -> values_fit m ->
  (key = [] -> Forall (fun t => -1 <= t_branch_key t <= 255) (stack c)) -> roomy (3 * length (stack c) + n) (d_alloc d) ->
  remove fuel c d = Some (c', d') -> rep (d_heap d) l0 f0 m0 ->
  (forall x, f0 x -> ~ avail (d_alloc d) x /\ txn_id (d_heap d x) <> txn) ->
  rep (d_heap d') l0 f0 m0 /\ (forall x, f0 x -> ~ avail (d_alloc d') x) /\ exists f', holds d' f' (del_map key m).
Proof.
  intros Hh S V Hb Hfit Hvf Hbk Ro E R0 H0.
  destruct (remove_gone fuel n key c d f m Hh S V Hb Hfit Hvf Hbk Ro) as (c2 & d2 & E2 & [Hf' _ Gr _]).
  assert (d2 = d') as -> by congruence. split; [|split; [|done]].
  - eapply (rep_frame HASH_SIZE); [exact R0|]. intros x Hx. by apply (gr_cow _ _ _ _ Gr); apply H0.
  - intros x Hx Ha. destruct (H0 x Hx) as [Hn _]. by apply Hn, (gr_mono _ _ _ _ Gr).
Qed.

(** ** Removing everything *)

(** The loop of a client: remove at the cursor until it is invalid. *)
Fixpoint drain (n fuel : nat) (c : cursor) (d : db) : option db :=
  match n with
  | O => None
  | S n =>
      if is_valid (d_heap d) (d_root d) c then '(c, d) ← remove fuel c d; drain n fuel c d else Some d
  end.

Lemma standing_depth (d : db) c key m : standing HASH_SIZE (d_heap d) (d_root d) c key m -> (length (stack c) <= length key + 2)%nat.
Proof.
  intros [L _]. unfold located in L. destruct (stack c) as [|t ts]; [simpl; lia|].
  destruct L as (G & W & pre & e & f & m0 & r & Fo & -> & _). cbn [length]. rewrite length_app.
  pose proof (ctx_depth HASH_SIZE _ _ _ _ _ _ _ _ (fo_ctx _ _ _ _ _ _ _ _ _ _ _ Fo)). lia.
Qed.

(** The first key of a listing can be taken out. *)
Lemma listing_rest m key l : listing true m (key :: l) -> listing true (del_map key m) l.
Proof.
  intros Ls. destruct (listing_split true m [] key l Ls) as (_ & _ & _ & Ha). destruct Ls as [H1 H2 H3].
  apply list.Forall_cons in H2 as [_ H2]. apply Sorted.StronglySorted_inv in H3 as [H3 _]. split; [|done|done].
  intros q Hq. specialize (H1 q Hq). rewrite list.elem_of_cons in H1. unfold del_map. destruct (decide (q = key)) as [->|Hn].
  - split; [|by intros []]. intros Hin. exfalso. by apply (ahead_irrefl true key), Ha.
  - rewrite <- H1. tauto.
Qed.

Lemma values_fit_del key m : values_fit m -> values_fit (del_map key m).
Proof. intros H q s b Hq. unfold del_map. destruct (decide _); [done|by apply H]. Qed.

Lemma drain_from fuel l : forall n key c d f m, holds d f m -> standing HASH_SIZE (d_heap d) (d_root d) c key m ->
  listing true m (key :: l) -> m [] = None -> fits fuel m -> values_fit m -> roomy (3 * fuel * S (length l)) (d_alloc d) ->
  (length l + 2 <= n)%nat -> exists d', drain n fuel c d = Some d' /\ d_root d' = 0.
Proof.
  induction l as [|key2 l IH]; intros n key c d f m Hh S Ls He Hfit Hvf Ro Hn; (destruct n as [|n]; [cbn [length] in Hn; lia|]).
  all: destruct (listing_split true m [] key _ Ls) as (Hb & Hin & _ & Ha);
    destruct (standing_reads HASH_SIZE _ _ _ _ _ S Hb Hin) as (V & _ & _);
    assert (key <> []) as Hne by (intros ->; rewrite He in Hin; by destruct Hin);
    destruct (Hfit key Hb Hin) as [_ Hfu]; pose proof (standing_depth d c key m S) as Hd.
  all: destruct (remove_gone fuel (3 * fuel * length (key2 :: l))%nat key c d f m Hh S V Hb Hfit Hvf ltac:(done)) as (c' & d' & E & [(f' & Hh' & Ho') Mv _ Ro' _])
    || destruct (remove_gone fuel 0 key c d f m Hh S V Hb Hfit Hvf ltac:(done)) as (c' & d' & E & [(f' & Hh' & Ho') Mv _ Ro' _]).
  all: try (eapply roomy_less; [|exact Ro]; cbn [length]; nia).
  all: pose proof (listing_rest m key _ Ls) as Ls'; cbn [drain]; rewrite V, E; cbn [mbind option_bind]; destruct (Mv Hne) as (c2 & [= <-] & Hc').
  - assert (forall q, byte_list q -> ~ is_Some (del_map key m q)) as Hno.
    { intros q Hq Hs. apply (ls_in _ _ _ Ls' q Hq) in Hs. by apply elem_of_nil in Hs. }
    destruct Hc' as [(key' & _ & [N1 N2 _ _] & _)|[Es _]]; [by destruct (Hno key' N1)|].
    destruct n as [|n]; [cbn [length] in Hn; lia|]. cbn [drain]. unfold is_valid. rewrite Es. exists d'. split; [done|].
    destruct (Z.eqb_spec (d_root d') 0) as [E0|_]; [done|]. exfalso.
    destruct (rep_inhabited HASH_SIZE _ _ _ _ Hh') as (q & v & Hq & Hv). apply (Hno q Hq). by exists v.
  - destruct (listing_split true _ [] key2 l Ls') as (Hb2 & Hin2 & _ & Ha2).
    destruct Hc' as [(key' & S' & [N1 N2 N3 N4] & _)|[_ Hno]].
    + assert (key' = key2) as ->.
      { apply (ls_in _ _ _ Ls' key' N1) in N2 as [->|Hin']%list.elem_of_cons; [done|].
        destruct (N4 key2 Hb2 Hin2) as [->|Hlt]; [apply Ha; left|done|]. exfalso.
        apply (ahead_irrefl true key2). eapply ahead_trans; [by apply Ha2|done]. }
      eapply (IH n key2 c' d' f'); try done.
      * unfold del_map. by destruct (decide _).
      * eapply fits_del; [exact Hfit|done].
      * by apply values_fit_del.
      * cbn [length] in Hn. lia.
    + exfalso. apply (Hno key2 Hb2 Hin2). apply Ha. left.
Qed.

(** C5: In a trie that does not hold the empty key ([remove_empty_key_loses_position]),
    removing from the first key on, until the cursor is not valid, ends, and leaves an
    empty trie; keys and values fit, and so do the pages this needs. *)
Theorem drain_empties fuel n c d f m l : holds d f m -> listing true m l -> m [] = None -> fits fuel m -> values_fit m ->
  roomy (3 * fuel * length l) (d_alloc d) -> (length l + 1 <= n)%nat ->
  exists d', (c ← first_key (d_heap d) (d_root d) fuel c; drain n fuel c d) = Some d' /\ d_root d' = 0.
Proof.
  intros [Hr Ho] Ls He Hfit Hvf Ro Hn. destruct l as [|key l].
  - assert (d_root d = 0) as E0.
    { destruct (Z.eqb_spec (d_root d) 0) as [|_]; [done|]. exfalso. destruct (rep_inhabited HASH_SIZE _ _ _ _ Hr) as (q & v & Hq & Hv).
      assert (q ∈ @nil (list Z)) as Hin by (apply (ls_in _ _ _ Ls q Hq); by exists v). by apply elem_of_nil in Hin. }
    exists d. split; [|done]. unfold first_key, clear. rewrite E0. cbn [Z.eqb mbind option_bind]. destruct n as [|n]; [simpl in Hn; lia|].
    cbn [drain]. unfold kill. cbn [stack]. by rewrite drop_all.
  - destruct (Z.eqb_spec (d_root d) 0) as [E0|Hnz].
    { destruct (listing_split true m [] key l Ls) as (Hb & Hin & _). rewrite Hr in Hin by done. by destruct Hin. }
    destruct (start_at HASH_SIZE (d_heap d) (d_root d) true fuel c f m key Hr (listing_extreme true m key l Ls) Hfit) as (c' & E & S & _).
    rewrite E. cbn [mbind option_bind]. eapply (drain_from fuel l n key c' d f m); try done.
    + split; [|done]. by destruct (Z.eqb_spec (d_root d) 0).
    + cbn [length] in Hn. lia.
Qed.

End with_alloc.

(** ** Witnesses: the trie of [a] and [ab] *)

#[local] Existing Instance bump.

Lemma sample_values_fit : values_fit 0 8 64 sample_sizes sample_map.
Proof.
  intros q s b Hq. unfold sample_map. do 2 (destruct (decide _); [intros [= <- <-]; vm_compute; intros [=]|]). done.
Qed.

Lemma sample_roomy n : Z.of_nat n < 2 ^ 40 -> roomy (A := Z) 64 n (d_alloc sample_db).
Proof. intros Hn. apply bump_roomy; [done|]. cbn [sample_db d_alloc]. lia. Qed.

Lemma remove_deletes_witness : exists c c' d' f',
  find_key plain sample_heap sample_root 9 [97] fresh_cursor = Some c /\
  remove 0 8 64 sample_sizes (fun _ => trie.blank) 5 9 c sample_db = Some (c', d') /\
  holds 0 8 64 sample_sizes d' f' (del_map [97] sample_map) /\ cur (trie.keys c') = [97; 98].
Proof.
  destruct sample_standing as (c & E & S & V).
  assert (length (stack c) <= 3)%nat as Hd by (exact (standing_depth 0 sample_db c [97] sample_map S)).
  destruct (remove_deletes 0 8 64 sample_sizes (fun _ => trie.blank) 5 sample_layout 9 0 [97] c sample_db sample_pages sample_map
    (proj1 sample_holds) S V ltac:(forall_lia) sample_fits sample_values_fit ltac:(done)
    ltac:(apply sample_roomy; lia)) as (c' & d' & f' & E' & H' & _ & Mv).
  destruct (Mv ltac:(done)) as [(key' & [N1 N2 N3 _] & _ & _ & Hc & _)|[_ Hn]].
  - exists c, c', d', f'. split_and!; try done. apply sample_keys in N2 as [->| ->]; [by destruct (ahead_irrefl true [97])|done].
  - destruct (Hn [97; 98]); [forall_lia|by eexists|cbn; lia].
Defined.

Lemma remove_keeps_versions_witness : exists c c' d',
  find_key plain sample_heap sample_root 9 [97] fresh_cursor = Some c /\
  remove 0 8 64 sample_sizes (fun _ => trie.blank) 5 9 c sample_db = Some (c', d') /\
  rep 0 (d_heap d') sample_root sample_pages sample_map.
Proof.
  destruct sample_standing as (c & E & S & V).
  assert (length (stack c) <= 3)%nat as Hd by (exact (standing_depth 0 sample_db c [97] sample_map S)).
  assert (roomy (A := Z) 64 (3 * length (stack c) + 0) (d_alloc sample_db)) as Ro by (apply sample_roomy; lia).
  destruct (remove_gone 0 8 64 sample_sizes (fun _ => trie.blank) 5 sample_layout 9 0 [97] c sample_db sample_pages sample_map
    (proj1 sample_holds) S V ltac:(forall_lia) sample_fits sample_values_fit ltac:(done) Ro) as (c' & d' & E' & _).
  exists c, c', d'. split; [done|]. split; [done|].
  apply (remove_keeps_versions 0 8 64 sample_sizes (fun _ => trie.blank) 5 sample_layout 9 0 [97] c sample_db sample_pages sample_map
    c' d' sample_root sample_pages sample_map
    (proj1 sample_holds) S V ltac:(forall_lia) sample_fits sample_values_fit ltac:(done) Ro E' sample_rep).
  intros x [->|[->| ->]]; split; simpl; try lia; done.
Defined.

Lemma drain_empties_witness : exists d',
  (c ← first_key (d_heap sample_db) (d_root sample_db) 9 fresh_cursor;
   drain 0 8 64 sample_sizes (fun _ => trie.blank) 5 3 9 c sample_db) = Some d' /\ d_root d' = 0.
Proof.
  apply (drain_empties 0 8 64 sample_sizes (fun _ => trie.blank) 5 sample_layout 9 3 fresh_cursor sample_db sample_pages sample_map
    [[97]; [97; 98]] (proj1 sample_holds) sample_listing ltac:(done) sample_fits sample_values_fit).
  - by apply sample_roomy.
  - simpl. lia.
Defined.

(** ** The empty key *)

Definition empty_db : @triewrite.db Z := Db (fun _ => Page 0 0 0 (OTrie trie.blank)) 0 1.

(** Operations one after the other on one cursor. *)
Definition put_next (key : list Z) (st : option (cursor * @triewrite.db Z)) : option (cursor * @triewrite.db Z) :=
  '(c, d) ← st; put 0 8 64 sample_sizes (fun _ => trie.blank) (fun _ => trie.blank_leaf) 5 plain 9 1 key [120] c d.
Definition find_next (key : list Z) (st : option (cursor * @triewrite.db Z)) : option (cursor * @triewrite.db Z) :=
  '(c, d) ← st; c ← find_key plain (d_heap d) (d_root d) 9 key c; Some (c, d).
Definition remove_next (st : option (cursor * @triewrite.db Z)) : option (cursor * @triewrite.db Z) :=
  '(c, d) ← st; remove 0 8 64 sample_sizes (fun _ => trie.blank) 5 9 c d.
Definition where_next (st : option (cursor * @triewrite.db Z)) : option (bool * list Z) :=
  '(c, d) ← st; Some (is_valid (d_heap d) (d_root d) c, cur (trie.keys c)).

(** the condition on the empty key is needed. In the trie of the empty key, [b] and
    [c], a cursor that has visited [c] loses its position when it removes the empty
    key, although [b] is the next key: the root has no prefix, so [next] does not
    start at the first branch but behind the one taken last. *)
Theorem remove_empty_key_loses_position :
  let three := put_next [99] (put_next [98] (put_next [] (Some (fresh_cursor, empty_db)))) in
  where_next (find_next [] three) = Some (true, []) /\
  where_next (remove_next (find_next [] three)) = Some (false, []) /\
  where_next (find_next [98] (remove_next (find_next [] three))) = Some (true, [98]).
Proof. cbv zeta. split_and!; vm_compute; reflexivity. Qed.
End trieremove.
