(* ===== verification/Bytes.v ===== *)
(** * Bytes: integers as byte strings

    Models the fixed-width integers of [core/_port.hpp], lines 722-744: a value is
    stored least significant byte first, or most significant byte first where the
    byte order of the stored form has to be the order of the numbers. *)
From S2P Require Import Prelude Util.

Module bytes.
Import util.
#[local] Ltac Zify.zify_post_hook ::= Z.to_euclidean_division_equations.

(** [_little_uint64_t], [_little_uint32_t] and the integers of a little-endian host,
    with [n] bytes. *)
Fixpoint le_bytes (n : nat) (x : Z) : list Z :=
  match n with O => [] | S n => x mod 256 :: le_bytes n (x / 256) end.

Fixpoint le_value (l : list Z) : Z := match l with [] => 0 | b :: l => b + 256 * le_value l end.

(** [_big_uint64_t] *)
Definition be_bytes (n : nat) (x : Z) : list Z := rev (le_bytes n x).
Definition be_value (l : list Z) : Z := le_value (rev l).

Lemma le_bytes_length n x : length (le_bytes n x) = n.
Proof. revert x. induction n as [|n IH]; intros x; simpl; [done|by rewrite IH]. Qed.

Lemma be_bytes_length n x : length (be_bytes n x) = n.
Proof. unfold be_bytes. by rewrite length_rev, le_bytes_length. Qed.

Lemma le_bytes_bytes n x : byte_list (le_bytes n x).
Proof. revert x. induction n as [|n IH]; intros x; simpl; [constructor|]. constructor; [lia|apply IH]. Qed.

Lemma be_bytes_bytes n x : byte_list (be_bytes n x).
Proof. unfold be_bytes, byte_list. apply Forall_rev, le_bytes_bytes. Qed.

Lemma pow256_S n : 256 ^ Z.of_nat (S n) = 256 * 256 ^ Z.of_nat n.
Proof. rewrite Nat2Z.inj_succ, Z.pow_succ_r by lia. done. Qed.

Lemma le_value_bytes n x : 0 <= x < 256 ^ Z.of_nat n -> le_value (le_bytes n x) = x.
Proof.
  revert x. induction n as [|n IH]; intros x Hx; [simpl in *; lia|]. rewrite pow256_S in Hx. cbn [le_bytes le_value].
  rewrite IH; [lia|]. split; [lia|]. apply Z.div_lt_upper_bound; lia.
Qed.

Lemma be_value_bytes n x : 0 <= x < 256 ^ Z.of_nat n -> be_value (be_bytes n x) = x.
Proof. unfold be_value, be_bytes. rewrite rev_involutive. apply le_value_bytes. Qed.

Lemma le_value_range l : byte_list l -> 0 <= le_value l < 256 ^ Z.of_nat (length l).
Proof.
  induction 1 as [|b l Hb Hl IH]; cbn [le_value length]; [simpl; lia|]. rewrite pow256_S. nia.
Qed.

Lemma le_bytes_value l : byte_list l -> le_bytes (length l) (le_value l) = l.
Proof.
  induction 1 as [|b l Hb Hl IH]; cbn [le_value length le_bytes]; [done|].
  replace ((b + 256 * le_value l) mod 256) with b by (rewrite Z.mul_comm, Z_mod_plus_full; lia).
  replace ((b + 256 * le_value l) / 256) with (le_value l) by (rewrite Z.mul_comm, Z_div_plus_full by lia; lia). by rewrite IH.
Qed.

Lemma be_bytes_value l : byte_list l -> be_bytes (length l) (be_value l) = l.
Proof.
  intros Hl. unfold be_bytes, be_value. rewrite <- (length_rev l), le_bytes_value by by apply Forall_rev. apply rev_involutive.
Qed.

(** The stored form most significant byte first compares like the numbers. *)
Lemma be_bytes_S n x : be_bytes (S n) x = be_bytes n (x / 256) ++ [x mod 256].
Proof. done. Qed.

Lemma lex_snoc a b x y : length a = length b -> lex (a ++ [x]) (b ++ [y]) = if lex a b =? 0 then lex [x] [y] else lex a b.
Proof.
  revert b. induction a as [|u a IH]; intros [|v b]; cbn [length app lex]; try lia; [done|]. intros [= E].
  destruct (u <? v); [done|]. destruct (v <? u); [done|]. by apply IH.
Qed.

Lemma lex_be_bytes n x y : 0 <= x -> 0 <= y -> x < y -> y < 256 ^ Z.of_nat n -> lex (be_bytes n x) (be_bytes n y) < 0.
Proof.
  revert x y. induction n as [|n IH]; intros x y Hx Hy Hlt Hn; [simpl in Hn; lia|]. rewrite pow256_S in Hn.
  rewrite !be_bytes_S, lex_snoc by by rewrite !be_bytes_length.
  destruct (Z.lt_ge_cases (x / 256) (y / 256)) as [H|H].
  - pose proof (IH (x / 256) (y / 256) ltac:(lia) ltac:(lia) H ltac:(apply Z.div_lt_upper_bound; lia)) as L.
    destruct (Z.eqb_spec (lex (be_bytes n (x / 256)) (be_bytes n (y / 256))) 0); lia.
  - assert (x / 256 = y / 256) as E by (pose proof (Z.div_le_mono x y 256); lia). rewrite E.
    rewrite lex_refl.
    cbn [Z.eqb lex]. assert (x mod 256 < y mod 256) as Hm by lia. apply Z.ltb_lt in Hm. rewrite Hm. lia.
Qed.

End bytes.
