(* ===== verification/BigMem.v ===== *)
(** * BigMem: memory for big values

    Models [memory/_bigmemory.hpp]. A value that does not fit into a leaf is stored in
    a chunk. A chunk starts with its header, a [_FreeKey] of its size and offset; the
    lowest bit of the offset says that another chunk follows in the same area. The
    free chunks are the keys of a trie, ordered by size; the value of a key is the id
    of the transaction that freed the chunk. One chunk, the hot one, is kept outside
    of the trie and cut from the front. [defrag] merges free neighbours.

    The trie and its cursors are the interface [FreeMap], the storage the interface
    [AreaSource]. The memory of the chunks is a function from offsets to bytes. A
    failed assertion is [None], like a full storage. *)
From S2P Require Import Prelude Util Bytes.

(** A map with cursors: [D] the map, [C] a cursor in it. *)
Class FreeMap (D C : Type) := {
  fm_fresh : C;
  fm_find : list Z -> D -> C -> option C;
  fm_first : D -> C -> option C;
  fm_next : D -> C -> option C;
  fm_valid : D -> C -> bool;
  fm_key : C -> list Z;
  fm_value : D -> C -> list Z;
  fm_put : list Z -> D -> C -> option (D * C);
  fm_remove : D -> C -> option (D * C)
}.

(** Areas of several units: the offset and the size of a new one, the bytes that are
    still to come. *)
Class AreaSource (S : Type) := {
  alloc_multi_area : Z -> S -> option (Z * Z * S);
  unclaimed : S -> Z -> Prop
}.

Module bigmem.
Export bytes.
Import util.

(** [_FreeKey], [_BigValue] *)
Record free_key := FreeKey { fk_size : Z; fk_offset : Z }.
Record big_value := BigValue { chunk_offset : Z; value_size : Z }.

(** [sizeof(_FreeKey)] and the bytes of a key. *)
Definition FREE_KEY : Z := 16.
Definition key_bytes (k : free_key) : list Z := be_bytes 8 (fk_size k) ++ le_bytes 8 (fk_offset k).
Definition key_of (l : list Z) : free_key := FreeKey (be_value (take 8 l)) (le_value (take 8 (drop 8 l))).

(** The offset and the successor bit of a key. *)
Definition no_flag (o : Z) : Z := Z.land o (Z.lnot 1).
Definition has_flag (o : Z) : bool := negb (Z.land o 1 =? 0).
Definition with_flag (o : Z) (succ : bool) : Z := Z.lor o (if succ then 1 else 0).

(** Memory *)
Definition read_bytes (o n : Z) (m : Z -> Z) : list Z := map m (seqZ o n).
Definition write_bytes (o : Z) (l : list Z) (m : Z -> Z) : Z -> Z := fun x =>
  if o <=? x then match l !! Z.to_nat (x - o) with Some b => b | None => m x end else m x.
Definition header_bytes (o : Z) (m : Z -> Z) : list Z := read_bytes o FREE_KEY m.
Definition read_header (o : Z) (m : Z -> Z) : free_key := key_of (header_bytes o m).
Definition write_header (o : Z) (k : free_key) (m : Z -> Z) : Z -> Z := write_bytes o (key_bytes k) m.

(** [ValueBlock] *)
Definition block_bytes (txn_id : Z) : list Z := le_bytes 4 txn_id.

Section with_interfaces.
Context {D C S : Type} `{FM : FreeMap D C} `{AS : AreaSource S}.
Context (AREA_SIZE AREA_HEADER MAX_PAGE_SIZE : Z).
(** [may_recycle] and the id that [mark_for_recycle] stores. *)
Context (may_recycle : Z -> bool) (stamp : Z).

(** The trie of free chunks with its cursor, the hot chunk, the memory, the storage. *)
Record state := State {
  free_trie : D;
  free_cursor : C;
  hot_offset : Z;
  hot_size : Z;
  hot_successor : bool;
  mem : Z -> Z;
  storage : S
}.

Definition set_free (d : D) (c : C) (st : state) : state :=
  State d c (hot_offset st) (hot_size st) (hot_successor st) (mem st) (storage st).
Definition set_hot (o n : Z) (succ : bool) (st : state) : state :=
  State (free_trie st) (free_cursor st) o n succ (mem st) (storage st).
Definition set_mem (m : Z -> Z) (st : state) : state :=
  State (free_trie st) (free_cursor st) (hot_offset st) (hot_size st) (hot_successor st) m (storage st).
Definition set_storage (s : S) (st : state) : state :=
  State (free_trie st) (free_cursor st) (hot_offset st) (hot_size st) (hot_successor st) (mem st) s.

(** The id in the block of the entry at a cursor. *)
Definition recyclable (d : D) (c : C) : bool := may_recycle (le_value (fm_value d c)).

(** [modify_size]: how much of a leaf a value takes. *)
Definition modify_size (HEADER_SIZE key size big_inline_size : Z) : Z :=
  let key := Z.land key 255 in
  if MAX_PAGE_SIZE <? HEADER_SIZE + size + key then big_inline_size else u16 size.

Definition add_chunk (offset size : Z) (has_successor freed : bool) (st : state) : option state :=
  let offset_val := with_flag (no_flag offset) has_successor in
  c ← fm_find (key_bytes (FreeKey size offset_val)) (free_trie st) (free_cursor st);
  if fm_valid (free_trie st) c then None
  else
    '(d, c) ← fm_put (block_bytes (if freed then stamp else 0)) (free_trie st) c;
    Some (set_free d c st).

(** The candidates [alloc] looks at. *)
Fixpoint search (n : nat) (d : D) (c : C) : option (bool * C) :=
  match n with
  | O => Some (false, c)
  | Datatypes.S n =>
      if fm_valid d c then
        if recyclable d c then Some (true, c) else c ← fm_next d c; search n d c
      else Some (false, c)
  end.

(** The header of the chunk at [o] and the value that refers to it. *)
Definition finish (o n : Z) (has_successor : bool) (size : Z) (st : state) : state * big_value :=
  (set_mem (write_header o (FreeKey n (with_flag o has_successor)) (mem st)) st,
   BigValue (o + FREE_KEY) (u32 size)).

(** A chunk from the trie or from a new area: offset, size, successor bit. *)
Definition find_chunk (padded_size : Z) (st : state) : option (Z * Z * bool * state) :=
  c ← fm_find (key_bytes (FreeKey padded_size 0)) (free_trie st) (free_cursor st);
  c ← fm_next (free_trie st) c;
  '(found, c) ← search 10 (free_trie st) c;
  if (found : bool) then
    let k := key_of (fm_key c) in
    if fk_size k <? padded_size then None
    else
      '(d, c) ← fm_remove (free_trie st) c;
      Some (no_flag (fk_offset k), fk_size k, has_flag (fk_offset k), set_free d c st)
  else
    '(o, n, s) ← alloc_multi_area (padding (padded_size + AREA_HEADER) AREA_SIZE) (storage st);
    Some (o + AREA_HEADER, o + n - (o + AREA_HEADER), false, set_free (free_trie st) c (set_storage s st)).

Definition alloc (size : Z) (st : state) : option (state * big_value) :=
  let total_size := u64 (FREE_KEY + size) in
  let padded_size := padding total_size MAX_PAGE_SIZE in
  if padded_size <=? hot_size st then
    let found_offset := hot_offset st in
    let left := hot_size st - padded_size in
    let '(has_successor, st) :=
      if left =? 0 then (hot_successor st, set_hot 0 0 false st)
      else (true, set_hot (found_offset + padded_size) left (hot_successor st) st) in
    Some (finish found_offset padded_size has_successor size st)
  else
    '(found_offset, found_size, has_successor, st) ← find_chunk padded_size st;
    let delta := found_size - padded_size in
    if MAX_PAGE_SIZE <=? delta then
      st ← (if 0 <? hot_size st then add_chunk (hot_offset st) (hot_size st) (hot_successor st) false st else Some st);
      let st := set_hot (found_offset + padded_size) delta has_successor st in
      Some (finish found_offset padded_size true size st)
    else Some (finish found_offset found_size has_successor size st).

Definition free (bvalue : big_value) (st : state) : option state :=
  let k := read_header (chunk_offset bvalue - FREE_KEY) (mem st) in
  add_chunk (no_flag (fk_offset k)) (fk_size k) (has_flag (fk_offset k)) true st.

(** ** Merging free chunks *)

(** The map with [lookup_cursor], the size of the merged chunk, whether another one
    follows it, whether something was merged. *)
Record run := Run { r_trie : D; r_cursor : C; total_size : Z; has_successor : bool; found_mergeable : bool }.

(** The inner loop of [defrag]; [None] also when [n] rounds are not enough. *)
Fixpoint merge (n : nat) (current_offset : Z) (m : Z -> Z) (r : run) : option run :=
  match n with
  | O => None
  | Datatypes.S n =>
      if negb (has_successor r) then Some r
      else
        let next_offset := current_offset + total_size r in
        let next_key := read_header next_offset m in
        c ← fm_find (header_bytes next_offset m) (r_trie r) (r_cursor r);
        let stop := Some (Run (r_trie r) c (total_size r) (has_successor r) (found_mergeable r)) in
        if negb (fm_valid (r_trie r) c) then stop
        else if negb (recyclable (r_trie r) c) then stop
        else
          '(d, c) ← fm_remove (r_trie r) c;
          merge n current_offset m
            (Run d c (total_size r + fk_size next_key) (has_flag (fk_offset next_key)) true)
  end.

(** The outer loop, with [iter_cursor] and [lookup_cursor]. *)
Fixpoint defrag_loop (n fuel : nat) (d : D) (m : Z -> Z) (iter lookup : C) : option (D * (Z -> Z)) :=
  match n with
  | O => None
  | Datatypes.S n =>
      if negb (fm_valid d iter) then Some (d, m)
      else if negb (recyclable d iter) then iter ← fm_next d iter; defrag_loop n fuel d m iter lookup
      else
        let current_vblock := fm_value d iter in
        let current_key := key_of (fm_key iter) in
        let current_offset := no_flag (fk_offset current_key) in
        r ← merge fuel current_offset m
              (Run d lookup (fk_size current_key) (has_flag (fk_offset current_key)) false);
        if found_mergeable r then
          let merged_key := FreeKey (total_size r) (with_flag (no_flag current_offset) (has_successor r)) in
          let m := write_header current_offset merged_key m in
          c ← fm_find (key_bytes current_key) (r_trie r) (r_cursor r);
          if negb (fm_valid (r_trie r) c) then None
          else
            '(d, c) ← fm_remove (r_trie r) c;
            c ← fm_find (key_bytes merged_key) d c;
            if fm_valid d c then None
            else
              '(d, c) ← fm_put current_vblock d c;
              iter ← fm_first d iter;
              defrag_loop n fuel d m iter c
        else iter ← fm_next d iter; defrag_loop n fuel d m iter (r_cursor r)
  end.

Definition defrag (n fuel : nat) (st : state) : option state :=
  st ← (if 0 <? hot_size st then
          st ← add_chunk (hot_offset st) (hot_size st) (hot_successor st) false st;
          Some (set_hot 0 0 false st)
        else Some st);
  iter ← fm_first (free_trie st) fm_fresh;
  '(d, m) ← defrag_loop n fuel (free_trie st) (mem st) iter fm_fresh;
  Some (set_mem m (set_free d (free_cursor st) st)).

End with_interfaces.
End bigmem.
