(* ===== verification/BigMemFacts.v ===== *)
(** * BigMemFacts: the chunks of big values tile their areas

    Chunks in use, free chunks and the hot chunk never overlap and lie in areas that
    were handed out. Allocation, release and defragmentation keep that, lose no byte,
    and take only chunks whose transaction no reader can see any more. The trie is
    used through the laws of [FreeMapLaws]. *)
From Stdlib Require Import Sorted.
From S2P Require Import Prelude Util Bytes BigMem.

Module bigmemfacts.
Export bigmem.
Import util.
#[local] Ltac Zify.zify_post_hook ::= Z.to_euclidean_division_equations.

(** ** Chunks and their keys *)

Record chunk := Chunk { c_off : Z; c_size : Z; c_succ : bool }.

Definition chunk_key (c : chunk) : free_key := FreeKey (c_size c) (with_flag (c_off c) (c_succ c)).
Definition ckey (c : chunk) : list Z := key_bytes (chunk_key c).

Record chunk_ok (c : chunk) : Prop := {
  ck_pos : 0 < c_off c;
  ck_even : c_off c mod 2 = 0;
  ck_size : FREE_KEY <= c_size c;
  ck_end : c_off c + c_size c < 2 ^ 64
}.

Lemma with_flag_even o b : o mod 2 = 0 -> with_flag o b = o + (if b then 1 else 0).
Proof.
  intros E. unfold with_flag. destruct b; [|by rewrite Z.lor_0_r, Z.add_0_r].
  rewrite <- Z.add_nocarry_lor; [done|]. change (Z.land o 1) with (Z.land o (Z.ones 1)). rewrite Z.land_ones by done. change (2 ^ 1) with 2. by rewrite E.
Qed.

Lemma has_flag_with o b : o mod 2 = 0 -> has_flag (with_flag o b) = b.
Proof.
  intros E. rewrite with_flag_even by done. unfold has_flag. change 1 with (Z.ones 1) at 2. rewrite Z.land_ones by done.
  change (2 ^ 1) with 2. destruct b; [|by rewrite Z.add_0_r, E]. replace ((o + 1) mod 2) with 1 by lia. done.
Qed.

Lemma no_flag_eq o : no_flag o = o - o mod 2.
Proof.
  unfold no_flag. change 1 with (Z.ones 1). rewrite <- Z.ldiff_land, Z.ldiff_ones_r by done.
  rewrite Z.shiftr_div_pow2, Z.shiftl_mul_pow2 by done. change (2 ^ 1) with 2. lia.
Qed.

Lemma no_flag_with o b : o mod 2 = 0 -> no_flag (with_flag o b) = o.
Proof. intros E. rewrite with_flag_even, no_flag_eq by done. destruct b; lia. Qed.

Lemma no_flag_even o : o mod 2 = 0 -> no_flag o = o.
Proof. intros E. rewrite no_flag_eq. lia. Qed.

Lemma key_bytes_length k : length (key_bytes k) = 16%nat.
Proof. unfold key_bytes. by rewrite length_app, be_bytes_length, le_bytes_length. Qed.

Lemma key_bytes_bytes k : byte_list (key_bytes k).
Proof. unfold key_bytes. apply Forall_app. split; [apply be_bytes_bytes|apply le_bytes_bytes]. Qed.

(** Keys are read back as they were written. *)
Lemma key_of_bytes k : 0 <= fk_size k < 2 ^ 64 -> 0 <= fk_offset k < 2 ^ 64 -> key_of (key_bytes k) = k.
Proof.
  intros H1 H2. destruct k as [n o]. unfold key_of, key_bytes. cbn [fk_size fk_offset] in *.
  rewrite take_app_length', drop_app_length' by by rewrite be_bytes_length.
  rewrite firstn_all2 by (rewrite le_bytes_length; lia). f_equal; [apply be_value_bytes|apply le_value_bytes]; done.
Qed.

Lemma chunk_key_range c : chunk_ok c -> 0 <= fk_size (chunk_key c) < 2 ^ 64 /\ 0 <= fk_offset (chunk_key c) < 2 ^ 64.
Proof.
  intros [H1 H2 H3 H4]. unfold FREE_KEY in *. cbn [chunk_key fk_size fk_offset]. rewrite with_flag_even by done.
  destruct (c_succ c); lia.
Qed.

Lemma key_of_ckey c : chunk_ok c -> key_of (ckey c) = chunk_key c.
Proof. intros Ok. apply key_of_bytes; by apply chunk_key_range. Qed.

(** What the code reads off the key of a chunk. *)
Lemma chunk_key_reads c : chunk_ok c ->
  fk_size (chunk_key c) = c_size c /\ no_flag (fk_offset (chunk_key c)) = c_off c /\ has_flag (fk_offset (chunk_key c)) = c_succ c.
Proof.
  intros [H1 H2 H3 H4]. cbn [chunk_key fk_size fk_offset]. by rewrite no_flag_with, has_flag_with.
Qed.

Lemma ckey_inj c c' : chunk_ok c -> chunk_ok c' -> ckey c = ckey c' -> c = c'.
Proof.
  intros H H' E. assert (chunk_key c = chunk_key c') as E' by (rewrite <- !key_of_ckey by done; by rewrite E).
  destruct (chunk_key_reads c H) as (R1 & R2 & R3), (chunk_key_reads c' H') as (R1' & R2' & R3').
  rewrite E' in *. destruct c, c'. cbn [c_off c_size c_succ] in *. congruence.
Qed.

Lemma lex_head a b x y : length a = length b -> lex a b < 0 -> lex (a ++ x) (b ++ y) < 0.
Proof.
  revert b. induction a as [|u a IH]; intros [|v b]; cbn [length app lex]; try lia.
  intros [= E]. destruct (u <? v); [done|]. destruct (v <? u); [done|]. by apply IH.
Qed.

(** Smaller chunks come first. *)
Lemma ckey_below c n o : chunk_ok c -> c_size c < n -> n < 2 ^ 64 -> lex (ckey c) (key_bytes (FreeKey n o)) < 0.
Proof.
  intros [_ _ H _] H1 H2. unfold FREE_KEY in H. apply lex_head; [by rewrite !be_bytes_length|]. cbn [chunk_key fk_size].
  apply lex_be_bytes; try lia.
Qed.

(** ** Memory *)

Lemma read_bytes_lookup o n m i : 0 <= n -> read_bytes o n m !! i = if decide (Z.of_nat i < n) then Some (m (o + Z.of_nat i)) else None.
Proof.
  intros Hn. unfold read_bytes. rewrite list_lookup_fmap. destruct (decide _).
  - rewrite lookup_seqZ_lt by lia. done.
  - rewrite lookup_seqZ_ge by lia. done.
Qed.

Lemma read_written o l m : read_bytes o (Z.of_nat (length l)) (write_bytes o l m) = l.
Proof.
  apply list_eq. intros i. rewrite read_bytes_lookup by lia. destruct (decide _) as [H|H].
  - unfold write_bytes. destruct (Z.leb_spec o (o + Z.of_nat i)); [|lia]. replace (Z.to_nat (o + Z.of_nat i - o)) with i by lia.
    destruct (lookup_lt_is_Some_2 l i ltac:(lia)) as [b ->]. done.
  - symmetry. apply lookup_ge_None_2. lia.
Qed.

Lemma read_unwritten o n o' l m : 0 <= n -> o' + Z.of_nat (length l) <= o \/ o + n <= o' ->
  read_bytes o n (write_bytes o' l m) = read_bytes o n m.
Proof.
  intros Hn H. apply list_eq. intros i. rewrite !read_bytes_lookup by done. destruct (decide _) as [Hi|Hi]; [|done]. f_equal.
  unfold write_bytes. destruct (Z.leb_spec o' (o + Z.of_nat i)); [|done]. rewrite lookup_ge_None_2; [done|]. lia.
Qed.

Lemma header_written o k m : header_bytes o (write_header o k m) = key_bytes k.
Proof.
  unfold header_bytes, write_header. replace FREE_KEY with (Z.of_nat (length (key_bytes k))) by by rewrite key_bytes_length.
  apply read_written.
Qed.

Lemma header_unwritten o o' k m : o' + FREE_KEY <= o \/ o + FREE_KEY <= o' -> header_bytes o (write_header o' k m) = header_bytes o m.
Proof. intros H. apply read_unwritten; [done|]. by rewrite key_bytes_length. Qed.

(** ** Tilings *)

Definition range (c : chunk) : Z * Z := (c_off c, c_off c + c_size c).
Definition apart (c c' : chunk) : Prop := disjoint (range c) (range c').

#[export] Instance apart_sym : Symmetric apart.
Proof. intros c c' H x Hx Hx'. by apply (H x). Qed.

Lemma apart_bounds c c' : chunk_ok c -> chunk_ok c' -> apart c c' -> c_off c + c_size c <= c_off c' \/ c_off c' + c_size c' <= c_off c.
Proof.
  intros [_ _ H1 _] [_ _ H2 _] H. unfold FREE_KEY in *. destruct (Z.le_gt_cases (c_off c + c_size c) (c_off c')); [by left|].
  destruct (Z.le_gt_cases (c_off c' + c_size c') (c_off c)); [by right|]. exfalso.
  apply (H (Z.max (c_off c) (c_off c'))); cbn [range fst snd]; lia.
Qed.

Lemma bounds_apart c c' : c_off c + c_size c <= c_off c' \/ c_off c' + c_size c' <= c_off c -> apart c c'.
Proof. intros H x Hx Hx'. cbn [range fst snd] in *. lia. Qed.

(** Chunks that do not overlap; a chunk with the successor bit has a successor. *)
Record tiles (l : list chunk) : Prop := {
  ti_ok : Forall chunk_ok l;
  ti_apart : pairwise apart l;
  ti_succ : forall c, c ∈ l -> c_succ c = true -> exists c', c' ∈ l /\ c_off c' = c_off c + c_size c
}.

#[export] Instance tiles_proper : Proper ((≡ₚ) ==> iff) tiles.
Proof.
  assert (forall l k, l ≡ₚ k -> tiles l -> tiles k) as H; [|by intros l k E; split; apply H].
  intros l k E [H1 H2 H3]. split; [by rewrite <- E|by rewrite <- E|]. intros c. rewrite <- E. intros Hc Hs.
  destruct (H3 c Hc Hs) as (c' & Hc' & Eo). exists c'. by rewrite <- E.
Qed.

(** The bytes of the chunks. *)
Definition span (l : list chunk) (x : Z) : Prop := exists c, c ∈ l /\ c_off c <= x < c_off c + c_size c.

#[export] Instance span_proper : Proper ((≡ₚ) ==> eq ==> iff) span.
Proof. intros l k E x ? <-. unfold span. by setoid_rewrite E. Qed.

Lemma span_cons c l x : span (c :: l) x <-> c_off c <= x < c_off c + c_size c \/ span l x.
Proof. unfold span. setoid_rewrite list.elem_of_cons. naive_solver. Qed.

Lemma span_app l k x : span (l ++ k) x <-> span l x \/ span k x.
Proof. unfold span. setoid_rewrite elem_of_app. naive_solver. Qed.

Lemma tiles_chunk l c : tiles l -> c ∈ l -> chunk_ok c.
Proof. intros [H _ _] Hc. rewrite list.Forall_forall in H. by apply H. Qed.

(** Two chunks of a tiling, one of them at the head. *)
Lemma tiles_head c l c' : tiles (c :: l) -> c' ∈ l -> c_off c + c_size c <= c_off c' \/ c_off c' + c_size c' <= c_off c.
Proof.
  intros T Hc'. pose proof T as [_ [Ha _] _]. rewrite list.Forall_forall in Ha.
  apply apart_bounds; [eapply tiles_chunk; [done|by left]|eapply tiles_chunk; [done|by right]|by apply Ha].
Qed.

Lemma tiles_unique l c c' : tiles l -> c ∈ l -> c' ∈ l -> c_off c = c_off c' -> c = c'.
Proof.
  intros T Hc Hc' E. apply elem_of_Permutation in Hc as [k P]. rewrite P in T, Hc'.
  apply list.elem_of_cons in Hc' as [->|Hc']; [done|]. exfalso. pose proof (tiles_head _ _ _ T Hc') as Hb.
  pose proof (ck_size c (tiles_chunk _ _ T ltac:(left))). pose proof (ck_size c' (tiles_chunk _ _ T ltac:(by right))).
  unfold FREE_KEY in *. lia.
Qed.

(** The ranges are all that a tiling says about offsets and sizes. *)
Lemma tiles_new c l : tiles l -> chunk_ok c -> (forall x, c_off c <= x < c_off c + c_size c -> ~ span l x) ->
  (c_succ c = true -> exists c', c' ∈ l /\ c_off c' = c_off c + c_size c) -> tiles (c :: l).
Proof.
  intros [H1 H2 H3] Ok Hd Hs. split; [by constructor|split; [|done]|].
  - rewrite list.Forall_forall. intros c' Hc' x Hx Hx'. apply (Hd x Hx). by exists c'.
  - intros c0 [->|Hc]%list.elem_of_cons Hs0.
    + destruct (Hs Hs0) as (c' & ? & ?). exists c'. split; [by right|done].
    + destruct (H3 c0 Hc Hs0) as (c' & ? & ?). exists c'. split; [by right|done].
Qed.

(** Cutting a chunk in two and joining two chunks. *)
Lemma tiles_split o a b s l : tiles (Chunk o (a + b) s :: l) -> FREE_KEY <= a -> FREE_KEY <= b -> a mod 2 = 0 ->
  tiles (Chunk o a true :: Chunk (o + a) b s :: l).
Proof.
  intros [H1 [H2 H3] H4] Ha Hb He. apply list.Forall_cons in H1 as [[K1 K2 K3 K4] H1]. cbn [c_off c_size] in *. unfold FREE_KEY in *.
  split.
  - constructor; [|constructor; [|done]]; split; cbn [c_off c_size]; unfold FREE_KEY; lia.
  - rewrite list.Forall_forall in H2. split; [constructor|split].
    + apply bounds_apart. cbn [c_off c_size]. lia.
    + rewrite list.Forall_forall. intros c Hc x Hx. apply (H2 c Hc x). cbn [range fst snd c_off c_size] in *. lia.
    + rewrite list.Forall_forall. intros c Hc x Hx. apply (H2 c Hc x). cbn [range fst snd c_off c_size] in *. lia.
    + done.
  - intros c [->|[->|Hc]%list.elem_of_cons]%list.elem_of_cons Hs; cbn [c_off c_size c_succ] in *.
    + exists (Chunk (o + a) b s). split; [right; left|done].
    + destruct (H4 (Chunk o (a + b) s) ltac:(left) Hs) as (c' & [->|Hc']%list.elem_of_cons & E); cbn [c_off c_size] in *; [lia|].
      exists c'. split; [by do 2 right|lia].
    + destruct (H4 c ltac:(by right) Hs) as (c' & [->|Hc']%list.elem_of_cons & E); cbn [c_off c_size] in *.
      * exists (Chunk o a true). split; [left|done].
      * exists c'. split; [by do 2 right|done].
Qed.

Lemma tiles_join o a b s s1 l : tiles (Chunk o a s1 :: Chunk (o + a) b s :: l) -> tiles (Chunk o (a + b) s :: l).
Proof.
  intros T. pose proof T as [H1 [H2 [H3 H4]] H5]. apply list.Forall_cons in H1 as [[K1 K2 K3 K4] [[L1 L2 L3 L4] H1]%list.Forall_cons].
  cbn [c_off c_size] in *. unfold FREE_KEY in *. apply list.Forall_cons in H2 as [_ H2]. rewrite list.Forall_forall in H2, H3. split.
  - constructor; [|done]. split; cbn [c_off c_size]; unfold FREE_KEY; lia.
  - split; [|done]. rewrite list.Forall_forall. intros c Hc x Hx Hx'. cbn [range fst snd c_off c_size] in Hx.
    destruct (Z.lt_ge_cases x (o + a)).
    + apply (H2 c Hc x); [|done]. cbn [range fst snd c_off c_size]. lia.
    + apply (H3 c Hc x); [|done]. cbn [range fst snd c_off c_size]. lia.
  - intros c [->|Hc]%list.elem_of_cons Hs; cbn [c_off c_size c_succ] in *.
    + destruct (H5 (Chunk (o + a) b s) ltac:(right; left) Hs) as (c' & [->|[->|Hc']%list.elem_of_cons]%list.elem_of_cons & E);
        cbn [c_off c_size] in *; [lia|lia|]. exists c'. split; [by right|lia].
    + destruct (H5 c ltac:(by do 2 right) Hs) as (c' & [->|[->|Hc']%list.elem_of_cons]%list.elem_of_cons & E); cbn [c_off c_size] in *.
      * exists (Chunk o (a + b) s). split; [left|done].
      * exfalso. pose proof (tiles_head _ _ c T ltac:(by right)) as Hb. rewrite list.Forall_forall in H1.
        pose proof (ck_size c (H1 c Hc)). unfold FREE_KEY in *. cbn [c_off c_size] in *. lia.
      * exists c'. split; [by right|done].
Qed.

Lemma ckey_ok c : byte_list (ckey c) /\ length (ckey c) = 16%nat.
Proof. split; [apply key_bytes_bytes|apply key_bytes_length]. Qed.

(** A chunk is none of others that it is apart from. *)
Lemma apart_not_in c l : chunk_ok c -> Forall (apart c) l -> c ∉ l.
Proof.
  intros [_ _ H _] Ha Hc. rewrite list.Forall_forall in Ha. unfold FREE_KEY in H.
  apply (Ha c Hc (c_off c)); cbn [range fst snd]; lia.
Qed.

(** The chunks beside one of them. *)
Lemma beside c l : tiles (c :: l) -> chunk_ok c /\ Forall chunk_ok l /\ Forall (apart c) l.
Proof. intros [H1 [H2 _] _]. by apply list.Forall_cons in H1 as [? ?]. Qed.

Lemma tiles_key c l c' : tiles (c :: l) -> c' ∈ l -> ckey c' <> ckey c.
Proof.
  intros Ti Hc' E. destruct (beside _ _ Ti) as (Oc & Ol & Ha). rewrite list.Forall_forall in Ol.
  apply ckey_inj in E as ->; [|by apply Ol|done]. by eapply apart_not_in.
Qed.

(** A header written into a chunk leaves those of the others. *)
Lemma headers_kept o k m c l : (forall c', c' ∈ l -> header_bytes (c_off c') m = ckey c') ->
  chunk_ok c -> c_off c = o -> Forall chunk_ok l -> Forall (apart c) l ->
  forall c', c' ∈ l -> header_bytes (c_off c') (write_header o k m) = ckey c'.
Proof.
  intros H Oc <- Ol Ha c' Hc'. rewrite list.Forall_forall in Ol, Ha. rewrite header_unwritten; [by apply H|].
  pose proof (apart_bounds c c' Oc (Ol _ Hc') (Ha _ Hc')) as Hb. destruct Oc as [_ _ Hs _], (Ol _ Hc') as [_ _ Hs' _]. lia.
Qed.

(** ** What the trie and the storage promise *)

(** The entries of the map. *)
Definition entries : Type := list Z -> option (list Z).
Definition put_key (q v : list Z) (m : entries) : entries := fun x => if decide (x = q) then Some v else m x.
Definition del_key (q : list Z) (m : entries) : entries := fun x => if decide (x = q) then None else m x.

(** [q'] is the least key of [m] that satisfies [P]. *)
Record least (P : list Z -> Prop) (m : entries) (q' : list Z) : Prop := {
  le_in : is_Some (m q');
  le_holds : P q';
  le_least : forall q, byte_list q -> is_Some (m q) -> P q -> q = q' \/ lex q' q < 0
}.

(** Maps of keys of 16 bytes to values of four. [fm_rep n d m]: [d] holds [m], and
    there is room for [n] more changes. A cursor is ready for a search; it has
    searched for a key ([fm_found]); or it is on a key of the map ([fm_on]). *)
Class FreeMapLaws (D C : Type) `{FreeMap D C} := {
  fm_rep : nat -> D -> entries -> Prop;
  fm_ready : D -> C -> entries -> Prop;
  fm_found : D -> C -> list Z -> entries -> Prop;
  fm_on : D -> C -> list Z -> entries -> Prop;
  rep_less a b d m : (a <= b)%nat -> fm_rep b d m -> fm_rep a d m;
  rep_value n d m q v : fm_rep n d m -> byte_list q -> m q = Some v -> byte_list v /\ length v = 4%nat;
  ready_fresh n d m : fm_rep n d m -> fm_ready d fm_fresh m;
  ready_found n d m c q : fm_rep n d m -> fm_found d c q m -> fm_ready d c m;
  ready_on n d m c q : fm_rep n d m -> fm_on d c q m -> fm_ready d c m;
  find_ok n d m c q : fm_rep n d m -> fm_ready d c m -> byte_list q -> length q = 16%nat ->
    exists c', fm_find q d c = Some c' /\ fm_found d c' q m;
  found_valid n d m c q : fm_rep n d m -> fm_found d c q m -> fm_valid d c = match m q with Some _ => true | None => false end;
  found_on n d m c q : fm_rep n d m -> fm_found d c q m -> is_Some (m q) -> fm_on d c q m;
  on_reads n d m c q : fm_rep n d m -> fm_on d c q m ->
    byte_list q /\ length q = 16%nat /\ fm_valid d c = true /\ fm_key c = q /\ m q = Some (fm_value d c);
  next_ok n d m c q : fm_rep n d m -> fm_found d c q m \/ fm_on d c q m ->
    exists c', fm_next d c = Some c' /\
      ((exists q', fm_on d c' q' m /\ least (fun x => lex q x < 0) m q') \/
       (fm_valid d c' = false /\ fm_ready d c' m /\ forall x, byte_list x -> is_Some (m x) -> ~ lex q x < 0));
  first_ok n d m c : fm_rep n d m ->
    exists c', fm_first d c = Some c' /\
      ((exists q', fm_on d c' q' m /\ least (fun _ => True) m q') \/
       (fm_valid d c' = false /\ forall x, byte_list x -> m x = None));
  put_ok n d m c q v : fm_rep (S n) d m -> fm_found d c q m -> byte_list v -> length v = 4%nat ->
    exists d' c', fm_put v d c = Some (d', c') /\ fm_rep n d' (put_key q v m) /\ fm_ready d' c' (put_key q v m);
  remove_ok n d m c q : fm_rep (S n) d m -> fm_on d c q m ->
    exists d' c', fm_remove d c = Some (d', c') /\ fm_rep n d' (del_key q m) /\ fm_ready d' c' (del_key q m)
}.

(** A new area is at least as large as asked for, and nobody has its bytes yet. *)
Class AreaLaws (S : Type) (AREA_SIZE : Z) `{AreaSource S} := {
  area_new n s o k s' : 0 < n -> alloc_multi_area n s = Some (o, k, s') ->
    0 < o /\ o mod AREA_SIZE = 0 /\ n <= k /\ k mod AREA_SIZE = 0 /\ o + k < 2 ^ 64 /\
    forall x, (o <= x < o + k -> unclaimed s x) /\ (unclaimed s' x -> unclaimed s x /\ ~ o <= x < o + k)
}.

Lemma put_key_eq q v m : put_key q v m q = Some v.
Proof. unfold put_key. by rewrite decide_True. Qed.
Lemma put_key_ne q v m x : x <> q -> put_key q v m x = m x.
Proof. intros. unfold put_key. by rewrite decide_False. Qed.
Lemma del_key_eq q m : del_key q m q = None.
Proof. unfold del_key. by rewrite decide_True. Qed.
Lemma del_key_ne q m x : x <> q -> del_key q m x = m x.
Proof. intros. unfold del_key. by rewrite decide_False. Qed.

Lemma block_bytes_ok i : byte_list (block_bytes i) /\ length (block_bytes i) = 4%nat.
Proof. split; [apply le_bytes_bytes|apply le_bytes_length]. Qed.

(** ** The free chunks *)

Section free_list.
Context {D C : Type} `{FM : FreeMap D C, !FreeMapLaws D C}.

(** The keys of the map are those of the chunks [F]. *)
Record free_list (n : nat) (d : D) (m : entries) (F : list chunk) : Prop := {
  fl_rep : fm_rep n d m;
  fl_keys : forall q, byte_list q -> is_Some (m q) <-> exists c, c ∈ F /\ q = ckey c
}.

#[export] Instance free_list_proper n d m : Proper ((≡ₚ) ==> iff) (free_list n d m).
Proof.
  assert (forall F k, F ≡ₚ k -> free_list n d m F -> free_list n d m k) as H; [|by intros F k E; split; apply H].
  intros F k E [H1 H2]. split; [done|]. intros q Hq. setoid_rewrite <- E. by apply H2.
Qed.

Lemma free_list_in n d m F c : free_list n d m F -> c ∈ F -> is_Some (m (ckey c)).
Proof. intros [_ H] Hc. apply H; [apply ckey_ok|]. by exists c. Qed.

Lemma free_list_less a b d m F : (a <= b)%nat -> free_list b d m F -> free_list a d m F.
Proof. intros Hab [H1 H2]. split; [by eapply rep_less|done]. Qed.

Lemma free_list_put n d d' m F c v : free_list (S n) d m F -> fm_rep n d' (put_key (ckey c) v m) ->
  free_list n d' (put_key (ckey c) v m) (c :: F).
Proof.
  intros [_ Hk] R. split; [done|]. intros q Hq. setoid_rewrite list.elem_of_cons. destruct (decide (q = ckey c)) as [->|Hne].
  - rewrite put_key_eq. split; [intros _; exists c; split; [by left|done]|by eexists].
  - rewrite put_key_ne, Hk by done. naive_solver.
Qed.

Lemma free_list_del n d d' m F c : free_list (S n) d m (c :: F) -> Forall chunk_ok (c :: F) -> c ∉ F ->
  fm_rep n d' (del_key (ckey c) m) -> free_list n d' (del_key (ckey c) m) F.
Proof.
  intros [_ Hk] Ok Hn R. split; [done|]. intros q Hq. rewrite list.Forall_cons, list.Forall_forall in Ok. destruct Ok as [Oc Ok].
  destruct (decide (q = ckey c)) as [->|Hne].
  - rewrite del_key_eq. split; [by intros []|]. intros (c' & Hc' & E). apply ckey_inj in E; [by subst|done|by apply Ok].
  - rewrite del_key_ne, Hk by done. setoid_rewrite list.elem_of_cons. naive_solver.
Qed.

(** The key of a chunk that overlaps no free one is not in the map. *)
Lemma fresh_key n d m F c : free_list n d m F -> chunk_ok c -> Forall chunk_ok F -> Forall (apart c) F -> m (ckey c) = None.
Proof.
  intros Fl Oc OF Ha. destruct (m (ckey c)) as [v|] eqn:E; [|done]. exfalso.
  destruct (proj1 (fl_keys _ _ _ _ Fl (ckey c) (proj1 (ckey_ok c))) (mk_is_Some _ _ E)) as (c' & Hc' & Ec).
  rewrite list.Forall_forall in OF. apply ckey_inj in Ec as <-; [|done|by apply OF]. by eapply apart_not_in.
Qed.

End free_list.

Section with_laws.
Context {D C A : Type} `{FM : FreeMap D C, !FreeMapLaws D C} `{AS : AreaSource A}.
Context (AREA_SIZE AREA_HEADER MAX_PAGE_SIZE : Z) `{!AreaLaws A AREA_SIZE}.
Context (may_recycle : Z -> bool) (stamp : Z).
Abbreviation state := (@bigmem.state D C A).
Abbreviation add_chunk := (bigmem.add_chunk (D := D) (C := C) (S := A) stamp).
Abbreviation recyclable := (bigmem.recyclable (D := D) (C := C) may_recycle).

(** ** The invariant *)

Definition hot (st : state) : list chunk :=
  if 0 <? hot_size st then [Chunk (hot_offset st) (hot_size st) (hot_successor st)] else [].

(** Only the last chunk of an area has no successor, and only its size is not a
    multiple of the page size. *)
Definition shaped (c : chunk) : Prop := (c_size c + if c_succ c then 0 else AREA_HEADER) mod MAX_PAGE_SIZE = 0.

(** [U] are the chunks in use, [F] the free ones, [X] those an operation is about to
    move from one to the other. *)
Record inv_with (X : list chunk) (n : nat) (st : state) (U F : list chunk) (m : entries) : Prop := {
  iv_free : free_list n (free_trie st) m F;
  iv_ready : fm_ready (free_trie st) (free_cursor st) m;
  iv_hot : 0 <= hot_size st;
  iv_tiles : tiles (X ++ U ++ F ++ hot st);
  iv_shaped : Forall shaped (X ++ U ++ F ++ hot st);
  iv_headers : forall c, c ∈ U -> header_bytes (c_off c) (mem st) = ckey c;
  iv_claimed : forall x, span (X ++ U ++ F ++ hot st) x -> ~ unclaimed (storage st) x
}.

Definition inv : nat -> state -> list chunk -> list chunk -> entries -> Prop := inv_with [].

Lemma add_chunk_ok n (st : state) m F c (freed : bool) : free_list (S n) (free_trie st) m F -> fm_ready (free_trie st) (free_cursor st) m ->
  chunk_ok c -> Forall chunk_ok F -> Forall (apart c) F ->
  let m' := put_key (ckey c) (block_bytes (if freed then stamp else 0)) m in
  exists d' c', add_chunk (c_off c) (c_size c) (c_succ c) freed st = Some (set_free d' c' st) /\
    free_list n d' m' (c :: F) /\ fm_ready d' c' m'.
Proof.
  intros Fl Rd Oc OF Ha m'. pose proof (fl_rep _ _ _ _ Fl) as R. unfold bigmem.add_chunk.
  rewrite no_flag_even by apply Oc. change (key_bytes (FreeKey (c_size c) (with_flag (c_off c) (c_succ c)))) with (ckey c).
  destruct (ckey_ok c) as [K1 K2]. destruct (find_ok _ _ _ _ _ R Rd K1 K2) as (c1 & -> & Fo). cbn [mbind option_bind].
  rewrite (found_valid _ _ _ _ _ R Fo), (fresh_key _ _ _ _ c Fl Oc OF Ha).
  destruct (block_bytes_ok (if freed then stamp else 0)) as [B1 B2].
  destruct (put_ok _ _ _ _ _ _ R Fo B1 B2) as (d' & c' & -> & R' & Rd'). cbn [mbind option_bind].
  exists d', c'. split; [done|]. split; [|done]. by eapply free_list_put.
Qed.

(** ** Moving chunks *)

(** Areas are made of the largest pages, which have room for the header of an area
    and that of a chunk. *)
Hypothesis sizes_ok : 0 < AREA_HEADER /\ AREA_HEADER mod 2 = 0 /\ AREA_HEADER + FREE_KEY <= MAX_PAGE_SIZE /\
  MAX_PAGE_SIZE mod 2 = 0 /\ 0 < AREA_SIZE /\ AREA_SIZE mod MAX_PAGE_SIZE = 0 /\ AREA_SIZE < 2 ^ 32.

Lemma shaped_size c : shaped c -> 0 < c_size c -> FREE_KEY <= c_size c.
Proof.
  unfold shaped, FREE_KEY in *. destruct sizes_ok as (H1 & _ & H2 & _). unfold FREE_KEY in *. intros H Hp.
  apply Z.mod_divide in H as [q H]; [|lia]. assert (0 < q * MAX_PAGE_SIZE) as Hq by (rewrite <- H; destruct (c_succ c); lia).
  assert (1 <= q) by (destruct (Z.le_gt_cases q 0); [exfalso; apply (Z.lt_irrefl 0); eapply Z.lt_le_trans; [exact Hq|by apply Z.mul_nonpos_nonneg; lia]|lia]).
  assert (1 * MAX_PAGE_SIZE <= q * MAX_PAGE_SIZE) by (apply Z.mul_le_mono_nonneg_r; lia). destruct (c_succ c); lia.
Qed.

Lemma shaped_cut o a b s : shaped (Chunk o (a + b) s) -> a mod MAX_PAGE_SIZE = 0 -> shaped (Chunk o a true) /\ shaped (Chunk (o + a) b s).
Proof.
  unfold shaped. cbn [c_size c_succ]. destruct sizes_ok as (H1 & _ & H2 & _). unfold FREE_KEY in *. rewrite Z.add_0_r. intros H Ha.
  split; [done|]. apply Z.mod_divide in Ha as [q ->]; [|lia]. apply Z.mod_divide in H as [q' H]; [|lia].
  replace (b + (if s then 0 else AREA_HEADER)) with ((q' - q) * MAX_PAGE_SIZE) by (rewrite Z.mul_sub_distr_r, <- H; lia). by apply Z.mod_mul; lia.
Qed.

Lemma shaped_join o a b s : shaped (Chunk o a true) -> shaped (Chunk (o + a) b s) -> shaped (Chunk o (a + b) s).
Proof.
  unfold shaped. cbn [c_size c_succ]. destruct sizes_ok as (H1 & _ & H2 & _). unfold FREE_KEY in *. rewrite Z.add_0_r. intros Ha Hb.
  rewrite <- Z.add_assoc. rewrite <- Zplus_mod_idemp_l, Ha, Z.add_0_l. done.
Qed.

(** The same chunks, arranged in another way. *)
Lemma inv_arrange X X' n st st' U U' F F' m : inv_with X n st U F m -> X ++ U ++ F ++ hot st ≡ₚ X' ++ U' ++ F' ++ hot st' ->
  free_list n (free_trie st') m F' -> fm_ready (free_trie st') (free_cursor st') m -> 0 <= hot_size st' ->
  (forall c, c ∈ U' -> header_bytes (c_off c) (mem st') = ckey c) -> storage st' = storage st -> inv_with X' n st' U' F' m.
Proof.
  intros [I1 I2 I3 I4 I5 I6 I7] P Fl Rd Hh Hd Es. split; try done; [by rewrite <- P|by rewrite <- P|]. rewrite Es. intros x. rewrite <- P. apply I7.
Qed.

(** The hot chunk is taken, or there is none. *)
Lemma take_hot X n st U F m : inv_with X n st U F m -> 0 < hot_size st ->
  inv_with (Chunk (hot_offset st) (hot_size st) (hot_successor st) :: X) n (set_hot 0 0 false st) U F m.
Proof.
  intros I Hp. pose proof I as [I1 I2 I3 I4 I5 I6 I7]. eapply inv_arrange; try done.
  unfold hot. cbn [set_hot hot_size hot_offset hot_successor Z.ltb Z.compare]. rewrite (proj2 (Z.ltb_lt _ _) Hp), app_nil_r.
  rewrite !app_assoc. cbn [app]. by rewrite Permutation_app_comm.
Qed.

Lemma make_hot X n st U F m o k s : inv_with (Chunk o k s :: X) n st U F m -> 0 < k -> hot_size st = 0 ->
  inv_with X n (set_hot o k s st) U F m.
Proof.
  intros I Hk Hz. pose proof I as [I1 I2 I3 I4 I5 I6 I7]. eapply inv_arrange; try done; [|cbn [set_hot hot_size]; lia].
  unfold hot. cbn [set_hot hot_size hot_offset hot_successor]. rewrite Hz, (proj2 (Z.ltb_lt _ _) Hk). cbn [Z.ltb Z.compare].
  rewrite app_nil_r, !app_assoc. cbn [app]. by rewrite (Permutation_app_comm _ [_]).
Qed.

(** The rest of a chunk becomes the hot one. *)
Lemma cut_hot X n st U F m o a b s : inv_with (Chunk o (a + b) s :: X) n st U F m -> hot_size st = 0 -> 0 < a -> 0 < b ->
  a mod MAX_PAGE_SIZE = 0 -> inv_with (Chunk o a true :: X) n (set_hot (o + a) b s st) U F m.
Proof.
  intros [I1 I2 I3 I4 I5 I6 I7] Hz Ha Hb Hm. apply (make_hot (Chunk o a true :: X) n st U F m (o + a) b s); [|done|done].
  cbn [app] in *. apply list.Forall_cons in I5 as [S1 S2].
  destruct (shaped_cut o a b s S1 Hm) as [S3 S4]. destruct sizes_ok as (_ & _ & _ & Hp & _).
  pose proof (shaped_size _ S3 Ha). pose proof (shaped_size _ S4 Hb). cbn [c_size] in *. split; try done; cbn [app].
  - rewrite Permutation_swap. apply tiles_split; try done. apply Z.mod_divide in Hm as [q ->]; [|unfold FREE_KEY in *; lia].
    by rewrite Z.mul_mod, Hp, Z.mul_0_r by lia.
  - by constructor; [|constructor].
  - intros x. rewrite !span_cons. cbn [c_off c_size]. intros Hx. apply I7. rewrite span_cons. cbn [c_off c_size].
    destruct Hx as [?|[?|?]]; [left; lia|left; lia|by right].
Qed.

Lemma inv_less X a b st U F m : (a <= b)%nat -> inv_with X b st U F m -> inv_with X a st U F m.
Proof. intros Hab [I1 I2 I3 I4 I5 I6 I7]. split; try done. by eapply free_list_less. Qed.

(** [finish] hands the chunk out. *)
Lemma finish_chunk_ok n st U F m c size : inv_with [c] n st U F m ->
  exists st', finish (c_off c) (c_size c) (c_succ c) size st = (st', BigValue (c_off c + FREE_KEY) (u32 size)) /\
    inv n st' (c :: U) F m /\ hot st' = hot st.
Proof.
  intros I. pose proof I as [I1 I2 I3 I4 I5 I6 I7]. eexists. split; [done|]. split; [|done].
  eapply inv_arrange; [exact I|done|done|done|done| |done].
  destruct (beside _ _ I4) as (Oc & Ol & Ha). apply Forall_app in Ol as [Ol _]. apply Forall_app in Ha as [Ha _].
  cbn [set_mem mem]. intros c' [->|Hc']%list.elem_of_cons; [apply header_written|by eapply headers_kept].
Qed.

(** The hot chunk goes back into the trie. *)
Lemma flush_hot X n st U F m : inv_with X (S n) st U F m -> 0 < hot_size st ->
  let h := Chunk (hot_offset st) (hot_size st) (hot_successor st) in
  exists d c, add_chunk (hot_offset st) (hot_size st) (hot_successor st) false st = Some (set_free d c st) /\
    inv_with X n (set_hot 0 0 false (set_free d c st)) U (h :: F) (put_key (ckey h) (block_bytes 0) m).
Proof.
  intros I Hp h. pose proof (take_hot _ _ _ _ _ _ I Hp) as J. fold h in J. pose proof J as [J1 J2 J3 J4 J5 J6 J7].
  destruct (beside _ _ J4) as (Oh & Ol & Ha). rewrite !Forall_app in Ol, Ha.
  destruct (add_chunk_ok n st m F h false J1 J2 Oh ltac:(tauto) ltac:(tauto)) as (d & c & E & Fl & Rd).
  exists d, c. split; [exact E|].
  assert (h :: X ++ U ++ F ++ hot (set_hot 0 0 false st) ≡ₚ X ++ U ++ (h :: F) ++ hot (set_hot 0 0 false (set_free d c st))) as P.
  { change (hot (set_hot 0 0 false (set_free d c st))) with (hot (set_hot 0 0 false st)).
    rewrite (app_assoc X U), (app_assoc X U). cbn [app]. apply Permutation_middle. }
  split; try done; [by rewrite <- P|by rewrite <- P|]. intros x. rewrite <- P. apply J7.
Qed.

(** A chunk in use becomes a free one. *)
Lemma free_ok n st U F m c v : inv (S n) st (c :: U) F m ->
  exists st', bigmem.free stamp (BigValue (c_off c + FREE_KEY) v) st = Some st' /\
    inv n st' U (c :: F) (put_key (ckey c) (block_bytes stamp) m) /\ hot st' = hot st.
Proof.
  intros I. pose proof I as [I1 I2 I3 I4 I5 I6 I7]. cbn [app] in *. destruct (beside _ _ I4) as (Oc & Ol & Ha).
  rewrite !Forall_app in Ol, Ha. unfold bigmem.free. cbn [chunk_offset]. rewrite Z.add_simpl_r. unfold read_header.
  rewrite I6 by left. rewrite key_of_ckey by done. destruct (chunk_key_reads c Oc) as (-> & -> & ->).
  destruct (add_chunk_ok n st m F c true I1 I2 Oc ltac:(tauto) ltac:(tauto)) as (d & c' & E & Fl & Rd).
  eexists. split; [exact E|]. split; [|done].
  assert (c :: U ++ F ++ hot st ≡ₚ U ++ (c :: F) ++ hot (set_free d c' st)) as P by (cbn [app]; apply Permutation_middle).
  split; try done; cbn [app]; [by rewrite <- P|by rewrite <- P| |].
  - intros c0 Hc0. apply I6. by right.
  - intros x. rewrite <- P. apply I7.
Qed.

(** ** Looking for a chunk *)

(** Whether the transaction of a free chunk may be forgotten. *)
Definition released (m : entries) (c : chunk) : Prop := exists v, m (ckey c) = Some v /\ may_recycle (le_value v) = true.

Lemma search_ok k n d m : fm_rep n d m -> forall q c,
  (exists q', fm_on d c q' m /\ lex q q' < 0) \/ (fm_valid d c = false /\ fm_ready d c m) ->
  exists found c', search may_recycle k d c = Some (found, c') /\ fm_ready d c' m /\
    (found = true -> exists q', fm_on d c' q' m /\ lex q q' < 0 /\ recyclable d c' = true).
Proof.
  intros R. induction k as [|k IH]; intros q c H; cbn [search].
  - exists false, c. split; [done|]. split; [|done]. destruct H as [(q' & On & _)|[_ ?]]; [by eapply ready_on|done].
  - destruct H as [(q' & On & Hl)|[-> Rd]]; [|by exists false, c].
    destruct (on_reads _ _ _ _ _ R On) as (_ & _ & -> & _ & _). destruct (recyclable d c) eqn:Er.
    { exists true, c. split; [done|]. split; [by eapply ready_on|]. intros _. by exists q'. }
    destruct (next_ok _ _ _ _ _ R (or_intror On)) as (c' & -> & [(q2 & On2 & [_ Hl2 _])|(V & Rd & _)]); cbn [mbind option_bind].
    + apply (IH q). left. exists q2. split; [done|]. by eapply lex_lt_trans.
    + apply (IH q). by right.
Qed.

Lemma take_free n st U F m c d' c' : inv (S n) st U F m -> c ∈ F -> fm_rep n d' (del_key (ckey c) m) ->
  fm_ready d' c' (del_key (ckey c) m) ->
  exists F1, F ≡ₚ c :: F1 /\ inv_with [c] n (set_free d' c' st) U F1 (del_key (ckey c) m).
Proof.
  intros [I1 I2 I3 I4 I5 I6 I7] Hc R Rd. apply elem_of_Permutation in Hc as [F1 P]. exists F1. split; [done|].
  assert (U ++ F ++ hot st ≡ₚ [c] ++ U ++ F1 ++ hot (set_free d' c' st)) as P'.
  { rewrite P. cbn [app]. symmetry. apply Permutation_middle. }
  cbn [app] in *. rewrite P' in I4, I5. destruct (beside _ _ I4) as (Oc & Ol & Ha). rewrite !Forall_app in Ol, Ha.
  split; try done.
  - apply (free_list_del n (free_trie st) d' m F1 c); [by rewrite <- P|constructor; tauto|apply apart_not_in; tauto|done].
  - intros x. rewrite <- P'. apply I7.
Qed.

Lemma least_above n d m F q c p : free_list n d m F -> Forall chunk_ok F -> fm_on d c q m -> p < 2 ^ 64 ->
  lex (key_bytes (FreeKey p 0)) q < 0 -> exists c0, c0 ∈ F /\ q = ckey c0 /\ p <= c_size c0.
Proof.
  intros [R Hk] OF On Hp Hl. destruct (on_reads _ _ _ _ _ R On) as (Hb & _ & _ & _ & E).
  destruct (proj1 (Hk q Hb) (mk_is_Some _ _ E)) as (c0 & Hc0 & ->). exists c0. split; [done|]. split; [done|].
  rewrite list.Forall_forall in OF. destruct (Z.le_gt_cases p (c_size c0)) as [|Hlt]; [done|]. exfalso.
  pose proof (ckey_below c0 p 0 (OF _ Hc0) Hlt Hp) as Hb'. pose proof (lex_lt_trans _ _ _ Hl Hb') as Hi. rewrite lex_refl in Hi. lia.
Qed.

(** The chunk of a new area. *)
Lemma new_area_chunk n st U F m c p o k s : inv n st U F m -> fm_ready (free_trie st) c m -> 0 < p -> p mod MAX_PAGE_SIZE = 0 ->
  alloc_multi_area (padding (p + AREA_HEADER) AREA_SIZE) (storage st) = Some (o, k, s) ->
  let c0 := Chunk (o + AREA_HEADER) (o + k - (o + AREA_HEADER)) false in
  inv_with [c0] n (set_free (free_trie st) c (set_storage s st)) U F m /\ p <= c_size c0 /\
  forall x, c_off c0 <= x < c_off c0 + c_size c0 -> unclaimed (storage st) x.
Proof.
  intros [I1 I2 I3 I4 I5 I6 I7] Rd Hp Hm E c0. cbn [app] in *. destruct sizes_ok as (H1 & H2 & H3 & H4 & H5 & H6 & H7).
  pose proof (padding_bounds (p + AREA_HEADER) AREA_SIZE H5) as Hb.
  assert (0 < padding (p + AREA_HEADER) AREA_SIZE) as Hpos by lia.
  destruct (area_new _ _ _ _ _ Hpos E) as (A1 & A2 & A3 & A4 & A5 & A6).
  assert (p <= c_size c0) as Hc by (cbn [c0 c_size]; lia).
  assert (forall x, c_off c0 <= x < c_off c0 + c_size c0 -> unclaimed (storage st) x) as Hu.
  { intros x Hx. apply (proj1 (A6 x)). cbn [c0 c_off c_size] in Hx. lia. }
  split; [|done]. apply Z.mod_divide in A2 as [qo A2], A4 as [qk A4], H6 as [qa H6], Hm as [qp Hm]; try (unfold FREE_KEY in *; lia).
  assert (forall z, (z * MAX_PAGE_SIZE) mod 2 = 0) as Hev by (intros z; by rewrite Z.mul_mod, H4, Z.mul_0_r by lia).
  assert (MAX_PAGE_SIZE <= p) as HpM.
  { assert (1 <= qp) by (destruct (Z.le_gt_cases qp 0); [exfalso; pose proof (Z.mul_nonpos_nonneg qp MAX_PAGE_SIZE); unfold FREE_KEY in *; lia|lia]).
    subst p. replace MAX_PAGE_SIZE with (1 * MAX_PAGE_SIZE) at 1 by lia. apply Z.mul_le_mono_nonneg_r; [unfold FREE_KEY in *; lia|done]. }
  assert (chunk_ok c0) as Oc.
  { split; [cbn [c0 c_off]; lia| |unfold FREE_KEY in *; lia|cbn [c0 c_off c_size]; lia]. cbn [c0 c_off].
    assert (o mod 2 = 0) by (rewrite A2, H6, Z.mul_assoc; apply Hev). lia. }
  split; try done; cbn [app].
  - apply tiles_new; try done. intros x Hx Hs. by apply (I7 x Hs), Hu.
  - constructor; [|done]. unfold shaped. cbn [c0 c_size c_succ].
    replace (o + k - (o + AREA_HEADER) + AREA_HEADER) with (qk * qa * MAX_PAGE_SIZE) by lia. apply Z.mod_mul. unfold FREE_KEY in *. lia.
  - cbn [set_free set_storage storage]. intros x [Hx|Hx]%span_cons Hn; apply A6 in Hn as [Hn1 Hn2].
    + apply Hn2. cbn [c0 c_off c_size] in Hx. lia.
    + by apply (I7 x Hx).
Qed.

(** A chunk large enough: a released one, or that of a new area. *)
Lemma find_chunk_ok n p st U F m : inv (S n) st U F m -> 0 < p < 2 ^ 64 -> p mod MAX_PAGE_SIZE = 0 ->
  match find_chunk AREA_SIZE AREA_HEADER may_recycle p st with
  | None => alloc_multi_area (padding (p + AREA_HEADER) AREA_SIZE) (storage st) = None
  | Some (o, k, s, st1) =>
      let c := Chunk o k s in
      p <= k /\ hot_offset st1 = hot_offset st /\ hot_size st1 = hot_size st /\ hot_successor st1 = hot_successor st /\
      exists F1 m1, inv_with [c] n st1 U F1 m1 /\
        ((F ≡ₚ c :: F1 /\ m1 = del_key (ckey c) m /\ released m c) \/
         (F1 = F /\ m1 = m /\ forall x, o <= x < o + k -> unclaimed (storage st) x))
  end.
Proof.
  intros I Hp Hm. pose proof I as [I1 I2 I3 I4 I5 I6 I7]. pose proof (fl_rep _ _ _ _ I1) as R. unfold find_chunk.
  destruct (find_ok _ _ _ _ (key_bytes (FreeKey p 0)) R I2 (key_bytes_bytes _) (key_bytes_length _)) as (c1 & -> & Fo).
  cbn [mbind option_bind]. destruct (next_ok _ _ _ _ _ R (or_introl Fo)) as (c2 & -> & Hn). cbn [mbind option_bind].
  destruct (search_ok 10 _ _ _ R (key_bytes (FreeKey p 0)) c2) as (found & c3 & -> & Rd & Hf).
  { destruct Hn as [(q' & On & L)|(V & Rd & _)]; [left; exists q'; split; [done|apply L]|by right]. }
  cbn [mbind option_bind]. destruct found.
  - destruct (Hf eq_refl) as (q & On & Hl & Hr). pose proof (ti_ok _ I4) as Ok. cbn [app] in Ok. rewrite !Forall_app in Ok.
    destruct (least_above _ _ _ F q c3 p I1 ltac:(tauto) On ltac:(lia) Hl) as (c0 & Hc0 & -> & Hs).
    destruct (on_reads _ _ _ _ _ R On) as (_ & _ & _ & -> & Ev).
    assert (chunk_ok c0) as Oc by (destruct Ok as (_ & Ok & _); rewrite list.Forall_forall in Ok; by apply Ok).
    rewrite key_of_ckey by done. destruct (chunk_key_reads c0 Oc) as (-> & -> & ->).
    destruct (Z.ltb_spec (c_size c0) p); [lia|]. destruct (remove_ok _ _ _ _ _ R On) as (d' & c' & -> & R' & Rd'). cbn [mbind option_bind].
    split; [done|]. split_and!; try done. destruct (take_free _ _ _ _ _ c0 d' c' I Hc0 R' Rd') as (F1 & P & J).
    destruct c0 as [o k s]. exists F1, (del_key (ckey (Chunk o k s)) m). split; [exact J|]. left. split; [done|]. split; [done|].
    by exists (fm_value (free_trie st) c3).
  - destruct (alloc_multi_area _ _) as [[[o k] s]|] eqn:E; cbn [mbind option_bind]; [|done].
    assert (inv n st U F m) as I' by (eapply inv_less; [|exact I]; lia).
    destruct (new_area_chunk _ _ _ _ _ c3 p o k s I' Rd ltac:(lia) Hm E) as (J & Hs & Hu). split; [done|]. split_and!; try done.
    exists F, m. split; [exact J|]. by right.
Qed.

(** ** Allocation *)

(** What a page size makes of a size. *)
Lemma padded_ok size : 0 <= size < 2 ^ 63 ->
  let p := padding (u64 (FREE_KEY + size)) MAX_PAGE_SIZE in FREE_KEY + size <= p < 2 ^ 64 /\ p mod MAX_PAGE_SIZE = 0.
Proof.
  intros Hs p. destruct sizes_ok as (H1 & H2 & H3 & H4 & H5 & H6 & H7). unfold FREE_KEY in *.
  assert (0 < MAX_PAGE_SIZE) as Hm by lia. assert (MAX_PAGE_SIZE <= AREA_SIZE) by (by apply Z.mod_divide, Z.divide_pos_le in H6; lia).
  unfold p. rewrite wrap_small by lia. pose proof (padding_bounds (16 + size) MAX_PAGE_SIZE Hm). pose proof (padding_mod (16 + size) MAX_PAGE_SIZE Hm).
  lia.
Qed.

(** What [alloc] promises about the chunk [c] it hands out. *)
Record allocated (n : nat) (size : Z) (st st' : state) (U F F' : list chunk) (m m' : entries) (c : chunk) : Prop := {
  al_inv : inv n st' (c :: U) F' m';
  al_size : FREE_KEY + size <= c_size c;
  al_source : forall x, c_off c <= x < c_off c + c_size c ->
    span (hot st) x \/ (exists c0, c0 ∈ F /\ released m c0 /\ c_off c0 <= x < c_off c0 + c_size c0) \/ unclaimed (storage st) x;
  al_kept : forall x, span (U ++ F ++ hot st) x -> span (c :: U ++ F' ++ hot st') x;
  al_free : forall c0, c0 ∈ F -> ~ released m c0 -> c0 ∈ F' /\ m' (ckey c0) = m (ckey c0)
}.

Lemma hot_some st : 0 < hot_size st -> hot st = [Chunk (hot_offset st) (hot_size st) (hot_successor st)].
Proof. intros H. unfold hot. by rewrite (proj2 (Z.ltb_lt _ _) H). Qed.

Lemma hot_none st : hot_size st = 0 -> hot st = [].
Proof. intros H. unfold hot. by rewrite H. Qed.

(** Cut from the hot chunk. *)
Lemma alloc_hot n size st U F m p : inv n st U F m -> FREE_KEY + size <= p -> 0 < p <= hot_size st -> p mod MAX_PAGE_SIZE = 0 ->
  exists st' c,
    (let left := hot_size st - p in
     let '(succ, st1) := if left =? 0 then (hot_successor st, set_hot 0 0 false st)
       else (true, set_hot (hot_offset st + p) left (hot_successor st) st) in
     finish (hot_offset st) p succ size st1) = (st', BigValue (c_off c + FREE_KEY) (u32 size)) /\
    allocated n size st st' U F F m m c.
Proof.
  intros I Hs Hp Hm. pose proof (take_hot _ _ _ _ _ _ I ltac:(lia)) as J. cbv zeta.
  assert (hot st = [Chunk (hot_offset st) (hot_size st) (hot_successor st)]) as Eh by (apply hot_some; lia).
  destruct (Z.eqb_spec (hot_size st - p) 0) as [E|Hne].
  - assert (p = hot_size st) as -> by lia. destruct (finish_chunk_ok _ _ _ _ _ _ size J) as (st' & E' & I' & Eh').
    exists st', (Chunk (hot_offset st) (hot_size st) (hot_successor st)). split; [exact E'|]. split; try done.
    + intros x Hx. left. rewrite Eh. eexists. split; [by left|done].
    + intros x. rewrite Eh, Eh', (hot_none (set_hot 0 0 false st)) by done. rewrite app_nil_r, app_assoc. by rewrite <- Permutation_cons_append.
  - replace (hot_size st) with (p + (hot_size st - p)) in J at 1 by lia.
    pose proof (cut_hot [] n _ U F m _ p (hot_size st - p) _ J eq_refl ltac:(lia) ltac:(lia) Hm) as K.
    destruct (finish_chunk_ok _ _ _ _ _ (Chunk (hot_offset st) p true) size K) as (st' & E' & I' & Eh').
    exists st', (Chunk (hot_offset st) p true). split; [exact E'|]. split; try done.
    + intros x Hx. left. rewrite Eh. eexists. split; [by left|]. cbn [c_off c_size] in *. lia.
    + intros x. rewrite Eh, Eh', (hot_some (set_hot _ _ _ (set_hot 0 0 false st))) by (cbn [set_hot hot_size]; lia).
      cbn [set_hot hot_size hot_offset hot_successor].
      rewrite ?span_cons, ?span_app, ?span_cons, ?span_app. cbn [c_off c_size]. rewrite ?span_cons. cbn [c_off c_size].
      intros [Hx|[Hx|[Hx|Hx]]]; [tauto|tauto| |by destruct Hx as (? & ?%elem_of_nil & _)].
      destruct (Z.lt_ge_cases x (hot_offset st + p)); [left; lia|right; right; right; left; lia].
Qed.

(** Cut from a chunk that was found. *)
Lemma alloc_found n size st U F m p o k s : inv_with [Chunk o k s] (S n) st U F m -> FREE_KEY + size <= p -> 0 < p <= k ->
  p mod MAX_PAGE_SIZE = 0 ->
  exists st' c F' m',
    (if MAX_PAGE_SIZE <=? k - p then
       st ← (if 0 <? hot_size st then add_chunk (hot_offset st) (hot_size st) (hot_successor st) false st else Some st);
       Some (finish o p true size (set_hot (o + p) (k - p) s st))
     else Some (finish o k s size st)) = Some (st', BigValue (c_off c + FREE_KEY) (u32 size)) /\
    inv n st' (c :: U) F' m' /\ FREE_KEY + size <= c_size c /\ o <= c_off c /\ c_off c + c_size c <= o + k /\
    (forall x, span (Chunk o k s :: U ++ F ++ hot st) x -> span (c :: U ++ F' ++ hot st') x) /\
    (forall c0, c0 ∈ F -> c0 ∈ F' /\ m' (ckey c0) = m (ckey c0)).
Proof.
  intros I Hs Hp Hm. destruct (Z.leb_spec MAX_PAGE_SIZE (k - p)) as [Hd|Hd].
  2: { destruct (finish_chunk_ok _ _ _ _ _ _ size (inv_less _ n (S n) _ _ _ _ ltac:(lia) I)) as (st' & E & I' & Eh).
    exists st', (Chunk o k s), F, m. cbn [c_off c_size c_succ] in *. rewrite E, Eh. by split_and!; try (done || lia). }
  assert (0 < MAX_PAGE_SIZE) as HM by (destruct sizes_ok as (H1 & _ & H3 & _); unfold FREE_KEY in H3; lia).
  replace k with (p + (k - p)) in I by lia.
  assert (exists st1 F1 m1, (if 0 <? hot_size st then add_chunk (hot_offset st) (hot_size st) (hot_successor st) false st else Some st) = Some st1 /\
    inv_with [Chunk o (p + (k - p)) s] n (set_hot 0 0 false st1) U F1 m1 /\ F1 ≡ₚ hot st ++ F /\
    forall c0, c0 ∈ F -> m1 (ckey c0) = m (ckey c0)) as (st1 & F1 & m1 & -> & J & EF & Em).
  { destruct (Z.ltb_spec 0 (hot_size st)) as [Hh|Hh].
    - destruct (flush_hot _ _ _ _ _ _ I Hh) as (d & c & E & J). rewrite E. eexists _, _, _. split; [done|]. split; [exact J|].
      split; [by rewrite hot_some|]. intros c0 Hc0. apply put_key_ne.
      assert (forall l, Chunk o (p + (k - p)) s :: U ++ (Chunk (hot_offset st) (hot_size st) (hot_successor st) :: F) ++ l ≡ₚ
        Chunk (hot_offset st) (hot_size st) (hot_successor st) :: Chunk o (p + (k - p)) s :: U ++ F ++ l) as P.
      { intros l. cbn [app]. by rewrite <- Permutation_middle, Permutation_swap. }
      pose proof (iv_tiles _ _ _ _ _ _ J) as T'. cbn [app] in T'. specialize (P (hot (set_hot 0 0 false (set_free d c st)))). cbn [app] in P.
      rewrite P in T'. eapply tiles_key; [exact T'|]. right. apply elem_of_app. right. apply elem_of_app. by left.
    - assert (hot_size st = 0) as Hz by (pose proof (iv_hot _ _ _ _ _ _ I); lia). exists st, F, m. split; [done|]. split; [|by rewrite hot_none].
      apply (inv_less _ n) in I; [|lia]. pose proof I as [I1 I2 I3 I4 I5 I6 I7]. eapply inv_arrange; try done. by rewrite !hot_none. }
  cbn [mbind option_bind]. pose proof (cut_hot [] n _ U F1 m1 o p (k - p) s J eq_refl ltac:(lia) ltac:(lia) Hm) as K.
  destruct (finish_chunk_ok _ _ _ _ _ (Chunk o p true) size K) as (st' & E' & I' & Eh').
  exists st', (Chunk o p true), F1, m1. cbn [c_off c_size c_succ] in *. change (set_hot (o + p) (k - p) s (set_hot 0 0 false st1)) with
    (set_hot (o + p) (k - p) s st1) in *. rewrite E'. split; [done|]. split_and!; try (done || lia).
  - intros x. rewrite Eh', (hot_some (set_hot (o + p) _ _ st1)) by (cbn [set_hot hot_size]; lia). cbn [set_hot hot_size hot_offset hot_successor].
    rewrite EF. rewrite ?span_cons, ?span_app, ?span_cons, ?span_app. cbn [c_off c_size].
    intros [Hx|Hx]; [|tauto]. destruct (Z.lt_ge_cases x (o + p)); [left; lia|right; right; right; left; lia].
  - intros c0 Hc0. split; [|by apply Em]. rewrite EF. apply elem_of_app. by right.
Qed.

(** C7: An allocation hands out a chunk that is large enough, apart from every chunk in
    use, made of the hot chunk, of a free chunk whose transaction is released, or of
    a new area. Every byte stays in a chunk and the free chunks that are not released
    stay free; the one error is a full storage. *)
Theorem alloc_takes_chunk n size st U F m : inv (S (S n)) st U F m -> 0 <= size < 2 ^ 63 ->
  match alloc AREA_SIZE AREA_HEADER MAX_PAGE_SIZE may_recycle stamp size st with
  | Some (st', v) => exists c F' m', v = BigValue (c_off c + FREE_KEY) (u32 size) /\ allocated n size st st' U F F' m m' c
  | None => exists k, size < k /\ alloc_multi_area k (storage st) = None
  end.
Proof.
  intros I Hs. destruct (padded_ok size Hs) as [Hp Hm]. unfold alloc.
  set (p := padding (u64 (FREE_KEY + size)) MAX_PAGE_SIZE) in *. unfold FREE_KEY in Hp. destruct (Z.leb_spec p (hot_size st)) as [Hh|Hh].
  - destruct (alloc_hot n size st U F m p (inv_less [] n (S (S n)) _ _ _ _ ltac:(lia) I)) as (st' & c & E & Al);
      try (unfold FREE_KEY in *; done || lia).
    cbv zeta in E |- *. destruct (if _ =? 0 then _ else _) as [succ st1]. rewrite E. by exists c, F, m.
  - pose proof (find_chunk_ok (S n) p st U F m I ltac:(lia) Hm) as Hf.
    destruct (find_chunk AREA_SIZE AREA_HEADER may_recycle p st) as [[[[o k] s] st1]|]; cbn [mbind option_bind].
    2: { eexists. split; [|exact Hf]. destruct sizes_ok as (? & _ & _ & _ & Hz & _). pose proof (padding_bounds (p + AREA_HEADER) AREA_SIZE Hz). lia. }
    destruct Hf as (Hk & H1 & H2 & H3 & F1 & m1 & J & Src).
    assert (hot st1 = hot st) as Eh by (unfold hot; by rewrite H1, H2, H3).
    destruct (alloc_found n size st1 U F1 m1 p o k s J) as (st' & c & F' & m' & E & I' & Hc & B1 & B2 & Sp & Kept);
      try (unfold FREE_KEY in *; done || lia).
    rewrite E. exists c, F', m'. split; [done|]. split; try done.
    + intros x Hx. destruct Src as [(P & _ & Rl)|(_ & _ & Hu)]; [|right; right; apply Hu; lia].
      right. left. exists (Chunk o k s). split; [rewrite P; by left|]. split; [done|]. cbn [c_off c_size]. lia.
    + intros x Hx. apply Sp. rewrite Eh. destruct Src as [(P & _)|(-> & _)]; [|rewrite span_cons; by right].
      rewrite P in Hx. rewrite ?span_cons, ?span_app, ?span_cons in *. tauto.
    + intros c0 Hc0 Hn. destruct Src as [(P & -> & Rl)|(-> & -> & _)]; [|by apply Kept].
      rewrite P in Hc0. apply list.elem_of_cons in Hc0 as [->|Hc0]; [done|]. destruct (Kept c0 Hc0) as [? ->]. split; [done|].
      apply del_key_ne. pose proof (iv_tiles _ _ _ _ _ _ J) as Ti. cbn [app] in Ti. eapply tiles_key; [exact Ti|].
      apply elem_of_app. right. apply elem_of_app. by left.
Qed.

(** C8: A released chunk goes back: it is free, with the id of the transaction, and the
    other chunks stay as they are. *)
Theorem free_returns_chunk n st U U' F m c v : inv (S n) st U F m -> U ≡ₚ c :: U' ->
  exists st', bigmem.free stamp (BigValue (c_off c + FREE_KEY) v) st = Some st' /\
    inv n st' U' (c :: F) (put_key (ckey c) (block_bytes stamp) m) /\ hot st' = hot st /\ mem st' = mem st.
Proof.
  intros I P. assert (inv (S n) st (c :: U') F m) as J.
  { pose proof I as [I1 I2 I3 I4 I5 I6 I7]. eapply inv_arrange; try done; [by cbn [app]; rewrite P|]. intros c'. rewrite <- P. apply I6. }
  destruct (free_ok _ _ _ _ _ _ v J) as (st' & E & I' & Eh). exists st'. split; [done|]. split; [done|]. split; [done|].
  revert E. unfold bigmem.free, add_chunk, bigmem.add_chunk. destruct (fm_find _ _ _); [|done]. cbn [mbind option_bind].
  destruct (fm_valid _ _); [done|]. destruct (fm_put _ _ _) as [[d' c']|]; [|done]. cbn [mbind option_bind]. by intros [= <-].
Qed.

End with_laws.
End bigmemfacts.
