(* ===== verification/BigMemDefrag.v ===== *)
(** * BigMemDefrag: merging the free chunks of big values

    [defrag] reads the header behind a free chunk to find its neighbour. If the memory
    of free chunks does not happen to name another free chunk, the loops end, merge
    only neighbours that are free and released, lose no byte, and leave nothing that
    could still be merged. Without this condition they corrupt the free list: the
    header of what an allocation leaves over is never written. *)
From S2P Require Import Prelude Util Bytes BigMem BigMemFacts.

Module bigmemdefrag.
Export bigmemfacts.
Import util.
#[local] Ltac Zify.zify_post_hook ::= Z.to_euclidean_division_equations.

Definition bytes_ok (m : Z -> Z) : Prop := forall x, 0 <= m x < 256.

Lemma header_bytes_ok o m : bytes_ok m -> byte_list (header_bytes o m) /\ length (header_bytes o m) = 16%nat.
Proof.
  intros H. unfold header_bytes, read_bytes. split; [|by rewrite length_fmap, length_seqZ].
  apply Forall_fmap, Forall_true. intros x. apply H.
Qed.

Lemma write_bytes_ok o k m : bytes_ok m -> bytes_ok (write_header o k m).
Proof.
  intros H x. unfold write_header, write_bytes. destruct (o <=? x); [|apply H]. destruct (_ !! _) as [b|] eqn:E; [|apply H].
  pose proof (key_bytes_bytes k) as Hk. unfold byte_list in Hk. rewrite list.Forall_forall in Hk. apply Hk. by eapply list_elem_of_lookup_2.
Qed.

(** The header bytes of a free chunk name no other free chunk. *)
Definition honest (F : list chunk) (m : Z -> Z) : Prop :=
  forall c c', c ∈ F -> c' ∈ F -> no_flag (fk_offset (read_header (c_off c) m)) = c_off c' -> c' = c.

Section with_laws.
Context {D C A : Type} `{FM : FreeMap D C, !FreeMapLaws D C} `{AS : AreaSource A}.
Context (AREA_SIZE AREA_HEADER MAX_PAGE_SIZE : Z) `{!AreaLaws A AREA_SIZE}.
Context (may_recycle : Z -> bool) (stamp : Z).
Hypothesis sizes_ok : 0 < AREA_HEADER /\ AREA_HEADER mod 2 = 0 /\ AREA_HEADER + FREE_KEY <= MAX_PAGE_SIZE /\
  MAX_PAGE_SIZE mod 2 = 0 /\ 0 < AREA_SIZE /\ AREA_SIZE mod MAX_PAGE_SIZE = 0 /\ AREA_SIZE < 2 ^ 32.

Abbreviation state := (@bigmem.state D C A).
Abbreviation recyclable := (bigmem.recyclable (D := D) (C := C) may_recycle).
Abbreviation merge := (bigmem.merge (D := D) (C := C) may_recycle).
Abbreviation released := (bigmemfacts.released may_recycle).
Abbreviation shaped := (bigmemfacts.shaped AREA_HEADER MAX_PAGE_SIZE).
Abbreviation inv := (bigmemfacts.inv AREA_HEADER MAX_PAGE_SIZE).
Abbreviation inv_with := (bigmemfacts.inv_with AREA_HEADER MAX_PAGE_SIZE).

(** ** The free chunks during a pass *)

(** What holds of the map, the memory and the chunks [U] in use between two rounds;
    [n] changes are left. *)
Record pass (n : nat) (d : D) (m : entries) (mm : Z -> Z) (U F : list chunk) : Prop := {
  ps_free : free_list n d m F;
  ps_tiles : tiles (F ++ U);
  ps_shaped : Forall shaped (F ++ U);
  ps_headers : forall c, c ∈ U -> header_bytes (c_off c) mm = ckey c;
  ps_honest : honest F mm;
  ps_bytes : bytes_ok mm
}.

(** Nothing can be merged behind the chunk. *)
Definition stuck (m : entries) (mm : Z -> Z) (c : chunk) : Prop :=
  released m c -> c_succ c = true -> forall v, m (header_bytes (c_off c + c_size c) mm) = Some v -> may_recycle (le_value v) = false.

(** The chunk [cur] while its neighbours are merged into [Chunk (c_off cur) t s]; the
    map still has [cur]. *)
Record merging (n : nat) (d : D) (m : entries) (mm : Z -> Z) (U F : list chunk) (cur : chunk) (t : Z) (s : bool) : Prop := {
  mg_free : free_list (length F + n) d m (cur :: F);
  mg_tiles : tiles (Chunk (c_off cur) t s :: F ++ U);
  mg_shaped : Forall shaped (Chunk (c_off cur) t s :: F ++ U);
  mg_cur : chunk_ok cur /\ c_size cur <= t;
  mg_headers : forall c, c ∈ U -> header_bytes (c_off c) mm = ckey c;
  mg_honest : honest (cur :: F) mm;
  mg_bytes : bytes_ok mm
}.

Lemma merging_apart n d m mm U F cur t s : merging n d m mm U F cur t s ->
  Forall chunk_ok (F ++ U) /\ Forall (apart cur) (F ++ U) /\ Forall (apart (Chunk (c_off cur) t s)) (F ++ U).
Proof.
  intros M. destruct (beside _ _ (mg_tiles _ _ _ _ _ _ _ _ _ M)) as (Oc & Ol & Ha). split; [done|]. split; [|done].
  eapply Forall_impl; [|exact Ha]. intros c H x Hx Hx'. apply (H x); [|done]. destruct (mg_cur _ _ _ _ _ _ _ _ _ M) as [_ Hs].
  cbn [range fst snd c_off c_size] in *. lia.
Qed.

(** The entry found behind the chunk is that of its neighbour. *)
Lemma merging_next n d m mm U F cur t v : merging n d m mm U F cur t true ->
  m (header_bytes (c_off cur + t) mm) = Some v ->
  exists c, c ∈ F /\ c_off c = c_off cur + t /\ header_bytes (c_off cur + t) mm = ckey c.
Proof.
  intros M E. destruct (merging_apart _ _ _ _ _ _ _ _ _ M) as (Ol & Ha & _).
  pose proof M as [[R Hk] Ti _ [Oc Hs] Hd Ho Hb]. pose proof (ck_size _ Oc) as H16. unfold FREE_KEY in H16.
  destruct (proj1 (Hk _ (proj1 (header_bytes_ok _ _ Hb))) (mk_is_Some _ _ E)) as (c2 & Hc2 & E2).
  assert (chunk_ok c2) as O2.
  { apply list.elem_of_cons in Hc2 as [->|Hc2]; [done|]. rewrite list.Forall_forall in Ol. apply Ol, elem_of_app. by left. }
  destruct (ti_succ _ Ti (Chunk (c_off cur) t true) ltac:(left) eq_refl) as (c1 & [->|[H1|H1]%elem_of_app]%list.elem_of_cons & E1);
    cbn [c_off c_size] in E1; [lia| |].
  - exists c1. split; [done|]. split; [done|]. rewrite E2. f_equal. apply (Ho c1 c2); [by right|done|].
    rewrite E1. unfold read_header. rewrite E2, key_of_ckey by done. by apply chunk_key_reads.
  - exfalso. rewrite <- E1, Hd in E2 by done. rewrite list.Forall_forall in Ol.
    apply ckey_inj in E2 as <-; [|apply Ol, elem_of_app; by right|done].
    apply list.elem_of_cons in Hc2 as [->|Hc2]; [lia|]. pose proof Ti as [_ [_ Hp] _]. rewrite pairwise_app in Hp.
    destruct Hp as (_ & _ & Hp). rewrite list.Forall_forall in Hp. specialize (Hp _ Hc2). by apply (apart_not_in c1 U O2 Hp).
Qed.

(** One neighbour more. *)
Lemma merging_step n d d' m mm U F cur t c F' : merging n d m mm U F cur t true -> F ≡ₚ c :: F' -> c_off c = c_off cur + t ->
  fm_rep (length F' + n) d' (del_key (ckey c) m) ->
  merging n d' (del_key (ckey c) m) mm U F' cur (t + c_size c) (c_succ c).
Proof.
  intros M P Eo R. destruct (merging_apart _ _ _ _ _ _ _ _ _ M) as (Ol & Ha & _). pose proof M as [Fl Ti Sh [Oc Hs] Hd Ho Hb].
  rewrite (Permutation_length P) in Fl. rewrite P in Ol, Ha, Ti, Sh, Fl. cbn [app] in *.
  assert (chunk_ok c) as O1 by by apply list.Forall_cons in Ol as [? _]. destruct c as [o1 k1 s1]. cbn [c_off c_size c_succ] in *. subst o1.
  split; try done.
  - cbn [length Nat.add] in Fl. rewrite Permutation_swap in Fl.
    eapply (free_list_del _ d d'); [exact Fl| | |exact R].
    + constructor; [done|]. constructor; [done|]. apply list.Forall_cons in Ol as [_ Ol]. by apply Forall_app in Ol as [? _].
    + apply apart_not_in; [done|]. constructor; [symmetry; by apply list.Forall_cons in Ha as [? _]|].
      destruct Ti as [_ [_ [Hp _]] _]. by apply Forall_app in Hp as [? _].
  - by eapply tiles_join.
  - apply list.Forall_cons in Sh as [S1 [S2 Sh]%list.Forall_cons]. constructor; [|done]. by apply (shaped_join AREA_SIZE).
  - split; [done|]. destruct O1 as [_ _ H1 _]. cbn [c_size] in H1. unfold FREE_KEY in H1. lia.
  - intros c c' Hc Hc'. apply Ho; rewrite P; [set_solver..].
Qed.

(** ** The inner loop *)

(** Where the inner loop stops: [F1] was merged, [F2] is left. *)
Record merged (n : nat) (d d' : D) (m m' : entries) (mm : Z -> Z) (U F F1 F2 : list chunk) (cur : chunk) (t t' : Z) (s s' : bool) : Prop := {
  md_split : F ≡ₚ F1 ++ F2;
  md_merging : merging n d' m' mm U F2 cur t' s';
  md_released : forall c, c ∈ F1 -> released m c;
  md_others : forall q, (forall c, c ∈ F1 -> q <> ckey c) -> m' q = m q;
  md_span : forall x, span (Chunk (c_off cur) t' s' :: F2) x <-> span (Chunk (c_off cur) t s :: F) x;
  md_same : F1 = [] -> d' = d /\ m' = m /\ t' = t /\ s' = s;
  md_stuck : s' = true -> forall v, m' (header_bytes (c_off cur + t') mm) = Some v -> may_recycle (le_value v) = false
}.

Lemma merged_stop n d m mm U F cur t s : merging n d m mm U F cur t s ->
  (s = true -> forall v, m (header_bytes (c_off cur + t) mm) = Some v -> may_recycle (le_value v) = false) ->
  merged n d d m m mm U F [] F cur t t s s.
Proof. intros M H. split; try done. by intros c ?%elem_of_nil. Qed.

Lemma merge_ok k : forall n d c m mm U F cur t s b, (length F < k)%nat -> merging n d m mm U F cur t s -> fm_ready d c m ->
  exists d' c' m' F1 F2 t' s', merge k (c_off cur) mm (Run d c t s b) = Some (Run d' c' t' s' (b || bool_decide (F1 <> []))) /\
    merged n d d' m m' mm U F F1 F2 cur t t' s s' /\ fm_ready d' c' m'.
Proof.
  induction k as [|k IH]; intros n d c m mm U F cur t s b Hk M Rd; [lia|]. cbn [bigmem.merge BigMem.bigmem.has_successor]. destruct s; cbn [negb].
  2: { exists d, c, m, [], F, t, false. rewrite bool_decide_eq_false_2, orb_false_r by auto. split; [done|]. split; [|done]. by apply merged_stop. }
  cbn [BigMem.bigmem.r_trie r_cursor total_size found_mergeable]. pose proof (mg_free _ _ _ _ _ _ _ _ _ M) as [R _].
  destruct (header_bytes_ok (c_off cur + t) mm (mg_bytes _ _ _ _ _ _ _ _ _ M)) as [Hb Hl].
  destruct (find_ok _ _ _ _ _ R Rd Hb Hl) as (c1 & -> & Fo). cbn [mbind option_bind].
  rewrite (found_valid _ _ _ _ _ R Fo). destruct (m (header_bytes (c_off cur + t) mm)) as [v|] eqn:Ev; cbn [negb].
  2: { exists d, c1, m, [], F, t, true. rewrite bool_decide_eq_false_2, orb_false_r by auto. split; [done|]. split; [|by eapply ready_found].
    apply merged_stop; [done|]. intros _ v. by rewrite Ev. }
  pose proof (found_on _ _ _ _ _ R Fo (mk_is_Some _ _ Ev)) as On. destruct (on_reads _ _ _ _ _ R On) as (_ & _ & _ & _ & Ev').
  assert (recyclable d c1 = may_recycle (le_value v)) as -> by (unfold bigmem.recyclable; congruence).
  destruct (may_recycle (le_value v)) eqn:Er; cbn [negb].
  2: { exists d, c1, m, [], F, t, true. rewrite bool_decide_eq_false_2, orb_false_r by auto. split; [done|]. split; [|by eapply ready_found].
    apply merged_stop; [done|]. intros _ v'. rewrite Ev. by intros [= <-]. }
  destruct (merging_next _ _ _ _ _ _ _ _ _ M Ev) as (c2 & Hc2 & Eo & Ek).
  destruct (merging_apart _ _ _ _ _ _ _ _ _ M) as (Ol & _ & _). rewrite list.Forall_forall in Ol.
  assert (chunk_ok c2) as O2 by (apply Ol, elem_of_app; by left).
  assert (read_header (c_off cur + t) mm = chunk_key c2) as -> by (unfold read_header; by rewrite Ek, key_of_ckey).
  destruct (chunk_key_reads c2 O2) as (-> & _ & ->). apply elem_of_Permutation in Hc2 as [F' P].
  rewrite Ek in On, Ev. rewrite (Permutation_length P) in R, Hk. cbn [length Nat.add] in R, Hk.
  destruct (remove_ok _ _ _ _ _ R On) as (d1 & c3 & -> & R' & Rd'). cbn [mbind option_bind].
  pose proof (merging_step _ _ d1 _ _ _ _ _ _ c2 F' M P Eo R') as M'.
  destruct (IH n d1 c3 _ mm U F' cur _ _ true ltac:(lia) M' Rd') as (d' & c' & m' & F1 & F2 & t' & s' & E & [H1 H2 H3 H4 H5 H6 H7] & Rd2).
  exists d', c', m', (c2 :: F1), F2, t', s'. rewrite E. rewrite (bool_decide_eq_true_2 (c2 :: F1 <> [])), orb_true_r by done. split; [done|]. split; [|done].
  split; try done.
  - by rewrite P, H1.
  - intros c0 [->|Hc0]%list.elem_of_cons; [by exists v|]. destruct (H3 c0 Hc0) as (v0 & Hv0 & ?). exists v0. split; [|done].
    unfold del_key in Hv0. by destruct (decide _).
  - intros q Hq. rewrite H4 by (intros c0 Hc0; apply Hq; by right). apply del_key_ne, Hq. left.
  - intros x. rewrite H5, P, !span_cons. cbn [c_off c_size]. rewrite Eo. destruct O2 as [_ _ Hs _]. unfold FREE_KEY in Hs.
    destruct (mg_cur _ _ _ _ _ _ _ _ _ M) as [[_ _ Hs' _] Hle]. unfold FREE_KEY in Hs'.
    split; [intros [Hx|Hx]; [|tauto]|intros [Hx|[Hx|Hx]]; [left; lia|left; lia|tauto]].
    destruct (Z.lt_ge_cases x (c_off cur + t)); [left; lia|right; left; lia].
Qed.

(** ** The outer loop *)

(** The merged chunk takes the place of the first one. *)
Lemma replace_ok n d c m mm U F cur t s v : merging (2 + n) d m mm U F cur t s -> fm_ready d c m -> byte_list v -> length v = 4%nat ->
  let M := Chunk (c_off cur) t s in
  let m2 := put_key (ckey M) v (del_key (ckey cur) m) in
  exists c1 d1 c2 c3 d2 c4, fm_find (ckey cur) d c = Some c1 /\ fm_valid d c1 = true /\ fm_remove d c1 = Some (d1, c2) /\
    fm_find (ckey M) d1 c2 = Some c3 /\ fm_valid d1 c3 = false /\ fm_put v d1 c3 = Some (d2, c4) /\
    pass (length F + n) d2 m2 (write_header (c_off cur) (chunk_key M) mm) U (M :: F) /\ fm_ready d2 c4 m2.
Proof.
  intros Mg Rd Hv Hl M m2. destruct (merging_apart _ _ _ _ _ _ _ _ _ Mg) as (Ol & Ha & HaM).
  pose proof Mg as [Fl Ti Sh [Oc Hs] Hd Ho Hb]. pose proof (fl_rep _ _ _ _ Fl) as R. destruct (ckey_ok cur) as [K1 K2], (ckey_ok M) as [K3 K4].
  assert (chunk_ok M) as OM by (by destruct (beside _ _ Ti)). fold M in Ti, Sh, HaM. rewrite !Forall_app in Ol, Ha, HaM.
  destruct (find_ok _ _ _ _ _ R Rd K1 K2) as (c1 & E1 & Fo). pose proof (free_list_in _ _ _ _ cur Fl ltac:(left)) as Hin.
  pose proof (found_on _ _ _ _ _ R Fo Hin) as On. replace (length F + (2 + n))%nat with (S (S (length F + n)))%nat in * by lia.
  destruct (remove_ok _ _ _ _ _ R On) as (d1 & c2 & E2 & R1 & Rd1).
  assert (free_list (S (length F + n)) d1 (del_key (ckey cur) m) F) as Fl1.
  { apply (free_list_del _ d d1 m F cur); [exact Fl|constructor; tauto|apply apart_not_in; tauto|done]. }
  destruct (find_ok _ _ _ _ _ R1 Rd1 K3 K4) as (c3 & E3 & Fo3).
  destruct (put_ok _ _ _ _ _ v R1 Fo3 Hv Hl) as (d2 & c4 & E4 & R2 & Rd2).
  exists c1, d1, c2, c3, d2, c4. split; [done|]. split; [by destruct (on_reads _ _ _ _ _ R On) as (_ & _ & -> & _)|]. split; [done|]. split; [done|].
  split; [rewrite (found_valid _ _ _ _ _ R1 Fo3); rewrite (fresh_key _ _ _ F M Fl1); tauto|]. split; [done|]. split; [|done].
  split; try done.
  - by eapply free_list_put.
  - apply (headers_kept _ _ _ M U Hd OM); [done|tauto|tauto].
  - intros x y Hx Hy. destruct Ol as [OF _], HaM as [HaM _]. rewrite list.Forall_forall in OF, HaM.
    apply list.elem_of_cons in Hx as [->|Hx].
    + unfold read_header. change (c_off M) with (c_off cur). rewrite header_written, key_of_bytes by (by apply chunk_key_range).
      destruct (chunk_key_reads M OM) as (_ & -> & _). intros E. apply list.elem_of_cons in Hy as [->|Hy]; [done|].
      eapply (tiles_unique (M :: F ++ U)); [done|by right; apply elem_of_app; left|by left|done].
    + unfold read_header. rewrite header_unwritten.
      2: { pose proof (apart_bounds _ _ OM (OF _ Hx) (HaM _ Hx)) as Hb'. pose proof (ck_size _ OM). pose proof (ck_size _ (OF _ Hx)).
           cbn [M c_off c_size] in *. lia. }
      intros E. apply list.elem_of_cons in Hy as [->|Hy].
      * exfalso. assert (cur = x) as -> by (apply Ho; [by right|by left|done]). destruct Ha as [Ha _]. by apply (apart_not_in x F).
      * apply Ho; [by right|by right|done].
  - by apply write_bytes_ok.
Qed.

(** How many chunks do not come before a key. *)
Definition after (q : list Z) (F : list chunk) : nat := length (filter (fun x => ~ lex (ckey x) q < 0) F).

(** A chunk of a pass that [iter] is on, with those before it done. *)
Definition visiting (d : D) (iter : C) (m : entries) (mm : Z -> Z) (F : list chunk) (a : nat) : Prop :=
  (exists c, c ∈ F /\ fm_on d iter (ckey c) m /\ (after (ckey c) F <= a)%nat /\
     forall x, x ∈ F -> lex (ckey x) (ckey c) < 0 -> stuck m mm x) \/
  (fm_valid d iter = false /\ forall x, x ∈ F -> stuck m mm x).

Lemma filter_fewer {T} (P Q : T -> Prop) `{!forall x, Decision (P x), !forall x, Decision (Q x)} (l : list T) y :
  (forall x, P x -> Q x) -> y ∈ l -> Q y -> ~ P y -> (length (filter P l) < length (filter Q l))%nat.
Proof.
  intros HPQ. assert (forall k, (length (filter P k) <= length (filter Q k))%nat) as Hle.
  { induction k as [|x k IH]; [done|]. rewrite !filter_cons. destruct (decide (P x)) as [Hp|Hp], (decide (Q x)) as [Hq|Hq]; cbn [length]; try lia.
    by destruct Hq; apply HPQ. }
  induction l as [|x l IH]; [by intros ?%elem_of_nil|]. intros [->|Hy]%list.elem_of_cons Hq Hp; rewrite !filter_cons.
  - rewrite decide_False, decide_True by done. cbn [length]. specialize (Hle l). lia.
  - specialize (IH Hy Hq Hp). destruct (decide (P x)) as [Hp'|Hp'], (decide (Q x)) as [Hq'|Hq']; cbn [length]; try lia. by destruct Hq'; apply HPQ.
Qed.

(** The entries are those of the chunks. *)
Lemma entry_chunk n d m F q : free_list n d m F -> byte_list q -> is_Some (m q) -> exists c, c ∈ F /\ q = ckey c.
Proof. intros [_ H] Hq Hin. by apply H. Qed.

(** To the next chunk of the pass. *)
Lemma visit_next n d iter m mm U F c a : pass n d m mm U F -> c ∈ F -> fm_on d iter (ckey c) m ->
  (after (ckey c) F <= S a)%nat ->
  (forall x, x ∈ F -> lex (ckey x) (ckey c) < 0 -> stuck m mm x) -> stuck m mm c ->
  exists iter', fm_next d iter = Some iter' /\ visiting d iter' m mm F a.
Proof.
  intros Ps Hc On Ha Hst Hsc. pose proof (ps_free _ _ _ _ _ _ Ps) as Fl. pose proof (fl_rep _ _ _ _ Fl) as R.
  destruct (next_ok _ _ _ _ _ R (or_intror On)) as (iter' & E & H). exists iter'. split; [done|].
  assert (forall x, x ∈ F -> ~ lex (ckey x) (ckey c) < 0 -> x = c \/ lex (ckey c) (ckey x) < 0) as Htot.
  { intros x Hx Hn. pose proof (ti_ok _ (ps_tiles _ _ _ _ _ _ Ps)) as Ok. rewrite Forall_app, !list.Forall_forall in Ok. destruct Ok as [Ok _].
    destruct (decide (ckey x = ckey c)) as [Ek|Hne]; [left; apply (ckey_inj x c); auto|right].
    pose proof (lex_flip (ckey x) (ckey c)). rewrite <- lex_zero in Hne. lia. }
  destruct H as [(q' & On' & [L1 L2 L3])|(V & _ & Hno)].
  - destruct (on_reads _ _ _ _ _ R On') as (Hb & _). destruct (entry_chunk _ _ _ _ _ Fl Hb L1) as (c' & Hc' & ->).
    left. exists c'. split; [done|]. split; [done|]. split.
    + enough (after (ckey c') F < after (ckey c) F)%nat by lia.
      apply (filter_fewer _ _ F c); [|done|rewrite lex_refl; lia|tauto]. intros x Hx Hlt. apply Hx. by eapply lex_lt_trans.
    + intros x Hx Hlt. destruct (decide (lex (ckey x) (ckey c) < 0)) as [|Hn]; [by apply Hst|].
      destruct (Htot x Hx Hn) as [->|Hgt]; [done|]. exfalso.
      destruct (L3 (ckey x) (proj1 (ckey_ok x)) (free_list_in _ _ _ _ _ Fl Hx) Hgt) as [E'|Hlt'].
      * rewrite E', lex_refl in Hlt. lia.
      * pose proof (lex_lt_trans _ _ _ Hlt Hlt') as Hi. rewrite lex_refl in Hi. lia.
  - right. split; [done|]. intros x Hx. destruct (decide (lex (ckey x) (ckey c) < 0)) as [|Hn]; [by apply Hst|].
    destruct (Htot x Hx Hn) as [->|Hgt]; [done|]. exfalso.
    by apply (Hno (ckey x) (proj1 (ckey_ok x)) (free_list_in _ _ _ _ _ Fl Hx)).
Qed.

(** To the first chunk of the next pass. *)
Lemma visit_first n d iter m mm U F : pass n d m mm U F ->
  exists iter', fm_first d iter = Some iter' /\ visiting d iter' m mm F (length F).
Proof.
  intros Ps. pose proof (ps_free _ _ _ _ _ _ Ps) as Fl. pose proof (fl_rep _ _ _ _ Fl) as R.
  destruct (first_ok _ _ _ iter R) as (iter' & E & H). exists iter'. split; [done|]. destruct H as [(q' & On & [L1 _ L3])|(V & Hno)].
  - destruct (on_reads _ _ _ _ _ R On) as (Hb & _). destruct (entry_chunk _ _ _ _ _ Fl Hb L1) as (c & Hc & ->).
    left. exists c. split; [done|]. split; [done|]. split; [apply length_filter|].
    intros x Hx Hlt. exfalso. destruct (L3 (ckey x) (proj1 (ckey_ok x)) (free_list_in _ _ _ _ _ Fl Hx) I) as [E'|Hlt'].
    + rewrite E', lex_refl in Hlt. lia.
    + pose proof (lex_lt_trans _ _ _ Hlt Hlt') as Hi. rewrite lex_refl in Hi. lia.
  - right. split; [done|]. intros x Hx. destruct (free_list_in _ _ _ _ _ Fl Hx) as [v Hv]. by rewrite Hno in Hv by apply ckey_ok.
Qed.

(** What a pass makes of the free chunks. *)
Record defragged (m : entries) (F : list chunk) (m' : entries) (F' : list chunk) : Prop := {
  df_span : forall x, span F' x <-> span F x;
  df_kept : forall c, c ∈ F -> ~ released m c -> c ∈ F' /\ m' (ckey c) = m (ckey c);
  df_less : (length F' <= length F)%nat
}.

Lemma defragged_trans m F m1 F1 m2 F2 : defragged m F m1 F1 -> defragged m1 F1 m2 F2 -> defragged m F m2 F2.
Proof.
  intros [A1 A2 A3] [B1 B2 B3]. split; [intros x; by rewrite B1| |lia]. intros c Hc Hn. destruct (A2 c Hc Hn) as [Hc1 E1].
  destruct (B2 c Hc1) as [Hc2 E2]; [|by rewrite E2]. intros (v & Hv & Hr). apply Hn. exists v. by rewrite <- E1.
Qed.

Lemma keys_apart c c' : chunk_ok c -> chunk_ok c' -> apart c c' -> ckey c <> ckey c'.
Proof. intros Oc Oc' Ha E. apply ckey_inj in E as <-; [|done..]. by apply (apart_not_in c [c] Oc); [constructor|left]. Qed.

Lemma merging_init d m mm U F c F' : pass (3 * length F) d m mm U F -> F ≡ₚ c :: F' ->
  merging (2 + (2 * length F' + 1)) d m mm U F' c (c_size c) (c_succ c).
Proof.
  intros [P1 P2 P3 P4 P5 P6] P. rewrite (Permutation_length P) in P1. rewrite P in P1, P2, P3. cbn [length app] in *.
  assert (Chunk (c_off c) (c_size c) (c_succ c) = c) as Ec by by destruct c. split; rewrite ?Ec; try done.
  - eapply free_list_less; [|exact P1]. lia.
  - split; [|done]. by destruct (beside _ _ P2).
  - intros x y Hx Hy. apply P5; by rewrite P.
Qed.

Lemma merged_defragged n d d' m m' mm U F c F' F1 F2 t' s' v : pass (3 * length F) d m mm U F -> F ≡ₚ c :: F' -> F1 <> [] ->
  m (ckey c) = Some v -> may_recycle (le_value v) = true ->
  merged n d d' m m' mm U F' F1 F2 c (c_size c) t' (c_succ c) s' ->
  let M := Chunk (c_off c) t' s' in
  defragged m F (put_key (ckey M) v (del_key (ckey c) m')) (M :: F2) /\ (S (length F2) < length F)%nat.
Proof.
  intros Ps P Hne Hv Hr [H1 H2 H3 H4 H5 _ _] M. pose proof (ps_tiles _ _ _ _ _ _ Ps) as Ti. rewrite P, H1 in Ti. cbn [app] in Ti.
  assert (S (length F2) < length F)%nat as Hlen.
  { rewrite (Permutation_length P). cbn [length]. rewrite (Permutation_length H1), length_app. destruct F1; [done|]. cbn [length]. lia. }
  split; [|done]. destruct (beside _ _ Ti) as (Oc & Ol & Ha). pose proof Ti as [_ [_ Hp] _]. rewrite <- app_assoc in *.
  rewrite pairwise_app in Hp. destruct Hp as (_ & _ & Hp). rewrite !Forall_app, !list.Forall_forall in Ol, Ha. rewrite list.Forall_forall in Hp.
  destruct Ol as (O1 & O2 & _), Ha as (_ & Ha & _). split; [| |cbn [length]; lia].
  - intros x. rewrite P. assert (Chunk (c_off c) (c_size c) (c_succ c) = c) as Ec by by destruct c. rewrite Ec in H5. apply H5.
  - intros x Hx Hn. rewrite P, H1 in Hx. apply list.elem_of_cons in Hx as [->|[Hx|Hx]%elem_of_app].
    + destruct Hn. by exists v.
    + destruct Hn. by apply H3.
    + split; [by right|]. destruct (merging_apart _ _ _ _ _ _ _ _ _ H2) as (_ & _ & HaM). destruct (beside _ _ (mg_tiles _ _ _ _ _ _ _ _ _ H2)) as (OM & _).
      rewrite Forall_app, !list.Forall_forall in HaM. destruct HaM as [HaM _].
      rewrite put_key_ne by (intros E; symmetry in E; revert E; apply keys_apart; auto).
      rewrite del_key_ne by (intros E; symmetry in E; revert E; apply keys_apart; auto).
      apply H4. intros y Hy E. symmetry in E. revert E. apply keys_apart; [by apply O1|by apply O2|].
      specialize (Hp y Hy). rewrite list.Forall_forall in Hp. apply Hp, elem_of_app. by left.
Qed.

(** The outer loop ends when every chunk was visited without a merge. *)
Lemma defrag_loop_ok fuel U : forall n d m mm F iter lookup a, (length F <= fuel)%nat -> (length F * length F + a + 1 <= n)%nat ->
  pass (3 * length F) d m mm U F -> visiting d iter m mm F a -> fm_ready d lookup m ->
  exists d' mm' m' F', defrag_loop may_recycle n fuel d mm iter lookup = Some (d', mm') /\
    pass (3 * length F') d' m' mm' U F' /\ (forall x, x ∈ F' -> stuck m' mm' x) /\ defragged m F m' F'.
Proof.
  induction n as [|n IH]; intros d m mm F iter lookup a Hfu Hn Ps Vi Rd; [lia|]. cbn [defrag_loop].
  pose proof (ps_free _ _ _ _ _ _ Ps) as Fl. pose proof (fl_rep _ _ _ _ Fl) as R. destruct Vi as [(c & Hc & On & Ha & Hst)|[V Hst]].
  2: { rewrite V. exists d, mm, m, F. split; [done|]. by split_and!. }
  destruct (on_reads _ _ _ _ _ R On) as (_ & _ & V & Ek & Ev). rewrite V. cbn [negb].
  assert (exists a', a = S a') as [a' ->].
  { destruct a as [|a]; [exfalso|by exists a]. assert (c ∈ filter (fun x => ~ lex (ckey x) (ckey c) < 0) F) as Hin.
    { apply list_elem_of_filter. split; [rewrite lex_refl; lia|done]. }
    unfold after in Ha. destruct (filter _ F); [by apply elem_of_nil in Hin|cbn [length] in Ha; lia]. }
  assert (forall lookup', fm_ready d lookup' m -> stuck m mm c -> exists d' mm' m' F',
    (iter ← fm_next d iter; defrag_loop may_recycle n fuel d mm iter lookup') = Some (d', mm') /\
    pass (3 * length F') d' m' mm' U F' /\ (forall x, x ∈ F' -> stuck m' mm' x) /\ defragged m F m' F') as Hgo.
  { intros lookup' Rd' Hs. destruct (visit_next _ _ _ _ _ _ _ _ _ Ps Hc On Ha Hst Hs) as (iter' & -> & Vi). cbn [mbind option_bind].
    by apply (IH d m mm F iter' lookup' a'); [|lia|..]. }
  assert (recyclable d iter = may_recycle (le_value (fm_value d iter))) as -> by done.
  destruct (may_recycle (le_value (fm_value d iter))) eqn:Er; cbn [negb].
  2: { apply Hgo; [done|]. intros (v & Hv & Hr). congruence. }
  assert (chunk_ok c) as Oc by (eapply tiles_chunk; [apply Ps|apply elem_of_app; by left]).
  rewrite Ek, key_of_ckey by done. destruct (chunk_key_reads c Oc) as (-> & -> & ->).
  pose proof Hc as [F' P]%elem_of_Permutation. pose proof (Permutation_length P) as Elen. cbn [length] in Elen.
  destruct (merge_ok fuel _ d lookup m mm U F' c (c_size c) (c_succ c) false ltac:(lia) (merging_init _ _ _ _ _ _ _ Ps P) Rd)
    as (d1 & c1 & m1 & F1 & F2 & t' & s' & -> & Md & Rd1). cbn [mbind option_bind found_mergeable orb r_trie r_cursor total_size BigMem.bigmem.has_successor].
  destruct (decide (F1 = [])) as [->|Hne].
  - rewrite bool_decide_eq_false_2 by auto. destruct (md_same _ _ _ _ _ _ _ _ _ _ _ _ _ _ _ Md eq_refl) as (-> & -> & -> & ->).
    apply Hgo; [done|]. intros _ Hs v. by apply (md_stuck _ _ _ _ _ _ _ _ _ _ _ _ _ _ _ Md).
  - rewrite bool_decide_eq_true_2 by done. rewrite no_flag_even by apply Oc.
    destruct (rep_value _ _ _ _ _ R (proj1 (ckey_ok c)) Ev) as [Hv1 Hv2].
    destruct (replace_ok _ d1 c1 m1 mm U F2 c t' s' (fm_value d iter) (md_merging _ _ _ _ _ _ _ _ _ _ _ _ _ _ _ Md) Rd1 Hv1 Hv2)
      as (c2 & d2 & c3 & c4 & d3 & c5 & E1 & E2 & E3 & E4 & E5 & E6 & Ps' & Rd2).
    change (key_bytes (chunk_key c)) with (ckey c). rewrite E1. cbn [mbind option_bind]. rewrite E2. cbn [negb]. rewrite E3. cbn [mbind option_bind].
    change (key_bytes (FreeKey t' (with_flag (c_off c) s'))) with (ckey (Chunk (c_off c) t' s')).
    rewrite E4. cbn [mbind option_bind]. rewrite E5, E6. cbn [mbind option_bind].
    change (FreeKey t' (with_flag (c_off c) s')) with (chunk_key (Chunk (c_off c) t' s')).
    destruct (merged_defragged _ _ _ _ _ _ _ _ _ _ _ _ _ _ _ Ps P Hne Ev Er Md) as [Df Hlt].
    assert (length F' = length F1 + length F2)%nat as EF by (rewrite (Permutation_length (md_split _ _ _ _ _ _ _ _ _ _ _ _ _ _ _ Md)); apply length_app).
    assert (length F1 <> 0)%nat as HF1 by (by destruct F1).
    assert (pass (3 * length (Chunk (c_off c) t' s' :: F2)) d3 (put_key (ckey (Chunk (c_off c) t' s')) (fm_value d iter) (del_key (ckey c) m1))
      (write_header (c_off c) (chunk_key (Chunk (c_off c) t' s')) mm) U (Chunk (c_off c) t' s' :: F2)) as Ps2.
    { destruct Ps' as [Q1 Q2 Q3 Q4 Q5 Q6]. split; try done. eapply free_list_less; [|exact Q1]. cbn [length]. lia. }
    destruct (visit_first _ d3 iter _ _ _ _ Ps2) as (iter' & -> & Vi). cbn [mbind option_bind].
    destruct (IH d3 _ _ (Chunk (c_off c) t' s' :: F2) iter' c5 (S (length F2)) ltac:(cbn [length]; lia) ltac:(cbn [length]; nia) Ps2 Vi Rd2) as (d' & mm' & m' & F3 & E & Q1 & Q2 & Q3).
    exists d', mm', m', F3. split; [exact E|]. split; [done|]. split; [done|]. by eapply defragged_trans.
Qed.

(** ** The whole operation *)

(** The hot chunk becomes a free one first. *)
Lemma flush_first n st U F m : inv (S n) st U F m -> honest (F ++ hot st) (mem st) -> bytes_ok (mem st) ->
  exists st1 F1 m1,
    (if 0 <? hot_size st then
       st ← bigmem.add_chunk stamp (hot_offset st) (hot_size st) (hot_successor st) false st; Some (set_hot 0 0 false st)
     else Some st) = Some st1 /\
    pass n (free_trie st1) m1 (mem st) U F1 /\ F1 ≡ₚ F ++ hot st /\ mem st1 = mem st /\ storage st1 = storage st /\ hot_size st1 = 0 /\
    (forall c, c ∈ F -> m1 (ckey c) = m (ckey c)).
Proof.
  intros I Ho Hb. destruct (Z.ltb_spec 0 (hot_size st)) as [Hh|Hh].
  - destruct (flush_hot AREA_SIZE AREA_HEADER MAX_PAGE_SIZE may_recycle stamp sizes_ok [] n st U F m I Hh) as (d & c & E & J). rewrite E. cbn [mbind option_bind].
    set (h := Chunk (hot_offset st) (hot_size st) (hot_successor st)) in *.
    eexists _, (h :: F), (put_key (ckey h) (block_bytes 0) m). split; [done|]. pose proof J as [J1 J2 J3 J4 J5 J6 J7]. cbn [app] in J4, J5.
    rewrite (hot_none (set_hot 0 0 false _)), app_nil_r in J4, J5 by done.
    rewrite hot_some in * by done. fold h in Ho |- *.
    assert (h :: F ≡ₚ F ++ [h]) as P by apply Permutation_cons_append. split; [|split_and!; try done].
    + rewrite Permutation_app_comm in J4, J5. split; [exact J1|exact J4|exact J5|exact J6| |done].
      intros x y. rewrite P. apply Ho.
    + intros x Hx. apply put_key_ne. rewrite Permutation_app_comm in J4.
      apply (tiles_key h (F ++ U)); [done|apply elem_of_app; by left].
  - pose proof I as [I1 I2 I3 I4 I5 I6 I7]. assert (hot_size st = 0) as Hz by lia. rewrite hot_none, app_nil_r in * by done.
    exists st, F, m. split; [done|]. split; [|by split_and!]. cbn [app] in *. rewrite Permutation_app_comm in I4, I5. split; try done.
    eapply free_list_less; [|exact I1]. lia.
Qed.

(** C9: Where the bytes a free chunk begins with do not look like the header of another free
    chunk ([honest]; they may be an old value, [defrag_trusts_old_values]), merging free
    chunks ends; it moves no chunk in use, loses no byte and overlaps nothing, leaves the
    chunks alone whose transaction is not released, and nothing remains that could be
    merged. The map is used through a new cursor afterwards. *)
Theorem defrag_merges_all n fuel st U F m : inv (S (3 * length (F ++ hot st))) st U F m -> honest (F ++ hot st) (mem st) -> bytes_ok (mem st) ->
  (length (F ++ hot st) <= fuel)%nat -> (length (F ++ hot st) * length (F ++ hot st) + length (F ++ hot st) + 1 <= n)%nat ->
  exists st' F' m', defrag may_recycle stamp n fuel st = Some st' /\
    inv (3 * length F') (set_free (free_trie st') fm_fresh st') U F' m' /\ hot st' = [] /\
    (forall x, span F' x <-> span (F ++ hot st) x) /\
    (forall c, c ∈ F -> ~ released m c -> c ∈ F' /\ m' (ckey c) = m (ckey c)) /\
    (forall c, c ∈ F' -> stuck m' (mem st') c).
Proof.
  intros I Ho Hb Hfu Hn. unfold defrag.
  destruct (flush_first _ _ _ _ _ I Ho Hb) as (st1 & F1 & m1 & -> & Ps & P & Em & Es & Hz & Ek). cbn [mbind option_bind].
  rewrite <- (Permutation_length P) in *. destruct (visit_first _ _ fm_fresh _ _ _ _ Ps) as (iter & -> & Vi). cbn [mbind option_bind].
  pose proof (fl_rep _ _ _ _ (ps_free _ _ _ _ _ _ Ps)) as R.
  destruct (defrag_loop_ok fuel U n _ _ _ F1 iter fm_fresh (length F1) Hfu Hn Ps Vi (ready_fresh _ _ _ R))
    as (d' & mm' & m' & F' & E & [Q1 Q2 Q3 Q4 Q5 Q6] & Hst & [D1 D2 D3]).
  rewrite Em, E. cbn [mbind option_bind]. eexists _, F', m'. split; [done|].
  assert (hot (set_mem mm' (set_free d' (free_cursor st1) st1)) = []) as Eh by by apply hot_none.
  split; [|split; [done|]; split_and!].
  - split; cbn [app]; rewrite ?(hot_none (set_free _ _ _)) by done; rewrite ?app_nil_r; try done.
    + by apply (ready_fresh _ _ _ (fl_rep _ _ _ _ Q1)).
    + cbn [set_free set_mem hot_size]. lia.
    + by rewrite Permutation_app_comm.
    + by rewrite Permutation_app_comm.
    + cbn [set_free set_mem storage]. rewrite Es. intros x Hx. apply (iv_claimed _ _ _ _ _ _ _ _ I). cbn [app].
      rewrite span_app in *. rewrite D1, P in Hx. exact Hx.
  - intros x. by rewrite D1, P.
  - intros c Hc Hnr. destruct (D2 c) as [Hc' E']; [rewrite P; apply elem_of_app; by left| |by rewrite E', Ek].
    intros (v & Hv & Hr). apply Hnr. exists v. by rewrite <- Ek.
  - exact Hst.
Qed.

End with_laws.
End bigmemdefrag.
