(* ===== verification/BigMemExample.v ===== *)
(** * BigMemExample: big values on a plain map

    The smallest map that satisfies [FreeMapLaws] and the smallest source of areas.
    The theorems about big values are applied to it, and it runs a history in which
    [defrag] hands out a chunk in use. *)
From S2P Require Import Prelude Util Bytes BigMem BigMemFacts BigMemDefrag.

Module bigmemexample.
Export bigmemdefrag.
Import util.

(** ** The map *)

Abbreviation pairs := (list (list Z * list Z)).

Fixpoint get (q : list Z) (d : pairs) : option (list Z) :=
  match d with
  | [] => None
  | (k, v) :: d => if decide (q = k) then Some v else get q d
  end.

Definition drop_key (q : list Z) (d : pairs) : pairs := filter (fun e => q <> e.1) d.

(** The least key that satisfies [P]. *)
Fixpoint min_key (P : list Z -> bool) (d : pairs) : option (list Z) :=
  match d with
  | [] => None
  | (k, _) :: d =>
      match min_key P d with
      | Some k' => if P k && (lex k k' <? 0) then Some k else Some k'
      | None => if P k then Some k else None
      end
  end.

#[export] Instance pairs_map : FreeMap pairs (option (list Z)) := {
  fm_fresh := None;
  fm_find q _ _ := Some (Some q);
  fm_first d _ := Some (min_key (fun _ => true) d);
  fm_next d c := Some (q ← c; min_key (fun x => lex q x <? 0) d);
  fm_valid d c := match q ← c; get q d with Some _ => true | None => false end;
  fm_key c := default [] c;
  fm_value d c := default [] (q ← c; get q d);
  fm_put v d c := match c with Some q => Some ((q, v) :: drop_key q d, c) | None => None end;
  fm_remove d c := match c with Some q => Some (drop_key q d, None) | None => None end
}.

Lemma get_drop q x d : get x (drop_key q d) = if decide (x = q) then None else get x d.
Proof.
  induction d as [|[k v] d IH]; [by destruct (decide _)|]. unfold drop_key in *. rewrite filter_cons. cbn [fst get].
  repeat case_decide; cbn [get]; rewrite ?IH; repeat case_decide; congruence.
Qed.

Lemma get_in q d : is_Some (get q d) <-> q ∈ d.*1.
Proof.
  induction d as [|[k v] d IH]; cbn [get]; [split; [by intros []|by intros ?%elem_of_nil]|].
  rewrite fmap_cons, list.elem_of_cons, <- IH. cbn [fst]. case_decide; [subst|]; naive_solver.
Qed.

Lemma min_key_spec P d : match min_key P d with
  | Some k => (k ∈ d.*1 /\ P k = true) /\ forall q, q ∈ d.*1 -> P q = true -> q = k \/ lex k q < 0
  | None => forall q, q ∈ d.*1 -> P q = false
  end.
Proof.
  induction d as [|[k v] d IH]; cbn [min_key]; [by intros q ?%elem_of_nil|]. rewrite fmap_cons. cbn [fst].
  destruct (min_key P d) as [k'|]; destruct (P k) eqn:EP; cbn [andb].
  - destruct IH as [[H1 H2] H3]. destruct (Z.ltb_spec (lex k k') 0) as [Hl|Hl].
    + split; [by split; [left|]|]. intros q [->|Hq]%list.elem_of_cons Eq; [by left|]. right.
      destruct (H3 q Hq Eq) as [->|Hq']; [done|]. by eapply lex_lt_trans.
    + split; [by split; [right|]|]. intros q [->|Hq]%list.elem_of_cons Eq; [|by apply H3].
      destruct (decide (lex k k' = 0)) as [->%lex_zero|]; [by left|]. right. rewrite lex_flip. lia.
  - destruct IH as [[H1 H2] H3]. split; [by split; [right|]|]. intros q [->|Hq]%list.elem_of_cons Eq; [congruence|by apply H3].
  - split; [by split; [left|]|]. intros q [->|Hq]%list.elem_of_cons Eq; [by left|]. by rewrite IH in Eq.
  - intros q [->|Hq]%list.elem_of_cons; [done|by apply IH].
Qed.

Definition pairs_rep (d : pairs) (m : entries) : Prop :=
  (forall q, get q d = m q) /\ Forall (fun e => (byte_list e.1 /\ length e.1 = 16%nat) /\ byte_list e.2 /\ length e.2 = 4%nat) d.

Definition pairs_found (c : option (list Z)) (q : list Z) : Prop := c = Some q /\ byte_list q /\ length q = 16%nat.

Lemma pairs_key d m q : pairs_rep d m -> is_Some (m q) -> byte_list q /\ length q = 16%nat.
Proof.
  intros [H1 H2] H. rewrite <- H1, get_in, list_elem_of_fmap in H. destruct H as (e & -> & He).
  rewrite list.Forall_forall in H2. by apply H2.
Qed.

Lemma pairs_least d m P : pairs_rep d m ->
  (exists q', min_key P d = Some q' /\ (is_Some (m q') /\ pairs_found (Some q') q') /\ least (fun x => P x = true) m q') \/
  (min_key P d = None /\ forall x, is_Some (m x) -> P x = false).
Proof.
  intros R. pose proof R as [H1 _]. assert (forall q, q ∈ d.*1 <-> is_Some (m q)) as E by (intros q; by rewrite <- get_in, H1).
  pose proof (min_key_spec P d) as M. destruct (min_key P d) as [k|]; setoid_rewrite E in M; [left|by right].
  destruct M as [[M1 M2] M3]. exists k. split; [done|]. split.
  - split; [done|]. split; [done|]. by eapply pairs_key.
  - split; [done|done|]. intros q _ Hq. by apply M3.
Qed.

Lemma pairs_drop d m q : pairs_rep d m -> pairs_rep (drop_key q d) (del_key q m).
Proof.
  intros [H1 H2]. split; [intros x; rewrite get_drop; unfold del_key; case_decide; congruence|].
  rewrite list.Forall_forall in *. intros e [_ He]%list_elem_of_filter. by apply H2.
Qed.

#[export, program] Instance pairs_laws : FreeMapLaws pairs (option (list Z)) := {
  fm_rep _ d m := pairs_rep d m;
  fm_ready _ _ _ := True;
  fm_found _ c q _ := pairs_found c q;
  fm_on d c q m := is_Some (m q) /\ pairs_found c q
}.
Next Obligation. done. Qed.
Next Obligation.
  intros n d m q v [H1 H2] _ E. rewrite <- H1 in E. clear H1 m. induction d as [|[k w] d IH]; cbn [get] in E; [done|].
  apply list.Forall_cons in H2 as [H H2]. case_decide; [injection E as <-; apply H|by apply IH].
Qed.
Next Obligation. done. Qed.
Next Obligation. done. Qed.
Next Obligation. done. Qed.
Next Obligation. intros n d m c q _ _ H1 H2. by exists (Some q). Qed.
Next Obligation. intros n d m c q [H _] (-> & _). cbn. by rewrite H. Qed.
Next Obligation. done. Qed.
Next Obligation.
  intros n d m c q [H _] [[v Hv] (-> & H1 & H2)]. cbn. rewrite H, Hv. by split_and!.
Qed.
Next Obligation.
  intros n d m c q R Hc. assert (pairs_found c q) as (-> & _) by tauto. eexists. split; [done|]. cbn [mbind option_bind].
  destruct (pairs_least d m (fun x => lex q x <? 0) R) as [(q' & -> & On & [L1 L2 L3])|[-> Hn]].
  - left. exists q'. split; [done|]. split; [done|lia|]. intros x H1 H2 H3. apply L3; [done|done|lia].
  - right. split; [done|]. split; [done|]. intros x _ Hx. specialize (Hn x Hx). lia.
Qed.
Next Obligation.
  intros n d m c R. eexists. split; [done|]. destruct (pairs_least d m (fun _ => true) R) as [(q' & -> & On & [L1 L2 L3])|[-> Hn]].
  - left. exists q'. split; [done|]. split; [done|done|]. intros x H1 H2 _. by apply L3.
  - right. split; [done|]. intros x _. destruct (m x) eqn:E; [|done]. by specialize (Hn x (mk_is_Some _ _ E)).
Qed.
Next Obligation.
  intros n d m c q v [H1 H2] (-> & Hq1 & Hq2) Hv1 Hv2. eexists _, _. split; [done|]. split; [|done]. split.
  - intros x. cbn [get]. rewrite get_drop. unfold put_key. repeat case_decide; congruence.
  - constructor; [done|]. apply (proj2 (pairs_drop d m q (conj H1 H2))).
Qed.
Next Obligation.
  intros n d m c q R [_ (-> & _)]. eexists _, _. split; [done|]. split; [by apply pairs_drop|done].
Qed.

(** ** The areas *)

(** Areas are handed out one after the other. *)
#[export] Instance rows : AreaSource Z := {
  alloc_multi_area n s :=
    let k := padding n 256 in
    if (0 <? s) && (s mod 256 =? 0) && (s + k <? 2 ^ 64) then Some (s, k, s + k) else None;
  unclaimed s x := s <= x
}.

#[export] Instance rows_laws : AreaLaws Z 256.
Proof.
  split. intros n s o k s' Hn. cbn. destruct (_ && _ && _) eqn:E; [|done]. intros [= <- <- <-].
  pose proof (padding_bounds n 256 eq_refl). pose proof (padding_mod n 256 eq_refl).
  split_and!; lia.
Qed.

(** A transaction counts as released up to the id 5; [free] stores the id 1. *)
Definition old (i : Z) : bool := i <=? 5.
Abbreviation state := (@bigmem.state pairs (option (list Z)) Z).
Abbreviation alloc := (bigmem.alloc 256 32 64 old 1).
Abbreviation free := (bigmem.free 1).
Abbreviation defrag := (bigmem.defrag old 1).
Abbreviation inv := (bigmemfacts.inv 32 64).

Lemma sizes : 0 < 32 /\ 32 mod 2 = 0 /\ 32 + FREE_KEY <= 64 /\ 64 mod 2 = 0 /\ 0 < 256 /\ 256 mod 64 = 0 /\ 256 < 2 ^ 32.
Proof. by vm_compute. Qed.

Definition empty : state := State [] None 0 0 false (fun _ => 0) 256.

Lemma empty_inv n : inv n empty [] [] (fun _ => None).
Proof.
  split; cbn [app empty hot hot_size Z.ltb Z.compare free_trie free_cursor mem storage]; try done.
  - split; [done|]. intros q _. split; [by intros []|by intros (c & ?%elem_of_nil & _)].
  - split; [done|done|]. by intros c ?%elem_of_nil.
  - intros c ?%elem_of_nil. done.
  - intros x (c & ?%elem_of_nil & _). done.
Qed.

Lemma alloc_takes_chunk_witness : exists st' v c F' m', alloc 100 empty = Some (st', v) /\ v = BigValue (c_off c + FREE_KEY) 100 /\
  allocated 32 64 old 0 100 empty st' [] [] F' (fun _ => None) m' c.
Proof.
  pose proof (alloc_takes_chunk 256 32 64 old 1 sizes 0 100 empty [] [] (fun _ => None) (empty_inv 2) ltac:(lia)) as H.
  destruct (alloc 100 empty) as [[st' v]|] eqn:E; [|vm_compute in E; discriminate E].
  destruct H as (c & F' & m' & H1 & H2). by exists st', v, c, F', m'.
Defined.

(** Three chunks of one area: two of them in use or free, the last one is hot. *)
Definition first_chunk : chunk := Chunk 288 128 true.
Definition second_chunk : chunk := Chunk 416 64 true.
Definition area_mem : Z -> Z := write_header 416 (chunk_key second_chunk) (write_header 288 (chunk_key first_chunk) (fun _ => 0)).
Definition area_state (d : pairs) : state := State d None 480 32 false area_mem 512.

Lemma area_tiles : tiles [first_chunk; second_chunk; Chunk 480 32 false].
Proof.
  unfold first_chunk, second_chunk. split.
  - repeat constructor; try (by intros); cbn; unfold FREE_KEY; lia.
  - repeat split; repeat constructor; try done; apply bounds_apart; cbn; lia.
  - intros c [->|[->|[->|?%elem_of_nil]%list.elem_of_cons]%list.elem_of_cons]%list.elem_of_cons Hs; [| |done..].
    + exists second_chunk. split; [by right; left|done].
    + exists (Chunk 480 32 false). split; [by do 2 right; left|done].
Qed.

Lemma area_inv n d U F m : U ++ F ≡ₚ [first_chunk; second_chunk] -> pairs_rep d m ->
  (forall q, byte_list q -> is_Some (m q) <-> exists c, c ∈ F /\ q = ckey c) -> inv n (area_state d) U F m.
Proof.
  intros P R Hk. pose proof area_tiles as Ti.
  assert (U ++ F ++ hot (area_state d) ≡ₚ [first_chunk; second_chunk; Chunk 480 32 false]) as P' by by rewrite app_assoc, P.
  split; cbn [app]; try done; [by rewrite P'|rewrite P'; by repeat constructor| |].
  - intros c Hc. assert (c ∈ U ++ F) as Hc' by (apply elem_of_app; by left). rewrite P in Hc'.
    by apply list.elem_of_cons in Hc' as [->|[->|?%elem_of_nil]%list.elem_of_cons].
  - intros x Hx. cbn in Hx |- *. rewrite P' in Hx.
    repeat (apply span_cons in Hx as [Hx|Hx]; [cbn in Hx; lia|]). by destruct Hx as (? & ?%elem_of_nil & _).
Qed.

Definition free_pairs (F : list chunk) : pairs := map (fun c => (ckey c, block_bytes 1)) F.

Lemma free_pairs_rep F : pairs_rep (free_pairs F) (fun q => get q (free_pairs F)).
Proof.
  split; [done|]. rewrite list.Forall_forall. intros e (c & -> & Hc)%list_elem_of_fmap. cbn [fst snd].
  split; [apply ckey_ok|apply block_bytes_ok].
Qed.

Lemma free_pairs_keys F q : is_Some (get q (free_pairs F)) <-> exists c, c ∈ F /\ q = ckey c.
Proof.
  rewrite get_in. unfold free_pairs. rewrite <- list_fmap_compose, list_elem_of_fmap. cbn. naive_solver.
Qed.

Lemma free_returns_chunk_witness : exists st', free (BigValue 304 100) (area_state []) = Some st' /\
  inv 0 st' [second_chunk] [first_chunk] (put_key (ckey first_chunk) (block_bytes 1) (fun _ => None)).
Proof.
  destruct (free_returns_chunk 256 32 64 old 1 sizes 0 (area_state []) [first_chunk; second_chunk] [second_chunk] [] (fun _ => None)
    first_chunk 100) as (st' & H1 & H2 & _); [|done|by exists st'].
  apply (area_inv 1 [] _ [] (fun _ => None)); [done|by split|]. intros q _. split; [by intros []|by intros (c & ?%elem_of_nil & _)].
Defined.

Lemma area_honest : honest ([first_chunk; second_chunk] ++ hot (area_state (free_pairs [first_chunk; second_chunk]))) area_mem.
Proof.
  intros c c' [->|[->|[->|?%elem_of_nil]%list.elem_of_cons]%list.elem_of_cons]%list.elem_of_cons
    [->|[->|[->|?%elem_of_nil]%list.elem_of_cons]%list.elem_of_cons]%list.elem_of_cons; done.
Qed.

Lemma area_bytes : bytes_ok area_mem.
Proof. by do 2 apply write_bytes_ok. Qed.

Lemma defrag_merges_all_witness : exists st' F' m', defrag 13 3 (area_state (free_pairs [first_chunk; second_chunk])) = Some st' /\
  inv (3 * length F') (set_free (free_trie st') None st') [] F' m'.
Proof.
  destruct (defrag_merges_all 256 32 64 old 1 sizes 13 3 (area_state (free_pairs [first_chunk; second_chunk])) []
    [first_chunk; second_chunk] (fun q => get q (free_pairs [first_chunk; second_chunk]))) as (st' & F' & m' & H1 & H2 & _);
    [|exact area_honest|exact area_bytes|by cbn; lia..|exists st', F', m'; split; [exact H1|exact H2]].
  apply area_inv; [done|apply free_pairs_rep|]. intros q _. apply free_pairs_keys.
Defined.

(** ** A value that looks like a header *)

(** The user writes into a value. *)
Definition write_value (v : big_value) (i : Z) (l : list Z) (st : state) : state := set_mem (write_bytes (chunk_offset v + i) l (mem st)) st.

(** Three allocations; the first value gets the bytes of a key, then it and the
    second one are freed; a smaller value is allocated from the chunk of the first
    and freed as well. The third value is still in use when [defrag] runs and the
    last value is allocated. *)
Definition forged : list Z := key_bytes (FreeKey 224 544).

Definition history : option (big_value * big_value) :=
  '(st, v1) ← alloc 100 empty;
  '(st, v2) ← alloc 150 st;
  '(st, v3) ← alloc 10 st;
  let st := write_value v1 48 forged st in
  st ← free v1 st;
  st ← free v2 st;
  '(st, v4) ← alloc 10 st;
  st ← free v4 st;
  st ← defrag 20 10 st;
  '(st, v5) ← alloc 200 st;
  Some (v3, v5).

(** [defrag] takes 16 bytes of an old value for the header of a chunk, and the memory
    of a value in use is handed out a second time. *)
Theorem defrag_trusts_old_values : exists v3 v5, history = Some (v3, v5) /\
  0 <= 48 /\ 48 + Z.of_nat (length forged) <= 100 /\
  chunk_offset v5 <= chunk_offset v3 /\ chunk_offset v3 + value_size v3 <= chunk_offset v5 + value_size v5.
Proof.
  destruct history as [[v3 v5]|] eqn:E; [|vm_compute in E; discriminate E]. exists v3, v5. split; [done|].
  vm_compute in E. injection E as <- <-. vm_compute. by split_and!.
Qed.

End bigmemexample.
