(* ===== verification/Protocol.v ===== *)
(** * Protocol: messages of the replication protocol

    Models [replication/_replication_protocol.hpp] and the parts of
    [replication/_replication_fsm.hpp] that read and write whole messages: the header,
    [ReplicationMsgBuilder], [parse_replication_msg], [ReceiveBuffer] and the framing
    at the start of [on_data_received]. A message that was built is parsed again, and
    it is received whole however a transport cuts it in pieces, as long as no piece
    crosses its end. *)
From S2P Require Import Prelude Util Bytes.

Module protocol.
Export bytes.
Import util.
#[local] Ltac Zify.zify_post_hook ::= Z.to_euclidean_division_equations.

(** ** The wire format *)

Inductive ReplicationMsgType :=
  TRIE_DATA | SUBTRIE_ACK | COMPLETE | ERR | FRACTION_COMPLETE | BIG_VALUE_DATA | BIG_VALUE_ACK | BIG_VALUE_START.

#[export] Instance msg_type_eq_dec : EqDecision ReplicationMsgType.
Proof. solve_decision. Defined.

Definition msg_code (t : ReplicationMsgType) : Z :=
  match t with
  | TRIE_DATA => 1 | SUBTRIE_ACK => 2 | COMPLETE => 3 | ERR => 4
  | FRACTION_COMPLETE => 5 | BIG_VALUE_DATA => 6 | BIG_VALUE_ACK => 7 | BIG_VALUE_START => 8
  end.

(** The [static_cast] of a type byte; [None] is what only [default:] matches. *)
Definition msg_of_code (c : Z) : option ReplicationMsgType :=
  match c with
  | 1 => Some TRIE_DATA | 2 => Some SUBTRIE_ACK | 3 => Some COMPLETE | 4 => Some ERR
  | 5 => Some FRACTION_COMPLETE | 6 => Some BIG_VALUE_DATA | 7 => Some BIG_VALUE_ACK | 8 => Some BIG_VALUE_START
  | _ => None
  end.

(** [ReplicationError]; an error that came from the other side can be any byte. *)
Definition NONE : Z := 0.
Definition SESSION_MISMATCH : Z := 1.
Definition INVALID_MESSAGE : Z := 2.
Definition INVALID_STATE : Z := 3.
Definition INTERNAL_ERROR : Z := 4.
Definition PAYLOAD_TOO_LARGE : Z := 5.
Definition RESOURCE_LIMIT : Z := 6.

Definition REPLICATION_MSG_MAGIC : Z := 0x4C565250.
Definition REPLICATION_PROTOCOL_VERSION : Z := 1.

(** [ReplicationMsgHeader] *)
Record msg_header := MsgHeader { magic : Z; msg_type : Z; session_id : Z; payload_size : Z; version : Z }.
Definition MSG_HEADER : nat := 24.

Definition read_field (o n : nat) (l : list Z) : Z := le_value (take n (drop o l)).

Definition msg_header_of (l : list Z) : msg_header :=
  MsgHeader (read_field 0 4 l) (read_field 4 1 l) (read_field 5 8 l) (read_field 13 4 l) (read_field 17 1 l).

Definition is_valid (h : msg_header) : bool :=
  (magic h =? REPLICATION_MSG_MAGIC) && (version h =? REPLICATION_PROTOCOL_VERSION).

(** ** [ReplicationMsgBuilder] *)

Definition begin (t : ReplicationMsgType) (session : Z) : list Z :=
  le_bytes 4 REPLICATION_MSG_MAGIC ++ [u8 (msg_code t)] ++ le_bytes 8 session ++ le_bytes 4 0 ++
  [REPLICATION_PROTOCOL_VERSION] ++ replicate 6 0.

Definition set_payload_size (n : Z) (buf : list Z) : list Z := take 13 buf ++ le_bytes 4 n ++ drop 17 buf.

Definition append_payload (data buf : list Z) : list Z :=
  let buf := buf ++ data in set_payload_size (Z.of_nat (length buf) - Z.of_nat MSG_HEADER) buf.

(** The message of a type with one payload, or with none. *)
Definition message (t : ReplicationMsgType) (session : Z) (payload : list Z) : list Z :=
  append_payload payload (begin t session).

(** ** [parse_replication_msg] *)

(** [size_t] has [w] bits. *)
Definition parse_replication_msg (w : Z) (data : list Z) : option (msg_header * list Z) :=
  if (length data <? MSG_HEADER)%nat then None
  else
    let hdr := msg_header_of data in
    if negb (is_valid hdr) then None
    else
      let expected_size := wrap w (Z.of_nat MSG_HEADER + payload_size hdr) in
      if Z.of_nat (length data) <? expected_size then None
      else Some (hdr, take (Z.to_nat (payload_size hdr)) (drop MSG_HEADER data)).

(** ** [ReceiveBuffer] *)

(** [received] are the first [_received] bytes behind [_data]. *)
Record receive_buffer := ReceiveBuffer { received : list Z; capacity : Z; expected : Z }.

Definition init (n : Z) : receive_buffer := ReceiveBuffer [] n 0.
Definition received_size (rb : receive_buffer) : Z := Z.of_nat (length (received rb)).
Definition available (rb : receive_buffer) : Z := capacity rb - received_size rb.

Definition remaining (rb : receive_buffer) : Z :=
  if expected rb =? 0 then
    if received_size rb <? Z.of_nat MSG_HEADER then Z.of_nat MSG_HEADER - received_size rb else 0
  else if received_size rb <? expected rb then expected rb - received_size rb else 0.

(** What a transport writes at [write_ptr()], followed by [advance]. *)
Definition advance (chunk : list Z) (rb : receive_buffer) : receive_buffer :=
  ReceiveBuffer (received rb ++ chunk) (capacity rb) (expected rb).

Definition has_header (rb : receive_buffer) : bool := Z.of_nat MSG_HEADER <=? received_size rb.
Definition is_complete (rb : receive_buffer) : bool := (0 <? expected rb) && (expected rb <=? received_size rb).
Definition payload (rb : receive_buffer) : list Z := drop MSG_HEADER (received rb).

Definition parse_expected (rb : receive_buffer) : option receive_buffer :=
  if negb (has_header rb) then None
  else
    let hdr := msg_header_of (received rb) in
    if negb (is_valid hdr) then None
    else Some (ReceiveBuffer (received rb) (capacity rb) (Z.of_nat MSG_HEADER + payload_size hdr)).

(** ** The framing of [on_data_received] *)

Inductive framed :=
  | More (rb : receive_buffer)
  | Rejected (error : Z)
  | Received (hdr : msg_header) (payload : list Z).

Definition frame (max_payload_size : Z) (rb : receive_buffer) : framed :=
  let finish rb := if is_complete rb then Received (msg_header_of (received rb)) (payload rb) else More rb in
  if negb (has_header rb) then More rb
  else if expected rb =? 0 then
    match parse_expected rb with
    | None => Rejected INVALID_MESSAGE
    | Some rb =>
        if max_payload_size <? expected rb - Z.of_nat MSG_HEADER then Rejected PAYLOAD_TOO_LARGE
        else finish (ReceiveBuffer (received rb) (Z.max (capacity rb) (expected rb)) (expected rb))
    end
  else finish rb.

(** ** Building and parsing *)

Lemma msg_code_inv t : msg_of_code (msg_code t) = Some t.
Proof. by destruct t. Qed.

Lemma msg_code_range t : 0 <= msg_code t < 256.
Proof. destruct t; simpl; lia. Qed.

Lemma begin_length t s : length (begin t s) = MSG_HEADER.
Proof. unfold begin. rewrite !length_app, !le_bytes_length, length_replicate. done. Qed.

Lemma read_field_range o n l : byte_list l -> (o + n <= length l)%nat -> 0 <= read_field o n l < 256 ^ Z.of_nat n.
Proof.
  intros Hb H. unfold read_field. pose proof (le_value_range (take n (drop o l)) ltac:(by apply Forall_take, Forall_drop)) as R.
  rewrite length_take, length_drop, Nat.min_l in R by lia. done.
Qed.

(** A field behind a prefix of known length. *)
Lemma read_field_at o n a b c : length a = o -> length b = n -> read_field o n (a ++ b ++ c) = le_value b.
Proof. intros <- <-. unfold read_field. by rewrite drop_app_length, take_app_length. Qed.

Lemma message_eq t s p : message t s p = le_bytes 4 REPLICATION_MSG_MAGIC ++ [u8 (msg_code t)] ++ le_bytes 8 s ++
  le_bytes 4 (Z.of_nat (length p)) ++ [REPLICATION_PROTOCOL_VERSION] ++ replicate 6 0 ++ p.
Proof.
  unfold message, append_payload. rewrite length_app, begin_length.
  replace (Z.of_nat (MSG_HEADER + length p) - Z.of_nat MSG_HEADER) with (Z.of_nat (length p)) by lia.
  unfold set_payload_size, begin. rewrite <- !app_assoc.
  rewrite (app_assoc (le_bytes 4 _)), (app_assoc _ (le_bytes 8 _)).
  rewrite take_app_length' by by rewrite !length_app, !le_bytes_length.
  rewrite (app_assoc _ (le_bytes 4 0)). rewrite drop_app_length' by by rewrite !length_app, !le_bytes_length.
  by rewrite <- !app_assoc.
Qed.

Lemma message_length t s p : length (message t s p) = (MSG_HEADER + length p)%nat.
Proof. rewrite message_eq, !length_app, !le_bytes_length, length_replicate. done. Qed.

Definition header_for (t : ReplicationMsgType) (s n : Z) : msg_header :=
  MsgHeader REPLICATION_MSG_MAGIC (msg_code t) s n REPLICATION_PROTOCOL_VERSION.

Lemma header_for_valid t s n : is_valid (header_for t s n) = true.
Proof. done. Qed.

Definition sendable (s : Z) (p : list Z) : Prop := 0 <= s < 2 ^ 64 /\ Z.of_nat (length p) < 2 ^ 32.

Lemma message_header t s p k : sendable s p -> (MSG_HEADER <= k)%nat ->
  msg_header_of (take k (message t s p)) = header_for t s (Z.of_nat (length p)).
Proof.
  intros [Hs Hp] Hk. unfold msg_header_of, header_for.
  assert (forall o n, (o + n <= MSG_HEADER)%nat -> read_field o n (take k (message t s p)) = read_field o n (message t s p)) as E.
  { intros o n Ho. unfold read_field. rewrite skipn_firstn_comm, take_take. f_equal. f_equal. unfold MSG_HEADER in *. lia. }
  rewrite !E by (unfold MSG_HEADER; lia). rewrite message_eq. pose proof (msg_code_range t) as Hc.
  f_equal.
  - rewrite (read_field_at 4 1) by done. rewrite wrap_small by (simpl; lia). simpl. lia.
  - rewrite (app_assoc (le_bytes 4 _)), (read_field_at 5 8) by by rewrite ?length_app, !le_bytes_length. by apply le_value_bytes.
  - rewrite (app_assoc (le_bytes 4 _)), (app_assoc _ (le_bytes 8 s)), (read_field_at 13 4) by by rewrite ?length_app, !le_bytes_length.
    apply le_value_bytes. change (256 ^ Z.of_nat 4) with (2 ^ 32). lia.
Qed.

Lemma drop_header t s p : drop MSG_HEADER (message t s p) = p.
Proof.
  rewrite message_eq. rewrite !app_assoc. apply drop_app_length'. by rewrite !length_app, !le_bytes_length, length_replicate.
Qed.

(** A message that was built is parsed to its header and its payload. *)
Theorem parse_built_message w t s p : 33 <= w -> sendable s p ->
  parse_replication_msg w (message t s p) = Some (header_for t s (Z.of_nat (length p)), p).
Proof.
  intros Hw H. unfold parse_replication_msg. rewrite message_length.
  assert ((MSG_HEADER + length p <? MSG_HEADER)%nat = false) as -> by (apply Nat.ltb_ge; lia).
  pose proof (message_header t s p (length (message t s p)) H) as E. rewrite firstn_all, message_length in E.
  rewrite E, header_for_valid by lia. cbn [negb header_for payload_size].
  assert (2 ^ 33 <= 2 ^ w) by (apply Z.pow_le_mono_r; lia). destruct H as [_ H].
  rewrite wrap_small by (unfold MSG_HEADER; lia).
  destruct (Z.ltb_spec (Z.of_nat (MSG_HEADER + length p)) (Z.of_nat MSG_HEADER + Z.of_nat (length p))); [lia|].
  rewrite drop_header, Nat2Z.id, firstn_all. done.
Qed.

(** Where [size_t] has more than 32 bits, a payload that is handed out lies within
    the message. *)
Theorem parsed_payload_in_bounds w data h p : 33 <= w -> byte_list data -> parse_replication_msg w data = Some (h, p) ->
  Z.of_nat (length p) = payload_size h /\ is_valid h = true /\ (MSG_HEADER + length p <= length data)%nat.
Proof.
  intros Hw Hb. unfold parse_replication_msg. destruct (Nat.ltb_spec (length data) MSG_HEADER); [done|].
  destruct (is_valid _) eqn:V; cbn [negb]; [|done].
  assert (0 <= payload_size (msg_header_of data) < 2 ^ 32) as Hr.
  { change (2 ^ 32) with (256 ^ Z.of_nat 4). apply read_field_range; [done|unfold MSG_HEADER in *; lia]. }
  assert (2 ^ 33 <= 2 ^ w) by (apply Z.pow_le_mono_r; lia).
  rewrite wrap_small by (unfold MSG_HEADER; lia). destruct (Z.ltb_spec (Z.of_nat (length data)) (Z.of_nat MSG_HEADER + payload_size (msg_header_of data))); [done|].
  intros E. inversion E. subst h p. clear E. cbn [msg_header_of payload_size] in *. rewrite length_take, length_drop, Nat.min_l by lia. split; [lia|]. split; [done|lia].
Qed.

(** With 32 bits the sum of the header and the payload wraps around. *)
Theorem parse_32_bits_out_of_bounds : exists data h, parse_replication_msg 32 data = Some (h, []) /\ length data = MSG_HEADER /\
  payload_size h = 2 ^ 32 - 8.
Proof.
  set (data := set_payload_size (2 ^ 32 - 8) (begin ERR 1)). exists data, (msg_header_of data).
  assert (length data = MSG_HEADER) as E1 by done. assert (is_valid (msg_header_of data) = true) as E2 by done.
  assert (payload_size (msg_header_of data) = 2 ^ 32 - 8) as E3 by done. split; [|done].
  unfold parse_replication_msg. rewrite E1, E2, E3. cbn [Nat.ltb Nat.leb negb]. replace (drop MSG_HEADER data) with (@nil Z) by done.
  by rewrite take_nil.
Qed.

(** ** Receiving *)

(** What a transport writes piece by piece, each piece followed by
    [on_data_received]; [None] when a piece does not fit. *)
Fixpoint deliver (max : Z) (rb : receive_buffer) (pieces : list (list Z)) : option framed :=
  match pieces with
  | [] => Some (More rb)
  | c :: cs =>
      if available rb <? Z.of_nat (length c) then None
      else
        match frame max (advance c rb) with
        | More rb => deliver max rb cs
        | r => Some r
        end
  end.

(** The loop of a transport: as much as fits, until the buffer is full or the data
    end. *)
Fixpoint feed (fuel : nat) (max : Z) (rb : receive_buffer) (data : list Z) : framed :=
  match fuel with
  | O => More rb
  | S fuel =>
      let chunk := take (Z.to_nat (available rb)) data in
      match chunk with
      | [] => More rb
      | _ =>
          match frame max (advance chunk rb) with
          | More rb => feed fuel max rb (drop (length chunk) data)
          | r => r
          end
      end
  end.

(** The first [k] bytes of the message [m] are there. *)
Record partial (m : list Z) (k : nat) (rb : receive_buffer) : Prop := {
  pa_received : received rb = take k m;
  pa_size : (k <= length m)%nat;
  pa_expected : expected rb = if (k <? MSG_HEADER)%nat then 0 else Z.of_nat (length m);
  pa_capacity : (MSG_HEADER <= k)%nat -> Z.of_nat (length m) <= capacity rb
}.

Lemma partial_init m n : partial m 0 (init n).
Proof. split; [done|lia|done|by intros H; unfold MSG_HEADER in H; lia]. Qed.

Lemma partial_received m k rb : partial m k rb -> received_size rb = Z.of_nat k.
Proof. intros [H1 H2 _ _]. unfold received_size. by rewrite H1, length_take, Nat.min_l. Qed.

(** One more piece. *)
Lemma frame_step max t s p k rb chunk : sendable s p -> Z.of_nat (length p) <= max ->
  let m := message t s p in partial m k rb -> (k < length m)%nat -> chunk <> [] -> take k m ++ chunk = take (k + length chunk) m ->
  (k + length chunk <= length m)%nat ->
  if (k + length chunk =? length m)%nat then frame max (advance chunk rb) = Received (header_for t s (Z.of_nat (length p))) p
  else exists rb', frame max (advance chunk rb) = More rb' /\ partial m (k + length chunk) rb' /\ capacity rb <= capacity rb'.
Proof.
  intros Sd Hm m Pa Hk Hc Et Hl. set (k' := (k + length chunk)%nat) in *. pose proof Pa as [H1 H2 H3 H4].
  assert (0 < length chunk)%nat as Hc0 by (by destruct chunk; cbn [length]; [|lia]).
  assert (received (advance chunk rb) = take k' m) as Er by (cbn [advance received]; by rewrite H1).
  assert (received_size (advance chunk rb) = Z.of_nat k') as Es by (unfold received_size; rewrite Er, length_take; lia).
  assert (Z.of_nat (length m) = Z.of_nat MSG_HEADER + Z.of_nat (length p)) as Lm by (unfold m; rewrite message_length; lia).
  unfold frame, has_header. rewrite Es. destruct (Z.leb_spec (Z.of_nat MSG_HEADER) (Z.of_nat k')) as [Hh|Hh]; cbn [negb].
  2: { destruct (Nat.eqb_spec k' (length m)); [lia|]. exists (advance chunk rb). split; [done|]. split; [|done]. split; [done|lia| |lia].
    cbn [advance expected]. rewrite H3. destruct (Nat.ltb_spec k MSG_HEADER), (Nat.ltb_spec k' MSG_HEADER); lia. }
  assert (forall rb1, received rb1 = take k' m -> expected rb1 = Z.of_nat (length m) -> capacity rb <= capacity rb1 -> Z.of_nat (length m) <= capacity rb1 ->
    let r := if is_complete rb1 then Received (msg_header_of (received rb1)) (payload rb1) else More rb1 in
    if (k' =? length m)%nat then r = Received (header_for t s (Z.of_nat (length p))) p
    else exists rb', r = More rb' /\ partial m k' rb' /\ capacity rb <= capacity rb') as Hfin.
  { intros rb1 E1 E2 E3 E4. unfold is_complete, received_size, payload. rewrite E1, E2, length_take, Nat.min_l by lia. cbv zeta.
    destruct (Nat.eqb_spec k' (length m)) as [->|Hne].
    - rewrite Z.leb_refl, andb_true_r. destruct (Z.ltb_spec 0 (Z.of_nat (length m))); [|unfold MSG_HEADER in *; lia].
      rewrite firstn_all at 2. unfold m at 3. rewrite drop_header. unfold m at 2. rewrite message_header; [done|done|lia].
    - destruct (Z.leb_spec (Z.of_nat (length m)) (Z.of_nat k')); [lia|]. rewrite andb_false_r. exists rb1. split; [done|]. split; [|done].
      split; [done|lia| |done]. rewrite E2. destruct (Nat.ltb_spec k' MSG_HEADER); [lia|done]. }
  cbn [advance expected]. rewrite H3. destruct (Nat.ltb_spec k MSG_HEADER) as [Hk'|Hk'].
  - rewrite Z.eqb_refl. unfold parse_expected, has_header. rewrite Es, (proj2 (Z.leb_le _ _) Hh). cbn [negb]. rewrite Er.
    pose proof (message_header t s p k' Sd ltac:(lia)) as Eh. fold m in Eh. rewrite Eh, header_for_valid. cbn [negb expected header_for payload_size].
    destruct (Z.ltb_spec max (Z.of_nat MSG_HEADER + Z.of_nat (length p) - Z.of_nat MSG_HEADER)); [lia|].
    cbn [received capacity]. rewrite <- Lm. cbn [advance capacity]. apply Hfin; cbn [received expected capacity]; try done; lia.
  - destruct (Z.eqb_spec (Z.of_nat (length m)) 0); [unfold MSG_HEADER in *; lia|]. change (expected rb) with (expected (advance chunk rb)).
    apply (Hfin (advance chunk rb)); [exact Er| |cbn [advance capacity]; lia|cbn [advance capacity]; by apply H4].
    cbn [advance expected]. rewrite H3. destruct (Nat.ltb_spec k MSG_HEADER); [lia|done].
Qed.

Lemma partial_available m k rb : partial m k rb -> Z.of_nat MSG_HEADER <= capacity rb -> (k < length m)%nat -> 0 < available rb.
Proof.
  intros Pa Hc Hk. unfold available. rewrite (partial_received _ _ _ Pa). pose proof (pa_capacity _ _ _ Pa).
  destruct (Nat.lt_ge_cases k MSG_HEADER); lia.
Qed.

(** C25: However a message is cut into pieces, it is received when the last one is
    there, and not before. *)
Theorem receive_in_pieces max n t s p pieces r : sendable s p -> Z.of_nat (length p) <= max -> Forall (fun c => c <> []) pieces ->
  concat pieces = message t s p -> deliver max (init n) pieces = Some r -> r = Received (header_for t s (Z.of_nat (length p))) p.
Proof.
  intros Sd Hm. set (m := message t s p). enough (forall k rb, partial m k rb -> (k < length m)%nat -> Forall (fun c => c <> []) pieces ->
    take k m ++ concat pieces = m -> deliver max rb pieces = Some r -> r = Received (header_for t s (Z.of_nat (length p))) p) as H.
  { intros Hne E. apply (H 0%nat); [apply partial_init| |done|done]. unfold m. rewrite message_length. unfold MSG_HEADER. lia. }
  induction pieces as [|c cs IH]; intros k rb Pa Hk Hne E.
  - cbn [concat] in E. apply (f_equal length) in E. rewrite length_app, length_take in E. cbn [length] in E. lia.
  - apply list.Forall_cons in Hne as [Hc Hne]. cbn [concat] in E. cbn [deliver]. destruct (available rb <? _); [done|].
    assert (k + length c <= length m)%nat as Hl.
    { apply (f_equal length) in E. rewrite !length_app, length_take in E. lia. }
    assert (take k m ++ c = take (k + length c) m) as Et.
    { rewrite <- E at 2. rewrite app_assoc, take_app_length'; [done|]. rewrite length_app, length_take. lia. }
    pose proof (frame_step max t s p k rb c Sd Hm Pa Hk Hc Et Hl) as Fs. fold m in Fs.
    destruct (Nat.eqb_spec (k + length c) (length m)) as [El|Hlt]; [rewrite Fs; by intros [= <-]|].
    destruct Fs as (rb' & -> & Pa' & _). apply (IH (k + length c)%nat rb'); [done|lia|done|]. by rewrite <- Et, <- app_assoc.
Qed.

(** A transport that writes as much as fits gets every message through. *)
Theorem feed_receives max n t s p : sendable s p -> Z.of_nat (length p) <= max -> Z.of_nat MSG_HEADER <= n ->
  feed (length (message t s p)) max (init n) (message t s p) = Received (header_for t s (Z.of_nat (length p))) p.
Proof.
  intros Sd Hm Hn. set (m := message t s p). enough (forall fuel k rb, (length m - k <= fuel)%nat -> partial m k rb -> (k < length m)%nat ->
    Z.of_nat MSG_HEADER <= capacity rb -> feed fuel max rb (drop k m) = Received (header_for t s (Z.of_nat (length p))) p) as H.
  { apply (H _ 0%nat); [lia|apply partial_init| |done]. unfold m. rewrite message_length. unfold MSG_HEADER. lia. }
  induction fuel as [|fuel IH]; intros k rb Hf Pa Hk Hc; [lia|]. cbn [feed].
  pose proof (partial_available _ _ _ Pa Hc Hk) as Ha. set (chunk := take (Z.to_nat (available rb)) (drop k m)).
  assert (chunk <> []) as Hne.
  { intros E. apply (f_equal length) in E. unfold chunk in E. rewrite length_take, length_drop in E. cbn [length] in E. lia. }
  assert (k + length chunk <= length m)%nat as Hl by (unfold chunk; rewrite length_take, length_drop; lia).
  assert (take k m ++ chunk = take (k + length chunk) m) as Et.
  { unfold chunk. rewrite length_take, length_drop, <- (take_take_drop m k). f_equal.
    destruct (Nat.le_gt_cases (Z.to_nat (available rb)) (length m - k)); [by rewrite Nat.min_l by lia|].
    rewrite Nat.min_r by lia. rewrite !firstn_all2 by (rewrite length_drop; lia). done. }
  pose proof (frame_step max t s p k rb chunk Sd Hm Pa Hk Hne Et Hl) as Fs. fold m in Fs.
  destruct chunk as [|b chunk'] eqn:Ec; [done|]. rewrite <- Ec in *.
  destruct (Nat.eqb_spec (k + length chunk) (length m)) as [El|Hlt]; [by rewrite Fs|].
  destruct Fs as (rb' & -> & Pa' & Hcap). rewrite drop_drop. apply IH; [|done|lia|lia]. 
  destruct chunk; [done|]. cbn [length] in *. lia.
Qed.

(** ** Examples *)

Definition hello : list Z := [104; 101; 108; 108; 111].

Lemma hello_sendable : sendable 7 hello.
Proof. split; [lia|by vm_compute]. Qed.

Lemma parse_built_message_witness : parse_replication_msg 64 (message TRIE_DATA 7 hello) = Some (header_for TRIE_DATA 7 5, hello).
Proof. apply (parse_built_message 64 TRIE_DATA 7 hello); [lia|exact hello_sendable]. Defined.

Lemma parsed_payload_in_bounds_witness : (MSG_HEADER + length hello <= 29)%nat.
Proof.
  apply (parsed_payload_in_bounds 64 (message TRIE_DATA 7 hello) (header_for TRIE_DATA 7 5) hello); [lia| |reflexivity].
  vm_compute. repeat constructor; intros; discriminate.
Defined.

Definition hello_pieces : list (list Z) := let m := message TRIE_DATA 7 hello in [take 3 m; take 22 (drop 3 m); drop 25 m].

Lemma receive_in_pieces_witness : deliver 1000 (init 40) hello_pieces = Some (Received (header_for TRIE_DATA 7 5) hello).
Proof.
  destruct (deliver 1000 (init 40) hello_pieces) as [r|] eqn:E; [|vm_compute in E; discriminate E]. f_equal.
  apply (receive_in_pieces 1000 40 TRIE_DATA 7 hello hello_pieces r); [exact hello_sendable|by vm_compute| |reflexivity|exact E].
  repeat constructor; discriminate.
Defined.

Lemma feed_receives_witness : feed 29 1000 (init 24) (message TRIE_DATA 7 hello) = Received (header_for TRIE_DATA 7 5) hello.
Proof. apply (feed_receives 1000 24 TRIE_DATA 7 hello); [exact hello_sendable|by vm_compute|by vm_compute]. Defined.

(** A piece with the end of one message and the beginning of the next: the payload of
    the first one gets the bytes of the second, which is lost. *)
Theorem piece_across_messages_is_swallowed :
  deliver 1000 (init 100) [message TRIE_DATA 7 hello ++ message COMPLETE 7 []] =
    Some (Received (header_for TRIE_DATA 7 5) (hello ++ message COMPLETE 7 [])).
Proof. reflexivity. Qed.

(** A buffer that is smaller than a header never takes one. *)
Theorem small_buffer_receives_nothing max data : feed 100 max (init 10) (replicate 10 0 ++ data) = More (ReceiveBuffer (replicate 10 0) 10 0).
Proof. reflexivity. Qed.

End protocol.
