(* ===== verification/Request.v ===== *)
(** * Request: acknowledgements of subtries

    Models the second half of the wire format in [replication/_transfer.hpp]:
    [RequestChildrenBuilder], [RequestChildrenIterator], [parse_request_children] and
    [_is_pruned_by_ack]. The receiver lists the paths at which its hashes agree, the
    sender drops what lies below them. The list is read as it was written, and a
    malformed one is never read past its end. *)
From S2P Require Import Prelude Util Bytes Protocol.

Module request.
Export protocol.
Import util.
#[local] Ltac Zify.zify_post_hook ::= Z.to_euclidean_division_equations.

Inductive DbType := DB_MAIN | DB_DELETION.

#[export] Instance db_type_eq_dec : EqDecision DbType.
Proof. solve_decision. Defined.

Definition db_code (t : DbType) : Z := match t with DB_MAIN => 0 | DB_DELETION => 1 end.

Definition REQUEST_CHILDREN_MAGIC : Z := 0x4C565352.

(** [RequestChildrenHeader] *)
Record request_header := RequestHeader { rq_magic : Z; rq_session : Z; rq_db_type : Z; rq_count : Z }.
Definition REQUEST_HEADER : nat := 17.

Definition request_header_of (l : list Z) : request_header :=
  RequestHeader (read_field 0 4 l) (read_field 4 8 l) (read_field 12 1 l) (read_field 13 4 l).

(** ** [RequestChildrenBuilder] *)

Definition begin (session : Z) (t : DbType) : list Z :=
  le_bytes 4 REQUEST_CHILDREN_MAGIC ++ le_bytes 8 session ++ [db_code t] ++ le_bytes 4 0 ++ [0].

Definition set_path_count (n : Z) (buf : list Z) : list Z := take 13 buf ++ le_bytes 4 n ++ drop 17 buf.

(** The bytes of one path. *)
Definition raw_len (path : list Z) (is_leaf : bool) : Z :=
  let n := u16 (Z.of_nat (length path)) in if is_leaf then Z.lor n 0x8000 else n.

Definition path_entry (path : list Z) (is_leaf : bool) : list Z :=
  le_bytes 2 (raw_len path is_leaf) ++ path ++ (if Nat.odd (length path) then [0] else []).

Definition add_path (path : list Z) (is_leaf : bool) (buf : list Z) : list Z :=
  let buf := buf ++ path_entry path is_leaf in
  set_path_count (u32 (rq_count (request_header_of buf) + 1)) buf.

(** The payload of an acknowledgement. *)
Definition ack_paths (session : Z) (t : DbType) (acks : list (list Z * bool)) : list Z :=
  foldl (fun buf a => add_path a.1 a.2 buf) (begin session t) acks.

(** ** [parse_request_children], [RequestChildrenIterator] *)

Definition parse_request_children (data : list Z) : option request_header :=
  if (length data <? REQUEST_HEADER)%nat then None
  else
    let h := request_header_of data in
    if rq_magic h =? REQUEST_CHILDREN_MAGIC then Some h else None.

(** Positions count from [_data]; [it_end] is [_end]. *)
Record iterator := Iterator { it_data : list Z; it_end : Z; it_current : Z; it_error : bool }.

(** A payload of 17 bytes has no padding: the end is before the beginning then. *)
Definition request_children_iterator (data : list Z) : iterator :=
  let offset := (REQUEST_HEADER + 1)%nat in
  Iterator (drop offset data) (Z.of_nat (length data) - Z.of_nat offset) 0 false.

Definition valid (it : iterator) : bool := negb (it_error it) && (it_current it + 2 <=? it_end it).
Definition raw_path_len (it : iterator) : Z := read_field (Z.to_nat (it_current it)) 2 (it_data it).
Definition path_len (it : iterator) : Z := Z.land (raw_path_len it) 0x7FFF.
Definition is_leaf (it : iterator) : bool := negb (Z.land (raw_path_len it) 0x8000 =? 0).

Definition path (it : iterator) : list Z :=
  if it_end it <? it_current it + 2 + path_len it then []
  else take (Z.to_nat (path_len it)) (drop (Z.to_nat (it_current it + 2)) (it_data it)).

Definition next (it : iterator) : iterator :=
  if negb (valid it) then it
  else
    let advance := 2 + path_len it + Z.land (path_len it) 1 in
    if it_end it <? it_current it + advance then Iterator (it_data it) (it_end it) (it_current it) true
    else Iterator (it_data it) (it_end it) (it_current it + advance) (it_error it).

Definition reset (it : iterator) : iterator := Iterator (it_data it) (it_end it) 0 false.

(** ** [_is_pruned_by_ack] *)

(** What one path says about another one. *)
Definition prunes (acked : list Z) (ack_is_leaf : bool) (p : list Z) (prune_leaf_exact : bool) : bool :=
  (negb ack_is_leaf && (length acked <=? length p)%nat && bool_decide (take (length acked) p = acked)) ||
  (prune_leaf_exact && ack_is_leaf && (length p =? length acked)%nat && bool_decide (take (length acked) p = acked)).

(** The loop; [None] when [n] rounds are not enough. The iterator is where it stopped. *)
Fixpoint pruned_loop (n : nat) (it : iterator) (p : list Z) (prune_leaf_exact : bool) : option (bool * iterator) :=
  match n with
  | O => None
  | S n =>
      if negb (valid it) then Some (false, it)
      else if prunes (path it) (is_leaf it) p prune_leaf_exact then Some (true, it)
      else pruned_loop n (next it) p prune_leaf_exact
  end.

Definition is_pruned_by_ack (n : nat) (it : iterator) (p : list Z) (prune_leaf_exact : bool) : option (bool * iterator) :=
  pruned_loop n (reset it) p prune_leaf_exact.

(** ** A request is read as it was written *)

Lemma request_begin_length s t : length (begin s t) = (REQUEST_HEADER + 1)%nat.
Proof. unfold begin. by rewrite !length_app, !le_bytes_length. Qed.

Lemma path_entry_length p l : length (path_entry p l) = (2 + length p + if Nat.odd (length p) then 1 else 0)%nat.
Proof. unfold path_entry. rewrite !length_app, le_bytes_length. destruct (Nat.odd _); simpl; lia. Qed.

(** A path short enough for its 15 bits. *)
Definition short (p : list Z) : Prop := Z.of_nat (length p) < 2 ^ 15.

Lemma raw_len_ok p l : short p -> 0 <= raw_len p l < 2 ^ 16 /\ Z.land (raw_len p l) 0x7FFF = Z.of_nat (length p) /\
  negb (Z.land (raw_len p l) 0x8000 =? 0) = l.
Proof.
  intros H. unfold short in H. change (2 ^ 15) with 32768 in H. unfold raw_len. rewrite wrap_small by (change (2 ^ 16) with 65536; lia).
  set (n := Z.of_nat (length p)) in *. assert (0 <= n < 32768) as Hn by lia. clearbody n. clear H.
  assert (Z.land n 32767 = n) as E1 by (change 32767 with (Z.ones 15); rewrite Z.land_ones by done; change (2 ^ 15) with 32768; lia).
  assert (Z.land n 32768 = 0) as E2.
  { rewrite <- E1, <- Z.land_assoc. change (Z.land 32767 32768) with 0. apply Z.land_0_r. }
  destruct l.
  - assert (Z.lor n 32768 = n + 32768) as -> by (rewrite <- Z.add_nocarry_lor; done). split; [change (2 ^ 16) with 65536; lia|].
    rewrite Z.add_nocarry_lor by done. rewrite !Z.land_lor_distr_l, E1, E2. split; [by rewrite Z.lor_0_r|done].
  - split; [change (2 ^ 16) with 65536; lia|]. by rewrite E1, E2.
Qed.

Definition entries (acks : list (list Z * bool)) : list Z := concat (map (fun a => path_entry a.1 a.2) acks).

Definition request (s : Z) (t : DbType) (n : Z) (body : list Z) : list Z :=
  le_bytes 4 REQUEST_CHILDREN_MAGIC ++ le_bytes 8 s ++ [db_code t] ++ le_bytes 4 n ++ [0] ++ body.

Lemma request_header_ok s t n body : 0 <= s < 2 ^ 64 -> 0 <= n < 2 ^ 32 ->
  request_header_of (request s t n body) = RequestHeader REQUEST_CHILDREN_MAGIC s (db_code t) n.
Proof.
  intros Hs Hn. unfold request_header_of, request. f_equal.
  - rewrite (read_field_at 4 8) by done. by apply le_value_bytes.
  - rewrite (app_assoc (le_bytes 4 _)), (read_field_at 12 1) by by rewrite ?length_app, ?le_bytes_length. by destruct t.
  - rewrite (app_assoc (le_bytes 4 _)), (app_assoc _ [db_code t]), (read_field_at 13 4) by by rewrite ?length_app, ?le_bytes_length.
    by apply le_value_bytes.
Qed.

Lemma add_path_request s t n body p l : 0 <= s < 2 ^ 64 -> 0 <= n < 2 ^ 32 - 1 ->
  add_path p l (request s t n body) = request s t (n + 1) (body ++ path_entry p l).
Proof.
  intros Hs Hn. unfold add_path. assert (request s t n body ++ path_entry p l = request s t n (body ++ path_entry p l)) as ->.
  { unfold request. by rewrite <- !app_assoc. }
  rewrite request_header_ok by lia. cbn [rq_count]. rewrite wrap_small by lia. unfold set_path_count, request.
  rewrite (app_assoc (le_bytes 4 _)), (app_assoc _ [db_code t]). rewrite take_app_length' by by rewrite !length_app, !le_bytes_length.
  rewrite (app_assoc _ (le_bytes 4 n)), drop_app_length' by by rewrite !length_app, !le_bytes_length. by rewrite <- !app_assoc.
Qed.

(** The request, written out. *)
Lemma ack_paths_eq s t acks : 0 <= s < 2 ^ 64 -> Z.of_nat (length acks) < 2 ^ 32 ->
  ack_paths s t acks = request s t (Z.of_nat (length acks)) (entries acks).
Proof.
  intros Hs. unfold ack_paths. enough (forall n body, 0 <= n -> n + Z.of_nat (length acks) < 2 ^ 32 ->
    foldl (fun buf a => add_path a.1 a.2 buf) (request s t n body) acks = request s t (n + Z.of_nat (length acks)) (body ++ entries acks)) as H.
  { intros Hl. by apply (H 0 []). }
  induction acks as [|a acks IH]; intros n body Hn Hl; cbn [foldl length] in *.
  - unfold entries. cbn. by rewrite app_nil_r, Z.add_0_r.
  - rewrite add_path_request by lia. rewrite IH by lia. unfold entries. cbn [map concat]. rewrite <- app_assoc. f_equal. lia.
Qed.

(** ** Iteration *)

Lemma odd_of_nat n : Z.odd (Z.of_nat n) = Nat.odd n.
Proof.
  induction n as [|n IH]; [done|]. by rewrite Nat2Z.inj_succ, Z.odd_succ, Nat.odd_succ, <- Z.negb_odd, <- Nat.negb_odd, IH.
Qed.

(** The iterator before the entries [rest]. *)
Definition before (pre : list Z) (rest : list (list Z * bool)) : iterator :=
  Iterator (pre ++ entries rest) (Z.of_nat (length (pre ++ entries rest))) (Z.of_nat (length pre)) false.

Lemma before_end pre : valid (before pre []) = false.
Proof. unfold valid, before. cbn. rewrite app_nil_r. destruct (Z.leb_spec (Z.of_nat (length pre) + 2) (Z.of_nat (length pre))); [lia|done]. Qed.

Lemma before_entry pre p l rest : short p -> let it := before pre ((p, l) :: rest) in
  valid it = true /\ path it = p /\ is_leaf it = l /\ next it = before (pre ++ path_entry p l) rest.
Proof.
  intros Hs it. destruct (raw_len_ok p l Hs) as (R1 & R2 & R3).
  assert (it = Iterator (pre ++ path_entry p l ++ entries rest) (Z.of_nat (length (pre ++ path_entry p l ++ entries rest))) (Z.of_nat (length pre)) false) as E by done.
  assert (raw_path_len it = raw_len p l) as Er.
  { rewrite E. unfold raw_path_len, path_entry. cbn [it_current it_data]. rewrite Nat2Z.id, <- !app_assoc.
    rewrite (read_field_at _ 2) by done. by apply le_value_bytes. }
  assert (path_len it = Z.of_nat (length p)) as El by by (unfold path_len; rewrite Er).
  pose proof (path_entry_length p l) as Lp. rewrite E in El. rewrite !length_app in *.
  assert (valid it = true) as V.
  { rewrite E. unfold valid. cbn [it_error it_current it_end negb]. destruct (Nat.odd _); cbn [andb]; apply Z.leb_le; rewrite ?length_app; lia. }
  split; [done|]. rewrite <- E in El. split; [|split; [unfold is_leaf; by rewrite Er|]].
  - unfold path. rewrite El. rewrite E. cbn [it_end it_current it_data].
    destruct (Z.ltb_spec (Z.of_nat (length pre + (length (path_entry p l) + length (entries rest)))) (Z.of_nat (length pre) + 2 + Z.of_nat (length p))); [lia|].
    unfold path_entry. rewrite (app_assoc pre), <- !app_assoc. rewrite app_assoc.
    rewrite drop_app_length' by (rewrite length_app, le_bytes_length; lia). by rewrite Nat2Z.id, take_app_length.
  - unfold next. rewrite V, El. cbn [negb]. rewrite E. cbn [it_end it_current it_data it_error].
    assert (Z.land (Z.of_nat (length p)) 1 = if Nat.odd (length p) then 1 else 0) as ->.
    { change 1 with (Z.ones 1) at 1. rewrite Z.land_ones by done. change (2 ^ 1) with 2. by rewrite Zmod_odd, odd_of_nat. }
    destruct (Z.ltb_spec (Z.of_nat (length pre + (length (path_entry p l) + length (entries rest)))) (Z.of_nat (length pre) + (2 + Z.of_nat (length p) + (if Nat.odd (length p) then 1 else 0))));
      [destruct (Nat.odd _); lia|].
    unfold before. rewrite <- !app_assoc, !length_app. f_equal. destruct (Nat.odd _); lia.
Qed.

Lemma request_iterator s t n body : request_children_iterator (request s t n body) = Iterator body (Z.of_nat (length body)) 0 false.
Proof.
  unfold request_children_iterator, request. f_equal. rewrite !length_app, !le_bytes_length. cbn [length]. unfold REQUEST_HEADER. lia.
Qed.

Lemma pruned_loop_ok n p exact rest : forall pre, (length rest < n)%nat -> Forall (fun a => short a.1) rest ->
  exists it, pruned_loop n (before pre rest) p exact = Some (existsb (fun a => prunes a.1 a.2 p exact) rest, it) /\ it_error it = false.
Proof.
  revert n. induction rest as [|[q l] rest IH]; intros n pre Hn Hs; (destruct n as [|n]; [cbn [length] in Hn; lia|]); cbn [pruned_loop existsb].
  - rewrite before_end. eexists. by split.
  - apply list.Forall_cons in Hs as [Hq Hs]. destruct (before_entry pre q l rest Hq) as (-> & -> & -> & ->). cbn [negb fst snd].
    destruct (prunes q l p exact); cbn [orb]; [eexists; by split|]. apply IH; [cbn [length] in Hn; lia|done].
Qed.

(** C26: The request is parsed, and the paths that prune another one are found in it. *)
Theorem request_roundtrip s t acks p exact : 0 <= s < 2 ^ 64 -> Z.of_nat (length acks) < 2 ^ 32 -> Forall (fun a => short a.1) acks ->
  let data := ack_paths s t acks in
  parse_request_children data = Some (RequestHeader REQUEST_CHILDREN_MAGIC s (db_code t) (Z.of_nat (length acks))) /\
  exists it, is_pruned_by_ack (S (length acks)) (request_children_iterator data) p exact =
    Some (existsb (fun a => prunes a.1 a.2 p exact) acks, it) /\ it_error it = false.
Proof.
  intros Hs Hl Hp data. unfold data. rewrite ack_paths_eq by done. split.
  - unfold parse_request_children. rewrite request_header_ok by lia.
    destruct (Nat.ltb_spec (length (request s t (Z.of_nat (length acks)) (entries acks))) REQUEST_HEADER) as [H|_]; [|done].
    unfold request in H. rewrite !length_app, !le_bytes_length in H. unfold REQUEST_HEADER in H. cbn [length] in H. lia.
  - rewrite request_iterator. apply (pruned_loop_ok (S (length acks)) p exact acks []); [lia|done].
Qed.

(** Whatever the payload is, a scan ends. *)
Theorem scan_terminates data p exact : exists r, is_pruned_by_ack (S (length data)) (request_children_iterator data) p exact = Some r.
Proof.
  unfold is_pruned_by_ack. enough (forall n it, 0 <= it_current it -> it_end it - it_current it < Z.of_nat n -> (0 < n)%nat ->
    exists r, pruned_loop n it p exact = Some r) as H.
  { apply H; [done| |lia]. cbn. lia. }
  induction n as [|n IH]; intros it Hc Hn Hp; [lia|]. cbn [pruned_loop].
  destruct (valid it) eqn:V; cbn [negb]; [|by eexists]. destruct (prunes _ _ _ _); [by eexists|].
  unfold next. rewrite V. cbn [negb]. unfold valid in V. apply andb_true_iff in V as [_ V%Z.leb_le].
  assert (0 <= path_len it) as Hl by (unfold path_len; apply Z.land_nonneg; lia).
  assert (0 <= Z.land (path_len it) 1) as Hb by (apply Z.land_nonneg; lia).
  destruct (_ <? _); [|apply IH; cbn [it_current it_end]; lia].
  destruct n as [|n]; [lia|]. cbn [pruned_loop]. by eexists.
Qed.

(** ** Where the format fails *)

(** The length of a path has 15 bits. At 65536 bytes nothing is left of it, and the
    path of the acknowledgement is the empty one, below which everything lies. *)
Theorem long_path_prunes_everything s t acked p exact : 0 <= s < 2 ^ 64 -> Z.of_nat (length acked) = 2 ^ 16 ->
  exists it, is_pruned_by_ack 1 (request_children_iterator (ack_paths s t [(acked, false)])) p exact = Some (true, it) /\ it_error it = false.
Proof.
  intros Hs Hl. rewrite ack_paths_eq by done. rewrite request_iterator.
  assert (exists rest, entries [(acked, false)] = [0; 0] ++ rest) as [rest ->].
  { unfold entries, path_entry, raw_len. cbn [map concat fst snd]. rewrite Hl. change (u16 (2 ^ 16)) with 0. by eexists. }
  unfold is_pruned_by_ack, reset. cbn [it_data it_end]. set (it := Iterator _ _ 0 false). exists it. split; [|done].
  assert (raw_path_len it = 0) as Er by done.
  assert (valid it = true) as V by (apply Z.leb_le; cbn [it it_current it_end length]; rewrite length_app; cbn [length]; lia).
  assert (path it = []) as Ep by (unfold path, path_len; rewrite Er; by destruct (_ <? _)).
  assert (is_leaf it = false) as El by (unfold is_leaf; by rewrite Er).
  cbn [pruned_loop]. rewrite V, Ep, El. cbn [negb]. unfold prunes. cbn [negb length Nat.leb take andb]. by rewrite bool_decide_eq_true_2.
Qed.

(** A path that ends behind the payload reads as the empty one, and the scan stops
    there, before [next] finds the error. *)
Theorem truncated_path_prunes_everything p exact :
  let data := begin 1 DB_MAIN ++ [5; 0; 97] in
  exists it, is_pruned_by_ack 1 (request_children_iterator data) p exact = Some (true, it) /\ it_error it = false /\ is_Some (parse_request_children data).
Proof.
  exists (request_children_iterator (begin 1 DB_MAIN ++ [5; 0; 97])). split; [|by split; [|eexists]].
  unfold is_pruned_by_ack. cbn [pruned_loop].
  replace (prunes _ _ p exact) with true; [done|]. unfold prunes. cbn. by rewrite bool_decide_eq_true_2.
Qed.

(** ** Examples *)

Definition sample_acks : list (list Z * bool) := [([97; 98; 99], false); ([100], true)].

Lemma request_roundtrip_witness :
  parse_request_children (ack_paths 9 DB_MAIN sample_acks) = Some (RequestHeader REQUEST_CHILDREN_MAGIC 9 0 2).
Proof. apply (request_roundtrip 9 DB_MAIN sample_acks [97] true); [lia|by vm_compute|by repeat constructor]. Defined.

Lemma long_path_prunes_everything_witness : exists it,
  is_pruned_by_ack 1 (request_children_iterator (ack_paths 1 DB_MAIN [(replicate (Z.to_nat 65536) 97, false)])) [98] false = Some (true, it) /\ it_error it = false.
Proof. apply long_path_prunes_everything; [lia|]. rewrite length_replicate. lia. Defined.

End request.
