(* ===== verification/ReplSlot.v ===== *)
(** * ReplSlot: areas that survive a crash before their merge

    Models [replication/_replication_slot.hpp] and [_sanitize_replication_anchors] of
    [replication/_replication_db.hpp]. A receiver claims a slot in the header of the
    database and stores the area there that it fills with big values; a merge hands
    the area to the transaction. Whatever the receivers do, an area is in one slot, or
    with a transaction, or back in the pool; after a crash no slot has one. *)
From S2P Require Import Prelude.

(** What takes areas back: the chain from the first to the second offset. *)
Class AreaSink (A : Type) := {
  return_multi_areas : Z -> Z -> A -> A;
  pooled : A -> list Z;
  returned_is_pooled a s : pooled (return_multi_areas a a s) ≡ₚ a :: pooled s
}.

Module replslot.

(** [REPLICATION_SLOT_SENTINEL]: claimed, without an area. *)
Definition SENTINEL : Z := 1.

Section with_sink.
Context {A : Type} `{!AreaSink A}.

(** The slots in the header and the storage. *)
Record state := State { slots : list Z; storage : A }.

Definition set_slot (i : nat) (v : Z) (st : state) : state := State (<[i := v]> (slots st)) (storage st).

(** The receiver's side is the index of its slot, -1 for none. *)
Definition claim (st : state) : Z * state :=
  match list_find (fun v => v = 0) (slots st) with
  | Some (i, _) => (Z.of_nat i, set_slot i SENTINEL st)
  | None => (-1, st)
  end.

Definition track_area (slot area : Z) (st : state) : state :=
  if slot <? 0 then st else set_slot (Z.to_nat slot) area st.

Definition clear_area (slot : Z) (st : state) : state :=
  if slot <? 0 then st else set_slot (Z.to_nat slot) SENTINEL st.

Definition release (slot : Z) (st : state) : Z * state :=
  if slot <? 0 then (slot, st)
  else
    let raw := default 0 (slots st !! Z.to_nat slot) in
    let st :=
      if negb (raw =? 0) && negb (raw =? SENTINEL) then State (slots st) (return_multi_areas raw raw (storage st)) else st in
    (-1, if negb (raw =? 0) then set_slot (Z.to_nat slot) 0 st else st).

(** [_sanitize_replication_anchors] *)
Definition sanitize (st : state) : state :=
  State (map (fun _ => 0) (slots st))
    (foldl (fun s v => if (v =? SENTINEL) || (v =? 0) then s else return_multi_areas v v s) (storage st) (slots st)).

(** ** Receivers at work *)

(** The slot of every receiver, and the areas transactions own. *)
Record world := World { base : state; owners : list Z; linked : list Z }.

Definition areas (l : list Z) : list Z := filter (fun v => v <> 0 /\ v <> SENTINEL) l.

(** Every area somebody knows of. *)
Definition known (w : world) : list Z := linked w ++ areas (slots (base w)) ++ pooled (storage (base w)).

(** One operation of a receiver, or a crash with the restart after it. An area that is
    tracked comes from outside; the receiver has a slot without one. *)
Inductive step : world -> list Z -> world -> Prop :=
  | claims w i st : claim (base w) = (i, st) -> step w [] (World st (owners w ++ [i]) (linked w))
  | tracks w i a : i ∈ owners w -> 0 <= i -> slots (base w) !! Z.to_nat i = Some SENTINEL -> a <> 0 -> a <> SENTINEL ->
      step w [a] (World (track_area i a (base w)) (owners w) (linked w))
  | links w i a : i ∈ owners w -> 0 <= i -> slots (base w) !! Z.to_nat i = Some a -> a <> 0 -> a <> SENTINEL ->
      step w [] (World (clear_area i (base w)) (owners w) (a :: linked w))
  | releases w own own' i : owners w = own ++ i :: own' ->
      step w [] (World (release i (base w)).2 (own ++ (release i (base w)).1 :: own') (linked w))
  | crashes w : step w [] (World (sanitize (base w)) [] (linked w)).

Inductive reachable (n : nat) (s : A) : list Z -> world -> Prop :=
  | reach_init : reachable n s [] (World (State (replicate n 0) s) [] [])
  | reach_step taken w new w' : reachable n s taken w -> step w new w' -> reachable n s (new ++ taken) w'.

End with_sink.
Arguments state : clear implicits.
Arguments world : clear implicits.

Section facts.
Context {A : Type} `{!AreaSink A}.

Lemma areas_app l k : areas (l ++ k) = areas l ++ areas k.
Proof. apply list.filter_app. Qed.

Lemma areas_cons x k : areas (x :: k) = areas [x] ++ areas k.
Proof. apply (areas_app [x]). Qed.

Lemma areas_some v : v <> 0 -> v <> SENTINEL -> areas [v] = [v].
Proof. intros. unfold areas. by rewrite filter_cons_True. Qed.

Lemma areas_none v : v = 0 \/ v = SENTINEL -> areas [v] = [].
Proof. intros. unfold areas. rewrite filter_cons_False by tauto. done. Qed.

Lemma areas_zeros n : areas (replicate n 0) = [].
Proof. induction n as [|n IH]; [done|]. cbn [replicate]. by rewrite areas_cons, IH, areas_none by tauto. Qed.

Lemma zeros_map (l : list Z) : map (fun _ => 0) l = replicate (length l) 0.
Proof. induction l as [|v l IH]; [done|]. cbn [map length replicate]. by rewrite IH. Qed.

Lemma areas_set l i u v : l !! i = Some u -> areas [u] ++ areas (<[i := v]> l) ≡ₚ areas [v] ++ areas l.
Proof.
  intros E. rewrite insert_take_drop by by eapply lookup_lt_Some. rewrite <- (take_drop_middle l i u E) at 3.
  rewrite !areas_app, (areas_cons v (drop (S i) l)), (areas_cons u (drop (S i) l)). rewrite (Permutation_app_swap_app (areas (take i l)) (areas [v])).
  rewrite (Permutation_app_swap_app (areas (take i l)) (areas [u])). apply Permutation_app_swap_app.
Qed.

Lemma sanitize_returns (l : list Z) : forall s : A,
  pooled (foldl (fun s v => if (v =? SENTINEL) || (v =? 0) then s else return_multi_areas v v s) s l) ≡ₚ areas l ++ pooled s.
Proof.
  induction l as [|v l IH]; intros s; cbn [foldl]; [done|]. rewrite IH, areas_cons.
  destruct (Z.eqb_spec v SENTINEL), (Z.eqb_spec v 0); cbn [orb]; try by rewrite areas_none by tauto.
  rewrite areas_some, returned_is_pooled by done. cbn [app]. by rewrite Permutation_middle.
Qed.

(** Every slot that is not free has exactly one owner, every owner a slot. *)
Record owned (w : world A) : Prop := {
  ow_one : NoDup (filter (fun i => 0 <= i) (owners w));
  ow_slot : forall i, i ∈ owners w -> 0 <= i -> exists v, slots (base w) !! Z.to_nat i = Some v /\ v <> 0;
  ow_owner : forall i v, slots (base w) !! i = Some v -> v <> 0 -> Z.of_nat i ∈ owners w
}.

Lemma owned_init n s : owned (World (State (replicate n 0) s) [] []).
Proof.
  split; cbn [owners base slots]; [constructor|by intros i ?%elem_of_nil|].
  intros i v [-> _]%lookup_replicate_1. done.
Qed.

(** A slot keeps its owner while it is not free. *)
Lemma owned_set w i v u l : owned w -> slots (base w) !! Z.to_nat i = Some u -> u <> 0 -> v <> 0 ->
  owned (World (set_slot (Z.to_nat i) v (base w)) (owners w) l).
Proof.
  intros [H1 H2 H3] E Hu Hv. split; cbn [owners base slots set_slot]; [done| |].
  - intros j Hj Hp. destruct (decide (Z.to_nat j = Z.to_nat i)) as [->|Hne].
    + exists v. split; [|done]. apply list_lookup_insert_eq. by eapply lookup_lt_Some.
    + rewrite list_lookup_insert_ne by done. by apply H2.
  - intros j v'. destruct (decide (j = Z.to_nat i)) as [->|Hne].
    + intros _ _. by eapply H3.
    + rewrite list_lookup_insert_ne by done. apply H3.
Qed.

Lemma owned_claim w i st : owned w -> claim (base w) = (i, st) -> owned (World st (owners w ++ [i]) (linked w)).
Proof.
  intros [H1 H2 H3]. unfold claim. destruct (list_find _ _) as [[j u]|] eqn:E; intros [= <- <-].
  - apply list_find_Some in E as (Ej & -> & _). assert (Z.of_nat j ∉ owners w) as Hn.
    { intros Hj. destruct (H2 _ Hj ltac:(lia)) as (v & Hv & Hv0). rewrite Nat2Z.id in Hv. congruence. }
    split; cbn [owners base slots set_slot].
    + rewrite list.filter_app, filter_cons_True by lia. apply list.NoDup_app. split; [done|]. split; [|repeat constructor; by intros ?%elem_of_nil].
      intros x [_ Hx]%list_elem_of_filter ->%list_elem_of_singleton. done.
    + intros x [Hx| ->%list_elem_of_singleton]%elem_of_app Hp.
      * destruct (H2 x Hx Hp) as (v & Hv & Hv0). exists v. split; [|done]. rewrite list_lookup_insert_ne; [done|]. intros E. congruence.
      * exists SENTINEL. rewrite Nat2Z.id. split; [|done]. apply list_lookup_insert_eq. by eapply lookup_lt_Some.
    + intros x v. rewrite elem_of_app. destruct (decide (x = j)) as [->|Hne]; [intros _ _; right; by apply list_elem_of_singleton|].
      rewrite list_lookup_insert_ne by done. intros Hv Hv0. left. by eapply H3.
  - split; cbn [owners base].
    + rewrite list.filter_app, filter_cons_False by lia. by rewrite app_nil_r.
    + intros x [Hx| ->%list_elem_of_singleton]%elem_of_app Hp; [by apply H2|lia].
    + intros x v Hv Hv0. apply elem_of_app. left. by eapply H3.
Qed.

Lemma release_slot i st : (release i st).1 = (if i <? 0 then i else -1) /\
  slots (release i st).2 = if (0 <=? i) && negb (default 0 (slots st !! Z.to_nat i) =? 0) then <[Z.to_nat i := 0]> (slots st) else slots st.
Proof.
  unfold release. destruct (Z.ltb_spec i 0); [rewrite (proj2 (Z.leb_gt 0 i)) by lia; done|].
  rewrite (proj2 (Z.leb_le 0 i)) by lia. cbn [andb fst snd]. split; [done|]. by destruct (negb (_ =? 0)), (negb (_ =? SENTINEL)).
Qed.

Lemma owned_release w own own' i : owned w -> owners w = own ++ i :: own' ->
  owned (World (release i (base w)).2 (own ++ (release i (base w)).1 :: own') (linked w)).
Proof.
  intros O Ew. destruct (release_slot i (base w)) as [-> Es]. destruct (Z.ltb_spec i 0) as [Hi|Hi].
  { rewrite (proj2 (Z.leb_gt 0 i)) in Es by lia. destruct O as [H1 H2 H3]. rewrite Ew in *. by split; cbn [owners base]; rewrite ?Es. }
  rewrite (proj2 (Z.leb_le 0 i)) in Es by lia. cbn [andb] in Es. destruct O as [H1 H2 H3]. rewrite Ew in *.
  destruct (H2 i ltac:(set_solver) Hi) as (u & Hu & Hu0). rewrite Hu in Es. change (default 0 (Some u)) with u in Es. apply Z.eqb_neq in Hu0 as Hb. rewrite Hb in Es. cbn [negb] in Es.
  rewrite list.filter_app, filter_cons_True in H1 by lia. apply list.NoDup_app in H1 as (N1 & N2 & [N3 N4]%list.NoDup_cons).
  assert (forall x, 0 <= x -> x ∈ own \/ x ∈ own' -> x <> i) as Hne.
  { intros x Hx [Ho|Ho] ->; [apply (N2 i); [by apply list_elem_of_filter|left]|apply N3; by apply list_elem_of_filter]. }
  split; cbn [owners base]; rewrite ?Es.
  - rewrite list.filter_app, filter_cons_False by lia. apply list.NoDup_app. split; [done|]. split; [|done]. intros x Hx Hx'. apply (N2 x Hx). by right.
  - intros x [Hx|[->|Hx]%list.elem_of_cons]%elem_of_app Hp; [|lia|].
    + destruct (H2 x ltac:(set_solver) Hp) as (v & Hv & Hv0). exists v. split; [|done]. rewrite list_lookup_insert_ne; [done|].
      pose proof (Hne x Hp ltac:(tauto)). lia.
    + destruct (H2 x ltac:(set_solver) Hp) as (v & Hv & Hv0). exists v. split; [|done]. rewrite list_lookup_insert_ne; [done|].
      pose proof (Hne x Hp ltac:(tauto)). lia.
  - intros x v. destruct (decide (x = Z.to_nat i)) as [->|Hx].
    + rewrite list_lookup_insert_eq by by eapply lookup_lt_Some. intros [= <-]. done.
    + rewrite list_lookup_insert_ne by done. intros Hv Hv0. specialize (H3 x v Hv Hv0). rewrite elem_of_app, list.elem_of_cons in *.
      destruct H3 as [?|[E|?]]; [tauto|lia|tauto].
Qed.

Lemma owned_crash w : owned (World (sanitize (base w)) [] (linked w)).
Proof.
  split; cbn [owners base sanitize slots]; [constructor|by intros i ?%elem_of_nil|].
  intros i v. rewrite list_lookup_fmap. destruct (slots (base w) !! i); [|done]. by intros [= <-].
Qed.

(** ** No area is lost *)

Lemma step_owned w new w' : owned w -> step w new w' -> owned w'.
Proof.
  intros O H. destruct H as [w i st E|w i a Hi Hp E Ha Hs|w i a Hi Hp E Ha Hs|w own own' i E|w].
  - eapply owned_claim; [exact O|exact E].
  - unfold track_area. destruct (Z.ltb_spec i 0); [lia|]. by apply (owned_set w i a SENTINEL).
  - unfold clear_area. destruct (Z.ltb_spec i 0); [lia|]. by apply (owned_set w i SENTINEL a).
  - by apply owned_release.
  - by apply owned_crash.
Qed.

Lemma claim_known (w : world A) i st : claim (base w) = (i, st) -> areas (slots st) = areas (slots (base w)) /\ storage st = storage (base w).
Proof.
  unfold claim. destruct (list_find _ _) as [[j u]|] eqn:E; intros [= <- <-]; [|done]. split; [|done].
  apply list_find_Some in E as (Ej & -> & _). cbn [set_slot slots]. rewrite insert_take_drop by by eapply lookup_lt_Some.
  rewrite <- (take_drop_middle _ _ _ Ej) at 3. by rewrite !areas_app, (areas_cons SENTINEL), (areas_cons 0), !areas_none by tauto.
Qed.

Lemma release_known i (st : state A) : 0 <= i -> is_Some (slots st !! Z.to_nat i) ->
  areas (slots (release i st).2) ++ pooled (storage (release i st).2) ≡ₚ areas (slots st) ++ pooled (storage st).
Proof.
  intros Hi [u E]. unfold release. destruct (Z.ltb_spec i 0); [lia|]. rewrite E. change (default 0 (Some u)) with u. cbn [snd].
  destruct (Z.eqb_spec u 0) as [->|Hu]; cbn [negb andb]; [done|]. pose proof (areas_set (slots st) _ u 0 E) as P.
  rewrite (areas_none 0) in P by tauto. cbn [app] in P. destruct (Z.eqb_spec u SENTINEL) as [->|Hu']; cbn [negb set_slot slots storage].
  - rewrite areas_none in P by tauto. cbn [app] in P. by rewrite P.
  - rewrite areas_some in P by done. rewrite returned_is_pooled, <- P. cbn [app]. by rewrite <- Permutation_middle.
Qed.

Lemma step_known w new w' : owned w -> step w new w' -> known w' ≡ₚ new ++ known w.
Proof.
  intros O H. unfold known. destruct H as [w i st E|w i a Hi Hp E Ha Hs|w i a Hi Hp E Ha Hs|w own own' i E|w]; cbn [base linked app].
  - destruct (claim_known w i st E) as [-> ->]. done.
  - unfold track_area. destruct (Z.ltb_spec i 0); [lia|]. cbn [set_slot slots storage]. pose proof (areas_set _ _ _ a E) as P.
    rewrite (areas_none SENTINEL), areas_some in P by tauto. cbn [app] in P. rewrite P. cbn [app]. by rewrite <- Permutation_middle.
  - unfold clear_area. destruct (Z.ltb_spec i 0); [lia|]. cbn [set_slot slots storage]. pose proof (areas_set _ _ _ SENTINEL E) as P.
    rewrite (areas_none SENTINEL), areas_some in P by tauto. cbn [app] in P. rewrite <- P. cbn [app]. by rewrite <- Permutation_middle.
  - destruct (Z.lt_ge_cases i 0) as [Hi|Hi].
    + unfold release. by rewrite (proj2 (Z.ltb_lt i 0)).
    + destruct (ow_slot _ O i) as (v & Hv & _); [rewrite E; set_solver|done|]. by rewrite release_known.
  - cbn [sanitize slots storage]. rewrite sanitize_returns. apply Permutation_app_head.
    by rewrite zeros_map, areas_zeros.
Qed.

(** C27: Whatever receivers do and whenever the program crashes: every area they took is
    with one transaction, in one slot or in the pool, and no area is in two of them;
    a slot that is not free has one owner. *)
Theorem areas_are_kept n s taken w : reachable n s taken w -> known w ≡ₚ taken ++ pooled s /\ owned w.
Proof.
  intros H. induction H as [|taken w new w' _ [IH O] Hs].
  - split; [|apply owned_init]. unfold known. cbn [linked base slots storage app]. by rewrite areas_zeros.
  - split; [|by eapply step_owned]. by rewrite (step_known w new w' O Hs), IH, <- app_assoc.
Qed.

End facts.

(** ** Examples *)

(** A pool that keeps its areas in a list. *)
#[export, program] Instance list_sink : AreaSink (list Z) := { return_multi_areas a _ s := a :: s; pooled s := s }.
Next Obligation. done. Qed.

(** Two receivers; the second one fails, then the program crashes. *)
Lemma crash_run_reachable : reachable 2 [] [8192; 4096] (World (State [0; 0] [4096; 8192]) [] []).
Proof.
  apply (reach_step 2 [] [8192; 4096] (World (State [4096; 0] [8192]) [0; -1] []) []); [|exact (crashes (World (State [4096; 0] [8192]) [0; -1] []))].
  apply (reach_step 2 [] [8192; 4096] (World (State [4096; 8192] []) [0; 1] []) []); [|exact (releases (World (State [4096; 8192] []) [0; 1] []) [0] [] 1 eq_refl)].
  apply (reach_step 2 [] [4096] (World (State [4096; 1] []) [0; 1] []) [8192]); [|exact (tracks (World (State [4096; 1] []) [0; 1] []) 1 8192 ltac:(set_solver) ltac:(lia) eq_refl ltac:(done) ltac:(done))].
  apply (reach_step 2 [] [4096] (World (State [4096; 0] []) [0] []) []); [|exact (claims (World (State [4096; 0] []) [0] []) 1 _ eq_refl)].
  apply (reach_step 2 [] [] (World (State [1; 0] []) [0] []) [4096]); [|exact (tracks (World (State [1; 0] []) [0] []) 0 4096 ltac:(set_solver) ltac:(lia) eq_refl ltac:(done) ltac:(done))].
  apply (reach_step 2 [] [] (World (State [0; 0] []) [] []) []); [|exact (claims (World (State [0; 0] []) [] []) 0 _ eq_refl)].
  apply reach_init.
Qed.

Lemma areas_are_kept_witness : known (World (State [0; 0] [4096; 8192]) [] []) ≡ₚ [8192; 4096].
Proof. apply (areas_are_kept 2 [] [8192; 4096] _ crash_run_reachable). Defined.

(** Without a free slot an area that is not merged is not returned, crash or not. *)
Theorem no_slot_leaks_area : exists st i st', claim (State [SENTINEL] ([] : list Z)) = (i, st) /\
  release i (track_area i 4096 st) = (i, st') /\ slots st' = [SENTINEL] /\ pooled (storage st') = [].
Proof. eexists _, _, _. by split_and!. Qed.

End replslot.
