(* ===== verification/BigStream.v ===== *)
(** * BigStream: big values on the wire

    Models [_send_big_value_start], [_send_big_value_chunk] and
    [_handle_big_value_ack] of the sender in [replication/_replication_fsm.hpp], and
    [replication/_big_value_receiver.hpp]. The sender cuts the headers and the data of
    all values into messages of at most one chunk; the receiver puts them together
    again in one area. *)
From S2P Require Import Prelude Util File Bytes BigMem Protocol ReplSlot.

Module bigstream.
Export protocol bigmem.
Import util file.
#[local] Ltac Zify.zify_post_hook ::= Z.to_euclidean_division_equations.

(** ** The wire format *)

(** [BigValueDataHeader], [BigValueStartHeader] *)
Definition DATA_HEADER : nat := 12.
Definition START_HEADER : nat := 12.

Definition data_header (wire_chunk_offset value_size : Z) : list Z := le_bytes 8 wire_chunk_offset ++ le_bytes 4 value_size.
Definition start_header (count total_aligned_size : Z) : list Z := le_bytes 4 count ++ le_bytes 8 total_aligned_size.

(** ** The sender *)

(** A [PendingBigValue] as [resolve_big_value] reads it: the bytes of the value. *)
Record pending := Pending { wire_chunk_offset : Z; value : list Z }.
Definition size_of (bv : pending) : nat := length (value bv).

(** [_bv_current_idx], [_bv_current_offset], [_bv_header_sent], [_bv_header_bytes_sent] *)
Record position := Position { current_idx : nat; current_offset : nat; header_sent : bool; header_bytes_sent : nat }.
Definition start : position := Position 0 0 false 0.

Section sender.
Context (MAX_PAGE_SIZE : Z) (BIG_VALUE_CHUNK_SIZE : nat).

(** The size that [_send_big_value_start] announces. *)
Definition total_aligned_size (l : list pending) : Z :=
  foldl (fun t bv => u64 (t + padding (FREE_KEY + Z.of_nat (size_of bv)) MAX_PAGE_SIZE)) 0 l.

Definition send_start (l : list pending) : list Z := start_header (Z.of_nat (length l)) (total_aligned_size l).

(** The loop of [_send_big_value_chunk]; [None] when [n] rounds are not enough. *)
Fixpoint chunk_loop (n : nat) (big_values : list pending) (p : position) (chunk : list Z) : option (position * list Z) :=
  match n with
  | O => None
  | S n =>
      match big_values !! current_idx p with
      | None => Some (p, chunk)
      | Some bv =>
          if (BIG_VALUE_CHUNK_SIZE <=? length chunk)%nat then Some (p, chunk)
          else
            let data p chunk :=
              let data_remaining := (size_of bv - current_offset p)%nat in
              let data_space := (BIG_VALUE_CHUNK_SIZE - length chunk)%nat in
              let data_to_send := Nat.min data_remaining data_space in
              let chunk := chunk ++ take data_to_send (drop (current_offset p) (value bv)) in
              let offset := (current_offset p + data_to_send)%nat in
              if (size_of bv <=? offset)%nat then chunk_loop n big_values (Position (S (current_idx p)) 0 false 0) chunk
              else Some (Position (current_idx p) offset (header_sent p) (header_bytes_sent p), chunk) in
            if header_sent p then data p chunk
            else
              let hdr := data_header (wire_chunk_offset bv) (Z.of_nat (size_of bv)) in
              let header_remaining := (DATA_HEADER - header_bytes_sent p)%nat in
              let header_space := (BIG_VALUE_CHUNK_SIZE - length chunk)%nat in
              let header_to_send := Nat.min header_remaining header_space in
              let chunk := chunk ++ take header_to_send (drop (header_bytes_sent p) hdr) in
              if (header_to_send <? header_remaining)%nat then
                Some (Position (current_idx p) (current_offset p) false (header_bytes_sent p + header_to_send), chunk)
              else data (Position (current_idx p) 0 true 0) chunk
      end
  end.

Definition send_chunk (big_values : list pending) (p : position) : option (position * list Z) :=
  chunk_loop (S (length big_values)) big_values p [].

(** The chunks of all values, each sent when the one before was acknowledged. *)
Fixpoint send_all (n : nat) (big_values : list pending) (p : position) : option (list (list Z)) :=
  if (length big_values <=? current_idx p)%nat then Some []
  else
    match n with
    | O => None
    | S n => '(p, chunk) ← send_chunk big_values p; cs ← send_all n big_values p; Some (chunk :: cs)
    end.

End sender.

(** ** The receiver *)

(** What changes with every value. *)
Record storing := Storing { offsets : gmap Z Z; write_pos : Z; received_count : Z; area : list Z }.

(** The state of the parser. *)
Record parsing := Parsing {
  header_buf : list Z;
  current_wire_offset : Z;
  current_size : Z;
  current_received : Z;
  parsing_header : bool
}.

(** [_BigValueReceiver]; [area] has the bytes at [base], [multi_area] is 0 without an
    area of its own. *)
Record receiver := Receiver {
  multi_area : Z;
  using_tmp_area : bool;
  area_offset : Z;
  area_size : Z;
  expected_count : Z;
  trie_count : Z;
  max_size : Z;
  rx_storing : storing;
  rx_parsing : parsing
}.

Definition set_storing (s : storing) (r : receiver) : receiver :=
  Receiver (multi_area r) (using_tmp_area r) (area_offset r) (area_size r) (expected_count r) (trie_count r) (max_size r) s (rx_parsing r).
Definition set_parsing (p : parsing) (r : receiver) : receiver :=
  Receiver (multi_area r) (using_tmp_area r) (area_offset r) (area_size r) (expected_count r) (trie_count r) (max_size r) (rx_storing r) p.

Definition fresh_parsing : parsing := Parsing [] 0 0 0 true.

Definition new_receiver (max : Z) : receiver := Receiver 0 false 0 0 0 0 max (Storing ∅ 0 0 []) fresh_parsing.

Definition clear (r : receiver) : receiver :=
  Receiver 0 false 0 0 (expected_count r) (trie_count r) (max_size r) (Storing ∅ 0 (received_count (rx_storing r)) []) (rx_parsing r).
Definition set_trie_count (n : Z) (r : receiver) : receiver :=
  Receiver (multi_area r) (using_tmp_area r) (area_offset r) (area_size r) (expected_count r) n (max_size r) (rx_storing r) (rx_parsing r).
Definition reset (r : receiver) : receiver := set_trie_count 0 (clear r).

(** The stream, and an area whose bytes are [found]. *)
Definition begin_stream (offset size : Z) (tmp : bool) (ma : Z) (found : list Z) (count : Z) (r : receiver) : receiver :=
  Receiver ma tmp offset size count (trie_count r) (max_size r) (Storing ∅ 0 0 found) fresh_parsing.

Section handle_start.
Context {A : Type} `{!AreaSource A, !AreaSink A} (AREA_SIZE AREA_HEADER : Z).

(** [found tmp o n]: the bytes of the temporary area, or of the area at [o]. The result
    has the error, 0 for none. *)
Definition handle_start (payload : list Z) (slot : Z) (found : bool -> Z -> Z -> list Z) (r : receiver) (st : replslot.state A)
    : Z * receiver * replslot.state A :=
  if (length payload <? START_HEADER)%nat then (INVALID_MESSAGE, r, st)
  else
    let count := read_field 0 4 payload in
    let total := read_field 4 8 payload in
    let r := Receiver (multi_area r) (using_tmp_area r) (area_offset r) (area_size r) count (trie_count r) (max_size r)
      (Storing (offsets (rx_storing r)) (write_pos (rx_storing r)) 0 (area (rx_storing r))) (rx_parsing r) in
    if max_size r <? total then (RESOURCE_LIMIT, r, st)
    else
      let alloc_size := u64 (u64 (total + AREA_SIZE - 1) / AREA_SIZE * AREA_SIZE) in
      if alloc_size <=? AREA_SIZE then (NONE, begin_stream 0 AREA_SIZE true 0 (found true 0 AREA_SIZE) count r, st)
      else
        match alloc_multi_area alloc_size (replslot.storage st) with
        | None => (INTERNAL_ERROR, Receiver (multi_area r) false (area_offset r) (area_size r) count (trie_count r) (max_size r) (rx_storing r) (rx_parsing r), st)
        | Some (o, k, s) =>
            let st := replslot.track_area slot o (replslot.State (replslot.slots st) s) in
            let offset := o + AREA_HEADER in
            let size := o + k - offset in
            (NONE, begin_stream offset size false o (found false offset size) count r, st)
        end.

End handle_start.

Section handle_data.
Context (MAX_PAGE_SIZE : Z).

(** A header is complete: the chunk of the value starts. *)
Definition open_value (r : receiver) : Z * receiver :=
  let p := rx_parsing r in
  let s := rx_storing r in
  let wire := read_field 0 8 (header_buf p) in
  let size := read_field 8 4 (header_buf p) in
  let r := set_parsing (Parsing (header_buf p) wire size 0 false) r in
  let aligned_size := padding (FREE_KEY + size) MAX_PAGE_SIZE in
  if area_size r <? write_pos s + aligned_size then (INTERNAL_ERROR, r)
  else
    let header_offset := area_offset r + write_pos s in
    let has_successor := u32 (received_count s + 1) <? expected_count r in
    let header := key_bytes (FreeKey aligned_size (Z.lor header_offset (if has_successor then 1 else 0))) in
    (NONE, set_storing (Storing (<[wire := header_offset + FREE_KEY]> (offsets s)) (write_pos s) (received_count s)
      (overlay (area s) (Z.to_nat (write_pos s)) header)) r).

(** Bytes of the value. *)
Definition store_data (data : list Z) (r : receiver) : receiver :=
  let p := rx_parsing r in
  let s := rx_storing r in
  set_storing (Storing (offsets s) (write_pos s) (received_count s)
      (overlay (area s) (Z.to_nat (write_pos s + FREE_KEY + current_received p)) data))
    (set_parsing (Parsing (header_buf p) (current_wire_offset p) (current_size p) (current_received p + Z.of_nat (length data)) (parsing_header p)) r).

(** The value is complete, or not yet. *)
Definition close_value (r : receiver) : receiver :=
  let p := rx_parsing r in
  let s := rx_storing r in
  if current_size p <=? current_received p then
    set_storing (Storing (offsets s) (write_pos s + padding (FREE_KEY + current_size p) MAX_PAGE_SIZE) (u32 (received_count s + 1)) (area s))
      (set_parsing (Parsing [] (current_wire_offset p) (current_size p) (current_received p) true) r)
  else r.

Definition set_header_buf (l : list Z) (r : receiver) : receiver :=
  let p := rx_parsing r in set_parsing (Parsing l (current_wire_offset p) (current_size p) (current_received p) (parsing_header p)) r.

(** The loop of [handle_data]: the error, the receiver, the bytes of values. *)
Fixpoint data_loop (n : nat) (r : receiver) (payload : list Z) (delta : Z) : option (Z * receiver * Z) :=
  match payload with
  | [] => Some (NONE, r, delta)
  | _ =>
      match n with
      | O => None
      | S n =>
          let data r payload :=
            let p := rx_parsing r in
            let data_to_read := Nat.min (Z.to_nat (current_size p - current_received p)) (length payload) in
            let r := store_data (take data_to_read payload) r in
            data_loop n (close_value r) (drop data_to_read payload) (delta + Z.of_nat data_to_read) in
          let p := rx_parsing r in
          if parsing_header p then
            let header_to_read := Nat.min (DATA_HEADER - length (header_buf p)) (length payload) in
            let r := set_header_buf (header_buf p ++ take header_to_read payload) r in
            if (length (header_buf (rx_parsing r)) <? DATA_HEADER)%nat then Some (NONE, r, delta)
            else
              let '(err, r) := open_value r in
              if negb (err =? NONE) then Some (err, r, delta) else data r (drop header_to_read payload)
          else data r payload
      end
  end.

(** The error, the receiver, [bytes_delta], [all_received]. *)
Definition handle_data (payload : list Z) (r : receiver) : option (Z * receiver * Z * bool) :=
  '(err, r, delta) ← data_loop (S (length payload)) r payload 0;
  Some (err, r, delta, (err =? NONE) && (expected_count r <=? received_count (rx_storing r))).

End handle_data.

(** ** The transaction takes the area *)

(** The areas of a transaction: [area_list_head_multi], [area_list_tail_multi] and the
    [next] fields. *)
Record area_chain := AreaChain { head_multi : Z; tail_multi : Z; next_area : Z -> Z }.

Definition link_area {A} `{!AreaSink A} (slot : Z) (r : receiver) (ch : area_chain) (st : replslot.state A) : area_chain * replslot.state A :=
  if multi_area r =? 0 then (ch, st)
  else
    let a := multi_area r in
    let ch := AreaChain (head_multi ch) (tail_multi ch) (upd (next_area ch) a 0) in
    let ch :=
      if negb (tail_multi ch =? 0) then AreaChain (head_multi ch) (tail_multi ch) (upd (next_area ch) (tail_multi ch) a)
      else AreaChain a (tail_multi ch) (next_area ch) in
    (AreaChain (head_multi ch) a (next_area ch), replslot.clear_area slot st).

End bigstream.
