(* ===== verification/BigStreamFacts.v ===== *)
(** * BigStreamFacts: big values arrive as they were sent

    However the headers and the data of big values fall on the chunks, the receiver
    stores every value, one behind the other, with the header of its chunk, and knows
    when it has the last one. The size that the sender announces is what is needed;
    the area that the receiver allocates for it can be smaller by the header of an
    area. *)
From S2P Require Import Prelude Util File Bytes BigMem BigMemFacts BigMemExample Protocol ReplSlot BigStream.

Module bigstreamfacts.
Export bigstream.
Import util file.
#[local] Ltac Zify.zify_post_hook ::= Z.to_euclidean_division_equations.

(** ** The stream *)

Definition hdr (bv : pending) : list Z := data_header (wire_chunk_offset bv) (Z.of_nat (size_of bv)).
Definition item (bv : pending) : list Z := hdr bv ++ value bv.
Definition stream (l : list pending) : list Z := concat (map item l).

Definition pending_ok (bv : pending) : Prop := 0 <= wire_chunk_offset bv < 2 ^ 64 /\ Z.of_nat (size_of bv) < 2 ^ 32.

Lemma hdr_length bv : length (hdr bv) = DATA_HEADER.
Proof. unfold hdr, data_header. by rewrite length_app, !le_bytes_length. Qed.

Lemma stream_cons bv l : stream (bv :: l) = hdr bv ++ value bv ++ stream l.
Proof. unfold stream, item. cbn [map concat]. by rewrite <- app_assoc. Qed.

(** ** Sending *)

Section sender.
Context (C : nat).
Hypothesis C_pos : (0 < C)%nat.

(** What is left to send. *)
Definition rest (l : list pending) (p : position) : list Z :=
  match drop (current_idx p) l with
  | [] => []
  | bv :: t => (if header_sent p then drop (current_offset p) (value bv) else drop (header_bytes_sent p) (hdr bv) ++ value bv) ++ stream t
  end.

Definition position_ok (l : list pending) (p : position) : Prop :=
  match l !! current_idx p with
  | None => current_idx p = length l
  | Some bv =>
      if header_sent p then header_bytes_sent p = 0%nat /\ (current_offset p < size_of bv)%nat
      else current_offset p = 0%nat /\ (header_bytes_sent p < DATA_HEADER)%nat
  end.

Lemma rest_some l p bv : l !! current_idx p = Some bv ->
  rest l p = (if header_sent p then drop (current_offset p) (value bv) else drop (header_bytes_sent p) (hdr bv) ++ value bv) ++
    stream (drop (S (current_idx p)) l).
Proof. intros E. unfold rest. by rewrite (drop_S _ _ _ E). Qed.

Lemma rest_next l i : rest l (Position i 0 false 0) = stream (drop i l).
Proof.
  unfold rest. cbn [current_idx header_sent header_bytes_sent]. destruct (drop i l); [done|]. by rewrite stream_cons, <- app_assoc.
Qed.

Lemma rest_none l p : l !! current_idx p = None -> rest l p = [].
Proof. intros E. unfold rest. apply lookup_ge_None in E. by rewrite drop_ge. Qed.

Lemma rest_nil l p : position_ok l p -> rest l p = [] -> (length l <= current_idx p)%nat.
Proof.
  intros Ok E. destruct (l !! current_idx p) as [bv|] eqn:El; [exfalso|by apply lookup_ge_None].
  rewrite (rest_some _ _ _ El) in E. unfold position_ok in Ok. rewrite El in Ok. apply (f_equal length) in E. unfold size_of in Ok.
  destruct (header_sent p); rewrite ?length_app, length_drop, ?hdr_length in E; cbn [length] in E; lia.
Qed.

(** A chunk takes what comes next; it is full unless it is the last one. *)
Definition cut (l : list pending) (p : position) (chunk : list Z) (r : option (position * list Z)) : Prop :=
  exists p' x, r = Some (p', chunk ++ x) /\ rest l p = x ++ rest l p' /\ position_ok l p' /\
    (length (chunk ++ x) <= C)%nat /\ (rest l p' <> [] -> length (chunk ++ x) = C).

Lemma cut_stop l p chunk : position_ok l p -> length chunk = C -> cut l p chunk (Some (p, chunk)).
Proof. intros H1 H2. exists p, []. rewrite app_nil_r. by split_and!; [..|lia|]. Qed.

Lemma cut_more l p p1 x chunk r : cut l p1 (chunk ++ x) r -> rest l p = x ++ rest l p1 -> cut l p chunk r.
Proof.
  intros (p' & y & -> & E & Ok & Hl & Hf) Ex. exists p', (x ++ y). rewrite app_assoc. split_and!; try done. by rewrite Ex, E, app_assoc.
Qed.

Lemma next_ok l i bv : l !! i = Some bv -> position_ok l (Position (S i) 0 false 0).
Proof.
  intros E. unfold position_ok. cbn [current_idx header_sent current_offset header_bytes_sent]. destruct (l !! S i) eqn:E'.
  - unfold DATA_HEADER. lia.
  - apply lookup_ge_None in E'. apply lookup_lt_Some in E. lia.
Qed.

(** The part of the loop that sends data. *)
Lemma data_cut l p chunk bv (go : position -> list Z -> option (position * list Z)) : l !! current_idx p = Some bv ->
  header_sent p = true -> header_bytes_sent p = 0%nat -> (current_offset p <= size_of bv)%nat -> (length chunk <= C)%nat ->
  (forall chunk, (length chunk <= C)%nat -> cut l (Position (S (current_idx p)) 0 false 0) chunk (go (Position (S (current_idx p)) 0 false 0) chunk)) ->
  let data_to_send := Nat.min (size_of bv - current_offset p) (C - length chunk) in
  let chunk' := chunk ++ take data_to_send (drop (current_offset p) (value bv)) in
  let offset := (current_offset p + data_to_send)%nat in
  cut l p chunk (if (size_of bv <=? offset)%nat then go (Position (S (current_idx p)) 0 false 0) chunk'
                 else Some (Position (current_idx p) offset (header_sent p) (header_bytes_sent p), chunk')).
Proof.
  intros El Hs Hb Ho Hc Hgo n chunk' offset. unfold size_of in *.
  assert (length (take n (drop (current_offset p) (value bv))) = n) as Ln by (rewrite length_take, length_drop; lia).
  destruct (Nat.leb_spec (length (value bv)) offset) as [Hl|Hl].
  - apply (cut_more _ _ (Position (S (current_idx p)) 0 false 0) (take n (drop (current_offset p) (value bv)))).
    + apply Hgo. unfold chunk'. rewrite length_app. lia.
    + rewrite (rest_some _ _ _ El), Hs, rest_next. f_equal. rewrite firstn_all2; [done|]. rewrite length_drop. lia.
  - exists (Position (current_idx p) offset true 0), (take n (drop (current_offset p) (value bv))). rewrite Hs, Hb.
    split; [done|]. split; [|split; [|split]].
    + rewrite !(rest_some l _ bv) by done. cbn [header_sent current_offset current_idx]. rewrite Hs, app_assoc. f_equal.
      rewrite <- (take_drop n (drop (current_offset p) (value bv))) at 1. by rewrite drop_drop.
    + unfold position_ok. cbn [current_idx header_sent header_bytes_sent current_offset]. rewrite El. done.
    + rewrite length_app. lia.
    + intros _. rewrite length_app. lia.
Qed.

Lemma chunk_loop_ok l : forall n p chunk, (length l < n + current_idx p)%nat -> position_ok l p -> (length chunk <= C)%nat ->
  cut l p chunk (chunk_loop C n l p chunk).
Proof.
  induction n as [|n IH]; intros p chunk Hn Ok Hc.
  { exfalso. unfold position_ok in Ok. destruct (l !! current_idx p) eqn:El; [apply lookup_lt_Some in El|]; lia. }
  cbn [chunk_loop]. destruct (l !! current_idx p) as [bv|] eqn:El.
  2: { exists p, []. rewrite app_nil_r. rewrite (rest_none _ _ El). by split_and!. }
  destruct (Nat.leb_spec C (length chunk)) as [Hf|Hf]; [apply cut_stop; [done|lia]|].
  assert (forall chunk, (length chunk <= C)%nat -> cut l (Position (S (current_idx p)) 0 false 0) chunk
    (chunk_loop C n l (Position (S (current_idx p)) 0 false 0) chunk)) as Hgo.
  { intros chunk' Hc'. apply IH; [cbn [current_idx]; lia|by eapply next_ok|done]. }
  unfold position_ok in Ok. rewrite El in Ok. destruct (header_sent p) eqn:Hs.
  { destruct Ok as [Hb Ho]. pose proof (data_cut l p chunk bv (chunk_loop C n l) El Hs Hb ltac:(lia) ltac:(lia) Hgo) as H. rewrite Hs in H. exact H. }
  destruct Ok as [Ho Hb]. fold (hdr bv). set (k := Nat.min (DATA_HEADER - header_bytes_sent p) (C - length chunk)).
  set (x := take k (drop (header_bytes_sent p) (hdr bv))).
  assert (length x = k) as Lx by (unfold x; rewrite length_take, length_drop, hdr_length; lia).
  destruct (Nat.ltb_spec k (DATA_HEADER - header_bytes_sent p)) as [Hk|Hk].
  - exists (Position (current_idx p) (current_offset p) false (header_bytes_sent p + k)), x. split; [done|]. split; [|split; [|split]].
    + rewrite !(rest_some l _ bv) by done. cbn [header_sent header_bytes_sent current_idx]. rewrite Hs.
      rewrite <- (take_drop k (drop (header_bytes_sent p) (hdr bv))) at 1. by rewrite drop_drop, <- !app_assoc.
    + unfold position_ok. cbn [current_idx header_sent header_bytes_sent current_offset]. rewrite El. lia.
    + rewrite length_app. lia.
    + intros _. rewrite length_app. lia.
  - set (p1 := Position (current_idx p) 0 true 0). assert (x = drop (header_bytes_sent p) (hdr bv)) as Ex.
    { unfold x. apply firstn_all2. rewrite length_drop, hdr_length. lia. }
    apply (cut_more _ _ p1 x).
    + apply (data_cut l p1 (chunk ++ x) bv (chunk_loop C n l)); try done; [cbn; lia|rewrite length_app; lia].
    + rewrite !(rest_some l _ bv) by done. cbn [p1 header_sent current_offset current_idx]. by rewrite Hs, Ex, <- app_assoc.
Qed.

Lemma send_all_ok l : forall n p, (length (rest l p) <= n)%nat -> position_ok l p -> exists cs, send_all C n l p = Some cs /\
  concat cs = rest l p /\ Forall (fun c => c <> [] /\ (length c <= C)%nat) cs.
Proof.
  induction n as [|n IH]; intros p Hn Ok; cbn [send_all]; destruct (Nat.leb_spec (length l) (current_idx p)) as [H|H].
  1,3: exists []; rewrite rest_none by (by apply lookup_ge_None); by split_and!.
  - exfalso. destruct (rest l p) eqn:E; [|cbn [length] in Hn; lia]. pose proof (rest_nil _ _ Ok E). lia.
  - destruct (chunk_loop_ok l (S (length l)) p [] ltac:(lia) Ok ltac:(cbn; lia)) as (p' & x & E & Er & Ok' & Hl & Hf).
    unfold send_chunk. rewrite E. cbn [mbind option_bind app] in *. assert (x <> []) as Hx.
    { intros ->. cbn [app length] in *. destruct (rest l p') eqn:E'; [|specialize (Hf ltac:(done)); lia].
      pose proof (rest_nil _ _ Ok Er). lia. }
    destruct (IH p') as (cs & -> & Ec & Hcs); [|done|].
    { rewrite Er, length_app in Hn. destruct x; [done|]. cbn [length] in Hn. lia. }
    exists (x :: cs). cbn [mbind option_bind concat]. split; [done|]. split; [by rewrite Ec, Er|]. by constructor.
Qed.

End sender.

(** ** Receiving *)

Section receiver.
Context (MAX_PAGE_SIZE : Z).
Hypothesis page_ok : 0 < MAX_PAGE_SIZE.

Abbreviation data_loop := (bigstream.data_loop MAX_PAGE_SIZE).
Abbreviation open_value := (bigstream.open_value MAX_PAGE_SIZE).
Abbreviation close_value := (bigstream.close_value MAX_PAGE_SIZE).

Definition aligned (bv : pending) : Z := padding (FREE_KEY + Z.of_nat (size_of bv)) MAX_PAGE_SIZE.
Definition psum (l : list pending) : Z := foldr (fun bv n => aligned bv + n) 0 l.

Lemma aligned_size bv : FREE_KEY + Z.of_nat (size_of bv) <= aligned bv.
Proof. apply padding_bounds. done. Qed.

Lemma psum_cons bv l : psum (bv :: l) = aligned bv + psum l.
Proof. done. Qed.

Lemma psum_app l k : psum (l ++ k) = psum l + psum k.
Proof. induction l as [|bv l IH]; [done|]. cbn [app psum foldr] in *. unfold psum in *. lia. Qed.

Lemma psum_pos l : 0 <= psum l.
Proof. induction l as [|bv l IH]; [done|]. unfold psum in *. cbn [foldr]. pose proof (aligned_size bv). unfold FREE_KEY in *. lia. Qed.

(** What the receiver stores for a value: the chunk with its header, and the data. *)
Definition chunk_header (r : receiver) (s : storing) (bv : pending) : list Z :=
  key_bytes (FreeKey (aligned bv) (Z.lor (area_offset r + write_pos s) (if u32 (received_count s + 1) <? expected_count r then 1 else 0))).

Definition partly (r : receiver) (s : storing) (bv : pending) (data : list Z) : storing :=
  Storing (<[wire_chunk_offset bv := area_offset r + write_pos s + FREE_KEY]> (offsets s)) (write_pos s) (received_count s)
    (overlay (area s) (Z.to_nat (write_pos s)) (chunk_header r s bv ++ data)).

Definition put_value (r : receiver) (s : storing) (bv : pending) : storing :=
  let s' := partly r s bv (value bv) in Storing (offsets s') (write_pos s + aligned bv) (u32 (received_count s + 1)) (area s').

Definition stored (r : receiver) (l : list pending) : storing := foldl (put_value r) (Storing ∅ 0 0 (area (rx_storing r))) l.

Lemma chunk_header_length r s bv : length (chunk_header r s bv) = 16%nat.
Proof. unfold chunk_header, key_bytes. by rewrite length_app, be_bytes_length, le_bytes_length. Qed.

Lemma stored_app r l bv : stored r (l ++ [bv]) = put_value r (stored r l) bv.
Proof. unfold stored. by rewrite foldl_app. Qed.

Lemma stored_counts r l : write_pos (stored r l) = psum l /\ (Z.of_nat (length l) < 2 ^ 32 -> received_count (stored r l) = Z.of_nat (length l)).
Proof.
  induction l as [|bv l IH] using rev_ind; [done|]. rewrite stored_app, psum_app, length_app. destruct IH as [IH1 IH2].
  cbn [put_value write_pos received_count length]. rewrite IH1. split; [cbn [psum foldr]; lia|]. intros H. rewrite IH2 by lia. rewrite wrap_small by lia. lia.
Qed.

Lemma stored_length r l : psum l <= Z.of_nat (length (area (rx_storing r))) -> length (area (stored r l)) = length (area (rx_storing r)).
Proof.
  induction l as [|bv l IH] using rev_ind; [done|]. rewrite stored_app, psum_app. cbn [psum foldr]. intros H. pose proof (aligned_size bv) as Ha.
  unfold FREE_KEY in Ha. unfold put_value, partly. cbn [area]. rewrite overlay_length, length_app, chunk_header_length.
  rewrite (proj1 (stored_counts r l)). pose proof (psum_pos l). rewrite IH by lia. unfold size_of in Ha. lia.
Qed.

(** ** The state after a part of the stream *)

(** The receiver [r] took over from [r0] and has [left] of the stream of [all] before it. *)
Inductive at_stream (r0 : receiver) (all : list pending) (left : list Z) : receiver -> Prop :=
  | at_header done rest hb w sz n : all = done ++ rest -> hb ++ left = stream rest -> (length hb < DATA_HEADER)%nat ->
      at_stream r0 all left (set_parsing (Parsing hb w sz n true) (set_storing (stored r0 done) r0))
  | at_data done bv rest hb j : all = done ++ bv :: rest -> left = drop j (value bv) ++ stream rest -> (j < size_of bv)%nat ->
      at_stream r0 all left (set_parsing (Parsing hb (wire_chunk_offset bv) (Z.of_nat (size_of bv)) (Z.of_nat j) false)
        (set_storing (partly r0 (stored r0 done) bv (take j (value bv))) r0)).

Record stream_ok (r0 : receiver) (all : list pending) : Prop := {
  so_values : Forall pending_ok all;
  so_fits : psum all <= area_size r0;
  so_area : Z.of_nat (length (area (rx_storing r0))) = area_size r0;
  so_count : Z.of_nat (length all) < 2 ^ 32
}.

Lemma room r0 all done bv rest : stream_ok r0 all -> all = done ++ bv :: rest ->
  0 <= psum done /\ psum done + aligned bv <= area_size r0 /\ length (area (stored r0 done)) = length (area (rx_storing r0)) /\
  write_pos (stored r0 done) = psum done.
Proof.
  intros [_ H1 H2 _] ->. rewrite psum_app in H1. cbn [psum foldr] in H1. pose proof (psum_pos done). pose proof (psum_pos rest).
  fold (psum rest) in H1. pose proof (aligned_size bv). unfold FREE_KEY in *. split; [done|]. split; [lia|]. split; [|apply stored_counts].
  apply stored_length. lia.
Qed.

(** The header of a value opens its chunk. *)
Lemma open_ok r0 all done bv rest w sz n : stream_ok r0 all -> all = done ++ bv :: rest ->
  open_value (set_parsing (Parsing (hdr bv) w sz n true) (set_storing (stored r0 done) r0)) =
    (NONE, set_parsing (Parsing (hdr bv) (wire_chunk_offset bv) (Z.of_nat (size_of bv)) 0 false)
       (set_storing (partly r0 (stored r0 done) bv []) r0)).
Proof.
  intros Ok E. destruct (room _ _ _ _ _ Ok E) as (H1 & H2 & H3 & H4). unfold bigstream.open_value.
  cbn [set_parsing set_storing rx_parsing rx_storing header_buf area_size].
  assert (pending_ok bv) as [Hw Hs].
  { pose proof (so_values _ _ Ok) as Hv. rewrite E, Forall_app, list.Forall_cons in Hv. tauto. }
  assert (read_field 0 8 (hdr bv) = wire_chunk_offset bv) as ->.
  { unfold read_field, hdr, data_header. change (drop 0 ?l) with l. rewrite take_app_length' by by rewrite le_bytes_length. by apply le_value_bytes. }
  assert (read_field 8 4 (hdr bv) = Z.of_nat (size_of bv)) as ->.
  { unfold hdr, data_header. rewrite <- (app_nil_r (le_bytes 4 _)), (read_field_at 8 4) by by rewrite le_bytes_length.
    apply le_value_bytes. change (256 ^ Z.of_nat 4) with (2 ^ 32). lia. }
  fold (aligned bv). rewrite H4. destruct (Z.ltb_spec (area_size r0) (psum done + aligned bv)); [lia|].
  unfold partly, chunk_header. cbn [set_storing set_parsing]. rewrite H4, app_nil_r. done.
Qed.

(** Bytes of the data extend what is stored. *)
Lemma store_ok r0 all done bv rest hb j x : stream_ok r0 all -> all = done ++ bv :: rest -> (j <= size_of bv)%nat ->
  x = take (length x) (drop j (value bv)) ->
  store_data x (set_parsing (Parsing hb (wire_chunk_offset bv) (Z.of_nat (size_of bv)) (Z.of_nat j) false)
    (set_storing (partly r0 (stored r0 done) bv (take j (value bv))) r0)) =
  set_parsing (Parsing hb (wire_chunk_offset bv) (Z.of_nat (size_of bv)) (Z.of_nat (j + length x)) false)
    (set_storing (partly r0 (stored r0 done) bv (take (j + length x) (value bv))) r0).
Proof.
  intros Ok E Hj Ex. destruct (room _ _ _ _ _ Ok E) as (H1 & H2 & H3 & H4). unfold store_data.
  cbn [set_parsing set_storing rx_parsing rx_storing current_received header_buf current_wire_offset current_size parsing_header].
  unfold set_parsing, set_storing. cbn [multi_area using_tmp_area area_offset area_size expected_count trie_count max_size rx_storing rx_parsing].
  rewrite Nat2Z.inj_add. f_equal. unfold partly. cbn [offsets write_pos received_count area]. f_equal.
  replace (Z.to_nat (write_pos (stored r0 done) + FREE_KEY + Z.of_nat j)) with
    (Z.to_nat (write_pos (stored r0 done)) + length (chunk_header r0 (stored r0 done) bv ++ take j (value bv)))%nat.
  - rewrite overlay_overlay, <- app_assoc. f_equal. f_equal. rewrite Ex at 1. apply take_take_drop.
  - rewrite length_app, chunk_header_length, length_take, H4. unfold FREE_KEY, size_of in *. lia.
Qed.

(** Up to the end of the value, or of the payload. *)
Lemma data_step r0 all done bv rest hb j p q : stream_ok r0 all -> all = done ++ bv :: rest -> (j <= size_of bv)%nat ->
  p ++ q = drop j (value bv) ++ stream rest ->
  let k := Nat.min (size_of bv - j) (length p) in
  at_stream r0 all (drop k p ++ q) (close_value (store_data (take k p)
    (set_parsing (Parsing hb (wire_chunk_offset bv) (Z.of_nat (size_of bv)) (Z.of_nat j) false)
      (set_storing (partly r0 (stored r0 done) bv (take j (value bv))) r0)))).
Proof.
  intros Ok E Hj Ep k. assert (length (take k p) = k) as Lk by (rewrite length_take; lia).
  assert (take k p = take k (drop j (value bv))) as Et.
  { transitivity (take k (p ++ q)); [by rewrite take_app_le by lia|]. rewrite Ep, take_app_le; [done|]. rewrite length_drop. unfold size_of in *. lia. }
  assert (drop k p ++ q = drop (j + k) (value bv) ++ stream rest) as Ed.
  { transitivity (drop k (p ++ q)); [by rewrite drop_app_le by lia|]. rewrite Ep, drop_app_le; [by rewrite drop_drop|]. rewrite length_drop. unfold size_of in *. lia. }
  rewrite (store_ok r0 all done bv rest) by (done || by rewrite Lk). rewrite Lk, Ed. unfold bigstream.close_value.
  cbn [set_parsing set_storing rx_parsing rx_storing current_size current_received current_wire_offset].
  destruct (Z.leb_spec (Z.of_nat (size_of bv)) (Z.of_nat (j + k))) as [Hl|Hl].
  - rewrite drop_ge, firstn_all2 by (unfold size_of in *; lia). cbn [app].
    unfold set_parsing, set_storing. cbn [multi_area using_tmp_area area_offset area_size expected_count trie_count max_size rx_storing rx_parsing].
    pose proof (at_header r0 all (stream rest) (done ++ [bv]) rest [] (wire_chunk_offset bv) (Z.of_nat (size_of bv)) (Z.of_nat (j + k))) as H.
    rewrite stored_app in H. apply H; [by rewrite E, <- app_assoc|done|by cbn; unfold DATA_HEADER; lia].
  - apply (at_data r0 all _ done bv rest hb (j + k)); [done|done|lia].
Qed.

Lemma data_loop_ok r0 all q : stream_ok r0 all -> forall n p r delta, at_stream r0 all (p ++ q) r -> (length p < n)%nat ->
  exists r' delta', data_loop n r p delta = Some (NONE, r', delta') /\ at_stream r0 all q r'.
Proof.
  intros Ok. induction n as [|n IH]; intros p r delta At Hn; [lia|]. destruct p as [|b p0]; [by exists r, delta|].
  cbn [bigstream.data_loop]. set (p := b :: p0) in *. assert (0 < length p)%nat as Hp0 by (cbn [p length]; lia). clearbody p. clear b p0.
  destruct At as [done rest hb w sz m E Eh Hh|done bv rest hb j E El Hj]; cbn [set_parsing rx_parsing parsing_header header_buf current_size current_received].
  - destruct rest as [|bv rest].
    { exfalso. apply (f_equal length) in Eh. rewrite !length_app in Eh. cbn in Eh. lia. }
    set (k := Nat.min (DATA_HEADER - length hb) (length p)).
    assert (length (take k p) = k) as Lk by (rewrite length_take; lia). unfold set_header_buf. cbn [set_parsing rx_parsing header_buf current_size current_received current_wire_offset parsing_header].
    rewrite length_app, Lk. destruct (Nat.ltb_spec (length hb + k) DATA_HEADER) as [Hk|Hk].
    + eexists _, _. split; [done|]. rewrite firstn_all2 by lia.
      apply (at_header r0 all q done (bv :: rest)); [done|by rewrite <- app_assoc|rewrite length_app; lia].
    + rewrite stream_cons in Eh. assert (hb ++ take k p = hdr bv) as Ehdr.
      { transitivity (take DATA_HEADER (hb ++ p ++ q)).
        - rewrite take_app_ge by lia. rewrite take_app_le by lia. do 2 f_equal. lia.
        - rewrite Eh, take_app_length' by by rewrite hdr_length. done. }
      assert (drop k p ++ q = value bv ++ stream rest) as Ed.
      { transitivity (drop DATA_HEADER (hb ++ p ++ q)).
        - rewrite drop_app_ge by lia. rewrite drop_app_le by lia. do 2 f_equal. lia.
        - rewrite Eh, drop_app_length' by by rewrite hdr_length. done. }
      rewrite Ehdr. pose proof (open_ok r0 all done bv rest w sz m Ok E) as Eo.
      unfold set_parsing, set_storing in Eo |- *. cbn [multi_area using_tmp_area area_offset area_size expected_count trie_count max_size rx_storing rx_parsing] in Eo |- *.
      rewrite Eo. cbn [negb NONE Z.eqb rx_parsing current_size current_received].
      pose proof (data_step r0 all done bv rest (hdr bv) 0 (drop k p) q Ok E ltac:(lia) Ed) as Hd.
      unfold set_parsing, set_storing in Hd. cbn [multi_area using_tmp_area area_offset area_size expected_count trie_count max_size rx_storing rx_parsing Z.of_nat take] in Hd.
      rewrite Nat.sub_0_r in Hd. rewrite Z.sub_0_r, Nat2Z.id. apply IH; [exact Hd|]. rewrite !length_drop. lia.
  - pose proof (data_step r0 all done bv rest hb j p q Ok E ltac:(lia) El) as Hd. cbv zeta in Hd.
    replace (Z.to_nat (Z.of_nat (size_of bv) - Z.of_nat j)) with (size_of bv - j)%nat by lia.
    apply IH; [exact Hd|]. rewrite length_drop. lia.
Qed.

(** ** All chunks *)

(** The chunks one after the other; [None] when one of them fails, or when the last
    one is taken for another or another for the last one. *)
Fixpoint receive_all (r : receiver) (cs : list (list Z)) : option receiver :=
  match cs with
  | [] => Some r
  | c :: cs =>
      '(err, r, _, all_received) ← handle_data MAX_PAGE_SIZE c r;
      if negb (err =? NONE) then None
      else if Bool.eqb all_received (bool_decide (cs = [])) then receive_all r cs else None
  end.

Lemma at_end r0 all left r : stream_ok r0 all -> expected_count r0 = Z.of_nat (length all) -> at_stream r0 all left r ->
  (expected_count r <=? received_count (rx_storing r)) = bool_decide (left = []) /\ (left = [] -> rx_storing r = stored r0 all).
Proof.
  intros Ok Ec [done rest hb w sz m E Eh Hh|done bv rest hb j E El Hj]; cbn [set_parsing set_storing expected_count rx_storing]; rewrite Ec.
  - pose proof (so_count _ _ Ok) as Hc. rewrite (proj2 (stored_counts r0 done)) by (rewrite E, length_app in Hc; lia).
    destruct rest as [|bv rest].
    + rewrite app_nil_r in E. subst done. destruct hb; [|done]. cbn [app] in Eh. subst left. rewrite Z.leb_refl, bool_decide_eq_true_2 by done. done.
    + assert (left <> []) as Hl.
      { intros ->. rewrite app_nil_r in Eh. rewrite stream_cons in Eh. subst hb. rewrite length_app, hdr_length in Hh. lia. }
      rewrite bool_decide_eq_false_2 by done. split; [|done]. apply Z.leb_gt. rewrite E, length_app. cbn [length]. lia.
  - pose proof (so_count _ _ Ok) as Hc. cbn [partly received_count]. rewrite (proj2 (stored_counts r0 done)) by (rewrite E, length_app in Hc; lia).
    assert (left <> []) as Hl.
    { intros ->. apply (f_equal length) in El. rewrite length_app, length_drop in El. unfold size_of in Hj. cbn [length] in El. lia. }
    rewrite bool_decide_eq_false_2 by done. split; [|done]. apply Z.leb_gt. rewrite E, length_app. cbn [length]. lia.
Qed.

Lemma receive_all_ok r0 all : stream_ok r0 all -> expected_count r0 = Z.of_nat (length all) ->
  forall cs r, at_stream r0 all (concat cs) r -> Forall (fun c => c <> []) cs -> exists r', receive_all r cs = Some r' /\ at_stream r0 all [] r'.
Proof.
  intros Ok Ec. induction cs as [|c cs IH]; intros r At Hne; [by exists r|]. apply list.Forall_cons in Hne as [Hc Hne]. cbn [concat] in At.
  destruct (data_loop_ok r0 all (concat cs) Ok (S (length c)) c r 0 At ltac:(lia)) as (r' & delta & E & At').
  cbn [receive_all]. unfold handle_data. rewrite E. cbn [mbind option_bind Z.eqb NONE negb andb].
  rewrite (proj1 (at_end _ _ _ _ Ok Ec At')).
  assert (bool_decide (concat cs = []) = bool_decide (cs = [])) as ->.
  { apply bool_decide_ext. destruct cs as [|c' cs]; [done|]. apply list.Forall_cons in Hne as [Hc' _]. cbn [concat]. split; [|done]. by destruct c'. }
  rewrite eqb_reflx. by apply IH.
Qed.

End receiver.

(** ** What is stored can be read *)

Lemma overlay_before f off src o n : (o + n <= off)%nat -> (off <= length f)%nat -> take n (drop o (overlay f off src)) = take n (drop o f).
Proof.
  intros H1 H2. unfold overlay. replace (off - length f)%nat with 0%nat by lia. cbn [replicate]. rewrite app_nil_r.
  rewrite drop_app_le by (rewrite length_take; lia). rewrite take_app_le by (rewrite length_drop, length_take; lia).
  rewrite skipn_firstn_comm, take_take. by rewrite Nat.min_l by lia.
Qed.

Lemma overlay_written f off a b : (off <= length f)%nat -> take (length b) (drop (off + length a) (overlay f off (a ++ b))) = b.
Proof.
  intros H. unfold overlay. replace (off - length f)%nat with 0%nat by lia. cbn [replicate]. rewrite app_nil_r, <- app_assoc, app_assoc.
  rewrite drop_app_length' by (rewrite length_app, length_take; lia). by rewrite take_app_length.
Qed.

Section stored.
Context (MAX_PAGE_SIZE : Z).
Hypothesis page_ok : 0 < MAX_PAGE_SIZE.
Abbreviation psum := (psum MAX_PAGE_SIZE).
Abbreviation aligned := (aligned MAX_PAGE_SIZE).
Abbreviation stored := (stored MAX_PAGE_SIZE).

(** The value is at [pos] in the area, and the table leads to it. *)
Record has_value (r0 : receiver) (s : storing) (bv : pending) (pos : Z) : Prop := {
  hv_range : 0 <= pos /\ pos + aligned bv <= write_pos s;
  hv_offset : offsets s !! wire_chunk_offset bv = Some (area_offset r0 + pos + FREE_KEY);
  hv_data : take (size_of bv) (drop (Z.to_nat (pos + FREE_KEY)) (area s)) = value bv;
  hv_size : fk_size (key_of (take 16 (drop (Z.to_nat pos) (area s)))) = aligned bv
}.

Lemma key_size n o : 0 <= n < 2 ^ 64 -> fk_size (key_of (key_bytes (FreeKey n o))) = n.
Proof.
  intros H. unfold key_of, key_bytes. cbn [fk_size fk_offset]. rewrite take_app_length' by by rewrite be_bytes_length. by apply be_value_bytes.
Qed.

Lemma stored_values r0 l : NoDup (map wire_chunk_offset l) -> psum l <= Z.of_nat (length (area (rx_storing r0))) -> psum l < 2 ^ 64 ->
  forall bv, bv ∈ l -> exists pos, has_value r0 (stored r0 l) bv pos.
Proof.
  induction l as [|b l IH] using rev_ind; [by intros _ _ _ bv ?%elem_of_nil|].
  rewrite map_app, psum_app. cbn [map bigstreamfacts.psum foldr]. intros Hnd Hs H64 bv Hbv.
  apply list.NoDup_app in Hnd as (N1 & N2 & _). pose proof (aligned_size _ page_ok b) as Ha. pose proof (psum_pos _ page_ok l) as Hp. unfold FREE_KEY in Ha.
  destruct (stored_counts MAX_PAGE_SIZE r0 l) as [Ew _].
  assert (length (area (stored r0 l)) = length (area (rx_storing r0))) as Ea by (apply stored_length; [done|lia]).
  rewrite stored_app. apply elem_of_app in Hbv as [Hbv|Hbv].
  - destruct (IH N1 ltac:(lia) ltac:(lia) bv Hbv) as (pos & [H1 H2 H3 H4]). exists pos.
    pose proof (aligned_size _ page_ok bv) as Hb. unfold FREE_KEY in *.
    split; cbn [put_value partly write_pos offsets area]; unfold FREE_KEY in *.
    + lia.
    + rewrite lookup_insert_ne; [done|]. intros E. apply (N2 (wire_chunk_offset bv)); [apply list_elem_of_fmap; by exists bv|]. rewrite E. left.
    + rewrite overlay_before; [done|lia|lia].
    + rewrite overlay_before; [done|lia|lia].
  - apply list_elem_of_singleton in Hbv as ->. exists (write_pos (stored r0 l)). unfold FREE_KEY in *.
    split; cbn [put_value partly write_pos offsets area]; unfold FREE_KEY in *.
    + lia.
    + by rewrite lookup_insert_eq.
    + replace (Z.to_nat (write_pos (stored r0 l) + 16)) with (Z.to_nat (write_pos (stored r0 l)) + length (chunk_header MAX_PAGE_SIZE r0 (stored r0 l) b))%nat
        by (rewrite chunk_header_length; lia). apply overlay_written. lia.
    + pose proof (overlay_written (area (stored r0 l)) (Z.to_nat (write_pos (stored r0 l))) [] (chunk_header MAX_PAGE_SIZE r0 (stored r0 l) b ++ value b) ltac:(lia)) as H.
      cbn [app length] in H. rewrite Nat.add_0_r in H. apply (f_equal (take 16)) in H. rewrite take_take, length_app, chunk_header_length in H.
      rewrite Nat.min_l in H by lia. rewrite H, take_app_length' by by rewrite chunk_header_length. apply key_size. lia.
Qed.

Lemma total_ok l : psum l < 2 ^ 64 -> total_aligned_size MAX_PAGE_SIZE l = psum l.
Proof.
  unfold total_aligned_size. enough (forall t, 0 <= t -> t + psum l < 2 ^ 64 ->
    foldl (fun t bv => u64 (t + padding (FREE_KEY + Z.of_nat (size_of bv)) MAX_PAGE_SIZE)) t l = t + psum l) as H by (intros; by apply (H 0)).
  induction l as [|bv l IH]; intros t Ht H; cbn [foldl]; [by rewrite Z.add_0_r|]. rewrite psum_cons in *. fold (aligned bv).
  pose proof (aligned_size _ page_ok bv). pose proof (psum_pos _ page_ok l). unfold FREE_KEY in *. rewrite wrap_small by lia. rewrite IH; lia.
Qed.

End stored.

(** ** From the announcement to the last value *)

Section session.
Context {A : Type} `{AS : !AreaSource A, !AreaSink A} (AREA_SIZE AREA_HEADER MAX_PAGE_SIZE : Z) `{!bigmemfacts.AreaLaws A AREA_SIZE}.
Context (C : nat) (found : bool -> Z -> Z -> list Z).
Hypothesis sizes_ok : 0 < MAX_PAGE_SIZE /\ 0 < AREA_SIZE < 2 ^ 32 /\ 0 <= AREA_HEADER /\ (0 < C)%nat.
Hypothesis found_size : forall tmp o n, 0 <= n -> Z.of_nat (length (found tmp o n)) = n.
Abbreviation psum := (psum MAX_PAGE_SIZE).

(** The announced size leaves room for the header of the area. *)
Definition leaves_room (l : list pending) : Prop :=
  psum l <= AREA_SIZE \/ psum l + AREA_HEADER <= (psum l + AREA_SIZE - 1) / AREA_SIZE * AREA_SIZE.

Lemma start_fields count total : 0 <= count < 2 ^ 32 -> 0 <= total < 2 ^ 64 ->
  length (start_header count total) = START_HEADER /\ read_field 0 4 (start_header count total) = count /\ read_field 4 8 (start_header count total) = total.
Proof.
  intros H1 H2. unfold start_header. split; [by rewrite length_app, !le_bytes_length|]. split.
  - unfold read_field. change (drop 0 ?l) with l. rewrite take_app_length' by by rewrite le_bytes_length. by apply le_value_bytes.
  - rewrite <- (app_nil_r (le_bytes 8 _)), (read_field_at 4 8) by by rewrite le_bytes_length. by apply le_value_bytes.
Qed.

(** An announcement that is accepted makes room for the values. *)
Lemma handle_start_ok l slot r st : Forall pending_ok l -> Z.of_nat (length l) < 2 ^ 32 -> psum l < 2 ^ 63 -> leaves_room l ->
  match handle_start AREA_SIZE AREA_HEADER (send_start MAX_PAGE_SIZE l) slot found r st with
  | (err, r0, st') =>
      if err =? NONE then stream_ok MAX_PAGE_SIZE r0 l /\ expected_count r0 = Z.of_nat (length l) /\ rx_parsing r0 = fresh_parsing /\
        rx_storing r0 = Storing ∅ 0 0 (area (rx_storing r0)) /\ psum l <= max_size r
      else (err = RESOURCE_LIMIT /\ max_size r < psum l) \/ (err = INTERNAL_ERROR /\ exists n, psum l <= n /\ alloc_multi_area n (replslot.storage st) = None)
  end.
Proof.
  intros Hok Hl Hp Hr. destruct sizes_ok as (S1 & S2 & S3 & S4). pose proof (psum_pos _ S1 l) as Hp0.
  unfold handle_start, send_start. rewrite (total_ok _ S1) by lia. destruct (start_fields (Z.of_nat (length l)) (psum l) ltac:(lia) ltac:(lia)) as (-> & -> & ->).
  destruct (Nat.ltb_spec START_HEADER START_HEADER); [lia|]. cbn [max_size]. destruct (Z.ltb_spec (max_size r) (psum l)) as [Hm|Hm]; [by left|].
  rewrite (wrap_small 64 (psum l + AREA_SIZE - 1)) by lia. set (q := (psum l + AREA_SIZE - 1) / AREA_SIZE * AREA_SIZE) in *.
  assert (psum l <= q < psum l + AREA_SIZE) as Hq.
  { unfold q. pose proof (Z_div_mod_eq_full (psum l + AREA_SIZE - 1) AREA_SIZE). pose proof (Z.mod_pos_bound (psum l + AREA_SIZE - 1) AREA_SIZE ltac:(lia)). lia. }
  rewrite wrap_small by lia. destruct (Z.leb_spec q AREA_SIZE) as [Ha|Ha].
  - cbn [NONE Z.eqb]. split; [|done]. split; cbn [begin_stream area_size rx_storing area]; [done|lia|apply found_size; lia|done].
  - destruct (alloc_multi_area q (replslot.storage st)) as [[[o k] s]|] eqn:E.
    + cbn [NONE Z.eqb]. destruct (bigmemfacts.area_new q _ _ _ _ ltac:(lia) E) as (_ & _ & Hk & _). split; [|done].
      assert (psum l <= o + k - (o + AREA_HEADER)) as Hroom.
      { destruct Hr as [Hr|Hr]; [exfalso|fold q in Hr; lia].
        assert ((psum l + AREA_SIZE - 1) / AREA_SIZE < 2) by (apply Z.div_lt_upper_bound; lia). unfold q in Ha. nia. }
      split; cbn [begin_stream area_size rx_storing area]; [done|done|apply found_size; lia|done].
    + cbn [INTERNAL_ERROR NONE Z.eqb]. right. split; [done|]. exists q. split; [lia|done].
Qed.

(** C24: The values of a session, under different offsets and within the fields of the
    headers, where the announced size is at most that of an area or leaves room for the
    header of the area ([leaves_room]; [exact_fit_overflows]): announced, cut into chunks,
    received; every one of them can be read in the area, where the table says, unless the
    receiver refuses the announcement, as larger than its limit or for want of an area. *)
Theorem big_values_arrive n l slot r st : Forall pending_ok l -> NoDup (map wire_chunk_offset l) -> Z.of_nat (length l) < 2 ^ 32 ->
  psum l < 2 ^ 63 -> leaves_room l -> (length (stream l) <= n)%nat ->
  match handle_start AREA_SIZE AREA_HEADER (send_start MAX_PAGE_SIZE l) slot found r st with
  | (err, r0, _) =>
      if err =? NONE then exists cs r1, send_all C n l start = Some cs /\ Forall (fun c => (length c <= C)%nat) cs /\
        receive_all MAX_PAGE_SIZE r0 cs = Some r1 /\
        (forall bv, bv ∈ l -> exists pos, has_value MAX_PAGE_SIZE r1 (rx_storing r1) bv pos) /\ write_pos (rx_storing r1) <= area_size r1
      else err = RESOURCE_LIMIT \/ err = INTERNAL_ERROR
  end.
Proof.
  intros Hok Hnd Hl Hp Hr Hn. pose proof (handle_start_ok l slot r st Hok Hl Hp Hr) as Hs. destruct sizes_ok as (S1 & S2 & S3 & S4).
  destruct (handle_start _ _ _ _ _ _ _) as [[err r0] st']. destruct (err =? NONE) eqn:Ee; [|tauto].
  destruct Hs as (So & Ec & Ep & Es & _).
  assert (position_ok l start) as P0.
  { unfold position_ok, start. cbn [current_idx header_sent current_offset header_bytes_sent]. destruct (l !! 0%nat) eqn:E0; [unfold DATA_HEADER; lia|].
    apply lookup_ge_None in E0. lia. }
  assert (rest l start = stream l) as Er by apply (rest_next l 0).
  destruct (send_all_ok C S4 l n start ltac:(by rewrite Er) P0) as (cs & E1 & E2 & E3). rewrite Er in E2.
  assert (at_stream MAX_PAGE_SIZE r0 l (concat cs) r0) as At.
  { rewrite E2. pose proof (at_header MAX_PAGE_SIZE r0 l (stream l) [] l [] 0 0 0 eq_refl eq_refl ltac:(unfold DATA_HEADER; cbn; lia)) as Hat.
    unfold stored in Hat. cbn [foldl] in Hat. rewrite <- Es in Hat. unfold fresh_parsing in Ep. rewrite <- Ep in Hat. by destruct r0. }
  destruct (receive_all_ok MAX_PAGE_SIZE S1 r0 l So Ec cs r0 At) as (r1 & E4 & At1).
  { eapply Forall_impl; [|exact E3]. by intros c [? _]. }
  exists cs, r1. split; [done|]. split; [eapply Forall_impl; [|exact E3]; by intros c [_ ?]|]. split; [done|].
  pose proof (proj2 (at_end MAX_PAGE_SIZE r0 l [] r1 So Ec At1) eq_refl) as Est.
  assert (area_offset r1 = area_offset r0 /\ area_size r1 = area_size r0) as [Eo Esz] by by destruct At1.
  destruct So as [_ H1 H2 _]. rewrite Est, Esz. split; [|by rewrite (proj1 (stored_counts _ r0 l))]. intros bv Hbv.
  destruct (stored_values MAX_PAGE_SIZE S1 r0 l Hnd ltac:(lia) ltac:(lia) bv Hbv) as (pos & [V1 V2 V3 V4]). exists pos. split; [done|by rewrite Eo|done|done].
Qed.

End session.

(** ** Examples *)

Import bigmemexample.

(** Areas one after the other; those that come back are kept in a list. *)
#[export] Instance row_source : AreaSource (Z * list Z) := {
  alloc_multi_area n s := '(o, k, z) ← alloc_multi_area n s.1; Some (o, k, (z, s.2));
  unclaimed s x := unclaimed s.1 x
}.

#[export, program] Instance row_sink : AreaSink (Z * list Z) := { return_multi_areas a _ s := (s.1, a :: s.2); pooled s := s.2 }.
Next Obligation. done. Qed.

#[export] Instance row_laws : bigmemfacts.AreaLaws (Z * list Z) 256.
Proof.
  split. intros n s o k s' Hn.
  change (alloc_multi_area n s) with ('(o, k, z) ← alloc_multi_area n s.1; Some (o, k, (z, s.2))).
  destruct (alloc_multi_area n s.1) as [[[o' k'] z]|] eqn:E; cbn [mbind option_bind]; [|done]. intros [= <- <- <-].
  exact (bigmemfacts.area_new n s.1 o' k' z Hn E).
Qed.

Definition zeros (tmp : bool) (o n : Z) : list Z := replicate (Z.to_nat n) 0.
Definition row_state : replslot.state (Z * list Z) := replslot.State [replslot.SENTINEL] (256, []).
Definition two_values (n : nat) : list pending := [Pending 4096 (replicate n 7); Pending 8192 (replicate n 9)].

Lemma two_values_ok n : (n <= 1000)%nat -> Forall pending_ok (two_values n) /\ NoDup (map wire_chunk_offset (two_values n)).
Proof.
  intros H. unfold two_values. split.
  - rewrite !list.Forall_cons. unfold pending_ok, size_of. cbn [wire_chunk_offset value]. rewrite !length_replicate.
    change (2 ^ 64) with 18446744073709551616. change (2 ^ 32) with 4294967296. split_and!; try lia. by apply list.Forall_nil.
  - cbn [map wire_chunk_offset]. by apply (bool_decide_unpack _).
Qed.

(** Chunks of ten bytes cut the headers as well as the data. *)
Lemma big_values_arrive_witness :
  match handle_start 256 32 (send_start 64 (two_values 30)) 0 zeros (new_receiver 1000) row_state with
  | (err, r0, _) => err = NONE /\ exists cs r1, send_all 10 84 (two_values 30) start = Some cs /\ receive_all 64 r0 cs = Some r1
  end.
Proof.
  destruct (two_values_ok 30 ltac:(lia)) as [H1 H2].
  pose proof (big_values_arrive 256 32 64 10 zeros ltac:(lia) ltac:(intros; unfold zeros; rewrite length_replicate; lia)
    84 (two_values 30) 0 (new_receiver 1000) row_state H1 H2 ltac:(by vm_compute) ltac:(by vm_compute) ltac:(left; by vm_compute) ltac:(by vm_compute)) as H.
  destruct (handle_start _ _ _ _ _ _ _) as [[err r0] st] eqn:E.
  assert (err = NONE) as -> by (vm_compute in E; by injection E as <- _ _). split; [done|].
  destruct H as (cs & r1 & H3 & _ & H4 & _). exists cs, r1. split; [exact H3|exact H4].
Defined.

(** The announced size is a multiple of the size of an area: the receiver allocates
    just that much, the header of the area takes some of it, and the last value does
    not fit. *)
Theorem exact_fit_overflows :
  Forall pending_ok (two_values 100) /\ total_aligned_size 64 (two_values 100) = 2 * 128 /\
  match handle_start 128 32 (send_start 64 (two_values 100)) 0 zeros (new_receiver 1000) row_state with
  | (err, r0, _) => err = NONE /\ (cs ← send_all 300 224 (two_values 100) start; receive_all 64 r0 cs) = None /\
      is_Some (send_all 300 224 (two_values 100) start)
  end.
Proof.
  split; [apply two_values_ok; lia|]. split; [by vm_compute|]. vm_compute. split; [done|]. split; [done|by eexists].
Qed.

End bigstreamfacts.
