(* ===== verification/Hash.v ===== *)
(** * Hash: the hash trie of replication

    Models [_HashUpdater] and [update_hash_trie] of [replication/_hash.hpp]. A data
    trie that a transaction committed does not change, so it is the tree its pages
    show; the hash trie belongs to the updater alone, and its nodes carry the pages
    they live in. The allocator of hash nodes is an interface; it may run out of
    space, which ends the update where it stands. The hash function is code of
    another project and a parameter. *)
From S2P Require Import Prelude.

(** The pages of hash nodes: [live] are those in use. *)
Class NodePages (A : Type) := {
  take_node : Z -> A -> option (Z * A);
  give_node : Z -> A -> A;
  live : A -> list Z;
  take_live n a p a' : take_node n a = Some (p, a') -> live a' ≡ₚ p :: live a;
  give_live p a l : live a ≡ₚ p :: l -> live (give_node p a) ≡ₚ l
}.

Module hashing.

(** ** The two tries *)

(** A data leaf: the bytes behind its key, and the value itself where they refer to a
    big one. *)
Record leaf := Leaf { key : list Z; vdata : list Z; big : option (list Z) }.

(** The data trie: every node has the transaction of its page; the branches are in
    the order of [for_each_branch]. *)
Inductive data :=
  | DLeaf (txn : Z) (l : leaf)
  | DTrie (txn : Z) (compressed : list Z) (branches : list (Z * data)).

(** The hash trie; a leaf has the branch it hangs at. *)
Inductive hnode :=
  | HLeaf (page txn branch : Z) (hash : list Z)
  | HTrie (page txn : Z) (compressed hash : list Z) (branches : list (Z * hnode)).

Definition NONE : Z := -1.

Definition data_txn (d : data) : Z := match d with DLeaf t _ | DTrie t _ _ => t end.
Definition hash_txn (h : hnode) : Z := match h with HLeaf _ t _ _ | HTrie _ t _ _ _ => t end.
Definition hash_of (h : hnode) : list Z := match h with HLeaf _ _ _ x | HTrie _ _ _ x _ => x end.

(** [isset], [offset] *)
Definition child {X} (k : Z) (bs : list (Z * X)) : option X := '(_, b) ← list_find (fun b => b.1 = k) bs; Some b.2.

Definition isset {X} (k : Z) (bs : list (Z * X)) : bool := match child k bs with Some _ => true | None => false end.

Section updater.
Context {A : Type} `{!NodePages A}.
(** Blake3, whether the data base has a type [BigMemory], and the sizes of nodes. *)
Context (blake3 : list Z -> list Z) (has_big_memory : bool) (leaf_size : Z) (trie_size : Z -> Z -> Z).

(** ** Effects *)

(** A step that allocates: it returns, or the storage is full. *)
Inductive result (X : Type) :=
  | Done (x : X) (a : A)
  | Full (a : A)
  | NoFuel.
Arguments Done {X}.
Arguments Full {X}.
Arguments NoFuel {X}.

Definition M (X : Type) : Type := A -> result X.
Definition ret {X} (x : X) : M X := fun a => Done x a.
Definition bind {X Y} (m : M X) (f : X -> M Y) : M Y := fun a =>
  match m a with Done x a => f x a | Full a => Full a | NoFuel => NoFuel end.

Definition alloc_node (size : Z) : M Z := fun a =>
  match take_node size a with Some (p, a) => Done p a | None => Full a end.
Definition free_hash_node (p : Z) : M unit := fun a => Done tt (give_node p a).

(** One step for each branch. *)
Fixpoint each {X Y} (f : Z -> X -> M Y) (bs : list (Z * X)) : M (list (Z * Y)) :=
  match bs with
  | [] => ret []
  | (k, x) :: bs => bind (f k x) (fun y => bind (each f bs) (fun ys => ret ((k, y) :: ys)))
  end.

(** ** Hashes *)

Definition hash_leaf_value (l : leaf) : list Z :=
  if has_big_memory then default (vdata l) (big l) else vdata l.

Definition leaf_hash (key_path : list Z) (l : leaf) : list Z := blake3 (key_path ++ hash_leaf_value l).

(** [compute_trie_hash] *)
Definition trie_hash (compressed : list Z) (hashes : list (list Z)) : list Z := blake3 (compressed ++ concat hashes).

(** ** Nodes *)

Definition branch_key (l : leaf) : Z := match key l with [] => NONE | b :: _ => b end.

Definition create_leaf_hash (key_path : list Z) (txn : Z) (l : leaf) : M hnode :=
  let b := branch_key l in
  bind (alloc_node (leaf_size + if b =? NONE then 0 else 1)) (fun p => ret (HLeaf p txn b (leaf_hash key_path l))).

(** [alloc_hash_trie], [create] and [compute_trie_hash] *)
Definition create_trie_hash (txn : Z) (compressed : list Z) (offsets : list (Z * hnode)) : M hnode :=
  bind (alloc_node (trie_size (Z.of_nat (length compressed)) (Z.of_nat (length offsets)))) (fun p =>
    ret (HTrie p txn compressed (trie_hash compressed (map (fun b => hash_of b.2) offsets)) offsets)).

Fixpoint free_hash_subtree (h : hnode) : M unit :=
  match h with
  | HLeaf p _ _ _ => free_hash_node p
  | HTrie p _ _ _ bs =>
      bind ((fix go bs := match bs with [] => ret tt | (_, h) :: bs => bind (free_hash_subtree h) (fun _ => go bs) end) bs)
        (fun _ => free_hash_node p)
  end.

(** The branches that [keep] does not select. *)
Fixpoint free_branches (keep : Z -> bool) (bs : list (Z * hnode)) : M unit :=
  match bs with
  | [] => ret tt
  | (k, h) :: bs => if keep k then free_branches keep bs else bind (free_hash_subtree h) (fun _ => free_branches keep bs)
  end.

Fixpoint deep_copy_data_to_hash (key_path : list Z) (d : data) : M hnode :=
  match d with
  | DLeaf t l => create_leaf_hash (key_path ++ key l) t l
  | DTrie t c bs =>
      bind ((fix go bs :=
          match bs with
          | [] => ret []
          | (k, d) :: bs => bind (deep_copy_data_to_hash (key_path ++ c) d) (fun h => bind (go bs) (fun hs => ret ((k, h) :: hs)))
          end) bs)
        (create_trie_hash t c)
  end.

(** ** The walk over both tries *)

Fixpoint common_len (a b : list Z) : nat :=
  match a, b with
  | x :: a, y :: b => if x =? y then S (common_len a b) else 0
  | _, _ => 0
  end.

(** Replacing a hash subtree. *)
Definition replace (key_path : list Z) (d : data) (h : hnode) : M hnode :=
  bind (free_hash_subtree h) (fun _ => deep_copy_data_to_hash key_path d).

Definition sync_data_leaf (key_path : list Z) (txn : Z) (l : leaf) (h : hnode) (data_skip : nat) : M hnode :=
  bind (free_hash_subtree h) (fun _ => create_leaf_hash (key_path ++ drop data_skip (key l)) txn l).

(** The three ways in which the prefixes, less what is skipped, can agree; [sync] is
    the recursive call. *)
Section aligned.
Context (sync : list Z -> data -> hnode -> nat -> nat -> M hnode).

(** The hash prefix is longer: it goes on in the branch [b]. *)
Definition sync_longer_hash (key_path : list Z) (d_txn : Z) (dc : list Z) (dbs : list (Z * data)) (h : hnode) (hash_skip : nat) (b : Z) :
    M hnode :=
  bind (each (fun k x => if k =? b then sync key_path x h hash_skip 0 else deep_copy_data_to_hash key_path x) dbs)
    (create_trie_hash d_txn dc).

(** The data prefix is longer: only the branch [b] of the hash node matters. *)
Definition sync_longer_data (key_path more : list Z) (d : data) (data_skip : nat) (hp : Z) (hbs : list (Z * hnode)) (b : Z) : M hnode :=
  bind (free_branches (Z.eqb b) hbs) (fun _ =>
    match child b hbs with
    | Some x => bind (sync (key_path ++ more) d x 0 data_skip) (fun r => bind (free_hash_node hp) (fun _ => ret r))
    | None => bind (free_hash_node hp) (fun _ => deep_copy_data_to_hash key_path d)
    end).

Definition sync_matching_tries (key_path : list Z) (d_txn : Z) (dc : list Z) (dbs : list (Z * data)) (hp : Z) (hbs : list (Z * hnode)) :
    M hnode :=
  bind (each (fun k x =>
      match child k hbs with Some y => sync key_path x y 0 0 | None => deep_copy_data_to_hash key_path x end) dbs) (fun offsets =>
    bind (free_branches (fun k => isset k dbs) hbs) (fun _ =>
      bind (create_trie_hash d_txn dc offsets) (fun r => bind (free_hash_node hp) (fun _ => ret r)))).

End aligned.

Fixpoint sync_nodes (n : nat) (key_path : list Z) (d : data) (h : hnode) (hash_skip data_skip : nat) : M hnode :=
  match n with
  | O => fun _ => NoFuel
  | S n =>
      if (hash_skip =? 0)%nat && (data_skip =? 0)%nat && (data_txn d =? hash_txn h) then ret h
      else
        match d, h with
        | DLeaf t l, _ => sync_data_leaf key_path t l h data_skip
        | DTrie _ _ _, HLeaf _ _ _ _ => replace key_path d h
        | DTrie t dc dbs, HTrie hp _ hc _ hbs =>
            let dp := drop data_skip dc in
            let hpre := drop hash_skip hc in
            let common := common_len dp hpre in
            if ((common <? length dp) && (common <? length hpre))%nat then replace key_path d h
            else if (common <? length hpre)%nat then
              let diverge_byte := default 0 (hpre !! common) in
              if negb (isset diverge_byte dbs) then replace key_path d h
              else sync_longer_hash (sync_nodes n) (key_path ++ dp) t dc dbs h (hash_skip + common) diverge_byte
            else if (common <? length dp)%nat then
              sync_longer_data (sync_nodes n) key_path (take common dp) d (data_skip + common) hp hbs (default 0 (dp !! common))
            else sync_matching_tries (sync_nodes n) (key_path ++ dp) t dc dbs hp hbs
        end
  end.

(** [update_hash_trie]: [None] is an empty root. *)
Definition update_hash_trie (n : nat) (d : option data) (h : option hnode) : M (option hnode) :=
  match d, h with
  | None, None => ret None
  | None, Some h => bind (free_hash_subtree h) (fun _ => ret None)
  | Some d, None => bind (deep_copy_data_to_hash [] d) (fun h => ret (Some h))
  | Some d, Some h => bind (sync_nodes n [] d h 0 0) (fun h => ret (Some h))
  end.

End updater.

End hashing.
