(* ===== verification/Merkle.v ===== *)
(** * Merkle: what equal hashes of tries mean

    If no two of the strings that were hashed collide, two tries with equal root hashes
    have the same strings of key and value, in the same order. Where a key ends and its
    value begins is not hashed; nor are the contents of big values. *)
From Stdlib Require Import Sorted.
From S2P Require Import Prelude Hash HashFacts.

Module merkle.
Export hashfacts.

Section updater.
Context (blake3 : list Z -> list Z) (has_big_memory : bool).
Abbreviation ideal := (hashfacts.ideal blake3 has_big_memory).

(** ** Equal hashes *)

(** What is hashed for a leaf, and for a node. *)
Definition leaf_string (e : list Z * leaf) : list Z := e.1 ++ hash_leaf_value has_big_memory e.2.
Definition strings (kp : list Z) (d : data) : list (list Z) := map leaf_string (entries kp d).

Fixpoint node_inputs (d : data) (kp : list Z) : list (list Z) :=
  match d with
  | DLeaf _ _ => []
  | DTrie _ c bs => (c ++ concat (map (fun b => hash_of (ideal (kp ++ c) b.2)) bs)) :: flat_map (fun b => node_inputs b.2 (kp ++ c)) bs
  end.

Lemma hash_trie kp t c bs : hash_of (ideal kp (DTrie t c bs)) = blake3 (c ++ concat (map (fun b => hash_of (ideal (kp ++ c) b.2)) bs)).
Proof. cbn [ideal hash_of]. unfold hashing.trie_hash. by rewrite map_map. Qed.

Lemma strings_trie kp t c bs : strings kp (DTrie t c bs) = flat_map (fun b => strings (kp ++ c) b.2) bs.
Proof. unfold strings. cbn [entries]. induction bs as [|b bs IH]; [done|]. cbn [flat_map]. by rewrite map_app, IH. Qed.

Section collisions.
(** The strings of leaves and of nodes at hand; the hash function has no collision among
    them, and none of a leaf is one of a node. *)
Context (L N : list Z -> Prop).
Context (hash_length : forall x, length (blake3 x) = 32%nat).
Context (injective : forall x y, L x \/ N x -> L y \/ N y -> blake3 x = blake3 y -> x = y).
Context (apart : forall x, L x -> N x -> False).

Definition hashed (kp : list Z) (d : data) : Prop := Forall L (strings kp d) /\ Forall N (node_inputs d kp).

Lemma hashed_branch kp t c bs b : hashed kp (DTrie t c bs) -> b ∈ bs -> hashed (kp ++ c) b.2.
Proof.
  unfold hashed. rewrite strings_trie. cbn [node_inputs]. intros [H1 H2] Hb. apply list.Forall_cons in H2 as [_ H2]. split; apply list.Forall_forall.
  - intros x Hx. apply (proj1 (list.Forall_forall _ _) H1), list_elem_of_In, in_flat_map. exists b. by split; apply list_elem_of_In.
  - intros x Hx. apply (proj1 (list.Forall_forall _ _) H2), list_elem_of_In, in_flat_map. exists b. by split; apply list_elem_of_In.
Qed.

Lemma hash_length_ideal kp d : length (hash_of (ideal kp d)) = 32%nat.
Proof. destruct d; [apply hash_length|rewrite hash_trie; apply hash_length]. Qed.

Lemma last_branch (bs : list (Z * data)) : (2 <= length bs)%nat -> exists bs' b, bs = bs' ++ [b].
Proof. intros H. destruct bs as [|b bs _] using rev_ind; [simpl in H; lia|]. by exists bs, b. Qed.

Lemma last_flat_map {X Y} (f : X -> list Y) l x y : list.last (f x) = Some y -> list.last (flat_map f (l ++ [x])) = Some y.
Proof. intros E. rewrite flat_map_app. cbn [flat_map]. rewrite app_nil_r, last_app, E. done. Qed.

Lemma node_input kp t c bs : hashed kp (DTrie t c bs) -> N (c ++ concat (map (fun b => hash_of (ideal (kp ++ c) b.2)) bs)).
Proof. intros [_ H]. by apply list.Forall_cons in H as [H _]. Qed.

Lemma leaf_input kp t l : hashed kp (DLeaf t l) -> L (leaf_string (kp ++ key l, l)).
Proof. intros [H _]. by apply list.Forall_cons in H as [H _]. Qed.

Lemma equal_leaves kp1 kp2 t1 t2 l1 l2 : hashed kp1 (DLeaf t1 l1) -> hashed kp2 (DLeaf t2 l2) ->
  hash_of (ideal kp1 (DLeaf t1 l1)) = hash_of (ideal kp2 (DLeaf t2 l2)) -> strings kp1 (DLeaf t1 l1) = strings kp2 (DLeaf t2 l2).
Proof. intros H1%leaf_input H2%leaf_input E. unfold strings. cbn. f_equal. apply injective; auto. Qed.

Lemma leaf_not_node kp1 kp2 t1 t2 l c bs : hashed kp1 (DLeaf t1 l) -> hashed kp2 (DTrie t2 c bs) ->
  hash_of (ideal kp1 (DLeaf t1 l)) = hash_of (ideal kp2 (DTrie t2 c bs)) -> False.
Proof.
  intros H1%leaf_input H2%node_input E. rewrite hash_trie in E. apply (apart (leaf_string (kp1 ++ key l, l))); [done|].
  rewrite (injective _ _ (or_introl H1) (or_intror H2) E). done.
Qed.

(** Whatever the paths: the last leaves have the same string. *)
Lemma equal_last d1 : forall d2 kp1 kp2, canonical d1 -> canonical d2 -> hashed kp1 d1 -> hashed kp2 d2 ->
  hash_of (ideal kp1 d1) = hash_of (ideal kp2 d2) ->
  exists s, list.last (strings kp1 d1) = Some s /\ list.last (strings kp2 d2) = Some s.
Proof.
  induction d1 as [t1 l1|t1 c1 bs1 IH] using data_induction; intros [t2 l2|t2 c2 bs2] kp1 kp2 C1 C2 H1 H2 E.
  - pose proof (equal_leaves _ _ _ _ _ _ H1 H2 E) as ->. by eexists.
  - by destruct (leaf_not_node _ _ _ _ _ _ _ H1 H2 E).
  - symmetry in E. by destruct (leaf_not_node _ _ _ _ _ _ _ H2 H1 E).
  - rewrite !hash_trie in E. apply injective in E; [|right; by eapply node_input..].
    inversion C1 as [|? ? ? _ B1 _ F1]; subst. inversion C2 as [|? ? ? _ B2 _ F2]; subst.
    destruct (last_branch bs1 B1) as (bs1' & b1 & ->), (last_branch bs2 B2) as (bs2' & b2 & ->).
    rewrite !map_app, !concat_app in E. cbn [map concat] in E. rewrite !app_nil_r, !app_assoc in E.
    apply app_inj_2 in E as [_ E]; [|by rewrite !hash_length_ideal].
    apply Forall_app in IH as [_ IH]. apply list.Forall_cons in IH as [IH _].
    destruct (IH b2.2 (kp1 ++ c1) (kp2 ++ c2)) as (s & E1 & E2); [..|exact E|].
    + apply (proj1 (list.Forall_forall _ _) F1 b1), elem_of_app. right. left.
    + apply (proj1 (list.Forall_forall _ _) F2 b2), elem_of_app. right. left.
    + eapply hashed_branch; [exact H1|]. apply elem_of_app. right. left.
    + eapply hashed_branch; [exact H2|]. apply elem_of_app. right. left.
    + exists s. rewrite !strings_trie. by split; apply last_flat_map.
Qed.

Lemma last_string kp d s : list.last (strings kp d) = Some s -> exists K v, K ∈ keys kp d /\ s = K ++ v.
Proof.
  intros E. assert (s ∈ strings kp d) as Hs by (apply last_Some in E as [l ->]; apply elem_of_app; right; left).
  apply list_elem_of_fmap in Hs as (e & -> & He). exists e.1, (hash_leaf_value has_big_memory e.2). split; [|done].
  apply list_elem_of_fmap. by exists e.
Qed.

(** A string of a branch that is not the first one has the byte of the branch. *)
Lemma branch_byte kp d k s : canonical d -> first_byte d = k -> 0 <= k -> list.last (strings kp d) = Some s -> s !! length kp = Some k.
Proof.
  intros C E Hk Hs. apply last_string in Hs as (K & v & HK & ->).
  destruct (keys_at_branch d kp K k C E ltac:(lia) HK) as [[-> _]|(_ & r & ->)]; [lia|].
  by rewrite <- app_assoc, lookup_app_r, Nat.sub_diag by lia.
Qed.

Lemma string_below kp d s i : list.last (strings kp d) = Some s -> (i < length kp)%nat -> s !! i = kp !! i.
Proof.
  intros Hs Hi. apply last_string in Hs as (K & v & HK & ->). apply keys_below in HK as [r ->].
  by rewrite <- app_assoc, lookup_app_l by lia.
Qed.

Lemma last_two (bs : list (Z * data)) : (2 <= length bs)%nat -> exists bs' x y, bs = bs' ++ [x; y].
Proof.
  intros H. destruct (last_branch bs H) as (l & y & ->). rewrite length_app in H. simpl in H.
  destruct l as [|x l _] using rev_ind; [simpl in H; lia|]. exists l, x, y. by rewrite <- app_assoc.
Qed.

(** The one with more branches would have the same byte at two of them. *)
Lemma not_wider kp1 kp2 t1 t2 c1 c2 bs1 bs2 : let d1 := DTrie t1 c1 bs1 in let d2 := DTrie t2 c2 bs2 in
  length kp1 = length kp2 -> canonical d1 -> canonical d2 -> hashed kp1 d1 -> hashed kp2 d2 ->
  hash_of (ideal kp1 d1) = hash_of (ideal kp2 d2) -> (length bs1 <= length bs2)%nat.
Proof.
  intros d1 d2 Ek C1 C2 H1 H2 E. destruct (Nat.le_gt_cases (length bs1) (length bs2)) as [|Hw]; [done|]. exfalso.
  unfold d1, d2 in E. rewrite !hash_trie in E. apply injective in E; [|right; by eapply node_input..].
  assert (forall kp (bs : list (Z * data)), length (concat (map (fun b => hash_of (ideal kp b.2)) bs)) = (32 * length bs)%nat) as Elen.
  { intros kp bs. induction bs as [|b bs IH]; [done|]. cbn [map concat length]. rewrite length_app, IH, hash_length_ideal. lia. }
  pose proof (f_equal length E) as El. rewrite !length_app, !Elen in El.
  inversion C1 as [|? ? ? _ B1 S1 F1]; subst t c bs. inversion C2 as [|? ? ? _ B2 _ F2]; subst t c bs.
  destruct (last_two bs1 B1) as (bs1' & x1 & y1 & E1), (last_two bs2 B2) as (bs2' & x2 & y2 & E2).
  assert (forall b, b ∈ [x1; y1] -> b ∈ bs1) as I1 by (intros b Hb; rewrite E1; apply elem_of_app; by right).
  assert (forall b, b ∈ [x2; y2] -> b ∈ bs2) as I2 by (intros b Hb; rewrite E2; apply elem_of_app; by right).
  rewrite E1, E2 in E. rewrite !map_app, !concat_app, !app_assoc in E. cbn [map concat] in E. rewrite !app_nil_r in E.
  apply app_inj_2 in E as [_ E]; [|by rewrite !length_app, !hash_length_ideal].
  apply app_inj_1 in E as [Ex Ey]; [|by rewrite !hash_length_ideal].
  assert (forall x1 x2, x1 ∈ bs1 -> x2 ∈ bs2 -> 0 <= x1.1 -> hash_of (ideal (kp1 ++ c1) x1.2) = hash_of (ideal (kp2 ++ c2) x2.2) ->
    Some x1.1 = (kp2 ++ c2) !! length (kp1 ++ c1)) as Hbyte.
  { intros u v Hu Hv H0 Eh. destruct (proj1 (list.Forall_forall _ _) F1 u Hu) as (_ & G1 & G2).
    destruct (proj1 (list.Forall_forall _ _) F2 v Hv) as (_ & _ & G3).
    destruct (equal_last u.2 v.2 (kp1 ++ c1) (kp2 ++ c2) G2 G3) as (s & L1 & L2);
      [by eapply hashed_branch; [exact H1|]|by eapply hashed_branch; [exact H2|]|done|].
    rewrite <- (branch_byte _ _ _ _ G2 G1 H0 L1). apply (string_below _ _ _ _ L2). rewrite !length_app. lia. }
  assert (-1 < x1.1 /\ x1.1 < y1.1) as [Hx Hy].
  { rewrite E1 in S1. rewrite E1, E2 in *. destruct bs1' as [|z bs1']; [rewrite !length_app in Hw; simpl in Hw; lia|].
    cbn [app map] in S1. apply StronglySorted_inv in S1 as [S1 Fz]. rewrite map_app in S1, Fz.
    destruct (proj1 (list.Forall_forall _ _) F1 z ltac:(left)) as (Hz & _). split.
    - assert (z.1 < x1.1) by (apply (proj1 (list.Forall_forall _ _) Fz), elem_of_app; right; left). lia.
    - clear -S1. induction (map fst bs1') as [|w l IHl]; cbn in S1; apply StronglySorted_inv in S1 as [S1 F]; [|by apply IHl].
      by apply list.Forall_cons in F as [F _]. }
  pose proof (Hbyte x1 x2 (I1 _ ltac:(left)) (I2 _ ltac:(left)) ltac:(lia) Ex) as Bx.
  pose proof (Hbyte y1 y2 (I1 _ ltac:(right; left)) (I2 _ ltac:(right; left)) ltac:(lia) Ey) as By.
  rewrite <- Bx in By. injection By as By. lia.
Qed.

Lemma concat_blocks (l k : list (list Z)) : Forall (fun x => length x = 32%nat) l -> Forall (fun x => length x = 32%nat) k ->
  length l = length k -> concat l = concat k -> l = k.
Proof.
  intros Hl. revert k. induction Hl as [|x l Hx _ IH]; intros [|y k] Hk El E; try done. apply list.Forall_cons in Hk as [Hy Hk].
  cbn [concat] in E. apply app_inj_1 in E as [-> E]; [|congruence]. f_equal. apply IH; [done| |done]. by injection El.
Qed.

Lemma equal_strings d1 : forall d2 kp1 kp2, length kp1 = length kp2 -> canonical d1 -> canonical d2 -> hashed kp1 d1 -> hashed kp2 d2 ->
  hash_of (ideal kp1 d1) = hash_of (ideal kp2 d2) -> strings kp1 d1 = strings kp2 d2.
Proof.
  induction d1 as [t1 l1|t1 c1 bs1 IH] using data_induction; intros [t2 l2|t2 c2 bs2] kp1 kp2 Ek C1 C2 H1 H2 E.
  - by apply equal_leaves.
  - by destruct (leaf_not_node _ _ _ _ _ _ _ H1 H2 E).
  - symmetry in E. by destruct (leaf_not_node _ _ _ _ _ _ _ H2 H1 E).
  - pose proof (not_wider _ _ _ _ _ _ _ _ Ek C1 C2 H1 H2 E) as W1.
    pose proof (not_wider _ _ _ _ _ _ _ _ (eq_sym Ek) C2 C1 H2 H1 (eq_sym E)) as W2. assert (length bs1 = length bs2) as En by lia.
    rewrite !hash_trie in E. apply injective in E; [|right; by eapply node_input..].
    assert (forall kp (bs : list (Z * data)), Forall (fun x => length x = 32%nat) (map (fun b => hash_of (ideal kp b.2)) bs)) as F32.
    { intros kp bs. apply list.Forall_forall. intros x (b & -> & _)%list_elem_of_fmap. apply hash_length_ideal. }
    assert (forall l : list (list Z), Forall (fun x => length x = 32%nat) l -> length (concat l) = (32 * length l)%nat) as Elen.
    { induction 1 as [|x l Hx _ IHl]; [done|]. cbn. rewrite length_app, IHl, Hx. lia. }
    apply app_inj_2 in E as [-> E]; [|by rewrite !Elen, !length_map, En by apply F32].
    apply concat_blocks in E; [|apply F32..|by rewrite !length_map].
    rewrite !strings_trie. inversion C1 as [|? ? ? _ _ _ F1]; subst. inversion C2 as [|? ? ? _ _ _ F2]; subst.
    assert (forall b, b ∈ bs1 -> hashed (kp1 ++ c2) b.2) as G1 by (intros; by eapply hashed_branch).
    assert (forall b, b ∈ bs2 -> hashed (kp2 ++ c2) b.2) as G2 by (intros; by eapply hashed_branch).
    clear C1 C2 H1 H2 W1 W2. revert bs2 En E F2 G2. induction bs1 as [|b1 bs1 IHb]; intros [|b2 bs2] En E F2 G2; try done.
    apply list.Forall_cons in IH as [IH1 IH], F1 as [(_ & _ & D1) F1], F2 as [(_ & _ & D2) F2]. injection E as E1 E. injection En as En.
    cbn [flat_map]. f_equal.
    + apply IH1; try done; [by rewrite !length_app, Ek|apply G1; left|apply G2; left].
    + apply IHb; try done; intros b Hb; [apply G1|apply G2]; by right.
Qed.

End collisions.

(** ** The claims *)

(** All strings that are hashed for two tries. *)
Definition leaf_strings (d1 d2 : data) (x : list Z) : Prop := x ∈ strings [] d1 \/ x ∈ strings [] d2.
Definition trie_strings (d1 d2 : data) (x : list Z) : Prop := x ∈ node_inputs d1 [] \/ x ∈ node_inputs d2 [].

(** The hash function as replication relies on it: 32 bytes, no collision among the
    strings at hand, and no value that looks like the hashes of a node. *)
Record collision_free (d1 d2 : data) : Prop := {
  cf_length : forall x, length (blake3 x) = 32%nat;
  cf_injective : forall x y, leaf_strings d1 d2 x \/ trie_strings d1 d2 x -> leaf_strings d1 d2 y \/ trie_strings d1 d2 y ->
    blake3 x = blake3 y -> x = y;
  cf_apart : forall x, leaf_strings d1 d2 x -> trie_strings d1 d2 x -> False
}.

Lemma small_entries (l : list (list Z * leaf)) : (forall e, e ∈ l -> big e.2 = None) ->
  map (fun e => (e.1, hash_leaf_value has_big_memory e.2)) l = map (fun e => (e.1, vdata e.2)) l.
Proof.
  intros H. apply map_ext_in. intros e He. apply list_elem_of_In in He. unfold hash_leaf_value. rewrite (H e He). by destruct has_big_memory.
Qed.

(** C22: where no two different strings that were hashed for the two tries collide, and none
    was hashed both for a leaf and for a node, two tries with the same root hash have the
    same strings of key and value. With keys of one length (see [leaf_hash_ambiguous]) they
    have the same keys with the same values, as far as values are hashed: the same bytes
    where no value is big, else the same places and sizes of big values
    ([big_values_hash_their_place]). *)
Theorem equal_hashes_equal_entries d1 d2 : collision_free d1 d2 -> canonical d1 -> canonical d2 ->
  hash_of (ideal [] d1) = hash_of (ideal [] d2) ->
  strings [] d1 = strings [] d2 /\
  forall n, (forall e, e ∈ entries [] d1 \/ e ∈ entries [] d2 -> length e.1 = n) ->
    map (fun e => (e.1, hash_leaf_value has_big_memory e.2)) (entries [] d1) = map (fun e => (e.1, hash_leaf_value has_big_memory e.2)) (entries [] d2) /\
    ((forall e, e ∈ entries [] d1 \/ e ∈ entries [] d2 -> big e.2 = None) ->
      map (fun e => (e.1, vdata e.2)) (entries [] d1) = map (fun e => (e.1, vdata e.2)) (entries [] d2)).
Proof.
  intros [F1 F2 F3] C1 C2 E. assert (strings [] d1 = strings [] d2) as Es.
  { eapply (equal_strings (leaf_strings d1 d2) (trie_strings d1 d2) F1 F2 F3); try done.
    - split; apply list.Forall_forall; intros x Hx; by left.
    - split; apply list.Forall_forall; intros x Hx; by right. }
  split; [done|]. intros n Hn.
  assert (map (fun e => (e.1, hash_leaf_value has_big_memory e.2)) (entries [] d1) = map (fun e => (e.1, hash_leaf_value has_big_memory e.2)) (entries [] d2)) as Em.
  2: { split; [exact Em|]. intros Hb. rewrite (small_entries (entries [] d1)), (small_entries (entries [] d2)) in Em by auto. exact Em. }
  unfold strings in Es. revert Es Hn. generalize (entries [] d1) (entries [] d2). clear.
  intros l. induction l as [|e l IH]; intros [|e' l'] E Hn; try done. injection E as E1 E.
  assert (length e.1 = length e'.1) as El by (rewrite (Hn e), (Hn e'); [done|right; left|left; left]).
  apply app_inj_1 in E1 as [E1 E2]; [|done]. cbn [map]. f_equal; [by rewrite E1, E2|]. apply IH; [done|].
  intros x [Hx|Hx]; apply Hn; [left|right]; by right.
Qed.

End updater.

(** ** A witness *)

(** As good as a hash function can be: a number for every string it is asked for. *)
Definition numbering (l : list (list Z)) (x : list Z) : list Z :=
  replicate 31 0 ++ [match list_find (fun y => y = x) l with Some (i, _) => Z.of_nat i | None => -1 end].

Definition sample_trie (t : Z) : data := DTrie t [97] [(98, leaf_data t [98] [1]); (99, leaf_data t [99] [2])].

(** The strings of the two leaves, and of the node. *)
Definition sample_strings : list (list Z) := [[97; 98; 1]; [97; 99; 2]; 97 :: (replicate 31 0 ++ [0]) ++ (replicate 31 0 ++ [1])].

Lemma sample_collision_free : collision_free (numbering sample_strings) false (sample_trie 1) (sample_trie 2).
Proof.
  assert (forall x, leaf_strings false (sample_trie 1) (sample_trie 2) x -> x = [97; 98; 1] \/ x = [97; 99; 2]) as HL.
  { intros x [H|H]; cbn in H; rewrite !list.elem_of_cons, elem_of_nil in H; tauto. }
  assert (forall x, trie_strings (numbering sample_strings) false (sample_trie 1) (sample_trie 2) x ->
    x = 97 :: (replicate 31 0 ++ [0]) ++ (replicate 31 0 ++ [1])) as HN.
  { intros x [H|H]; vm_compute in H; apply list_elem_of_singleton in H as ->; reflexivity. }
  split.
  - intros x. unfold numbering. rewrite length_app, length_replicate. done.
  - intros x y Hx Hy. destruct Hx as [[-> | ->]%HL| ->%HN], Hy as [[-> | ->]%HL| ->%HN]; intros E; (done || (exfalso; vm_compute in E; discriminate)).
  - intros x [-> | ->]%HL E%HN; discriminate.
Qed.

Lemma equal_hashes_equal_entries_witness : strings false [] (sample_trie 1) = strings false [] (sample_trie 2) /\
  map (fun e => (e.1, vdata e.2)) (entries [] (sample_trie 1)) = [([97; 98], [1]); ([97; 99], [2])].
Proof.
  destruct (equal_hashes_equal_entries (numbering sample_strings) false (sample_trie 1) (sample_trie 2) sample_collision_free) as [Hs He].
  - canonical_tac.
  - canonical_tac.
  - reflexivity.
  - split; [exact Hs|]. destruct (He 2%nat) as [_ Hv].
    + intros e [H|H]; cbn in H; repeat (apply list.elem_of_cons in H as [->|H]; [done|]); by apply not_elem_of_nil in H.
    + rewrite Hv; [done|]. intros e [H|H]; cbn in H; repeat (apply list.elem_of_cons in H as [->|H]; [done|]); by apply not_elem_of_nil in H.
Defined.

(** ** What is not told apart *)

(** The key [user1] with the value [0] and the key [user] with the value [10] have the
    same hash, whatever the hash function. *)
Theorem leaf_hash_ambiguous blake3 has_big : let d1 := leaf_data 1 [117; 115; 101; 114; 49] [48] in let d2 := leaf_data 1 [117; 115; 101; 114] [49; 48] in
  entries [] d1 <> entries [] d2 /\ hash_of (ideal blake3 has_big [] d1) = hash_of (ideal blake3 has_big [] d2).
Proof. split; [done|]. by destruct has_big. Qed.

(** The database of replication has no type [BigMemory], so a big value is hashed by
    the place and the size of its chunk: other contents there have the same hash. *)
Theorem big_values_hash_their_place blake3 key place v1 v2 :
  hash_of (ideal blake3 false [] (DLeaf 1 (Leaf key place (Some v1)))) = hash_of (ideal blake3 false [] (DLeaf 2 (Leaf key place (Some v2)))).
Proof. done. Qed.

End merkle.
