(* ===== verification/Transfer.v ===== *)
(** * Transfer: tries on their way to another database

    Models [util/_transfer_trie.hpp], the sender of [replication/_transfer.hpp], the
    lookup of [replication/_hash.hpp] and the receiver of trie data in
    [replication/_replication_fsm.hpp]. The sender walks its hash trie and puts nodes
    into a message until the message is full or the walk is deep enough; what it had to
    leave out waits for the answer. The receiver drops the nodes whose hash it has too,
    and links the others to the trie it collects. A message is the tree its bytes show;
    the hash tries and the data trie do not change while a round lasts. *)
From S2P Require Import Prelude Util Bytes Protocol Request Hash.

Module transfer.
Export hashing.

(** ** Searches in a trie *)

(** A node that leads on: the byte behind the prefix, or [NONE] at its end. *)
Definition branch_of (rest : list Z) : Z := match rest with [] => NONE | b :: _ => b end.

Definition after_prefix (c rest : list Z) : option (list Z) :=
  if bool_decide (take (length c) rest = c) then Some (drop (length c) rest) else None.

(** [_Cursor::find] on a data trie: the leaf it ends at. *)
Fixpoint find_leaf (d : data) (rest : list Z) : option leaf :=
  match d with
  | DLeaf _ l => Some l
  | DTrie _ c bs =>
      match after_prefix c rest with
      | None => None
      | Some rest => (fix go bs := match bs with [] => None | (k, x) :: bs => if k =? branch_of rest then find_leaf x rest else go bs end) bs
      end
  end.

(** The stack of [_Cursor::find] on a hash trie, the root first. *)
Fixpoint hash_stack (h : hnode) (rest : list Z) : list hnode :=
  h :: match h with
  | HLeaf _ _ _ _ => []
  | HTrie _ _ c _ bs =>
      match after_prefix c rest with
      | None => []
      | Some rest => (fix go bs := match bs with [] => [] | (k, x) :: bs => if k =? branch_of rest then hash_stack x rest else go bs end) bs
      end
  end.

Inductive NodeType := LEAF | TRIE.

(** [_HashLookup::find] *)
Definition hash_lookup (root : option hnode) (path : list Z) (expected_type : NodeType) : option (list Z) :=
  match root with
  | None => None
  | Some h =>
      match rev (hash_stack h path), expected_type with
      | HLeaf _ _ _ x :: _, LEAF => Some x
      | _ :: _, LEAF => None
      | HTrie _ _ _ x _ :: _, TRIE => Some x
      | _ :: HTrie _ _ _ x _ :: _, TRIE => Some x
      | _, _ => None
      end
  end.

(** ** [ReplicationTransferTrie] *)

(** A node in a message; a branch that was not sent has the offset 0. *)
Inductive wire :=
  | WLeaf (hash : list Z) (l : leaf)
  | WTrie (hash compressed : list Z) (children : list (Z * option wire)).

Definition is_big (l : leaf) : bool := match big l with Some _ => true | None => false end.

(** [_BigValue] *)
Definition chunk_offset (l : leaf) : Z := protocol.read_field 0 8 (vdata l).
Definition value_size (l : leaf) : Z := protocol.read_field 8 4 (vdata l).

(** Sizes with a hash of 32 bytes. *)
Definition TRIE_HEADER : Z := 39.
Definition LEAF_HEADER : Z := 35.
Definition TRANSFER_HEADER : Z := 45.

Definition groups (ks : list Z) : list Z := remove_dups (map (fun k => Z.shiftr k 5) (filter (fun k => 0 <= k) ks)).

Definition wire_trie_size (c ks : list Z) : Z :=
  let prefix_size := util.padding (TRIE_HEADER + Z.of_nat (length c)) 4 in
  u16 (util.align (prefix_size + 4 * Z.of_nat (length (groups ks)) + 8 * Z.of_nat (length ks))).

Definition wire_leaf_size (l : leaf) : Z := u16 (LEAF_HEADER + Z.of_nat (length (key l)) + Z.of_nat (length (vdata l))).

Definition align8 (n : Z) : Z := Z.land (n + 7) (Z.lnot 7).

Record buffer := Buffer { used : Z; node_count : nat; full : bool }.

(** [begin] *)
Definition begin_transfer (subtrie_path : list Z) : buffer := Buffer (align8 (TRANSFER_HEADER + Z.of_nat (length subtrie_path))) 0 false.

(** Continuations and values that wait. *)
Record pending_node := PendingNode { pn_path : list Z; pn_node : hnode; next_child : nat }.
Record pending_big := PendingBig { pb_leaf : leaf; wire_chunk_offset : Z; pb_size : Z; pb_path : list Z }.

(** [TransferTrieSender] *)
Record sender := Sender {
  transfer : buffer;
  pending : list pending_node;
  last_batch : list pending_node;
  pending_big_values : list pending_big;
  last_big_values : list pending_big
}.

Definition set_transfer (b : buffer) (s : sender) : sender := Sender b (pending s) (last_batch s) (pending_big_values s) (last_big_values s).
Definition set_pending (l : list pending_node) (s : sender) : sender := Sender (transfer s) l (last_batch s) (pending_big_values s) (last_big_values s).
Definition defer (p : pending_node) (s : sender) : sender :=
  Sender (transfer s) (pending s) (last_batch s ++ [p]) (pending_big_values s) (last_big_values s).
Definition note_big (b : pending_big) (s : sender) : sender :=
  Sender (transfer s) (pending s) (last_batch s) (pending_big_values s) (last_big_values s ++ [b]).

Definition empty_buffer : buffer := Buffer 0 0 false.

(** [TransferTrieSender::begin] *)
Definition begin_sender : sender := Sender empty_buffer [] [] [] [].

Section sending.
Context (max_size : Z) (max_depth : nat) (root : option data).

(** [_alloc_node]; the buffer does not grow. *)
Definition alloc_node (size : Z) (b : buffer) : option buffer :=
  let aligned_pos := align8 (used b) in
  if max_size <? aligned_pos + size then None else Some (Buffer (aligned_pos + size) (S (node_count b)) (full b)).

(** [add_trie_node], [add_leaf_node]: whether the node fits. *)
Definition add_node (size : Z) (s : sender) : bool * sender :=
  match alloc_node size (transfer s) with
  | Some b => (true, set_transfer b s)
  | None => (false, set_transfer (Buffer (used (transfer s)) (node_count (transfer s)) true) s)
  end.

Definition hole (b : Z * hnode) : Z * option wire := (b.1, None).

(** The children of a node, from the first on, until one does not fit: what was
    written, and how many. *)
Fixpoint write_children (write : hnode -> sender -> option (option wire * sender)) (bs : list (Z * hnode)) (s : sender) :
    option (list (Z * option wire) * nat * sender) :=
  match bs with
  | [] => Some ([], 0%nat, s)
  | (k, h) :: rest =>
      if full (transfer s) then Some (map hole bs, 0%nat, s)
      else
        '(w, s) ← write h s;
        match w with
        | None => Some (map hole bs, 0%nat, s)
        | Some w => '(ws, i, s) ← write_children write rest s; Some ((k, Some w) :: ws, S i, s)
        end
  end.

(** [_write_subtree]: [None] when the data trie has no such leaf, which the code
    asserts. *)
Fixpoint write_subtree (path : list Z) (h : hnode) (depth : nat) (s : sender) : option (option wire * sender) :=
  match h with
  | HLeaf _ _ b x =>
      let path := path ++ (if b =? NONE then [] else [b]) in
      l ← match root with Some d => find_leaf d path | None => None end;
      let '(fits, s) := add_node (wire_leaf_size l) s in
      if negb fits then Some (None, s)
      else
        let s := if is_big l then note_big (PendingBig l (chunk_offset l) (value_size l) path) s else s in
        Some (Some (WLeaf x l), s)
  | HTrie _ _ c x bs =>
      let '(fits, s) := add_node (wire_trie_size c (map fst bs)) s in
      if negb fits then Some (None, s)
      else
        let path := path ++ c in
        if (max_depth <=? depth)%nat then Some (Some (WTrie x c (map hole bs)), defer (PendingNode path h 0) s)
        else
          '(ws, i, s) ← write_children (fun h s => write_subtree path h (S depth) s) bs s;
          Some (Some (WTrie x c ws), if (i <? length bs)%nat then defer (PendingNode path h i) s else s)
  end.

(** What a message says. *)
Record message := Message { subtrie_path : list Z; msg_root : option wire; msg_nodes : nat }.

(** [fill_buffer] *)
Definition fill_buffer (hash_root : option hnode) (s : sender) : option (message * sender) :=
  match list.last (pending s) with
  | None =>
      let s := set_transfer (begin_transfer []) s in
      match hash_root with
      | None => Some (Message [] None 0, s)
      | Some h => '(w, s) ← write_subtree [] h 0 s; Some (Message [] w (node_count (transfer s)), s)
      end
  | Some p =>
      match pn_node p with
      | HLeaf _ _ _ _ => None
      | HTrie _ _ _ _ bs =>
          let s := set_transfer (begin_transfer (pn_path p)) s in
          '(_, h) ← bs !! next_child p;
          '(w, s) ← write_subtree (pn_path p) h 0 s;
          let rest := take (pred (length (pending s))) (pending s) in
          let next := S (next_child p) in
          let s := set_pending (if (length bs <=? next)%nat then rest else rest ++ [PendingNode (pn_path p) (pn_node p) next]) s in
          Some (Message (pn_path p) w (node_count (transfer s)), s)
      end
  end.

End sending.

(** [_is_pruned_by_ack], for the paths that were acknowledged. *)
Definition is_pruned (acks : list (list Z * bool)) (path : list Z) (prune_leaf_exact : bool) : bool :=
  existsb (fun a => request.prunes a.1 a.2 path prune_leaf_exact) acks.

(** [process_ack] *)
Definition process_ack (acks : list (list Z * bool)) (s : sender) : sender :=
  Sender (transfer s)
    (pending s ++ List.filter (fun p => negb (is_pruned acks (pn_path p) false)) (last_batch s)) []
    (pending_big_values s ++ List.filter (fun b => negb (is_pruned acks (pb_path b) true)) (last_big_values s)) [].

Definition has_pending (s : sender) : bool := negb (bool_decide (pending s = [])) || negb (bool_decide (last_batch s = [])).
Definition has_pending_big_values (s : sender) : bool :=
  negb (bool_decide (pending_big_values s = [])) || negb (bool_decide (last_big_values s = [])).

(** ** The receiver *)

Record receiver := Receiver {
  temp_root : option wire;
  pending_children : Z;
  new_leaves : Z;
  prune_paths : list (list Z * bool);
  trie_count : Z
}.

Definition set_temp_root (w : option wire) (r : receiver) : receiver :=
  Receiver w (pending_children r) (new_leaves r) (prune_paths r) (trie_count r).
Definition add_pending (n : Z) (r : receiver) : receiver :=
  Receiver (temp_root r) (u64 (pending_children r + n)) (new_leaves r) (prune_paths r) (trie_count r).
Definition add_new_leaf (r : receiver) : receiver :=
  Receiver (temp_root r) (pending_children r) (new_leaves r + 1) (prune_paths r) (trie_count r).
Definition add_prune (p : list Z * bool) (r : receiver) : receiver :=
  Receiver (temp_root r) (pending_children r) (new_leaves r) (prune_paths r ++ [p]) (trie_count r).
Definition increment_trie_count (r : receiver) : receiver :=
  Receiver (temp_root r) (pending_children r) (new_leaves r) (prune_paths r) (trie_count r + 1).

Definition begin_receiver : receiver := Receiver None 0 0 [] 0.

Section receiving.
Context (local : option hnode) (max_big_value : Z).

Definition same_hash (path : list Z) (t : NodeType) (x : list Z) : bool := bool_decide (hash_lookup local path t = Some x).

(** The children of a node one after the other; those that were not sent stay
    pending. *)
Fixpoint compare_children (compare : wire -> receiver -> option wire * receiver) (ws : list (Z * option wire)) (r : receiver) :
    list (Z * option wire) * receiver :=
  match ws with
  | [] => ([], r)
  | (k, None) :: ws => let '(ws, r) := compare_children compare ws r in ((k, None) :: ws, r)
  | (k, Some w) :: ws =>
      let '(w, r) := compare w r in
      let '(ws, r) := compare_children compare ws r in ((k, w) :: ws, r)
  end.

(** [_compare_wire_with_local] with [_compare_leaf_wire_with_local] and
    [_compare_trie_wire_with_local]: the node, zeroed where it is known. *)
Fixpoint compare_wire_with_local (path : list Z) (w : wire) (r : receiver) : option wire * receiver :=
  let r := add_pending (-1) r in
  match w with
  | WLeaf x l =>
      let path := path ++ key l in
      if same_hash path LEAF x then (None, if is_big l then add_prune (path, true) r else r)
      else
        let r := add_new_leaf r in
        if is_big l then
          if (length (vdata l) <? 12)%nat then (None, r)
          else if max_big_value <? value_size l then (None, r)
          else (Some w, increment_trie_count r)
        else (Some w, r)
  | WTrie x c ws =>
      let path := path ++ c in
      if same_hash path TRIE x then (None, add_prune (path, false) r)
      else
        let r := add_pending (Z.of_nat (length ws)) r in
        let '(ws, r) := compare_children (compare_wire_with_local path) ws r in
        (Some (WTrie x c ws), r)
  end.

(** [_find_temp_parent_offset] and the write to the offset it finds: the slot that the
    search for [rest] ends at. *)
Fixpoint replace_child (f : option wire -> wire) (k : Z) (ws : list (Z * option wire)) : option (list (Z * option wire)) :=
  match ws with
  | [] => None
  | (k', o) :: ws => if k' =? k then Some ((k', Some (f o)) :: ws) else ws' ← replace_child f k ws; Some ((k', o) :: ws')
  end.

Fixpoint plug (w : wire) (rest : list Z) (sub : wire) : wire :=
  match w with
  | WLeaf _ _ => sub
  | WTrie x c ws =>
      match after_prefix c rest with
      | None => sub
      | Some rest =>
          match replace_child (fun o => match o with None => sub | Some w => plug w rest sub end) (branch_of rest) ws with
          | Some ws => WTrie x c ws
          | None => sub
          end
      end
  end.

Definition own_path (w : wire) : list Z := match w with WLeaf _ l => key l | WTrie _ c _ => c end.

(** [_connect_subtrie_to_parent]; [None] is its error. *)
Definition connect_subtrie (path : list Z) (sub : wire) (r : receiver) : option receiver :=
  match path, temp_root r with
  | [], _ | _, None => Some r
  | _, Some (WLeaf _ _) => None
  | _, Some (WTrie _ _ _ as w) => Some (set_temp_root (Some (plug w path sub)) r)
  end.

(** [_process_received_nodes], up to the answer. *)
Definition process_received_nodes (m : message) (r : receiver) : option receiver :=
  if (msg_nodes m =? 0)%nat then Some r
  else
    let path := subtrie_path m in
    let r := if bool_decide (path = []) then add_pending 1 r else r in
    match msg_root m with
    | None => Some (add_pending (-1) r)
    | Some w =>
        match compare_wire_with_local path w r with
        | (None, r) => Some r
        | (Some w, r) =>
            if bool_decide (path = []) then Some (set_temp_root (Some w) r)
            else connect_subtrie (path ++ own_path w) w r
        end
    end.

(** The paths of [_send_prune_ack]. *)
Definition take_prune_paths (r : receiver) : list (list Z * bool) * receiver :=
  (prune_paths r, Receiver (temp_root r) (pending_children r) (new_leaves r) [] (trie_count r)).

End receiving.

(** ** A round of messages and answers *)

Section session.
Context (max_size : Z) (max_depth : nat) (root : option data) (hash_root local : option hnode) (max_big_value : Z).

(** The sender sends until nothing is pending. [None] is an error, or [n] messages were
    not enough. *)
Fixpoint exchange (n : nat) (s : sender) (r : receiver) : option (sender * receiver) :=
  match n with
  | O => None
  | S n =>
      '(m, s) ← fill_buffer max_size max_depth root hash_root s;
      r ← process_received_nodes local max_big_value m r;
      let '(acks, r) := take_prune_paths r in
      let s := process_ack acks s in
      if has_pending s then exchange n s r else Some (s, r)
  end.

End session.

End transfer.
