(* ===== verification/TransferFacts.v ===== *)
(** * TransferFacts: what was sent arrives

    Between two rounds the trie the receiver has collected is the hash trie of the
    sender with holes: a hole is a node whose hash the receiver has too, or one that the
    sender still has to send, and the receiver counts the latter. So when the sender has
    nothing left, all that is missing is known to the receiver already. *)
From S2P Require Import Prelude Request Hash HashFacts Transfer.

Module transferfacts.
Export hashfacts transfer.

Lemma after_prefix_app c rest : after_prefix c (c ++ rest) = Some rest.
Proof. unfold after_prefix. rewrite take_app_length, drop_app_length. by rewrite bool_decide_eq_true_2. Qed.

Definition bkey (b : Z) : list Z := if b =? NONE then [] else [b].
Definition hfirst (h : hnode) : Z :=
  match h with HLeaf _ _ b _ => b | HTrie _ _ c _ _ => match c with [] => -2 | b :: _ => b end end.

Fixpoint nodes (h : hnode) : nat :=
  match h with HLeaf _ _ _ _ => 1 | HTrie _ _ _ _ bs => S (list_sum (map (fun b => nodes b.2) bs)) end.

Definition branch_nodes (bs : list (Z * hnode)) : nat := list_sum (map (fun b => nodes b.2) bs).

Lemma branch_nodes_cons b bs : branch_nodes (b :: bs) = (nodes b.2 + branch_nodes bs)%nat.
Proof. done. Qed.

Lemma nodes_trie p t c x bs : nodes (HTrie p t c x bs) = S (branch_nodes bs).
Proof. done. Qed.

(** The children a continuation is about. *)
Definition unsent (p : pending_node) : list (Z * hnode) :=
  match pn_node p with HLeaf _ _ _ _ => [] | HTrie _ _ _ _ bs => drop (next_child p) bs end.

Definition owed (l : list pending_node) : nat := list_sum (map (fun p => length (unsent p)) l).
Definition weight (l : list pending_node) : nat := list_sum (map (fun p => branch_nodes (unsent p)) l).

#[global] Arguments branch_nodes : simpl never.
#[global] Arguments owed : simpl never.
#[global] Arguments weight : simpl never.

Lemma owed_cons p l : owed (p :: l) = (length (unsent p) + owed l)%nat.
Proof. done. Qed.

Lemma weight_cons p l : weight (p :: l) = (branch_nodes (unsent p) + weight l)%nat.
Proof. done. Qed.

Lemma owed_app l k : owed (l ++ k) = (owed l + owed k)%nat.
Proof. unfold owed. by rewrite map_app, list_sum_app. Qed.

Lemma pn_weight_app l k : weight (l ++ k) = (weight l + weight k)%nat.
Proof. unfold weight. by rewrite map_app, list_sum_app. Qed.

#[export] Instance owed_proper : Proper ((≡ₚ) ==> eq) owed.
Proof. intros l k E. unfold owed. induction E; simpl in *; try reflexivity; lia. Qed.

#[export] Instance weight_proper : Proper ((≡ₚ) ==> eq) weight.
Proof. intros l k E. unfold weight. induction E; simpl in *; try reflexivity; lia. Qed.

Section transfer.
Context (max_size : Z) (max_depth : nat) (root : option data) (local : option hnode) (max_big : Z).

Abbreviation write_subtree := (transfer.write_subtree max_size max_depth root).
Abbreviation compare := (compare_wire_with_local local max_big).
Abbreviation compare_all := (fun path => compare_children (compare path)).

Definition find_root (path : list Z) : option leaf := match root with Some d => find_leaf d path | None => None end.

(** A hash trie the sender can walk: its leaves are found in the data trie, its nodes
    fit into a message. *)
Inductive walkable : list Z -> hnode -> Prop :=
  | walk_leaf P p t b x l : find_root (P ++ bkey b) = Some l -> branch_key l = b ->
      (is_big l = true -> (12 <= length (vdata l))%nat /\ value_size l <= max_big) ->
      align8 (align8 (TRANSFER_HEADER + Z.of_nat (length P))) + wire_leaf_size l <= max_size -> walkable P (HLeaf p t b x)
  | walk_trie P p t c x bs : NoDup (map fst bs) -> (0 < length bs)%nat ->
      Forall (fun b => -1 <= b.1 /\ hfirst b.2 = b.1 /\ walkable (P ++ c) b.2) bs ->
      align8 (align8 (TRANSFER_HEADER + Z.of_nat (length P))) + wire_trie_size c (map fst bs) <= max_size -> walkable P (HTrie p t c x bs).

(** What fills a slot of the collected trie, and the continuations for what is missing
    in it; [known] is why a node may be missing for good. *)
Section known.
Context (known : list Z -> hnode -> Prop).

Inductive slot : list Z -> hnode -> option wire -> list pending_node -> Prop :=
  | slot_known P h : known P h -> slot P h None []
  | slot_leaf P p t b x l : find_root (P ++ bkey b) = Some l -> branch_key l = b -> slot P (HLeaf p t b x) (Some (WLeaf x l)) []
  | slot_trie P p t c x bs ws batch : slots (P ++ c) (HTrie p t c x bs) 0 bs ws batch -> slot P (HTrie p t c x bs) (Some (WTrie x c ws)) batch
with slots : list Z -> hnode -> nat -> list (Z * hnode) -> list (Z * option wire) -> list pending_node -> Prop :=
  | slots_nil P n i : slots P n i [] [] []
  | slots_open P n i bs : (0 < length bs)%nat -> slots P n i bs (map hole bs) [PendingNode P n i]
  | slots_cons P n i k h o bs ws b1 b2 : slot P h o b1 -> slots P n (S i) bs ws b2 -> slots P n i ((k, h) :: bs) ((k, o) :: ws) (b1 ++ b2).

Scheme slot_mind := Minimality for slot Sort Prop
with slots_mind := Minimality for slots Sort Prop.
Combined Scheme slot_slots_ind from slot_mind, slots_mind.

End known.

Definition nothing (P : list Z) (h : hnode) : Prop := False.

(** The receiver has the hash of the node where it looks for it. *)
Definition known (P : list Z) (h : hnode) : Prop :=
  match h with
  | HLeaf _ _ b x => exists l, find_root (P ++ bkey b) = Some l /\ hash_lookup local (P ++ key l) LEAF = Some x
  | HTrie _ _ c x _ => hash_lookup local (P ++ c) TRIE = Some x
  end.

(** ** The sender *)

Lemma unsent_at p t c x bs P i : unsent (PendingNode P (HTrie p t c x bs) i) = drop i bs.
Proof. done. Qed.

(** The sender only adds to what waits. *)
Record grows (s s' : sender) (batch : list pending_node) : Prop := {
  gr_pending : pending s' = pending s;
  gr_batch : last_batch s' = last_batch s ++ batch;
  gr_nodes : (node_count (transfer s) <= node_count (transfer s'))%nat
}.

Lemma sender_grows_refl s : grows s s [].
Proof. split; [done|by rewrite app_nil_r|lia]. Qed.

Lemma sender_grows_trans s1 s2 s3 b1 b2 : grows s1 s2 b1 -> grows s2 s3 b2 -> grows s1 s3 (b1 ++ b2).
Proof. intros [E1 E2 L1] [E3 E4 L2]. split; [congruence|by rewrite E4, E2, app_assoc|lia]. Qed.

Lemma grows_add_node n s b s' : add_node max_size n s = (b, s') -> grows s s' [].
Proof.
  unfold add_node. destruct (transfer.alloc_node _ _ _) as [b'|] eqn:Ea; intros [= <- <-]; split; rewrite ?app_nil_r; cbn; try done.
  unfold transfer.alloc_node in Ea. destruct (_ <? _); [done|]. injection Ea as <-. cbn. lia.
Qed.

Lemma add_node_counts n s s' : add_node max_size n s = (true, s') -> (node_count (transfer s) < node_count (transfer s'))%nat.
Proof. unfold add_node, transfer.alloc_node. destruct (_ <? _); intros [= <-]; cbn. lia. Qed.

Lemma grows_defer s p : grows s (defer p s) [p].
Proof. done. Qed.

Lemma grows_note s b : grows s (note_big b s) [].
Proof. split; [done|by rewrite app_nil_r|done]. Qed.

Definition wrote (P : list Z) (h : hnode) (r : option (option wire * sender)) (s : sender) : Prop :=
  exists o s' batch, r = Some (o, s') /\ grows s s' batch /\
    match o with None => batch = [] | Some w =>
      slot nothing P h (Some w) batch /\ (weight batch < nodes h)%nat /\ (node_count (transfer s) < node_count (transfer s'))%nat end.

Lemma unsent_next P n i b bs : unsent (PendingNode P n i) = b :: bs -> unsent (PendingNode P n (S i)) = bs.
Proof.
  destruct n as [|p t c x l]; [done|]. unfold unsent. cbn [pn_node next_child]. revert i. induction l as [|y l IH]; intros [|i]; cbn; try done.
  - intros [= _ ->]. done.
  - apply IH.
Qed.

Lemma wrote_children P n (write : hnode -> sender -> option (option wire * sender)) bs : Forall (fun b => forall s, wrote P b.2 (write b.2 s) s) bs ->
  forall i s, unsent (PendingNode P n i) = bs ->
  exists ws j s' batch own, write_children write bs s = Some (ws, j, s') /\ grows s s' batch /\ slots nothing P n i bs ws (batch ++ own) /\
    own = (if (j <? length bs)%nat then [PendingNode P n (i + j)] else []) /\ (weight (batch ++ own) <= branch_nodes bs)%nat.
Proof.
  assert (forall i s b bs, unsent (PendingNode P n i) = b :: bs -> exists ws j s' batch own,
    Some (map hole (b :: bs), 0%nat, s) = Some (ws, j, s') /\ grows s s' batch /\ slots nothing P n i (b :: bs) ws (batch ++ own) /\
    own = (if (j <? length (b :: bs))%nat then [PendingNode P n (i + j)] else []) /\ (weight (batch ++ own) <= branch_nodes (b :: bs))%nat) as Hopen.
  { intros i s b l E. exists (map hole (b :: l)), 0%nat, s, [], [PendingNode P n i]. split_and!; [done|apply sender_grows_refl|apply slots_open; cbn; lia| |].
    - cbn. by rewrite Nat.add_0_r.
    - cbn [app]. rewrite weight_cons, E. change (weight []) with 0%nat. lia. }
  induction 1 as [|[k h] bs Hw _ IH]; intros i s E.
  { exists [], 0%nat, s, [], []. split_and!; [done|apply sender_grows_refl|apply slots_nil|done|done]. }
  cbn [write_children]. destruct (full (transfer s)); [by apply Hopen|]. destruct (Hw s) as (o & s1 & b1 & E1 & G1 & H1). cbn [snd] in E1. rewrite E1. cbn.
  destruct o as [w|].
  - destruct H1 as (S1 & W1 & _). destruct (IH (S i) s1 (unsent_next _ _ _ _ _ E)) as (ws & j & s2 & b2 & own & E2 & G2 & S2 & Eo & W2). rewrite E2. cbn.
    exists ((k, Some w) :: ws), (S j), s2, (b1 ++ b2), own. split_and!; [done|by eapply sender_grows_trans| | |].
    + rewrite <- app_assoc. by constructor.
    + rewrite Eo. cbn. by rewrite Nat.add_succ_r.
    + rewrite <- app_assoc, pn_weight_app, branch_nodes_cons. cbn [snd] in *. lia.
  - subst b1. destruct (Hopen i s1 (k, h) bs E) as (ws & j & s2 & b2 & own & E2 & G2 & R). exists ws, j, s2, b2, own.
    split_and!; [done|by apply (sender_grows_trans s s1 s2 [] b2)|apply R..].
Qed.

Lemma write_spec h : forall P dep s, walkable P h -> wrote P h (write_subtree P h dep s) s.
Proof.
  induction h as [p t b x|p t c x bs IH] using hnode_induction; intros P dep s W; inversion W; subst; cbn [transfer.write_subtree].
  - change (if branch_key l =? NONE then [] else [branch_key l]) with (bkey (branch_key l)).
    change (match root with Some d => find_leaf d (P ++ bkey (branch_key l)) | None => None end) with (find_root (P ++ bkey (branch_key l))).
    match goal with H : find_root _ = Some _ |- _ => rewrite H end. cbn.
    destruct (add_node max_size _ s) as [[] s1] eqn:E; cbn [negb]; pose proof (grows_add_node _ _ _ _ E) as G; [|by exists None, s1, []].
    apply add_node_counts in E. eexists _, _, []. split; [done|]. split; [|split_and!; [by apply slot_leaf|exact Nat.lt_0_1|by destruct (is_big l)]].
    destruct (is_big l); [|done]. apply (sender_grows_trans _ _ _ [] [] G), grows_note.
  - destruct (add_node max_size _ s) as [[] s1] eqn:E; cbn [negb]; pose proof (grows_add_node _ _ _ _ E) as G; [|by exists None, s1, []].
    apply add_node_counts in E. destruct (Nat.leb_spec max_depth dep).
    + eexists _, _, [_]. split; [done|]. split; [apply (sender_grows_trans _ _ _ [] _ G), grows_defer|]. split_and!; [by apply slot_trie, slots_open| |done].
      rewrite nodes_trie, weight_cons, unsent_at, drop_0. change (weight []) with 0%nat. lia.
    + destruct (wrote_children (P ++ c) (HTrie p t c x bs) (fun h s => write_subtree (P ++ c) h (S dep) s) bs) with (i := 0%nat) (s := s1)
        as (ws & j & s2 & batch & own & E2 & G2 & S2 & Eo & Wt); [|done|].
      { apply list.Forall_forall. intros b Hb s'. rewrite list.Forall_forall in IH. apply IH; [done|].
        match goal with H : Forall _ bs |- _ => apply (proj1 (list.Forall_forall _ _) H b Hb) end. }
      rewrite E2. cbn [mbind option_bind]. pose proof (gr_nodes _ _ _ G2).
      eexists _, _, (batch ++ own). split; [done|]. split; [|split_and!; [by apply slot_trie|rewrite nodes_trie; lia|case_match; cbn; lia]].
      rewrite Eo. destruct (j <? length bs)%nat.
      * apply (sender_grows_trans _ _ _ [] _ G), (sender_grows_trans _ _ _ _ _ G2), grows_defer.
      * rewrite app_nil_r. by apply (sender_grows_trans _ _ _ [] _ G).
Qed.

(** The first node of a message fits. *)
Lemma write_first h P dep s : walkable P h -> transfer s = begin_transfer P ->
  exists w s', write_subtree P h dep s = Some (Some w, s').
Proof.
  intros W E. destruct (write_spec h P dep s W) as (o & s' & batch & E1 & _ & _). destruct o as [w|]; [by exists w, s'|]. exfalso.
  assert (forall n, align8 (align8 (TRANSFER_HEADER + Z.of_nat (length P))) + n <= max_size -> (add_node max_size n s).1 = true) as Hfits.
  { intros n Hn. unfold add_node, transfer.alloc_node. rewrite E. cbn [used begin_transfer]. destruct (Z.ltb_spec max_size (align8 (align8 (TRANSFER_HEADER + Z.of_nat (length P))) + n)); [lia|done]. }
  inversion W; subst; cbn [transfer.write_subtree] in E1.
  - change (if branch_key l =? NONE then [] else [branch_key l]) with (bkey (branch_key l)) in E1.
    change (match root with Some d => find_leaf d (P ++ bkey (branch_key l)) | None => None end) with (find_root (P ++ bkey (branch_key l))) in E1.
    match goal with H : find_root _ = Some _ |- _ => rewrite H in E1 end. cbn in E1.
    destruct (add_node max_size _ s) as [[] s1] eqn:Ea; [discriminate|]. by apply (f_equal fst) in Ea; rewrite Hfits in Ea.
  - destruct (add_node max_size _ s) as [[] s1] eqn:Ea; [|by apply (f_equal fst) in Ea; rewrite Hfits in Ea]. cbn [negb] in E1.
    destruct (max_depth <=? dep)%nat; [discriminate|]. by destruct (write_children _ _ _) as [[[ws j] s2]|].
Qed.

(** ** The receiver compares *)

(** What is left of a batch after an answer. *)
Definition kept (acks : list (list Z * bool)) (batch : list pending_node) : list pending_node :=
  List.filter (fun p => negb (is_pruned acks (pn_path p) false)) batch.

(** A path that leads through the node. *)
Definition below (P : list Z) (h : hnode) (q : list Z) : Prop :=
  match h with HLeaf _ _ _ _ => False | HTrie _ _ c _ _ => exists r, q = P ++ c ++ r end.

Lemma pruned_spec acks q : is_pruned acks q false = true <-> exists p r, (p, false) ∈ acks /\ q = p ++ r.
Proof.
  unfold is_pruned. rewrite existsb_exists. split.
  - intros ([p l] & Hin & H). unfold request.prunes in H. cbn [fst snd] in H. rewrite !andb_false_l, orb_false_r in H.
    destruct l; [done|]. cbn [negb andb] in H. apply andb_true_iff in H as [_ H%bool_decide_eq_true]. exists p, (drop (length p) q).
    split; [by apply list_elem_of_In|]. by rewrite <- (take_drop (length p) q) at 1; rewrite H.
  - intros (p & r & Hin & ->). exists (p, false). split; [by apply list_elem_of_In|]. unfold request.prunes. cbn [fst snd negb andb].
    rewrite take_app_length, length_app. rewrite (proj2 (Nat.leb_le _ _)) by lia. by rewrite bool_decide_eq_true_2.
Qed.

Lemma kept_app acks b1 b2 : kept acks (b1 ++ b2) = kept acks b1 ++ kept acks b2.
Proof. apply List.filter_app. Qed.

Lemma kept_same acks acks' batch : (forall p, p ∈ batch -> is_pruned acks (pn_path p) false = is_pruned acks' (pn_path p) false) ->
  kept acks batch = kept acks' batch.
Proof. intros H. apply List.filter_ext_in. intros p Hp. by rewrite H by by apply list_elem_of_In. Qed.

Lemma pruned_app a b q : is_pruned (a ++ b) q false = is_pruned a q false || is_pruned b q false.
Proof. apply existsb_app. Qed.

Lemma not_pruned acks q : (forall p r, (p, false) ∈ acks -> q = p ++ r -> False) -> is_pruned acks q false = false.
Proof. intros H. apply not_true_iff_false. intros (p & r & Hp & E)%pruned_spec. by eapply H. Qed.

Lemma below_apart P x y q q' r : -1 <= hfirst x -> -1 <= hfirst y -> hfirst x <> hfirst y -> below P x q -> below P y q' -> q' = q ++ r -> False.
Proof.
  destruct x as [|? ? [|b c] ? ?]; cbn [hfirst below]; [done|lia|]. destruct y as [|? ? [|b' c'] ? ?]; cbn [hfirst below]; [done|lia|].
  intros _ _ Hne (r1 & ->) (r2 & ->) E. rewrite <- !app_assoc in E. apply app_inv_head in E. by injection E as E _.
Qed.

Lemma below_longer P x q r : -1 <= hfirst x -> below P x q -> P = q ++ r -> False.
Proof.
  destruct x as [|? ? [|b c] ? ?]; cbn [hfirst below]; [done|lia|]. intros _ (r1 & ->) E%(f_equal length).
  rewrite !length_app in E. cbn in E. lia.
Qed.

Lemma below_child P c x q p t y bs : below (P ++ c) x q -> below P (HTrie p t c y bs) q.
Proof. destruct x as [|? ? c' ? ?]; [done|]. intros (r & ->). exists (c' ++ r). by rewrite <- app_assoc. Qed.

(** Where the continuations of a slot are. *)
Lemma slot_below k : (forall P h o batch, slot k P h o batch -> Forall (fun p => below P h (pn_path p)) batch) /\
  (forall P n i bs ws batch, slots k P n i bs ws batch ->
    Forall (fun p => pn_path p = P \/ exists b, b ∈ bs /\ below P b.2 (pn_path p)) batch).
Proof.
  apply slot_slots_ind.
  - done.
  - done.
  - intros P p t c x bs ws batch _ IH. eapply Forall_impl; [|exact IH]. intros q [->|(b & _ & Hb)]; [exists []; by rewrite app_nil_r|].
    by eapply below_child.
  - done.
  - intros. constructor; [by left|done].
  - intros P n i j h o bs ws b1 b2 _ IH1 _ IH2. apply Forall_app. split.
    + eapply Forall_impl; [|exact IH1]. intros q Hq. right. exists (j, h). split; [left|done].
    + eapply Forall_impl; [|exact IH2]. intros q [->|(b & Hb & Hq)]; [by left|right]. exists b. split; [by right|done].
Qed.

Lemma slot_length k : (forall P h o batch, slot k P h o batch -> True) /\
  (forall P n i bs ws batch, slots k P n i bs ws batch -> length ws = length bs).
Proof. apply slot_slots_ind; try done; intros; rewrite ?length_map; cbn; congruence. Qed.

(** The branches of a node can be told apart. *)
Definition branching (bs : list (Z * hnode)) : Prop := NoDup (map fst bs) /\ Forall (fun b => -1 <= b.1 /\ hfirst b.2 = b.1) bs.

Lemma walkable_branching P p t c x bs : walkable P (HTrie p t c x bs) -> branching bs.
Proof. inversion 1; subst. split; [done|]. eapply Forall_impl; [|eassumption]. intros b (? & ? & ?). by split. Qed.

Lemma branching_cons k h bs : branching ((k, h) :: bs) -> -1 <= hfirst h /\ branching bs /\
  (forall b, b ∈ bs -> -1 <= hfirst b.2 /\ hfirst b.2 <> hfirst h).
Proof.
  intros [N F]. cbn [map fst] in N. apply list.NoDup_cons in N as [Hk N]. apply list.Forall_cons in F as [[H1 H2] F]. cbn [fst snd] in *.
  split; [lia|]. split; [by split|]. intros b Hb. destruct (proj1 (list.Forall_forall _ _) F b Hb) as [H3 H4]. split; [lia|].
  rewrite H4, H2. intros E. destruct Hk. rewrite <- E. apply list_elem_of_fmap. by exists b.
Qed.

(** What the comparison does to the receiver. *)
Record compared (r r' : receiver) (acks : list (list Z * bool)) (n : Z) : Prop := {
  co_root : temp_root r' = temp_root r;
  co_acks : prune_paths r' = prune_paths r ++ acks;
  co_pending : pending_children r' = u64 (pending_children r + n)
}.

Definition in_range (r : receiver) : Prop := 0 <= pending_children r < 2 ^ 64.

Lemma compared_trans r1 r2 r3 a1 a2 n1 n2 : compared r1 r2 a1 n1 -> compared r2 r3 a2 n2 -> compared r1 r3 (a1 ++ a2) (n1 + n2).
Proof.
  intros [E1 E2 E3] [E4 E5 E6]. split; [congruence|by rewrite E5, E2, app_assoc|]. rewrite E6, E3. unfold wrap. rewrite Zplus_mod_idemp_l. f_equal. lia.
Qed.

Lemma compared_range r r' a n : compared r r' a n -> in_range r'.
Proof. intros [_ _ E]. unfold in_range. rewrite E. by apply wrap_range. Qed.

Lemma compared_refl r : in_range r -> compared r r [] 0.
Proof. intros H. split; [done|by rewrite app_nil_r|]. by rewrite Z.add_0_r, wrap_small. Qed.

Lemma compared_add n r : compared r (add_pending n r) [] n.
Proof. split; [done|by rewrite app_nil_r|done]. Qed.

Lemma compared_prune p r : in_range r -> compared r (add_prune p r) [p] 0.
Proof. intros H. split; [done|done|]. by rewrite Z.add_0_r, wrap_small. Qed.

Definition judged (P : list Z) (h : hnode) (batch : list pending_node) (r : receiver) (res : option wire * receiver) : Prop :=
  exists o acks r', res = (o, r') /\ compared r r' acks (Z.of_nat (owed (kept acks batch)) - 1) /\
    slot known P h o (kept acks batch) /\ forall q, (q, false) ∈ acks -> below P h q.

Lemma compare_holes f bs r : compare_children f (map hole bs) r = (map hole bs, r).
Proof. induction bs as [|b bs IH]; [done|]. cbn [map hole compare_children]. by rewrite IH. Qed.

Lemma kept_nil batch : kept [] batch = batch.
Proof. induction batch as [|p l IH]; [done|]. cbn. by f_equal. Qed.

Lemma judged_children P n f bs : branching bs ->
  Forall (fun b => forall w batch r, in_range r -> slot nothing P b.2 (Some w) batch -> judged P b.2 batch r (f w r)) bs ->
  forall i ws batch r, slots nothing P n i bs ws batch -> unsent (PendingNode P n i) = bs -> in_range r ->
  exists ws' acks r', compare_children f ws r = (ws', r') /\
    compared r r' acks (Z.of_nat (owed (kept acks batch)) - Z.of_nat (length bs)) /\
    slots known P n i bs ws' (kept acks batch) /\ forall q, (q, false) ∈ acks -> exists b, b ∈ bs /\ below P b.2 q.
Proof.
  induction bs as [|[k h] bs IH]; intros Hb F i ws batch r Hs E Hr.
  - inversion Hs; subst; [|by cbn in *; lia]. exists [], [], r. split_and!; [done|by apply compared_refl|apply slots_nil|by intros q ?%not_elem_of_nil].
  - apply list.Forall_cons in F as [Fh F]. destruct (branching_cons _ _ _ Hb) as (H1 & Hb' & H2). inversion Hs as [|? ? ? ? Hl|? ? ? ? ? o ? ws0 b1 b2 S1 S2]; subst.
    + exists (map hole ((k, h) :: bs)), [], r. rewrite compare_holes, kept_nil. split_and!; [done| |by apply slots_open|by intros q ?%not_elem_of_nil].
      rewrite owed_cons, E. change (owed []) with 0%nat. replace (_ - _) with 0 by lia. by apply compared_refl.
    + destruct o as [w|]; [|by inversion S1]. cbn [snd] in *. destruct (Fh w b1 r Hr S1) as (o & A1 & r1 & E1 & C1 & S1' & B1).
      destruct (IH Hb' F (S i) ws0 b2 r1 S2 (unsent_next _ _ _ _ _ E) (compared_range _ _ _ _ C1)) as (ws' & A2 & r2 & E2 & C2 & S2' & B2).
      cbn [compare_children]. rewrite E1, E2. exists ((k, o) :: ws'), (A1 ++ A2), r2.
      assert (kept (A1 ++ A2) (b1 ++ b2) = kept A1 b1 ++ kept A2 b2) as Ek.
      { rewrite kept_app. f_equal; apply kept_same; intros p Hp; rewrite pruned_app.
        - rewrite (not_pruned A2); [by rewrite orb_false_r|]. intros q rr Hq Eq. destruct (B2 q Hq) as (b & Hbb & Hq'). destruct (H2 b Hbb) as [H3 H4].
          pose proof (proj1 (list.Forall_forall _ _) (proj1 (slot_below nothing) _ _ _ _ S1) p Hp) as Hpb. cbn beta in Hpb.
          eapply (below_apart P b.2 h q (pn_path p) rr); eauto.
        - rewrite (not_pruned A1); [done|]. intros q rr Hq%B1 Eq.
          destruct (proj1 (list.Forall_forall _ _) (proj2 (slot_below nothing) _ _ _ _ _ _ S2) p Hp) as [Ep|(b & Hbb & Hpb)].
          + eapply (below_longer P h q rr); [done|done|congruence].
          + destruct (H2 b Hbb) as [H3 H4]. eapply (below_apart P h b.2 q (pn_path p) rr); eauto. }
      rewrite Ek. split_and!; [done| |by constructor|].
      * rewrite owed_app. replace (_ - _) with ((Z.of_nat (owed (kept A1 b1)) - 1) + (Z.of_nat (owed (kept A2 b2)) - Z.of_nat (length bs))) by (cbn [length]; lia).
        by eapply compared_trans.
      * intros q [Hq|Hq]%elem_of_app; [exists (k, h); split; [left|by apply B1]|].
        destruct (B2 q Hq) as (b & Hbb & Hq'). exists b. split; [by right|done].
Qed.

Lemma same_hash_spec path t x : same_hash local path t x = true -> hash_lookup local path t = Some x.
Proof. by intros H%bool_decide_eq_true. Qed.

Lemma compare_spec h : forall P w batch r, walkable P h -> in_range r -> slot nothing P h (Some w) batch -> judged P h batch r (compare P w r).
Proof.
  induction h as [p t b x|p t c x bs IH] using hnode_induction; intros P w batch r W Hr S.
  - inversion S as [|? ? ? ? ? l Hl Hb|]; subst. cbn [compare_wire_with_local].
    set (r1 := add_pending (-1) r). assert (compared r r1 [] (-1)) as C1 by apply compared_add. pose proof (compared_range _ _ _ _ C1) as Hr1.
    inversion W as [? ? ? ? ? l' Hl' _ Hbig _|]; subst. rewrite Hl in Hl'. injection Hl' as <-.
    destruct (same_hash local (P ++ key l) LEAF x) eqn:Es.
    + apply same_hash_spec in Es. destruct (is_big l).
      * exists None, [(P ++ key l, true)], (add_prune (P ++ key l, true) r1). split_and!; [done| | |].
        -- apply (compared_trans _ _ _ [] [_] _ 0 C1). by apply compared_prune.
        -- apply slot_known. by exists l.
        -- intros q Hq%list_elem_of_singleton. by injection Hq.
      * exists None, [], r1. split_and!; [done|exact C1|apply slot_known; by exists l|by intros q ?%not_elem_of_nil].
    + assert (forall r2, compared r r2 [] (-1) -> judged P (HLeaf p t (branch_key l) x) [] r (Some (WLeaf x l), r2)) as Hno.
      { intros r2 C. exists (Some (WLeaf x l)), [], r2. split_and!; [done|exact C|by apply slot_leaf|by intros q ?%not_elem_of_nil]. }
      destruct C1. destruct (is_big l); [|by apply Hno; split]. destruct (Hbig eq_refl) as [G1 G2].
      destruct (Nat.ltb_spec (length (vdata l)) 12); [lia|]. destruct (Z.ltb_spec max_big (value_size l)); [lia|]. by apply Hno; split.
  - inversion S as [| |? ? ? ? ? ? ws ? S']; subst. cbn [compare_wire_with_local].
    set (r1 := add_pending (-1) r). assert (compared r r1 [] (-1)) as C1 by apply compared_add. pose proof (compared_range _ _ _ _ C1) as Hr1.
    destruct (same_hash local (P ++ c) TRIE x) eqn:Es.
    + apply same_hash_spec in Es. exists None, [(P ++ c, false)], (add_prune (P ++ c, false) r1).
      assert (kept [(P ++ c, false)] batch = []) as ->.
      { pose proof (proj1 (slot_below nothing) _ _ _ _ S) as F. clear -F. induction F as [|q l (rr & Hq) _ IHl]; [done|].
        cbn [kept List.filter]. rewrite (proj2 (pruned_spec _ (pn_path q))); [exact IHl|]. exists (P ++ c), rr. rewrite Hq, <- app_assoc. split; [left|done]. }
      split_and!; [done| |by apply slot_known|].
      * apply (compared_trans _ _ _ [] [_] _ 0 C1). by apply compared_prune.
      * intros q Hq%list_elem_of_singleton. injection Hq as ->. exists []. by rewrite app_nil_r.
    + set (r2 := add_pending (Z.of_nat (length ws)) r1). pose proof (compared_add (Z.of_nat (length ws)) r1) as C2. fold r2 in C2.
      destruct (judged_children (P ++ c) (HTrie p t c x bs) (compare (P ++ c)) bs (walkable_branching _ _ _ _ _ _ W)) with (i := 0%nat) (ws := ws) (batch := batch) (r := r2)
        as (ws' & A & r3 & E3 & C3 & S3 & B3); [|done|done|by eapply compared_range|].
      { apply list.Forall_forall. intros b Hb w' b' r' Hr' S1. rewrite list.Forall_forall in IH. apply IH; [done| |done|done].
        inversion W as [|? ? ? ? ? ? _ _ F _]; subst. by apply (proj1 (list.Forall_forall _ _) F b Hb). }
      rewrite E3. exists (Some (WTrie x c ws')), A, r3. split_and!; [done| |by apply slot_trie|].
      * pose proof (proj2 (slot_length nothing) _ _ _ _ _ _ S'). replace (Z.of_nat (owed (kept A batch)) - 1) with (-1 + (Z.of_nat (length ws) + (Z.of_nat (owed (kept A batch)) - Z.of_nat (length bs)))) by lia.
        apply (compared_trans _ _ _ [] _ _ _ C1). by apply (compared_trans _ _ _ [] _ _ _ C2).
      * intros q Hq. destruct (B3 q Hq) as (b & _ & Hb). by eapply below_child.
Qed.

(** ** The receiver connects *)

(** What is left of a continuation when one child was handled. *)
Definition advanced (p : pending_node) : list pending_node :=
  if (1 <? length (unsent p))%nat then [PendingNode (pn_path p) (pn_node p) (S (next_child p))] else [].

Definition attached (w : wire) (rest : list Z) (o : option wire) : wire := match o with None => w | Some w2 => plug w rest w2 end.

Definition own (o : option wire) : list Z := match o with None => [] | Some w => own_path w end.

Lemma slots_keys k : (forall P h o batch, slot k P h o batch -> True) /\
  (forall P n i bs ws batch, slots k P n i bs ws batch -> map fst ws = map fst bs).
Proof. apply slot_slots_ind; try done; intros; [by rewrite map_map|]. cbn. congruence. Qed.

Lemma replace_child_in f k ws ws' : replace_child f k ws = Some ws' -> k ∈ map fst ws.
Proof.
  revert ws'. induction ws as [|[k' o] ws IH]; intros ws'; cbn [replace_child]; [done|]. destruct (Z.eqb_spec k' k) as [->|]; [left|].
  destruct (replace_child f k ws) as [l|]; [|done]. intros _. right. by apply (IH l).
Qed.

Lemma own_branch Q ch w b k : slot known Q ch (Some w) b -> hfirst ch = k -> -1 <= k -> branch_of (own_path w) = k.
Proof.
  intros S E Hk. inversion S; subst; cbn [own_path hfirst] in *; [done|]. destruct c as [|b0 c]; [lia|done].
Qed.

(** The child [ch] of the continuation [p], and what is to fill its slot. *)
Record delivery (p : pending_node) (o : option wire) (batch : list pending_node) : Prop := {
  de_child : exists k ch rest, unsent p = (k, ch) :: rest /\ hfirst ch = k /\ -1 <= k /\ slot known (pn_path p) ch o batch
}.

Definition filled (p : pending_node) (b2 batch batch' : list pending_node) : Prop :=
  exists others, batch ≡ₚ p :: others /\ batch' ≡ₚ others ++ advanced p ++ b2.

Lemma filled_app_l p b2 l k l' : filled p b2 l l' -> filled p b2 (l ++ k) (l' ++ k).
Proof.
  intros (o & E1 & E2). exists (o ++ k). rewrite E1, E2. split; [done|]. by rewrite <- !app_assoc, (Permutation_app_comm k), <- !app_assoc.
Qed.

Lemma filled_app_r p b2 l k k' : filled p b2 k k' -> filled p b2 (l ++ k) (l ++ k').
Proof. intros (o & E1 & E2). exists (l ++ o). rewrite E1, E2. split; [solve_Permutation|by rewrite <- app_assoc]. Qed.

Lemma plug_spec p o2 b2 : delivery p o2 b2 ->
  (forall P h o batch, slot known P h o batch -> walkable P h -> p ∈ batch -> forall rest, P ++ rest = pn_path p ++ own o2 ->
    exists w batch', o = Some w /\ filled p b2 batch batch' /\ slot known P h (Some (attached w rest o2)) batch') /\
  (forall P n i bs ws batch, slots known P n i bs ws batch -> branching bs -> Forall (fun b => walkable P b.2) bs -> unsent (PendingNode P n i) = bs ->
    p ∈ batch -> forall rest, P ++ rest = pn_path p ++ own o2 ->
    exists ws' batch', filled p b2 batch batch' /\ slots known P n i bs ws' batch' /\
      match o2 with None => ws' = ws | Some w2 => replace_child (fun o => match o with None => w2 | Some w => plug w rest w2 end) (branch_of rest) ws = Some ws' end).
Proof.
  intros [(k & ch & more & Eu & Ek & Hk & S2)]. apply slot_slots_ind.
  - by intros P h _ _ ?%not_elem_of_nil.
  - by intros P q t b x l _ _ _ ?%not_elem_of_nil.
  - intros P q t c x bs ws batch S IH W Hp rest Er. pose proof (walkable_branching _ _ _ _ _ _ W) as Hb.
    inversion W as [|? ? ? ? ? ? _ _ F _]; subst. assert (below P (HTrie q t c x bs) (pn_path p)) as (r & Eq).
    { pose proof (proj1 (slot_below known) P (HTrie q t c x bs) (Some (WTrie x c ws)) batch (slot_trie _ _ _ _ _ _ _ _ _ S)) as Fb.
      by apply (proj1 (list.Forall_forall _ _) Fb). }
    rewrite Eq in Er. rewrite <- !app_assoc in Er. apply app_inv_head in Er. subst rest.
    destruct (IH Hb) with (rest := r ++ own o2) as (ws' & batch' & Hf & S' & Ho); [|done|done|by rewrite Eq, <- !app_assoc|].
    { eapply Forall_impl; [|exact F]. by intros b (_ & _ & ?). }
    exists (WTrie x c ws), batch'. split_and!; [done|done|]. destruct o2 as [w2|]; cbn [attached].
    + cbn [plug]. rewrite after_prefix_app, Ho. by apply slot_trie.
    + subst ws'. by apply slot_trie.
  - by intros P n i _ _ _ ?%not_elem_of_nil.
  - intros P n i bs Hl Hb F E Hp%list_elem_of_singleton rest Er. subst p. cbn [pn_path] in *. apply app_inv_head in Er. subst rest.
    rewrite E in Eu. subst bs. exists ((k, o2) :: map hole more), (b2 ++ if (0 <? length more)%nat then [PendingNode P n (S i)] else []).
    split_and!.
    + exists []. split; [done|]. unfold advanced. rewrite E. cbn [app pn_path pn_node next_child length]. rewrite Permutation_app_comm. by destruct more.
    + apply slots_cons; [done|]. destruct more as [|b more]; [apply slots_nil|]. apply slots_open. cbn. lia.
    + destruct o2 as [w2|]; [|done]. cbn [own map hole replace_child fst]. rewrite (own_branch _ _ _ _ _ S2 Ek Hk), Z.eqb_refl. done.
  - intros P n i j h o bs ws b1 b3 S1 IH1 S3 IH3 Hb F E Hp rest Er. destruct (branching_cons _ _ _ Hb) as (H1 & Hb' & H2).
    apply list.Forall_cons in F as [Fh F]. cbn [snd] in Fh. apply elem_of_app in Hp as [Hp|Hp].
    + destruct (IH1 Fh Hp rest Er) as (w & batch' & -> & Hf & S'). exists ((j, Some (attached w rest o2)) :: ws), (batch' ++ b3).
      split_and!; [by apply filled_app_l|by apply slots_cons|]. destruct o2 as [w2|]; [|done]. cbn [replace_child attached].
      assert (below P h (pn_path p)) as Hbel.
      { pose proof (proj1 (slot_below known) _ _ _ _ S1) as Fb. by apply (proj1 (list.Forall_forall _ _) Fb). }
      assert (branch_of rest = j) as ->; [|by rewrite Z.eqb_refl].
      destruct Hb as [_ Fk]. apply list.Forall_cons in Fk as [[Hj Ej] _]. cbn [fst snd] in *. subst j.
      destruct h as [|? ? [|b0 c] ? ?]; cbn [hfirst below] in *; [done|lia|]. destruct Hbel as (r & Eq). rewrite Eq, <- !app_assoc in Er.
      apply app_inv_head in Er. by subst rest.
    + destruct (IH3 Hb' F (unsent_next _ _ _ _ _ E) Hp rest Er) as (ws' & batch' & Hf & S' & Ho). exists ((j, o) :: ws'), (b1 ++ batch').
      split_and!; [by apply filled_app_r|by apply slots_cons|]. destruct o2 as [w2|]; [|by subst ws']. cbn [replace_child]. rewrite Ho.
      destruct (Z.eqb_spec j (branch_of rest)) as [->|]; [|done]. exfalso. apply replace_child_in in Ho. rewrite (proj2 (slots_keys known) _ _ _ _ _ _ S3) in Ho.
      destruct Hb as [N _]. cbn [map fst] in N. by apply list.NoDup_cons in N as [N _].
Qed.

Lemma weight_kept A batch : (weight (kept A batch) <= weight batch)%nat.
Proof.
  induction batch as [|p l IH]; [done|]. rewrite weight_cons. cbn [kept List.filter]. fold (kept A l). destruct (negb _); [rewrite weight_cons|]; lia.
Qed.

(** A continuation has a child to send. *)
Lemma slot_unsent k p : (forall P h o batch, slot k P h o batch -> walkable P h -> p ∈ batch ->
    exists q t c x bs k ch more, pn_node p = HTrie q t c x bs /\ unsent p = (k, ch) :: more /\ hfirst ch = k /\ -1 <= k /\ walkable (pn_path p) ch) /\
  (forall P n i bs ws batch, slots k P n i bs ws batch -> Forall (fun b => -1 <= b.1 /\ hfirst b.2 = b.1 /\ walkable P b.2) bs ->
    unsent (PendingNode P n i) = bs -> p ∈ batch ->
    exists q t c x bs k ch more, pn_node p = HTrie q t c x bs /\ unsent p = (k, ch) :: more /\ hfirst ch = k /\ -1 <= k /\ walkable (pn_path p) ch).
Proof.
  apply slot_slots_ind.
  - by intros P h _ _ ?%not_elem_of_nil.
  - by intros P q t b x l _ _ _ ?%not_elem_of_nil.
  - intros P q t c x bs ws batch _ IH W. inversion W; subst. by apply IH.
  - by intros P n i _ _ ?%not_elem_of_nil.
  - intros P n i bs Hl F E Hp%list_elem_of_singleton. subst p. cbn [pn_path pn_node]. destruct n as [|q t c x bs']; [by cbn in E; subst bs; cbn in Hl; lia|].
    destruct bs as [|[j ch] more]; [cbn in Hl; lia|]. apply list.Forall_cons in F as [(H1 & H2 & H3) _]. by exists q, t, c, x, bs', j, ch, more.
  - intros P n i j h o bs ws b1 b2 _ IH1 _ IH2 F E Hp. apply list.Forall_cons in F as [(_ & _ & H3) F].
    apply elem_of_app in Hp as [Hp|Hp]; [by apply IH1|]. apply IH2; [done| |done]. by eapply unsent_next.
Qed.

(** Between two rounds. *)
Record between (h : hnode) (s : sender) (r : receiver) : Prop := {
  bt_slot : exists batch, slot known [] h (temp_root r) batch /\ batch ≡ₚ pending s;
  bt_last : last_batch s = [];
  bt_prune : prune_paths r = [];
  bt_pending : pending_children r = u64 (Z.of_nat (owed (pending s)))
}.

Definition prefixed (h : hnode) : Prop := match h with HLeaf _ _ _ _ => True | HTrie _ _ c _ _ => c <> [] end.

Definition round (h : hnode) (s : sender) (r : receiver) : option (sender * receiver) :=
  '(m, s) ← fill_buffer max_size max_depth root (Some h) s;
  r ← process_received_nodes local max_big m r;
  let '(acks, r) := take_prune_paths r in
  Some (process_ack acks s, r).

Lemma between_range h s r : between h s r -> in_range r.
Proof. intros B. unfold in_range. rewrite (bt_pending _ _ _ B). by apply wrap_range. Qed.

Lemma last_take {X} (l : list X) x : list.last l = Some x -> l = take (pred (length l)) l ++ [x].
Proof. intros [k ->]%last_Some. rewrite length_app, Nat.add_1_r. cbn [pred]. by rewrite take_app_length. Qed.

Lemma advanced_unsent p : owed (advanced p) = pred (length (unsent p)) /\ (forall b l, unsent p = b :: l -> weight (advanced p) = branch_nodes l).
Proof.
  unfold advanced. destruct p as [P n i]. cbn [pn_path pn_node next_child]. destruct (unsent (PendingNode P n i)) as [|b l] eqn:E; [done|].
  pose proof (unsent_next _ _ _ _ _ E) as E'. destruct l as [|b' l]; cbn [length Nat.ltb Nat.leb pred].
  - split; [done|]. by intros ? ? [= <- <-].
  - rewrite owed_cons, E'. change (owed []) with 0%nat. cbn [length]. split; [lia|]. intros ? ? [= <- <-].
    rewrite weight_cons, E'. change (weight []) with 0%nat. lia.
Qed.

(** The message with the root. *)
Lemma round_first h : walkable [] h -> exists s r, round h begin_sender begin_receiver = Some (s, r) /\ between h s r /\ (weight (pending s) < nodes h)%nat.
Proof.
  intros W. unfold round, fill_buffer. cbn [pending begin_sender list.last]. set (s0 := set_transfer (begin_transfer []) begin_sender).
  destruct (write_first h [] 0 s0 W eq_refl) as (w & s1 & E1). destruct (write_spec h [] 0 s0 W) as (o & s1' & batch & E1' & [G1 G2 G3] & Ho).
  rewrite E1 in E1'. injection E1' as <- <-. destruct Ho as (S1 & Wt & Hn). rewrite E1. cbn [mbind option_bind].
  unfold process_received_nodes. cbn [msg_nodes subtrie_path msg_root]. destruct (Nat.eqb_spec (node_count (transfer s1)) 0); [lia|].
  rewrite bool_decide_eq_true_2 by done. set (r0 := add_pending 1 begin_receiver).
  destruct (compare_spec h [] w batch r0 W) as (o & A & r1 & E2 & [C1 C2 C3] & S2 & _); [done|done|]. rewrite E2.
  assert (exists r2, match o with None => Some r1 | Some w => Some (set_temp_root (Some w) r1) end = Some r2 /\ temp_root r2 = o /\
    prune_paths r2 = A /\ pending_children r2 = u64 (Z.of_nat (owed (kept A batch)))) as (r2 & E3 & T1 & T2 & T3).
  { assert (pending_children r1 = u64 (Z.of_nat (owed (kept A batch)))) as C3'.
    { rewrite C3. f_equal. change (pending_children r0) with 1. lia. }
    destruct o as [w'|]; [by eexists|]. by exists r1. }
  assert (pending (process_ack A s1) = kept A batch) as P2 by (cbn [pending process_ack]; by rewrite G1, G2).
  exists (process_ack A s1), (take_prune_paths r2).2. split; [|split].
  - destruct o as [w'|]; rewrite E3; cbn; by rewrite T2.
  - split; rewrite ?P2; [|done|done|exact T3]. exists (kept A batch). cbn. by rewrite T1.
  - rewrite P2. pose proof (weight_kept A batch). lia.
Qed.

(** A message with a child of a node that was sent before. *)
Lemma round_next h s r : walkable [] h -> prefixed h -> between h s r -> pending s <> [] ->
  exists s' r', round h s r = Some (s', r') /\ between h s' r' /\ (weight (pending s') < weight (pending s))%nat.
Proof.
  intros W Hp Hb Hne. pose proof (between_range _ _ _ Hb) as Hr. destruct Hb as [(all & S0 & Ep) B2 B3 B4].
  destruct (list.last (pending s)) as [p|] eqn:El; [|by apply last_None in El]. pose proof (last_take _ _ El) as Es.
  set (rest := take (pred (length (pending s))) (pending s)) in *.
  assert (p ∈ all) as Hin by (rewrite Ep, Es; apply elem_of_app; right; left).
  destruct (proj1 (slot_unsent known p) _ _ _ _ S0 W Hin) as (q & t & c & x & bs & k & ch & more & En & Eu & Ek & Hk & Wc).
  assert (pn_path p <> []) as Hpath.
  { pose proof (proj1 (list.Forall_forall _ _) (proj1 (slot_below known) _ _ _ _ S0) p Hin) as Hbel. cbn beta in Hbel.
    destruct h as [|? ? c' ? ?]; [done|]. destruct Hbel as (rr & ->). cbn in Hp. by destruct c'. }
  unfold round, fill_buffer. rewrite El, En. unfold unsent in Eu. rewrite En in Eu.
  assert (bs !! next_child p = Some (k, ch)) as -> by (rewrite <- (Nat.add_0_r (next_child p)), <- lookup_drop, Eu; done). cbn [mbind option_bind].
  set (s0 := set_transfer (begin_transfer (pn_path p)) s).
  destruct (write_first ch (pn_path p) 0 s0 Wc eq_refl) as (w & s1 & E1). destruct (write_spec ch (pn_path p) 0 s0 Wc) as (o & s1' & batch & E1' & [G1 G2 G3] & Ho).
  rewrite E1 in E1'. injection E1' as <- <-. destruct Ho as (S1 & Wt & Hn). rewrite E1. cbn [mbind option_bind].
  assert ((if (length bs <=? S (next_child p))%nat then rest else rest ++ [PendingNode (pn_path p) (HTrie q t c x bs) (S (next_child p))]) = rest ++ advanced p) as Ead.
  { unfold advanced, unsent. rewrite En, Eu. pose proof (f_equal length Eu) as Ln. rewrite length_drop in Ln. cbn [length] in *.
    destruct (Nat.leb_spec (length bs) (S (next_child p))), (Nat.ltb_spec 1 (S (length more))); try lia; [by rewrite app_nil_r|done]. }
  change (pending s1) with (pending s1). rewrite G1. change (pending s0) with (pending s). fold rest. rewrite Ead.
  unfold process_received_nodes. cbn [msg_nodes subtrie_path msg_root]. change (transfer (set_pending (rest ++ advanced p) s1)) with (transfer s1). destruct (Nat.eqb_spec (node_count (transfer s1)) 0); [lia|].
  rewrite bool_decide_eq_false_2 by done.
  destruct (compare_spec ch (pn_path p) w batch r Wc Hr S1) as (o & A & r1 & E2 & [C1 C2 C3] & S2 & _). rewrite E2.
  assert (delivery p o (kept A batch)) as Hdel by (split; exists k, ch, more; unfold unsent; by rewrite En).
  destruct (proj1 (plug_spec p o (kept A batch) Hdel) [] h (temp_root r) all S0 W Hin (pn_path p ++ own o) eq_refl) as (w0 & all' & Er & (others & F1 & F2) & S3).
  assert (exists r2, match o with None => Some r1 | Some w => connect_subtrie (pn_path p ++ own_path w) w r1 end = Some r2 /\
    temp_root r2 = Some (attached w0 (pn_path p ++ own o) o) /\ prune_paths r2 = A /\ pending_children r2 = pending_children r1) as (r2 & E3 & T1 & T2 & T3).
  { rewrite B3 in C2. destruct o as [w'|]; [|exists r1; split_and!; [done|by rewrite C1|done|done]]. unfold connect_subtrie. rewrite C1, Er.
    destruct (pn_path p) as [|b0 l0] eqn:Epp; [done|]. cbn [app]. destruct w0 as [|x0 c0 ws0]; [|by eexists].
    exfalso. rewrite Er in S0. inversion S0; subst. by apply not_elem_of_nil in Hin. }
  assert (all' ≡ₚ (rest ++ advanced p) ++ kept A batch) as Eall.
  { rewrite F2, app_assoc. f_equiv. f_equiv. rewrite Es, F1 in Ep. apply (Permutation_cons_inv (a := p)). rewrite Ep. by rewrite Permutation_app_comm. }
  assert (weight ((rest ++ advanced p) ++ kept A batch) < weight (pending s))%nat as Hw.
  { rewrite Es at 1. rewrite !pn_weight_app, weight_cons. change (weight []) with 0%nat. pose proof (weight_kept A batch).
    destruct (advanced_unsent p) as [_ Ha]. unfold unsent in *. rewrite En, Eu in *. rewrite (Ha _ _ eq_refl), branch_nodes_cons. cbn [snd]. lia. }
  assert (pending_children r1 = u64 (Z.of_nat (owed ((rest ++ advanced p) ++ kept A batch)))) as C4.
  { rewrite C3, B4. rewrite Es at 1. rewrite !owed_app, owed_cons. change (owed []) with 0%nat. unfold wrap. rewrite Zplus_mod_idemp_l. f_equal.
    destruct (advanced_unsent p) as [Ha _]. rewrite Ha. assert (0 < length (unsent p))%nat by (unfold unsent; rewrite En, Eu; cbn; lia). lia. }
  set (s2 := set_pending (rest ++ advanced p) s1).
  assert (pending (process_ack A s2) = (rest ++ advanced p) ++ kept A batch) as P2.
  { cbn [pending process_ack s2 set_pending last_batch]. rewrite G2. change (last_batch s0) with (last_batch s). by rewrite B2. }
  exists (process_ack A s2), (take_prune_paths r2).2. split; [|split].
  - destruct o as [w'|]; rewrite E3; unfold take_prune_paths; cbn [mbind option_bind fst snd]; by rewrite T2.
  - split; rewrite ?P2; [|done|done|cbn; by rewrite T3]. exists all'. cbn. by rewrite T1.
  - by rewrite P2.
Qed.

(** ** The whole exchange *)

Abbreviation exchange := (transfer.exchange max_size max_depth root).

Lemma exchange_round h n s r : exchange (Some h) local max_big (S n) s r =
  '(s, r) ← round h s r; if has_pending s then exchange (Some h) local max_big n s r else Some (s, r).
Proof.
  unfold round. cbn [transfer.exchange]. destruct (fill_buffer _ _ _ _ s) as [[m s1]|]; [|done]. cbn [mbind option_bind].
  by destruct (process_received_nodes _ _ m r).
Qed.

Lemma between_pending h s r : between h s r -> has_pending s = false -> pending s = [].
Proof. intros _ H. unfold has_pending in H. apply orb_false_iff in H as [H _]. apply negb_false_iff, bool_decide_eq_true in H. done. Qed.

Lemma exchange_ends h : walkable [] h -> prefixed h -> forall n s r, between h s r -> pending s <> [] -> (weight (pending s) < n)%nat ->
  exists s' r', exchange (Some h) local max_big n s r = Some (s', r') /\ between h s' r' /\ pending s' = [].
Proof.
  intros W Hp n. induction n as [|n IH]; intros s r B Hne Hn; [lia|]. rewrite exchange_round.
  destruct (round_next h s r W Hp B Hne) as (s1 & r1 & E1 & B1 & W1). rewrite E1. cbn [mbind option_bind]. destruct (has_pending s1) eqn:Ep.
  - apply IH; [done| |lia]. intros E. unfold has_pending in Ep. rewrite E, (bt_last _ _ _ B1) in Ep. done.
  - exists s1, r1. split_and!; [done..|]. by eapply between_pending.
Qed.

Lemma exchange_all h n : walkable [] h -> prefixed h -> (nodes h < n)%nat ->
  exists s r, exchange (Some h) local max_big n begin_sender begin_receiver = Some (s, r) /\ between h s r /\ pending s = [].
Proof.
  intros W Hp Hn. destruct n as [|n]; [lia|]. rewrite exchange_round. destruct (round_first h W) as (s & r & E & B & Hw). rewrite E. cbn [mbind option_bind].
  destruct (has_pending s) eqn:Ep.
  - apply exchange_ends; [done..| |lia]. intros E'. unfold has_pending in Ep. rewrite E', (bt_last _ _ _ B) in Ep. done.
  - exists s, r. split_and!; [done..|]. by eapply between_pending.
Qed.

(** ** What has arrived *)

Fixpoint wire_entries (P : list Z) (w : wire) : list (list Z * leaf) :=
  match w with
  | WLeaf _ l => [(P ++ key l, l)]
  | WTrie _ c ws => flat_map (fun b => match b.2 with Some w => wire_entries (P ++ c) w | None => [] end) ws
  end.

Definition collected (P : list Z) (o : option wire) : list (list Z * leaf) := match o with Some w => wire_entries P w | None => [] end.

(** The data trie and the hash trie side by side. *)
Context (blake3 : list Z -> list Z) (has_big : bool).
Abbreviation ideal := (hashfacts.ideal blake3 has_big).

Definition node_path (x : data) : list Z := match x with DLeaf _ l => key l | DTrie _ c _ => c end.
Definition node_type (x : data) : NodeType := match x with DLeaf _ _ => LEAF | DTrie _ _ _ => TRIE end.

Definition lands (P : list Z) (x : data) : Prop :=
  forall Q t l, (Q, DLeaf t l) ∈ subtries P x -> find_root (Q ++ bkey (branch_key l)) = Some l.

(** The receiver has the hash of a node of the data trie. *)
Definition matched (P : list Z) (x : data) : Prop := hash_lookup local (P ++ node_path x) (node_type x) = Some (hash_of (ideal P x)).

Lemma elem_of_flat_map {X Y} (f : X -> list Y) l y : y ∈ flat_map f l <-> exists x, x ∈ l /\ y ∈ f x.
Proof.
  rewrite list_elem_of_In, in_flat_map. split; intros (x & H1 & H2); exists x; by split; apply list_elem_of_In.
Qed.

Lemma known_matched P x h : erase h = ideal P x -> lands P x -> known P h -> matched P x.
Proof.
  intros E L K. unfold matched. destruct h as [p t b y|p t c y hbs], x as [t' l|t' c' bs]; try done; cbn [erase hashfacts.ideal] in E; cbn [known] in K.
  - injection E as <- -> ->. destruct K as (l' & E1 & E2). rewrite (L P t l) in E1 by left. injection E1 as <-. done.
  - injection E as <- -> -> _. done.
Qed.

Lemma slot_entries :
  (forall P h o batch, slot known P h o batch -> batch = [] -> forall x, erase h = ideal P x -> lands P x ->
    (forall e, e ∈ collected P o -> e ∈ entries P x) /\
    (forall e, e ∈ entries P x -> e ∈ collected P o \/ exists Q y, (Q, y) ∈ subtries P x /\ matched Q y /\ e ∈ entries Q y)) /\
  (forall P n i bs ws batch, slots known P n i bs ws batch -> batch = [] -> forall xs, erase_branches bs = ideal_branches blake3 has_big P xs ->
    (forall b, b ∈ xs -> lands P b.2) ->
    (forall e, e ∈ flat_map (fun b => collected P b.2) ws -> e ∈ flat_map (fun b => entries P b.2) xs) /\
    (forall e, e ∈ flat_map (fun b => entries P b.2) xs -> e ∈ flat_map (fun b => collected P b.2) ws \/
      exists b Q y, b ∈ xs /\ (Q, y) ∈ subtries P b.2 /\ matched Q y /\ e ∈ entries Q y)).
Proof.
  apply slot_slots_ind.
  - intros P h K _ x E L. split; [by intros e ?%not_elem_of_nil|]. intros e He. right. exists P, x. split_and!; [apply subtries_self|by eapply known_matched|done].
  - intros P p t b x l E1 E2 _ y E L. destruct y as [t' l'|]; [|done]. cbn [erase hashfacts.ideal] in E. injection E as <- Eb _.
    rewrite Eb in E1. rewrite (L P t l') in E1 by left. injection E1 as ->. cbn [collected wire_entries entries]. split; [done|by left].
  - intros P p t c x bs ws batch _ IH -> y E L. destruct y as [|t' c' xs]; [done|]. cbn [erase hashfacts.ideal] in E. injection E as <- <- _ E.
    destruct (IH eq_refl xs E) as [H1 H2].
    { intros b Hb Q t' l Hq. apply (L Q t' l). destruct b as [kb xb]. by eapply subtries_child. }
    assert (forall e, e ∈ wire_entries P (WTrie x c ws) <-> e ∈ flat_map (fun b => collected (P ++ c) b.2) ws) as Hw by done.
    split; [exact H1|]. intros e He. destruct (H2 e He) as [|([kb b] & Q & z & Hb & Hq & M & Hz)]; [by left|]. right. exists Q, z.
    split_and!; [by eapply subtries_child|done|done].
  - intros P n i _ xs E _. destruct xs; [|done]. split; intros e He; [done|by left].
  - intros P n i bs Hl [=].
  - intros P n i k h o bs ws b1 b2 _ IH1 _ IH2 [-> ->]%app_nil xs E L. destruct xs as [|[k' x] xs]; [done|]. cbn in E. injection E as <- E1 E2.
    destruct (IH1 eq_refl x E1) as [A1 A2]; [apply (L (k, x)); left|]. destruct (IH2 eq_refl xs E2) as [B1 B2]; [intros b Hb; apply L; by right|].
    cbn [flat_map fst snd]. split.
    + intros e [He|He]%elem_of_app; apply elem_of_app; [left; by apply A1|right; by apply B1].
    + intros e [He|He]%elem_of_app.
      * destruct (A2 e He) as [?|(Q & y & R)]; [left; apply elem_of_app; by left|]. right. exists (k, x), Q, y. split; [left|exact R].
      * destruct (B2 e He) as [?|(b & Q & y & Hb & R)]; [left; apply elem_of_app; by right|]. right. exists b, Q, y. split; [by right|exact R].
Qed.

(** A node fits into a message of its own, and a big value is not too large. *)
Definition sendable (P : list Z) (x : data) : Prop :=
  match x with
  | DLeaf _ l => (is_big l = true -> (12 <= length (vdata l))%nat /\ value_size l <= max_big) /\
      align8 (align8 (TRANSFER_HEADER + Z.of_nat (length P))) + wire_leaf_size l <= max_size
  | DTrie _ c bs => align8 (align8 (TRANSFER_HEADER + Z.of_nat (length P))) + wire_trie_size c (map fst bs) <= max_size
  end.

Lemma branch_of_bkey b : branch_of (bkey b) = b.
Proof. unfold bkey. by destruct (Z.eqb_spec b NONE) as [->|]. Qed.

Lemma subtries_below Q y P x : (Q, y) ∈ subtries P x -> Q = P /\ y = x \/ exists t c bs r, x = DTrie t c bs /\ Q = P ++ c ++ r.
Proof.
  revert P. induction x as [t l|t c bs IH] using data_induction; intros P H.
  - apply list_elem_of_singleton in H as [= -> ->]. by left.
  - cbn [subtries] in H. apply list.elem_of_cons in H as [[= -> ->]|H]; [by left|right]. apply elem_of_flat_map in H as (b & Hb & H). exists t, c, bs.
    destruct (proj1 (list.Forall_forall _ _) IH b Hb _ H) as [[-> _]|(? & c' & ? & r & _ & ->)]; [exists []|exists (c' ++ r)]; by rewrite ?app_nil_r, <- ?app_assoc.
Qed.

Lemma find_leaf_trie t c bs rest k y : NoDup (map fst bs) -> (k, y) ∈ bs -> branch_of rest = k -> find_leaf (DTrie t c bs) (c ++ rest) = find_leaf y rest.
Proof.
  intros N Hy E. cbn [find_leaf]. rewrite after_prefix_app. induction bs as [|[k' z] bs IH]; [by apply not_elem_of_nil in Hy|].
  cbn [map fst] in N. apply list.NoDup_cons in N as [Hk N]. apply list.elem_of_cons in Hy as [[= <- <-]|Hy]; [by rewrite E, Z.eqb_refl|].
  destruct (Z.eqb_spec k' (branch_of rest)) as [->|]; [|by apply IH]. destruct Hk. apply list_elem_of_fmap. exists (k, y). by rewrite E.
Qed.

Lemma find_leaf_lands x : canonical x -> forall P Q t l rest, (Q, DLeaf t l) ∈ subtries P x -> P ++ rest = Q ++ bkey (branch_key l) -> find_leaf x rest = Some l.
Proof.
  induction x as [t' l'|t' c bs IH] using data_induction; intros C P Q t l rest H E.
  - apply list_elem_of_singleton in H as [= -> -> ->]. done.
  - cbn [subtries] in H. apply list.elem_of_cons in H as [[=]|H]. apply elem_of_flat_map in H as ([k y] & Hy & H). cbn [snd] in H.
    inversion C as [|? ? ? _ _ N%sorted_nodup F]; subst. destruct (proj1 (list.Forall_forall _ _) F _ Hy) as (Hk & Ek & Cy). cbn [fst snd] in *.
    assert (exists r, Q = P ++ c ++ r /\ branch_of (r ++ bkey (branch_key l)) = k) as (r & -> & Eb).
    { apply subtries_below in H as [[-> <-]|(? & c' & ? & r & -> & ->)].
      - exists []. rewrite app_nil_r. cbn [app]. by rewrite branch_of_bkey.
      - exists (c' ++ r). rewrite <- app_assoc. split; [done|]. cbn [first_byte] in Ek. destruct c' as [|b c']; [lia|done]. }
    rewrite <- !app_assoc in E. apply app_inv_head in E. subst rest. rewrite (find_leaf_trie _ _ _ _ k y) by done.
    rewrite list.Forall_forall in IH. apply (IH _ Hy Cy (P ++ c) _ t l _ H). cbn [snd]. by rewrite <- !app_assoc.
Qed.

Lemma lands_root d : root = Some d -> canonical d -> lands [] d.
Proof. intros E C Q t l H. unfold find_root. rewrite E. by eapply (find_leaf_lands d C [] Q t l). Qed.

Lemma walkable_data x : forall P h, canonical x -> erase h = ideal P x -> lands P x -> (forall Q y, (Q, y) ∈ subtries P x -> sendable Q y) -> walkable P h.
Proof.
  induction x as [t l|t c bs IH] using data_induction; intros P h C E L Hs.
  - destruct h as [p t' b y|]; [|done]. injection E as -> -> ->. destruct (Hs P (DLeaf t l) ltac:(left)) as [H1 H2].
    apply (walk_leaf P p t (branch_key l) _ l); try done. apply (L P t l). left.
  - destruct h as [|p t' c' y hbs]; [done|]. cbn [erase hashfacts.ideal] in E. injection E as -> -> _ E.
    assert (map fst hbs = map fst bs) as Ek.
    { apply (f_equal (map fst)) in E. rewrite !map_map in E. exact E. }
    inversion C as [|? ? ? _ C2 N%sorted_nodup F]; subst. apply walk_trie.
    + by rewrite Ek.
    + rewrite <- (length_map fst), Ek, length_map. lia.
    + apply list.Forall_forall. intros [k z] Hz. assert ((k, erase z) ∈ ideal_branches blake3 has_big (P ++ c) bs) as Hi.
      { unfold ideal_branches. rewrite <- E. apply list_elem_of_fmap. by exists (k, z). }
      apply list_elem_of_fmap in Hi as ([k' x] & [= -> Ez] & Hx). destruct (proj1 (list.Forall_forall _ _) F _ Hx) as (H1 & H2 & H3). cbn [fst snd] in *.
      split; [done|]. split.
      * rewrite <- H2. destruct z, x; try discriminate Ez; cbn [erase hashfacts.ideal] in Ez; injection Ez; intros; by subst.
      * rewrite list.Forall_forall in IH. apply (IH _ Hx); [done|done| |].
        -- intros Q t0 l Hq. apply (L Q t0 l). by eapply subtries_child.
        -- intros Q x0 Hq. apply Hs. by eapply subtries_child.
    + rewrite Ek. apply (Hs P (DTrie t c bs)). left.
Qed.

End transfer.

(** C16: where the trie is one leaf or its root has a prefix (without one, entries are lost,
    [root_without_prefix_loses_entries]), the hash trie is that of the data, and each node
    fits into a message ([sendable]), the exchange ends; nothing is pending on either side;
    what the receiver has collected are entries of the sender, and every other entry is
    below a node whose hash the receiver has at the place where it looks for it. *)
Theorem exchange_delivers max_size max_depth local max_big blake3 has_big d h n :
  canonical d -> erase h = ideal blake3 has_big [] d -> (forall P x, (P, x) ∈ subtries [] d -> sendable max_size max_big P x) ->
  match d with DTrie _ c _ => c <> [] | DLeaf _ _ => True end -> (nodes h < n)%nat ->
  exists s r, exchange max_size max_depth (Some d) (Some h) local max_big n begin_sender begin_receiver = Some (s, r) /\
    pending s = [] /\ pending_children r = 0 /\ (forall e, e ∈ collected [] (temp_root r) -> e ∈ entries [] d) /\
    (forall e, e ∈ entries [] d -> e ∈ collected [] (temp_root r) \/
      exists P x, (P, x) ∈ subtries [] d /\ matched local blake3 has_big P x /\ e ∈ entries P x).
Proof.
  intros C E Hs Hp Hn. pose proof (lands_root (Some d) d eq_refl C) as L.
  assert (walkable max_size (Some d) max_big [] h) as W by by eapply walkable_data.
  assert (prefixed h) as Hp' by (destruct h, d; cbn [erase hashfacts.ideal] in E; try done; by injection E as _ -> _ _).
  destruct (exchange_all max_size max_depth (Some d) local max_big h n W Hp' Hn) as (s & r & Ex & B & Ep). exists s, r.
  destruct B as [(batch & S & Eb) _ _ B4]. rewrite Ep in Eb, B4. apply Permutation_nil_r in Eb. subst batch.
  destruct (proj1 (slot_entries (Some d) local blake3 has_big) [] h (temp_root r) [] S eq_refl d E L) as [H1 H2]. split_and!; done.
Qed.

(** ** Witnesses *)

Definition plain (t : Z) (k v : list Z) : data := DLeaf t (Leaf k v None).
Definition sample_hash (d : data) : hnode := ideal (fun x => x) false [] d.

(** The sender has changed [abc] and added [acx]; [acy] is the same on both sides. *)
Definition sent_trie : data := DTrie 2 [97] [(98, plain 2 [98; 99] [7]); (99, DTrie 2 [99] [(120, plain 2 [120] [1]); (121, plain 1 [121] [3])])].
Definition receiver_trie : data := DTrie 1 [97] [(98, plain 1 [98; 99] [5]); (99, plain 1 [99; 121] [3])].

Lemma sent_canonical : canonical sent_trie.
Proof. canonical_tac. Qed.

Lemma sent_sendable P x : (P, x) ∈ subtries [] sent_trie -> sendable 200 1000 P x.
Proof.
  intros H. cbn in H. rewrite !list.elem_of_cons, elem_of_nil in H.
  destruct H as [H|[H|[H|[H|[H|[]]]]]]; injection H as -> ->; cbn [sendable]; repeat split; (discriminate || (vm_compute; discriminate)).
Qed.

Lemma exchange_delivers_witness :
  exists s r, exchange 200 0 (Some sent_trie) (Some (sample_hash sent_trie)) (Some (sample_hash receiver_trie)) 1000 10 begin_sender begin_receiver = Some (s, r) /\
    pending s = [] /\ pending_children r = 0 /\ (forall e, e ∈ collected [] (temp_root r) -> e ∈ entries [] sent_trie) /\
    (forall e, e ∈ entries [] sent_trie -> e ∈ collected [] (temp_root r) \/
      exists P x, (P, x) ∈ subtries [] sent_trie /\ matched (Some (sample_hash receiver_trie)) (fun x => x) false P x /\ e ∈ entries P x).
Proof.
  apply (exchange_delivers 200 0 (Some (sample_hash receiver_trie)) 1000 (fun x => x) false sent_trie (sample_hash sent_trie) 10).
  - exact sent_canonical.
  - reflexivity.
  - exact sent_sendable.
  - discriminate.
  - cbn. lia.
Defined.

(** ** Where it goes wrong *)

(** The root has no prefix, and its second branch does not fit into the first message.
    It is sent with the path of the root, so it replaces what was collected, and [a]
    does not arrive. Both sides report success. *)
Definition rootless_trie : data := DTrie 1 [] [(97, plain 1 [97] [1]); (98, plain 1 [98] [2])].

Theorem root_without_prefix_loses_entries : exists s r,
  exchange 160 3 (Some rootless_trie) (Some (sample_hash rootless_trie)) None 1000 10 begin_sender begin_receiver = Some (s, r) /\
  pending s = [] /\ entries [] rootless_trie = [([97], Leaf [97] [1] None); ([98], Leaf [98] [2] None)] /\
  collected [] (temp_root r) = [([98], Leaf [98] [2] None)].
Proof. do 2 eexists. split; [vm_compute; reflexivity|]. by split_and!. Qed.

(** The receiver has the big value of [abc] already and says so, with the path of the
    whole key; the sender has noted the path of the branch, so it sends the value. *)
Definition big_place : list Z := [0; 16; 0; 0; 0; 0; 0; 0; 5; 0; 0; 0].
Definition big_trie (t v : Z) : data := DTrie t [97] [(98, DLeaf 1 (Leaf [98; 99] big_place (Some [1; 2; 3; 4; 5]))); (99, plain t [99] [v])].

Theorem known_big_value_is_sent : exists s r,
  exchange 1000 3 (Some (big_trie 2 8)) (Some (sample_hash (big_trie 2 8))) (Some (sample_hash (big_trie 1 7))) 1000 10 begin_sender begin_receiver = Some (s, r) /\
  trie_count r = 0 /\ collected [] (temp_root r) = [([97; 99], Leaf [99] [8] None)] /\ map pb_path (pending_big_values s) = [[97; 98]].
Proof. do 2 eexists. split; [vm_compute; reflexivity|]. by split_and!. Qed.

(** A node that does not fit into a message of its own is passed over. *)
Definition long_trie : data := DTrie 1 [97] [(98, plain 1 [98] [1]); (99, plain 1 [99] (repeat 0 100))].

Theorem unsendable_node_is_lost : exists s r,
  exchange 170 3 (Some long_trie) (Some (sample_hash long_trie)) None 1000 10 begin_sender begin_receiver = Some (s, r) /\
  pending s = [] /\ pending_children r = 1 /\ collected [] (temp_root r) = [([97; 98], Leaf [98] [1] None)].
Proof. do 2 eexists. split; [vm_compute; reflexivity|]. by split_and!. Qed.

End transferfacts.
