(* ===== verification/Merger.v ===== *)
(** * Merger: one trie merged into another

    Models [_Merger] and [StandardMergePolicy] of [util/_merger.hpp], with
    [_Transition::update] of [db/_cursor.hpp] and [copy_reduced_leaf] of
    [db/_inserter.hpp] as far as they are used. The destination is a tree whose nodes
    carry the page and the transaction they live in, so that copying, freeing and
    writing in place are visible; the source is only read, and may have holes where the
    offset of a child is zero. A step that allocates is one of [Hash]; pages of nodes and
    chunks of big values are both areas of the one storage, so they have one allocator. *)
From S2P Require Import Prelude Bytes Hash.

Module merger.

Definition NONE : Z := -1.

(** ** Data *)

(** A value: the bytes behind the key, or those of a chunk. *)
Inductive value :=
  | Small (bytes : list Z)
  | Big (chunk : Z) (bytes : list Z).

Record leaf := Leaf { key : list Z; val : value }.

Inductive node :=
  | LeafNode (page txn : Z) (l : leaf)
  | TrieNode (page txn : Z) (compressed : list Z) (branches : list (Z * node)).

(** The source; [None] is an offset that is zero. *)
Inductive source :=
  | SrcLeaf (l : leaf)
  | SrcTrie (compressed : list Z) (branches : list (Z * option source)).

(** The handler; the filters are [None] where the policy inherits them. *)
Record policy := Policy {
  may_overwrite : list Z -> value -> value -> bool;
  may_add_leaf : option (list Z -> value -> bool);
  may_add_trie : option (list Z -> bool)
}.

Definition StandardMergePolicy : policy := Policy (fun _ _ _ => true) None None.

Definition ask_leaf (P : policy) (k : list Z) (v : value) : bool :=
  match may_add_leaf P with Some f => f k v | None => true end.
Definition ask_trie (P : policy) (k : list Z) : bool :=
  match may_add_trie P with Some f => f k | None => true end.
Definition overrides (P : policy) : bool :=
  match may_add_leaf P, may_add_trie P with None, None => false | _, _ => true end.

(** What is asked of the allocators; the numbers are the arguments of the size
    functions of the nodes. *)
Inductive request :=
  | TriePair (prefix key1 key2 : Z)
  | TrieCount (prefix branches : Z)
  | ChangedLen (old_branches new_len : Z)
  | IncrementSize (old_len old_branches branch : Z)
  | LeafOf (key value : Z)
  | SameSlot (page : Z)
  | Chunk (value_size : Z).

Definition len (l : list Z) : Z := Z.of_nat (length l).
Definition count {X} (l : list X) : Z := Z.of_nat (length l).

(** The struct behind the key of a big leaf. *)
Definition big_struct (chunk : Z) (b : list Z) : list Z := bytes.le_bytes 8 chunk ++ bytes.le_bytes 4 (len b).
Definition vsize (v : value) : Z := match v with Small b => len b | Big c b => len (big_struct c b) end.

(** [clear_big]: what is left is the struct as a value. *)
Definition clear_big (l : leaf) : leaf :=
  Leaf (key l) (match val l with Small b => Small b | Big c b => Small (big_struct c b) end).

Fixpoint common_len (a b : list Z) : nat :=
  match a, b with
  | x :: a, y :: b => if x =? y then S (common_len a b) else 0
  | _, _ => 0
  end.

Definition branch_of (rest : list Z) : Z := match rest with [] => NONE | b :: _ => b end.

Fixpoint child {X} (k : Z) (bs : list (Z * X)) : option X :=
  match bs with [] => None | (j, x) :: bs => if j =? k then Some x else child k bs end.
Definition isset {X} (k : Z) (bs : list (Z * X)) : bool := match child k bs with Some _ => true | None => false end.

(** The array of a trie node, in the order of the branch keys. *)
Fixpoint put (k : Z) (x : node) (bs : list (Z * node)) : list (Z * node) :=
  match bs with
  | [] => [(k, x)]
  | (j, y) :: r => if k <? j then (k, x) :: bs else if k =? j then (k, x) :: r else (j, y) :: put k x r
  end.

(** ** The stack of the destination cursor *)

(** A transition above the last one: the branch it went down is taken out of its node. *)
Record frame := Frame {
  fpage : Z; ftxn : Z; fcompressed : list Z;
  fleft : list (Z * node); fkey : Z; fright : list (Z * node)
}.

Fixpoint plug (d : node) (fs : list frame) : node :=
  match fs with
  | [] => d
  | f :: fs => plug (TrieNode (fpage f) (ftxn f) (fcompressed f) (fleft f ++ (fkey f, d) :: fright f)) fs
  end.

(** [Transition::find]: the stack, the last node, how much of its prefix is equal, and
    whether [cmp] is zero. *)
Fixpoint find (d : node) (rest : list Z) (fs : list frame) : list frame * node * nat * bool :=
  match d with
  | LeafNode _ _ l =>
      let n := common_len rest (key l) in
      (fs, d, n, ((n =? length rest) && (n =? length (key l)))%nat)
  | TrieNode p t c bs =>
      let n := common_len rest c in
      if (n <? length c)%nat then (fs, d, n, false)
      else (fix go l r :=
        match r with
        | [] => (fs, d, n, false)
        | (k, x) :: r =>
            if k =? branch_of (drop n rest) then find x (drop n rest) (Frame p t c l k r :: fs)
            else go (l ++ [(k, x)]) r
        end) [] bs
  end.

(** Where the last node of the stack begins. *)
Fixpoint keypos (K : nat) (fs : list frame) : nat :=
  match fs with [] => K | f :: fs => (keypos K fs + length (fcompressed f))%nat end.

Section merger.
Context {A : Type} `{!NodePages A} (size_of : request -> Z) (txn : Z) (P : policy).
Import hashing (ret, bind, NoFuel).
#[local] Abbreviation M := (@hashing.M A).

Definition alloc (r : request) : M Z := @hashing.alloc_node A _ (size_of r).
Definition free (p : Z) : M unit := @hashing.free_hash_node A _ p.

(** ** Nodes *)

Definition free_node (d : node) : M unit :=
  match d with
  | LeafNode p _ l => bind (match val l with Big c _ => free c | Small _ => ret tt end) (fun _ => free p)
  | TrieNode p _ _ _ => free p
  end.

Definition migrate_big_value (v : value) : M value :=
  match v with
  | Small b => ret (Small b)
  | Big _ b => bind (alloc (Chunk (len b))) (fun c => ret (Big c b))
  end.

Definition fill_leaf (k : list Z) (v : value) : M node :=
  bind (migrate_big_value v) (fun v =>
    bind (alloc (LeafOf (len k) (vsize v))) (fun p => ret (LeafNode p txn (Leaf k v)))).

Definition new_trie (r : request) (c : list Z) (bs : list (Z * node)) : M node :=
  bind (alloc r) (fun p => ret (TrieNode p txn c bs)).

(** [update] of the transitions above: it stops at the first node that this
    transaction already owns. *)
Fixpoint update (fs : list frame) : M (list frame) :=
  match fs with
  | [] => ret []
  | f :: fs =>
      if ftxn f =? txn then ret (f :: fs)
      else bind (alloc (SameSlot (fpage f))) (fun p => bind (free (fpage f)) (fun _ =>
        bind (update fs) (fun fs => ret (Frame p txn (fcompressed f) (fleft f) (fkey f) (fright f) :: fs))))
  end.

(** ** Copies *)

(** The children of a source node that survive. *)
Definition survivors (copy : source -> M (option node)) : list (Z * option source) -> M (list (Z * node)) :=
  fix go bs :=
    match bs with
    | [] => ret []
    | (_, None) :: bs => go bs
    | (k, Some s) :: bs =>
        bind (copy s) (fun o => bind (go bs) (fun ds => ret (match o with Some d => (k, d) :: ds | None => ds end)))
    end.

Fixpoint selective_deep_copy (path : list Z) (s : source) : M (option node) :=
  match s with
  | SrcLeaf l =>
      if ask_leaf P (path ++ key l) (val l) then bind (fill_leaf (key l) (val l)) (fun d => ret (Some d))
      else ret None
  | SrcTrie c bs =>
      let path := if overrides P then path ++ c else path in
      if ask_trie P path then
        bind (survivors (selective_deep_copy path) bs) (fun ds =>
          match ds with
          | [] => ret None
          | _ => bind (new_trie (TrieCount (len c) (count ds)) c ds) (fun d => ret (Some d))
          end)
      else ret None
  end.

Definition copy_children (path : list Z) (bs : list (Z * option source)) : M (list (Z * node)) :=
  survivors (selective_deep_copy path) bs.

Definition own_key (s : source) : list Z := match s with SrcLeaf l => key l | SrcTrie c _ => c end.

(** ** Merging *)

Section node.
(** [merge_node], for the branches both tries have. *)
Context (merge : node -> nat -> list Z -> source -> M node).

Fixpoint merge_shared (start : nat) (ck : list Z) (d : node) (shared : list (Z * source)) : M node :=
  match shared with
  | [] => ret d
  | (_, s) :: shared => bind (merge d start ck s) (fun d => merge_shared start ck d shared)
  end.

(** The branches of the source that the destination has too, without the holes. *)
Fixpoint shared_branches (bs : list (Z * node)) (sbs : list (Z * option source)) : list (Z * source) :=
  match sbs with
  | [] => []
  | (k, Some s) :: sbs => if isset k bs then (k, s) :: shared_branches bs sbs else shared_branches bs sbs
  | (_, None) :: sbs => shared_branches bs sbs
  end.

Definition put_all (ds bs : list (Z * node)) : list (Z * node) := foldr (fun b bs => put b.1 b.2 bs) bs ds.

Definition expand_trie_with_branch (p : Z) (c : list Z) (bs : list (Z * node)) (k : Z) : M Z :=
  bind (alloc (IncrementSize (len c) (count bs) k)) (fun p' => bind (free p) (fun _ => ret p')).

(** The node [TrieNode p t c bs] ends where the destination cursor is, [ck] is the
    current key. *)
Definition merge_into_trie (fs : list frame) (p t : Z) (c : list Z) (bs : list (Z * node)) (start : nat)
    (ck : list Z) (s : source) : M node :=
  let pos := (start + length c)%nat in
  let suffix_len := (length ck - pos)%nat in
  match s with
  | SrcLeaf l =>
      if ask_leaf P ck (val l) then
        let k := branch_of (drop pos ck) in
        bind (expand_trie_with_branch p c bs k) (fun p' =>
        bind (fill_leaf (drop (length (key l) - suffix_len) (key l)) (val l)) (fun x =>
        bind (update fs) (fun fs => ret (plug (TrieNode p' txn c (put k x bs)) fs))))
      else ret (plug (TrieNode p t c bs) fs)
  | SrcTrie sc sbs =>
      if (0 <? suffix_len)%nat then
        bind (copy_children ck sbs) (fun ds =>
          match ds with
          | [] => ret (plug (TrieNode p t c bs) fs)
          | _ =>
              let suffix := drop (length sc - suffix_len) sc in
              let k := branch_of (drop pos ck) in
              bind (new_trie (TrieCount (len suffix) (count ds)) suffix ds) (fun x =>
              bind (expand_trie_with_branch p c bs k) (fun p' =>
              bind (update fs) (fun fs => ret (plug (TrieNode p' txn c (put k x bs)) fs))))
          end)
      else
        bind (copy_children ck (List.filter (fun b => negb (isset b.1 bs)) sbs)) (fun ds =>
        let bs' := put_all ds bs in
        bind (new_trie (TrieCount (len c) (count bs')) c bs') (fun d =>
        bind (update fs) (fun fs =>
        bind (merge_shared start ck d (shared_branches bs sbs)) (fun d =>
        bind (free p) (fun _ => ret (plug d fs))))))
  end.

(** The node at [start] parts from the key behind [prefix] bytes: [child1] is what is
    left of it there, [old] is the node itself. *)
Definition resolve_divergence (fs : list frame) (old : node) (start prefix : nat) (key1 : Z) (child1 : node)
    (path ck : list Z) (s : source) : M node :=
  let split_pos := (start + prefix)%nat in
  let src_split_pos := (split_pos - length path)%nat in
  let pre := take prefix (drop start ck) in
  match s with
  | SrcLeaf l =>
      if ask_leaf P ck (val l) then
        let k := branch_of (drop split_pos ck) in
        bind (alloc (TriePair (Z.of_nat src_split_pos) key1 k)) (fun p =>
        bind (update fs) (fun fs =>
        bind (fill_leaf (drop src_split_pos (key l)) (val l)) (fun x =>
          ret (plug (TrieNode p txn pre (put k x [(key1, child1)])) fs))))
      else ret (plug old fs)
  | SrcTrie sc sbs =>
      if (split_pos <? length ck)%nat then
        if ask_trie P ck then
          bind (copy_children ck sbs) (fun ds =>
            match ds with
            | [] => ret (plug old fs)
            | _ =>
                let suffix := drop src_split_pos sc in
                let k := branch_of (drop split_pos ck) in
                bind (new_trie (TrieCount (len suffix) (count ds)) suffix ds) (fun x =>
                bind (new_trie (TriePair (Z.of_nat src_split_pos) key1 k) pre (put k x [(key1, child1)])) (fun d =>
                bind (update fs) (fun fs => ret (plug d fs))))
            end)
        else ret (plug old fs)
      else
        bind (copy_children ck (List.filter (fun b => negb (b.1 =? key1)) sbs)) (fun ds =>
        bind (new_trie (TrieCount (Z.of_nat prefix) (1 + count ds)) pre (put key1 child1 ds)) (fun d =>
        bind (update fs) (fun fs =>
          match child key1 sbs with
          | Some (Some s') => bind (merge d start ck s') (fun d => ret (plug d fs))
          | _ => ret (plug d fs)
          end)))
  end.

(** [copy_reduced_leaf] takes the chunk along. *)
Definition merge_leaf_node (fs : list frame) (p t : Z) (l : leaf) (start prefix : nat) (exact : bool)
    (path ck : list Z) (s : source) : M node :=
  let diverge (x : node) (old : node) :=
    resolve_divergence fs old start prefix (branch_of (drop prefix (key l))) x path ck s in
  let reduced :=
    match prefix with
    | O => diverge (LeafNode p t l) (LeafNode p t l)
    | _ =>
        bind (alloc (LeafOf (len (key l) - Z.of_nat prefix) (vsize (val l)))) (fun p' =>
        let old := LeafNode p t (clear_big l) in
        bind (free_node old) (fun _ => diverge (LeafNode p' txn (Leaf (drop prefix (key l)) (val l))) old))
    end in
  match s with
  | SrcLeaf sl =>
      if exact then
        if may_overwrite P ck (val l) (val sl) then
          bind (fill_leaf (key l) (val sl)) (fun x => bind (free_node (LeafNode p t l)) (fun _ => ret (plug x fs)))
        else ret (plug (LeafNode p t l) fs)
      else reduced
  | SrcTrie _ _ => reduced
  end.

Definition merge_trie_node (fs : list frame) (p t : Z) (c : list Z) (bs : list (Z * node)) (start prefix : nat)
    (path ck : list Z) (s : source) : M node :=
  if (prefix =? length c)%nat then merge_into_trie fs p t c bs start ck s
  else
    bind (alloc (ChangedLen (count bs) (len c - Z.of_nat prefix))) (fun p' =>
    bind (free p) (fun _ =>
      resolve_divergence fs (TrieNode p t c bs) start prefix (branch_of (drop prefix c))
        (TrieNode p' txn (drop prefix c) bs) path ck s)).

Definition is_src_trie (s : source) : bool := match s with SrcTrie _ _ => true | SrcLeaf _ => false end.

(** The node where the cursor stopped; one step up from the leaf of the branch [NONE]
    where the source has a trie. *)
Definition merge_at (K : nat) (fs : list frame) (x : node) (prefix : nat) (exact : bool) (path ck : list Z) (s : source) : M node :=
  match x with
  | TrieNode p t c bs => merge_trie_node fs p t c bs (keypos K fs) prefix path ck s
  | LeafNode p t l =>
      match fs with
      | f :: fs' =>
          if bool_decide (key l = []) && is_src_trie s then
            merge_trie_node fs' (fpage f) (ftxn f) (fcompressed f) (fleft f ++ (fkey f, x) :: fright f) (keypos K fs')
              (length (fcompressed f)) path ck s
          else merge_leaf_node fs p t l (keypos K fs) prefix exact path ck s
      | [] => merge_leaf_node fs p t l (keypos K fs) prefix exact path ck s
      end
  end.
End node.

(** [d] begins at [K], [path] is the current key. *)
Fixpoint merge_node (n : nat) (d : node) (K : nat) (path : list Z) (s : source) : M node :=
  match n with
  | O => fun _ => NoFuel _
  | S n =>
      let ck := path ++ own_key s in
      let '(fs, x, prefix, exact) := find d (drop K ck) [] in
      merge_at (merge_node n) K fs x prefix exact path ck s
  end.

Definition exec (n : nat) (d : option node) (s : option source) : M (option node) :=
  match s, d with
  | None, _ => ret d
  | Some s, None => selective_deep_copy [] s
  | Some s, Some d => bind (merge_node n d 0 [] s) (fun d => ret (Some d))
  end.
End merger.
End merger.
