(* ===== verification/MergerFacts.v ===== *)
(** * MergerFacts: the merged trie holds both, and no page is lost

    For a policy that adds everything, and a source in which every node has something
    below it, the merged trie looks up each key as the policy says, it is a well-formed
    trie again, and the pages in use are those it links. *)
From Stdlib Require Import Sorted.
From S2P Require Import Prelude Hash HashFacts Merger.

Module mergerfacts.
Export merger.
Import hashing (ret, bind).
Import hashfacts (turns, turns_bind, turns_perm, turns_weaken, turns_ret, turns_alloc, turns_free, ends).

Lemma node_induction (Q : node -> Prop) : (forall p t l, Q (LeafNode p t l)) ->
  (forall p t c bs, Forall (fun b => Q b.2) bs -> Q (TrieNode p t c bs)) -> forall d, Q d.
Proof.
  intros HL HT. fix IH 1. intros [p t l|p t c bs]; [apply HL|apply HT].
  induction bs as [|b bs IHb]; constructor; [apply IH|exact IHb].
Qed.

Definition some_source (Q : source -> Prop) (o : option source) : Prop := match o with Some s => Q s | None => True end.

Lemma source_induction (Q : source -> Prop) : (forall l, Q (SrcLeaf l)) ->
  (forall c bs, Forall (fun b => some_source Q b.2) bs -> Q (SrcTrie c bs)) -> forall s, Q s.
Proof.
  intros HL HT. fix IH 1. intros [l|c bs]; [apply HL|apply HT].
  induction bs as [|[k [s|]] bs IHb]; constructor; [apply IH|exact IHb|exact I|exact IHb].
Qed.

(** ** Looking up *)

Section get.
Context {V : Type}.

Fixpoint get (l : list (list Z * V)) (K : list Z) : option V :=
  match l with [] => None | (J, v) :: l => if bool_decide (J = K) then Some v else get l K end.

Lemma get_app l k K : get (l ++ k) K = match get l K with Some v => Some v | None => get k K end.
Proof. induction l as [|[J v] l IH]; [done|]. cbn. case_bool_decide; [done|]. exact IH. Qed.

Lemma get_entry l K v : get l K = Some v -> (K, v) ∈ l.
Proof.
  induction l as [|[J w] l IH]; [done|]. cbn. case_bool_decide as E; [intros [= ->]; subst; left|]. intros H. right. by apply IH.
Qed.

(** The branches [bs] hold the entries of [f]; the next byte of a key is the branch. *)
Lemma get_branches {X} (f : X -> list (list Z * V)) (q : list Z) (bs : list (Z * X)) K : NoDup (map fst bs) ->
  Forall (fun b => forall J v, (J, v) ∈ f b.2 -> exists r, J = q ++ r /\ branch_of r = b.1) bs ->
  get (flat_map (fun b => f b.2) bs) K =
  if decide (q `prefix_of` K) then child (branch_of (drop (length q) K)) bs ≫= (fun x => get (f x) K) else None.
Proof.
  intros N F. induction bs as [|[k x] bs IH]; [by destruct (decide _)|]. cbn [flat_map map fst snd child] in *.
  apply list.NoDup_cons in N as [Hk N]. apply list.Forall_cons in F as [Fx F]. rewrite get_app, IH by done. clear IH.
  destruct (get (f x) K) as [v|] eqn:G.
  - apply get_entry in G as G'. destruct (Fx _ _ G') as (r & -> & E). rewrite decide_True by by exists r.
    rewrite drop_app_length, E. cbn [fst]. rewrite Z.eqb_refl. cbn. by rewrite G.
  - destruct (decide _) as [_|]; [|done]. destruct (Z.eqb_spec k (branch_of (drop (length q) K))) as [E|]; [|done]. cbn. rewrite G.
    subst k. assert (child (branch_of (drop (length q) K)) bs = None) as ->; [|done]. revert Hk. clear. induction bs as [|[j y] bs IH]; [done|].
    cbn. intros H. apply not_elem_of_cons in H as [H1 H2]. destruct (Z.eqb_spec j (branch_of (drop (length q) K))); [congruence|by apply IH].
Qed.
End get.

Fixpoint entries (kp : list Z) (d : node) : list (list Z * value) :=
  match d with
  | LeafNode _ _ l => [(kp ++ key l, val l)]
  | TrieNode _ _ c bs => flat_map (fun b => entries (kp ++ c) b.2) bs
  end.

Fixpoint src_entries (kp : list Z) (s : source) : list (list Z * value) :=
  match s with
  | SrcLeaf l => [(kp ++ key l, val l)]
  | SrcTrie c bs => flat_map (fun b => match b.2 with Some s => src_entries (kp ++ c) s | None => [] end) bs
  end.

Definition look (kp : list Z) (d : node) (K : list Z) : option value := get (entries kp d) K.
Definition src_look (kp : list Z) (s : source) (K : list Z) : option value := get (src_entries kp s) K.

(** ** Well-formed tries *)

Definition own (d : node) : list Z := match d with LeafNode _ _ l => key l | TrieNode _ _ c _ => c end.
Definition first_byte (d : node) : Z :=
  match d with LeafNode _ _ l => branch_of (key l) | TrieNode _ _ c _ => match c with [] => -2 | b :: _ => b end end.
Definition src_first (s : source) : Z :=
  match s with SrcLeaf l => branch_of (key l) | SrcTrie c _ => match c with [] => -2 | b :: _ => b end end.
Definition byte_key (l : list Z) : Prop := Forall (fun b => 0 <= b) l.

Definition present (bs : list (Z * option source)) : list (Z * option source) := List.filter (fun b => bool_decide (is_Some b.2)) bs.

Section shape.
(** The least number of branches: two in a trie without holes. *)
Context (m : nat).

Inductive shaped : node -> Prop :=
  | shaped_leaf p t l : byte_key (key l) -> shaped (LeafNode p t l)
  | shaped_trie p t c bs : byte_key c -> (m <= length bs)%nat -> StronglySorted Z.lt (map fst bs) ->
      Forall (fun b => -1 <= b.1 /\ first_byte b.2 = b.1 /\ shaped b.2) bs -> shaped (TrieNode p t c bs).

(** A source where every node has [m] children that are there. *)
Inductive src_shaped : source -> Prop :=
  | src_shaped_leaf l : byte_key (key l) -> src_shaped (SrcLeaf l)
  | src_shaped_trie c bs : byte_key c -> (m <= length (present bs))%nat -> StronglySorted Z.lt (map fst bs) ->
      Forall (fun b => -1 <= b.1 /\ forall s, b.2 = Some s -> src_first s = b.1 /\ src_shaped s) bs -> src_shaped (SrcTrie c bs).

Definition branches_ok (bs : list (Z * node)) : Prop :=
  StronglySorted Z.lt (map fst bs) /\ Forall (fun b => -1 <= b.1 /\ first_byte b.2 = b.1 /\ shaped b.2) bs.
Definition src_branches_ok (bs : list (Z * option source)) : Prop :=
  StronglySorted Z.lt (map fst bs) /\ Forall (fun b => -1 <= b.1 /\ forall s, b.2 = Some s -> src_first s = b.1 /\ src_shaped s) bs.

Lemma shaped_trie_inv p t c bs : shaped (TrieNode p t c bs) -> byte_key c /\ (m <= length bs)%nat /\ branches_ok bs.
Proof. by inversion 1. Qed.

Lemma src_shaped_trie_inv c bs : src_shaped (SrcTrie c bs) -> byte_key c /\ (m <= length (present bs))%nat /\ src_branches_ok bs.
Proof. by inversion 1. Qed.

Lemma entries_below d : forall kp K v, (K, v) ∈ entries kp d -> exists r, K = kp ++ own d ++ r.
Proof.
  induction d as [p t l|p t c bs IH] using node_induction; intros kp K v H; cbn [entries own] in *.
  - apply list_elem_of_singleton in H as [= -> _]. exists []. by rewrite app_nil_r.
  - apply list_elem_of_In, in_flat_map in H as (b & Hb & H). apply list_elem_of_In in Hb, H.
    destruct (proj1 (list.Forall_forall _ _) IH _ Hb _ _ _ H) as [r ->]. exists (own b.2 ++ r). by rewrite <- app_assoc.
Qed.

Lemma src_entries_below s : forall kp K v, (K, v) ∈ src_entries kp s -> exists r, K = kp ++ own_key s ++ r.
Proof.
  induction s as [l|c bs IH] using source_induction; intros kp K v H; cbn [src_entries own_key] in *.
  - apply list_elem_of_singleton in H as [= -> _]. exists []. by rewrite app_nil_r.
  - apply list_elem_of_In, in_flat_map in H as ([k o] & Hb & H). apply list_elem_of_In in Hb, H. cbn [snd] in H. destruct o as [s|]; [|by apply not_elem_of_nil in H].
    destruct (proj1 (list.Forall_forall _ _) IH _ Hb _ _ _ H) as [r ->]. exists (own_key s ++ r). by rewrite <- app_assoc.
Qed.

Lemma entries_leaf kp p t l K v : (K, v) ∈ entries kp (LeafNode p t l) -> K = kp ++ key l /\ v = val l.
Proof. cbn. intros H. by apply list_elem_of_singleton in H as [= -> ->]. Qed.

Lemma entries_branch d k q K v : first_byte d = k -> -1 <= k -> (K, v) ∈ entries q d -> exists r, K = q ++ r /\ branch_of r = k.
Proof.
  intros <- Hk H. destruct d as [p t l|p t [|b c] bs]; cbn [first_byte] in *.
  - apply entries_leaf in H as [-> _]. by eexists.
  - lia.
  - apply entries_below in H as [r ->]. cbn. by eexists.
Qed.

Lemma src_entries_branch s k q K v : src_first s = k -> -1 <= k -> (K, v) ∈ src_entries q s -> exists r, K = q ++ r /\ branch_of r = k.
Proof.
  intros <- Hk H. destruct s as [l|[|b c] bs]; cbn [src_first] in *.
  - cbn in H. apply list_elem_of_singleton in H as [= -> ->]. by eexists.
  - lia.
  - apply src_entries_below in H as [r ->]. cbn. by eexists.
Qed.

Lemma look_trie kp p t c bs K : branches_ok bs ->
  look kp (TrieNode p t c bs) K =
  if decide (kp ++ c `prefix_of` K) then child (branch_of (drop (length (kp ++ c)) K)) bs ≫= (fun x => look (kp ++ c) x K) else None.
Proof.
  intros [S F]. unfold look. cbn [entries]. rewrite (get_branches (fun x => entries (kp ++ c) x) (kp ++ c) bs K); [done|by apply hashfacts.sorted_nodup|].
  eapply Forall_impl; [|exact F]. intros b (H1 & H2 & _) J v. by apply entries_branch.
Qed.

Lemma src_look_trie kp c bs K : src_branches_ok bs ->
  src_look kp (SrcTrie c bs) K =
  if decide (kp ++ c `prefix_of` K) then
    match child (branch_of (drop (length (kp ++ c)) K)) bs with Some (Some s) => src_look (kp ++ c) s K | _ => None end
  else None.
Proof.
  intros [S F]. unfold src_look. cbn [src_entries].
  rewrite (get_branches (fun o => match o with Some s => src_entries (kp ++ c) s | None => [] end) (kp ++ c) bs K); [|by apply hashfacts.sorted_nodup|].
  - destruct (decide _); [|done]. by destruct (child _ bs) as [[s|]|].
  - eapply Forall_impl; [|exact F]. intros [k [s|]] [H1 H2] J v; cbn [fst snd] in *; [|by intros ?%not_elem_of_nil].
    destruct (H2 s eq_refl) as [H3 _]. by apply src_entries_branch.
Qed.

(** ** The stack *)

Fixpoint fpath (fs : list frame) : list Z := match fs with [] => [] | f :: fs => fpath fs ++ fcompressed f end.

(** The frames lead along [q]: [q] is what of the key lies below the last one. *)
Fixpoint route (fs : list frame) (q : list Z) : Prop :=
  match fs with [] => True | f :: fs => fkey f = branch_of q /\ route fs (fcompressed f ++ q) end.

(** Where a search stops. *)
Record stopped (rest : list Z) (fs : list frame) (x : node) (n : nat) (exact : bool) (pre tl ol : list Z) : Prop := {
  st_rest : rest = fpath fs ++ pre ++ tl;
  st_own : own x = pre ++ ol;
  st_prefix : n = length pre;
  st_parts : branch_of tl = branch_of ol -> tl = [] /\ ol = [];
  st_exact : exact = match x with LeafNode _ _ _ => bool_decide (tl = []) && bool_decide (ol = []) | TrieNode _ _ _ _ => false end;
  st_branch : match x with LeafNode _ _ _ => True | TrieNode _ _ _ bs => ol = [] -> child (branch_of tl) bs = None end;
  st_route : route fs (pre ++ tl)
}.

Lemma common_len_parts a : forall b, byte_key a -> byte_key b -> exists pre a' b', a = pre ++ a' /\ b = pre ++ b' /\ common_len a b = length pre /\
  (branch_of a' = branch_of b' -> a' = [] /\ b' = []).
Proof.
  induction a as [|x a IH]; intros [|y b] Ha Hb; [by exists [], [], []| | |].
  - exists [], [], (y :: b). split_and!; try done. apply list.Forall_cons in Hb as [? _]. unfold branch_of, NONE. cbn. lia.
  - exists [], (x :: a), []. split_and!; try done. apply list.Forall_cons in Ha as [? _]. unfold branch_of, NONE. cbn. lia.
  - apply list.Forall_cons in Ha as [Hx Ha], Hb as [Hy Hb]. cbn. destruct (Z.eqb_spec x y) as [->|Hne].
    + destruct (IH b Ha Hb) as (pre & a' & b' & -> & -> & E & H). exists (y :: pre), a', b'. split_and!; try done. cbn. by rewrite E.
    + exists [], (x :: a), (y :: b). split_and!; done.
Qed.

Lemma fpath_app fs gs : fpath (fs ++ gs) = fpath gs ++ fpath fs.
Proof. induction fs as [|f fs IH]; cbn; [by rewrite app_nil_r|]. by rewrite IH, app_assoc. Qed.

Lemma plug_app x fs gs : plug x (fs ++ gs) = plug (plug x fs) gs.
Proof. revert x. induction fs as [|f fs IH]; intros x; [done|]. cbn. apply IH. Qed.

Lemma route_app fs gs q : route (fs ++ gs) q <-> route fs q /\ route gs (fpath fs ++ q).
Proof.
  revert q. induction fs as [|f fs IH]; intros q; cbn; [tauto|]. rewrite IH. rewrite <- app_assoc. tauto.
Qed.

Lemma keypos_fpath K fs : keypos K fs = (K + length (fpath fs))%nat.
Proof. induction fs as [|f fs IH]; cbn; [lia|]. rewrite length_app. lia. Qed.

(** The part of [find] that goes through the branches. *)
Definition go_down (p t : Z) (c : list Z) (d : node) (n : nat) (rest : list Z) (fs : list frame) :=
  fix go (l r : list (Z * node)) :=
    match r with
    | [] => (fs, d, n, false)
    | (k, x) :: r =>
        if k =? branch_of (drop n rest) then find x (drop n rest) (Frame p t c l k r :: fs) else go (l ++ [(k, x)]) r
    end.

Lemma go_down_spec p t c d n rest fs r : forall l,
  (child (branch_of (drop n rest)) r = None /\ go_down p t c d n rest fs l r = (fs, d, n, false)) \/
  exists r1 x r2, r = r1 ++ (branch_of (drop n rest), x) :: r2 /\
    go_down p t c d n rest fs l r = find x (drop n rest) (Frame p t c (l ++ r1) (branch_of (drop n rest)) r2 :: fs).
Proof.
  induction r as [|[k x] r IH]; intros l; [by left|]. change (go_down p t c d n rest fs l ((k, x) :: r)) with
    (if k =? branch_of (drop n rest) then find x (drop n rest) (Frame p t c l k r :: fs) else go_down p t c d n rest fs (l ++ [(k, x)]) r).
  cbn [child]. destruct (Z.eqb_spec k (branch_of (drop n rest))) as [->|Hne].
  - right. exists [], x, r. by rewrite app_nil_r.
  - destruct (IH (l ++ [(k, x)])) as [[H1 H2]|(r1 & y & r2 & E & H)]; [by left|right].
    exists ((k, x) :: r1), y, r2. split; [by rewrite E|]. rewrite H. by rewrite <- app_assoc.
Qed.

Lemma merge_find_spec d : shaped d -> forall rest fs0, byte_key rest -> exists fs x n exact pre tl ol,
  find d rest fs0 = (fs ++ fs0, x, n, exact) /\ d = plug x fs /\ shaped x /\ stopped rest fs x n exact pre tl ol.
Proof.
  induction d as [p t l|p t c bs IH] using node_induction; intros Sd rest fs0 Hr.
  - inversion Sd as [? ? ? Hk|]; subst. destruct (common_len_parts rest (key l) Hr Hk) as (pre & tl & ol & E1 & E2 & E3 & E4).
    exists [], (LeafNode p t l), (length pre), (bool_decide (tl = []) && bool_decide (ol = [])), pre, tl, ol.
    split_and!; [|done..|by constructor]. cbn [find app]. rewrite E3. f_equal. rewrite E1, E2, !length_app.
    f_equal; [destruct tl|destruct ol]; cbn [length]; (rewrite bool_decide_eq_true_2 by done; apply Nat.eqb_eq; lia) ||
      (rewrite bool_decide_eq_false_2 by done; apply Nat.eqb_neq; lia).
  - apply shaped_trie_inv in Sd as Sd'. destruct Sd' as (Hc & Hm & HS & HF). destruct (common_len_parts rest c Hr Hc) as (pre & tl & ol & E1 & E2 & E3 & E4).
    change (find (TrieNode p t c bs) rest fs0) with (if (common_len rest c <? length c)%nat then (fs0, TrieNode p t c bs, common_len rest c, false)
      else go_down p t c (TrieNode p t c bs) (common_len rest c) rest fs0 [] bs). rewrite E3.
    destruct (Nat.ltb_spec (length pre) (length c)) as [Hlt|Hge].
    { exists [], (TrieNode p t c bs), (length pre), false, pre, tl, ol. split_and!; [done..|]. constructor; try done. intros ->.
      rewrite E2, length_app in Hlt. simpl in Hlt. lia. }
    assert (ol = []) as -> by (apply nil_length_inv; rewrite E2, length_app in Hge; lia). rewrite app_nil_r in E2. subst pre.
    destruct (go_down_spec p t c (TrieNode p t c bs) (length c) rest fs0 bs []) as [[H1 H2]|(r1 & x & r2 & Eb & H2)].
    { rewrite H2. rewrite E1, drop_app_length in H1. exists [], (TrieNode p t c bs), (length c), false, c, tl, [].
      split_and!; [done..|]. constructor; try done. by rewrite app_nil_r. }
    rewrite H2. rewrite E1, drop_app_length in *. cbn [app]. set (F := Frame p t c r1 (branch_of tl) r2).
    assert ((branch_of tl, x) ∈ bs) as Hx by (rewrite Eb; apply elem_of_app; right; left).
    rewrite list.Forall_forall in HF. destruct (HF _ Hx) as (_ & _ & Sx).
    rewrite list.Forall_forall in IH. unfold byte_key in Hr. apply Forall_app in Hr as [_ Hr].
    destruct (IH _ Hx Sx tl (F :: fs0) Hr) as (fs & y & n & ex & pre & tl' & ol & E & Ep & Sy & St). cbn [snd] in E, Ep.
    exists (fs ++ [F]), y, n, ex, pre, tl', ol. destruct St as [R1 R2 R3 R4 R5 R6 R7]. split_and!; [|by rewrite plug_app; cbn; rewrite <- Ep, Eb|done|].
    + by rewrite E, <- app_assoc.
    + constructor; try done; [by rewrite fpath_app, R1; cbn; rewrite app_assoc|]. apply route_app. split; [done|]. cbn. by rewrite R1.
Qed.

(** ** Pages *)

Definition chunks (v : value) : list Z := match v with Small _ => [] | Big c _ => [c] end.

Fixpoint pages (d : node) : list Z :=
  match d with
  | LeafNode p _ l => [p] ++ chunks (val l)
  | TrieNode p _ _ bs => [p] ++ flat_map (fun b => pages b.2) bs
  end.

Definition branch_pages (bs : list (Z * node)) : list Z := flat_map (fun b => pages b.2) bs.
Fixpoint frame_pages (fs : list frame) : list Z :=
  match fs with [] => [] | f :: fs => [fpage f] ++ branch_pages (fleft f) ++ branch_pages (fright f) ++ frame_pages fs end.

Lemma branch_pages_app bs cs : branch_pages (bs ++ cs) = branch_pages bs ++ branch_pages cs.
Proof. apply flat_map_app. Qed.

Lemma pages_plug x fs : pages (plug x fs) ≡ₚ pages x ++ frame_pages fs.
Proof.
  revert x. induction fs as [|f fs IH]; intros x; [by rewrite app_nil_r|]. cbn [plug]. rewrite IH. cbn [pages frame_pages].
  fold (branch_pages (fleft f ++ (fkey f, x) :: fright f)). rewrite branch_pages_app. change (branch_pages ((fkey f, x) :: fright f)) with (pages x ++ branch_pages (fright f)).
  solve_Permutation.
Qed.

(** ** Branches *)

Lemma child_in_keys {X} k (bs : list (Z * X)) x : child k bs = Some x -> (k, x) ∈ bs.
Proof.
  induction bs as [|[j y] bs IH]; [done|]. cbn. destruct (Z.eqb_spec j k) as [->|]; [intros [= ->]; left|]. intros H. right. by apply IH.
Qed.

Lemma no_child {X} k (bs : list (Z * X)) : child k bs = None <-> k ∉ map fst bs.
Proof.
  induction bs as [|[j y] bs IH]; [split; [intros _; apply not_elem_of_nil|done]|]. cbn. rewrite not_elem_of_cons. destruct (Z.eqb_spec j k) as [->|Hne]; [|rewrite IH].
  - split; [done|]. by intros [].
  - split; [|by intros []]. intros. by split; [congruence|].
Qed.

Lemma child_middle {X} j k (x : X) l r : k ∉ map fst l -> child j (l ++ (k, x) :: r) = if k =? j then Some x else child j (l ++ r).
Proof.
  induction l as [|[i y] l IH]; intros H; [done|]. cbn in *. apply not_elem_of_cons in H as [H1 H2]. rewrite IH by done.
  destruct (Z.eqb_spec i j) as [->|]; [|done]. by destruct (Z.eqb_spec k j).
Qed.

Lemma put_keys k x bs j : j ∈ map fst (put k x bs) <-> j = k \/ j ∈ map fst bs.
Proof.
  induction bs as [|[i y] bs IH]; [cbn; rewrite list_elem_of_singleton; split; [by left|intros [|H]; [done|by apply not_elem_of_nil in H]]|].
  cbn [put]. destruct (k <? i); [|destruct (Z.eqb_spec k i) as [->|]]; cbn [map fst]; rewrite !list.elem_of_cons, ?IH; tauto.
Qed.

Lemma put_sorted k x bs : StronglySorted Z.lt (map fst bs) -> StronglySorted Z.lt (map fst (put k x bs)).
Proof.
  induction bs as [|[i y] bs IH]; [intros _; repeat constructor|]. cbn. inversion 1 as [|? ? HS F]; subst.
  destruct (Z.ltb_spec k i) as [Hlt|Hge]; [|destruct (Z.eqb_spec k i) as [->|]; [done|]].
  - constructor; [done|]. constructor; [done|]. eapply Forall_impl; [|exact F]. cbn. lia.
  - cbn. constructor; [by apply IH|]. apply list.Forall_forall. intros j Hj. apply put_keys in Hj as [->|Hj]; [lia|].
    by apply (proj1 (list.Forall_forall _ _) F).
Qed.

Lemma child_put k x bs j : StronglySorted Z.lt (map fst bs) -> child j (put k x bs) = if k =? j then Some x else child j bs.
Proof.
  induction bs as [|[i y] bs IH]; [done|]. cbn. inversion 1 as [|? ? HS F]; subst.
  destruct (Z.ltb_spec k i) as [Hlt|Hge]; [done|]. destruct (Z.eqb_spec k i) as [->|Hne]; cbn; [by destruct (i =? j)|].
  rewrite IH by done. destruct (Z.eqb_spec i j) as [->|]; [|done]. by destruct (Z.eqb_spec k j).
Qed.

Lemma put_fresh k x bs : child k bs = None -> put k x bs ≡ₚ (k, x) :: bs.
Proof.
  induction bs as [|[i y] bs IH]; [done|]. cbn. destruct (Z.eqb_spec i k) as [->|Hne]; [done|]. intros H.
  destruct (k <? i); [done|]. destruct (Z.eqb_spec k i); [congruence|]. rewrite IH by done. apply Permutation_swap.
Qed.

Lemma branch_pages_perm bs cs : bs ≡ₚ cs -> branch_pages bs ≡ₚ branch_pages cs.
Proof. apply Permutation_flat_map. Qed.

Lemma put_pages k x bs : child k bs = None -> branch_pages (put k x bs) ≡ₚ pages x ++ branch_pages bs.
Proof. intros H. by rewrite (branch_pages_perm _ _ (put_fresh k x bs H)). Qed.

Lemma put_length k x bs : child k bs = None -> length (put k x bs) = S (length bs).
Proof. intros H. by rewrite (Permutation_length (put_fresh k x bs H)). Qed.

Lemma put_ok k x bs : branches_ok bs -> -1 <= k -> first_byte x = k -> shaped x -> branches_ok (put k x bs).
Proof.
  intros [HS F] Hk Hf Sx. split; [by apply put_sorted|]. clear HS. induction bs as [|[i y] bs IH]; [by constructor|].
  cbn. apply list.Forall_cons in F as [Fy F]. destruct (k <? i); [|destruct (k =? i)]; repeat (apply list.Forall_cons; split; try done). by apply IH.
Qed.

(** ** What a merge means *)

Context (overwrites : list Z -> value -> value -> bool).

(** A value without the place of its chunk. *)
Definition content (v : value) : bool * list Z := match v with Small b => (false, b) | Big _ b => (true, b) end.

Definition taken (r : option value) (w : value) : Prop := exists x, r = Some x /\ content x = content w.

(** The old value, the one of the source, the merged one. *)
Definition combined (K : list Z) (o e r : option value) : Prop :=
  match e, o with
  | None, _ => r = o
  | Some w, None => taken r w
  | Some w, Some v => if overwrites K v w then taken r w else r = o
  end.

Lemma combined_then K o e1 r1 e2 r2 : (e1 = None \/ e2 = None) -> combined K o e1 r1 -> combined K r1 e2 r2 ->
  combined K o (match e1 with Some v => Some v | None => e2 end) r2.
Proof. intros [E|E]; rewrite E; cbn; [by intros ->|]. destruct e1; by intros H ->. Qed.

(** [X] is [x] merged with the entries [e]; both are at the path [q], the keys of [e] go
    on with [rest]. A node that is not the root hangs at its first byte. *)
Record good (inner : Prop) (q rest : list Z) (e : list Z -> option value) (x X : node) : Prop := {
  gd_shape : shaped X;
  gd_look : forall K, combined K (look q x K) (e K) (look q X K);
  gd_first : inner -> first_byte x = branch_of rest -> first_byte X = branch_of rest
}.

Definition along (q rest : list Z) (e : list Z -> option value) : Prop :=
  forall K, e K <> None -> exists r, K = q ++ rest ++ r /\ (rest = [] -> r = []).

Definition same_frame (f g : frame) : Prop :=
  fcompressed f = fcompressed g /\ fleft f = fleft g /\ fkey f = fkey g /\ fright f = fright g.

Lemma middle_keys {X} (l : list (Z * X)) k x r : NoDup (map fst (l ++ (k, x) :: r)) -> k ∉ map fst l.
Proof. rewrite map_app. cbn. intros H. apply list.NoDup_app in H as (_ & H & _). intros Hk. apply (H _ Hk). left. Qed.

Lemma middle_ok l k x r X : branches_ok (l ++ (k, x) :: r) -> first_byte X = k -> shaped X -> branches_ok (l ++ (k, X) :: r).
Proof.
  intros [HS F] Hf HX. split.
  - rewrite map_app in *. exact HS.
  - apply Forall_app in F as [F1 F2]. apply list.Forall_cons in F2 as [(F0 & _ & _) F2]. apply Forall_app. split; [done|]. by constructor.
Qed.

Lemma good_frame inner kp q e x X f g : shaped (plug x [f]) -> same_frame f g -> fkey f = branch_of q -> along (kp ++ fcompressed f) q e ->
  good True (kp ++ fcompressed f) q e x X -> good inner kp (fcompressed f ++ q) e (plug x [f]) (plug X [g]).
Proof.
  intros Hs (E1 & E2 & E3 & E4) Ek Ha [G1 G2 G3]. cbn [plug] in *. rewrite <- E1, <- E2, <- E3, <- E4. apply shaped_trie_inv in Hs as (Hc & Hm & Hb).
  assert ((fkey f, x) ∈ fleft f ++ (fkey f, x) :: fright f) as Hx by (apply elem_of_app; right; left).
  assert (NoDup (map fst (fleft f ++ (fkey f, x) :: fright f))) as N by (apply hashfacts.sorted_nodup, Hb).
  destruct (proj1 (list.Forall_forall _ _) (proj2 Hb) _ Hx) as (Hk & Hf & _). cbn [fst snd] in *.
  assert (branches_ok (fleft f ++ (fkey f, X) :: fright f)) as Hb' by (apply (middle_ok _ _ x); [done| |done]; rewrite Ek; apply G3; [done|congruence]).
  constructor.
  - destruct Hb'. constructor; try done. rewrite length_app in *. exact Hm.
  - intros K. rewrite !look_trie by done. rewrite !(child_middle _ _ _ _ _ (middle_keys _ _ _ _ N)).
    destruct (decide _) as [[r ->]|Hn].
    + rewrite drop_app_length. destruct (Z.eqb_spec (fkey f) (branch_of r)) as [E|Hne]; [apply G2|].
      destruct (e _) as [w|] eqn:Ee; [|done]. destruct (Ha ((kp ++ fcompressed f) ++ r)) as (r' & E & H); [by rewrite Ee|].
      apply app_inv_head in E as ->. destruct Hne. rewrite Ek. destruct q; [by rewrite (H eq_refl)|done].
    + destruct (e K) as [w|] eqn:Ee; [|done]. destruct (Ha K) as (r' & -> & _); [by rewrite Ee|]. destruct Hn. by exists (q ++ r').
  - cbn [first_byte]. by destruct (fcompressed f).
Qed.

Lemma good_plug kp e fs : forall gs q x X, shaped (plug x fs) -> Forall2 same_frame fs gs -> route fs q -> along (kp ++ fpath fs) q e ->
  good (fs <> []) (kp ++ fpath fs) q e x X -> good (fs <> []) kp (fpath fs ++ q) e (plug x fs) (plug X gs).
Proof.
  induction fs as [|f fs IH]; intros gs q x X Hs HF Hr Ha Hg; inversion HF as [|? g ? gs' Hfg HF']; subst.
  { cbn in *. rewrite app_nil_r in *. exact Hg. }
  assert (good True (kp ++ fpath (f :: fs)) q e x X) as Hg' by (destruct Hg as [G1 G2 G3]; constructor; try done; intros _; by apply G3). clear Hg.
  cbn [plug fpath route] in *. destruct Hr as [Hr1 Hr2]. rewrite <- app_assoc.
  assert (forall y, shaped (plug y fs) -> shaped y) as Hin.
  { clear. induction fs as [|f fs IH]; intros y Hy; [done|]. cbn in Hy. apply IH in Hy. apply shaped_trie_inv in Hy as (_ & _ & _ & F).
    apply Forall_app in F as [_ F]. by apply list.Forall_cons in F as [(_ & _ & ?) _]. }
  destruct (IH gs' (fcompressed f ++ q) (plug x [f]) (plug X [g])) as [G1 G2 G3]; [done..| | |].
  - intros K HK. destruct (Ha K HK) as (r & -> & H). exists r. split; [by rewrite <- !app_assoc|]. intros [_ ?]%app_eq_nil. by apply H.
  - apply good_frame; try done; [by apply Hin|by rewrite <- app_assoc|by rewrite <- app_assoc].
  - constructor; [done..|]. intros _. destruct fs as [|f' fs']; [|by apply G3]. inversion HF'; subst. destruct Hfg as (E1 & _). cbn [plug first_byte]. by rewrite E1.
Qed.
End shape.

(** ** Steps *)

Section merging.
Context {A : Type} `{!NodePages A} (size_of : request -> Z) (txn : Z) (P : policy) (m : nat).
Hypothesis few : (1 <= m <= 2)%nat.
Hypothesis adds_leaf : forall K v, ask_leaf P K v = true.
Hypothesis adds_trie : forall K, ask_trie P K = true.

#[local] Abbreviation M := (@hashing.M A).
#[local] Abbreviation alloc := (@merger.alloc A _ size_of).
#[local] Abbreviation free := (@merger.free A _).
#[local] Abbreviation shaped := (shaped m).
#[local] Abbreviation src_shaped := (src_shaped m).
#[local] Abbreviation branches_ok := (branches_ok m).
#[local] Abbreviation combined := (combined (may_overwrite P)).
#[local] Abbreviation good := (good m (may_overwrite P)).
#[local] Abbreviation no_pages := (fun _ : unit => @nil Z).

Lemma alloc_step {Y} (py : Y -> list Z) r (f : Z -> M Y) old Q :
  (forall p, turns py (f p) ([p] ++ old) Q) -> turns py (bind (alloc r) f) old Q.
Proof. intros H. eapply (turns_bind (fun p => [p]) py _ _ [] old); [apply turns_alloc|]. intros p _. apply H. Qed.

Lemma free_step {Y} (py : Y -> list Z) p (f : unit -> M Y) old Q : turns py (f tt) old Q -> turns py (bind (free p) f) ([p] ++ old) Q.
Proof. intros H. eapply (turns_bind no_pages py _ _ [p] old); [apply turns_free|]. intros [] _. exact H. Qed.

Lemma any_step {X Y} (px : X -> list Z) (py : Y -> list Z) (a : M X) (f : X -> M Y) old more Q R :
  turns px a old R -> (forall x, R x -> turns py (f x) (px x ++ more) Q) -> turns py (bind a f) (old ++ more) Q.
Proof. apply turns_bind. Qed.

(** Rearranges the pages a step is given. *)
#[local] Ltac given old := apply (turns_perm _ _ old); [solve_Permutation|].

Lemma migrate_turns v : turns chunks (migrate_big_value size_of v) [] (fun v' => content v' = content v).
Proof.
  destruct v as [b|c b]; [by apply turns_ret|]. apply alloc_step. intros p. by apply turns_ret.
Qed.

Lemma fill_leaf_turns k v : turns pages (fill_leaf size_of txn k v) []
  (fun d => exists p v', d = LeafNode p txn (Leaf k v') /\ content v' = content v).
Proof.
  given (@nil Z ++ []). eapply any_step; [apply migrate_turns|]. intros v' E. apply alloc_step. intros p.
  apply turns_ret; [by exists p, v'|]. cbn. by rewrite app_nil_r.
Qed.

Lemma new_trie_turns r c bs : turns pages (new_trie size_of txn r c bs) (branch_pages bs) (fun d => exists p, d = TrieNode p txn c bs).
Proof. apply alloc_step. intros p. apply turns_ret; [by exists p|done]. Qed.

Lemma free_leaf_turns p t l : turns no_pages (free_node (LeafNode p t l)) (pages (LeafNode p t l)) (fun _ => True).
Proof.
  cbn [free_node pages]. given (chunks (val l) ++ [p]). eapply (any_step no_pages no_pages _ _ _ _ _ (fun _ => True)).
  - destruct (val l) as [b|c b]; [by apply turns_ret|apply turns_free].
  - intros _ _. apply turns_free.
Qed.

Lemma free_cleared_turns p t l : turns no_pages (free_node (LeafNode p t (clear_big l))) [p] (fun _ => True).
Proof.
  cbn [free_node]. given ([] ++ [p]). eapply (any_step no_pages no_pages _ _ _ _ _ (fun _ => True)); [|intros _ _; apply turns_free].
  cbn. destruct (val l); by apply turns_ret.
Qed.

Lemma update_turns fs : turns frame_pages (update size_of txn fs) (frame_pages fs) (Forall2 same_frame fs).
Proof.
  induction fs as [|f fs IH]; [by apply turns_ret|]. cbn [update]. destruct (ftxn f =? txn).
  - apply turns_ret; [|done]. apply Forall2_same_length_lookup_2; [done|]. intros i x y Hx Hy. by assert (x = y) as -> by congruence.
  - cbn [frame_pages]. apply alloc_step. intros p. set (L := branch_pages (fleft f)). set (R := branch_pages (fright f)).
    given ([fpage f] ++ frame_pages fs ++ [p] ++ L ++ R). apply free_step. eapply any_step; [exact IH|].
    intros gs HF. apply turns_ret; [by constructor|]. cbn [frame_pages fpage fleft fright]. fold L R. solve_Permutation.
Qed.

(** ** Copies *)

Record copy_of (s : source) (d : node) : Prop := {
  co_shape : shaped d;
  co_first : first_byte d = src_first s;
  co_look : forall q K, combined K None (src_look q s K) (look q d K)
}.

Definition copied_branches (sbs : list (Z * option source)) (ds : list (Z * node)) : Prop :=
  Forall2 (fun b d => b.1 = d.1 /\ exists s, b.2 = Some s /\ copy_of s d.2) (present sbs) ds.

Lemma copied_child sbs ds j : NoDup (map fst sbs) -> copied_branches sbs ds ->
  match child j sbs with Some (Some s) => exists d, child j ds = Some d /\ copy_of s d | _ => child j ds = None end.
Proof.
  unfold copied_branches. revert ds. induction sbs as [|[k o] sbs IH]; intros ds N H; [by inversion H|]. cbn [map fst] in N. apply list.NoDup_cons in N as [Hk N].
  unfold present in H. cbn [List.filter snd] in H. destruct o as [s|].
  - rewrite bool_decide_eq_true_2 in H by done. inversion H as [|? [k' d] ? ds' Hp H']; subst. destruct Hp as (E & s' & Es & C).
    cbn [fst snd] in *. injection Es as <-. subst k'.
    cbn [child]. destruct (k =? j); [by exists d|]. by apply IH.
  - rewrite bool_decide_eq_false_2 in H by by intros []. cbn [child]. destruct (Z.eqb_spec k j) as [->|]; [|by apply IH].
    specialize (IH ds N H). by rewrite (proj2 (no_child j sbs) Hk) in IH.
Qed.

Lemma copied_ok sbs ds : src_branches_ok m sbs -> copied_branches sbs ds -> branches_ok ds.
Proof.
  intros [HS F] H. unfold copied_branches in H.
  assert (map fst ds = map fst (present sbs)) as E by (clear -H; induction H as [|? ? ? ? [E _] _ IH]; [done|cbn; by rewrite IH, E]).
  split.
  - rewrite E. clear -HS. unfold present. induction sbs as [|[k o] sbs IH]; [constructor|]. cbn in HS. inversion HS as [|? ? HS' Hk]; subst.
    cbn [List.filter snd]. destruct (bool_decide _); [|by apply IH]. cbn. constructor; [by apply IH|].
    apply list.Forall_forall. intros j Hj. apply list_elem_of_fmap in Hj as (b & -> & Hb). apply (proj1 (list.Forall_forall _ _) Hk).
    apply list_elem_of_In, filter_In in Hb as [Hb _]. apply list_elem_of_fmap. exists b. split; [done|by apply list_elem_of_In].
  - apply list.Forall_forall. intros d Hd. apply list_elem_of_lookup in Hd as [i Hd]. destruct (Forall2_lookup_r _ _ _ _ _ H Hd) as (b & Hb & E1 & s & E2 & [C1 C2 C3]).
    apply list_elem_of_lookup_2, list_elem_of_In, filter_In in Hb as [Hb _]. apply list_elem_of_In in Hb.
    destruct (proj1 (list.Forall_forall _ _) F _ Hb) as [Hk Hs]. destruct (Hs s E2) as [Hf _]. rewrite <- E1. by rewrite C2.
Qed.

Definition node_pages (o : option node) : list Z := match o with Some d => pages d | None => [] end.

Lemma survivors_turns (copy : source -> M (option node)) sbs :
  Forall (fun b => forall s, b.2 = Some s -> turns node_pages (copy s) [] (fun o => exists d, o = Some d /\ copy_of s d)) sbs ->
  turns branch_pages (survivors copy sbs) [] (copied_branches sbs).
Proof.
  induction 1 as [|[k o] sbs Hs _ IH]; [apply turns_ret; [constructor|done]|]. unfold copied_branches, present. cbn [survivors List.filter snd] in *. destruct o as [s|].
  - rewrite bool_decide_eq_true_2 by done. given (@nil Z ++ []). eapply any_step; [by apply Hs|]. cbn beta. intros o (d & -> & C).
    given ([] ++ pages d). eapply any_step; [exact IH|]. intros ds Hds. apply turns_ret; [constructor; [by split; [|exists s]|done]|].
    cbn [branch_pages flat_map snd]. fold (branch_pages ds). solve_Permutation.
  - rewrite bool_decide_eq_false_2 by by intros []. exact IH.
Qed.

Lemma copied_look sbs ds c p t q K : src_branches_ok m sbs -> copied_branches sbs ds ->
  combined K None (src_look q (SrcTrie c sbs) K) (look q (TrieNode p t c ds) K).
Proof.
  intros Hs Hc. rewrite (src_look_trie m) by done. rewrite (look_trie m) by by eapply copied_ok. destruct (decide _) as [[r ->]|]; [|done].
  rewrite drop_app_length. pose proof (copied_child sbs ds (branch_of r) (hashfacts.sorted_nodup _ (proj1 Hs)) Hc) as H.
  destruct (child (branch_of r) sbs) as [[s|]|]; [|by rewrite H..]. destruct H as (d & -> & C). apply (co_look _ _ C).
Qed.

Lemma copied_length sbs ds : copied_branches sbs ds -> length ds = length (present sbs).
Proof. intros H. symmetry. by eapply Forall2_length. Qed.

Lemma copy_turns s : forall path, src_shaped s -> turns node_pages (selective_deep_copy size_of txn P path s) [] (fun o => exists d, o = Some d /\ copy_of s d).
Proof.
  induction s as [l|c bs IH] using source_induction; intros path Hs; cbn [selective_deep_copy].
  - rewrite adds_leaf. given (@nil Z ++ []). eapply any_step; [apply fill_leaf_turns|]. cbn beta. intros d (p & v & -> & E). apply turns_ret; [|by rewrite app_nil_r].
    eexists. split; [done|]. inversion Hs; subst. constructor; [by constructor|done|]. intros q K. unfold look, src_look. cbn.
    case_bool_decide; [|done]. by exists v.
  - rewrite adds_trie. apply src_shaped_trie_inv in Hs as (Hc & Hm & Hb). given (@nil Z ++ []). eapply any_step.
    + apply survivors_turns. apply list.Forall_forall. intros [k o] Hx s E. cbn in E. subst o. pose proof (proj1 (list.Forall_forall _ _) IH _ Hx) as Hi. apply Hi.
      destruct (proj1 (list.Forall_forall _ _) (proj2 Hb) _ Hx) as [_ H]. by apply H.
    + intros ds Hds. rewrite app_nil_r. pose proof (copied_length _ _ Hds) as E. destruct ds as [|d0 ds0] eqn:Ed; [cbn in E; lia|]. rewrite <- Ed in *. clear Ed d0 ds0.
      given (branch_pages ds ++ []). eapply any_step; [apply new_trie_turns|].
      cbn beta. intros d [p ->]. apply turns_ret; [|by rewrite app_nil_r]. eexists. split; [done|]. pose proof (copied_ok _ _ Hb Hds) as [O1 O2].
      constructor; [constructor; [done|lia|done..]|done|]. intros q K. by apply copied_look.
Qed.

Lemma copy_children_turns path sbs : src_branches_ok m sbs -> turns branch_pages (copy_children size_of txn P path sbs) [] (copied_branches sbs).
Proof.
  intros [_ F]. apply survivors_turns. eapply Forall_impl; [|exact F]. intros b [_ H] s E. apply copy_turns. by apply H.
Qed.

(** ** Branches of a node *)

Definition merged (kp rest : list Z) (fs : list frame) (x : node) (e : list Z -> option value) (d : node) : Prop :=
  exists X gs, d = plug X gs /\ Forall2 same_frame fs gs /\ good (fs <> []) (kp ++ fpath fs) rest e x X.

Lemma same_frames_refl fs : Forall2 same_frame fs fs.
Proof. induction fs; by constructor. Qed.

Lemma finish_turns kp rest fs x X e : good (fs <> []) (kp ++ fpath fs) rest e x X ->
  turns pages (bind (update size_of txn fs) (fun gs => ret (plug X gs))) (pages X ++ frame_pages fs) (merged kp rest fs x e).
Proof.
  intros G. given (frame_pages fs ++ pages X). eapply any_step; [apply update_turns|]. cbn beta. intros gs HF. apply turns_ret; [by exists X, gs|].
  rewrite pages_plug. by rewrite Permutation_app_comm.
Qed.

(** A new branch. *)
Lemma look_put q c p t p' t' bs k y (e : list Z -> option value) : byte_key c -> branches_ok bs -> (m <= S (length bs))%nat -> child k bs = None -> -1 <= k ->
  first_byte y = k -> shaped y -> (forall K, e K <> None -> exists r, K = (q ++ c) ++ r /\ branch_of r = k) ->
  (forall K, combined K None (e K) (look (q ++ c) y K)) ->
  shaped (TrieNode p' t' c (put k y bs)) /\ forall K, combined K (look q (TrieNode p t c bs) K) (e K) (look q (TrieNode p' t' c (put k y bs)) K).
Proof.
  intros Hc Hb Hm Hk Hk1 Hf Hy He Hl. pose proof (put_ok m k y bs Hb Hk1 Hf Hy) as Hb'. split.
  - destruct Hb'. constructor; try done. by rewrite put_length.
  - intros K. rewrite !(look_trie m) by done. destruct (decide _) as [[r ->]|Hn].
    + rewrite drop_app_length, child_put by apply Hb. destruct (Z.eqb_spec k (branch_of r)) as [<-|Hne]; [by rewrite Hk|].
      destruct (e _) as [w|] eqn:E; [|done]. destruct (He ((q ++ c) ++ r)) as (r' & E1 & E2); [by rewrite E|]. apply app_inv_head in E1 as ->. congruence.
    + destruct (e K) as [w|] eqn:E; [|done]. destruct (He K) as (r' & E1 & _); [by rewrite E|]. destruct Hn. by exists r'.
Qed.

Lemma split_good inner q pre tl e old child1 key1 k y p' : (inner -> pre <> []) -> byte_key pre -> shaped child1 -> first_byte child1 = key1 -> -1 <= key1 ->
  entries (q ++ pre) child1 = entries q old -> k <> key1 -> -1 <= k -> first_byte y = k -> shaped y ->
  (forall K, e K <> None -> exists r, K = (q ++ pre) ++ r /\ branch_of r = k) -> (forall K, combined K None (e K) (look (q ++ pre) y K)) ->
  good inner q (pre ++ tl) e old (TrieNode p' txn pre (put k y [(key1, child1)])).
Proof.
  intros Hi Hp S1 F1 K1 Eo Hk Hk1 Fy Sy He Hl.
  destruct (look_put q pre 0 0 p' txn [(key1, child1)] k y e) as [H1 H2]; try done.
  - split; [by repeat constructor|]. by apply list.Forall_singleton.
  - simpl. lia.
  - cbn. destruct (Z.eqb_spec key1 k); congruence.
  - constructor; [done| |].
    + intros K. specialize (H2 K). unfold look at 1 in H2. cbn [entries flat_map snd] in H2. rewrite app_nil_r, Eo in H2. exact H2.
    + intros Hin _. cbn [first_byte]. destruct pre as [|b pre']; [by destruct (Hi Hin)|done].
Qed.

(** ** Branches of the source *)

Fixpoint picked (f : Z -> bool) (sbs : list (Z * option source)) : list (Z * source) :=
  match sbs with
  | [] => []
  | (k, Some s) :: sbs => if f k then (k, s) :: picked f sbs else picked f sbs
  | (_, None) :: sbs => picked f sbs
  end.

Fixpoint picked_look (ck : list Z) (l : list (Z * source)) (K : list Z) : option value :=
  match l with [] => None | (_, s) :: l => match src_look ck s K with Some v => Some v | None => picked_look ck l K end end.

Lemma child_filter {X} (f : Z -> bool) (bs : list (Z * X)) j : child j (List.filter (fun b => f b.1) bs) = if f j then child j bs else None.
Proof.
  induction bs as [|[k x] bs IH]; [by destruct (f j)|]. cbn [List.filter fst child]. destruct (Z.eqb_spec k j) as [->|Hne].
  - destruct (f j) eqn:E; [cbn; by rewrite Z.eqb_refl|]. by rewrite IH.
  - destruct (f k); [|done]. cbn. destruct (Z.eqb_spec k j); [done|]. exact IH.
Qed.

Lemma filter_ok (f : Z -> bool) sbs : src_branches_ok m sbs -> src_branches_ok m (List.filter (fun b => f b.1) sbs).
Proof.
  intros [HS F]. induction sbs as [|[k o] sbs IH]; [done|]. cbn [map fst] in HS. inversion HS as [|? ? HS' Hk]; subst. apply list.Forall_cons in F as [Fk F].
  destruct (IH HS' F) as [I1 I2]. cbn [List.filter fst]. destruct (f k); [|done]. split; [|by apply list.Forall_cons]. cbn. constructor; [done|].
  apply list.Forall_forall. intros j Hj. apply list_elem_of_fmap in Hj as (b & -> & Hb). apply list_elem_of_In, filter_In in Hb as [Hb _].
  apply (proj1 (list.Forall_forall _ _) Hk). apply list_elem_of_fmap. exists b. split; [done|by apply list_elem_of_In].
Qed.

Lemma src_look_branch s k q K : src_first s = k -> -1 <= k -> src_look q s K <> None -> exists r, K = q ++ r /\ branch_of r = k.
Proof. intros Hf Hk H. unfold src_look in H. destruct (get _ K) as [v|] eqn:E; [|done]. apply get_entry in E. by eapply src_entries_branch. Qed.

Lemma look_branch d k q K : first_byte d = k -> -1 <= k -> look q d K <> None -> exists r, K = q ++ r /\ branch_of r = k.
Proof. intros Hf Hk H. unfold look in H. destruct (get _ K) as [v|] eqn:E; [|done]. apply get_entry in E. by eapply entries_branch. Qed.

Lemma picked_look_eq f sbs ck K : src_branches_ok m sbs ->
  picked_look ck (picked f sbs) K =
  if decide (ck `prefix_of` K) then
    let j := branch_of (drop (length ck) K) in
    if f j then match child j sbs with Some (Some s) => src_look ck s K | _ => None end else None
  else None.
Proof.
  intros [HS F]. induction sbs as [|[k o] sbs IH]; [cbn; repeat case_match; done|]. cbn [map fst] in HS. inversion HS as [|? ? HS' Hk]; subst.
  apply list.Forall_cons in F as [[F1 F2] F]. specialize (IH HS' F). cbn [fst snd picked child] in *.
  assert (child k sbs = None) as Hno by (apply no_child; intros H; apply (proj1 (list.Forall_forall _ _) Hk) in H; lia).
  destruct o as [s|].
  - destruct (F2 s eq_refl) as [Hf _]. assert (picked_look ck (if f k then (k, s) :: picked f sbs else picked f sbs) K =
      match (if f k then src_look ck s K else None) with Some v => Some v | None => picked_look ck (picked f sbs) K end) as -> by (by destruct (f k)).
    rewrite IH. destruct (src_look ck s K) as [v|] eqn:E.
    + destruct (src_look_branch s k ck K Hf F1) as (r & -> & Ek); [by rewrite E|]. rewrite !decide_True by by exists r. rewrite drop_app_length, Ek, Z.eqb_refl. cbn zeta.
      destruct (f k); [by rewrite E|done].
    + destruct (decide _) as [[r ->]|]; [|by destruct (f k)]. rewrite drop_app_length in *. cbn zeta.
      destruct (Z.eqb_spec k (branch_of r)) as [<-|]; [|by destruct (f k)]. rewrite Hno, E. by destruct (f k).
  - rewrite IH. destruct (decide _) as [_|]; [|done]. cbn zeta. destruct (Z.eqb_spec k (branch_of (drop (length ck) K))) as [<-|]; [|done]. by rewrite Hno.
Qed.

(** The source is what is copied and what is merged. *)
Lemma src_look_split (f : Z -> bool) path c sbs K : src_branches_ok m sbs ->
  src_look path (SrcTrie c sbs) K =
  match src_look path (SrcTrie c (List.filter (fun b => negb (f b.1)) sbs)) K with
  | Some v => Some v
  | None => picked_look (path ++ c) (picked f sbs) K
  end /\
  (src_look path (SrcTrie c (List.filter (fun b => negb (f b.1)) sbs)) K = None \/ picked_look (path ++ c) (picked f sbs) K = None).
Proof.
  intros H. rewrite !(src_look_trie m) by (done || by apply (filter_ok (fun k => negb (f k)))). rewrite picked_look_eq by done.
  destruct (decide _); [|by split; [|left]]. rewrite (child_filter (fun k => negb (f k))). cbn zeta.
  destruct (f (branch_of _)); cbn; [by split; [|left]|]. split; [|by right]. by destruct (child _ sbs) as [[s|]|]; [destruct (src_look _ _ _)|..].
Qed.

(** ** A new leaf or a new subtrie *)

Lemma leaf_supports path l q tl : path ++ key l = q ++ tl ->
  forall K, src_look path (SrcLeaf l) K <> None -> exists r, K = q ++ r /\ branch_of r = branch_of tl.
Proof.
  intros E K H. unfold src_look in H. cbn in H. case_bool_decide as Ek; [|done]. exists tl. by rewrite <- Ek, E.
Qed.

Lemma trie_supports path c sbs q tl : path ++ c = q ++ tl -> tl <> [] ->
  forall K, src_look path (SrcTrie c sbs) K <> None -> exists r, K = q ++ r /\ branch_of r = branch_of tl.
Proof.
  intros E Ht K H. unfold src_look in H. destruct (get _ K) as [v|] eqn:G; [|done]. apply get_entry in G. apply src_entries_below in G as [r ->].
  cbn [own_key]. rewrite app_assoc, E. exists (tl ++ r). split; [by rewrite app_assoc|]. by destruct tl.
Qed.

Lemma copied_below path c sbs ds q tl p K : src_branches_ok m sbs -> copied_branches sbs ds -> path ++ c = q ++ tl ->
  combined K None (src_look path (SrcTrie c sbs) K) (look q (TrieNode p txn tl ds) K).
Proof.
  intros Hs Hc E. assert (src_look path (SrcTrie c sbs) K = src_look q (SrcTrie tl sbs) K) as ->.
  { unfold src_look. cbn [src_entries]. by rewrite E. }
  by apply copied_look.
Qed.

Lemma key_branch_bound (l : list Z) : byte_key l -> -1 <= branch_of l.
Proof. intros H. destruct l as [|b l]; [done|]. apply list.Forall_cons in H as [? _]. cbn. lia. Qed.

Lemma drop_app_tail (w l : list Z) n : n = length w -> drop n (w ++ l) = l.
Proof. intros ->. apply drop_app_length. Qed.

(** ** The recursion *)

Definition same_trunk (d d' : node) : Prop :=
  exists p t p' t' c bs bs', d = TrieNode p t c bs /\ d' = TrieNode p' t' c bs' /\ map fst bs = map fst bs'.

Definition merges (merge : node -> nat -> list Z -> source -> M node) (s : source) : Prop :=
  forall q p t c bs, shaped (TrieNode p t c bs) -> src_shaped s -> isset (src_first s) bs = true ->
    turns pages (merge (TrieNode p t c bs) (length q) (q ++ c) s) (pages (TrieNode p t c bs)) (fun d =>
      shaped d /\ same_trunk (TrieNode p t c bs) d /\
      forall K, combined K (look q (TrieNode p t c bs) K) (src_look (q ++ c) s K) (look q d K)).

Lemma shared_turns merge q c l : forall p t bs, shaped (TrieNode p t c bs) -> NoDup (map fst l) ->
  Forall (fun b => merges merge b.2 /\ src_shaped b.2 /\ src_first b.2 = b.1 /\ isset b.1 bs = true) l ->
  turns pages (merge_shared merge (length q) (q ++ c) (TrieNode p t c bs) l) (pages (TrieNode p t c bs)) (fun d =>
    shaped d /\ same_trunk (TrieNode p t c bs) d /\ forall K, combined K (look q (TrieNode p t c bs) K) (picked_look (q ++ c) l K) (look q d K)).
Proof.
  induction l as [|[k s] l IH]; intros p t bs Hs N F; cbn [merge_shared].
  { apply turns_ret; [|done]. split; [done|]. split; [by exists p, t, p, t, c, bs, bs|done]. }
  apply list.Forall_cons in F as [(M1 & M2 & M3 & M4) F]. cbn [map fst snd] in *. apply list.NoDup_cons in N as [Hk N].
  given (pages (TrieNode p t c bs) ++ []). eapply any_step; [apply M1; [done..|by rewrite M3]|]. cbn beta. intros d (S1 & (p0 & t0 & p' & t' & c' & bs0 & bs' & [= <- <- <- <-] & -> & E) & L1).
  assert (forall j, isset j bs = true -> isset j bs' = true) as Hi.
  { intros j. unfold isset. destruct (child j bs) eqn:C1; [|done]. destruct (child j bs') eqn:C2; [done|]. apply no_child in C2. rewrite <- E in C2. apply no_child in C2. congruence. }
  rewrite app_nil_r. eapply turns_weaken; [apply IH; [done..|]|].
  - eapply Forall_impl; [|exact F]. intros b (? & ? & ? & ?). split_and!; try done. by apply Hi.
  - cbn beta. intros d (S2 & (p1 & t1 & p2 & t2 & c2 & bs1 & bs2 & [= <- <- <- <-] & -> & E2) & L2). split; [done|]. split.
    + exists p, t, p2, t2, c, bs, bs2. split_and!; try done. by rewrite E.
    + intros K. cbn [picked_look]. eapply combined_then; [|apply L1|apply L2].
      destruct (src_look (q ++ c) s K) as [v|] eqn:G; [right|by left].
      assert (-1 <= k) as H1.
      { unfold isset in M4. destruct (child k bs) as [x|] eqn:C; [|done]. apply child_in_keys in C. apply shaped_trie_inv in Hs as (_ & _ & _ & HF).
        by destruct (proj1 (list.Forall_forall _ _) HF _ C). }
      destruct (src_look_branch s k (q ++ c) K M3 H1) as (r & -> & Er); [by rewrite G|]. clear - Hk F Er Hs. induction l as [|[j s'] l IH]; [done|].
      cbn [map fst picked_look] in *. apply not_elem_of_cons in Hk as [Hne Hk]. apply list.Forall_cons in F as [(_ & _ & F1 & F2) F]. cbn [fst snd] in *.
      destruct (src_look (q ++ c) s' ((q ++ c) ++ r)) as [w|] eqn:G; [|by apply IH]. exfalso.
      assert (-1 <= j) as H1.
      { unfold isset in F2. destruct (child j bs) as [x|] eqn:C; [|done]. apply child_in_keys in C. apply shaped_trie_inv in Hs as (_ & _ & _ & HF).
        by destruct (proj1 (list.Forall_forall _ _) HF _ C). }
      destruct (src_look_branch s' j (q ++ c) ((q ++ c) ++ r) F1 H1) as (r' & E' & Er'); [by rewrite G|]. apply app_inv_head in E' as <-. congruence.
Qed.

(** ** Into a trie *)

Lemma put_all_facts ds bs : branches_ok bs -> branches_ok ds -> (forall j, j ∈ map fst ds -> child j bs = None) ->
  branches_ok (put_all ds bs) /\ (forall j, child j (put_all ds bs) = match child j ds with Some y => Some y | None => child j bs end) /\
  branch_pages (put_all ds bs) ≡ₚ branch_pages ds ++ branch_pages bs /\ (length bs <= length (put_all ds bs))%nat.
Proof.
  intros Hb [HS F] Hn. induction ds as [|[k y] ds IH]; [done|]. cbn [map fst] in *. inversion HS as [|? ? HS' Hk]; subst.
  apply list.Forall_cons in F as [(F1 & F2 & F3) F]. cbn [fst snd] in *. destruct IH as (I1 & I2 & I3 & I4); [done..|intros j Hj; apply Hn; by right|].
  cbn [put_all foldr fst snd]. fold (put_all ds bs).
  assert (child k (put_all ds bs) = None) as Hc.
  { rewrite I2, (Hn k) by left. assert (child k ds = None) as ->; [|done]. apply no_child. intros H. apply (proj1 (list.Forall_forall _ _) Hk) in H. lia. }
  split_and!.
  - by apply put_ok.
  - intros j. rewrite child_put by apply I1. cbn [child]. destruct (k =? j); [done|]. apply I2.
  - rewrite put_pages by done. rewrite I3. cbn [branch_pages flat_map snd]. by rewrite <- app_assoc.
  - rewrite put_length by done. lia.
Qed.

Lemma shared_picked bs sbs : shared_branches bs sbs = picked (fun k => isset k bs) sbs.
Proof. induction sbs as [|[k [s|]] sbs IH]; [done| |done]. cbn. by rewrite IH. Qed.

Lemma picked_facts f sbs : src_branches_ok m sbs -> NoDup (map fst (picked f sbs)) /\
  Forall (fun b => f b.1 = true /\ src_shaped b.2 /\ src_first b.2 = b.1 /\ (b.1, Some b.2) ∈ sbs) (picked f sbs).
Proof.
  intros [HS F]. induction sbs as [|[k o] sbs IH]; [by split; constructor|]. cbn [map fst] in HS. inversion HS as [|? ? HS' Hk]; subst.
  apply list.Forall_cons in F as [[F1 F2] F]. destruct (IH HS' F) as [I1 I2]. clear IH. cbn [fst snd picked] in *.
  assert (Forall (fun b : Z * source => f b.1 = true /\ src_shaped b.2 /\ src_first b.2 = b.1 /\ (b.1, Some b.2) ∈ (k, o) :: sbs) (picked f sbs)) as I2'.
  { eapply Forall_impl; [|exact I2]. intros b (? & ? & ? & ?). split_and!; try done. by right. }
  destruct o as [s|]; [|done]. destruct (f k) eqn:E; [|done]. destruct (F2 s eq_refl) as [H1 H2]. split.
  - cbn. apply list.NoDup_cons. split; [|done]. intros H. apply list_elem_of_fmap in H as (b & -> & Hb).
    apply (proj1 (list.Forall_forall _ _) I2) in Hb as (_ & _ & _ & Hb). assert (b.1 < b.1); [|lia]. apply (proj1 (list.Forall_forall _ _) Hk).
    apply list_elem_of_fmap. by exists (b.1, Some b.2).
  - apply list.Forall_cons. split; [|done]. cbn. split_and!; try done. left.
Qed.

(** What is copied into a trie, before the shared branches are merged. *)
Lemma copied_into q p t p' t' c bs path sc sbs ds : shaped (TrieNode p t c bs) -> src_branches_ok m sbs -> path ++ sc = q ++ c ->
  copied_branches (List.filter (fun b => negb (isset b.1 bs)) sbs) ds ->
  shaped (TrieNode p' t' c (put_all ds bs)) /\ pages (TrieNode p' t' c (put_all ds bs)) ≡ₚ [p'] ++ branch_pages ds ++ branch_pages bs /\
  (forall k, isset k bs = true -> isset k (put_all ds bs) = true) /\
  forall K, combined K (look q (TrieNode p t c bs) K) (src_look path (SrcTrie sc (List.filter (fun b => negb (isset b.1 bs)) sbs)) K)
    (look q (TrieNode p' t' c (put_all ds bs)) K).
Proof.
  intros Hs Hsb E Hc. apply shaped_trie_inv in Hs as (H1 & H2 & H3). pose proof (filter_ok (fun k => negb (isset k bs)) sbs Hsb) as Hf. cbn beta in Hf.
  pose proof (copied_ok _ _ Hf Hc) as Hd. set (fs := List.filter _ sbs) in *.
  assert (forall j, match child j fs with Some (Some s) => exists d, child j ds = Some d /\ copy_of s d | _ => child j ds = None end) as Hch
    by (intros j; apply copied_child; [apply hashfacts.sorted_nodup, Hf|done]).
  assert (forall j, isset j bs = true -> child j ds = None) as Hno.
  { intros j Hj. specialize (Hch j). unfold fs in Hch. by rewrite (child_filter (fun k => negb (isset k bs))), Hj in Hch. }
  destruct (put_all_facts ds bs H3 Hd) as (P1 & P2 & P3 & P4).
  { intros j Hj. destruct (child j bs) as [x|] eqn:Ex; [|done]. exfalso. assert (isset j bs = true) as Hi by (unfold isset; by rewrite Ex).
    apply Hno in Hi. by apply no_child in Hi. }
  split_and!.
  - destruct P1. constructor; try done. lia.
  - cbn [pages]. by rewrite <- P3.
  - intros k Hk. unfold isset in *. rewrite P2, (Hno k) by exact Hk. exact Hk.
  - intros K. rewrite !(look_trie m) by done. destruct (decide _) as [[r ->]|Hn].
    + rewrite drop_app_length, P2. specialize (Hch (branch_of r)). rewrite (src_look_trie m) by done. rewrite E, decide_True by by exists r. rewrite drop_app_length.
      destruct (isset (branch_of r) bs) eqn:Hi.
      * rewrite (Hno _ Hi). unfold fs. rewrite (child_filter (fun k => negb (isset k bs))), Hi. done.
      * assert (child (branch_of r) bs = None) as -> by (unfold isset in Hi; by destruct (child _ bs)).
        destruct (child (branch_of r) fs) as [[s|]|]; [|by rewrite Hch..]. destruct Hch as (d & -> & C). apply (co_look _ _ C).
    + rewrite (src_look_trie m) by done. rewrite E, decide_False by done. done.
Qed.

Lemma merge_into_turns merge fs kp p t c bs tl path s w : let q := kp ++ fpath fs in
  shaped (TrieNode p t c bs) -> src_shaped s -> (fs <> [] -> c <> []) -> path ++ own_key s = q ++ c ++ tl -> q = path ++ w -> byte_key tl ->
  (is_src_trie s = false \/ tl <> [] -> child (branch_of tl) bs = None) ->
  (forall k s', match s with SrcTrie _ sbs => (k, Some s') ∈ sbs | _ => False end -> merges merge s') ->
  turns pages (merge_into_trie size_of txn P merge fs p t c bs (length q) (path ++ own_key s) s) (pages (TrieNode p t c bs) ++ frame_pages fs)
    (merged kp (c ++ tl) fs (TrieNode p t c bs) (src_look path s)).
Proof.
  intros q Hs Hss Hc E Ew Htl Hbr Hrec. apply shaped_trie_inv in Hs as Hs'. destruct Hs' as (H1 & H2 & H3). unfold merge_into_trie.
  rewrite E. replace (drop (length q + length c) (q ++ c ++ tl)) with tl by (symmetry; rewrite app_assoc; apply drop_app_tail; by rewrite length_app).
  replace (length (q ++ c ++ tl) - (length q + length c))%nat with (length tl) by (rewrite !length_app; lia).
  assert (own_key s = w ++ c ++ tl) as Eo by (rewrite Ew, <- app_assoc in E; by apply app_inv_head in E).
  assert (forall y p' e, first_byte y = branch_of tl -> shaped y -> child (branch_of tl) bs = None -> (forall K, e K <> None -> exists r, K = (q ++ c) ++ r /\ branch_of r = branch_of tl) ->
    (forall K, combined K None (e K) (look (q ++ c) y K)) -> good (fs <> []) q (c ++ tl) e (TrieNode p t c bs) (TrieNode p' txn c (put (branch_of tl) y bs))) as Hput.
  { intros y p' e Hf Hy Hb He Hl. destruct (look_put q c p t p' txn bs (branch_of tl) y e) as [L1 L2]; [done|done|lia|done|by apply key_branch_bound|done..|]. by constructor. }
  change (pages (TrieNode p t c bs)) with ([p] ++ branch_pages bs).
  destruct s as [l|sc sbs]; cbn [own_key is_src_trie] in *.
  - rewrite adds_leaf. unfold expand_trie_with_branch.
    replace (drop (length (key l) - length tl) (key l)) with tl by (rewrite Eo, app_assoc; symmetry; apply drop_app_tail; rewrite !length_app; lia).
    given ([p] ++ branch_pages bs ++ frame_pages fs). eapply (any_step (fun p' => [p']) pages _ _ [p] _ _ (fun _ => True));
      [apply alloc_step; intros p'; given ([p] ++ [p']); apply free_step; by apply turns_ret|]. intros p' _.
    given ([] ++ [p'] ++ branch_pages bs ++ frame_pages fs). eapply any_step; [apply fill_leaf_turns|]. cbn beta. intros y (py & v & -> & Ev).
    eapply turns_perm; [|apply finish_turns; apply Hput; try done].
    + cbn [pages]. fold (branch_pages (put (branch_of tl) (LeafNode py txn (Leaf tl v)) bs)). rewrite put_pages by (apply Hbr; by left). cbn [pages]. solve_Permutation.
    + by constructor.
    + apply Hbr. by left.
    + apply leaf_supports. by rewrite E, app_assoc.
    + intros K. unfold src_look, look. cbn. rewrite <- app_assoc, E. case_bool_decide; [|done]. by exists v.
  - apply src_shaped_trie_inv in Hss as (S1 & S2 & S3). destruct (Nat.ltb_spec 0 (length tl)) as [Hlt|Hge].
    + assert (tl <> []) as Hne by (intros ->; simpl in Hlt; lia).
      given ([] ++ [p] ++ branch_pages bs ++ frame_pages fs). eapply any_step; [by apply copy_children_turns|]. intros ds Hds.
      pose proof (copied_length _ _ Hds) as El. destruct ds as [|d0 ds0] eqn:Ed; [simpl in El; lia|]. rewrite <- Ed in *. clear Ed d0 ds0.
      replace (drop (length sc - length tl) sc) with tl by (rewrite Eo, app_assoc; symmetry; apply drop_app_tail; rewrite !length_app; lia).
      eapply any_step; [apply new_trie_turns|]. cbn beta. intros y [py ->]. unfold expand_trie_with_branch.
      given ([p] ++ pages (TrieNode py txn tl ds) ++ branch_pages bs ++ frame_pages fs). eapply (any_step (fun p' => [p']) pages _ _ [p] _ _ (fun _ => True));
        [apply alloc_step; intros p'; given ([p] ++ [p']); apply free_step; by apply turns_ret|]. intros p' _.
      eapply turns_perm; [|apply finish_turns; apply Hput].
      * change (pages (TrieNode p' txn c (put (branch_of tl) (TrieNode py txn tl ds) bs))) with ([p'] ++ branch_pages (put (branch_of tl) (TrieNode py txn tl ds) bs)).
        rewrite put_pages by (apply Hbr; by right). solve_Permutation.
      * by destruct tl.
      * pose proof (copied_ok _ _ S3 Hds) as [O1 O2]. constructor; try done. lia.
      * apply Hbr. by right.
      * apply trie_supports; [by rewrite E, app_assoc|done].
      * intros K. apply copied_below; [done..|]. by rewrite E, app_assoc.
    + assert (tl = []) as -> by (destruct tl; [done|simpl in Hge; lia]). rewrite !app_nil_r in *.
      given ([] ++ [p] ++ branch_pages bs ++ frame_pages fs). eapply any_step; [apply copy_children_turns; by apply (filter_ok (fun k => negb (isset k bs)))|].
      intros ds Hds. cbn zeta. destruct (copied_into q p t 0 0 c bs path sc sbs ds Hs S3 E Hds) as (_ & Ep & _ & _).
      given (branch_pages ds ++ branch_pages bs ++ [p] ++ frame_pages fs).
      apply (turns_perm _ _ (branch_pages (put_all ds bs) ++ [p] ++ frame_pages fs)); [cbn [pages] in Ep; apply Permutation_cons_inv in Ep; by rewrite (app_assoc (branch_pages ds)), <- Ep|].
      eapply any_step; [apply new_trie_turns|]. cbn beta. intros d [p' ->].
      destruct (copied_into q p t p' txn c bs path sc sbs ds Hs S3 E Hds) as (C1 & _ & C3 & C4).
      given (frame_pages fs ++ pages (TrieNode p' txn c (put_all ds bs)) ++ [p]). eapply any_step; [apply update_turns|]. cbn beta. intros gs HF.
      given (pages (TrieNode p' txn c (put_all ds bs)) ++ [p] ++ frame_pages gs). rewrite shared_picked. destruct (picked_facts (fun k => isset k bs) sbs S3) as [N F].
      eapply any_step; [apply shared_turns; [done..|]|].
      * eapply Forall_impl; [|exact F]. intros b (B1 & B2 & B3 & B4). split_and!; try done; [by eapply Hrec|by apply C3].
      * cbn beta. intros d (D1 & D2 & D3). given ([p] ++ pages d ++ frame_pages gs). apply free_step. apply turns_ret.
        -- exists d, gs. split_and!; [done..|]. constructor; [done| |].
           ++ intros K. destruct (src_look_split (fun k => isset k bs) path sc sbs K S3) as [-> Hd]. rewrite E in *. eapply combined_then; [exact Hd|apply C4|apply D3].
           ++ intros Hin _. destruct D2 as (? & ? & ? & ? & ? & ? & ? & [= <- <- <- <-] & -> & _). destruct c; [by destruct (Hc Hin)|done].
        -- by rewrite pages_plug.
Qed.

(** ** Where the keys part *)

Lemma picked_one k sbs : NoDup (map fst sbs) ->
  picked (fun j => j =? k) sbs = match child k sbs with Some (Some s) => [(k, s)] | _ => [] end.
Proof.
  induction sbs as [|[j o] sbs IH]; [done|]. cbn [map fst picked child]. intros N. apply list.NoDup_cons in N as [Hj N]. specialize (IH N).
  destruct (Z.eqb_spec j k) as [->|]; [|by destruct o]. apply no_child in Hj. rewrite Hj in IH. rewrite IH. by destruct o.
Qed.

(** The source ends where they part: what is copied hangs beside what is left of the
    node. *)
Lemma copied_beside q pre old child1 key1 path sc sbs ds p' : byte_key pre -> shaped child1 -> first_byte child1 = key1 -> -1 <= key1 ->
  entries (q ++ pre) child1 = entries q old -> src_branches_ok m sbs -> (m <= length (present sbs))%nat -> path ++ sc = q ++ pre ->
  copied_branches (List.filter (fun b => negb (b.1 =? key1)) sbs) ds ->
  shaped (TrieNode p' txn pre (put key1 child1 ds)) /\ pages (TrieNode p' txn pre (put key1 child1 ds)) ≡ₚ [p'] ++ pages child1 ++ branch_pages ds /\
  isset key1 (put key1 child1 ds) = true /\
  forall K, combined K (look q old K) (src_look path (SrcTrie sc (List.filter (fun b => negb (b.1 =? key1)) sbs)) K)
    (look q (TrieNode p' txn pre (put key1 child1 ds)) K).
Proof.
  intros Hp S1 F1 K1 Eo Hsb Hm E Hc. pose proof (filter_ok (fun k => negb (k =? key1)) sbs Hsb) as Hf. cbn beta in Hf.
  pose proof (copied_ok _ _ Hf Hc) as Hd. pose proof (copied_length _ _ Hc) as El. set (fs := List.filter _ sbs) in *.
  assert (forall j, match child j fs with Some (Some s) => exists d, child j ds = Some d /\ copy_of s d | _ => child j ds = None end) as Hch
    by (intros j; apply copied_child; [apply hashfacts.sorted_nodup, Hf|done]).
  assert (child key1 ds = None) as Hno.
  { specialize (Hch key1). unfold fs in Hch. by rewrite (child_filter (fun k => negb (k =? key1))), Z.eqb_refl in Hch. }
  assert (length (present sbs) <= S (length (present fs)))%nat as Hlen.
  { unfold fs. destruct Hsb as [HS _]. clear -HS. unfold present. induction sbs as [|[k o] sbs IH]; [simpl; lia|]. cbn [map fst] in HS. inversion HS as [|? ? HS' Hk]; subst.
    cbn [List.filter fst snd]. destruct (Z.eqb_spec k key1) as [->|]; cbn [negb].
    - replace (List.filter (fun b : Z * option source => negb (b.1 =? key1)) sbs) with sbs; [destruct (bool_decide _); simpl; lia|].
      clear -Hk. induction sbs as [|[j o] sbs IH]; [done|]. apply list.Forall_cons in Hk as [Hj Hk]. cbn [List.filter fst]. destruct (Z.eqb_spec j key1); [cbn [fst] in Hj; lia|].
      cbn. by rewrite <- IH.
    - cbn [List.filter snd]. specialize (IH HS'). destruct (bool_decide _); simpl; lia. }
  pose proof (put_ok m key1 child1 ds Hd K1 F1 S1) as Hb. split_and!.
  - destruct Hb. constructor; try done. rewrite put_length by done. lia.
  - change (pages (TrieNode p' txn pre (put key1 child1 ds))) with ([p'] ++ branch_pages (put key1 child1 ds)). by rewrite put_pages.
  - unfold isset. rewrite child_put by apply Hd. by rewrite Z.eqb_refl.
  - intros K. rewrite (src_look_trie m) by done. rewrite E, (look_trie m) by done.
    assert (look q old K = look (q ++ pre) child1 K) as -> by (unfold look; by rewrite Eo). destruct (decide _) as [[r ->]|Hn].
    + rewrite drop_app_length, child_put by apply Hd. specialize (Hch (branch_of r)). destruct (Z.eqb_spec key1 (branch_of r)) as [Er|Hne].
      * unfold fs. rewrite (child_filter (fun k => negb (k =? key1))), <- Er, Z.eqb_refl. done.
      * assert (look (q ++ pre) child1 ((q ++ pre) ++ r) = None) as ->.
        { destruct (look (q ++ pre) child1 _) as [v|] eqn:G; [|done]. exfalso. destruct (look_branch child1 key1 (q ++ pre) ((q ++ pre) ++ r) F1 K1) as (r' & E1 & E2); [by rewrite G|].
          apply app_inv_head in E1 as <-. congruence. }
        destruct (child (branch_of r) fs) as [[s|]|]; [|by rewrite Hch..]. destruct Hch as (d & -> & C). apply (co_look _ _ C).
    + destruct (look (q ++ pre) child1 K) as [v|] eqn:G; [|done]. exfalso. destruct (look_branch child1 key1 (q ++ pre) K F1 K1) as (r' & -> & _); [by rewrite G|].
      destruct Hn. by exists r'.
Qed.

Lemma resolve_turns merge fs old0 old kp pre tl child1 path s w : let q := kp ++ fpath fs in let key1 := first_byte child1 in
  (fs <> [] -> pre <> []) -> byte_key pre -> byte_key tl -> shaped child1 -> -1 <= key1 -> entries (q ++ pre) child1 = entries q old -> src_shaped s ->
  path ++ own_key s = q ++ pre ++ tl -> q = path ++ w -> (branch_of tl = key1 -> tl = [] /\ is_src_trie s = true) ->
  (forall k s', match s with SrcTrie _ sbs => (k, Some s') ∈ sbs | _ => False end -> merges merge s') ->
  turns pages (resolve_divergence size_of txn P merge fs old0 (length q) (length pre) key1 child1 path (path ++ own_key s) s) (pages child1 ++ frame_pages fs)
    (merged kp (pre ++ tl) fs old (src_look path s)).
Proof.
  intros q key1 Hi Hp Htl S1 K1 Eo Hss E Ew Hk Hrec. unfold resolve_divergence. rewrite E.
  replace (drop (length q + length pre) (q ++ pre ++ tl)) with tl by (symmetry; rewrite app_assoc; apply drop_app_tail; by rewrite length_app).
  rewrite drop_app_length, take_app_length.
  assert (own_key s = w ++ pre ++ tl) as Eos by (rewrite Ew, <- app_assoc in E; by apply app_inv_head in E).
  assert (drop (length q + length pre - length path) (own_key s) = tl) as Edrop by (rewrite Eos, app_assoc; apply drop_app_tail; rewrite Ew, !length_app; lia).
  assert (forall y p' e, first_byte y = branch_of tl -> shaped y -> branch_of tl <> key1 -> (forall K, e K <> None -> exists r, K = (q ++ pre) ++ r /\ branch_of r = branch_of tl) ->
    (forall K, combined K None (e K) (look (q ++ pre) y K)) -> good (fs <> []) q (pre ++ tl) e old (TrieNode p' txn pre (put (branch_of tl) y [(key1, child1)]))) as Hput.
  { intros y p' e Hf Hy Hb He Hl. apply split_good; try done. by apply key_branch_bound. }
  assert (forall y p', branch_of tl <> key1 -> pages (TrieNode p' txn pre (put (branch_of tl) y [(key1, child1)])) ≡ₚ [p'] ++ pages y ++ pages child1) as Hpg.
  { intros y p' Hne. change (pages (TrieNode p' txn pre (put (branch_of tl) y [(key1, child1)]))) with ([p'] ++ branch_pages (put (branch_of tl) y [(key1, child1)])).
    rewrite put_pages by (cbn [child]; by destruct (Z.eqb_spec key1 (branch_of tl))). cbn. by rewrite app_nil_r. }
  destruct s as [l|sc sbs]; cbn [own_key is_src_trie] in *.
  - assert (branch_of tl <> key1) as Hne by (intros H; by destruct (Hk H)). rewrite adds_leaf, Edrop.
    apply alloc_step. intros p'. given (frame_pages fs ++ [p'] ++ pages child1). eapply any_step; [apply update_turns|]. cbn beta. intros gs HF.
    given ([] ++ [p'] ++ pages child1 ++ frame_pages gs). eapply any_step; [apply fill_leaf_turns|]. cbn beta. intros y (py & v & -> & Ev).
    apply turns_ret; [|by rewrite pages_plug, Hpg; [solve_Permutation|]]. eexists _, gs. split_and!; [done..|]. apply Hput; try done.
    + by constructor.
    + apply leaf_supports. by rewrite E, app_assoc.
    + intros K. unfold src_look, look. cbn. rewrite <- app_assoc, E. case_bool_decide; [|done]. by exists v.
  - apply src_shaped_trie_inv in Hss as (T1 & T2 & T3). rewrite !length_app. destruct (Nat.ltb_spec (length q + length pre) (length q + (length pre + length tl))) as [Hlt|Hge].
    + assert (tl <> []) as Htn by (intros ->; simpl in Hlt; lia). assert (branch_of tl <> key1) as Hne by (intros H; by destruct (Hk H)). rewrite adds_trie.
      given ([] ++ pages child1 ++ frame_pages fs). eapply any_step; [by apply copy_children_turns|]. intros ds Hds.
      pose proof (copied_length _ _ Hds) as El. destruct ds as [|d0 ds0] eqn:Ed; [simpl in El; lia|]. rewrite <- Ed in *. clear Ed d0 ds0. rewrite Edrop.
      eapply any_step; [apply new_trie_turns|]. cbn beta. intros y [py ->].
      apply (turns_perm _ _ (branch_pages (put (branch_of tl) (TrieNode py txn tl ds) [(key1, child1)]) ++ frame_pages fs)).
      { rewrite put_pages by (cbn [child]; by destruct (Z.eqb_spec key1 (branch_of tl))). cbn [branch_pages flat_map snd]. rewrite app_nil_r. solve_Permutation. }
      eapply any_step; [apply new_trie_turns|]. cbn beta. intros d [p' ->]. apply finish_turns. apply Hput.
      * by destruct tl.
      * pose proof (copied_ok _ _ T3 Hds) as [O1 O2]. constructor; try done. lia.
      * done.
      * apply trie_supports; [by rewrite E, app_assoc|done].
      * intros K. apply copied_below; [done..|]. by rewrite E, app_assoc.
    + assert (tl = []) as -> by (destruct tl; [done|simpl in Hge; lia]). rewrite !app_nil_r in *.
      given ([] ++ pages child1 ++ frame_pages fs). eapply any_step; [apply copy_children_turns; by apply (filter_ok (fun k => negb (k =? key1)))|].
      intros ds Hds. destruct (copied_beside q pre old child1 key1 path sc sbs ds 0 Hp S1 eq_refl K1 Eo T3 T2 E Hds) as (_ & Ep & _ & _).
      apply (turns_perm _ _ (branch_pages (put key1 child1 ds) ++ frame_pages fs)); [cbn [pages] in Ep; apply Permutation_cons_inv in Ep; rewrite (app_assoc (branch_pages ds));
        f_equiv; rewrite Permutation_app_comm; exact Ep|].
      eapply any_step; [apply new_trie_turns|]. cbn beta. intros d [p' ->].
      destruct (copied_beside q pre old child1 key1 path sc sbs ds p' Hp S1 eq_refl K1 Eo T3 T2 E Hds) as (C1 & _ & C3 & C4).
      set (NT := TrieNode p' txn pre (put key1 child1 ds)) in *.
      given (frame_pages fs ++ pages NT). eapply any_step; [apply update_turns|]. cbn beta. intros gs HF. given (pages NT ++ frame_pages gs).
      pose proof (picked_one key1 sbs (hashfacts.sorted_nodup _ (proj1 T3))) as Hpk.
      assert (forall K, combined K (look q old K) (src_look path (SrcTrie sc sbs) K) (look q NT K) \/ picked (fun k => k =? key1) sbs <> []) as Hnone.
      { intros K. destruct (picked (fun k => k =? key1) sbs) eqn:Epk; [left|by right]. destruct (src_look_split (fun k => k =? key1) path sc sbs K T3) as [-> Hd]. rewrite Epk in *.
        eapply combined_then; [exact Hd|apply C4|done]. }
      destruct (child key1 sbs) as [[s'|]|] eqn:Ech.
      * apply child_in_keys in Ech as Hin. destruct (proj1 (list.Forall_forall _ _) (proj2 T3) _ Hin) as [_ Hsh]. destruct (Hsh s' eq_refl) as [Hs1 Hs2]. cbn [fst] in Hs1.
        eapply any_step; [apply (Hrec _ _ Hin); [done|done|by rewrite Hs1]|]. cbn beta. intros d (D1 & D2 & D3). apply turns_ret; [|by rewrite pages_plug].
        exists d, gs. split_and!; [done..|]. constructor; [done| |].
        -- intros K. destruct (src_look_split (fun k => k =? key1) path sc sbs K T3) as [-> Hd]. rewrite Hpk in *. cbn [picked_look] in *. rewrite E in *. specialize (C4 K). specialize (D3 K).
           eapply combined_then; [|exact C4|]; destruct (src_look (q ++ pre) s' K); try done. all: by destruct Hd.
        -- intros Hin' _. destruct D2 as (? & ? & ? & ? & ? & ? & ? & [= <- <- <- <-] & -> & _). destruct pre; [by destruct (Hi Hin')|done].
      * apply turns_ret; [|by rewrite pages_plug]. exists NT, gs. split_and!; [done..|]. constructor; [done| |].
        -- intros K. by destruct (Hnone K).
        -- intros Hin' _. cbn. destruct pre; [by destruct (Hi Hin')|done].
      * apply turns_ret; [|by rewrite pages_plug]. exists NT, gs. split_and!; [done..|]. constructor; [done| |].
        -- intros K. by destruct (Hnone K).
        -- intros Hin' _. cbn. destruct pre; [by destruct (Hi Hin')|done].
Qed.

(** ** The node where the search stops *)

Lemma merge_leaf_turns merge fs kp p t l pre tl ol path s w : let q := kp ++ fpath fs in
  key l = pre ++ ol -> byte_key (key l) -> byte_key tl -> (branch_of tl = branch_of ol -> tl = [] /\ ol = []) ->
  (fs <> [] -> pre = [] -> tl = [] /\ ol = [] /\ is_src_trie s = false) -> src_shaped s -> path ++ own_key s = q ++ pre ++ tl -> q = path ++ w ->
  (forall k s', match s with SrcTrie _ sbs => (k, Some s') ∈ sbs | _ => False end -> merges merge s') ->
  turns pages (merge_leaf_node size_of txn P merge fs p t l (length q) (length pre) (bool_decide (tl = []) && bool_decide (ol = [])) path (path ++ own_key s) s)
    (pages (LeafNode p t l) ++ frame_pages fs) (merged kp (pre ++ tl) fs (LeafNode p t l) (src_look path s)).
Proof.
  intros q El Hl Htl Hparts Hin Hs E Ew Hrec. unfold merge_leaf_node.
  assert (drop (length pre) (key l) = ol) as Ed by (by rewrite El, drop_app_length). rewrite Ed.
  assert (byte_key pre /\ byte_key ol) as [Hp Ho] by (rewrite El in Hl; by apply Forall_app in Hl).
  assert (is_src_trie s = true \/ tl <> [] \/ ol <> [] -> forall old p0 t0,
    turns pages (resolve_divergence size_of txn P merge fs old (length q) (length pre) (branch_of ol) (LeafNode p0 t0 (Leaf ol (val l))) path (path ++ own_key s) s)
      (pages (LeafNode p0 t0 (Leaf ol (val l))) ++ frame_pages fs) (merged kp (pre ++ tl) fs (LeafNode p t l) (src_look path s))) as Hres.
  { intros Hne old p0 t0. eapply resolve_turns; try done.
    - intros Hf ->. destruct (Hin Hf eq_refl) as (-> & -> & Ht). by destruct Hne as [|[|]]; [congruence|..].
    - by constructor.
    - by apply key_branch_bound.
    - fold q. cbn. by rewrite El, app_assoc.
    - intros H. destruct (Hparts H) as [-> ->]. split; [done|]. by destruct Hne as [|[|]]. }
  assert (is_src_trie s = true \/ tl <> [] \/ ol <> [] ->
    turns pages (match length pre with
      | O => resolve_divergence size_of txn P merge fs (LeafNode p t l) (length q) (length pre) (branch_of ol) (LeafNode p t l) path (path ++ own_key s) s
      | S _ => bind (alloc (LeafOf (len (key l) - Z.of_nat (length pre)) (vsize (val l)))) (fun p' =>
          bind (free_node (LeafNode p t (clear_big l))) (fun _ =>
            resolve_divergence size_of txn P merge fs (LeafNode p t (clear_big l)) (length q) (length pre) (branch_of ol) (LeafNode p' txn (Leaf ol (val l))) path (path ++ own_key s) s))
      end) (pages (LeafNode p t l) ++ frame_pages fs) (merged kp (pre ++ tl) fs (LeafNode p t l) (src_look path s))) as Hred.
  { intros Hne. destruct pre as [|b pre0] eqn:Epre; cbn [length].
    - cbn [app] in El. specialize (Hres Hne (LeafNode p t l) p t). replace (Leaf ol (val l)) with l in Hres by (destruct l; cbn in *; by subst). exact Hres.
    - rewrite <- Epre in *. change (S (length pre0)) with (length (b :: pre0)). rewrite <- Epre. clear b pre0 Epre.
      given (pages (LeafNode p t l) ++ frame_pages fs). apply alloc_step. intros p'. set (old := LeafNode p t (clear_big l)).
      given ([p] ++ pages (LeafNode p' txn (Leaf ol (val l))) ++ frame_pages fs).
      eapply (any_step no_pages pages _ _ [p] _ _ (fun _ => True)); [apply free_cleared_turns|]. intros _ _. by apply Hres. }
  destruct s as [sl|sc sbs]; [|apply Hred; by left].
  destruct (bool_decide (tl = []) && bool_decide (ol = [])) eqn:Eex.
  2: { apply Hred. right. apply andb_false_iff in Eex as [Eex|Eex]; apply bool_decide_eq_false in Eex; [by left|by right]. }
  apply andb_true_iff in Eex as [->%bool_decide_eq_true ->%bool_decide_eq_true]. rewrite !app_nil_r in *. subst pre. cbn [own_key] in *.
  assert (forall K, src_look path (SrcLeaf sl) K = if bool_decide (q ++ key l = K) then Some (val sl) else None) as Es
    by (intros K; unfold src_look; cbn; by rewrite E).
  assert (forall p0 t0 v K, look q (LeafNode p0 t0 (Leaf (key l) v)) K = if bool_decide (q ++ key l = K) then Some v else None) as Elk by done.
  assert (forall K, look q (LeafNode p t l) K = if bool_decide (q ++ key l = K) then Some (val l) else None) as Elk0 by done.
  destruct (may_overwrite P (path ++ key sl) (val l) (val sl)) eqn:Eov.
  - given ([] ++ pages (LeafNode p t l) ++ frame_pages fs). eapply any_step; [apply fill_leaf_turns|]. cbn beta. intros y (py & v & -> & Ev).
    given (pages (LeafNode p t l) ++ pages (LeafNode py txn (Leaf (key l) v)) ++ frame_pages fs).
    eapply (any_step no_pages pages _ _ _ _ _ (fun _ => True)); [apply free_leaf_turns|]. intros _ _. apply turns_ret; [|by rewrite pages_plug].
    eexists _, fs. split; [done|]. split; [apply same_frames_refl|]. constructor; [by constructor| |done].
    intros K. rewrite Es, Elk, Elk0. case_bool_decide as EK; [|done]. cbn. rewrite <- EK, <- E, Eov. by exists v.
  - apply turns_ret; [|by rewrite pages_plug]. eexists _, fs. split; [done|]. split; [apply same_frames_refl|]. constructor; [by constructor| |done].
    intros K. rewrite Es, Elk0. case_bool_decide as EK; [|done]. cbn. by rewrite <- EK, <- E, Eov.
Qed.

Lemma merge_trie_turns merge fs kp p t c bs pre tl ol path s w : let q := kp ++ fpath fs in
  c = pre ++ ol -> shaped (TrieNode p t c bs) -> byte_key tl -> (branch_of tl = branch_of ol -> tl = [] /\ ol = []) -> (fs <> [] -> pre <> []) ->
  (ol = [] -> is_src_trie s = false \/ tl <> [] -> child (branch_of tl) bs = None) -> src_shaped s -> path ++ own_key s = q ++ pre ++ tl -> q = path ++ w ->
  (forall k s', match s with SrcTrie _ sbs => (k, Some s') ∈ sbs | _ => False end -> merges merge s') ->
  turns pages (merge_trie_node size_of txn P merge fs p t c bs (length q) (length pre) path (path ++ own_key s) s)
    (pages (TrieNode p t c bs) ++ frame_pages fs) (merged kp (pre ++ tl) fs (TrieNode p t c bs) (src_look path s)).
Proof.
  intros q Ec Hs Htl Hparts Hi Hbr Hss E Ew Hrec. unfold merge_trie_node. destruct (Nat.eqb_spec (length pre) (length c)) as [El|Hne].
  - assert (ol = []) as -> by (apply nil_length_inv; rewrite Ec, length_app in El; lia). rewrite app_nil_r in Ec. subst pre.
    eapply merge_into_turns; try done. by apply Hbr.
  - assert (ol <> []) as Ho by (intros ->; rewrite app_nil_r in Ec; by subst). apply shaped_trie_inv in Hs as Hs'. destruct Hs' as (H1 & H2 & H3 & H4).
    assert (drop (length pre) c = ol) as Ed by (by rewrite Ec, drop_app_length). rewrite Ed.
    assert (byte_key pre /\ byte_key ol) as [Hp Hb] by (rewrite Ec in H1; by apply Forall_app in H1).
    apply alloc_step. intros p'. given ([p] ++ pages (TrieNode p' txn ol bs) ++ frame_pages fs). apply free_step.
    assert (branch_of ol = first_byte (TrieNode p' txn ol bs)) as -> by (by destruct ol).
    eapply resolve_turns; try done.
    + by constructor.
    + destruct ol as [|b ol]; [done|]. apply list.Forall_cons in Hb as [? _]. cbn. lia.
    + fold q. cbn [entries]. by rewrite Ec, app_assoc.
    + intros H. destruct ol as [|b ol]; [done|]. destruct (Hparts H) as [_ H']. done.
Qed.

Lemma plug_trunk fs : forall x X gs, fs <> [] -> Forall2 same_frame fs gs -> same_trunk (plug x fs) (plug X gs).
Proof.
  induction fs as [|f fs IH]; intros x X gs Hne HF; [done|]. inversion HF as [|? g ? gs' (E1 & E2 & E3 & E4) HF']; subst. cbn [plug].
  destruct fs as [|f' fs']; [|by apply IH]. inversion HF'; subst. cbn. rewrite <- E1, <- E2, <- E3, <- E4.
  eexists _, _, _, _, _, _, _. split_and!; [done..|]. by rewrite !map_app.
Qed.

Lemma plug_inner fs : forall x, shaped (plug x fs) -> shaped x /\ match fs with [] => True | f :: _ => first_byte x = fkey f end.
Proof.
  induction fs as [|f fs IH]; intros x H; [done|]. cbn [plug] in H. apply IH in H as [H _]. apply shaped_trie_inv in H as (_ & _ & _ & F).
  apply Forall_app in F as [_ F]. by apply list.Forall_cons in F as [(_ & ? & ?) _].
Qed.

Lemma along_source path s kp rest : path ++ own_key s = kp ++ rest -> (rest = [] -> is_src_trie s = false) -> along kp rest (src_look path s).
Proof.
  intros E Hr K HK. unfold src_look in HK. destruct (get _ K) as [v|] eqn:G; [|done]. apply get_entry in G.
  destruct s as [l|c bs].
  - cbn in G. apply list_elem_of_singleton in G as [= -> _]. exists []. cbn in E. by rewrite app_nil_r, E.
  - apply src_entries_below in G as [r ->]. exists r. split; [by rewrite app_assoc, E, <- app_assoc|]. intros H. by apply Hr in H.
Qed.

Lemma merged_whole kp q fs x e d : shaped (plug x fs) -> route fs q -> (fs <> [] -> along (kp ++ fpath fs) q e) -> merged kp q fs x e d ->
  shaped d /\ (forall K, combined K (look kp (plug x fs) K) (e K) (look kp d K)) /\ (fs <> [] -> same_trunk (plug x fs) d).
Proof.
  intros Hs Hr Ha (X & gs & -> & HF & G). destruct fs as [|f fs].
  - inversion HF; subst. cbn in *. rewrite app_nil_r in G. by destruct G.
  - destruct (good_plug m (may_overwrite P) kp e (f :: fs) gs q x X Hs HF Hr) as [G1 G2 G3]; [by apply Ha|done|].
    split_and!; [done..|]. intros Hn. by apply plug_trunk.
Qed.

Lemma merge_at_turns merge kp rest fs x n exact pre tl ol path s : shaped (plug x fs) -> stopped rest fs x n exact pre tl ol -> byte_key rest -> src_shaped s ->
  path ++ own_key s = kp ++ rest -> (exists w, kp ++ fpath fs = path ++ w) ->
  (forall f fs', fs = f :: fs' -> own x = [] -> is_src_trie s = true -> exists w, kp ++ fpath fs' = path ++ w) ->
  (forall k s', match s with SrcTrie _ sbs => (k, Some s') ∈ sbs | _ => False end -> merges merge s') ->
  turns pages (merge_at size_of txn P merge (length kp) fs x n exact path (path ++ own_key s) s) (pages (plug x fs)) (fun d =>
    shaped d /\ (forall K, combined K (look kp (plug x fs) K) (src_look path s K) (look kp d K)) /\
    (forall f fs', fs = f :: fs' -> (fs' = [] -> own x = [] -> is_src_trie s = false) -> same_trunk (plug x fs) d)).
Proof.
  intros Hs [R1 R2 R3 R4 R5 R6 R7] Hr Hss E [w Ew] Hpop Hrec. destruct (plug_inner _ _ Hs) as [Sx Fx]. unfold merge_at.
  assert (byte_key pre /\ byte_key tl) as [Hbp Hbt] by (rewrite R1 in Hr; apply Forall_app in Hr as [_ Hr]; by apply Forall_app in Hr).
  assert (path ++ own_key s = (kp ++ fpath fs) ++ pre ++ tl) as E' by (by rewrite E, R1, <- app_assoc).
  assert (fs <> [] -> first_byte x = branch_of (pre ++ tl)) as Hfirst by (destruct fs as [|f fs']; [done|intros _; rewrite Fx; by destruct R7]).
  subst n. destruct x as [p t l|p t c bs]; cbn [own] in *.
  - assert (Forall (fun b => 0 <= b) (key l)) as Hl by by inversion Sx.
    assert (forall (Hnp : match fs with [] => True | _ => key l = [] -> is_src_trie s = false end),
      turns pages (merge_leaf_node size_of txn P merge fs p t l (keypos (length kp) fs) (length pre) exact path (path ++ own_key s) s) (pages (plug (LeafNode p t l) fs)) (fun d =>
        shaped d /\ (forall K, combined K (look kp (plug (LeafNode p t l) fs) K) (src_look path s K) (look kp d K)) /\
        (forall f fs', fs = f :: fs' -> (fs' = [] -> key l = [] -> is_src_trie s = false) -> same_trunk (plug (LeafNode p t l) fs) d))) as Hleaf.
    { intros Hnp. rewrite keypos_fpath, <- length_app. eapply turns_perm; [symmetry; apply pages_plug|]. rewrite R5.
      assert (fs <> [] -> pre = [] -> tl = [] /\ ol = [] /\ is_src_trie s = false) as Hin.
      { intros Hf ->. specialize (Hfirst Hf). cbn [app first_byte] in *. rewrite R2 in Hfirst. cbn [app] in Hfirst. destruct (R4 (eq_sym Hfirst)) as [-> ->].
        split_and!; [done..|]. destruct fs as [|f fs']; [done|]. by apply Hnp. }
      eapply turns_weaken; [eapply merge_leaf_turns; try done|]. cbn beta. intros d Hd.
      destruct (merged_whole kp (pre ++ tl) fs (LeafNode p t l) (src_look path s) d Hs R7) as (W1 & W2 & W3); [|done|].
      - intros Hf. apply along_source; [done|]. intros [Hp0 _]%app_eq_nil. by apply Hin.
      - split_and!; [done..|]. intros f fs' -> _. by apply W3. }
    destruct fs as [|f fs']; [by apply Hleaf|]. destruct (bool_decide (key l = []) && is_src_trie s) eqn:Eb.
    + apply andb_true_iff in Eb as [Ek%bool_decide_eq_true Et]. destruct (Hpop f fs' eq_refl Ek Et) as [w' Ew'].
      assert (pre = [] /\ ol = []) as [-> ->] by (rewrite Ek in R2; symmetry in R2; by apply app_eq_nil in R2). cbn [app] in *.
      assert (tl = []) as -> by (assert (f :: fs' <> []) as Hn by done; specialize (Hfirst Hn); cbn in Hfirst; rewrite Ek in Hfirst; apply R4; by rewrite <- Hfirst).
      destruct R7 as [R7 R8]. rewrite app_nil_r in *. cbn [fpath plug] in *.
      set (T := TrieNode (fpage f) (ftxn f) (fcompressed f) (fleft f ++ (fkey f, LeafNode p t l) :: fright f)) in *.
      rewrite keypos_fpath, <- length_app. eapply turns_perm; [symmetry; apply pages_plug|].
      destruct (plug_inner _ _ Hs) as [ST FT].
      assert (fs' <> [] -> fcompressed f <> []) as Hne by (destruct fs' as [|g fs'']; [done|intros _ Hc; destruct R8 as [R8 _]; rewrite R8, Hc in FT; subst T; cbn in FT; by rewrite Hc in FT]).
      eapply turns_weaken; [eapply (merge_trie_turns _ _ _ _ _ _ _ (fcompressed f) [] []); try done|].
      * by rewrite app_nil_r.
      * intros _ [?|?]; [congruence|done].
      * by rewrite E', app_nil_r, app_assoc.
      * cbn beta. rewrite app_nil_r. intros d Hd. destruct (merged_whole kp (fcompressed f) fs' T (src_look path s) d Hs R8) as (W1 & W2 & W3); [|done|].
        -- intros Hf. apply along_source; [by rewrite E', app_assoc|]. intros Hc. by destruct (Hne Hf).
        -- split_and!; [done..|]. intros g gs [= <- <-] Hx. apply W3. intros ->. specialize (Hx eq_refl Ek). congruence.
    + apply Hleaf. intros Hk. apply andb_false_iff in Eb as [Eb|Eb]; [by apply bool_decide_eq_false in Eb|done].
  - rewrite keypos_fpath, <- length_app. eapply turns_perm; [symmetry; apply pages_plug|].
    assert (fs <> [] -> pre <> []) as Hin.
    { intros Hf ->. specialize (Hfirst Hf). cbn [app first_byte] in *. subst c. destruct ol as [|b ol]; [|by destruct (R4 (eq_sym Hfirst))].
      pose proof (key_branch_bound tl Hbt) as Hkb. rewrite <- Hfirst in Hkb. lia. }
    eapply turns_weaken; [eapply merge_trie_turns; try done; by intros -> _; apply R6|]. cbn beta. intros d Hd.
    destruct (merged_whole kp (pre ++ tl) fs (TrieNode p t c bs) (src_look path s) d Hs R7) as (W1 & W2 & W3); [|done|].
    + intros Hf. apply along_source; [done|]. intros [Hp0 _]%app_eq_nil. by destruct (Hin Hf).
    + split_and!; [done..|]. intros f fs' -> _. by apply W3.
Qed.

(** ** The whole merge *)

Fixpoint depth (s : source) : nat :=
  match s with
  | SrcLeaf _ => 0
  | SrcTrie _ bs => S (list_max (map (fun b => match b.2 with Some s => depth s | None => 0%nat end) bs))
  end.

Lemma source_depth_child k s c bs : (k, Some s) ∈ bs -> (depth s < depth (SrcTrie c bs))%nat.
Proof.
  intros H. cbn [depth]. apply (hashfacts.list_max_in (fun b : Z * option source => match b.2 with Some s => depth s | None => 0%nat end)) in H. cbn in *. lia.
Qed.

Lemma plug_root fs : forall x p t c bs, fs <> [] -> plug x fs = TrieNode p t c bs -> exists u, fpath fs = c ++ u.
Proof.
  induction fs as [|f fs IH]; intros x p t c bs Hne H; [done|]. cbn [plug fpath] in *. destruct fs as [|f' fs'].
  - cbn in *. injection H as _ _ <- _. exists []. by rewrite app_nil_r.
  - destruct (IH _ _ _ _ _ ltac:(done) H) as [u ->]. exists (u ++ fcompressed f). by rewrite app_assoc.
Qed.

Lemma own_first s : src_shaped s -> byte_key (own_key s) /\ (-1 <= src_first s -> src_first s = branch_of (own_key s) /\ (is_src_trie s = true -> own_key s <> [])).
Proof. inversion 1; subst; (split; [done|]); cbn; [done|]. destruct c; [lia|done]. Qed.

(** Below a branch of the destination the search leaves its root. *)
Lemma descends q p t c bs s fs x n exact pre tl ol : shaped (TrieNode p t c bs) -> src_shaped s -> isset (src_first s) bs = true ->
  TrieNode p t c bs = plug x fs -> stopped (c ++ own_key s) fs x n exact pre tl ol ->
  exists f fs' w, fs = f :: fs' /\ q ++ fpath fs = (q ++ c) ++ w /\ (own x = [] -> is_src_trie s = true -> exists f' fs'' w', fs' = f' :: fs'' /\ q ++ fpath fs' = (q ++ c) ++ w').
Proof.
  intros Hs Hss Hi Ed [R1 R2 R3 R4 R5 R6 R7]. pose proof Hs as Hp. rewrite Ed in Hp. destruct (plug_inner _ _ Hp) as [Sx Fx]. apply shaped_trie_inv in Hs as (H1 & H2 & H3 & H4).
  unfold isset in Hi. destruct (child (src_first s) bs) as [y|] eqn:Ey; [|done]. apply child_in_keys in Ey as Hy.
  destruct (proj1 (list.Forall_forall _ _) H4 _ Hy) as (Hk & _). cbn [fst] in Hk. destruct (own_first s Hss) as [Hb Ho]. destruct (Ho Hk) as [Ef Hne].
  destruct fs as [|f fs'].
  { exfalso. cbn [plug fpath app] in *. subst x. cbn [own] in R2. subst c. rewrite <- app_assoc in R1. apply app_inv_head in R1. subst tl.
    destruct ol as [|b ol]; [|by destruct (R4 eq_refl)]. cbn [app] in R6. rewrite <- Ef in R6. specialize (R6 eq_refl). congruence. }
  destruct (plug_root (f :: fs') x p t c bs) as [u Eu]; [done..|]. exists f, fs', u. split_and!; [done|by rewrite Eu, app_assoc|].
  intros Hx Ht. destruct fs' as [|f' fs''].
  - exfalso. cbn [plug fpath app] in *. injection Ed as _ _ -> _. apply app_inv_head in R1. rewrite Hx in R2. symmetry in R2. apply app_eq_nil in R2 as [-> ->]. cbn [app] in *. subst tl.
    destruct R7 as [R7 _]. apply (Hne Ht). apply R4. rewrite <- R7, <- Fx. destruct x as [? ? l|? ? c' ?]; cbn in *; subst; [by rewrite Hx|].
    pose proof (key_branch_bound _ Hb) as Hkb. rewrite <- Ef, R7, <- Fx in *. lia.
  - cbn [plug] in Ed. destruct (plug_root (f' :: fs'') _ p t c bs ltac:(done) (eq_sym Ed)) as [u' Eu']. exists f', fs'', u'. by rewrite Eu', app_assoc.
Qed.

Lemma node_turns n : forall s, (depth s < n)%nat -> src_shaped s ->
  merges (merge_node size_of txn P n) s /\
  forall kp d, shaped d -> turns pages (merge_node size_of txn P n d (length kp) kp s) (pages d) (fun d' =>
    shaped d' /\ forall K, combined K (look kp d K) (src_look kp s K) (look kp d' K)).
Proof.
  induction n as [|n IH]; intros s Hn Hss; [lia|]. destruct (own_first s Hss) as [Hb Ho].
  assert (forall k s', match s with SrcTrie _ sbs => (k, Some s') ∈ sbs | _ => False end -> merges (merge_node size_of txn P n) s') as Hrec.
  { destruct s as [l|c sbs]; [done|]. intros k s' Hk. pose proof (source_depth_child k s' c sbs Hk) as Hd. apply IH; [lia|].
    apply src_shaped_trie_inv in Hss as (_ & _ & _ & F). by destruct (proj1 (list.Forall_forall _ _) F _ Hk) as [_ H]; destruct (H s' eq_refl). }
  split.
  - intros q p t c bs Hs _ Hi. apply shaped_trie_inv in Hs as Hs'. destruct Hs' as (Hc & _).
    cbn [merge_node]. rewrite <- app_assoc, drop_app_length.
    assert (byte_key (c ++ own_key s)) as Hr by by apply Forall_app.
    destruct (merge_find_spec m _ Hs (c ++ own_key s) [] Hr) as (fs & x & k & ex & pre & tl & ol & -> & Ed & Sx & St). rewrite app_nil_r.
    destruct (descends q p t c bs s fs x k ex pre tl ol Hs Hss Hi Ed St) as (f & fs' & w & Ef & Ew & Hpop).
    rewrite Ed in *. rewrite (app_assoc q c). eapply turns_weaken; [eapply (merge_at_turns _ q (c ++ own_key s)); try done|].
    + by rewrite app_assoc.
    + by exists w.
    + intros g gs Eg Hx Ht. rewrite Ef in Eg. injection Eg as <- <-. destruct (Hpop Hx Ht) as (? & ? & w' & _ & ?). by exists w'.
    + cbn beta. intros d (D1 & D2 & D3). split_and!; [done| |done]. apply (D3 f fs' Ef). intros -> Hx. destruct (is_src_trie s) eqn:Et; [|done].
      destruct (Hpop Hx eq_refl) as (? & ? & ? & [=] & _).
  - intros kp d Sd. cbn [merge_node]. rewrite drop_app_length. destruct (merge_find_spec m d Sd (own_key s) [] Hb) as (fs & x & k & ex & pre & tl & ol & -> & Ed & Sx & St).
    rewrite app_nil_r, Ed in *. eapply turns_weaken; [eapply (merge_at_turns _ kp (own_key s)); try done|].
    + by eexists.
    + intros f fs' _ _ _. by eexists.
    + cbn beta. by intros d' (D1 & D2 & _).
Qed.

(** C10: with a policy that adds everything, merging a source in which each node has a
    child (else the result dangles, [empty_source_dangles]) ends, or the storage is full; every key is then looked up as the policy
    decides, the merged trie is well-formed, and the pages and chunks in use are those
    it links and those that were in use elsewhere: nothing leaks and nothing dangles. *)
Theorem merge_keeps_both n d s a rest : (depth s < n)%nat -> src_shaped s -> (forall x, d = Some x -> shaped x) -> live a ≡ₚ node_pages d ++ rest ->
  ends (exec size_of txn P n d (Some s)) a (fun o a' => exists x, o = Some x /\ shaped x /\
    (forall K, combined K (match d with Some x => look [] x K | None => None end) (src_look [] s K) (look [] x K)) /\
    live a' ≡ₚ pages x ++ rest).
Proof.
  intros Hn Hss Hd Ha. destruct d as [d|]; cbn [exec node_pages] in *.
  - destruct (node_turns n s Hn Hss) as [_ H]. specialize (H [] d (Hd d eq_refl)).
    eapply hashfacts.ends_bind; [by apply (H a rest)|]. cbn beta. intros x a' ([H1 H2] & H3). by exists x.
  - eapply hashfacts.ends_weaken; [by apply (copy_turns s [] Hss a rest)|]. cbn beta. intros o a' [(x & -> & [C1 C2 C3]) H]. by exists x.
Qed.
End merging.

(** ** Witnesses *)

Import hashfacts (pool, Pool).
#[local] Existing Instance hashfacts.pool_pages.
#[local] Abbreviation Done := (hashing.Done _).

Definition small (p t : Z) (k : list Z) (v : Z) : node := LeafNode p t (Leaf k (Small [v])).
Definition src_small (k : list Z) (v : Z) : Z * option source := (branch_of k, Some (SrcLeaf (Leaf k (Small [v])))).

(** The keys [ab], [ac] and [acde], committed by transaction 1. *)
Definition committed : node :=
  TrieNode 1 1 [97] [(98, small 2 1 [98] 1); (99, TrieNode 3 1 [99] [(NONE, small 4 1 [] 2); (100, small 5 1 [100; 101] 3)])].

(** The keys [ab] and [acd]; something else below [a] is known already. *)
Definition received : source := SrcTrie [97] [src_small [98] 7; src_small [99; 100] 8; (120, None)].

Definition one_size (r : request) : Z := 8.
Definition sample_merge (P : policy) (s : source) := exec (A := pool) one_size 2 P 5 (Some committed) (Some s) (Pool 20 100 [1; 2; 3; 4; 5]).

Lemma committed_shaped : shaped 2 committed.
Proof. repeat first [done | lia | constructor]. Qed.

Lemma received_shaped : src_shaped 2 received.
Proof.
  assert (forall k v, byte_key k -> forall s, (src_small k v).2 = Some s -> src_first s = (src_small k v).1 /\ src_shaped 2 s) as H
    by (intros k v Hk s [= <-]; split; [done|by constructor]).
  constructor; [repeat first [done | lia | constructor]..|]. apply list.Forall_cons; split; [split; [done|]; apply H; repeat first [lia | constructor]|].
  apply list.Forall_cons; split; [split; [done|]; apply H; repeat first [lia | constructor]|]. by apply list.Forall_singleton.
Qed.

Lemma merge_keeps_both_witness : exists x a', sample_merge StandardMergePolicy received = Done (Some x) a' /\ live a' ≡ₚ pages x ++ [] /\
  look [] x [97; 99; 100] = Some (Small [8]) /\ look [] x [97; 99] = Some (Small [2]).
Proof.
  pose proof (merge_keeps_both one_size 2 StandardMergePolicy 2 ltac:(lia) (fun _ _ => eq_refl) (fun _ => eq_refl) 5 (Some committed) received
    (Pool 20 100 [1; 2; 3; 4; 5]) [] ltac:(vm_compute; lia) received_shaped ltac:(intros x [= <-]; exact committed_shaped)
    ltac:(cbn; solve_Permutation)) as H.
  unfold ends in H. destruct (exec _ _ _ _ _ _ _) as [o a'|a'|] eqn:E; [|vm_compute in E; done..].
  destruct H as (x & -> & _ & H2 & H3). exists x, a'. split; [exact E|]. split; [exact H3|]. split.
  - vm_compute in E. injection E as <- _. reflexivity.
  - vm_compute in E. injection E as <- _. reflexivity.
Defined.

(** ** What the other policies show *)

Definition linked_but_free (r : hashing.result (A := pool) (option node)) : Prop :=
  exists x a' p, r = Done (Some x) a' /\ p ∈ pages x /\ p ∉ live a'.

Definition reject_leaves : policy := Policy (fun _ _ _ => true) (Some (fun _ _ => false)) None.
Definition reject_tries : policy := Policy (fun _ _ _ => true) None (Some (fun _ => false)).

(** A leaf is replaced by a shorter copy before the policy is asked whether the leaf of
    the source may be added: where it may not, the trie goes on linking the leaf that
    was freed. *)
Theorem rejected_leaf_dangles : linked_but_free (sample_merge reject_leaves received).
Proof. eexists _, _, 5. split; [vm_compute; reflexivity|]. split; [by apply (bool_decide_unpack _)|]. by apply (bool_decide_unpack _). Qed.

(** So it is under a policy that accepts everything where all children of a source node
    are known already. *)
Theorem empty_source_dangles : linked_but_free (sample_merge StandardMergePolicy (SrcTrie [97; 99; 100; 102] [(97, None); (98, None)])).
Proof. eexists _, _, 5. split; [vm_compute; reflexivity|]. split; [by apply (bool_decide_unpack _)|]. by apply (bool_decide_unpack _). Qed.

(** An overwritten leaf is linked without [update]: the page 3 belongs to transaction 1,
    which has committed it, and gets another child in place. *)
Theorem committed_page_overwritten : exists x a' bs bs',
  sample_merge StandardMergePolicy (SrcLeaf (Leaf [97; 99] (Small [9]))) = Done (Some x) a' /\
  child 99 match committed with TrieNode _ _ _ bs => bs | _ => [] end = Some (TrieNode 3 1 [99] bs) /\
  child 99 match x with TrieNode _ _ _ bs => bs | _ => [] end = Some (TrieNode 3 1 [99] bs') /\ bs <> bs'.
Proof. eexists _, _, _, _. split; [vm_compute; reflexivity|]. split; [reflexivity|]. split; [vm_compute; reflexivity|]. by intros [=]. Qed.

(** A subtrie that becomes a new branch is added without asking [may_add_trie]. *)
Theorem rejected_subtrie_added : exists x a', sample_merge reject_tries (SrcTrie [97; 120] [src_small [49] 1; src_small [50] 2]) = Done (Some x) a' /\
  look [] x [97; 120; 49] = Some (Small [1]).
Proof. eexists _, _. split; [vm_compute; reflexivity|]. reflexivity. Qed.

(** Where the leaf that is replaced is big, its flag is cleared first: after a rejection
    its value is the struct that named the chunk. *)
Theorem rejected_leaf_changes_big_value : exists a', exec (A := pool) one_size 2 reject_leaves 5 (Some (LeafNode 1 1 (Leaf [97; 98] (Big 2 [1; 2; 3]))))
    (Some (SrcLeaf (Leaf [97; 99] (Small [9])))) (Pool 20 100 [1; 2]) =
  Done (Some (LeafNode 1 1 (Leaf [97; 98] (Small [2; 0; 0; 0; 0; 0; 0; 0; 3; 0; 0; 0])))) a'.
Proof. eexists. vm_compute. reflexivity. Qed.
End mergerfacts.
