(* ===== verification/Confluence.v ===== *)
(** * Confluence: reading a main database together with its tributaries

    Models the reading side of [_ConfluenceCursor] of [multi/_confluence_db.hpp], the
    writes of [_TributaryCursor] of [multi/_tributary.hpp], and [_do_merge]. A source is
    a snapshot with a cursor on its trie and one on the trie of its deletions, which live
    as long as the confluence cursor does: they are those of [Trie], of which what its
    theorems say is used. A search leaves the cursor at the part of the key that leads
    into the trie, and does nothing where this is already the key; a valid cursor moves to
    the neighbouring keys in the order of the bytes. The aspect is a parameter. *)
From S2P Require Import Prelude Util.

Module confluence.
Import util.

(** A value, and whether it is big. *)
Definition value : Type := list Z * bool.

Record aspect := Aspect {
  may_merge_add : list Z -> value -> bool;
  may_merge_overwrite : list Z -> value -> value -> bool;
  may_merge_delete : list Z -> bool
}.

Definition before (a b : list Z) : bool := lex a b <? 0.

(** ** One source *)

(** Where a cursor stands: the current key and whether it is valid there, [None] without
    a stack. *)
Definition place : Type := option (list Z * bool).

(** [deletes] are the keys of the deletion trie, [del_position] is the place of the cursor
    on it. The main database has none. *)
Record source := Source {
  txn_id : Z;
  data : list (list Z * value);
  deletes : list (list Z);
  position : place;
  del_position : place
}.

Definition keys (s : source) : list (list Z) := map fst (data s).
Definition set_position (o : place) (s : source) : source := Source (txn_id s) (data s) (deletes s) o (del_position s).
Definition set_del_position (o : place) (s : source) : source := Source (txn_id s) (data s) (deletes s) (position s) o.

(** The key at which a cursor is valid. *)
Definition valid_key (o : place) : option (list Z) := match o with Some (k, true) => Some k | _ => None end.
Definition standing (s : source) : option (list Z) := valid_key (position s).

Fixpoint get {V} (l : list (list Z * V)) (k : list Z) : option V :=
  match l with [] => None | (j, v) :: l => if bool_decide (j = k) then Some v else get l k end.

(** The first of some keys in an order. *)
Fixpoint extreme (lt : list Z -> list Z -> bool) (ks : list (list Z)) : option (list Z) :=
  match ks with
  | [] => None
  | k :: ks => match extreme lt ks with Some j => if lt j k then Some j else Some k | None => Some k end
  end.

Definition after (a b : list Z) : bool := before b a.
Definition least : list (list Z) -> option (list Z) := extreme before.
Definition greatest : list (list Z) -> option (list Z) := extreme after.

(** How far a key leads into a trie: [current_key] after a search. *)
Definition current_key (ks : list (list Z)) (k : list Z) : list Z := take (list_max (map (common_prefix k) ks)) k.

(** [_ICursor::find] on a trie with the keys [ks]: [keep_stack] takes a current key that
    is the one looked for as found, also where the cursor is not valid. *)
Definition search (ks : list (list Z)) (k : list Z) (o : place) : place :=
  let fresh := if bool_decide (ks = []) then None else if bool_decide (k ∈ ks) then Some (k, true) else Some (current_key ks k, false) in
  match o with
  | Some (j, ok) => if bool_decide (j = k) then Some (j, ok) else fresh
  | None => fresh
  end.

(** [find] of the cursor, and of the one on the deletions. *)
Definition data_find (k : list Z) (s : source) : source := set_position (search (keys s) k (position s)) s.
Definition del_find (k : list Z) (s : source) : source := set_del_position (search (deletes s) k (del_position s)) s.
Definition cursor_find (k : list Z) (s : source) : source := del_find k (data_find k s).

(** To the first key, and to the next one from where the cursor is valid. *)
Definition at_key (o : option (list Z)) : place := option_map (fun k => (k, true)) o.
Definition cursor_start (lt : list Z -> list Z -> bool) (s : source) : source := set_position (at_key (extreme lt (keys s))) s.
Definition cursor_step (lt : list Z -> list Z -> bool) (s : source) : source :=
  match standing s with
  | Some k => set_position (at_key (extreme lt (List.filter (lt k) (keys s)))) s
  | None => s
  end.

Definition cursor_first : source -> source := cursor_start before.
Definition cursor_last : source -> source := cursor_start after.
Definition cursor_next : source -> source := cursor_step before.
Definition cursor_prev : source -> source := cursor_step after.

Definition stands_at (k : list Z) (s : source) : bool := bool_decide (standing s = Some k).
Definition deletes_at (k : list Z) (s : source) : bool := bool_decide (valid_key (del_position s) = Some k).

(** ** Candidates *)

Record candidate := Candidate { c_txn : Z; c_value : value; is_deleted : bool }.

Definition no_value : value := ([], false).

(** [stable_sort] by the transaction. *)
Fixpoint insert_candidate (c : candidate) (l : list candidate) : list candidate :=
  match l with
  | [] => [c]
  | d :: l => if c_txn d <? c_txn c then d :: insert_candidate c l else c :: d :: l
  end.
Definition sort_candidates (l : list candidate) : list candidate := foldr insert_candidate [] l.

Fixpoint choose (a : aspect) (k : list Z) (chosen : option value) (l : list candidate) : option value :=
  match l with
  | [] => chosen
  | c :: l =>
      if is_deleted c then choose a k (if may_merge_delete a k then None else chosen) l
      else
        match chosen with
        | None => choose a k (if may_merge_add a k (c_value c) then Some (c_value c) else None) l
        | Some v => choose a k (if may_merge_overwrite a k v (c_value c) then Some (c_value c) else Some v) l
        end
  end.

(** The value of the winner. *)
Definition resolve_candidates_for_key (a : aspect) (k : list Z) (l : list candidate) : option value :=
  choose a k None (sort_candidates l).

(** What a source says after [find]: it is asked for the key and for its deletion. *)
Definition found_candidates (k : list Z) (s : source) : list candidate :=
  let found := stands_at k s in
  let deleted := deletes_at k s in
  if found || deleted then [Candidate (txn_id s) (if found then default no_value (get (data s) k) else no_value) deleted] else [].

(** What it says in an iteration: only a source that stands at the key is asked, and its
    cursor on the deletions is sent there. *)
Definition standing_candidates (k : list Z) (s : source) : list candidate :=
  if stands_at k s then [Candidate (txn_id s) (default no_value (get (data s) k)) (deletes_at k s)] else [].

(** ** The cursor *)

(** [sources] are the pinned tributaries, [write] the own one in a transaction. *)
Record cursor := Cursor {
  main : source;
  sources : list source;
  write : option source;
  iter_key : list Z;
  pending_find : bool;
  valid : bool;
  value_storage : value
}.

Definition views (c : cursor) : list source := main c :: sources c ++ match write c with Some s => [s] | None => [] end.

Definition move (f : source -> source) (c : cursor) : cursor :=
  Cursor (f (main c)) (map f (sources c)) (option_map f (write c)) (iter_key c) (pending_find c) (valid c) (value_storage c).
Definition set_pending (p : bool) (c : cursor) : cursor :=
  Cursor (main c) (sources c) (write c) (iter_key c) p (valid c) (value_storage c).
Definition set_result (k : list Z) (ok : bool) (v : value) (c : cursor) : cursor :=
  Cursor (main c) (sources c) (write c) k (pending_find c) ok v.

Section cursor.
Context (a : aspect).

Definition resolve_key (k : list Z) (c : cursor) : option value * cursor :=
  let c := move (cursor_find k) c in
  (resolve_candidates_for_key a k (flat_map (found_candidates k) (views c)), c).

Definition materialize_full (c : cursor) : cursor :=
  if pending_find c then
    let '(o, c) := resolve_key (iter_key c) (set_pending false c) in
    match o with
    | Some v => set_result (iter_key c) true v c
    | None => set_result (iter_key c) false (value_storage c) c
    end
  else c.

Definition is_valid (c : cursor) : bool * cursor := let c := materialize_full c in (valid c, c).
Definition read_value (c : cursor) : value * cursor := let c := materialize_full c in (value_storage c, c).

Definition find (k : list Z) (c : cursor) : cursor :=
  Cursor (main c) (sources c) (write c) k true false (value_storage c).

(** The loop that goes on, up or down, until a key has a winner; [None] is out of
    fuel. *)
Fixpoint advance (lt : list Z -> list Z -> bool) (n : nat) (c : cursor) : option cursor :=
  match n with
  | O => None
  | S n =>
      match extreme lt (omap standing (views c)) with
      | None => Some (set_result (iter_key c) false (value_storage c) c)
      | Some k =>
          let c := move (fun s => if stands_at k s then del_find k s else s) c in
          let candidates := flat_map (standing_candidates k) (views c) in
          let c := move (fun s => if stands_at k s then cursor_step lt s else s) c in
          match resolve_candidates_for_key a k candidates with
          | Some v => Some (set_result k true v c)
          | None => advance lt n (set_result k (valid c) (value_storage c) c)
          end
      end
  end.

Definition advance_to_next_valid : nat -> cursor -> option cursor := advance before.
Definition advance_to_prev_valid : nat -> cursor -> option cursor := advance after.

(** To one end, and on from where the cursor is valid. *)
Definition start (lt : list Z -> list Z -> bool) (n : nat) (c : cursor) : option cursor :=
  advance lt n (move (cursor_start lt) (set_pending false c)).
Definition step (lt : list Z -> list Z -> bool) (n : nat) (c : cursor) : option cursor :=
  let c := materialize_full c in
  if valid c then advance lt n (move (fun s => if stands_at (iter_key c) s then cursor_step lt s else s) c) else Some c.

Definition first : nat -> cursor -> option cursor := start before.
Definition last : nat -> cursor -> option cursor := start after.
Definition next : nat -> cursor -> option cursor := step before.
Definition prev : nat -> cursor -> option cursor := step after.

(** ** Writing to a tributary *)

Definition put {V} (k : list Z) (v : V) (l : list (list Z * V)) : list (list Z * V) :=
  (k, v) :: List.filter (fun b => negb (bool_decide (b.1 = k))) l.
Definition drop_key {V} (k : list Z) (l : list (list Z * V)) : list (list Z * V) := List.filter (fun b => negb (bool_decide (b.1 = k))) l.

(** [find] and [value]: the deletion of the current key is removed, then the value is put.
    [None] where the search was skipped at a cursor that is not valid: what [value] does
    there is told by [Insert] and not by the keys alone. *)
Definition tributary_value (k : list Z) (v : value) (s : source) : option source :=
  if bool_decide (position s = Some (k, false)) then None
  else Some (Source (txn_id s) (put k v (data s)) (List.filter (fun j => negb (bool_decide (j = current_key (keys s) k))) (deletes s))
    (Some (k, true)) (del_position s)).

(** [remove] with a key: a key that is found is removed and the cursor goes on to the next
    one; the deletion is recorded. [None] for the empty key where it is found, from which
    the cursor may lose its place (see [Remove]). *)
Definition tributary_remove (k : list Z) (s : source) : option source :=
  let s := data_find k s in
  let recorded := if bool_decide (k ∈ deletes s) then deletes s else k :: deletes s in
  if stands_at k s then
    if bool_decide (k = []) then None
    else Some (Source (txn_id s) (drop_key k (data s)) recorded (at_key (least (List.filter (before k) (keys s)))) (del_position s))
  else Some (Source (txn_id s) (data s) recorded (position s) (del_position s)).

(** ** Merging a tributary *)

Definition apply_delete (l : list (list Z * value)) (k : list Z) : list (list Z * value) :=
  if may_merge_delete a k then drop_key k l else l.

Definition apply_put (l : list (list Z * value)) (b : list Z * value) : list (list Z * value) :=
  match get l b.1 with
  | None => if may_merge_add a b.1 b.2 then put b.1 b.2 l else l
  | Some old => if may_merge_overwrite a b.1 old b.2 then put b.1 b.2 l else l
  end.

(** The deletions, then the merge of the tries. *)
Definition do_merge (l : list (list Z * value)) (s : source) : list (list Z * value) :=
  foldl apply_put (foldl apply_delete l (deletes s)) (data s).
End cursor.
End confluence.
