(* ===== verification/ConfluenceFacts.v ===== *)
(** * ConfluenceFacts: what a confluence cursor reads

    A search reads what merging the tributaries in the order of their transactions would
    leave in the main database, and a scan lists, in order, what merging them without
    their deletions would leave; the hypotheses this needs, and that the code does not
    keep up, are shown by examples. *)
From Stdlib Require Import Sorted.
From S2P Require Import Prelude Util Confluence.

Module confluencefacts.
Export confluence.
Import util.

Lemma before_spec a b : reflect (lex a b < 0) (before a b).
Proof. apply Z.ltb_spec0. Qed.

Lemma lex_total a b : lex a b < 0 \/ a = b \/ lex b a < 0.
Proof. destruct (Z.eq_dec (lex a b) 0) as [E|E]; [right; left; by apply lex_zero|]. rewrite (lex_flip a b). lia. Qed.

Lemma lex_irrefl a : ~ lex a a < 0.
Proof. rewrite lex_refl. lia. Qed.

(** ** Association lists *)

Section get.
Context {V : Type}.
Implicit Types (l : list (list Z * V)) (k : list Z).

Lemma get_is_some l k : is_Some (get l k) <-> k ∈ map fst l.
Proof.
  induction l as [|[j v] l IH]; cbn; [split; [by intros []|by intros ?%not_elem_of_nil]|]. rewrite list.elem_of_cons.
  case_bool_decide as E; [subst; split; [by left|by eexists]|]. rewrite IH. split; [by right|]. by intros [->|].
Qed.

Lemma get_none l k : get l k = None <-> k ∉ map fst l.
Proof. rewrite <- get_is_some. destruct (get l k) as [v|]; split; [done|intros []; by exists v|intros _ []; done|done]. Qed.

Lemma get_drop_key l k j : get (drop_key k l) j = if bool_decide (j = k) then None else get l j.
Proof.
  unfold drop_key. induction l as [|[i v] l IH]; cbn; [by case_bool_decide|]. destruct (bool_decide (i = k)) eqn:E; cbn.
  - apply bool_decide_eq_true in E as ->. rewrite IH. case_bool_decide; [done|]. rewrite bool_decide_eq_false_2 by congruence. done.
  - apply bool_decide_eq_false in E. rewrite IH. case_bool_decide; [|done]. subst. by rewrite bool_decide_eq_false_2 by congruence.
Qed.

Lemma get_put l k v j : get (put k v l) j = if bool_decide (j = k) then Some v else get l j.
Proof.
  unfold put. cbn. fold (drop_key k l). rewrite get_drop_key. case_bool_decide as E; case_bool_decide as E'; congruence.
Qed.
End get.

(** ** A search *)

Section search.
Context (a : aspect).

(** What one tributary makes of the value of a key. *)
Definition overlay (k : list Z) (s : source) (o : option value) : option value :=
  let o := if bool_decide (k ∈ deletes s) && may_merge_delete a k then None else o in
  match get (data s) k with
  | None => o
  | Some v =>
      match o with
      | None => if may_merge_add a k v then Some v else None
      | Some w => if may_merge_overwrite a k w v then Some v else Some w
      end
  end.

Lemma deletes_get l ks k : get (foldl (apply_delete a) l ks) k = if bool_decide (k ∈ ks) && may_merge_delete a k then None else get l k.
Proof.
  revert l. induction ks as [|j ks IH]; intros l; cbn [foldl]; [done|]. rewrite IH. unfold apply_delete.
  destruct (decide (k = j)) as [->|Hne].
  - rewrite (bool_decide_eq_true_2 (j ∈ j :: ks)) by left. destruct (may_merge_delete a j); [|by rewrite !andb_false_r].
    rewrite get_drop_key, (bool_decide_eq_true_2 (j = j)) by done. by destruct (bool_decide (j ∈ ks)).
  - rewrite (bool_decide_ext (k ∈ j :: ks) (k ∈ ks)) by (rewrite list.elem_of_cons; tauto).
    destruct (bool_decide (k ∈ ks) && may_merge_delete a k); [done|]. destruct (may_merge_delete a j); [|done].
    by rewrite get_drop_key, bool_decide_eq_false_2.
Qed.

Lemma put_get l b k : get (apply_put a l b) k = if bool_decide (k = b.1) then
    match get l k with None => if may_merge_add a k b.2 then Some b.2 else None
    | Some w => if may_merge_overwrite a k w b.2 then Some b.2 else Some w end
  else get l k.
Proof.
  unfold apply_put. destruct b as [j v]. cbn [fst snd]. case_bool_decide as E.
  - subst j. destruct (get l k) as [w|] eqn:G.
    + destruct (may_merge_overwrite a k w v); [|done]. by rewrite get_put, bool_decide_eq_true_2.
    + destruct (may_merge_add a k v); [|done]. by rewrite get_put, bool_decide_eq_true_2.
  - destruct (get l j) as [w|]; [destruct (may_merge_overwrite a j w v)|destruct (may_merge_add a j v)]; try done; by rewrite get_put, bool_decide_eq_false_2.
Qed.

Lemma puts_get bs k : forall l, NoDup (map fst bs) -> get (foldl (apply_put a) l bs) k =
  match get bs k with
  | None => get l k
  | Some v => match get l k with None => if may_merge_add a k v then Some v else None | Some w => if may_merge_overwrite a k w v then Some v else Some w end
  end.
Proof.
  induction bs as [|[j v] bs IH]; intros l N; cbn [foldl]; [done|]. cbn [map fst] in N. apply list.NoDup_cons in N as [Hj N].
  rewrite IH by done. cbn [get]. rewrite put_get. cbn [fst snd]. destruct (decide (j = k)) as [->|Hne].
  - by rewrite !(bool_decide_eq_true_2 (k = k)), (proj2 (get_none bs k) Hj).
  - by rewrite !bool_decide_eq_false_2 by congruence.
Qed.

(** The merge of a tributary, key by key. *)
Lemma do_merge_get l s k : NoDup (keys s) -> get (do_merge a l s) k = overlay k s (get l k).
Proof. intros N. unfold do_merge, overlay. by rewrite puts_get, deletes_get. Qed.

(** A tributary does not have a key and its deletion. *)
Definition consistent (s : source) : Prop := NoDup (keys s) /\ forall k, k ∈ deletes s -> k ∉ keys s.

Lemma choose_app k l m o : choose a k o (l ++ m) = choose a k (choose a k o l) m.
Proof.
  revert o. induction l as [|c l IH]; intros o; [done|]. cbn. destruct (is_deleted c); [apply IH|]. destruct o; apply IH.
Qed.

(** The cursor does not stand, not valid, at this key of the trie: left there by a search
    for a longer one. *)
Definition answers (ks : list (list Z)) (k : list Z) (o : place) : Prop :=
  match o with Some (j, ok) => j = k -> ok = bool_decide (k ∈ ks) | None => True end.

Lemma search_again ks k j ok : search ks k (Some (j, ok)) = if decide (j = k) then Some (j, ok) else search ks k None.
Proof. unfold search. by destruct (decide (j = k)); [rewrite bool_decide_eq_true_2|rewrite (bool_decide_eq_false_2 (j = k))]. Qed.

Lemma search_finds ks k o : answers ks k o -> bool_decide (valid_key (search ks k o) = Some k) = bool_decide (k ∈ ks).
Proof.
  assert (bool_decide (valid_key (search ks k None) = Some k) = bool_decide (k ∈ ks)) as Hf.
  { unfold search. destruct (decide (ks = [])) as [->|]; [done|]. rewrite (bool_decide_eq_false_2 (ks = [])) by done.
    destruct (bool_decide (k ∈ ks)); [by apply bool_decide_eq_true_2|by apply bool_decide_eq_false_2]. }
  destruct o as [[j ok]|]; [|done]. intros H. cbn in H. rewrite search_again. destruct (decide (j = k)) as [->|]; [|exact Hf]. rewrite (H eq_refl).
  destruct (bool_decide (k ∈ ks)); [by apply bool_decide_eq_true_2|done].
Qed.

(** A search stays true for every key that does not lead to the one looked for. *)
Lemma search_answers ks k j o : answers ks k o -> answers ks j o -> ~ j `prefix_of` k \/ j = k -> answers ks j (search ks k o).
Proof.
  intros Hk Hj Hp. assert (answers ks j (search ks k None)) as Hf.
  { unfold search. destruct (decide (ks = [])) as [->|]; [done|]. rewrite (bool_decide_eq_false_2 (ks = [])) by done.
    destruct (decide (k ∈ ks)); [rewrite bool_decide_eq_true_2 by done; cbn; intros <-; by rewrite bool_decide_eq_true_2|]. rewrite (bool_decide_eq_false_2 (k ∈ ks)) by done. cbn.
    intros <-. destruct Hp as [Hp|Hp]; [|by rewrite Hp, bool_decide_eq_false_2]. destruct Hp. unfold current_key. eexists. symmetry. apply take_drop. }
  destruct o as [[i ok]|]; [|done]. rewrite search_again. by destruct (decide (i = k)).
Qed.

(** Both cursors of a source. *)
Definition asked (k : list Z) (s : source) : Prop := answers (keys s) k (position s) /\ answers (deletes s) k (del_position s).

Lemma choose_found k s o : consistent s -> asked k s -> choose a k o (found_candidates k (cursor_find k s)) = overlay k s o.
Proof.
  intros [N H] [A1 A2]. unfold found_candidates, overlay, stands_at, deletes_at, standing. cbn [deletes data position set_position del_position set_del_position txn_id cursor_find data_find del_find].
  rewrite !search_finds by done. destruct (decide (k ∈ keys s)) as [Hk|Hk].
  - assert (k ∉ deletes s) as Hd by (intros Hd; by apply (H k)). rewrite (bool_decide_eq_true_2 (k ∈ keys s)), (bool_decide_eq_false_2 (k ∈ deletes s)) by done.
    cbn [orb andb choose is_deleted c_value]. apply get_is_some in Hk as [v Hv]. rewrite Hv. cbn [default]. by destruct o.
  - rewrite (bool_decide_eq_false_2 (k ∈ keys s)) by done. cbn [orb]. rewrite (proj2 (get_none _ _) Hk).
    destruct (bool_decide (k ∈ deletes s)); [|done]. cbn. by destruct (may_merge_delete a k).
Qed.

Lemma sort_sorted l : StronglySorted (fun c d => c_txn c <= c_txn d) l -> sort_candidates l = l.
Proof.
  induction 1 as [|c l S IH F]; [done|]. cbn. unfold sort_candidates in IH. rewrite IH. destruct l as [|d l]; [done|]. cbn.
  apply list.Forall_cons in F as [F _]. destruct (Z.ltb_spec (c_txn d) (c_txn c)); [lia|done].
Qed.

Definition in_order (l : list source) : Prop := StronglySorted (fun s t => txn_id s <= txn_id t) l.

Lemma candidates_sorted (f : source -> list candidate) l : (forall s c, c ∈ f s -> c_txn c = txn_id s) -> (forall s, (length (f s) <= 1)%nat) ->
  in_order l -> StronglySorted (fun c d => c_txn c <= c_txn d) (flat_map f l).
Proof.
  intros Ht Hl. induction 1 as [|s l S IH F]; [constructor|]. cbn. specialize (Hl s). specialize (Ht s) as Hs. destruct (f s) as [|c [|]] eqn:E; [done| |simpl in Hl; lia].
  cbn. constructor; [done|]. apply list.Forall_forall. intros d Hd. apply list_elem_of_In, in_flat_map in Hd as (t & Ht1 & Ht2).
  apply list_elem_of_In in Ht1, Ht2. rewrite (Hs c) by left. rewrite (Ht t d Ht2). by apply (proj1 (list.Forall_forall _ _) F).
Qed.

Lemma move_views f c : views (move f c) = map f (views c).
Proof. unfold views, move. cbn. rewrite map_app. by destruct (write c). Qed.

Lemma choose_found_all k l o : Forall consistent l -> Forall (asked k) l ->
  choose a k o (flat_map (found_candidates k) (map (cursor_find k) l)) = foldl (fun o s => overlay k s o) o l.
Proof.
  revert o. induction l as [|s l IH]; intros o F A; [done|]. apply list.Forall_cons in F as [Fs F]. apply list.Forall_cons in A as [As A].
  cbn [map flat_map foldl]. rewrite choose_app, choose_found by done. by apply IH.
Qed.

Lemma found_txn k s c : c ∈ found_candidates k s -> c_txn c = txn_id s.
Proof. unfold found_candidates. destruct (_ || _); [|by intros ?%not_elem_of_nil]. intros Hc. by apply list_elem_of_singleton in Hc as ->. Qed.

Definition same_snapshot (s t : source) : Prop := txn_id s = txn_id t /\ data s = data t /\ deletes s = deletes t.

#[local] Instance same_snapshot_equiv : Equivalence same_snapshot.
Proof. split; [by intros s|by intros s t (? & ? & ?)|intros s t u (? & ? & ?) (? & ? & ?); repeat split; congruence]. Qed.

Lemma find_asked k l : Forall (asked k) l ->
  Forall2 (fun s t => same_snapshot s t /\ forall j, asked j s -> ~ j `prefix_of` k \/ j = k -> asked j t) l (map (cursor_find k) l).
Proof.
  induction 1 as [|s l [A1 A2] _ IH]; cbn [map]; constructor; [|exact IH]. split; [by repeat split|].
  intros j [B1 B2] Hp. split; by apply search_answers.
Qed.

(** What a key reads as: the tributaries laid over the main database. *)
Definition lookup_key (k : list Z) (l : list source) : option value := foldl (fun o s => overlay k s o) None l.

Lemma resolve_lookup k c : Forall consistent (views c) -> Forall (asked k) (views c) -> in_order (views c) -> (resolve_key a k c).1 = lookup_key k (views c).
Proof.
  intros Hc Ha Ho. unfold resolve_key, resolve_candidates_for_key. cbn [fst]. rewrite move_views, sort_sorted.
  - by apply choose_found_all.
  - apply candidates_sorted; [apply found_txn| |].
    + intros s. unfold found_candidates. destruct (_ || _); simpl; lia.
    + clear Hc Ha. induction Ho as [|s l S IH F]; [constructor|]. cbn. constructor; [done|]. apply list.Forall_forall. intros t Ht.
      apply list_elem_of_fmap in Ht as (u & -> & Hu). exact (proj1 (list.Forall_forall _ _) F u Hu).
Qed.

Lemma foldl_overlay_get k l base : Forall (fun s => NoDup (keys s)) l ->
  foldl (fun o s => overlay k s o) (get base k) l = get (foldl (do_merge a) base l) k.
Proof.
  revert base. induction l as [|s l IH]; intros base F; [done|]. apply list.Forall_cons in F as [Fs F]. cbn [foldl]. rewrite <- IH by done. by rewrite do_merge_get.
Qed.


(** ** A scan *)

Section scan.
(** The scan goes up or down. *)
Context (lt : list Z -> list Z -> bool).
Hypothesis lt_irrefl : forall k, lt k k = false.
Hypothesis lt_trans : forall i j k, lt i j = true -> lt j k = true -> lt i k = true.
Hypothesis lt_total : forall i j, lt i j = true \/ i = j \/ lt j i = true.

Lemma lt_chain i j k : lt i j = false -> lt j k = false -> lt i k = false.
Proof.
  intros H1 H2. destruct (lt i k) eqn:E; [|done]. destruct (lt_total i j) as [|[->|H]]; [congruence..|]. rewrite <- H2. symmetry. by apply (lt_trans j i k).
Qed.

Lemma extreme_spec ks : match extreme lt ks with
  | None => ks = []
  | Some k => k ∈ ks /\ Forall (fun j => lt j k = false) ks
  end.
Proof.
  induction ks as [|k ks IH]; [done|]. cbn. destruct (extreme lt ks) as [j|].
  - destruct IH as [H1 H2]. destruct (lt j k) eqn:E; (split; [by constructor|apply list.Forall_cons; split]); try done.
    + destruct (lt k j) eqn:E'; [|done]. rewrite <- (lt_irrefl k). symmetry. by apply (lt_trans k j k).
    + eapply Forall_impl; [|exact H2]. intros i Hi. by apply (lt_chain i j k).
  - subst ks. split; [left|]. apply list.Forall_singleton. apply lt_irrefl.
Qed.

Definition beyond (b : option (list Z)) (k : list Z) : bool := match b with Some j => lt j k | None => true end.

(** The cursor of a source stands at the first key beyond [b]. *)
(** Neither has a source a key and its deletion, nor does its cursor on the deletions
    stand at a key that is not deleted. *)
Definition settled (s : source) : Prop := consistent s /\ forall k, valid_key (del_position s) = Some k -> k ∈ deletes s.

Lemma standing_at o : valid_key (at_key o) = o.
Proof. by destruct o. Qed.

Lemma settled_step s : settled s -> settled (cursor_step lt s).
Proof. unfold cursor_step. by destruct (standing s). Qed.

Lemma settled_ask k s : settled s -> settled (del_find k s).
Proof.
  intros [C H]. split; [exact C|]. cbn [del_find del_position set_del_position deletes]. intros j. assert (valid_key (search (deletes s) k None) = Some j -> j ∈ deletes s) as Hf.
  { unfold search. destruct (bool_decide (deletes s = [])); [done|]. case_bool_decide; [by intros [= <-]|done]. }
  destruct (del_position s) as [[i ok]|] eqn:E; [|done]. rewrite search_again. destruct (decide (i = k)); [apply H|done].
Qed.

Definition ready (b : option (list Z)) (s : source) : Prop := settled s /\ standing s = extreme lt (List.filter (beyond b) (keys s)).

Definition left_over (b : option (list Z)) (l : list source) : nat := list_sum (map (fun s => length (List.filter (beyond b) (keys s))) l).

Definition held (l : list source) (k : list Z) : Prop := exists s, s ∈ l /\ k ∈ keys s.

Lemma in_filter {X} (f : X -> bool) l x : x ∈ List.filter f l <-> x ∈ l /\ f x = true.
Proof. rewrite !list_elem_of_In. apply filter_In. Qed.

Lemma ready_spec b s : ready b s -> match standing s with
  | None => forall j, j ∈ keys s -> beyond b j = false
  | Some k => k ∈ keys s /\ beyond b k = true /\ forall j, j ∈ keys s -> beyond b j = true -> lt j k = false
  end.
Proof.
  intros [_ ->]. pose proof (extreme_spec (List.filter (beyond b) (keys s))) as H. destruct (extreme lt _) as [k|].
  - destruct H as [H1 H2]. apply in_filter in H1 as [H1 H3]. split_and!; [done..|]. intros j Hj Hb. apply (proj1 (list.Forall_forall _ _) H2). by apply in_filter.
  - intros j Hj. destruct (beyond b j) eqn:E; [|done]. assert (j ∈ List.filter (beyond b) (keys s)) as Hin by by apply in_filter. rewrite H in Hin. by apply not_elem_of_nil in Hin.
Qed.

Definition go (k : list Z) (s : source) : source := if stands_at k s then cursor_step lt s else s.

Lemma go_snapshot k s : txn_id (go k s) = txn_id s /\ data (go k s) = data s /\ deletes (go k s) = deletes s.
Proof. unfold go, cursor_step. destruct (stands_at k s); [|done]. by destruct (standing s). Qed.

Lemma beyond_next b k j : beyond b k = true -> beyond (Some k) j = true -> beyond b j = true.
Proof. destruct b as [i|]; [|done]. cbn. apply lt_trans. Qed.

Lemma ready_go b k s : ready b s -> beyond b k = true -> (forall j, j ∈ keys s -> beyond b j = true -> lt j k = false) -> ready (Some k) (go k s).
Proof.
  intros R Hb Hm. unfold go, stands_at. case_bool_decide as E.
  - split; [by apply settled_step, R|]. unfold standing, cursor_step. rewrite E. cbn [position set_position]. apply standing_at.
  - pose proof (ready_spec b s R) as L. destruct R as [Q R]. split; [done|]. rewrite R in *. f_equal. apply List.filter_ext_in. intros j Hj. apply list_elem_of_In in Hj.
    destruct (beyond (Some k) j) eqn:E1; [by apply (beyond_next b k)|]. destruct (beyond b j) eqn:E2; [|done]. exfalso.
    destruct (lt_total k j) as [H|[->|H]]; [cbn in E1; congruence| |by rewrite (Hm j Hj E2) in H].
    destruct (extreme lt _) as [i|]; [|by rewrite (L j Hj) in E2]. destruct L as (L1 & L2 & L3). specialize (L3 j Hj E2). specialize (Hm i L1 L2).
    destruct (lt_total i j) as [|[->|]]; congruence.
Qed.

(** What the sources that hold a key say. *)
Definition held_candidates (k : list Z) (s : source) : list candidate :=
  if bool_decide (k ∈ keys s) then [Candidate (txn_id s) (default no_value (get (data s) k)) false] else [].
Definition scan_value (k : list Z) (l : list source) : option value := resolve_candidates_for_key a k (flat_map (held_candidates k) l).

Definition ask (k : list Z) (s : source) : source := if stands_at k s then del_find k s else s.

Lemma ready_ask b k s : ready b s -> ready b (ask k s).
Proof. intros [Q R]. unfold ask. destruct (stands_at k s); [|done]. split; [by apply settled_ask|exact R]. Qed.

Lemma standing_held b k s : ready b s -> beyond b k = true -> (forall j, j ∈ keys s -> beyond b j = true -> lt j k = false) ->
  standing_candidates k (ask k s) = held_candidates k s.
Proof.
  intros R Hb Hm. pose proof (ready_spec b s R) as L. assert (standing s = Some k <-> k ∈ keys s) as Hi.
  { destruct (standing s) as [i|].
    - destruct L as (L1 & L2 & L3). split; [by intros [= ->]|]. intros Hk. f_equal. specialize (L3 k Hk Hb). specialize (Hm i L1 L2). destruct (lt_total i k) as [|[|]]; congruence.
    - split; [done|]. intros Hk. by rewrite (L k Hk) in Hb. }
  assert (settled (ask k s)) as [[_ Q] D] by (by apply (ready_ask b)). unfold standing_candidates, held_candidates.
  assert (stands_at k (ask k s) = bool_decide (k ∈ keys s)) as -> by (transitivity (stands_at k s); [unfold ask; destruct (stands_at k s) eqn:E; exact E|by apply bool_decide_ext]).
  case_bool_decide as Hk; [|done]. assert (deletes (ask k s) = deletes s /\ keys (ask k s) = keys s /\ data (ask k s) = data s /\ txn_id (ask k s) = txn_id s) as (E1 & E2 & E3 & E4)
    by (unfold ask; by destruct (stands_at k s)). rewrite E3, E4. do 2 f_equal. apply bool_decide_eq_false_2. intros Hd%D. apply Q in Hd. by rewrite E2 in Hd.
Qed.

Lemma held_same l l' k : Forall2 same_snapshot l l' -> held l k -> held l' k.
Proof.
  intros F (s & Hs & Hk). apply list_elem_of_lookup in Hs as [i Hi]. destruct (Forall2_lookup_l _ _ _ _ _ F Hi) as (t & Ht & (_ & E & _)).
  exists t. split; [by apply list_elem_of_lookup_2 in Ht|]. unfold keys in *. by rewrite <- E.
Qed.

Lemma scan_value_same l l' k : Forall2 same_snapshot l l' -> scan_value k l = scan_value k l'.
Proof.
  intros F. unfold scan_value. f_equal. induction F as [|s t l l' (E1 & E2 & E3) _ IH]; [done|]. cbn. rewrite IH. f_equal. unfold held_candidates, keys. by rewrite E1, E2.
Qed.

Lemma left_over_same b l l' : Forall2 same_snapshot l l' -> left_over b l = left_over b l'.
Proof. unfold left_over, keys. intros F. f_equal. induction F as [|s t l l' (_ & E & _) _ IH]; [done|]. cbn [map]. by rewrite E, IH. Qed.

(** The smallest key a cursor stands at. *)
Lemma pick_spec b l : Forall (ready b) l -> match extreme lt (omap standing l) with
  | None => forall k, held l k -> beyond b k = false
  | Some k => held l k /\ beyond b k = true /\ Forall (fun s => forall j, j ∈ keys s -> beyond b j = true -> lt j k = false) l
  end.
Proof.
  intros F. pose proof (extreme_spec (omap standing l)) as H. rewrite list.Forall_forall in F. destruct (extreme lt _) as [k|].
  - destruct H as [H1 H2]. apply list_elem_of_omap in H1 as (s & Hs & Ek). pose proof (ready_spec b s (F s Hs)) as L. rewrite Ek in L. destruct L as (L1 & L2 & _).
    split_and!; [by exists s|done|]. apply list.Forall_forall. intros t Ht j Hj Hb. pose proof (ready_spec b t (F t Ht)) as L. destruct (standing t) as [i|] eqn:Ei; [|by rewrite (L j Hj) in Hb].
    destruct L as (_ & _ & L3). apply (lt_chain j i k); [by apply L3|]. apply (proj1 (list.Forall_forall _ _) H2). apply list_elem_of_omap. by exists t.
  - intros k (s & Hs & Hk). pose proof (ready_spec b s (F s Hs)) as L. destruct (standing s) as [i|] eqn:Ei; [|by apply L].
    assert (i ∈ omap standing l) as Hin by (apply list_elem_of_omap; by exists s). rewrite H in Hin. by apply not_elem_of_nil in Hin.
Qed.

Lemma beyond_shorter b k ks : beyond b k = true -> (length (List.filter (beyond (Some k)) ks) <= length (List.filter (beyond b) ks))%nat.
Proof.
  intros Hb. induction ks as [|j ks IH]; [done|]. cbn [List.filter]. destruct (beyond (Some k) j) eqn:E; [rewrite (beyond_next b k j Hb E)|destruct (beyond b j)];
    cbn [length]; lia.
Qed.

Lemma beyond_drops b k ks : beyond b k = true -> k ∈ ks -> (length (List.filter (beyond (Some k)) ks) < length (List.filter (beyond b) ks))%nat.
Proof.
  intros Hb Hk. induction ks as [|j ks IH]; [by apply not_elem_of_nil in Hk|]. cbn [List.filter]. apply list.elem_of_cons in Hk as [<-|Hk].
  - assert (beyond (Some k) k = false) as -> by apply lt_irrefl. rewrite Hb. pose proof (beyond_shorter b k ks Hb). cbn [length]. lia.
  - specialize (IH Hk). destruct (beyond (Some k) j) eqn:E; [rewrite (beyond_next b k j Hb E)|destruct (beyond b j)]; cbn [length]; lia.
Qed.

Lemma left_over_cons b s l : left_over b (s :: l) = (length (List.filter (beyond b) (keys s)) + left_over b l)%nat.
Proof. done. Qed.

Lemma left_over_drops b k l : beyond b k = true -> held l k -> (left_over (Some k) l < left_over b l)%nat.
Proof.
  intros Hb (s & Hs & Hk). assert (forall l, (left_over (Some k) l <= left_over b l)%nat) as Hle.
  { intros l'. induction l' as [|t l' IH]; [done|]. rewrite !left_over_cons. pose proof (beyond_shorter b k (keys t) Hb). lia. }
  induction l as [|t l IH]; [by apply not_elem_of_nil in Hs|]. rewrite !left_over_cons. apply list.elem_of_cons in Hs as [<-|Hs].
  - pose proof (beyond_drops b k (keys s) Hb Hk). specialize (Hle l). lia.
  - specialize (IH Hs). pose proof (beyond_shorter b k (keys t) Hb). lia.
Qed.

Lemma advance_spec n : forall b c, Forall (ready b) (views c) -> (left_over b (views c) < n)%nat -> exists c', advance a lt n c = Some c' /\
  Forall2 same_snapshot (views c) (views c') /\ pending_find c' = pending_find c /\
  if valid c' then
    held (views c) (iter_key c') /\ beyond b (iter_key c') = true /\ scan_value (iter_key c') (views c) = Some (value_storage c') /\
    Forall (ready (Some (iter_key c'))) (views c') /\
    forall j, held (views c) j -> beyond b j = true -> lt j (iter_key c') = true -> scan_value j (views c) = None
  else forall j, held (views c) j -> beyond b j = true -> scan_value j (views c) = None.
Proof.
  induction n as [|n IH]; intros b c R Hn; [lia|]. cbn [advance]. pose proof (pick_spec b (views c) R) as P. destruct (extreme lt (omap standing (views c))) as [k|].
  2: { eexists. split; [done|]. cbn. split; [|split; [done|]].
    - unfold views; cbn. apply Forall2_same_length_lookup_2; [done|]. intros i x y Hx Hy. by assert (x = y) as -> by congruence.
    - intros j Hj Hb. by rewrite (P j Hj) in Hb. }
  destruct P as (P1 & P2 & P3). fold (ask k) (go k). set (c0 := move (ask k) c). assert (views c0 = map (ask k) (views c)) as Ea by apply move_views.
  set (c1 := move (go k) c0). assert (views c1 = map (go k) (map (ask k) (views c))) as Ev by (unfold c1; by rewrite move_views, Ea).
  assert (Forall2 same_snapshot (views c) (views c1)) as Hs.
  { rewrite Ev. clear. induction (views c) as [|s l IH]; [constructor|]. cbn. constructor; [|exact IH]. destruct (go_snapshot k (ask k s)) as (E1 & E2 & E3).
    unfold same_snapshot. rewrite E1, E2, E3. unfold ask. by destruct (stands_at k s). }
  assert (Forall (ready (Some k)) (views c1)) as R1.
  { rewrite Ev, map_map. apply list.Forall_forall. intros t Ht. apply list_elem_of_fmap in Ht as (s & -> & Hin). rewrite list.Forall_forall in R. rewrite list.Forall_forall in P3.
    eapply ready_go; [by apply ready_ask, R|done|]. replace (keys (ask k s)) with (keys s); [by apply P3|]. unfold ask. by destruct (stands_at k s). }
  assert (resolve_candidates_for_key a k (flat_map (standing_candidates k) (views c0)) = scan_value k (views c)) as ->.
  { unfold scan_value. rewrite Ea. f_equal. clear -R P2 P3 lt_irrefl lt_trans lt_total. induction (views c) as [|s l IH]; [done|].
    apply list.Forall_cons in R as [Rs R]. apply list.Forall_cons in P3 as [Ps P3]. cbn. rewrite IH by done. f_equal. by eapply standing_held. }
  assert (forall j, held (views c) j -> beyond b j = true -> lt j k = false) as Hmin.
  { intros j (s & Hin & Hj) Hb. rewrite list.Forall_forall in P3. by apply (P3 s). }
  destruct (scan_value k (views c)) as [v|] eqn:Ew.
  - eexists. split; [done|]. cbn. split_and!; try done. intros j Hj Hb Hlt. by rewrite (Hmin j Hj Hb) in Hlt.
  - destruct (IH (Some k) (set_result k (valid c1) (value_storage c1) c1)) as (c' & E & S' & E' & H); [exact R1| |].
    { change (views (set_result k (valid c1) (value_storage c1) c1)) with (views c1). rewrite <- (left_over_same _ _ _ Hs). pose proof (left_over_drops b k (views c) P2 P1). lia. }
    change (views (set_result k (valid c1) (value_storage c1) c1)) with (views c1) in *. exists c'. split; [exact E|]. split; [by transitivity (views c1)|]. split; [by rewrite E'|].
    assert (forall j, held (views c) j -> beyond b j = true -> j = k \/ held (views c1) j /\ beyond (Some k) j = true) as Hsplit.
    { intros j Hj Hb. destruct (lt_total k j) as [|[|Hl]]; [right|by left|by rewrite (Hmin j Hj Hb) in Hl]. split; [by eapply held_same|done]. }
    destruct (valid c').
    + destruct H as (H1 & H2 & H3 & H4 & H5). split_and!; [|by apply (beyond_next b k)|by rewrite (scan_value_same _ _ _ Hs)|done|].
      * eapply held_same; [|exact H1]. by symmetry.
      * intros j Hj Hb Hlt. destruct (Hsplit j Hj Hb) as [->|[? ?]]; [done|]. rewrite (scan_value_same _ _ _ Hs). by apply H5.
    + intros j Hj Hb. destruct (Hsplit j Hj Hb) as [->|[? ?]]; [done|]. rewrite (scan_value_same _ _ _ Hs). by apply H.
Qed.

(** Every key from where the cursor stands. *)
Fixpoint collect (m n : nat) (c : cursor) : option (list (list Z * value)) :=
  match m with
  | O => None
  | S m =>
      if valid c then c' ← step a lt n c; l ← collect m n c'; Some ((iter_key c, value_storage c) :: l)
      else Some []
  end.

Definition scan (m n : nat) (c : cursor) : option (list (list Z * value)) := c ← start a lt n c; collect m n c.

Lemma ready_stays k c : Forall (ready (Some k)) (views c) -> Forall (ready (Some k)) (map (go k) (views c)).
Proof.
  intros R. apply list.Forall_forall. intros t Ht. apply list_elem_of_fmap in Ht as (s & -> & Hs). rewrite list.Forall_forall in R. specialize (R s Hs).
  unfold go, stands_at. case_bool_decide as E; [|done]. pose proof (ready_spec _ _ R) as L. rewrite E in L. destruct L as (_ & L & _). cbn in L. congruence.
Qed.

(** What is left of a scan behind [b]. *)
Definition rest_of (b : option (list Z)) (V : list source) (l : list (list Z * value)) : Prop :=
  StronglySorted (fun x y => lt x y = true) (map fst l) /\
  forall k v, (k, v) ∈ l <-> held V k /\ beyond b k = true /\ scan_value k V = Some v.

Lemma collect_spec m : forall n b c c0, Forall2 same_snapshot (views c0) (views c) -> (left_over b (views c0) < m)%nat -> (left_over None (views c0) < n)%nat -> pending_find c = false ->
  (if valid c then
    held (views c0) (iter_key c) /\ beyond b (iter_key c) = true /\ scan_value (iter_key c) (views c0) = Some (value_storage c) /\
    Forall (ready (Some (iter_key c))) (views c) /\
    forall j, held (views c0) j -> beyond b j = true -> lt j (iter_key c) = true -> scan_value j (views c0) = None
  else forall j, held (views c0) j -> beyond b j = true -> scan_value j (views c0) = None) ->
  exists l, collect m n c = Some l /\ rest_of b (views c0) l.
Proof.
  induction m as [|m IH]; intros n b c c0 Hs Hm Hn Hp H; [lia|]. cbn [collect]. destruct (valid c) eqn:Hv.
  2: { exists []. split; [done|]. split; [constructor|]. intros k v. split; [by intros ?%not_elem_of_nil|]. intros (H1 & H2 & H3). rewrite (H k H1 H2) in H3. done. }
  destruct H as (H1 & H2 & H3 & H4 & H5). unfold step, materialize_full. rewrite Hp, Hv. fold (go (iter_key c)). set (k := iter_key c) in *.
  assert (views (move (go k) c) = map (go k) (views c)) as Ev by apply move_views.
  assert (Forall2 same_snapshot (views c0) (views (move (go k) c))) as Hs1.
  { rewrite Ev. clear -Hs. induction Hs as [|s t l l' E _ IH]; [constructor|]. cbn. constructor; [|exact IH]. destruct (go_snapshot k t) as (? & ? & ?).
    transitivity t; [done|]. by repeat split. }
  destruct (advance_spec n (Some k) (move (go k) c)) as (c' & E & S' & Hp' & H').
  { rewrite Ev. by apply ready_stays. }
  { rewrite <- (left_over_same _ _ _ Hs1). pose proof (left_over_drops None k (views c0) eq_refl H1). lia. }
  destruct (IH n (Some k) c' c0) as (l & El & Ss & Hl).
  - by transitivity (views (move (go k) c)).
  - pose proof (left_over_drops b k (views c0) H2 H1). lia.
  - done.
  - by rewrite Hp'.
  - destruct (valid c').
    + destruct H' as (J1 & J2 & J3 & J4 & J5). split_and!; [|done|by rewrite (scan_value_same _ _ _ Hs1)|done|].
      * eapply held_same; [|exact J1]. by symmetry.
      * intros j Hj. rewrite (scan_value_same _ _ _ Hs1). apply J5. by eapply held_same.
    + intros j Hj. rewrite (scan_value_same _ _ _ Hs1). apply H'. by eapply held_same.
  - rewrite E. cbn [mbind option_bind]. rewrite El. eexists. split; [done|]. split.
    + cbn. constructor; [done|]. apply list.Forall_forall. intros j Hj. apply list_elem_of_fmap in Hj as ([j' v] & -> & Hj). apply Hl in Hj as (_ & Hj & _). exact Hj.
    + intros j v. rewrite list.elem_of_cons, Hl. split.
      * intros [[= -> ->]|(J1 & J2 & J3)]; [done|]. split_and!; [done|by apply (beyond_next b k)|done].
      * intros (J1 & J2 & J3). destruct (lt_total k j) as [|[<-|Hl']]; [by right| |by rewrite (H5 j J1 J2 Hl') in J3]. left. fold k. congruence.
Qed.

Lemma scan_spec c : Forall settled (views c) -> let n := S (left_over None (views c)) in exists l, scan n n c = Some l /\ rest_of None (views c) l.
Proof.
  intros Q n. unfold scan, start. set (c1 := move (cursor_start lt) (set_pending false c)).
  assert (views c1 = map (cursor_start lt) (views c)) as Ev by (unfold c1; rewrite move_views; done).
  assert (Forall2 same_snapshot (views c) (views c1)) as Hs.
  { rewrite Ev. clear. induction (views c) as [|s l IH]; [constructor|]. cbn. by constructor. }
  destruct (advance_spec n None c1) as (c' & E & S' & Hp & H).
  { rewrite Ev. apply list.Forall_forall. intros t Ht. apply list_elem_of_fmap in Ht as (s & -> & Hin). split; [exact (proj1 (list.Forall_forall _ _) Q s Hin)|].
    change (standing (cursor_start lt s)) with (valid_key (at_key (extreme lt (keys s)))). rewrite standing_at. change (keys (cursor_start lt s)) with (keys s). f_equal.
    clear. induction (keys s) as [|k ks IH]; [done|]. cbn [List.filter beyond]. by f_equal. }
  { rewrite <- (left_over_same _ _ _ Hs). lia. }
  rewrite E. cbn [mbind option_bind]. apply (collect_spec n n None c' c); [by transitivity (views c1)|lia..|by rewrite Hp|].
  destruct (valid c').
  - destruct H as (J1 & J2 & J3 & J4 & J5). split_and!; [|done|by rewrite (scan_value_same _ _ _ Hs)|done|].
    + eapply held_same; [|exact J1]. by symmetry.
    + intros j Hj. rewrite (scan_value_same _ _ _ Hs). apply J5. by eapply held_same.
  - intros j Hj. rewrite (scan_value_same _ _ _ Hs). apply H. by eapply held_same.
Qed.
End scan.

Lemma before_irrefl k : before k k = false.
Proof. unfold before. by rewrite lex_refl. Qed.

Lemma before_trans i j k : before i j = true -> before j k = true -> before i k = true.
Proof. unfold before. rewrite !Z.ltb_lt. apply lex_lt_trans. Qed.

Lemma before_total i j : before i j = true \/ i = j \/ before j i = true.
Proof. unfold before. rewrite !Z.ltb_lt. apply lex_total. Qed.

Lemma scan_value_held k l v : scan_value k l = Some v -> held l k.
Proof.
  intros E. destruct (flat_map (held_candidates k) l) as [|c cs] eqn:F; [unfold scan_value in E; by rewrite F in E|].
  assert (c ∈ flat_map (held_candidates k) l) as Hc by (rewrite F; left). apply list_elem_of_In, in_flat_map in Hc as (s & Hs & Hc). apply list_elem_of_In in Hs, Hc.
  unfold held_candidates in Hc. case_bool_decide; [by exists s|by apply not_elem_of_nil in Hc].
Qed.

(** The values of a source merged, without its deletions. *)
Definition put_all (l : list (list Z * value)) (s : source) : list (list Z * value) := foldl (apply_put a) l (data s).

Definition layer (k : list Z) (s : source) (o : option value) : option value :=
  match get (data s) k with
  | None => o
  | Some v =>
      match o with
      | None => if may_merge_add a k v then Some v else None
      | Some w => if may_merge_overwrite a k w v then Some v else Some w
      end
  end.

Lemma choose_held k s o : choose a k o (held_candidates k s) = layer k s o.
Proof.
  unfold held_candidates, layer. case_bool_decide as Hk; [|by rewrite (proj2 (get_none _ _) Hk)].
  apply get_is_some in Hk as [v Hv]. rewrite Hv. by destruct o.
Qed.

Lemma choose_layers k l o : choose a k o (flat_map (held_candidates k) l) = foldl (fun o s => layer k s o) o l.
Proof. revert o. induction l as [|s l IH]; intros o; [done|]. cbn [flat_map foldl]. by rewrite choose_app, choose_held, IH. Qed.

Lemma layers_get k l base : Forall consistent l -> foldl (fun o s => layer k s o) (get base k) l = get (foldl put_all base l) k.
Proof.
  revert base. induction l as [|s l IH]; intros base F; [done|]. apply list.Forall_cons in F as [[N _] F]. cbn [foldl]. rewrite <- IH by done.
  unfold put_all at 1. by rewrite puts_get.
Qed.

Lemma scan_value_puts k l : Forall consistent l -> in_order l -> scan_value k l = get (foldl put_all [] l) k.
Proof.
  intros F O. unfold scan_value, resolve_candidates_for_key. rewrite sort_sorted, choose_layers; [by apply (layers_get k l [])|].
  apply candidates_sorted; [|intros s; unfold held_candidates; case_bool_decide; simpl; lia|done].
  intros s c Hc. unfold held_candidates in Hc. case_bool_decide; [by apply list_elem_of_singleton in Hc as ->|by apply not_elem_of_nil in Hc].
Qed.

Lemma undeleted_get k l base : Forall consistent l -> (forall s, s ∈ l -> k ∉ deletes s) ->
  get (foldl put_all base l) k = get (foldl (do_merge a) base l) k.
Proof.
  intros F D. rewrite <- layers_get by done. rewrite <- foldl_overlay_get by (eapply Forall_impl; [|exact F]; by intros s []).
  generalize (get base k). clear F base. induction l as [|s l IH]; intros o; [done|]. cbn [foldl]. rewrite IH by (intros t Ht; apply D; by right).
  f_equal. unfold overlay, layer. rewrite bool_decide_eq_false_2 by (apply D; left). done.
Qed.

(** C12: where the sources are in the order of their transactions, none has a key together
    with its deletion, and no cursor on deletions stands at a key that is not deleted, a
    scan from the first or from the last key ends, and lists every key that merging the
    values of all sources in this order leaves, once, in ascending or descending order,
    with the value this leaves. The deletions have no say in it; a key that no source has
    deleted is listed exactly where the whole merge leaves it. *)
Theorem scan_lists_found c (asc : bool) : Forall settled (views c) -> in_order (views c) ->
  let lt := if asc then before else after in let n := S (left_over before None (views c)) in
  exists l, scan lt n n c = Some l /\ StronglySorted (fun x y => lt x y = true) (map fst l) /\
    (forall k v, (k, v) ∈ l <-> get (foldl put_all [] (views c)) k = Some v) /\
    (forall k v, (forall s, s ∈ views c -> k ∉ deletes s) -> (k, v) ∈ l <-> get (foldl (do_merge a) [] (views c)) k = Some v).
Proof.
  intros Q O lt n. assert (forall k, lt k k = false) as I1 by (intros k; unfold lt, after; destruct asc; apply before_irrefl).
  assert (forall i j k, lt i j = true -> lt j k = true -> lt i k = true) as I2 by (intros i j k; unfold lt, after; destruct asc; [apply before_trans|intros; by apply (before_trans k j i)]).
  assert (forall i j, lt i j = true \/ i = j \/ lt j i = true) as I3 by (intros i j; unfold lt, after; destruct (before_total i j) as [|[|]], asc; auto).
  assert (left_over before None (views c) = left_over lt None (views c)) as En.
  { unfold left_over. f_equal. }
  assert (Forall consistent (views c)) as C by (eapply Forall_impl; [|exact Q]; by intros s []).
  destruct (scan_spec lt I1 I2 I3 c Q) as (l & E & Hs & Hl). rewrite <- En in E. exists l.
  assert (forall k v, (k, v) ∈ l <-> get (foldl put_all [] (views c)) k = Some v) as Hp.
  { intros k v. rewrite Hl, <- scan_value_puts by done. split; [by intros (_ & _ & ?)|]. intros Ev. split_and!; [|done|done]. by apply (scan_value_held k _ v). }
  split_and!; [exact E|exact Hs|exact Hp|]. intros k v D. by rewrite Hp, undeleted_get.
Qed.
End search.

(** ** Witnesses *)

Definition accepting : aspect := Aspect (fun _ _ => true) (fun _ _ _ => true) (fun _ => true).
Definition val (n : Z) : value := ([n], false).

Definition main_ac (txn : Z) : source := Source txn [([97], val 1); ([99], val 3)] [] None None.
Definition sample_cursor (l : list source) (own : option source) : cursor := Cursor (main_ac 1) l own [] false false no_value.

(** The keys [b] and [c] in one tributary; [a] is deleted in another. *)
Definition layers : cursor := sample_cursor [Source 2 [([98], val 2); ([99], val 9)] [] None None; Source 3 [] [[97]] None None] None.

Lemma layers_consistent : Forall settled (views layers) /\ in_order (views layers).
Proof.
  split; [|repeat first [constructor | cbn; lia]].
  repeat (apply list.Forall_cons; split); try apply list.Forall_nil; try done; (split; [|done]); (split; [by apply (bool_decide_unpack _)|]); intros k Hk; cbn in *;
    try (by apply not_elem_of_nil in Hk); apply not_elem_of_nil.
Qed.


Lemma scan_lists_found_witness : exists l, scan accepting before 6 6 layers = Some l /\ ([98], val 2) ∈ l /\ ([99], val 9) ∈ l /\ ([99], val 3) ∉ l.
Proof.
  destruct (scan_lists_found accepting layers true (proj1 layers_consistent) (proj2 layers_consistent)) as (l & E & _ & Hl & _).
  exists l. split; [exact E|]. rewrite !Hl. split_and!; [done..|]. intros [=].
Defined.

(** ** Where the hypotheses fail *)

(** A tributary that deletes a key of the main database is not asked in a scan: the scan
    lists a key that a search does not find. *)
Theorem scan_lists_deleted_key : exists l, scan accepting before 9 9 layers = Some l /\ [97] ∈ map fst l /\ (is_valid accepting (find [97] layers)).1 = false.
Proof. eexists. split; [reflexivity|]. split; [left|reflexivity]. Qed.

(** After a search, [next] moves only the cursors of the sources that have the key; the
    others are not valid, and their keys are left out. *)
Theorem next_after_find_skips : exists c, next accepting 9 (find [97] (sample_cursor [Source 2 [([98], val 2)] [] None None] None)) = Some c /\
  valid c = true /\ iter_key c = [99] /\ (is_valid accepting (find [98] c)).1 = true.
Proof. eexists. split; [reflexivity|]. by split_and!. Qed.

(** The cursors stand behind the current key after [first] and [next], so [prev] goes
    forward. *)
Theorem prev_goes_forward : exists c c', first accepting 9 (sample_cursor [] None) = Some c /\ iter_key c = [97] /\
  prev accepting 9 c = Some c' /\ valid c' = true /\ iter_key c' = [99].
Proof. eexists _, _. split; [reflexivity|]. split; [reflexivity|]. split; [reflexivity|]. by split_and!. Qed.

(** Transactions of different databases are compared: once the main database has
    counted further than a tributary, its old value hides the newer one. *)
Theorem main_hides_newer_value :
  let c := Cursor (main_ac 7) [Source 2 [([99], val 9)] [] None None] None [] false false no_value in
  (read_value accepting (find [99] c)).1 = val 3 /\ get (do_merge accepting (data (main_ac 7)) (Source 2 [([99], val 9)] [] None None)) [99] = Some (val 9).
Proof. by split. Qed.

(** The deletion of a key is looked for at [current_key], which after a failed search is
    only the part of the key that leads into the trie: a key that was removed and
    written again stays deleted for readers, until the merge brings it back. *)
Theorem rewritten_key_stays_deleted :
  exists s, (tributary_remove [97; 99] (Source 2 [([97; 98], val 1); ([97; 99], val 2)] [] None None) ≫= tributary_value [97; 99] (val 5)) = Some s /\
  let c := Cursor (Source 1 [] [] None None) [] (Some s) [] false false no_value in
  ~ consistent s /\ (is_valid accepting (find [97; 99] c)).1 = false /\ get (do_merge accepting [] s) [97; 99] = Some (val 5).
Proof.
  eexists. split; [reflexivity|]. split; [|by split]. intros [_ H]. apply (H [97; 99]); left.
Qed.

(** The cursors of the sources live as long as the confluence cursor: after a search for a
    longer key that failed, the cursor of the database stands at the key, not valid, and
    the next search for it is skipped: it misses a key that is there. *)
Theorem find_after_longer_misses :
  let c := sample_cursor [] None in
  (is_valid accepting (find [99] c)).1 = true /\
  (is_valid accepting (find [99] (is_valid accepting (find [99; 100] c)).2)).1 = false.
Proof. by split. Qed.

(** The same with the cursor on the deletions: a search for a longer key makes a deleted
    key come back. *)
Theorem find_after_longer_undeletes :
  let c := Cursor (Source 1 [([97], val 1); ([97; 0], val 2)] [] None None) [Source 3 [] [[97]] None None] None [] false false no_value in
  (is_valid accepting (find [97] c)).1 = false /\
  (is_valid accepting (find [97] (is_valid accepting (find [97; 0] c)).2)).1 = true.
Proof. by split. Qed.
End confluencefacts.
