(* ===== verification/MergeTask.v ===== *)
(** * MergeTask: the wake-up of the merge job

    Models [_schedule_merge], [_request_drain_and_wait], [_schedule_merge_task] and
    [_run_merge_task] of [multi/_confluence_db.hpp] as steps on the atomic variables they
    share: any number of producers and of tasks interleave. A slot that waits for its
    merge is a unit of [merging]; [merge_tributary] makes it one of [merged], or, where
    merging throws, puts it back to its cursor, one of [attached]. What merging means is
    [Confluence]. *)
From S2P Require Import Prelude.

Module mergetask.

(** ** State *)

(** Where a producer is: a slot has been marked and the signal is still to be raised,
    or the signal has been raised and the task is to be submitted. *)
Inductive producer := Signal | Submit.

(** Where a task is: [sig] is the signal it has read, [left] counts the slots that a
    pass has collected and not yet merged. *)
Inductive task :=
  | Start
  | Collect (sig : nat)
  | Merge (sig left : nat)
  | Publish (sig : nat) (again : bool)
  | J1 (sig : nat)
  | J2 (sig : nat)
  | Gate.

Record world := World {
  merging : nat;
  merge_signal : nat;
  merge_done : nat;
  merge_task_active : bool;
  merge_task_inflight : nat;
  producers : list producer;
  tasks : list task;
  merged : nat;
  attached : nat
}.

(** What comes of a merge: [_do_merge] throws, or what is done with the slot after it. *)
Inductive merge_outcome := Done | MergeThrows | UnpinThrows.

Definition initial : world := World 0 0 0 false 0 [] [] 0 0.

Definition set_task_list (l : list task) (w : world) : world :=
  World (merging w) (merge_signal w) (merge_done w) (merge_task_active w) (merge_task_inflight w) (producers w) l (merged w) (attached w).
Definition set_producers (l : list producer) (w : world) : world :=
  World (merging w) (merge_signal w) (merge_done w) (merge_task_active w) (merge_task_inflight w) l (tasks w) (merged w) (attached w).
Definition set_merging (n : nat) (w : world) : world :=
  World n (merge_signal w) (merge_done w) (merge_task_active w) (merge_task_inflight w) (producers w) (tasks w) (merged w) (attached w).
Definition set_signal (n : nat) (w : world) : world :=
  World (merging w) n (merge_done w) (merge_task_active w) (merge_task_inflight w) (producers w) (tasks w) (merged w) (attached w).
Definition set_done (n : nat) (w : world) : world :=
  World (merging w) (merge_signal w) n (merge_task_active w) (merge_task_inflight w) (producers w) (tasks w) (merged w) (attached w).
Definition set_active (b : bool) (w : world) : world :=
  World (merging w) (merge_signal w) (merge_done w) b (merge_task_inflight w) (producers w) (tasks w) (merged w) (attached w).
Definition set_slots (m a : nat) (w : world) : world :=
  World (merging w) (merge_signal w) (merge_done w) (merge_task_active w) (merge_task_inflight w) (producers w) (tasks w) m a.
Definition set_inflight (n : nat) (w : world) : world :=
  World (merging w) (merge_signal w) (merge_done w) (merge_task_active w) n (producers w) (tasks w) (merged w) (attached w).

(** ** Producers *)

(** W1: a slot is marked, and the caller goes on to [_schedule_merge]. *)
Definition mark_slot (w : world) : world := set_producers (Signal :: producers w) (set_merging (S (merging w)) w).

(** [merge_now] and the age sweep raise the signal without a slot. *)
Definition request (w : world) : world := set_producers (Signal :: producers w) w.

(** W2 *)
Definition raise_signal (w : world) : world := set_signal (S (merge_signal w)) w.

(** [_schedule_merge_task]: the exchange of the flag and the submission. *)
Definition schedule_merge_task (w : world) : world :=
  if merge_task_active w then w
  else set_task_list (Start :: tasks w) (set_inflight (S (merge_task_inflight w)) (set_active true w)).

(** ** The task *)

Definition retire (w : world) : world := set_inflight (merge_task_inflight w - 1) w.

(** What a merge makes of a slot. *)
Definition merge_tributary (o : merge_outcome) (w : world) : world :=
  let w := set_merging (merging w - 1) w in
  match o with
  | MergeThrows => set_slots (merged w) (S (attached w)) w
  | _ => set_slots (S (merged w)) (attached w) w
  end.

(** One atomic step of a task: where it is then ([None] once it has returned), and what
    it does to the rest; [o] is what comes of the merge, if the step is one. A throw that
    [merge_tributary] does not catch ends the pass as if it had seen no slot. *)
Definition run_merge_task (o : merge_outcome) (t : task) (w : world) : option task * world :=
  match t with
  | Start => (Some (Collect (merge_signal w)), w)
  | Collect sig => (Some (Merge sig (merging w)), w)
  | Merge sig O => (Some (Publish sig false), w)
  | Merge sig (S n) =>
      (Some (match o, n with UnpinThrows, _ => Publish sig false | _, O => Publish sig true | _, _ => Merge sig n end), merge_tributary o w)
  | Publish sig again =>
      (Some (if again then Collect sig else J1 sig), if (merge_done w <? sig)%nat then set_done sig w else w)
  | J1 sig => (Some (J2 sig), set_active false w)
  | J2 sig =>
      if negb (merge_signal w =? sig)%nat || (0 <? merging w)%nat then (Some Gate, w) else (None, retire w)
  | Gate => if merge_task_active w then (None, retire w) else (Some Start, set_active true w)
  end.

(** ** Steps *)

Definition producer_step (p : producer) (w : world) : option producer * world :=
  match p with
  | Signal => (Some Submit, raise_signal w)
  | Submit => (None, schedule_merge_task w)
  end.

Definition keep {X} (o : option X) (l : list X) : list X := match o with Some x => x :: l | None => l end.

Inductive step : world -> world -> Prop :=
  | step_mark w : step w (mark_slot w)
  | step_request w : step w (request w)
  | step_producer w p l p' w' : producers w ≡ₚ p :: l -> producer_step p (set_producers l w) = (p', w') ->
      step w (set_producers (keep p' (producers w')) w')
  | step_task w t l o t' w' : tasks w ≡ₚ t :: l -> run_merge_task o t (set_task_list l w) = (t', w') ->
      step w (set_task_list (keep t' (tasks w')) w').

(** What goes on when nobody asks for more. *)
Inductive task_step : world -> world -> Prop :=
  | task_step_task w t l o t' w' : tasks w ≡ₚ t :: l -> run_merge_task o t (set_task_list l w) = (t', w') ->
      task_step w (set_task_list (keep t' (tasks w')) w').

Definition reachable : world -> Prop := rtc step initial.
End mergetask.
