(* ===== verification/MergeTaskFacts.v ===== *)
(** * MergeTaskFacts: no wake-up is lost

    However producers and tasks interleave, a slot that waits for its merge, or a signal
    that was not served, always has somebody who will look after it; and once nobody
    asks for more, the tasks end with everything served. *)
From S2P Require Import Prelude MergeTask.

Module mergetaskfacts.
Export mergetask.

(** The tasks before the flag is given up. *)
Definition owner (t : task) : bool :=
  match t with J2 _ | Gate => false | _ => true end.

Definition owners (l : list task) : nat := length (List.filter owner l).

(** What a task knows. *)
Definition knows (w : world) (t : task) : Prop :=
  match t with
  | Merge _ n => (n <= merging w)%nat
  | J1 sig | J2 sig => (sig <= merge_done w)%nat
  | _ => True
  end.

Record inv (w : world) : Prop := {
  inv_owner : owners (tasks w) = if merge_task_active w then 1%nat else 0%nat;
  inv_inflight : merge_task_inflight w = length (tasks w);
  inv_knows : Forall (knows w) (tasks w);
  inv_served : (0 < merging w \/ merge_done w < merge_signal w)%nat -> tasks w <> [] \/ producers w <> []
}.

#[export] Instance owners_proper : Proper ((≡ₚ) ==> eq) owners.
Proof. intros l k E. unfold owners. induction E; simpl in *; repeat case_match; simpl; lia. Qed.

Lemma owners_cons t l : owners (t :: l) = ((if owner t then 1 else 0) + owners l)%nat.
Proof. unfold owners. cbn [List.filter]. by destruct (owner t). Qed.

#[local] Arguments owners : simpl never.

Lemma tributary_tasks o w : tasks (merge_tributary o w) = tasks w.
Proof. by destruct o. Qed.

Lemma tributary_active o w : merge_task_active (merge_tributary o w) = merge_task_active w.
Proof. by destruct o. Qed.

Lemma tasks_set l w : tasks (set_task_list l w) = l.
Proof. done. Qed.

Lemma active_set l w : merge_task_active (set_task_list l w) = merge_task_active w.
Proof. done. Qed.

(** Slots are not lost: each that was merging is merged or back with its cursor. *)
Definition slots (w : world) : nat := (merging w + merged w + attached w)%nat.

Lemma tributary_slots o w : (0 < merging w)%nat -> slots (merge_tributary o w) = slots w.
Proof. unfold slots. destruct o; cbn; lia. Qed.

Lemma inv_initial : inv initial.
Proof. constructor; try done. simpl. lia. Qed.

Lemma inv_mark w : inv w -> inv (mark_slot w).
Proof.
  intros [H1 H2 H3 H4]. constructor; try done; [|by right]. eapply Forall_impl; [|exact H3]. intros []; cbn; lia.
Qed.

Lemma inv_request w : inv w -> inv (request w).
Proof. intros [H1 H2 H3 H4]. constructor; try done. by right. Qed.

Lemma inv_producer w p l p' w' : inv w -> producers w ≡ₚ p :: l -> producer_step p (set_producers l w) = (p', w') ->
  inv (set_producers (keep p' (producers w')) w').
Proof.
  intros [H1 H2 H3 H4] E. destruct p; cbn [producer_step]; intros [= <- <-].
  - constructor; try done. by right.
  - unfold schedule_merge_task. cbn [merge_task_active set_producers]. destruct (merge_task_active w) eqn:Ea.
    + constructor; cbn; rewrite ?Ea; try done. intros _. left. intros E'. by rewrite E' in H1.
    + constructor; cbn; rewrite ?owners_cons; cbn [owner]; try lia; [|by left]. constructor; [done|]. eapply Forall_impl; [|exact H3]. by intros [].
Qed.

Lemma inv_task w t l o t' w' : inv w -> tasks w ≡ₚ t :: l -> run_merge_task o t (set_task_list l w) = (t', w') ->
  inv (set_task_list (keep t' (tasks w')) w').
Proof.
  intros [H1 H2 H3 H4] E. rewrite E, owners_cons in H1. rewrite (Permutation_length E) in H2. rewrite E in H3. apply list.Forall_cons in H3 as [Ht Hl].
  cbn [length] in H2. destruct t as [|sig|sig n|sig again|sig|sig|]; cbn [run_merge_task owner] in *.
  - intros [= <- <-]. constructor; cbn; rewrite ?owners_cons; cbn [owner]; try done; [|by left]. by constructor.
  - intros [= <- <-]. constructor; cbn; rewrite ?owners_cons; cbn [owner]; try done; [|by left]. constructor; [cbn; lia|exact Hl].
  - assert (Forall (fun t => owner t = false) l) as Ho.
    { assert (owners l = 0%nat) as H0 by (destruct (merge_task_active w); lia). clear -H0. unfold owners in H0. induction l as [|t l IH]; [constructor|]. cbn [List.filter] in H0.
      destruct (owner t) eqn:Eo; [done|]. constructor; [done|by apply IH]. }
    destruct n as [|n]; intros [= <- <-].
    + constructor; cbn; rewrite ?owners_cons; cbn [owner]; try done; [by constructor|by left].
    + rewrite tributary_tasks. constructor.
      * rewrite tasks_set, active_set, tributary_active, tasks_set. cbn [keep]. rewrite owners_cons, active_set. destruct o, n; cbn [owner]; lia.
      * rewrite !tasks_set. destruct o, n; cbn; lia.
      * rewrite !tasks_set. constructor; [destruct o, n; cbn in *; lia|]. rewrite list.Forall_forall in Hl, Ho. apply list.Forall_forall.
        intros t Hin. specialize (Hl t Hin). specialize (Ho t Hin). by destruct t, o.
      * left. by rewrite tasks_set.
  - assert (forall n, (merge_done w <= n)%nat -> Forall (knows (set_done n w)) l) as Hm.
    { intros n Hn. eapply Forall_impl; [|exact Hl]. intros []; cbn; lia. }
    intros [= <- <-]. set (w1 := if (_ <? _)%nat then _ else _).
    assert (exists n, w1 = set_done n (set_task_list l w) /\ (merge_done w <= n)%nat /\ (sig <= n)%nat) as (n & -> & Hn1 & Hn2).
    { subst w1. cbn [merge_done set_task_list]. destruct (Nat.ltb_spec (merge_done w) sig); [by exists sig; split_and!; [|lia|]|]. exists (merge_done w). by split_and!; [|lia|]. }
    constructor; cbn; rewrite ?owners_cons; try done; [by destruct again| |by left]. constructor; [by destruct again|by apply Hm].
  - intros [= <- <-]. constructor; cbn; rewrite ?owners_cons.
    + destruct (merge_task_active w); cbn [owner]; lia.
    + done.
    + by constructor.
    + by left.
  - cbn in Ht. cbn [merge_signal merging set_task_list]. destruct (Nat.eqb_spec (merge_signal w) sig) as [Es|Es]; destruct (Nat.ltb_spec 0 (merging w)); cbn [negb orb]; intros [= <- <-];
      constructor; cbn; rewrite ?owners_cons; cbn [owner]; try done; try lia; try (by left); by constructor.
  - cbn [merge_task_active set_task_list]. destruct (merge_task_active w) eqn:Ea; intros [= <- <-]; constructor; cbn; rewrite ?owners_cons, ?Ea; cbn [owner].
    + lia.
    + lia.
    + exact Hl.
    + intros _. left. intros ->. unfold owners in H1. simpl in H1. lia.
    + lia.
    + done.
    + by constructor.
    + by left.
Qed.

Lemma inv_reachable w : reachable w -> inv w.
Proof.
  intros H. assert (forall v w, rtc step v w -> inv v -> inv w) as Hr; [|by apply (Hr initial); [|apply inv_initial]].
  clear. intros v w R. induction R as [|v w x St _ IH]; [done|]. intros I. apply IH. destruct St as [v|v|v p l p' w' E1 E2|v t l o t' w' E1 E2].
  - by apply inv_mark.
  - by apply inv_request.
  - by eapply inv_producer.
  - by eapply inv_task.
Qed.

(** ** The tasks end *)

Definition stale (w : world) (sig : nat) : bool := negb (merge_signal w =? sig)%nat.
Definition hot (w : world) (sig : nat) : bool := stale w sig || (0 <? merging w)%nat.

Lemma hot_any w s : stale w s = true -> hot w s = true.
Proof. unfold hot. by intros ->. Qed.

Definition weight (w : world) (t : task) : nat :=
  match t with
  | Start => 12
  | Gate => 13
  | Collect s => if stale w s then 18 else if (0 <? merging w)%nat then 11 else 5
  | Merge s O => if hot w s then 17 else 4
  | Merge s (S _) => if stale w s then 17 else 10
  | Publish s true => if stale w s then 19 else 12
  | Publish s false => if hot w s then 16 else 3
  | J1 s => if hot w s then 15 else 2
  | J2 s => if hot w s then 14 else 1
  end.

Definition weights (w : world) (l : list task) : nat := list_sum (map (weight w) l).
Definition measure (w : world) : nat := (10 * merging w + weights w (tasks w))%nat.

Lemma weights_perm w l k : l ≡ₚ k -> weights w l = weights w k.
Proof. unfold weights. intros E. induction E; simpl in *; lia. Qed.

Lemma weights_cons w t l : weights w (t :: l) = (weight w t + weights w l)%nat.
Proof. done. Qed.

(** The weights do not grow while the signal stays and slots are merged. *)
Lemma weights_shrink w w' l : merge_signal w' = merge_signal w -> (merging w' <= merging w)%nat -> (weights w' l <= weights w l)%nat.
Proof.
  intros Es Em. assert (forall s, stale w' s = stale w s) as Hs by (intros s; unfold stale; by rewrite Es).
  assert (forall s, hot w' s = true -> hot w s = true) as Hh.
  { intros s. unfold hot. rewrite Hs. destruct (stale w s); [done|]. destruct (Nat.ltb_spec 0 (merging w')), (Nat.ltb_spec 0 (merging w)); try done; lia. }
  induction l as [|t l IH]; [done|]. rewrite !weights_cons. assert (weight w' t <= weight w t)%nat; [|lia].
  assert (forall s x y, (y <= x)%nat -> (if hot w' s then x else y) <= (if hot w s then x else y))%nat as Hif.
  { intros s x y Hxy. destruct (hot w' s) eqn:E; [by rewrite (Hh s E)|]. destruct (hot w s); lia. }
  destruct t as [|s|s [|]|s [|]|s|s|]; cbn [weight]; rewrite ?Hs; try (apply Hif; lia); try lia.
  destruct (stale w s); [lia|]. destruct (Nat.ltb_spec 0 (merging w')), (Nat.ltb_spec 0 (merging w)); lia.
Qed.

Lemma measure_task w t l o t' w' : Forall (knows w) (tasks w) -> tasks w ≡ₚ t :: l -> run_merge_task o t (set_task_list l w) = (t', w') ->
  (measure (set_task_list (keep t' (tasks w')) w') < measure w)%nat.
Proof.
  intros K E H. unfold measure. rewrite (weights_perm w _ _ E), weights_cons. rewrite E in K. apply list.Forall_cons in K as [Kt _].
  assert (merge_signal w' = merge_signal w /\ tasks w' = l /\
    (merging w' = merging w /\ (match t' with Some t' => weight w' t' | None => 0 end < weight w t)%nat \/
     (S (merging w') = merging w)%nat /\ (match t' with Some t' => weight w' t' | None => 0 end < weight w t + 10)%nat)) as (Es & El & Hw).
  { destruct t as [|s|s n|s again|s|s|]; cbn [run_merge_task] in H.
    - injection H as <- <-. split_and!; [done..|]. left. split; [done|]. cbn [weight]. unfold stale. cbn [merge_signal merging set_task_list]. rewrite Nat.eqb_refl. cbn [negb]. destruct (0 <? merging w)%nat; lia.
    - injection H as <- <-. split_and!; [done..|]. left. split; [done|]. cbn [weight]. change (stale (set_task_list l w) s) with (stale w s). change (hot (set_task_list l w) s) with (hot w s).
      unfold hot. cbn [merging set_task_list]. destruct (stale w s); cbn [orb]; destruct (merging w); cbn; lia.
    - destruct n as [|n]; injection H as <- <-; (split_and!; [by destruct o..|]).
      + left. split; [done|]. cbn [weight]. change (hot (set_task_list l w) s) with (hot w s). destruct (hot w s); lia.
      + right. cbn in Kt. split; [destruct o; cbn; lia|]. pose proof (hot_any (merge_tributary o (set_task_list l w)) s) as Hh.
        assert (stale (merge_tributary o (set_task_list l w)) s = stale w s) as Es by by destruct o.
        destruct o, n; cbn [weight]; rewrite ?Es in *; destruct (stale w s), (hot _ s); try lia; by destruct Hh.
    - injection H as <- <-. set (w1 := if (_ <? _)%nat then _ else _).
      assert (exists n, w1 = set_done n (set_task_list l w)) as (n & ->).
      { subst w1. cbn [merge_done set_task_list]. destruct (merge_done w <? s)%nat; [by exists s|]. by exists (merge_done w). }
      split_and!; [done..|]. left. split; [done|]. destruct again; cbn [weight].
      + change (stale (set_done n (set_task_list l w)) s) with (stale w s). cbn [merging set_done set_task_list]. destruct (stale w s); [lia|]. destruct (0 <? merging w)%nat; lia.
      + change (hot (set_done n (set_task_list l w)) s) with (hot w s). destruct (hot w s); lia.
    - injection H as <- <-. split_and!; [done..|]. left. split; [done|]. cbn [weight]. change (hot (set_active false (set_task_list l w)) s) with (hot w s). destruct (hot w s); lia.
    - cbn [merge_signal merging set_task_list] in H. change (negb (merge_signal w =? s)%nat || (0 <? merging w)%nat) with (hot w s) in H. cbn. destruct (hot w s);
        injection H as <- <-; (split_and!; [done..|]); left; (split; [done|]); cbn; lia.
    - cbn [merge_task_active set_task_list] in H. destruct (merge_task_active w); injection H as <- <-; (split_and!; [done..|]); left; (split; [done|]); cbn; lia. }
  rewrite El. assert (measure (set_task_list (keep t' l) w') = 10 * merging w' + (match t' with Some t' => weight w' t' | None => 0 end + weights w' l))%nat as Em
    by (unfold measure; by destruct t').
  unfold measure in Em. rewrite Em. pose proof (weights_shrink w w' l Es). lia.
Qed.

Lemma task_step_keeps w w' : inv w -> task_step w w' ->
  inv w' /\ producers w' = producers w /\ slots w' = slots w /\ (merged w <= merged w')%nat /\ (attached w <= attached w')%nat /\ (measure w' < measure w)%nat.
Proof.
  intros I St. destruct St as [w t l o t' w' E1 E2]. split; [by eapply inv_task|].
  enough (producers w' = producers w /\ slots w' = slots w /\ (merged w <= merged w')%nat /\ (attached w <= attached w')%nat) as (H1 & H2 & H3 & H4).
  { split_and!; [done..|]. eapply measure_task; [apply I|done|done]. }
  pose proof (inv_knows _ I) as K. rewrite E1 in K. apply list.Forall_cons in K as [K _]. clear E1 I.
  destruct t as [|s|s [|n]|s again|s|s|]; cbn [run_merge_task] in E2; repeat case_match; injection E2 as <- <-; try done; cbn in K; unfold slots; destruct o; cbn; split_and!; try done; lia.
Qed.

Lemma task_step_exists w : tasks w <> [] -> exists w', task_step w w'.
Proof. intros H. destruct (tasks w) as [|t l] eqn:E; [done|]. destruct (run_merge_task Done t (set_task_list l w)) as [t' w'] eqn:R. eexists. eapply task_step_task; [by rewrite E|done]. Qed.

(** C14: from every reachable state in which no producer is under way, the tasks end
    however they are scheduled and whichever merges throw, and then no slot waits for its
    merge, every request is served, the flag is free, and each slot that waited has been
    merged or, where its merge threw, put back to its cursor. *)
Theorem requests_served w : reachable w -> producers w = [] ->
  sn task_step w /\ forall w', rtc task_step w w' -> nf task_step w' ->
    merging w' = 0%nat /\ (merge_signal w' <= merge_done w')%nat /\ merge_task_active w' = false /\ merge_task_inflight w' = 0%nat /\
    (merged w' + attached w' = merged w + attached w + merging w)%nat /\ (merged w <= merged w')%nat /\ (attached w <= attached w')%nat.
Proof.
  intros I%inv_reachable Ep. split.
  - clear Ep. remember (measure w) as n eqn:En. revert w I En. induction (lt_wf n) as [n _ IH]. intros w I ->. constructor. intros w' St.
    destruct (task_step_keeps w w' I St) as (I' & _ & _ & _ & _ & Hm). by eapply IH.
  - intros w' R. revert I Ep. induction R as [w|w v x St _ IH]; intros I Ep Hnf.
    + destruct I as [H1 H2 H3 H4]. assert (tasks w = []) as Et.
      { destruct (tasks w) as [|t l] eqn:E; [done|]. destruct Hnf. apply task_step_exists. by rewrite E. }
      assert (~ (0 < merging w \/ merge_done w < merge_signal w)%nat) as Hn by (intros H; by destruct (H4 H)).
      rewrite Et in H1, H2. cbn in H1, H2. destruct (merge_task_active w); [done|]. split_and!; (done || lia).
    + destruct (task_step_keeps w v I St) as (I' & Ep' & Hs & Hm & Ha & _).
      destruct (IH I' ltac:(by rewrite Ep') Hnf) as (J1 & J2 & J3 & J4 & J5 & J6 & J7). unfold slots in Hs. split_and!; (done || lia).
Qed.

(** ** Witness: a slot is marked while the task gives up the flag *)

Definition retiring : world := World 0 1 1 true 1 [] [J1 1] 1 0.

Lemma retiring_reachable : reachable retiring.
Proof.
  unfold reachable. eapply rtc_l; [apply step_mark|].
  eapply rtc_l; [eapply (step_producer _ Signal []); reflexivity|].
  eapply rtc_l; [eapply (step_producer _ Submit []); reflexivity|].
  eapply rtc_l; [eapply (step_task _ Start [] Done); reflexivity|].
  eapply rtc_l; [eapply (step_task _ (Collect 1) [] Done); reflexivity|].
  eapply rtc_l; [eapply (step_task _ (Merge 1 1) [] Done); reflexivity|].
  eapply rtc_l; [eapply (step_task _ (Publish 1 true) [] Done); reflexivity|].
  eapply rtc_l; [eapply (step_task _ (Collect 1) [] Done); reflexivity|].
  eapply rtc_l; [eapply (step_task _ (Merge 1 0) [] Done); reflexivity|].
  eapply rtc_l; [eapply (step_task _ (Publish 1 false) [] Done); reflexivity|].
  apply rtc_refl.
Qed.

(** The producer of a second slot finds the flag taken and leaves it to the task that
    is about to give it up. *)
Definition left_to_task : world := World 1 2 1 true 1 [] [J1 1] 1 0.

Lemma left_to_task_reachable : reachable left_to_task.
Proof.
  unfold reachable. transitivity retiring; [apply retiring_reachable|]. eapply rtc_l; [apply step_mark|].
  eapply rtc_l; [eapply (step_producer _ Signal []); reflexivity|].
  eapply rtc_l; [eapply (step_producer _ Submit []); reflexivity|]. apply rtc_refl.
Qed.

Lemma requests_served_witness : sn task_step left_to_task /\
  forall w', rtc task_step left_to_task w' -> nf task_step w' -> merging w' = 0%nat /\ (merged w' + attached w' = 2)%nat.
Proof.
  destruct (requests_served left_to_task left_to_task_reachable eq_refl) as [H1 H2]. split; [exact H1|].
  intros w' R N. destruct (H2 w' R N) as (H3 & _ & _ & _ & H4 & _). by split.
Defined.
End mergetaskfacts.
