(* ===== verification/Tributary.v ===== *)
(** * Tributary: the life of a slot

    Models the states and the pins of one slot of a confluence: [_try_claim],
    [merge_tributary], [_unpin_slot], [_recycle_slot], [_PinnedSource], and
    [start_transaction], [commit], [rollback], [_ensure_sources] and
    [_release_write_source] of [_ConfluenceCursor] in [multi/_confluence_db.hpp], as far
    as they touch the slot. Each thread is at one of the points between two atomic
    accesses; any number of threads interleave. *)
From S2P Require Import Prelude.

Module tributary.

Inductive slot_state := EMPTY | FIRST_WRITING | WRITING | ATTACHED | MERGING | MERGED.
#[export] Instance slot_state_dec : EqDecision slot_state.
Proof. solve_decision. Defined.

(** [already_merged] tells whether what the slot holds is in the main database. *)
Record slot := Slot { state : slot_state; refs : nat; already_merged : bool }.

Definition set_state (s : slot_state) (x : slot) : slot := Slot s (refs x) (already_merged x).
Definition set_refs (n : nat) (x : slot) : slot := Slot (state x) n (already_merged x).
Definition set_merged (b : bool) (x : slot) : slot := Slot (state x) (refs x) b.

(** Where a thread is. *)
Inductive point :=
  | Claimed      (** the slot is claimed, not yet pinned *)
  | InTxn        (** in a transaction *)
  | Attached     (** between two transactions *)
  | SawMerged    (** [start_transaction] found the slot merged *)
  | Reclaiming   (** it has taken the slot back *)
  | ReclaimReset (** it resets it *)
  | ReleaseSaw   (** [_release_write_source] found the slot attached *)
  | Parking      (** about to give up the pin *)
  | Unpinned     (** the last pin is given up, the state not yet looked at *)
  | Recycling    (** the state was [MERGED] *)
  | Resetting    (** nobody was active *)
  | SawReadable  (** a reader has looked at the state, not yet pinned *)
  | Reading
  | MergePin     (** the merge has marked the slot, not yet pinned it *)
  | Merging
  | MergeFailed.
#[export] Instance point_dec : EqDecision point.
Proof. solve_decision. Defined.

(** A cursor on the tributary: [reset_in_place] refuses to run beside one. *)
Definition has_cursor (t : point) : bool :=
  match t with InTxn | Attached | SawMerged | ReleaseSaw | Reading | Merging => true | _ => false end.

Definition readable (s : slot_state) : bool :=
  match s with WRITING | ATTACHED | MERGING => true | _ => false end.

(** [reset_in_place] *)
Definition is_active (others : list point) : bool := existsb has_cursor others.
Definition reset_in_place (x : slot) : slot := set_merged false x.

(** ** Threads that start *)

(** [_try_claim] *)
Definition try_claim (x : slot) : option (point * slot) :=
  match state x with EMPTY => Some (Claimed, set_state FIRST_WRITING x) | _ => None end.

(** [merge_tributary], under the lock of merges. *)
Definition merge_tributary (x : slot) : option (point * slot) :=
  match state x with ATTACHED | MERGING => Some (MergePin, set_state MERGING x) | _ => None end.

(** ** Steps of a thread *)

Definition pin (x : slot) : slot := set_refs (S (refs x)) x.

(** [fetch_sub] of [_unpin_slot]. *)
Definition unpin (x : slot) : option point * slot :=
  (if (refs x =? 1)%nat then Some Unpinned else None, set_refs (refs x - 1) x).

(** Both accesses of [_unpin_slot] in one. *)
Definition unpin_at_once (x : slot) : option point * slot :=
  (if (refs x =? 1)%nat && bool_decide (state x = MERGED) then Some Recycling else None, set_refs (refs x - 1) x).

(** [commit], above and below the threshold; a committed transaction is not merged. *)
Definition commit (threshold : bool) (x : slot) : option point * slot :=
  if threshold then (Some Parking, set_state MERGING x) else (Some Attached, set_state ATTACHED x).

Definition rollback (x : slot) : option point * slot :=
  match state x with
  | WRITING => (Some Attached, set_state ATTACHED x)
  | _ => (Some Parking, set_state MERGING x)
  end.

(** [start_transaction] with a slot from before. *)
Definition start_transaction (x : slot) : option point * slot :=
  match state x with
  | ATTACHED => (Some InTxn, set_state WRITING x)
  | MERGED => (Some SawMerged, x)
  | _ => (Some Parking, x)
  end.

(** The second exchange. *)
Definition take_back (x : slot) : option point * slot :=
  match state x with
  | MERGED => (Some Reclaiming, set_state FIRST_WRITING x)
  | _ => (Some Parking, x)
  end.

(** [reclaim_in_place]; where [reset_in_place] throws, the cursor keeps its pin. *)
Definition reclaim_in_place (others : list point) (x : slot) : option point * slot :=
  if is_active others then (Some Attached, x) else (Some ReclaimReset, x).

Definition release_write_source (x : slot) : option point * slot :=
  match state x with ATTACHED => (Some ReleaseSaw, x) | _ => (Some Parking, x) end.

Definition recycle_slot (others : list point) (x : slot) : option point * slot :=
  if is_active others then (None, x) else (Some Resetting, x).

(** How a thread goes on beside the [others]. With [careful], the pairs of accesses that
    the code leaves apart are one: giving up a pin and looking at the state, looking at
    the state and pinning, and releasing the slot of a cursor. *)
Inductive goes (careful : bool) (others : list point) : point -> slot -> option point -> slot -> Prop :=
  | goes_claimed x : goes careful others Claimed x (Some InTxn) (pin x)
  | goes_commit b x : goes careful others InTxn x (commit b x).1 (commit b x).2
  | goes_rollback x : goes careful others InTxn x (rollback x).1 (rollback x).2
  | goes_start x : goes careful others Attached x (start_transaction x).1 (start_transaction x).2
  | goes_take_back x : goes careful others SawMerged x (take_back x).1 (take_back x).2
  | goes_reclaim x : goes careful others Reclaiming x (reclaim_in_place others x).1 (reclaim_in_place others x).2
  | goes_reclaim_reset x : goes careful others ReclaimReset x (Some InTxn) (reset_in_place x)
  | goes_release x : careful = false -> goes careful others Attached x (release_write_source x).1 (release_write_source x).2
  | goes_release_store x : goes careful others ReleaseSaw x (Some Parking) (set_state MERGING x)
  | goes_release_at_once x : careful = true ->
      goes careful others Attached x (Some Parking) (if bool_decide (state x = ATTACHED) then set_state MERGING x else x)
  | goes_unpin x : careful = false -> goes careful others Parking x (unpin x).1 (unpin x).2
  | goes_unpin_at_once x : careful = true -> goes careful others Parking x (unpin_at_once x).1 (unpin_at_once x).2
  | goes_unpinned x : goes careful others Unpinned x (if bool_decide (state x = MERGED) then Some Recycling else None) x
  | goes_recycle x : goes careful others Recycling x (recycle_slot others x).1 (recycle_slot others x).2
  | goes_reset x : goes careful others Resetting x None (set_state EMPTY (reset_in_place x))
  | goes_pin_reader x : goes careful others SawReadable x (Some Reading) (pin x)
  | goes_park x : goes careful others Reading x (Some Parking) x
  | goes_merge_pin x : goes careful others MergePin x (Some Merging) (pin x)
  | goes_merged x : goes careful others Merging x (Some Parking) (set_state MERGED (set_merged true x))
  | goes_merge_fails x : goes careful others Merging x (Some MergeFailed) (set_state ATTACHED x)
  | goes_merge_failed x : goes careful others MergeFailed x None (set_refs (refs x - 1) x).

Definition merger (t : point) : bool := match t with MergePin | Merging | MergeFailed => true | _ => false end.

Definition keep (o : option point) (l : list point) : list point := match o with Some t => t :: l | None => l end.

(** ** All threads *)

Definition world : Type := slot * list point.
Definition initial : world := (Slot EMPTY 0 false, []).

Inductive step (careful : bool) : world -> world -> Prop :=
  | step_claim x l t y : try_claim x = Some (t, y) -> step careful (x, l) (y, t :: l)
  | step_look x l : careful = false -> readable (state x) = true -> step careful (x, l) (x, SawReadable :: l)
  | step_look_at_once x l : careful = true -> readable (state x) = true -> step careful (x, l) (pin x, Reading :: l)
  | step_merge x l t y : existsb merger l = false -> merge_tributary x = Some (t, y) -> step careful (x, l) (y, t :: l)
  | step_goes x l t others o y : l ≡ₚ t :: others -> goes careful others t x o y -> step careful (x, l) (y, keep o others).

Definition reachable (careful : bool) (w : world) : Prop := rtc (step careful) initial w.
End tributary.
