(* ===== verification/TributaryFacts.v ===== *)
(** * TributaryFacts: who may use a slot

    The count of pins is right however the threads interleave. If the pairs of accesses
    that belong together were one, a slot would have one owner at most, would be reset
    only while nobody else uses it, and would be merged once; the examples show what
    happens to these between the accesses that the code leaves apart. *)
From S2P Require Import Prelude Tributary.

Module tributaryfacts.
Export tributary.

Definition pinned (t : point) : bool :=
  match t with
  | Claimed | Unpinned | Recycling | Resetting | SawReadable | MergePin => false
  | _ => true
  end.
Definition owner (t : point) : bool :=
  match t with Claimed | InTxn | Attached | SawMerged | Reclaiming | ReclaimReset | ReleaseSaw => true | _ => false end.
Definition recycler (t : point) : bool := match t with Recycling | Resetting => true | _ => false end.

Definition count (f : point -> bool) (l : list point) : nat := length (List.filter f l).
#[global] Arguments count : simpl never.

#[export] Instance count_proper f : Proper ((≡ₚ) ==> eq) (count f).
Proof. intros l k E. unfold count. induction E; simpl in *; repeat case_match; simpl; lia. Qed.

Lemma count_cons f t l : count f (t :: l) = ((if f t then 1 else 0) + count f l)%nat.
Proof. unfold count. cbn [List.filter]. by destruct (f t). Qed.

Lemma count_zero f l : count f l = 0%nat -> Forall (fun t => f t = false) l.
Proof.
  intros H. induction l as [|t l IH]; [constructor|]. rewrite count_cons in H. destruct (f t) eqn:E; [lia|]. constructor; [done|]. apply IH. lia.
Qed.

Lemma existsb_count f l : existsb f l = false -> count f l = 0%nat.
Proof. induction l as [|t l IH]; [done|]. rewrite count_cons. cbn. destruct (f t); [done|]. exact IH. Qed.

(** ** Pins *)

Lemma goes_pins careful others t x o y : goes careful others t x o y -> refs x = count pinned (t :: others) -> refs y = count pinned (keep o others).
Proof.
  rewrite count_cons. intros G H.
  destruct G; cbn in *; unfold commit, rollback, start_transaction, take_back, reclaim_in_place, release_write_source, unpin, unpin_at_once, recycle_slot in *;
    repeat case_match; cbn [fst snd keep] in *; rewrite ?count_cons; cbn in *; lia.
Qed.

(** C15: the pins of a slot are counted right: in every reachable state [refs] is the
    number of the threads that hold one. *)
Theorem refs_count_pins careful x l : reachable careful (x, l) -> refs x = count pinned l.
Proof.
  intros R. remember (x, l) as w eqn:Ew. assert (refs w.1 = count pinned w.2) as H; [|by subst].
  clear Ew x l. unfold reachable in R. assert (refs initial.1 = count pinned initial.2) as H0 by done. revert H0.
  induction R as [w|v w z St _ IH]; [done|]. intros H0. apply IH. clear IH.
  destruct St as [x l t y E|x l _ _|x l _ _|x l t y _ E|x l t others o y E G]; cbn [fst snd] in *.
  - unfold try_claim in E. case_match; try done. injection E as <- <-. by rewrite count_cons.
  - by rewrite count_cons.
  - rewrite count_cons. cbn. lia.
  - unfold merge_tributary in E. case_match; try done; injection E as <- <-; by rewrite count_cons.
  - rewrite E in H0. by eapply goes_pins.
Qed.

(** ** The careful slot *)

Definition ok (x : slot) (t : point) : Prop :=
  match t with
  | Claimed => state x = FIRST_WRITING /\ already_merged x = false
  | InTxn => (state x = FIRST_WRITING \/ state x = WRITING) /\ already_merged x = false
  | Reclaiming | ReclaimReset => state x = FIRST_WRITING
  | MergePin | Merging => state x = MERGING
  | Recycling | Resetting => state x = MERGED
  | SawReadable | Unpinned | ReleaseSaw => False
  | _ => True
  end.

Record inv (x : slot) (l : list point) : Prop := {
  inv_pins : refs x = count pinned l;
  inv_owner : (count owner l <= 1)%nat;
  inv_merger : (count merger l <= 1)%nat;
  inv_ok : Forall (ok x) l;
  inv_alone : count recycler l = 0%nat \/ length l = 1%nat;
  inv_empty : state x = EMPTY -> l = [] /\ already_merged x = false;
  inv_unmerged : readable (state x) = true -> already_merged x = false
}.

Lemma inv_perm x l k : l ≡ₚ k -> inv x l -> inv x k.
Proof.
  intros E [H1 H2 H3 H4 H5 H6 H7]. constructor; rewrite <- ?E; try done. intros He. destruct (H6 He) as [-> ?]. by apply Permutation_nil_l in E as ->.
Qed.

Lemma ok_count x l f : Forall (ok x) l -> (forall t, ok x t -> f t = false) -> count f l = 0%nat.
Proof. intros H Hf. induction H as [|t l Ht _ IH]; [done|]. by rewrite count_cons, (Hf t Ht). Qed.

(** Beside an owner nobody recycles the slot, unless the owner is alone. *)
Lemma alone_others t l : recycler t = false -> count recycler (t :: l) = 0%nat \/ length (t :: l) = 1%nat -> count recycler l = 0%nat.
Proof. intros Ht [H|H]; [rewrite count_cons, Ht in H; lia|]. by destruct l. Qed.

Lemma inv_readable_alone x l : Forall (ok x) l -> readable (state x) = true -> count recycler l = 0%nat.
Proof. intros H Hr. eapply ok_count; [done|]. intros [] Ht; try done; cbn in Ht; by rewrite Ht in Hr. Qed.

(** What the threads beside [t] can be. *)
Definition beside (x : slot) (t u : point) : Prop :=
  ok x u /\ (owner t = true -> owner u = false) /\ (merger t = true -> merger u = false) /\ (recycler t = false -> recycler u = false).

Lemma count_beside f t l : (count f (t :: l) <= 1)%nat -> Forall (fun u => f t = true -> f u = false) l.
Proof.
  rewrite count_cons. intros H. destruct (f t); [|by apply list.Forall_true].
  eapply Forall_impl; [|apply (count_zero f); lia]. done.
Qed.

Lemma inv_beside x t l : inv x (t :: l) -> Forall (beside x t) l.
Proof.
  intros [_ H2 H3 H4 H5 _ _]. apply list.Forall_cons in H4 as [_ H4]. apply count_beside in H2. apply count_beside in H3.
  assert (Forall (fun u => recycler t = false -> recycler u = false) l) as Hr.
  { destruct (recycler t) eqn:Et; [by apply list.Forall_true|]. eapply Forall_impl; [|by apply (count_zero recycler), (alone_others t)]. done. }
  unfold beside. rewrite !list.Forall_and. tauto.
Qed.

Ltac others := match goal with H : Forall (beside _ _) _ |- _ => eapply Forall_impl; [|exact H]; unfold beside; intros t ?; destruct t; cbn in *; intuition congruence end.

Lemma last_pin x t l : inv x (t :: l) -> pinned t = true -> recycler t = false -> refs x = 1%nat -> state x = MERGED -> l = [].
Proof.
  intros I Hp Hr H1 Hs. pose proof (inv_beside _ _ _ I) as HB. rewrite (inv_pins _ _ I), count_cons, Hp in H1. assert (count pinned l = 0)%nat as Hz by lia.
  destruct l as [|u l]; [done|]. apply list.Forall_cons in HB as [(Hu & _ & _ & Hru) _]. rewrite count_cons in Hz.
  specialize (Hru Hr). destruct u; cbn in *; try done; intuition congruence.
Qed.

Lemma recycler_alone x t l : inv x (t :: l) -> recycler t = true -> l = [].
Proof. intros I Hr. destruct (inv_alone _ _ I) as [H|H]; [rewrite count_cons, Hr in H; lia|]. by destruct l. Qed.

Lemma inv_goes x t others o y : inv x (t :: others) -> goes true others t x o y -> inv y (keep o others).
Proof.
  intros I G. pose proof (goes_pins _ _ _ _ _ _ G (inv_pins _ _ I)) as Hp. pose proof (inv_beside _ _ _ I) as HB.
  pose proof (last_pin _ _ _ I) as Hl. pose proof (recycler_alone _ _ _ I) as Ha. assert (recycler t = false -> count recycler others = 0%nat) as Hr by (intros Hw; by apply (alone_others t), (inv_alone _ _ I)).
  destruct I as [_ H2 H3 H4 _ H6 H7]. rewrite !count_cons in *. apply list.Forall_cons in H4 as [Ht H4].
  assert (state x <> EMPTY) as Hne by (intros He; by destruct (H6 He)). clear H6.
  inversion G; subst; clear G; try done;
    unfold commit, rollback, start_transaction, take_back, reclaim_in_place, release_write_source, unpin_at_once, recycle_slot in *; repeat case_match; cbn [fst snd keep] in *;
    repeat match goal with H : _ && _ = true |- _ => apply andb_true_iff in H as [?%Nat.eqb_eq ?%bool_decide_eq_true] end;
    try (specialize (Ha eq_refl); subst others); try (rewrite Hl by done); try specialize (Hr eq_refl);
    constructor; rewrite ?count_cons; try done; try (cbn in *; lia);
    try (first [apply list.Forall_cons; split; [cbn in *; intuition congruence|] | idtac]; others);
    try (cbn in *; intuition congruence).
  all: try by match goal with H : state ?x0 = _ |- _ => rewrite H end.
  - intros _. case_bool_decide as Hs; [|done]. by apply H7; rewrite Hs.
  - unfold count; cbn; lia.
  - by constructor.
  - intros _. apply H7. cbn in Ht. by rewrite Ht.
Qed.

Lemma inv_step x l y k : inv x l -> step true (x, l) (y, k) -> inv y k.
Proof.
  intros I St. inversion St as [? ? t ? E|? ? Hc|? ? _ Hr|? ? t ? Hm E|? ? t others o ? E G]; subst; clear St; try done.
  - unfold try_claim in E. destruct (state x) eqn:Es; try done. injection E as <- <-. destruct I as [H1 H2 H3 H4 H5 H6 H7]. destruct (H6 Es) as [-> Hm].
    constructor; try done; [by constructor|by right].
  - destruct I as [H1 H2 H3 H4 H5 H6 H7]. constructor; rewrite ?count_cons; cbn; try done; try lia.
    + constructor; [done|]. eapply Forall_impl; [|exact H4]. intros [] H; exact H.
    + left. by eapply inv_readable_alone.
    + intros He. by rewrite He in Hr.
  - apply existsb_count in Hm. destruct I as [H1 H2 H3 H4 H5 H6 H7].
    assert ((state x = ATTACHED \/ state x = MERGING) /\ t = MergePin /\ y = set_state MERGING x) as (Hr & -> & ->) by (unfold merge_tributary in E; case_match; try done; injection E as <- <-; auto).
    assert (readable (state x) = true) as Hw by (by destruct Hr as [-> | ->]).
    constructor; rewrite ?count_cons; cbn; try done; try lia.
    + constructor; [done|]. apply count_zero in Hm. rewrite list.Forall_forall in H4. rewrite list.Forall_forall in Hm. rewrite list.Forall_forall. intros u Hu. specialize (H4 u Hu). specialize (Hm u Hu). destruct u; cbn in *; intuition congruence.
    + left. by eapply inv_readable_alone.
    + intros _. by apply H7.
  - apply (inv_perm _ _ _ E) in I. by eapply inv_goes.
Qed.

Lemma reachable_inv x l : reachable true (x, l) -> inv x l.
Proof.
  intros R. remember (x, l) as w eqn:Ew. assert (inv w.1 w.2) as H; [|by subst]. clear Ew x l. unfold reachable in R.
  assert (inv initial.1 initial.2) as H0 by (constructor; try done; try apply le_S, le_n; by constructor). revert H0.
  induction R as [w|[x l] [y k] z St _ IH]; [done|]. intros H0. apply IH. by eapply inv_step.
Qed.

(** if the pairs of accesses that belong together are one (giving up a pin and
    looking at the state, looking at the state and pinning, releasing the slot), then
    however the threads interleave: a slot has one owner at most; whoever recycles it is
    the only thread that uses it; and what is merged was not merged before. *)
Theorem careful_slot_is_safe x l : reachable true (x, l) ->
  (count owner l <= 1)%nat /\
  (forall t, t ∈ l -> recycler t = true -> l = [t]) /\
  (Merging ∈ l -> already_merged x = false).
Proof.
  intros R. apply reachable_inv in R as I. split_and!; [apply I| |].
  - intros t [l1 [l2 ->]]%list_elem_of_split Ht. assert (inv x (t :: l1 ++ l2)) as I' by (eapply inv_perm; [|exact I]; solve_Permutation).
    pose proof (recycler_alone _ _ _ I' Ht) as E. by apply app_eq_nil in E as [-> ->].
  - intros Hm. destruct I as [_ _ _ H4 _ _ H7]. rewrite list.Forall_forall in H4. apply H7. pose proof (H4 _ Hm) as Es. cbn in Es. by rewrite Es.
Qed.

(** ** Runs *)

Lemma run_goes careful x l t others o y w : l ≡ₚ t :: others -> goes careful others t x o y -> rtc (step careful) (y, keep o others) w -> rtc (step careful) (x, l) w.
Proof. intros E G. apply rtc_l. by eapply step_goes. Qed.

Ltac pick t := match goal with |- rtc _ (_, ?l) _ => match eval cbv in (list_find (fun u => u = t) l) with Some (?i, _) => let k := eval cbv in (delete i l) in eapply (run_goes _ _ l t k) end end; [solve_Permutation| |cbn].
Ltac claims := eapply rtc_l; [by eapply step_claim|cbn].
Ltac looks := eapply rtc_l; [by apply step_look|cbn].
Ltac merges := eapply rtc_l; [by eapply step_merge|cbn].
Ltac begins := claims; pick Claimed; [apply goes_claimed|].
Ltac gives_up := pick Parking; [by apply goes_unpin|].
Ltac merge_runs := merges; pick MergePin; [apply goes_merge_pin|]; pick Merging; [apply goes_merged|]; gives_up.
Ltac recycles := pick Unpinned; [apply goes_unpinned|]; pick Recycling; [apply goes_recycle|].
Ltac keeps := pick InTxn; [by apply (goes_commit _ _ false)|].

(** Who gives up the last pin and who finds the slot merged need not be one: the writer
    that has marked the slot and the merge both recycle it, and the slot gets two writers. *)
Theorem recycled_twice : exists x, reachable false (x, [InTxn; InTxn]).
Proof.
  eexists. unfold reachable, initial. begins. pick InTxn; [by apply (goes_commit _ _ true)|]. gives_up. merge_runs.
  recycles. recycles. pick Resetting; [apply goes_reset|]. begins. pick Resetting; [apply goes_reset|]. begins. apply rtc_refl.
Qed.

(** A reader that has seen the slot readable and pins it later is not noticed by the
    thread that recycles it. *)
Theorem reader_pins_too_late : exists x, reachable false (x, [Reading; Resetting]).
Proof.
  eexists. unfold reachable, initial. begins. keeps. looks. pick Attached; [by apply goes_release|]. pick ReleaseSaw; [apply goes_release_store|].
  gives_up. pick Unpinned; [apply goes_unpinned|]. merge_runs. recycles. pick SawReadable; [apply goes_pin_reader|]. apply rtc_refl.
Qed.

(** A cursor that is given up and a merge that is forced at the same time: what was merged
    is marked for a merge again. *)
Theorem merged_again : exists x l, already_merged x = true /\ reachable false (x, Merging :: l).
Proof.
  eexists _, _. unfold reachable, initial. split; [|begins; keeps; pick Attached; [by apply goes_release|]; merge_runs; pick ReleaseSaw; [apply goes_release_store|];
    merges; pick MergePin; [apply goes_merge_pin|]; apply rtc_refl]. done.
Qed.

(** A reader stops [reclaim_in_place]; the slot stays in [FIRST_WRITING] when everyone has
    gone, and nobody can use it any more. *)
Theorem reclaim_loses_slot : exists x, reachable false (x, []) /\ forall w, ~ step false (x, []) w.
Proof.
  eexists. split.
  - unfold reachable, initial. begins. keeps. looks. pick SawReadable; [apply goes_pin_reader|]. merge_runs.
    pick Attached; [apply goes_start|]. pick SawMerged; [apply goes_take_back|]. pick Reclaiming; [apply goes_reclaim|].
    pick Attached; [apply goes_start|]. gives_up. pick Reading; [apply goes_park|]. gives_up. pick Unpinned; [apply goes_unpinned|]. apply rtc_refl.
  - intros w St. inversion St as [? ? ? ? E|? ? ? E|? ? ? E|? ? ? ? ? E|? ? ? ? ? ? E ?]; subst; try done. by apply Permutation_nil_cons in E.
Qed.

(** A commit below the threshold and a merge, nothing at the same time. *)
Example refs_count_pins_witness : reachable false (Slot MERGED 1 true, [Attached]) /\ 1%nat = count pinned [Attached].
Proof.
  assert (reachable false (Slot MERGED 1 true, [Attached])) as R by (unfold reachable, initial; begins; keeps; merge_runs; apply rtc_refl).
  split; [exact R|]. exact (refs_count_pins _ _ _ R).
Defined.

Ltac gives_up_at_once := pick Parking; [by apply goes_unpin_at_once|].

(** The last pin is given up by the merge, which recycles the slot. *)
Example careful_slot_is_safe_witness : reachable true (Slot MERGED 0 true, [Recycling]) /\ forall t, t ∈ [Recycling] -> recycler t = true -> [Recycling] = [t].
Proof.
  assert (reachable true (Slot MERGED 0 true, [Recycling])) as R.
  { unfold reachable, initial. begins. pick InTxn; [by apply (goes_commit _ _ true)|]. gives_up_at_once. merges.
    pick MergePin; [apply goes_merge_pin|]. pick Merging; [apply goes_merged|]. gives_up_at_once. apply rtc_refl. }
  split; [exact R|]. apply (careful_slot_is_safe _ _ R).
Defined.
End tributaryfacts.
