(* ===== verification/Session.v ===== *)
(** * Session: the two machines of a replication session

    Models [ReplicationSenderFSM] and [ReplicationReceiverFSM] of
    [replication/_replication_fsm.hpp]: their states, what they do with every message in
    every state, what they hold, and what they report. What is in the tries that they
    exchange is a layer below with its own operations ([Transfer], [BigStream] and
    [Merger] model it); here it is a record of operations. Two queues stand for the
    transport. *)
From S2P Require Import Prelude.

Module session.

(** [DbType] *)
Inductive db_type := DB_MAIN | DB_DELETION.
#[export] Instance db_type_dec : EqDecision db_type.
Proof. solve_decision. Defined.

(** [ReplicationError] *)
Inductive error := NONE | SESSION_MISMATCH | INVALID_MESSAGE | INVALID_STATE | INTERNAL_ERROR | PAYLOAD_TOO_LARGE | RESOURCE_LIMIT.

(** [ReplicationEvents], without the progress. *)
Inductive event := on_complete | on_error (e : error).

Section session.
(** [D] and [R] are the data of the sender and of the receiver, [P] are payloads from the
    one to the other, [A] the acknowledgements of subtries. *)
Context {D R P A : Type}.

(** [ReplicationMsgType] *)
Inductive message :=
  | TRIE_DATA (p : P)
  | SUBTRIE_ACK (a : A)
  | COMPLETE
  | ERR (e : error)
  | FRACTION_COMPLETE
  | BIG_VALUE_DATA (p : P)
  | BIG_VALUE_ACK
  | BIG_VALUE_START (p : P).

(** A message of a session, or bytes that are none. *)
Inductive packet := Packet (session_id : Z) (m : message) | Junk.

(** What [_process_received_nodes] finds: the payload is malformed, or the nodes are
    taken in and the memory suffices for more, or it does not. *)
Inductive outcome := OutOfBounds | Acknowledge (r : R) | Fraction (r : R).

(** The layer below: [TransferTrieSender] with its stream of big values and the database
    of the sender; comparison, storing of big values and merge at the receiver. [None]
    is a malformed acknowledgement and a merge that throws. *)
Record layer := Layer {
  acquire : D -> D;
  begin : db_type -> D -> D;
  fill_buffer : D -> P * D;
  process_ack : A -> D -> option D;
  has_pending : D -> bool;
  has_pending_big_values : D -> bool;
  big_value_start : D -> P * D;
  big_value_chunk : D -> P * D;
  all_sent : D -> bool;
  clear_pending_big_values : D -> D;
  deletion_root : D -> bool;
  db_type_of : P -> option db_type;
  transition_db_type : db_type -> R -> R;
  process_received_nodes : P -> R -> outcome;
  prune_ack : R -> A * R;
  handle_start : P -> R -> error + R;
  handle_data : P -> R -> error + (bool * R);
  hold_pending_main : R -> R;
  merge_all_phases : R -> option R;
  restart : R -> R;
  oversize : message -> option nat
}.

Context (L : layer).

(** ** The sender *)

Inductive sender_state :=
  IDLE | SENDING | AWAITING_RESPONSE | AWAITING_BIG_VALUE_START_ACK | SENDING_BIG_VALUES | AWAITING_BIG_VALUE_ACK | SERR.

(** [pinned]: [_txn] holds the hash trie. *)
Record sender := Sender {
  state : sender_state;
  s_db_type : db_type;
  session_id : Z;
  s_error : error;
  pinned : bool;
  s_data : D;
  s_events : list event
}.

Definition set_state (x : sender_state) (s : sender) : sender := Sender x (s_db_type s) (session_id s) (s_error s) (pinned s) (s_data s) (s_events s).
Definition set_db_type (x : db_type) (s : sender) : sender := Sender (state s) x (session_id s) (s_error s) (pinned s) (s_data s) (s_events s).
Definition set_error (x : error) (s : sender) : sender := Sender (state s) (s_db_type s) (session_id s) x (pinned s) (s_data s) (s_events s).
Definition set_pinned (x : bool) (s : sender) : sender := Sender (state s) (s_db_type s) (session_id s) (s_error s) x (s_data s) (s_events s).
Definition set_data (x : D) (s : sender) : sender := Sender (state s) (s_db_type s) (session_id s) (s_error s) (pinned s) x (s_events s).
Definition report (e : event) (s : sender) : sender := Sender (state s) (s_db_type s) (session_id s) (s_error s) (pinned s) (s_data s) (e :: s_events s).

(** What it sends is in order. *)
Definition send (m : message) (s : sender) : sender * list packet := (s, [Packet (session_id s) m]).

Definition transition_to_error (e : error) (s : sender) : sender * list packet :=
  send (ERR e) (report (on_error e) (set_error e (set_state SERR (set_pinned false s)))).

Definition send_next_buffer (s : sender) : sender * list packet :=
  let '(p, d) := fill_buffer L (s_data s) in
  send (TRIE_DATA p) (set_state AWAITING_RESPONSE (set_data d s)).

Definition start_deletion_phase (s : sender) : sender * list packet :=
  send_next_buffer (set_state SENDING (set_data (begin L DB_DELETION (s_data s)) (set_db_type DB_DELETION s))).

Definition send_complete (s : sender) : sender * list packet :=
  if bool_decide (s_db_type s = DB_MAIN) && deletion_root L (s_data s) then start_deletion_phase s
  else send COMPLETE (set_state IDLE (report on_complete (set_pinned false s))).

Definition send_big_value_start (s : sender) : sender * list packet :=
  if has_pending_big_values L (s_data s) then
    let '(p, d) := big_value_start L (s_data s) in
    send (BIG_VALUE_START p) (set_state AWAITING_BIG_VALUE_START_ACK (set_data d s))
  else send_complete s.

Definition send_big_value_chunk (s : sender) : sender * list packet :=
  if all_sent L (s_data s) then send_complete (set_data (clear_pending_big_values L (s_data s)) s)
  else
    let '(p, d) := big_value_chunk L (s_data s) in
    send (BIG_VALUE_DATA p) (set_state AWAITING_BIG_VALUE_ACK (set_data d s)).

Definition handle_big_value_ack (s : sender) : sender * list packet :=
  match state s with
  | AWAITING_BIG_VALUE_START_ACK => send_big_value_chunk (set_state SENDING_BIG_VALUES s)
  | AWAITING_BIG_VALUE_ACK =>
      if all_sent L (s_data s) then send_complete (set_data (clear_pending_big_values L (s_data s)) s)
      else send_big_value_chunk (set_state SENDING_BIG_VALUES s)
  | _ => (s, [])
  end.

Definition handle_subtrie_ack (a : A) (s : sender) : sender * list packet :=
  match process_ack L a (s_data s) with
  | None => transition_to_error INVALID_MESSAGE s
  | Some d =>
      let s := set_data d s in
      if has_pending L d then send_next_buffer (set_state SENDING s)
      else if has_pending_big_values L d then send_big_value_start s
      else send_complete s
  end.

Definition handle_response (m : message) (s : sender) : sender * list packet :=
  match m with
  | COMPLETE => (set_state IDLE (report on_complete (set_pinned false s)), [])
  | SUBTRIE_ACK a => handle_subtrie_ack a s
  | BIG_VALUE_ACK => handle_big_value_ack s
  | FRACTION_COMPLETE => send_next_buffer (set_state SENDING (set_data (begin L (s_db_type s) (acquire L (s_data s))) s))
  | ERR e => (report (on_error e) (set_error e (set_state SERR s)), [])
  | _ => transition_to_error INVALID_MESSAGE s
  end.

Definition on_message_received (k : packet) (s : sender) : sender * list packet :=
  match k with
  | Junk => transition_to_error INVALID_MESSAGE s
  | Packet id m =>
      if negb (id =? session_id s) then transition_to_error SESSION_MISMATCH s
      else
        match state s with
        | AWAITING_RESPONSE | AWAITING_BIG_VALUE_START_ACK | AWAITING_BIG_VALUE_ACK => handle_response m s
        | IDLE => (s, [])
        | _ => transition_to_error INVALID_STATE s
        end
  end.

(** [begin] *)
Definition begin_sender (id : Z) (d : D) : sender * list packet :=
  send_next_buffer (Sender SENDING DB_MAIN id NONE true (begin L DB_MAIN (acquire L d)) []).

(** ** The receiver *)

Inductive receiver_state := RIDLE | RECEIVING | AWAITING_BIG_VALUES | RECEIVING_BIG_VALUES | RERR.

(** [r_pinned]: [_txn] holds the hash trie; [slot]: the replication slot is claimed. The
    session id is 0 until the first message. *)
Record receiver := Receiver {
  r_state : receiver_state;
  current_db_type : db_type;
  r_session_id : Z;
  r_error : error;
  r_pinned : bool;
  slot : bool;
  r_data : R;
  r_events : list event
}.

Definition r_set_state (x : receiver_state) (r : receiver) : receiver :=
  Receiver x (current_db_type r) (r_session_id r) (r_error r) (r_pinned r) (slot r) (r_data r) (r_events r).
Definition r_set_db_type (x : db_type) (r : receiver) : receiver :=
  Receiver (r_state r) x (r_session_id r) (r_error r) (r_pinned r) (slot r) (r_data r) (r_events r).
Definition r_set_session (x : Z) (r : receiver) : receiver :=
  Receiver (r_state r) (current_db_type r) x (r_error r) (r_pinned r) (slot r) (r_data r) (r_events r).
Definition r_set_error (x : error) (r : receiver) : receiver :=
  Receiver (r_state r) (current_db_type r) (r_session_id r) x (r_pinned r) (slot r) (r_data r) (r_events r).
Definition r_set_pinned (x : bool) (r : receiver) : receiver :=
  Receiver (r_state r) (current_db_type r) (r_session_id r) (r_error r) x (slot r) (r_data r) (r_events r).
Definition r_set_slot (x : bool) (r : receiver) : receiver :=
  Receiver (r_state r) (current_db_type r) (r_session_id r) (r_error r) (r_pinned r) x (r_data r) (r_events r).
Definition r_set_data (x : R) (r : receiver) : receiver :=
  Receiver (r_state r) (current_db_type r) (r_session_id r) (r_error r) (r_pinned r) (slot r) x (r_events r).
Definition r_report (e : event) (r : receiver) : receiver :=
  Receiver (r_state r) (current_db_type r) (r_session_id r) (r_error r) (r_pinned r) (slot r) (r_data r) (e :: r_events r).

Definition r_send (m : message) (r : receiver) : receiver * list packet := (r, [Packet (r_session_id r) m]).

(** [_transition_to_error]: nothing is sent before the id of the session is known. *)
Definition r_transition_to_error (e : error) (r : receiver) : receiver * list packet :=
  let r := r_report (on_error e) (r_set_slot false (r_set_error e (r_set_state RERR (r_set_pinned false r)))) in
  if r_session_id r =? 0 then (r, []) else r_send (ERR e) r.

Definition send_prune_ack (r : receiver) : receiver * list packet :=
  let '(a, d) := prune_ack L (r_data r) in
  r_send (SUBTRIE_ACK a) (r_set_data d r).

Definition send_big_value_ack (r : receiver) : receiver * list packet := r_send BIG_VALUE_ACK r.

Definition send_fraction_complete (r : receiver) : receiver * list packet :=
  match merge_all_phases L (r_data r) with
  | None => r_transition_to_error INTERNAL_ERROR r
  | Some d => r_send FRACTION_COMPLETE (r_set_data (restart L d) r)
  end.

Definition handle_trie_data (p : P) (r : receiver) : receiver * list packet :=
  match db_type_of L p with
  | None => r_transition_to_error INVALID_MESSAGE r
  | Some t =>
      let r := if bool_decide (t = current_db_type r) then r
               else r_set_db_type t (r_set_data (transition_db_type L t (r_data r)) r) in
      match process_received_nodes L p (r_data r) with
      | OutOfBounds => r_transition_to_error INVALID_MESSAGE r
      | Acknowledge d => send_prune_ack (r_set_data d r)
      | Fraction d => send_fraction_complete (r_set_data d r)
      end
  end.

Definition handle_big_value_start (p : P) (r : receiver) : receiver * list packet :=
  match handle_start L p (r_data r) with
  | inl e => r_transition_to_error e r
  | inr d => send_big_value_ack (r_set_state AWAITING_BIG_VALUES (r_set_data d r))
  end.

Definition handle_big_value_data (p : P) (r : receiver) : receiver * list packet :=
  match handle_data L p (r_data r) with
  | inl e => r_transition_to_error e r
  | inr (false, d) => send_big_value_ack (r_set_state RECEIVING_BIG_VALUES (r_set_data d r))
  | inr (true, d) =>
      send_big_value_ack (r_set_state RECEIVING
        (r_set_data (if bool_decide (current_db_type r = DB_MAIN) then hold_pending_main L d else d) r))
  end.

Definition handle_incoming (m : message) (r : receiver) : receiver * list packet :=
  match m with
  | TRIE_DATA p => handle_trie_data p r
  | BIG_VALUE_START p => handle_big_value_start p r
  | BIG_VALUE_DATA p => handle_big_value_data p r
  | COMPLETE =>
      match merge_all_phases L (r_data r) with
      | None => r_transition_to_error INTERNAL_ERROR r
      | Some d => (r_set_state RIDLE (r_report on_complete (r_set_pinned false (r_set_slot false (r_set_data d r)))), [])
      end
  | ERR e => (r_report (on_error e) (r_set_error e (r_set_state RERR (r_set_pinned false r))), [])
  | _ => r_transition_to_error INVALID_MESSAGE r
  end.

(** [_process_received_message] *)
Definition process_received_message (id : Z) (m : message) (r : receiver) : receiver * list packet :=
  let r := if r_session_id r =? 0 then r_set_session id r else r in
  if negb (id =? r_session_id r) then r_transition_to_error SESSION_MISMATCH r
  else
    match r_state r with
    | RECEIVING | AWAITING_BIG_VALUES | RECEIVING_BIG_VALUES => handle_incoming m r
    | RIDLE => (r, [])
    | RERR => r_transition_to_error INVALID_STATE r
    end.

(** [on_data_received]: of a message that is too large the header is consumed, and the
    rest comes in pieces that are no messages; their number is [oversize]. *)
Definition on_data_received (k : packet) (r : receiver) : receiver * list packet * list packet :=
  match k with
  | Junk => (r_transition_to_error INVALID_MESSAGE r, [])
  | Packet id m =>
      match oversize L m with
      | Some n => (r_transition_to_error PAYLOAD_TOO_LARGE r, replicate n Junk)
      | None => (process_received_message id m r, [])
      end
  end.

(** [begin] *)
Definition begin_receiver (d : R) : receiver := Receiver RECEIVING DB_MAIN 0 NONE true true d [].

(** ** Both *)

(** What is on the way to the receiver and to the sender. *)
Record world := World { w_sender : sender; w_receiver : receiver; to_receiver : list packet; to_sender : list packet }.

Definition initial (id : Z) (d : D) (r : R) : world :=
  let '(s, out) := begin_sender id d in World s (begin_receiver r) out [].

Inductive step : world -> world -> Prop :=
  | step_receiver s r k q q' : forall r' out rest, on_data_received k r = ((r', out), rest) ->
      step (World s r (k :: q) q') (World s r' (rest ++ q) (q' ++ out))
  | step_sender s r k q q' : forall s' out, on_message_received k s = (s', out) ->
      step (World s r q (k :: q')) (World s' r (q ++ out) q').

Definition reachable (id : Z) (d : D) (r : R) : world -> Prop := rtc step (initial id d r).
End session.

Arguments message : clear implicits.
Arguments packet : clear implicits.
Arguments outcome : clear implicits.
Arguments layer : clear implicits.
Arguments sender : clear implicits.
Arguments receiver : clear implicits.
Arguments world : clear implicits.
End session.
