(* ===== verification/SessionFacts.v ===== *)
(** * SessionFacts: what a replication session can do

    With messages of an accepted size the two machines go in step: one message at most
    is on the way, it is one that its receiver waits for, and without one both have
    ended. A session ends if the layer below makes progress. The examples at the end are
    what happens otherwise. *)
From S2P Require Import Prelude Session.

Module sessionfacts.
Export session.

Definition awaiting (x : sender_state) : bool :=
  match x with AWAITING_RESPONSE | AWAITING_BIG_VALUE_START_ACK | AWAITING_BIG_VALUE_ACK => true | _ => false end.
Definition active (x : receiver_state) : bool :=
  match x with RECEIVING | AWAITING_BIG_VALUES | RECEIVING_BIG_VALUES => true | _ => false end.

Section lockstep.
Context {D R P A : Type} (L : layer D R P A) (id : Z).
Local Abbreviation message := (message P A).
Local Abbreviation packet := (packet P A).
Local Abbreviation sender := (sender D).
Local Abbreviation receiver := (receiver R).

(** What the sender asks in a state, and what answers it. *)
Definition asks (x : sender_state) (m : message) : Prop :=
  match x, m with
  | AWAITING_RESPONSE, TRIE_DATA _ | AWAITING_BIG_VALUE_START_ACK, BIG_VALUE_START _ | AWAITING_BIG_VALUE_ACK, BIG_VALUE_DATA _ => True
  | _, _ => False
  end.
Definition answers (x : sender_state) (m : message) : Prop :=
  match x, m with
  | AWAITING_RESPONSE, SUBTRIE_ACK _ | AWAITING_RESPONSE, FRACTION_COMPLETE => True
  | AWAITING_BIG_VALUE_START_ACK, BIG_VALUE_ACK | AWAITING_BIG_VALUE_ACK, BIG_VALUE_ACK => True
  | _, _ => False
  end.

(** ** The sender *)

(** In the middle of a session, at its end, and after an error. *)
Definition open (s : sender) : Prop := session_id s = id /\ pinned s = true /\ s_events s = [].
Definition waits (s : sender) : Prop := awaiting (state s) = true /\ open s.
Definition finished (s : sender) : Prop := state s = IDLE /\ session_id s = id /\ pinned s = false /\ s_events s = [on_complete].
Definition failed (s : sender) : Prop := state s = SERR /\ session_id s = id /\ s_events s = [on_error (s_error s)].

Definition spoke (x : sender * list packet) : Prop :=
  exists m, x.2 = [Packet id m] /\
    (waits x.1 /\ asks (state x.1) m \/ finished x.1 /\ m = COMPLETE \/ failed x.1 /\ exists e, m = ERR e).

Lemma transition_to_error_spoke e s : open s -> spoke (transition_to_error e s).
Proof. intros (H1 & H2 & H3). eexists. split; [unfold transition_to_error, send; cbn; by rewrite H1|]. right. right. unfold failed. cbn. rewrite H3. split_and!; eauto. Qed.

Lemma send_next_buffer_spoke s : open s -> spoke (send_next_buffer L s).
Proof.
  intros (H1 & H2 & H3). unfold send_next_buffer. destruct (fill_buffer L (s_data s)) as [p d]. eexists. split; [cbn; by rewrite H1|]. left. by repeat split.
Qed.

Lemma send_complete_spoke s : open s -> spoke (send_complete L s).
Proof.
  intros Ho. unfold send_complete. destruct (_ && _); [by apply send_next_buffer_spoke|]. destruct Ho as (H1 & H2 & H3).
  eexists. split; [cbn; by rewrite H1|]. right. left. unfold finished. cbn. by rewrite H3.
Qed.

Lemma send_big_value_start_spoke s : open s -> spoke (send_big_value_start L s).
Proof.
  intros Ho. unfold send_big_value_start. destruct (has_pending_big_values L (s_data s)); [|by apply send_complete_spoke].
  destruct (big_value_start L (s_data s)) as [p d]. destruct Ho as (H1 & H2 & H3). eexists. split; [cbn; by rewrite H1|]. left. by repeat split.
Qed.

Lemma send_big_value_chunk_spoke s : open s -> spoke (send_big_value_chunk L s).
Proof.
  intros Ho. unfold send_big_value_chunk. destruct (all_sent L (s_data s)); [by apply send_complete_spoke|].
  destruct (big_value_chunk L (s_data s)) as [p d]. destruct Ho as (H1 & H2 & H3). eexists. split; [cbn; by rewrite H1|]. left. by repeat split.
Qed.

Lemma handle_big_value_ack_spoke s : open s -> answers (state s) BIG_VALUE_ACK -> spoke (handle_big_value_ack L s).
Proof.
  intros Ho Ha. unfold handle_big_value_ack. destruct (state s); try done; [by apply send_big_value_chunk_spoke|].
  destruct (all_sent L (s_data s)); [by apply send_complete_spoke|by apply send_big_value_chunk_spoke].
Qed.

Lemma handle_subtrie_ack_spoke a s : open s -> spoke (handle_subtrie_ack L a s).
Proof.
  intros Ho. unfold handle_subtrie_ack. destruct (process_ack L a (s_data s)) as [d|]; [|by apply transition_to_error_spoke].
  destruct (has_pending L d); [by apply send_next_buffer_spoke|]. destruct (has_pending_big_values L d); [by apply send_big_value_start_spoke|by apply send_complete_spoke].
Qed.

(** The sender goes on with every answer it waits for. *)
Lemma answered_spoke m s : waits s -> answers (state s) m -> spoke (on_message_received L (Packet id m) s).
Proof.
  intros [Hw Ho] Ha. unfold on_message_received. destruct Ho as (H1 & Ho). rewrite H1, Z.eqb_refl. cbn [negb].
  assert (open s) as Hs by done. assert (spoke (handle_response L m s)) as H; [|by destruct (state s)].
  destruct m; cbn [handle_response]; try (by destruct (state s)); [by apply handle_subtrie_ack_spoke|by apply send_next_buffer_spoke|by apply handle_big_value_ack_spoke].
Qed.

(** ** The receiver *)

Definition busy (r : receiver) : Prop :=
  active (r_state r) = true /\ (r_session_id r = 0 \/ r_session_id r = id) /\ r_pinned r = true /\ slot r = true /\ r_events r = [].
Definition merged (r : receiver) : Prop :=
  r_state r = RIDLE /\ r_session_id r = id /\ r_pinned r = false /\ slot r = false /\ r_events r = [on_complete].
Definition r_failed (r : receiver) : Prop :=
  r_state r = RERR /\ r_session_id r = id /\ r_pinned r = false /\ r_events r = [on_error (r_error r)].

(** The answer to what a sender in the state [x] has asked, or an error. *)
Definition replied (x : sender_state) (y : receiver * list packet) : Prop :=
  exists m, y.2 = [Packet id m] /\ (busy y.1 /\ answers x m \/ r_failed y.1 /\ slot y.1 = false /\ exists e, m = ERR e).

Lemma r_error_replied x e r : id <> 0 -> busy r -> r_session_id r = id -> replied x (r_transition_to_error e r).
Proof.
  intros Hid (H1 & H2 & H3 & H4 & H5) Hs. unfold r_transition_to_error. cbn. rewrite Hs. replace (id =? 0) with false by lia.
  eexists. split; [by rewrite <- Hs|]. right. unfold r_failed. cbn. rewrite H5. split_and!; eauto.
Qed.

Hypothesis id_set : id <> 0.

Lemma handle_trie_data_replied p r : busy r -> r_session_id r = id -> replied AWAITING_RESPONSE (handle_trie_data L p r).
Proof.
  intros Hb Hs. unfold handle_trie_data. destruct (db_type_of L p) as [t|]; [|by apply r_error_replied].
  set (r1 := if bool_decide _ then r else _).
  assert (busy r1 /\ r_session_id r1 = id) as [Hb1 Hs1] by (unfold r1; by case_bool_decide). clearbody r1.
  destruct (process_received_nodes L p (r_data r1)) as [|d|d]; [by apply r_error_replied| |].
  - unfold send_prune_ack. cbn. destruct (prune_ack L d) as [a d']. eexists. split; [cbn; by rewrite Hs1|]. by left.
  - unfold send_fraction_complete. cbn [r_data r_set_data]. destruct (merge_all_phases L d); [|by apply r_error_replied].
    eexists. split; [cbn; by rewrite Hs1|]. by left.
Qed.

Lemma handle_big_value_start_replied p r : busy r -> r_session_id r = id -> replied AWAITING_BIG_VALUE_START_ACK (handle_big_value_start L p r).
Proof.
  intros Hb Hs. unfold handle_big_value_start. destruct (handle_start L p (r_data r)); [by apply r_error_replied|].
  eexists. split; [cbn; by rewrite Hs|]. left. split; [|done]. by destruct Hb as (_ & Hb).
Qed.

Lemma handle_big_value_data_replied p r : busy r -> r_session_id r = id -> replied AWAITING_BIG_VALUE_ACK (handle_big_value_data L p r).
Proof.
  intros Hb Hs. unfold handle_big_value_data. destruct (handle_data L p (r_data r)) as [e|[b d]]; [by apply r_error_replied|].
  destruct b; (eexists; split; [cbn; by rewrite Hs|]; left; split; [|done]; by destruct Hb as (_ & Hb)).
Qed.

(** A message in the middle of the session is handled, with its id set. *)
Lemma process_busy m r : busy r ->
  exists r1, busy r1 /\ r_session_id r1 = id /\ current_db_type r1 = current_db_type r /\ r_data r1 = r_data r /\
    process_received_message L id m r = handle_incoming L m r1.
Proof.
  intros Hb. unfold process_received_message. set (r1 := if r_session_id r =? 0 then _ else r). exists r1.
  assert (busy r1 /\ r_session_id r1 = id /\ current_db_type r1 = current_db_type r /\ r_data r1 = r_data r) as (Hb1 & Hs1 & Ht & Hd).
  { unfold r1. destruct Hb as (H1 & H2 & H3). destruct (Z.eqb_spec (r_session_id r) 0) as [E|E]; [unfold busy; cbn; by auto|].
    destruct H2 as [H2|H2]; [done|]. unfold busy. by auto. }
  clearbody r1. rewrite Hs1, Z.eqb_refl. split_and!; try done. cbn [negb]. destruct Hb1 as [Hb1 _]. by destruct (r_state r1).
Qed.

(** The receiver answers everything that is asked of it. *)
Lemma asked_replied x m r : busy r -> asks x m -> replied x (process_received_message L id m r).
Proof.
  intros Hb Ha. destruct (process_busy m r Hb) as (r1 & Hb1 & Hs1 & _ & _ & ->).
  destruct x, m; try done; cbn [handle_incoming]; [by apply handle_trie_data_replied|by apply handle_big_value_start_replied|by apply handle_big_value_data_replied].
Qed.

(** ** Both *)

Inductive phase : world D R P A -> Prop :=
  | asked s r m : waits s -> asks (state s) m -> busy r -> phase (World s r [Packet id m] [])
  | answered s r m : waits s -> answers (state s) m -> busy r -> phase (World s r [] [Packet id m])
  | completing s r : finished s -> busy r -> phase (World s r [Packet id COMPLETE] [])
  | completed s r : finished s -> merged r -> phase (World s r [] [])
  | sender_error s r e : failed s -> busy r -> phase (World s r [Packet id (ERR e)] [])
  | receiver_error s r e : waits s \/ finished s -> r_failed r -> slot r = false -> phase (World s r [] [Packet id (ERR e)])
  | ended s r : finished s \/ failed s -> r_failed r -> phase (World s r [] []).

Hypothesis sizes_accepted : forall m, oversize L m = None.

Lemma spoke_phase s r out : spoke (s, out) -> busy r -> phase (World s r out []).
Proof. intros (m & E & [[Hw Ha]|[[Hf ->]|[Hf (e & ->)]]]) Hb; cbn in *; rewrite E; by constructor. Qed.

Lemma phase_step w w' : phase w -> step L w w' -> phase w'.
Proof.
  intros Hp St. destruct Hp as [s r m Hw Ha Hb|s r m Hw Ha Hb|s r Hf Hb|s r Hf Hm|s r e Hf Hb|s r e Hs Hr Hl|s r Hs Hr]; inversion St as [? ? ? ? ? r' out rest E|? ? ? ? ? s' out E]; subst; clear St.
  - cbn [on_data_received] in E. rewrite sizes_accepted in E. injection E as E <-. apply (asked_replied (state s) m r Hb) in Ha.
    rewrite E in Ha. destruct Ha as (m' & Em & [[Hb' Ha]|(Hr & Hl & e & ->)]); cbn in *; rewrite Em; [by apply answered|by apply receiver_error; auto].
  - apply (answered_spoke m s Hw) in Ha. rewrite E in Ha. rewrite app_nil_l. by apply spoke_phase.
  - cbn [on_data_received] in E. rewrite sizes_accepted in E. injection E as E <-. destruct (process_busy COMPLETE r Hb) as (r1 & Hb1 & Hs1 & _ & _ & E1).
    rewrite E1 in E. cbn [handle_incoming] in E. destruct (merge_all_phases L (r_data r1)) as [d|].
    + injection E as <- <-. apply completed; [done|]. destruct Hb1 as (_ & _ & _ & _ & H5). unfold merged. cbn. by rewrite H5.
    + destruct (r_error_replied (state s) INTERNAL_ERROR r1 id_set Hb1 Hs1) as (m' & Em & [[_ Ha]|(Hr & Hl & e & ->)]); rewrite E in *; cbn in *.
      * destruct Hf as [Hf _]. by rewrite Hf in Ha.
      * rewrite Em. apply receiver_error; auto.
  - cbn [on_data_received] in E. rewrite sizes_accepted in E. injection E as E <-. destruct (process_busy (ERR e) r Hb) as (r1 & Hb1 & Hs1 & _ & _ & E1).
    rewrite E1 in E. cbn [handle_incoming] in E. injection E as <- <-. apply ended; [by right|]. destruct Hb1 as (_ & _ & _ & _ & H5). unfold r_failed. cbn. by rewrite H5.
  - destruct Hs as [[Hw (H1 & H2 & H3)]|Hf].
    + unfold on_message_received in E. rewrite H1, Z.eqb_refl in E. cbn [negb] in E.
      assert ((s', out) = handle_response L (ERR e) s) as E' by (destruct (state s); done). cbn in E'. injection E' as -> ->.
      apply ended; [right|done]. unfold failed. cbn. by rewrite H3.
    + pose proof Hf as (H1 & H2 & _). unfold on_message_received in E. rewrite H1, H2, Z.eqb_refl in E. cbn in E. injection E as <- <-. apply ended; [by left|done].
Qed.

(** ** The session ends *)

Definition ends (x : sender * list packet) (r : receiver) : Prop := sn (step L) (World x.1 r x.2 []).

Lemma quiet_sn s r : sn (step L) (World s r [] []).
Proof. constructor. intros w' St. by inversion St. Qed.

Lemma receiver_error_sn s r e : waits s \/ finished s -> r_failed r -> slot r = false -> sn (step L) (World s r [] [Packet id (ERR e)]).
Proof.
  intros Hs Hr Hl. constructor. intros w' St. pose proof (phase_step _ _ (receiver_error s r e Hs Hr Hl) St) as Hp. inversion St as [|? ? ? ? ? s' out E]; subst.
  assert (out = []) as ->; [|apply quiet_sn].
  destruct Hs as [[Hw (H1 & _)]|(H1 & H2 & _)]; unfold on_message_received in E; [|by rewrite H1, H2, Z.eqb_refl in E; injection E as _ <-].
  rewrite H1, Z.eqb_refl in E. by destruct (state s); try done; injection E as _ <-.
Qed.

Lemma last_words s r m : finished s /\ m = COMPLETE \/ failed s /\ (exists e, m = ERR e) -> busy r -> sn (step L) (World s r [Packet id m] []).
Proof.
  intros Hs Hb. constructor. intros w' St. assert (phase (World s r [Packet id m] [])) as Hp by (destruct Hs as [[? ->]|[? (e & ->)]]; by constructor).
  apply (phase_step _ _ Hp) in St as Hp'. inversion St as [? ? ? ? ? r' out rest E|]; subst. cbn [on_data_received] in E. rewrite sizes_accepted in E. injection E as _ <-.
  assert (awaiting (state s) = false) as Hw by (by destruct Hs as [[(-> & _) _]|[(-> & _) _]]).
  cbn in *. inversion Hp' as [|? ? ? [Hw' _]| | | | |]; subst; [congruence|apply quiet_sn|by eapply receiver_error_sn|apply quiet_sn].
Qed.

Lemma asked_sn s r m : waits s -> asks (state s) m -> busy r ->
  (forall r1 r' m', busy r1 -> current_db_type r1 = current_db_type r -> r_data r1 = r_data r -> handle_incoming L m r1 = (r', [Packet id m']) ->
     busy r' -> answers (state s) m' -> ends (handle_response L m' s) r') ->
  sn (step L) (World s r [Packet id m] []).
Proof.
  intros Hw Ha Hb H. constructor. intros w' St. inversion St as [? ? ? ? ? r' out rest E|]; subst; clear St. cbn [on_data_received] in E. rewrite sizes_accepted in E.
  injection E as E <-. pose proof (asked_replied (state s) m r Hb Ha) as Hr. rewrite E in Hr. destruct Hr as (m' & Em & [[Hb' Ha']|(Hr & Hl & e & ->)]); cbn in *; subst out.
  - constructor. intros w' St. inversion St as [|? ? ? ? ? s' out E']; subst; clear St.
    destruct (process_busy m r Hb) as (r1 & Hb1 & _ & Ht & Hd & E1). rewrite E1 in E. specialize (H r1 r' m' Hb1 Ht Hd E Hb' Ha').
    assert (on_message_received L (Packet id m') s = handle_response L m' s) as Eo.
    { unfold on_message_received. destruct Hw as [Hw (H1 & _)]. rewrite H1, Z.eqb_refl. cbn [negb]. by destruct (state s). }
    rewrite Eo in E'. unfold ends in H. by rewrite E' in H.
  - by apply receiver_error_sn; [left| |].
Qed.

(** *** The stages of a session *)

(** What the layer below promises: a round that leaves something pending, and one that
    the receiver has ended by merging, leaves less to do; a chunk leaves less to send. *)
Record progress (todo : D -> db_type -> R -> nat) (left : D -> nat) : Prop := {
  round_ack d p d1 r r' i a d2 : fill_buffer L d = (p, d1) -> handle_trie_data L p r = (r', [Packet i (SUBTRIE_ACK a)]) ->
    process_ack L a d1 = Some d2 -> has_pending L d2 = true ->
    (todo d2 (current_db_type r') (r_data r') < todo d (current_db_type r) (r_data r))%nat;
  round_fraction d p d1 r r' i t : fill_buffer L d = (p, d1) -> handle_trie_data L p r = (r', [Packet i FRACTION_COMPLETE]) ->
    (todo (begin L t (acquire L d1)) (current_db_type r') (r_data r') < todo d (current_db_type r) (r_data r))%nat;
  chunk_sent d p d1 : all_sent L d = false -> big_value_chunk L d = (p, d1) -> (left d1 < left d)%nat
}.

Context (todo : D -> db_type -> R -> nat) (left : D -> nat) (Hpr : progress todo left).

Definition completes (t : db_type) : Prop := forall s r, open s -> s_db_type s = t -> busy r -> ends (send_complete L s) r.

Lemma chunk_ends t s r : completes t -> open s -> s_db_type s = t -> busy r -> ends (send_big_value_chunk L s) r.
Proof.
  intros Hc. remember (left (s_data s)) as n eqn:En. revert s r En. induction (lt_wf n) as [n _ IH]. intros s r -> Ho Ht Hb.
  unfold send_big_value_chunk. destruct (all_sent L (s_data s)) eqn:Ea; [by apply Hc|].
  destruct (big_value_chunk L (s_data s)) as [p d] eqn:Ed. pose proof (chunk_sent _ _ Hpr _ _ _ Ea Ed) as Hl.
  destruct Ho as (H1 & H2 & H3). unfold ends, send. cbn [fst snd session_id set_state set_data]. rewrite H1. apply asked_sn; [done|done|done|].
  intros r1 r' m' _ _ _ _ Hb' Ha. destruct m'; try (exfalso; exact Ha). cbn [handle_response]. unfold handle_big_value_ack. cbn.
  destruct (all_sent L d); [by apply Hc|]. eapply IH; [exact Hl|done|done|done|done].
Qed.

Lemma big_values_end t s r : completes t -> open s -> s_db_type s = t -> busy r -> ends (send_big_value_start L s) r.
Proof.
  intros Hc Ho Ht Hb. unfold send_big_value_start. destruct (has_pending_big_values L (s_data s)); [|by apply Hc].
  destruct (big_value_start L (s_data s)) as [p d]. destruct Ho as (H1 & H2 & H3). unfold ends, send. cbn [fst snd session_id set_state set_data]. rewrite H1. apply asked_sn; [done|done|done|].
  intros r1 r' m' _ _ _ _ Hb' Ha. destruct m'; try (exfalso; exact Ha). cbn [handle_response]. unfold handle_big_value_ack. cbn. by eapply chunk_ends.
Qed.

Lemma rounds_end t s r : completes t -> open s -> s_db_type s = t -> busy r -> ends (send_next_buffer L s) r.
Proof.
  intros Hc. remember (todo (s_data s) (current_db_type r) (r_data r)) as n eqn:En. revert s r En. induction (lt_wf n) as [n _ IH]. intros s r -> Ho Ht Hb.
  unfold send_next_buffer. destruct (fill_buffer L (s_data s)) as [p d1] eqn:Ef. pose proof Ho as (H1 & H2 & H3).
  unfold ends, send. cbn [fst snd session_id set_state set_data]. rewrite H1. apply asked_sn; [done|done|done|].
  intros r1 r' m' _ Et Ed E Hb' Ha. cbn [handle_incoming] in E. rewrite <- Et, <- Ed in IH. destruct m' as [|a| | | | | |]; try (exfalso; exact Ha); cbn [handle_response].
  - unfold handle_subtrie_ack. cbn [s_data set_state set_data]. destruct (process_ack L a d1) as [d2|] eqn:Ep.
    + destruct (has_pending L d2) eqn:Eh; [|destruct (has_pending_big_values L d2); [by eapply big_values_end|by apply Hc]].
      pose proof (round_ack _ _ Hpr _ _ _ _ _ _ _ _ Ef E Ep Eh) as Hl. eapply IH; [exact Hl|done|done|done|done].
    + unfold ends, transition_to_error, send. cbn. rewrite H1. apply last_words; [|done]. right. unfold failed. cbn. rewrite H3. by eauto.
  - pose proof (round_fraction _ _ Hpr _ _ _ _ _ _ (s_db_type s) Ef E) as Hl. eapply IH; [exact Hl|done|done|done|done].
Qed.

Lemma completes_all t : completes t.
Proof.
  assert (forall s r, open s -> busy r -> ends (send COMPLETE (set_state IDLE (report on_complete (set_pinned false s)))) r) as Hl.
  { intros s r (H1 & H2 & H3) Hb. unfold ends. cbn. rewrite H1. apply last_words; [|done]. left. unfold finished. cbn. by rewrite H3. }
  assert (completes DB_DELETION) as Hd.
  { intros s r Ho Ht Hb. unfold send_complete. rewrite Ht. cbn. by apply Hl. }
  destruct t; [|done]. intros s r Ho Ht Hb. unfold send_complete. rewrite Ht. cbn. destruct (deletion_root L (s_data s)); [|by apply Hl].
  by apply (rounds_end DB_DELETION).
Qed.

Lemma initial_ends d r : sn (step L) (initial L id d r).
Proof.
  unfold initial. destruct (begin_sender L id d) as [s out] eqn:E. assert (ends (begin_sender L id d) (begin_receiver r)) as H; [|by rewrite E in H].
  apply (rounds_end DB_MAIN); [apply completes_all|done|done|]. unfold busy. cbn. auto.
Qed.

Lemma initial_phase d r : phase (initial L id d r).
Proof.
  unfold initial. destruct (begin_sender L id d) as [s out] eqn:E. apply spoke_phase.
  - rewrite <- E. by apply send_next_buffer_spoke.
  - unfold busy, begin_receiver. cbn. auto.
Qed.

Lemma reachable_phase d r w : reachable L id d r w -> phase w.
Proof. intros Hr. pose proof (initial_phase d r) as Hp. unfold reachable in Hr. revert Hp. induction Hr as [|u v x St _ IH]; [done|]. intros Hp. apply IH. by eapply phase_step. Qed.
End lockstep.


(** ** A layer that counts *)

(** The sender has some buffers and some chunks left, the receiver merges some times for
    lack of memory. [acks]: acknowledgements parse; [merges]: a merge does not throw;
    [too_large]: of the messages that the receiver refuses. *)
Definition counting (acks merges : bool) (too_large : message (nat * db_type) unit -> bool) : layer (nat * nat * db_type) nat (nat * db_type) unit := {|
  acquire d := d;
  begin t d := (2%nat, match t with DB_MAIN => 1%nat | DB_DELETION => 0%nat end, t);
  fill_buffer d := let '(n, k, t) := d in ((n, t), ((n - 1)%nat, k, t));
  process_ack _ d := if acks then Some d else None;
  has_pending d := (0 <? d.1.1)%nat;
  has_pending_big_values d := (0 <? d.1.2)%nat;
  big_value_start d := ((0%nat, d.2), d);
  big_value_chunk d := let '(n, k, t) := d in ((k, t), (n, (k - 1)%nat, t));
  all_sent d := (d.1.2 =? 0)%nat;
  clear_pending_big_values d := d;
  deletion_root _ := true;
  db_type_of p := Some p.2;
  transition_db_type _ r := r;
  process_received_nodes _ r := match r with O => Acknowledge 0%nat | _ => Fraction r end;
  prune_ack r := (tt, r);
  handle_start _ r := inr r;
  handle_data _ r := inr (true, r);
  hold_pending_main r := r;
  merge_all_phases r := if merges then Some r else None;
  restart r := (r - 1)%nat;
  oversize m := if too_large m then Some 1%nat else None
|}.

Definition nothing (m : message (nat * db_type) unit) : bool := false.
Definition chunks (m : message (nat * db_type) unit) : bool := match m with BIG_VALUE_DATA _ => true | _ => false end.
Definition buffers (m : message (nat * db_type) unit) : bool := match m with TRIE_DATA _ => true | _ => false end.

Section play.
Context {D R P A : Type} (L : layer D R P A).

(** The next delivery, to the receiver first. *)
Definition deliver (w : world D R P A) : world D R P A :=
  match w with
  | World s r (k :: q) q' => let '((r', out), rest) := on_data_received L k r in World s r' (rest ++ q) (q' ++ out)
  | World s r [] (k :: q') => let '(s', out) := on_message_received L k s in World s' r out q'
  | World s r [] [] => w
  end.

Lemma deliver_steps w : rtc (step L) w (deliver w).
Proof.
  destruct w as [s r [|k q] q']; cbn.
  - destruct q' as [|k q']; [done|]. destruct (on_message_received L k s) as [s' out] eqn:E. apply rtc_once. by apply (step_sender L s r k [] q').
  - destruct (on_data_received L k r) as [[r' out] rest] eqn:E. apply rtc_once. by apply step_receiver.
Qed.

Lemma play_reachable id d r n : reachable L id d r (Nat.iter n deliver (initial L id d r)).
Proof. unfold reachable. induction n as [|n IH]; [done|]. cbn. etrans; [exact IH|apply deliver_steps]. Qed.
End play.

Lemma counting_progress acks merges too_large :
  progress (counting acks merges too_large) (fun d _ r => 3 * r + d.1.1)%nat (fun d => d.1.2).
Proof.
  constructor.
  - intros [[n k] t] p d1 r r' i a d2 Ef Eh Ep Hp. cbn in Ef. injection Ef as <- <-. cbn in Ep. destruct acks; [|done]. injection Ep as <-. apply Nat.ltb_lt in Hp. cbn [fst] in Hp.
    assert (r_data r' = 0 /\ r_data r = 0)%nat as [-> ->]; [|cbn; lia]. revert Eh. unfold handle_trie_data. cbn -[bool_decide].
    case_bool_decide; cbn; destruct (r_data r) as [|f] eqn:Er; unfold send_fraction_complete, send_prune_ack, r_transition_to_error, r_send; cbn; destruct merges; cbn; repeat case_match; intros Eh; by simplify_eq.
  - intros [[n k] t] p d1 r r' i t' Ef Eh. cbn in Ef. injection Ef as <- <-.
    assert (S (r_data r') = r_data r)%nat as <-; [|cbn; lia]. revert Eh. unfold handle_trie_data. cbn -[bool_decide].
    case_bool_decide; cbn; destruct (r_data r) as [|f] eqn:Er; unfold send_fraction_complete, send_prune_ack, r_transition_to_error, r_send; cbn; destruct merges; cbn; repeat case_match; intros Eh; simplify_eq; cbn; lia.
  - intros [[n k] t] p d1 Ea%Nat.eqb_neq Ec. cbn in Ec. injection Ec as <- <-. cbn [fst snd] in *. lia.
Qed.

(** ** Runs *)

Definition sample (acks merges : bool) (too_large : message (nat * db_type) unit -> bool) (fractions n : nat) : world (nat * nat * db_type) nat (nat * db_type) unit :=
  let L := counting acks merges too_large in Nat.iter n (deliver L) (initial L 1 (0%nat, 0%nat, DB_MAIN) fractions).

Lemma sample_reachable acks merges too_large fractions n :
  reachable (counting acks merges too_large) 1 (0%nat, 0%nat, DB_MAIN) fractions (sample acks merges too_large fractions n).
Proof. apply play_reachable. Qed.

Lemma nothing_refused acks merges m : oversize (counting acks merges nothing) m = None.
Proof. reflexivity. Qed.



(** The sender completes before the receiver merges, so it reports success also where the
    merge fails. *)
Theorem completed_without_merge : exists w, reachable (counting true false nothing) 1 (0%nat, 0%nat, DB_MAIN) 0%nat w /\
  to_receiver w = [] /\ to_sender w = [] /\ s_events (w_sender w) = [on_complete] /\ r_events (w_receiver w) = [on_error INTERNAL_ERROR].
Proof. exists (sample true false nothing 0 30). split; [apply sample_reachable|]. by vm_compute. Qed.

(** An error that the sender reports leaves the replication slot claimed. *)
Theorem remote_error_keeps_slot : exists w, reachable (counting false true nothing) 1 (0%nat, 0%nat, DB_MAIN) 0%nat w /\
  to_receiver w = [] /\ to_sender w = [] /\ r_state (w_receiver w) = RERR /\ slot (w_receiver w) = true.
Proof. exists (sample false true nothing 0 30). split; [apply sample_reachable|]. by vm_compute. Qed.

(** A first message that is too large is refused before the id of the session is known;
    the sender waits for an answer for good. *)
Theorem refused_first_message_hangs : exists w, reachable (counting true true buffers) 1 (0%nat, 0%nat, DB_MAIN) 0%nat w /\
  to_receiver w = [] /\ to_sender w = [] /\ state (w_sender w) = AWAITING_RESPONSE /\ r_state (w_receiver w) = RERR.
Proof. exists (sample true true buffers 0 30). split; [apply sample_reachable|]. by vm_compute. Qed.

(** Both machines have failed, and an error is on the way. *)
Definition stuck {D R P A} (w : world D R P A) : Prop :=
  state (w_sender w) = SERR /\ session_id (w_sender w) = 1 /\ r_state (w_receiver w) = RERR /\ r_session_id (w_receiver w) = 1 /\
  to_receiver w ++ to_sender w <> [] /\ Forall (fun k => exists e, k = Packet 1 (ERR e)) (to_receiver w ++ to_sender w).

Lemma stuck_step {D R P A} (L : layer D R P A) w w' : (forall e, oversize L (ERR e) = None) -> stuck w -> step L w w' -> stuck w'.
Proof.
  intros Hsz (H1 & H2 & H3 & H4 & _ & H6) St. destruct St as [s r k q q' r' out rest E|s r k q q' s' out E]; cbn in *.
  - apply list.Forall_cons in H6 as [[e ->] H6]. unfold on_data_received in E. rewrite Hsz in E. injection E as E <-.
    assert (r_transition_to_error INVALID_STATE r = (r', out)) as E' by (rewrite <- E; unfold process_received_message; cbn; rewrite H4; cbn; rewrite H4, H3; done).
    clear E. unfold r_transition_to_error in E'. cbn in E'. rewrite H4 in E'. cbn in E'. injection E' as <- <-. unfold stuck. cbn. rewrite app_assoc. split_and!; try done; [by intros [_ ?]%app_eq_nil|].
    apply Forall_app. split; [done|]. constructor; [exists INVALID_STATE; by rewrite ?H4|done].
  - apply Forall_app in H6 as [H5 H6]. apply list.Forall_cons in H6 as [[e ->] H6].
    assert (transition_to_error INVALID_STATE s = (s', out)) as E' by (rewrite <- E; unfold on_message_received; by rewrite H2, Z.eqb_refl, H1).
    clear E. injection E' as <- <-. unfold stuck. cbn. rewrite H2. split_and!; try done; [by intros [[_ ?]%app_eq_nil _]%app_eq_nil|]. rewrite <- app_assoc.
    apply Forall_app. split; [done|]. constructor; [by eexists|done].
Qed.

(** The rest of a later one is taken for messages; from the second error on the two
    machines answer every error with an error. *)
Theorem errors_go_on_forever : exists w, reachable (counting true true chunks) 1 (0%nat, 0%nat, DB_MAIN) 0%nat w /\
  forall w', rtc (step (counting true true chunks)) w w' -> to_receiver w' ++ to_sender w' <> [].
Proof.
  exists (sample true true chunks 0 10). split; [apply sample_reachable|]. intros w' R.
  assert (stuck (sample true true chunks 0 10)) as H.
  { vm_compute. split_and!; try done. apply list.Forall_singleton. by exists INVALID_STATE. }
  assert (stuck w') as (_ & _ & _ & _ & H' & _); [|exact H'].
  induction R as [w|w v w' St _ IH]; [done|]. apply IH. eapply stuck_step; [|exact H|exact St]. done.
Qed.
End sessionfacts.
