(* ===== verification/HashControl.v ===== *)
(** * HashControl: who may use the hash tries, and for which version

    Models [acquire_hash_trie], [release_hash_trie] and [_on_txn_freed] of
    [replication/_replication_db.hpp] as steps of any number of replication sessions on
    the fields of [HashTrieControl], beside a writer that commits versions and frees old
    ones. What an update of the tries does is [Hash]. *)
From S2P Require Import Prelude.

Module hashcontrol.

(** [hashed] is the version that [hashed_txn_offset] names, [None] for 0. The version
    whose entries the tries under [hash_root] and [deletion_hash_root] are of is
    [mirrored]; it is [None] after an update that was broken off. [txns] are the versions
    that are kept, the current one last, and [refs] their pins. *)
Record control := Control {
  update_lock : bool;
  ref_count : nat;
  hashed : option nat;
  mirrored : option nat;
  txns : list nat;
  refs : nat -> nat
}.

Definition set_lock (b : bool) (c : control) : control := Control b (ref_count c) (hashed c) (mirrored c) (txns c) (refs c).
Definition set_count (n : nat) (c : control) : control := Control (update_lock c) n (hashed c) (mirrored c) (txns c) (refs c).
Definition set_hashed (o : option nat) (c : control) : control := Control (update_lock c) (ref_count c) o (mirrored c) (txns c) (refs c).
Definition set_mirrored (o : option nat) (c : control) : control := Control (update_lock c) (ref_count c) (hashed c) o (txns c) (refs c).
Definition set_txns (l : list nat) (c : control) : control := Control (update_lock c) (ref_count c) (hashed c) (mirrored c) l (refs c).
Definition set_refs (v n : nat) (c : control) : control :=
  Control (update_lock c) (ref_count c) (hashed c) (mirrored c) (txns c) (fun u => if decide (u = v) then n else refs c u).

Definition current (c : control) : nat := default 0%nat (list.last (txns c)).
Definition pin (v : nat) (c : control) : control := set_refs v (S (refs c v)) c.
Definition unpin (v : nat) (c : control) : control := set_refs v (refs c v - 1) c.

(** ** The versions *)

Definition commit (c : control) : control := set_txns (txns c ++ [S (current c)]) c.

Definition on_txn_freed (v : nat) (c : control) : control :=
  if bool_decide (hashed c = Some v) then set_hashed None c else c.

(** The oldest version is freed when nobody pins it. *)
Definition collect (c : control) : option control :=
  match txns c with
  | v :: ((_ :: _) as vs) => if (refs c v =? 0)%nat then Some (set_txns vs (on_txn_freed v c)) else None
  | _ => None
  end.

(** ** Sessions *)

(** Where a session is: it holds the lock and has counted itself first, has pinned the
    current version, updates the tries; has counted itself later; uses the tries with a
    version pinned, as the one that they name or ([false]) for lack of a name; has given up
    the pin and not yet the count. *)
Inductive point :=
  | First
  | Checking (v : nat)
  | Updating (v : nat)
  | Second
  | Active (v : nat) (named : bool)
  | Unpinned.
#[export] Instance point_dec : EqDecision point.
Proof. solve_decision. Defined.

(** The lock is taken and the session counted; only the first one keeps the lock. *)
Definition enter (c : control) : option (point * control) :=
  if update_lock c then None
  else
    let c' := set_count (S (ref_count c)) c in
    if (ref_count c =? 0)%nat then Some (First, set_lock true c') else Some (Second, c').

Definition needs_update (v : nat) (c : control) : bool :=
  match hashed c with None => true | Some h => (h <? v)%nat end.

(** One step of a session; [full]: the update runs out of storage. *)
Definition session_step (full : bool) (t : point) (c : control) : option point * control :=
  match t with
  | First => (Some (Checking (current c)), pin (current c) c)
  | Checking v => if needs_update v c then (Some (Updating v), c) else (Some (Active v true), set_lock false c)
  | Updating v =>
      if full then (None, set_lock false (set_mirrored None c))
      else (Some (Active v true), set_lock false (set_hashed (Some v) (set_mirrored (Some v) c)))
  | Second =>
      match hashed c with
      | Some h => (Some (Active h true), pin h c)
      | None => (Some (Active (current c) false), pin (current c) (set_hashed None c))
      end
  | Active v _ => (Some Unpinned, unpin v c)
  | Unpinned => (None, set_count (ref_count c - 1) c)
  end.

(** ** All of them *)

Definition world : Type := control * list point.
Definition initial : world := (Control false 0 None None [1%nat] (fun _ => 0%nat), []).

Definition keep (o : option point) (l : list point) : list point := match o with Some t => t :: l | None => l end.

(** [fails]: whether an update can run out of storage. *)
Inductive step (fails : bool) : world -> world -> Prop :=
  | step_commit c l : step fails (c, l) (commit c, l)
  | step_collect c c' l : collect c = Some c' -> step fails (c, l) (c', l)
  | step_enter c c' l t : enter c = Some (t, c') -> step fails (c, l) (c', t :: l)
  | step_session c l t others full o c' : l ≡ₚ t :: others -> (full = true -> fails = true) -> session_step full t c = (o, c') ->
      step fails (c, l) (c', keep o others).

Definition reachable (fails : bool) (w : world) : Prop := rtc (step fails) initial w.
End hashcontrol.
