(* ===== verification/HashControlFacts.v ===== *)
(** * HashControlFacts: the hash tries and the version of a session

    As long as no update is broken off, the tries are only changed while one session is
    there, and a session that took its version from [hashed_txn_offset] finds them to be
    those of its version until it ends. The examples are what happens to the others. *)
From S2P Require Import Prelude HashControl.

Module hashcontrolfacts.
Export hashcontrol.

Definition holder (t : point) : bool := match t with First | Checking _ | Updating _ => true | _ => false end.
Definition holds (t : point) : option nat := match t with Checking v | Updating v | Active v _ => Some v | _ => None end.

Definition pins (v : nat) (l : list point) : nat := length (List.filter (fun t => bool_decide (holds t = Some v)) l).
#[global] Arguments pins : simpl never.

#[export] Instance pins_proper v : Proper ((≡ₚ) ==> eq) (pins v).
Proof. intros l k E. unfold pins. induction E; simpl in *; repeat case_match; simpl; lia. Qed.

Lemma pins_cons v t l : pins v (t :: l) = ((if bool_decide (holds t = Some v) then 1 else 0) + pins v l)%nat.
Proof. unfold pins. cbn [List.filter]. by case_match. Qed.

Lemma pins_zero v l t : pins v l = 0%nat -> t ∈ l -> holds t <> Some v.
Proof.
  intros H Ht Hv. apply list_elem_of_split in Ht as (l1 & l2 & ->). revert H. rewrite <- Permutation_middle, pins_cons, bool_decide_eq_true_2 by done. lia.
Qed.

Record inv (c : control) (l : list point) : Prop := {
  inv_count : ref_count c = length l;
  inv_lock : if update_lock c then exists t, l = [t] /\ holder t = true else Forall (fun t => holder t = false) l;
  inv_pins v : refs c v = pins v l;
  inv_held t v : t ∈ l -> holds t = Some v -> v ∈ txns c;
  inv_hashed h : hashed c = Some h -> mirrored c = Some h /\ h ∈ txns c;
  inv_active v : Active v true ∈ l -> mirrored c = Some v;
  inv_txns : txns c <> [];
  inv_current v : v ∈ txns c -> (v <= current c)%nat;
  inv_checking v h : Checking v ∈ l -> hashed c = Some h -> (h <= v)%nat
}.

Lemma control_perm c l k : l ≡ₚ k -> inv c l -> inv c k.
Proof.
  intros E [H1 H2 H3 H4 H5 H6 H7 H8 H9]. constructor; try done.
  - by rewrite <- E.
  - destruct (update_lock c); [|by rewrite <- E]. destruct H2 as (t & -> & Ht). exists t. split; [|done]. by apply Permutation_singleton_l in E.
  - intros v. by rewrite <- E.
  - intros t v Ht. rewrite <- E in Ht. by apply H4.
  - intros v Hv. rewrite <- E in Hv. by apply H6.
  - intros v h Hv. rewrite <- E in Hv. by apply H9.
Qed.

Lemma current_in c : txns c <> [] -> current c ∈ txns c.
Proof.
  intros H. unfold current. destruct (list.last (txns c)) as [v|] eqn:E; [|by apply last_None in E]. cbn.
  apply last_Some in E as (l & ->). apply elem_of_app. right. by left.
Qed.

Lemma inv_commit c l : inv c l -> inv (commit c) l.
Proof.
  intros [H1 H2 H3 H4 H5 H6 H7 H8 H9]. constructor; try done; cbn.
  - intros t v Ht Hv. apply elem_of_app. left. by eapply H4.
  - intros h Hh. apply H5 in Hh as [? ?]. split; [done|]. apply elem_of_app. by left.
  - by intros [_ ?]%app_eq_nil.
  - intros v Hv. enough (v <= current (commit c))%nat by done.
    assert (current (commit c) = S (current c)) as -> by (unfold commit; generalize (S (current c)); intros n; unfold current; cbn; by rewrite last_snoc). apply elem_of_app in Hv as [Hv| ->%list_elem_of_singleton]; [apply H8 in Hv; lia|done].
Qed.

Lemma inv_collect c c' l : inv c l -> collect c = Some c' -> inv c' l.
Proof.
  intros [H1 H2 H3 H4 H5 H6 H7 H8 H9] E. unfold collect in E. destruct (txns c) as [|v [|u vs]] eqn:Et; try done.
  destruct (Nat.eqb_spec (refs c v) 0) as [Hr|]; [|done]. injection E as <-. unfold on_txn_freed. rewrite H3 in Hr.
  constructor; try (by case_bool_decide); cbn.
  - intros t w Ht Hw. specialize (H4 t w Ht Hw). apply list.elem_of_cons in H4 as [-> |H4]; [|exact H4]. by destruct (pins_zero v l t Hr Ht).
  - intros h. case_bool_decide as Hv; [done|]. cbn. intros Hh. apply H5 in Hh as Hh'. destruct Hh' as [Hm Hin]. split; [done|].
    apply list.elem_of_cons in Hin as [-> |Hin]; [done|exact Hin].
  - intros w Hw. assert (w <= current c)%nat as Hc by (apply H8; by right). unfold current in *. by rewrite Et in Hc.
Qed.

Lemma inv_enter c c' l t : inv c l -> enter c = Some (t, c') -> inv c' (t :: l).
Proof.
  intros [H1 H2 H3 H4 H5 H6 H7 H8 H9] E. unfold enter in E. destruct (update_lock c) eqn:El; [done|].
  destruct (Nat.eqb_spec (ref_count c) 0) as [E0|E0]; injection E as <- <-.
  - rewrite H1 in E0. apply nil_length_inv in E0 as ->. constructor; cbn; try done.
    + by rewrite H1.
    + by exists First.
    + intros t v ->%list_elem_of_singleton. done.
    + by intros v ?%list_elem_of_singleton.
    + by intros v h ?%list_elem_of_singleton.
  - constructor; cbn; try done.
    + by rewrite H1.
    + rewrite El. by constructor.
    + intros t v [-> |Ht]%list.elem_of_cons; [done|by apply H4].
    + intros v [|Hv]%list.elem_of_cons; [done|by apply H6].
    + intros v h [|Hv]%list.elem_of_cons; [done|by apply H9].
Qed.

Lemma inv_holder c t l : inv c (t :: l) -> holder t = true -> update_lock c = true /\ l = [].
Proof.
  intros I Ht. pose proof (inv_lock _ _ I) as H. destruct (update_lock c); [|apply list.Forall_cons in H as [H _]; congruence].
  destruct H as (u & E & _). by injection E as _ ->.
Qed.

Lemma inv_others c t l : inv c (t :: l) -> holder t = false -> update_lock c = false /\ Forall (fun u => holder u = false) l.
Proof.
  intros I Ht. pose proof (inv_lock _ _ I) as H. destruct (update_lock c); [|by apply list.Forall_cons in H as [_ H]].
  destruct H as (u & E & Hu). injection E as -> _. congruence.
Qed.

(** A session that pins a version that is kept. *)
Lemma inv_pin c t t' l v c' : inv c (t :: l) -> holder t = holder t' -> holds t = None -> holds t' = Some v -> v ∈ txns c ->
  update_lock c' = update_lock c -> ref_count c' = ref_count c -> mirrored c' = mirrored c -> txns c' = txns c -> refs c' = refs c ->
  (hashed c' = hashed c \/ hashed c' = None) -> (forall w, t' = Active w true -> mirrored c = Some w) -> (t' = Checking v -> v = current c) -> inv (pin v c') (t' :: l).
Proof.
  intros [H1 H2 H3 H4 H5 H6 H7 H8 H9] Eh Et Et' Hv E1 E2 E3 E4 E5 E6 Ha Hc. constructor; cbn [pin set_refs ref_count update_lock refs txns hashed mirrored]; rewrite ?E1, ?E2, ?E3, ?E4, ?E5; try done.
  - destruct (update_lock c); [|apply list.Forall_cons in H2 as [Hu H2]; constructor; [congruence|done]]. destruct H2 as (u & E & Hu). injection E as -> ->. exists t'. by rewrite <- Eh.
  - intros w. specialize (H3 w). rewrite pins_cons, Et in H3. rewrite pins_cons, Et'. destruct (decide (w = v)) as [->|Ew]; [rewrite bool_decide_eq_true_2 by done; rewrite H3; done|].
    rewrite bool_decide_eq_false_2 by congruence. exact H3.
  - intros u w [-> |Hu]%list.elem_of_cons Hw; [congruence|]. apply (H4 u w); [by right|done].
  - intros h Hh. apply H5. by destruct E6 as [<-|E6]; [|congruence].
  - intros w [E|Hw]%list.elem_of_cons; [by apply Ha|]. apply H6. by right.
  - intros w Hw. unfold current. cbn. rewrite E4. by apply H8.
  - intros w h [E|Hw]%list.elem_of_cons Hh; [|apply (H9 w); [by right|by destruct E6 as [<-|E6]; [|congruence]]].
    subst t'. injection Et' as ->. rewrite Hc by done. apply H8, H5. by destruct E6 as [<-|E6]; [|congruence].
Qed.

(** A session that goes on with its version, giving up the lock. *)
Lemma inv_active_on c t v : inv c [t] -> holder t = true -> holds t = Some v -> mirrored c = Some v -> inv (set_lock false c) [Active v true].
Proof.
  intros [H1 H2 H3 H4 H5 H6 H7 H8 H9] Ht Hv Hm. constructor; cbn [set_lock ref_count update_lock refs txns hashed mirrored]; try done.
  - by constructor.
  - intros w. rewrite H3, !pins_cons. by rewrite Hv.
  - intros u w ->%list_elem_of_singleton Hw. cbn in Hw. apply (H4 t); [by left|congruence].
  - intros w [=]%list_elem_of_singleton. congruence.
  - by intros w h ?%list_elem_of_singleton.
Qed.

Lemma inv_session c t others o c' : inv c (t :: others) -> session_step false t c = (o, c') -> inv c' (keep o others).
Proof.
  intros I E. pose proof (inv_holder _ _ _ I) as Hh. pose proof (inv_others _ _ _ I) as Hn. destruct t as [|v|v| |v b|]; cbn in E, Hh, Hn.
  - injection E as <- <-. eapply inv_pin; try done; [by apply current_in, I|by left].
  - destruct (Hh eq_refl) as [Hl ->]. destruct (needs_update v c) eqn:En; injection E as <- <-.
    + destruct I as [H1 H2 H3 H4 H5 H6 H7 H8 H9]. constructor; try done.
      * rewrite Hl. by eexists.
      * intros w. rewrite H3. unfold keep. by rewrite !pins_cons.
      * intros u w ->%list_elem_of_singleton Hw. apply (H4 (Checking v)); [by left|done].
      * by intros w ?%list_elem_of_singleton.
      * by intros w h ?%list_elem_of_singleton.
    + eapply inv_active_on; try done. unfold needs_update in En. destruct (hashed c) as [h|] eqn:Eh; [|done]. apply Nat.ltb_ge in En.
      destruct (inv_hashed _ _ I h Eh) as [Hm _]. assert (h <= v)%nat by (apply (inv_checking _ _ I); [by left|done]). rewrite Hm. f_equal. lia.
  - destruct (Hh eq_refl) as [Hl ->]. injection E as <- <-. destruct I as [H1 H2 H3 H4 H5 H6 H7 H8 H9].
    assert (v ∈ txns c) as Hv by (apply (H4 (Updating v)); [by left|done]).
    eapply (inv_active_on (set_hashed (Some v) (set_mirrored (Some v) c)) (Updating v)); try done. constructor; try done.
    + cbn. by intros h [= ->].
    + by intros w ?%list_elem_of_singleton.
    + by intros w h ?%list_elem_of_singleton.
  - destruct (hashed c) as [h|] eqn:Eh; injection E as <- <-.
    + destruct (inv_hashed _ _ I h Eh) as [Hm Hin]. eapply inv_pin; try done; [by left|]. intros w [=]. congruence.
    + eapply inv_pin; try done; [by apply current_in, I|by right].
  - injection E as <- <-. destruct (Hn eq_refl) as [Hl Hf]. destruct I as [H1 H2 H3 H4 H5 H6 H7 H8 H9]. constructor; cbn; try done.
    + rewrite Hl. by constructor.
    + intros w. specialize (H3 w). rewrite pins_cons in H3. rewrite pins_cons, (bool_decide_eq_false_2 (holds Unpinned = Some w)) by done. cbn in H3. destruct (decide (w = v)) as [->|Ew]; [rewrite bool_decide_eq_true_2 in H3 by done; lia|].
      rewrite bool_decide_eq_false_2 in H3 by congruence. exact H3.
    + intros u w [-> |Hu]%list.elem_of_cons Hw; [done|]. apply (H4 u w); [by right|done].
    + intros w [|Hw]%list.elem_of_cons; [done|]. apply H6. by right.
    + intros w h [|Hw]%list.elem_of_cons; [done|]. apply H9. by right.
  - injection E as <- <-. destruct (Hn eq_refl) as [Hl Hf]. destruct I as [H1 H2 H3 H4 H5 H6 H7 H8 H9]. constructor; cbn; try done.
    + rewrite H1. cbn. lia.
    + by rewrite Hl.
    + intros u w Hu. apply H4. by right.
    + intros w Hw. apply H6. by right.
    + intros w h Hw. apply H9. by right.
Qed.

Lemma control_step c l c' l' : inv c l -> step false (c, l) (c', l') -> inv c' l'.
Proof.
  intros I St. inversion St as [|? ? ? E|? ? ? ? E|? ? t others full o ? E Hf E']; subst; clear St.
  - by apply inv_commit.
  - by eapply inv_collect.
  - by eapply inv_enter.
  - destruct full; [by specialize (Hf eq_refl)|]. apply (control_perm _ _ _ E) in I. by eapply inv_session.
Qed.

Lemma control_initial : inv initial.1 initial.2.
Proof.
  constructor; cbn; try done; try (by constructor).
  - intros t v Ht. by apply not_elem_of_nil in Ht.
  - intros v Ht. by apply not_elem_of_nil in Ht.
  - by intros v ->%list_elem_of_singleton.
Qed.

Lemma control_reachable c l : reachable false (c, l) -> inv c l.
Proof.
  intros R. remember (c, l) as w eqn:Ew. assert (inv w.1 w.2) as H; [|by subst]. clear Ew c l. unfold reachable in R. pose proof control_initial as H0. revert H0.
  induction R as [w|[c l] [c' l'] w St _ IH]; [done|]. intros H0. apply IH. by eapply control_step.
Qed.


(** ** Runs *)

Lemma run_session fails full t others c l o c' w : l ≡ₚ t :: others -> (full = true -> fails = true) -> session_step full t c = (o, c') ->
  rtc (step fails) (c', keep o others) w -> rtc (step fails) (c, l) w.
Proof. intros E Hf Et. apply rtc_l. by eapply step_session. Qed.

Ltac goes t k := eapply (run_session _ false t k); [solve_Permutation|done|reflexivity|cbn].
Ltac enters := eapply rtc_l; [by eapply step_enter|cbn].
Ltac commits := eapply rtc_l; [by apply step_commit|cbn].
Ltac collects := eapply rtc_l; [by eapply step_collect|cbn].
Ltac first_session := enters; goes First (@nil point); goes (Checking 1) (@nil point); goes (Updating 1) (@nil point).


(** The version is let go before the count: where it is freed in between, a session that
    starts then finds no name, and uses the current version with the tries of another. *)
Theorem unnamed_session_mismatches : exists c, reachable false (c, [Active 2 false; Unpinned]) /\ mirrored c = Some 1%nat.
Proof.
  eexists. split.
  - unfold reachable, initial. first_session. commits. goes (Active 1 true) (@nil point). collects. enters. goes Second [Unpinned]. apply rtc_refl.
  - done.
Qed.

(** A session that starts again to see what it has committed gets the old version as long
    as another one is there. *)
Theorem restart_sees_old_version : exists c, reachable false (c, [Active 1 true; Active 1 true]) /\ current c = 2%nat.
Proof.
  eexists. split.
  - unfold reachable, initial. first_session. enters. goes Second [Active 1 true]. commits. goes (Active 1 true) [Active 1 true].
    goes Unpinned [Active 1 true]. enters. goes Second [Active 1 true]. apply rtc_refl.
  - done.
Qed.

(** More is counted than there are sessions. *)
Definition stuck (c : control) (l : list point) : Prop :=
  mirrored c = None /\ (length l < ref_count c)%nat /\ Forall (fun t => holder t = false) l.

Lemma count_stays c l c' l' : stuck c l -> step true (c, l) (c', l') -> stuck c' l'.
Proof.
  intros (Hm & Hc & Hl) St. inversion St as [|? ? ? E|? ? ? ? E|? ? t others full o ? E _ E']; subst; clear St.
  - done.
  - unfold collect in E. destruct (txns c) as [|v [|u vs]]; try done. case_match; [|done]. injection E as <-. unfold on_txn_freed. by case_bool_decide.
  - unfold enter in E. destruct (update_lock c); [done|]. destruct (Nat.eqb_spec (ref_count c) 0); [lia|]. injection E as <- <-.
    unfold stuck. cbn. split_and!; [done|lia|by constructor].
  - rewrite E in Hl, Hc. apply list.Forall_cons in Hl as [Ht Hl]. cbn in Hc. unfold stuck.
    destruct t; try done; cbn in E'; [case_match| |]; injection E' as <- <-; cbn; (split_and!; [done|lia|]); try done; by constructor.
Qed.

(** An update that runs out of storage leaves its count for good: no later session updates
    the tries again. *)
Theorem broken_update_is_final : exists c, reachable true (c, []) /\ mirrored c = None /\
  forall c' l', rtc (step true) (c, []) (c', l') -> mirrored c' = None /\ (0 < ref_count c')%nat.
Proof.
  exists (Control false 1 None None [1%nat] (fun u => if decide (u = 1%nat) then 1%nat else 0%nat)). split_and!; [|done|].
  - unfold reachable, initial. enters. goes First (@nil point). goes (Checking 1) (@nil point).
    eapply (run_session _ true (Updating 1) []); [done|done|reflexivity|]. apply rtc_refl.
  - intros c' l' R. match type of R with rtc _ ?w _ => assert (stuck w.1 w.2) as H by (split_and!; [done|cbn; lia|done]) end.
    assert (stuck (c', l').1 (c', l').2) as (H1 & H2 & _); [|cbn in *; split; [done|lia]]. revert H.
    induction R as [w|[c l] [d k] w St _ IH]; [done|]. intros H. apply IH. by eapply count_stays.
Qed.
End hashcontrolfacts.
