(* ===== verification/Purge.v ===== *)
(** * Purge: the tombstones of a replicated database

    Models the value that [remove] of [_ReplicationCursor] writes, and [_do_purge] and
    [_run_purge] of [replication/_replication_db.hpp]. The deletion trie is the list of its
    entries in the order of their keys, which is what its cursor goes through
    ([TrieIter], [TrieRemove]); the clock is an argument. *)
From S2P Require Import Prelude Bytes.

Module purge.
Import bytes.

Definition MAX64 : Z := 2 ^ 64.

(** A key and its value: the time of the deletion in eight bytes, and what the caller
    adds. *)
Definition entry : Type := list Z * list Z.

Definition tombstone (now : Z) (meta : list Z) : list Z := le_bytes 8 now ++ meta.

Definition timestamp (v : list Z) : option Z := if (8 <=? length v)%nat then Some (le_value (take 8 v)) else None.

(** [PurgeResult], with the entries that remain and whether the loop was left. *)
Record result := Result { remaining : list entry; purged : nat; oldest_ts : Z; interrupted : bool }.

Definition keep_entry (e : entry) (r : result) : result := Result (e :: remaining r) (purged r) (oldest_ts r) (interrupted r).
Definition older (ts oldest : Z) : Z := if (oldest =? 0) || (ts <? oldest) then ts else oldest.

(** The loop; [interrupt] is the number of entries after which the flag is seen, [None] if
    it is never set. *)
Fixpoint purge_loop (older_than : Z) (interrupt : option nat) (l : list entry) (count : nat) (oldest : Z) : result :=
  match l with
  | [] => Result [] count oldest false
  | (k, v) :: rest =>
      match interrupt with
      | Some O => Result l count oldest true
      | _ =>
          let interrupt := option_map pred interrupt in
          match timestamp v with
          | Some ts =>
              if ts <=? older_than then purge_loop older_than interrupt rest (S count) oldest
              else keep_entry (k, v) (purge_loop older_than interrupt rest count (older ts oldest))
          | None => keep_entry (k, v) (purge_loop older_than interrupt rest count oldest)
          end
      end
  end.

(** [_do_purge] *)
Definition do_purge (older_than : Z) (interrupt : option nat) (l : list entry) : result :=
  let r := purge_loop older_than interrupt l 0 0 in
  if interrupted r && (oldest_ts r =? 0) && (0 <? purged r)%nat
  then Result (remaining r) (purged r) (if 0 <? older_than then older_than else 1) true
  else r.

(** [_run_purge]: the result, and in how many seconds the next run is. *)
Definition run_purge (now retention : Z) (interrupt : option nat) (l : list entry) : result * Z :=
  let older_than := if retention <? now then now - retention else 0 in
  let r := do_purge older_than interrupt l in
  (r, if 0 <? oldest_ts r
      then let expire_at := (oldest_ts r + retention) mod MAX64 in if now <? expire_at then expire_at - now else 0
      else retention).

(** ** What a run does *)

Definition expired (older_than : Z) (e : entry) : bool :=
  match timestamp e.2 with Some ts => ts <=? older_than | None => false end.
Definition times (l : list entry) : list Z := omap (fun e => timestamp e.2) l.

Definition alive (older_than : Z) (e : entry) : bool := negb (expired older_than e).

Lemma tombstone_time now meta : 0 <= now < MAX64 -> timestamp (tombstone now meta) = Some now.
Proof.
  intros H. unfold timestamp, tombstone. rewrite length_app, le_bytes_length. replace (8 <=? 8 + length meta)%nat with true by (symmetry; apply Nat.leb_le; lia).
  rewrite take_app_length' by (by rewrite le_bytes_length). by rewrite le_value_bytes.
Qed.

Lemma filter_alive t k v l : List.filter (alive t) ((k, v) :: l) =
  if match timestamp v with Some ts => ts <=? t | None => false end then List.filter (alive t) l else (k, v) :: List.filter (alive t) l.
Proof. cbn [List.filter]. unfold alive at 1, expired. cbn [snd]. by destruct (timestamp v) as [ts|]; [destruct (ts <=? t)|]. Qed.

Lemma filter_expired t k v l : List.filter (expired t) ((k, v) :: l) =
  if match timestamp v with Some ts => ts <=? t | None => false end then (k, v) :: List.filter (expired t) l else List.filter (expired t) l.
Proof. reflexivity. Qed.

(** Whatever the interruption, only what is expired is removed. *)
Lemma purge_loop_keeps t i l n o : List.filter (alive t) (remaining (purge_loop t i l n o)) = List.filter (alive t) l.
Proof.
  revert i n o. induction l as [|[k v] l IH]; intros i n o; [done|]. cbn [purge_loop]. destruct i as [[|i]|]; [done| |].
  all: rewrite filter_alive; destruct (timestamp v) as [ts|] eqn:E; [destruct (ts <=? t) eqn:El|]; cbn [keep_entry remaining]; rewrite ?filter_alive, ?E, ?El; by rewrite IH.
Qed.

Lemma purge_loop_all t l n o :
  let r := purge_loop t None l n o in
  remaining r = List.filter (alive t) l /\ purged r = (n + length (List.filter (expired t) l))%nat /\ interrupted r = false /\
  oldest_ts r = foldl (fun o ts => older ts o) o (times (List.filter (alive t) l)).
Proof.
  revert n o. induction l as [|[k v] l IH]; intros n o; [cbn; split_and!; lia || done|]. cbn [purge_loop option_map]. rewrite filter_alive, filter_expired.
  destruct (timestamp v) as [ts|] eqn:E; [destruct (ts <=? t) eqn:El|]; cbn [keep_entry remaining purged oldest_ts interrupted].
  - destruct (IH (S n) o) as (-> & -> & -> & ->). cbn. split_and!; lia || done.
  - destruct (IH n (older ts o)) as (-> & -> & -> & ->). unfold times. cbn. by rewrite E.
  - destruct (IH n o) as (-> & -> & -> & ->). unfold times. cbn. by rewrite E.
Qed.

Lemma older_least l o : Forall (fun ts => 0 < ts) l -> 0 <= o ->
  let m := foldl (fun o ts => older ts o) o l in
  (m = 0 <-> o = 0 /\ l = []) /\ (0 < m -> m = o \/ m ∈ l) /\ (forall ts, ts ∈ l -> 0 < m <= ts) /\ (0 < o -> 0 < m <= o).
Proof.
  revert o. induction l as [|ts l IH]; intros o F Ho; cbn.
  - split_and!; [naive_solver|by left|intros ts Ht; by apply not_elem_of_nil in Ht|lia].
  - apply list.Forall_cons in F as [Hts F]. assert (0 < older ts o /\ (older ts o <= ts) /\ (0 < o -> older ts o <= o) /\ (older ts o = ts \/ older ts o = o)) as (H1 & H2 & H3 & H4).
    { unfold older. destruct (Z.eqb_spec o 0), (Z.ltb_spec ts o); cbn; lia. }
    destruct (IH (older ts o) F ltac:(lia)) as (I1 & I2 & I3 & I4). specialize (I4 H1). split_and!.
    + split; [lia|]. by intros [_ ?].
    + intros Hm. destruct (I2 Hm) as [->|Hin]; [destruct H4 as [->| ->]; [right; by left|by left]|right; by right].
    + intros u [->|Hu]%list.elem_of_cons; [lia|by apply I3].
    + lia.
Qed.

(** C20: a run that is not interrupted removes exactly the tombstones that are as old as
    the retention; the next run is when the oldest one that remains is as old, and after
    one retention if there is none. *)
Theorem purge_removes_expired now retention l : 0 <= now -> 0 <= retention -> Forall (fun ts => 0 <= ts /\ ts + retention < MAX64) (times l) ->
  let t := if retention <? now then now - retention else 0 in
  let '(r, wait) := run_purge now retention None l in
  remaining r = List.filter (alive t) l /\ purged r = length (List.filter (expired t) l) /\
  (times (remaining r) = [] -> wait = retention) /\
  (times (remaining r) <> [] -> exists ts, ts ∈ times (remaining r) /\ now + wait = ts + retention) /\
  (forall ts, ts ∈ times (remaining r) -> now + wait <= ts + retention).
Proof.
  intros Hn Hr F t. unfold run_purge. fold t. unfold do_purge. destruct (purge_loop_all t l 0 0) as (E1 & E2 & E3 & E4).
  set (r := purge_loop t None l 0 0) in *. clearbody r. rewrite E3. cbn [andb]. rewrite <- E1 in E4.
  assert (Forall (fun ts => 0 < ts /\ now < ts + retention < MAX64) (times (remaining r))) as Fr.
  { rewrite E1. apply list.Forall_forall. intros ts (e & He & Ets)%list_elem_of_omap. apply list_elem_of_In, filter_In in He as [He Ha].
    assert (ts ∈ times l) as Hin by (apply list_elem_of_omap; exists e; split; [by apply list_elem_of_In|done]).
    rewrite list.Forall_forall in F. specialize (F ts Hin). unfold alive, expired in Ha. rewrite Ets in Ha. unfold t in Ha. destruct (Z.ltb_spec retention now); lia. }
  destruct (older_least (times (remaining r)) 0) as (I1 & I2 & I3 & _); [eapply Forall_impl; [|exact Fr]; cbn; lia|lia|]. rewrite <- E4 in I1, I2, I3.
  assert (oldest_ts r ∈ times (remaining r) -> 0 < oldest_ts r ->
    now + (if 0 <? oldest_ts r then if now <? (oldest_ts r + retention) mod MAX64 then (oldest_ts r + retention) mod MAX64 - now else 0 else retention) = oldest_ts r + retention) as Hwait.
  { intros Hin Hp. rewrite list.Forall_forall in Fr. specialize (Fr _ Hin). replace (0 <? oldest_ts r) with true by lia. rewrite Z.mod_small by lia.
    replace (now <? oldest_ts r + retention) with true by lia. lia. }
  rewrite E2. split_and!; [done|done| | |].
  - intros E. destruct (Z.ltb_spec 0 (oldest_ts r)); [|done]. assert (oldest_ts r = 0) by (by apply I1). lia.
  - intros Hne. destruct (Z.eq_dec (oldest_ts r) 0) as [E|E]; [by destruct Hne; apply I1|].
    assert (0 < oldest_ts r) as Hp by (destruct (times (remaining r)) as [|ts k]; [done|]; apply (I3 ts); by left).
    exists (oldest_ts r). destruct (I2 Hp) as [|Hin]; [lia|]. split; [done|]. by apply Hwait.
  - intros ts Hts. specialize (I3 ts Hts). destruct (I2 ltac:(lia)) as [|Hin]; [lia|]. rewrite (Hwait Hin ltac:(lia)). lia.
Qed.

Example purge_removes_expired_witness : let '(r, wait) := run_purge 100 10 None [([97], tombstone 50 []); ([98], tombstone 95 [1])] in
  remaining r = [([98], tombstone 95 [1])] /\ purged r = 1%nat /\ 100 + wait <= 95 + 10.
Proof.
  destruct (purge_removes_expired 100 10 [([97], tombstone 50 []); ([98], tombstone 95 [1])]) as (H1 & H2 & _ & _ & H3); [lia|lia| |].
  - change (Forall (fun ts => 0 <= ts /\ ts + 10 < MAX64) [50; 95]). by repeat constructor.
  - split_and!; [exact H1|exact H2|]. apply H3. change (95 ∈ [95]). by left.
Defined.

(** A run that a transaction interrupts before it has removed anything waits as if nothing
    had expired: the tombstones stay for another retention. *)
Theorem interrupted_purge_waits : let '(r, wait) := run_purge 100 10 (Some 0%nat) [([97], tombstone 50 [])] in
  remaining r = [([97], tombstone 50 [])] /\ wait = 10.
Proof. by vm_compute. Qed.

(** So does one that has seen a younger tombstone first. *)
Theorem interrupted_purge_waits_for_younger : let '(r, wait) := run_purge 100 10 (Some 2%nat) [([97], tombstone 50 []); ([98], tombstone 98 []); ([99], tombstone 50 [])] in
  map fst (remaining r) = [[98]; [99]] /\ wait = 8.
Proof. by vm_compute. Qed.
End purge.
